(* ===== verification/_CoqProject ===== *)
-Q . S2P
Prelude.v
Text.v
Protocol.v
GtpuExtension.v
GtpuChain.v
GtpuTyped.v
GtpuMessage.v
GtpuRoundtrip.v
GtpuControl.v
GtpuControlExtensions.v
GtpuControlIes.v
GtpuControlRefs.v
GtpuControlFrames.v
GtpuControlRoundtrip.v
Gre.v
TftModel.v
TftValid.v
TftCodec.v
TftRoundtrip.v
SessionTypes.v
SessionRetention.v
SessionTtl.v
SessionReplication.v
SessionStore.v
SessionInvariant.v
SessionFencing.v
SessionReplay.v
SessionSafety.v
SessionReplica.v
SessionTotal.v
NacmPath.v
NacmRules.v
NacmTrie.v
NacmPolicy.v
AlarmModel.v
AlarmStore.v
AlarmManager.v
AlarmLifecycle.v
AlarmRuns.v
AlarmNacm.v
AlarmSink.v
FenceAbi.v
FenceCodec.v
FencePacket.v
FenceKernel.v
FenceSystem.v
FenceInvariant.v
FenceSteps.v
FenceReach.v
FenceSafety.v
FenceTrace.v
FenceLayout.v
FenceReport.v
FenceSamples.v
FenceBound.v
FenceLifecycle.v
FenceEngine.v
FenceControl.v
FenceSocket.v
FenceGuardian.v
FenceWorld.v
FenceClient.v
FenceOperations.v
FenceServe.v
FenceLedger.v
FenceGuarded.v
FenceTransitions.v
FenceWorldSamples.v
