(* ===== verification/Prelude.v ===== *)
(** * A verification library for the OpenPacketCore SDK

    The SDK is a Rust workspace (under src/crates) of building blocks for mobile
    core network functions: wire codecs, a session store with leases and
    replication, management-plane access control, alarms, and the I/O around them.
    This library models several of these blocks and proves what their users rely
    on.

    ** The parts and how they meet

    A network function decodes packets with a protocol crate.  Every such crate
    implements the traits of [opc-protocol] and takes its limits from a
    [DecodeContext] or an [EncodeContext].  What the function learns about a
    subscriber goes into the session store: a client acquires a lease on a key,
    gets a guard with a fence number, and every write names its guard, so a client
    that was superseded cannot write any more.  Each committed command appends an
    entry to a journal; a replica replays entries and a restart rebuilds from them.
    Management requests on the function's configuration are authorized by NACM, a
    list of rules over YANG paths, compiled into a trie and answered through a
    cache.  Faults are raised as alarms: the manager merges repeated ones by a
    deduplication key, keeps the active ones and a history in a bounded store, asks an
    authorizer, which may be NACM, before an operator acknowledges or suppresses one,
    and hands alarms to a bounded sink that delivers them in the background.  On the
    way out of the node, the egress fence decides packet by packet: programs in the
    kernel let UDP from a protected endpoint pass only from the socket that the current
    lifecycle registered, and only until its deadline; control programs in the kernel
    publish, register, activate, refresh, close and reclaim under one spin lock.  In
    userspace a guardian owns the socket: it acquires a lease from a durable authority
    such as the session store, has its engine open the gate through the kernel control
    until a deadline within the lease, renews, sends, and retires the lifecycle before it
    gives the lease back.

    ** Which file models what

    - [Prelude]: the outcome of a Rust computation, machine integers, slices, and
      the lemmas, tactics and hint databases shared by the rest.
    - [Text]: the part of Rust's [str] and [BTreeSet<String>] the sources use.
    - [Protocol]: [opc-protocol/src/context.rs] and [error.rs].
    - [GtpuExtension], [GtpuChain], [GtpuTyped]: GTP-U extension headers, the
      one-pass summary of a chain with its builders, and the typed values
      ([opc-proto-gtpu/src/extension.rs], [lib.rs]).
    - [GtpuMessage], [GtpuRoundtrip]: the GTP-U message codec ([lib.rs]) and its
      theorems.
    - [GtpuControl]: the GTP-U path and tunnel management messages ([control.rs]),
      definitions only; [GtpuControlExtensions], [GtpuControlIes], [GtpuControlRefs],
      [GtpuControlFrames]: its extension headers, its information elements untyped
      and typed, and its frames; [GtpuControlRoundtrip]: its theorems.
    - [Gre]: the NWu GRE codec and the mapping of QoS flows
      ([opc-proto-gre/src/lib.rs], [mapping.rs]).
    - [TftModel], [TftValid]: Traffic Flow Template values and validation
      ([opc-proto-tft/src/model.rs], [error.rs]), and the specification of validity.
    - [TftCodec], [TftRoundtrip]: the Traffic Flow Template codec ([codec.rs]) and
      its theorems.
    - [SessionTypes], [SessionRetention], [SessionTtl], [SessionReplication]: the
      data of the session store, bounded key history, deadlines, and the journal
      ([opc-session-store/src/model.rs], [record.rs], [lease.rs], [capability.rs],
      [key_retention.rs], [ttl.rs], [backend.rs], [replay_policy.rs]).
    - [SessionStore]: the in-memory backend and lease manager ([fake/mod.rs],
      [fake/read_expiry.rs]), definitions only.
    - [SessionInvariant], [SessionFencing], [SessionReplay], [SessionSafety],
      [SessionReplica], [SessionTotal]: its invariant, preservation, safety,
      replication and progress.
    - [NacmPath], [NacmRules], [NacmTrie], [NacmPolicy]: YANG paths and patterns,
      rules and rule-lists, the rule trie, policies and the caching evaluator
      ([opc-nacm/src/path.rs], [action.rs], [trie.rs], [policy.rs]).
    - [AlarmModel]: severities, probable causes, affected objects, deduplication keys
      and alarms ([opc-alarm/src/model.rs]).
    - [AlarmStore], [AlarmManager]: the store trait with its promises, the store in
      memory, and the manager over any store, authorizer and audit sink
      ([opc-alarm/src/manager/state.rs], [admin.rs], [audit.rs], [security.rs],
      [metrics.rs]); [AlarmLifecycle], [AlarmRuns]: what its operations do, and whole
      runs.
    - [AlarmNacm]: the NACM authorizer of alarm actions ([nacm_adapter.rs]).
    - [AlarmSink]: the bounded sink ([sink.rs]).
    - [FenceAbi]: the formats and decisions of the egress fence
      ([opc-egress-fence-common/src/lib.rs]), definitions only; [FenceCodec]: the
      formats are exact.
    - [FencePacket]: the reference packet parser ([packet.rs]) and the parser of the
      kernel program ([opc-egress-fence-ebpf/src/main.rs]), and that they agree.
    - [FenceKernel]: the map values, decoders and critical sections of the kernel
      programs ([main.rs]); [FenceSystem]: the programs as interleaved invocations over
      the maps; both definitions only.
    - [FenceInvariant], [FenceSteps], [FenceReach]: the invariant of the maps and of
      every invocation, and that each step and each run keeps it.
    - [FenceSafety], [FenceTrace], [FenceReport]: what holds of every interleaving;
      [FenceLayout]: the structures in memory and the shared formats; [FenceSamples]:
      sample runs with the theorems applied to them.
    - [FenceLifecycle], [FenceEngine]: the values of the lease-bound lifecycle and its
      engine ([opc-egress-fence/src/lifecycle.rs], [lifecycle_engine.rs]);
      [FenceControl]: the Linux kernel control ([linux_control.rs]); [FenceSocket]: the
      fenced socket ([socket.rs]); [FenceGuardian]: the guardian ([guardian.rs]); all
      definitions only.
    - [FenceBound]: which deadlines a run of the kernel programs can hold, from the
      requests made of them; [FenceWorld]: what the parts promise each other, and that
      the Linux control keeps the promises of a kernel control.
    - [FenceClient], [FenceOperations]: the invariant of an engine and the kernel, kept
      by every operation, and what a successful operation has seen; [FenceServe],
      [FenceLedger]: the same for sockets and guardians, and the accounting of the lease.
    - [FenceTransitions], [FenceGuarded]: the theorems on single operations and on whole
      lives of guardians; [FenceWorldSamples]: a world that keeps every promise, with a
      guardian run in it from acquisition to retirement.

    ** How the code is represented

    A fallible function returns an [outcome]: [Ok], [Err] with the error value of
    the source, or [Crash] for a panic.  A codec works on lists of octets; a call
    that appends to a buffer returns the buffer after the call together with the
    result, so what a failing call leaves behind is part of the model.  A Rust
    integer is a [Z]; checked, saturating and plain arithmetic are written out, and
    the width of a field is a hypothesis or part of an invariant.  [usize] has 64
    bits.

    The session store is a record [FakeBackendState] with the maps of the source.
    A command runs under one mutex, so it is a function from the backend to the
    backend that stages a copy, validates, finalizes and publishes, as the source
    does.  The clock's sample is an argument of the command.  [step] lists the
    commands, replicated entries and rebuilds, and the theorems on whole histories
    speak of its reflexive transitive closure.  An
    evaluator of NACM is a record with its cache, its eviction queue and its
    counters; a run is a list of calls over any policies.

    The alarm manager is generic over the classes [AlarmStore], [AlarmActionAuthorizer]
    and [AlarmAuditSink], the traits of the source; its theorems use the promises
    [AlarmStoreLaws], which [memory_laws] shows of the store in memory.  The alarm
    sink is a step relation: callers of [send], the worker and shutdown take turns, a
    read or a write of shared state at a time, and the worker may fail to start or be
    cancelled where it waits.

    The egress fence is a transition system.  [FenceMaps] has the maps of the kernel
    programs and the clock; the hash map links keys to elements, so a pointer an
    invocation keeps is the index of an element that may since have been unlinked and
    overwritten.  An invocation is at a [Phase] with the locals it still needs.  One
    event starts an invocation, lets one take its next atomic step (a critical section,
    or one helper call outside it), lets time pass, or overwrites an unlinked element;
    [run] executes any sequence of events.  A [Choice] says what a helper answers where
    the kernel may refuse.  Invariants are stated for an arbitrary interleaving by what
    the others may do ([interferes]) and must not do while a claim is held ([quiet]).

    The userspace of the fence runs in a world [W] it shares with the kernel: a call is
    an [Io], a function of the state that returns the state and an [outcome].  The traits
    of the source are classes ([BootClock], [KernelControl], [EgressFenceLeaseAuthority],
    [UdpSocket], [GuardianPorts]), and what a part relies on is a class of laws: a call
    moves the kernel's system by events only ([moves]), with control requests of a known
    kind, and a grant or a renewal promises the lease for the time asked ([lease_until]).
    So everything else, packets and other invocations included, may happen during any
    call.  A future that is dropped while it awaits the authority, the send or the
    [select!] is a result of the call.

    What the sources take from elsewhere is a parameter: the class [TimestampRange]
    gives the largest timestamp of the [time] crate; [ProgramRuns] and
    [InstallationIntegrity] run the kernel programs and check their installation;
    [Externals] gives SHA-256, the
    JSON type and the order of a [HashMap], [Channel] the channel of tokio, and
    [SkBuff] the socket buffer of a kernel program, each
    with the promises of its documentation and an instance for the witnesses.  The
    redaction of messages and the debug text of a tenant are arguments that nothing is
    assumed of.  Clock readings and drawn identifiers are arguments.

    ** What is proved

    - GTP-U: the decoder is total and accepts exactly the wire forms of consistent
      messages the context admits; raw-preserving encoding gives the input back;
      canonical encoding is stable; every outcome of the encoder is exact.  Chains:
      which chains the summary accepts, what each builder does to the headers.
      Typed extensions and the PDU Session Container: round trips both ways.
    - GTP-U control messages: the receiver is total and what it accepts is well formed;
      a well-formed message can be sent and is received as it was up to the sender's
      normalization; sending again what was received is stable; elements the receiver
      must skip do not matter.  NWu GRE: the receiver is exact, sending inverts it, and
      flow selection gives the declared associations or the fallback ones.
    - Traffic Flow Templates: [validate] decides a specification that does not
      mention the scan or the order of the components; the decoder is total and
      accepts exactly the encodings of valid templates within the caller's limits;
      encoding and decoding are inverse, and the default element budget suffices.
    - Session store: an invariant of every reachable state; fences never go down,
      through expiry, deletion, retirement and rotation; an acquired guard works
      until its deadline; a superseded or released guard is refused by every command and
      every slot of a batch, after any further client commands; a held lease excludes
      other owners; compare-and-set is exact on every branch.  A journal entry
      replayed on a replica, and a journal rebuilt from nothing, reproduce the
      published state.  Every command returns, keys and journal stay within their
      limits, and a free key that admission lets through is granted.
    - Key retention, deadlines and operation trees: rotation forgets only fences
      below the new floor, deadlines are exact or a typed error, and the bounded
      worklists decide exactly the bounds they stand for.
    - NACM: the pruned trie decides as the first matching rule in insertion order;
      the caching evaluator answers as the policies would and stays within its
      capacity; parsing yields well-formed paths and printing is inverted by it.
    - Alarms: the bytes hashed for a deduplication key determine the fault; raising is
      deduplicated; no run panics, leaves the limits, breaks the indexes or lets the
      gauge drift; the policy paths fail closed, and through NACM only an admitted
      principal whose scope covers the alarm, with an allowing first rule, gets
      through.  The text form of causes is inverted by parsing.  The bounded sink
      accounts for every accepted alarm: delivered, dropped and counted after the whole
      budget of attempts, held or queued, or lost when the worker could not start or was
      cut off; and its worker empties the queue in a bounded number of turns.
    - Egress fence: all eight formats are exact, and the kernel reads from memory
      exactly what they say.  The two packet parsers never fail, agree, and are exact
      about UDP from the endpoint.  In every interleaving: a packet that passes is
      unrelated or was authorized, at one moment, by the current token, its socket and a
      deadline not yet reached; an older, retired or closed lifecycle never opens the
      gate again; without control invocations authority lapses within the lifetime of
      the gate; the mutation claim has one holder, who can always go on and gives it
      back; an inspection reports one moment.
    - Lease-bound fence: with guardians over the Linux control started, failing, retiring
      or killed between steps, and no one else opening the gate, every protected packet
      that passed was decided before a deadline within the term the authority has
      promised.  A guardian always holds the guard its engine is bound to, and counts
      exactly the term it was granted; however it ends, socket and engine are closed, and
      the lease is in its error, was never granted, or was retired first.  Acquisition,
      renewal, sending, retirement, inspection and the renewal wait: what each has seen
      of the gate when it succeeds, that a renewed term ends strictly later, and that it leaves everything closed when it fails.

    ** Fuel

    Loops that do not recurse on their data take fuel, and running out is a [Crash],
    which the theorems exclude.  The GTP-U loops and the Traffic Flow Template
    loops take the number of octets left: each turn reads at least one.
    [finalize_loop] takes 3: after two rotations no retired key is left and it
    stops.  [drain] of a flow selection takes one more than the entries left.
    [digits] takes 20, the digits of the largest 64-bit number.  The
    operation tree worklists take 257: the source stops at 256 operations.
    [evict_loop] takes one more than the number of cached entries: each turn
    removes one.  The loops over IPv6 extension headers take [loop_turns], 5: the
    sources stop after 4 headers.  [wait] says so when it still waits after its fuel of
    sleeps, and a fuel of the time to wait over the poll interval is enough;
    [guardian_loop] is observed after its fuel of steps, because a guardian may run for
    ever, and its theorems hold for every fuel.

    ** What is not modelled

    Watch streams and the SQLite, consensus and networked session backends (Tokio
    channels and third-party storage); the kernel dataplane, IPsec and routing
    drivers; installing, pinning and inventorying the objects of the egress fence, which
    is system calls and files, the boot clock's timer, the producers' side of the
    guardian's queues, and the features of the kernel programs that inject faults for
    tests; a process killed in the middle of one operation of the engine, other than
    where it awaits; transports, servers, TLS and cryptography; serialization, redaction
    and Debug output.  The persistent audit sink of alarms and their presentation in
    Kubernetes and YANG.  The other codecs, the configuration bus and the operator
    lifecycle are outside the present scope.  The latency histogram an access decision
    feeds is left out. *)
From stdpp Require Export base numbers list gmap strings.
From Stdlib Require Export ZArith Lia.

#[global] Open Scope Z_scope.

(** ** Outcomes of a Rust computation

    [Ok] and [Err] are the two constructors of Rust's [Result].  [Crash] stands
    for what the code must never do: panic on an out-of-range index or slice, or
    still be looping when the fuel given to its loop is used up. *)

Inductive outcome (E A : Type) : Type :=
| Ok (a : A)
| Err (e : E)
| Crash.

Arguments Ok {E A} a.
Arguments Err {E A} e.
Arguments Crash {E A}.

Declare Scope rust_scope.
Delimit Scope rust_scope with rust.
#[global] Open Scope rust_scope.

(** Rust's [?] operator. *)
Notation "'let?' p := c 'in' k" :=
  (match c with
   | Ok p => k
   | Err e => Err e
   | Crash => Crash
   end)
  (at level 10, p pattern, c at level 100, k at level 200,
   format "'[v' let?  p  :=  c  in '/' k ']'") : rust_scope.

Definition map_err {E F A} (f : E → F) (r : outcome E A) : outcome F A :=
  match r with
  | Ok a => Ok a
  | Err e => Err (f e)
  | Crash => Crash
  end.

Definition map_ok {E A B} (f : A → B) (r : outcome E A) : outcome E B :=
  match r with
  | Ok a => Ok (f a)
  | Err e => Err e
  | Crash => Crash
  end.

(** [Option::ok_or]. *)
Definition ok_or {E A} (o : option A) (e : E) : outcome E A :=
  match o with
  | Some a => Ok a
  | None => Err e
  end.

Definition is_ok {E A} (r : outcome E A) : bool :=
  match r with Ok _ => true | _ => false end.

Definition is_err {E A} (r : outcome E A) : bool :=
  match r with Err _ => true | _ => false end.

Lemma map_err_ok {E F A} (f : E → F) (r : outcome E A) a : map_err f r = Ok a → r = Ok a.
Proof. destruct r; cbn; congruence. Qed.

(** A computation that finishes, with a value or with an error. *)
Definition returns {E A} (r : outcome E A) : Prop := r ≠ Crash.

(** ** Machine integers *)

Definition USIZE_MAX : Z := 18446744073709551615.
Definition U64_MAX : Z := 18446744073709551615.

Definition u8 (z : Z) : Prop := 0 ≤ z < 256.
Definition u16 (z : Z) : Prop := 0 ≤ z < 65536.
Definition u32 (z : Z) : Prop := 0 ≤ z < 4294967296.
Definition u64 (z : Z) : Prop := 0 ≤ z ≤ U64_MAX.

(** [usize::checked_add], [checked_sub], [checked_mul]. *)
Definition checked_add (a b : Z) : option Z :=
  if a + b <=? USIZE_MAX then Some (a + b) else None.
Definition checked_sub (a b : Z) : option Z :=
  if b <=? a then Some (a - b) else None.
Definition checked_mul (a b : Z) : option Z :=
  if a * b <=? USIZE_MAX then Some (a * b) else None.

(** [u64::checked_add] and [saturating_add]; [usize] is 64 bits wide. *)
Definition saturating_add (a b : Z) : Z := Z.min U64_MAX (a + b).

Definition u16_from_be_bytes (a b : Z) : Z := a * 256 + b.
Definition u32_from_be_bytes (a b c d : Z) : Z :=
  ((a * 256 + b) * 256 + c) * 256 + d.
Definition u16_to_be_bytes (n : Z) : list Z :=
  [Z.modulo (n / 256) 256; Z.modulo n 256].
Definition u32_to_be_bytes (n : Z) : list Z :=
  [Z.modulo (n / 16777216) 256; Z.modulo (n / 65536) 256;
   Z.modulo (n / 256) 256; Z.modulo n 256].

(** ** Byte slices *)

Abbreviation bytes := (list Z).

Definition bytes_ok (l : bytes) : Prop := Forall u8 l.

Definition len {A} (l : list A) : Z := Z.of_nat (length l).

(** [l[i]]. *)
Definition idx {E A} (l : list A) (i : Z) : outcome E A :=
  if i <? 0 then Crash
  else match l !! Z.to_nat i with
       | Some b => Ok b
       | None => Crash
       end.

(** [&l[a..b]]. *)
Definition slice {E A} (l : list A) (a b : Z) : outcome E (list A) :=
  if (0 <=? a) && (a <=? b) && (b <=? len l)
  then Ok (take (Z.to_nat (b - a)) (drop (Z.to_nat a) l))
  else Crash.

(** ** Tactics *)

(** Case analysis on every [match] and [if] of the goal and the hypotheses,
    dropping the branches that contradict an equation. *)
Ltac rust_cases :=
  repeat (first [progress simplify_eq/= | case_match | case_bool_decide]).

(** Turn the boolean comparisons of the source into propositions. *)
Ltac to_prop :=
  repeat match goal with
  | H : (_ && _)%bool = true |- _ => apply andb_true_iff in H as [? ?]
  | H : (_ && _)%bool = false |- _ => apply andb_false_iff in H
  | H : (_ || _)%bool = true |- _ => apply orb_true_iff in H
  | H : (_ || _)%bool = false |- _ => apply orb_false_iff in H as [? ?]
  | H : negb _ = true |- _ => apply negb_true_iff in H
  | H : negb _ = false |- _ => apply negb_false_iff in H
  | H : (_ =? _) = true |- _ => apply Z.eqb_eq in H
  | H : (_ =? _) = false |- _ => apply Z.eqb_neq in H
  | H : (_ <? _) = true |- _ => apply Z.ltb_lt in H
  | H : (_ <? _) = false |- _ => apply Z.ltb_ge in H
  | H : (_ <=? _) = true |- _ => apply Z.leb_le in H
  | H : (_ <=? _) = false |- _ => apply Z.leb_gt in H
  end.

(** ** Lengths, indexing and slicing *)

Create HintDb rust.
Create Rewrite HintDb len.

Lemma len_nonneg {A} (l : list A) : 0 ≤ len l.
Proof. unfold len. lia. Qed.

Lemma len_nil {A} : len (@nil A) = 0.
Proof. done. Qed.

Lemma len_cons {A} (x : A) l : len (x :: l) = 1 + len l.
Proof. unfold len. rewrite List.length_cons. lia. Qed.

Lemma len_app {A} (l k : list A) : len (l ++ k) = len l + len k.
Proof. unfold len. rewrite List.length_app. lia. Qed.

Lemma len_replicate {A} n (x : A) : len (replicate n x) = Z.of_nat n.
Proof. unfold len. by rewrite length_replicate. Qed.

Lemma len_0_inv {A} (l : list A) : len l = 0 → l = [].
Proof. destruct l; [done|]. rewrite len_cons. pose proof (len_nonneg l). lia. Qed.

Lemma len_pos_inv {A} (l : list A) : 0 < len l → ∃ x k, l = x :: k.
Proof. destruct l; [by cbn|eauto]. Qed.

#[export] Hint Rewrite @len_nil @len_cons @len_app @len_replicate : len.

Ltac len_lia :=
  autorewrite with len in *;
  repeat match goal with
  | |- context [len ?l] =>
      lazymatch goal with
      | _ : 0 ≤ len l |- _ => fail
      | _ => pose proof (len_nonneg l)
      end
  | H : context [len ?l] |- _ =>
      lazymatch goal with
      | _ : 0 ≤ len l |- _ => fail
      | _ => pose proof (len_nonneg l)
      end
  end; lia.

Lemma idx_at {E A} (pre post : list A) x i :
  i = len pre → idx (E := E) (pre ++ x :: post) i = Ok x.
Proof.
  intros ->. unfold idx, len. rewrite (proj2 (Z.ltb_ge _ 0)) by lia.
  by rewrite Nat2Z.id, list_lookup_middle.
Qed.

Lemma idx_inv {E A} (l : list A) i x :
  idx (E := E) l i = Ok x → ∃ pre post, l = pre ++ x :: post ∧ len pre = i.
Proof.
  unfold idx, len. intros H. rust_cases. to_prop.
  match goal with H : l !! _ = Some _ |- _ => apply take_drop_middle in H as Hl;
    apply lookup_lt_Some in H end.
  eexists _, _. split; [symmetry; exact Hl|]. rewrite length_take. lia.
Qed.

Lemma slice_at {E A} (pre mid post : list A) a b :
  a = len pre → b = a + len mid → slice (E := E) (pre ++ mid ++ post) a b = Ok mid.
Proof.
  intros -> ->. unfold slice. autorewrite with len.
  pose proof (len_nonneg pre). pose proof (len_nonneg mid). pose proof (len_nonneg post).
  rewrite (proj2 (Z.leb_le 0 _)), (proj2 (Z.leb_le (len pre) _)),
    (proj2 (Z.leb_le (len pre + len mid) _)) by lia. cbn [andb].
  f_equal. unfold len. rewrite drop_app_length' by lia.
  by rewrite take_app_length' by lia.
Qed.

Lemma slice_inv {E A} (l : list A) a b s :
  slice (E := E) l a b = Ok s →
  ∃ pre post, l = pre ++ s ++ post ∧ len pre = a ∧ len s = b - a.
Proof.
  unfold slice. intros H. case_match; simplify_eq. to_prop. unfold len in *.
  exists (take (Z.to_nat a) l), (drop (Z.to_nat (b - a)) (drop (Z.to_nat a) l)).
  split; [by rewrite !take_drop|]. rewrite !length_take, length_drop. lia.
Qed.

Lemma slice_ok {E A} (l : list A) a b :
  0 ≤ a ≤ b → b ≤ len l → ∃ s, slice (E := E) l a b = Ok s.
Proof.
  intros Ha Hb. unfold slice.
  rewrite (proj2 (Z.leb_le 0 a)), (proj2 (Z.leb_le a b)), (proj2 (Z.leb_le b _)) by lia.
  cbn [andb]. eauto.
Qed.

Lemma idx_ok {E A} (l : list A) i : 0 ≤ i < len l → ∃ x, idx (E := E) l i = Ok x.
Proof.
  unfold idx, len. intros Hi. rewrite (proj2 (Z.ltb_ge _ 0)) by lia.
  destruct (lookup_lt_is_Some_2 l (Z.to_nat i)) as [x ->]; [lia|eauto].
Qed.

(** Splitting a list at a length. *)
Lemma split_at {A} (l : list A) n :
  0 ≤ n ≤ len l → ∃ pre post, l = pre ++ post ∧ len pre = n.
Proof.
  intros Hn. exists (take (Z.to_nat n) l), (drop (Z.to_nat n) l).
  rewrite take_drop. split; [done|]. unfold len in *. rewrite length_take. lia.
Qed.

Lemma checked_add_some a b c : checked_add a b = Some c ↔ c = a + b ∧ a + b ≤ USIZE_MAX.
Proof. unfold checked_add. case_match; to_prop; naive_solver lia. Qed.

Lemma checked_sub_some a b c : checked_sub a b = Some c ↔ c = a - b ∧ b ≤ a.
Proof. unfold checked_sub. case_match; to_prop; naive_solver lia. Qed.

Lemma checked_mul_some a b c : checked_mul a b = Some c ↔ c = a * b ∧ a * b ≤ USIZE_MAX.
Proof. unfold checked_mul. case_match; to_prop; naive_solver lia. Qed.

Lemma checked_add_ok a b : a + b ≤ USIZE_MAX → checked_add a b = Some (a + b).
Proof. intros. by apply checked_add_some. Qed.

Lemma checked_sub_ok a b : b ≤ a → checked_sub a b = Some (a - b).
Proof. intros. by apply checked_sub_some. Qed.

Lemma checked_mul_ok a b : a * b ≤ USIZE_MAX → checked_mul a b = Some (a * b).
Proof. intros. by apply checked_mul_some. Qed.

(** ** Octets *)

Lemma u16_to_from a b : u8 a → u8 b → u16_to_be_bytes (u16_from_be_bytes a b) = [a; b].
Proof.
  unfold u8, u16_to_be_bytes, u16_from_be_bytes. intros Ha Hb.
  f_equal; [|f_equal]; Z.div_mod_to_equations; lia.
Qed.

Lemma u32_to_from a b c d :
  u8 a → u8 b → u8 c → u8 d →
  u32_to_be_bytes (u32_from_be_bytes a b c d) = [a; b; c; d].
Proof.
  unfold u8, u32_to_be_bytes, u32_from_be_bytes. intros Ha Hb Hc Hd.
  repeat (f_equal; [Z.div_mod_to_equations; lia|]). f_equal. Z.div_mod_to_equations; lia.
Qed.

Lemma len_u16 n : len (u16_to_be_bytes n) = 2.
Proof. done. Qed.

Lemma len_u32 n : len (u32_to_be_bytes n) = 4.
Proof. done. Qed.

#[export] Hint Rewrite len_u16 len_u32 : len.

Lemma u16_bytes n :
  u16 n → ∃ a b, u16_to_be_bytes n = [a; b] ∧ u8 a ∧ u8 b ∧ u16_from_be_bytes a b = n.
Proof.
  unfold u16, u8, u16_to_be_bytes, u16_from_be_bytes. intros Hn.
  eexists _, _. split; [done|]. Z.div_mod_to_equations; lia.
Qed.

Lemma u32_bytes n :
  u32 n → ∃ a b c d, u32_to_be_bytes n = [a; b; c; d] ∧ u8 a ∧ u8 b ∧ u8 c ∧ u8 d
                     ∧ u32_from_be_bytes a b c d = n.
Proof.
  unfold u32, u8, u32_to_be_bytes, u32_from_be_bytes. intros Hn.
  eexists _, _, _, _. split; [done|]. Z.div_mod_to_equations; lia.
Qed.

Lemma bytes_ok_cons x l : bytes_ok (x :: l) ↔ u8 x ∧ bytes_ok l.
Proof. apply Forall_cons. Qed.

Lemma bytes_ok_app l k : bytes_ok (l ++ k) ↔ bytes_ok l ∧ bytes_ok k.
Proof. apply Forall_app. Qed.

(** A decidable statement about a small integer is checked on all its values. *)
Lemma below_forall (n : nat) (P : Z → Prop) `{!∀ z, Decision (P z)} :
  forallb (λ k, bool_decide (P (Z.of_nat k))) (seq 0 n) = true →
  ∀ z, 0 ≤ z < Z.of_nat n → P z.
Proof.
  intros HP z Hz. rewrite forallb_forall in HP.
  specialize (HP (Z.to_nat z)). rewrite Z2Nat.id in HP by lia.
  eapply bool_decide_eq_true_1, HP, in_seq. lia.
Qed.

Ltac by_enum n :=
  match goal with
  | |- ∀ z, 0 ≤ z < _ → @?P z => refine (below_forall n P _); vm_compute; reflexivity
  end.

(** ** Tables of flags

    A [[bool; N]] table that marks the values already used. *)

Definition marks (n : nat) (table : list bool) (used : list Z) : Prop :=
  ∀ v, 0 ≤ v < Z.of_nat n → ∀ E, idx (E := E) table v = Ok (bool_decide (v ∈ used)).

Lemma marks_start n : marks n (replicate n false) [].
Proof.
  intros v Hv E. unfold idx. rewrite (proj2 (Z.ltb_ge _ 0)) by lia.
  rewrite lookup_replicate_2 by lia. by rewrite bool_decide_false by set_solver.
Qed.

Lemma marks_update n table used v :
  0 ≤ v < Z.of_nat n → marks n table used → marks n (<[Z.to_nat v := true]> table) (v :: used).
Proof.
  intros Hv Hm w Hw E. specialize (Hm w Hw E) as Hmw. specialize (Hm v Hv E). unfold idx in *.
  rewrite (proj2 (Z.ltb_ge _ 0)) in * by lia. destruct (decide (v = w)) as [->|Hne].
  - rewrite list_lookup_insert_eq; [by rewrite bool_decide_true by set_solver|].
    apply lookup_lt_is_Some. by destruct (table !! _); [eexists|].
  - rewrite list_lookup_insert_ne by lia. rewrite Hmw. f_equal. apply bool_decide_ext.
    set_solver.
Qed.

#[export] Instance outcome_eq_dec {E A} `{EqDecision E, EqDecision A} :
  EqDecision (outcome E A).
Proof. solve_decision. Defined.
