(* ===== verification/Text.v ===== *)
(** The part of Rust's [str] that the sources use.  A string is the list of its
    characters, and a character is its Unicode scalar value, so comparing two
    lists in order is comparing the two strings: UTF-8 preserves the order of the
    scalar values. *)
From S2P Require Import Prelude.

Abbreviation str := (list Z).

(** A literal of the source, which is ASCII. *)
Definition lit (s : string) : str := Z.of_N ∘ Ascii.N_of_ascii <$> String.list_ascii_of_string s.

Definition SLASH : Z := 47.
Definition COLON : Z := 58.
Definition STAR : Z := 42.

(** [char::is_whitespace]: the Unicode property White_Space. *)
Definition is_whitespace (c : Z) : bool :=
  (9 <=? c) && (c <=? 13) || (c =? 32) || (c =? 133) || (c =? 160) || (c =? 5760)
  || (8192 <=? c) && (c <=? 8202) || (c =? 8232) || (c =? 8233) || (c =? 8239)
  || (c =? 8287) || (c =? 12288).

(** [char::is_control]: the Unicode category Cc. *)
Definition is_control (c : Z) : bool := (0 <=? c) && (c <=? 31) || (127 <=? c) && (c <=? 159).

Fixpoint trim_start (s : str) : str :=
  match s with
  | c :: r => if is_whitespace c then trim_start r else s
  | [] => []
  end.

Definition trim_end (s : str) : str := reverse (trim_start (reverse s)).

Definition trim (s : str) : str := trim_end (trim_start s).

Definition starts_with (s : str) (c : Z) : bool :=
  match s with
  | d :: _ => d =? c
  | [] => false
  end.

Definition ends_with (s : str) (c : Z) : bool := starts_with (reverse s) c.

Definition contains (s : str) (c : Z) : bool := existsb (Z.eqb c) s.

(** [strip_suffix] with a string pattern. *)
Definition strip_suffix (s suffix : str) : option str :=
  let n := (length s - length suffix)%nat in
  if bool_decide (drop n s = suffix) then Some (take n s) else None.

(** [strip_prefix] with a string pattern. *)
Definition strip_prefix (s pre : str) : option str :=
  if bool_decide (take (length pre) s = pre) then Some (drop (length pre) s) else None.

(** [as_bytes]: the UTF-8 encoding. *)
Definition char_utf8 (c : Z) : bytes :=
  if c <? 128 then [c]
  else if c <? 2048 then [192 + c / 64; 128 + Z.modulo c 64]
  else if c <? 65536 then
    [224 + c / 4096; 128 + Z.modulo (c / 64) 64; 128 + Z.modulo c 64]
  else
    [240 + c / 262144; 128 + Z.modulo (c / 4096) 64; 128 + Z.modulo (c / 64) 64;
     128 + Z.modulo c 64].

Definition as_bytes (s : str) : bytes := mjoin (char_utf8 <$> s).

(** [str::len], which counts octets. *)
Definition str_len (s : str) : Z := len (as_bytes s).

(** A scalar value fits in 21 bits. *)
Definition chars_ok (s : str) : Prop := Forall (λ c, 0 ≤ c < 1114112) s.

(** [split] and [split_once] with a character pattern. *)
Fixpoint split (s : str) (c : Z) : list str :=
  match s with
  | [] => [[]]
  | d :: r =>
      if d =? c then [] :: split r c
      else match split r c with
           | part :: parts => (d :: part) :: parts
           | [] => [[d]]
           end
  end.

Fixpoint split_once (s : str) (c : Z) : option (str * str) :=
  match s with
  | [] => None
  | d :: r =>
      if d =? c then Some ([], r)
      else match split_once r c with
           | Some (before, after) => Some (d :: before, after)
           | None => None
           end
  end.

(** [join] of a slice of strings. *)
Fixpoint join (parts : list str) (sep : str) : str :=
  match parts with
  | [] => []
  | [part] => part
  | part :: rest => part ++ sep ++ join rest sep
  end.

(** ** Ordered sets of strings

    [BTreeSet<String>], as the strictly ascending list of its elements, which is
    the order its iterator yields them in. *)

Fixpoint str_cmp (s t : str) : comparison :=
  match s, t with
  | [], [] => Eq
  | [], _ :: _ => Lt
  | _ :: _, [] => Gt
  | c :: s', d :: t' =>
      match c ?= d with
      | Eq => str_cmp s' t'
      | o => o
      end
  end.

Fixpoint set_insert (x : str) (l : list str) : list str :=
  match l with
  | [] => [x]
  | y :: r =>
      match str_cmp x y with
      | Lt => x :: l
      | Eq => l
      | Gt => y :: set_insert x r
      end
  end.

(** [collect::<BTreeSet<_>>()]. *)
Definition set_collect (l : list str) : list str := foldl (λ s x, set_insert x s) [] l.

(** ** Lemmas *)

Lemma str_cmp_eq s t : str_cmp s t = Eq ↔ s = t.
Proof.
  revert t. induction s as [|c s IH]; intros [|d t]; cbn; try done.
  destruct (Z.compare_spec c d) as [->|?|?]; [rewrite IH; naive_solver| |];
    split; try done; intros [= -> ->]; lia.
Qed.

Lemma elem_of_set_insert x y l : x ∈ set_insert y l ↔ x = y ∨ x ∈ l.
Proof.
  induction l as [|z l IH]; cbn; [set_solver|].
  destruct (str_cmp y z) eqn:Hc; [apply str_cmp_eq in Hc as ->| |]; set_solver.
Qed.

Lemma elem_of_set_collect x l : x ∈ set_collect l ↔ x ∈ l.
Proof.
  enough (∀ acc, x ∈ foldl (λ s x, set_insert x s) acc l ↔ x ∈ acc ∨ x ∈ l) as H
    by (unfold set_collect; rewrite H; set_solver).
  induction l as [|y l IH]; intros acc; cbn; [set_solver|].
  rewrite IH, elem_of_set_insert. set_solver.
Qed.

Lemma trim_start_id s : (∀ c, head s = Some c → is_whitespace c = false) → trim_start s = s.
Proof. destruct s as [|c s]; [done|]. cbn. intros H. by rewrite (H c). Qed.

(** A string whose two ends are not white space is not changed by [trim]. *)
Lemma trim_id s :
  (∀ c, head s = Some c → is_whitespace c = false) →
  (∀ c, last s = Some c → is_whitespace c = false) → trim s = s.
Proof.
  intros Hh Hl. unfold trim, trim_end. rewrite (trim_start_id s) by done.
  rewrite trim_start_id; [apply reverse_involutive|]. by rewrite head_reverse.
Qed.

Lemma contains_false s c : contains s c = false ↔ c ∉ s.
Proof.
  unfold contains. induction s as [|d s IH]; cbn; [set_solver|].
  rewrite orb_false_iff, IH, Z.eqb_neq. set_solver.
Qed.

Lemma ends_with_last s c : ends_with s c = true ↔ last s = Some c.
Proof.
  unfold ends_with. rewrite <- head_reverse. destruct (reverse s); cbn; [done|].
  rewrite Z.eqb_eq. naive_solver.
Qed.

Lemma strip_suffix_app s suffix : strip_suffix (s ++ suffix) suffix = Some s.
Proof.
  unfold strip_suffix. rewrite List.length_app.
  replace (length s + length suffix - length suffix)%nat with (length s) by lia.
  by rewrite drop_app_length, take_app_length, bool_decide_true by done.
Qed.

Lemma strip_suffix_some s suffix base : strip_suffix s suffix = Some base ↔ s = base ++ suffix.
Proof.
  split; [|intros ->; apply strip_suffix_app].
  unfold strip_suffix. case_bool_decide as Hd; [|done]. intros [= <-].
  by rewrite <- Hd at 2; rewrite take_drop.
Qed.

Lemma strip_suffix_none s suffix : (∀ base, s ≠ base ++ suffix) → strip_suffix s suffix = None.
Proof.
  intros H. destruct (strip_suffix s suffix) as [base|] eqn:Hs; [|done].
  apply strip_suffix_some in Hs as ->. by destruct (H base).
Qed.

Lemma split_app part rest c : c ∉ part → split (part ++ c :: rest) c = part :: split rest c.
Proof.
  induction part as [|d part IH]; intros Hc; cbn.
  - by rewrite Z.eqb_refl.
  - rewrite (proj2 (Z.eqb_neq d c)), IH by set_solver. done.
Qed.

Lemma split_single part c : c ∉ part → split part c = [part].
Proof.
  induction part as [|d part IH]; intros Hc; cbn; [done|].
  rewrite (proj2 (Z.eqb_neq d c)), IH by set_solver. done.
Qed.

Lemma split_once_app a b c : c ∉ a → split_once (a ++ c :: b) c = Some (a, b).
Proof.
  induction a as [|d a IH]; intros Hc; cbn.
  - by rewrite Z.eqb_refl.
  - rewrite (proj2 (Z.eqb_neq d c)), IH by set_solver. done.
Qed.

Lemma strip_prefix_some s pre rest : strip_prefix s pre = Some rest ↔ s = pre ++ rest.
Proof.
  unfold strip_prefix. split.
  - case_bool_decide as Hp; [|done]. intros [= <-]. by rewrite <- Hp at 1; rewrite take_drop.
  - intros ->. by rewrite take_app_length, drop_app_length, bool_decide_true.
Qed.

Lemma lit_inj s t : lit s = lit t → s = t.
Proof.
  intros H. apply (list_fmap_eq_inj (Z.of_N ∘ Ascii.N_of_ascii)) in H.
  - rewrite <- (String.string_of_list_ascii_of_string s), H.
    apply String.string_of_list_ascii_of_string.
  - intros a b Hab%N2Z.inj. rewrite <- (Ascii.ascii_N_embedding a), Hab.
    apply Ascii.ascii_N_embedding.
Qed.

Lemma lit_chars_ok s : chars_ok (lit s).
Proof.
  apply Forall_fmap, Forall_forall. intros a _. cbn.
  pose proof (Ascii.N_ascii_bounded a). lia.
Qed.

(** The encoding of a character is no prefix of another's. *)
Lemma char_utf8_inj c d r r' :
  0 ≤ c < 1114112 → 0 ≤ d < 1114112 → char_utf8 c ++ r = char_utf8 d ++ r' → c = d ∧ r = r'.
Proof.
  unfold char_utf8. intros Hc Hd.
  repeat match goal with |- context [?a <? ?b] => destruct (Z.ltb_spec a b) end;
    cbn [app]; intros [=]; split; subst; try done; Z.div_mod_to_equations; lia.
Qed.

Lemma as_bytes_inj s t : chars_ok s → chars_ok t → as_bytes s = as_bytes t → s = t.
Proof.
  assert (∀ c, char_utf8 c ≠ []) as Hnil by (intros c; unfold char_utf8; by rust_cases).
  revert t. induction s as [|c s IH]; intros [|d t] Hs Ht; unfold as_bytes; cbn; try done.
  - intros He%eq_sym. apply app_eq_nil in He as [He _]. by apply Hnil in He.
  - intros He. apply app_eq_nil in He as [He _]. by apply Hnil in He.
  - apply Forall_cons in Hs as [Hc Hs], Ht as [Hd Ht]. intros He.
    apply char_utf8_inj in He as [-> He]; [|done..]. f_equal. by apply IH.
Qed.

Lemma split_cons s c : ∃ part parts, split s c = part :: parts.
Proof. induction s as [|d s (p & ps & IH)]; cbn; [eauto|]. rewrite IH. case_match; eauto. Qed.

Lemma split_join s c : join (split s c) [c] = s.
Proof.
  induction s as [|d s IH]; [done|]. cbn [split].
  destruct (split_cons s c) as (p & ps & Hp). rewrite Hp in *.
  destruct (Z.eqb_spec d c) as [->|_]; [change (c :: join (p :: ps) [c] = c :: s); by rewrite IH|].
  transitivity (d :: join (p :: ps) [c]); [by destruct ps|by rewrite IH].
Qed.

Lemma split_parts s c : Forall (λ part, c ∉ part) (split s c).
Proof.
  induction s as [|d s IH]; cbn; [repeat constructor; set_solver|].
  destruct (split_cons s c) as (p & ps & Hp). rewrite Hp in *. apply Forall_cons in IH as [Hc IH].
  destruct (Z.eqb_spec d c); repeat constructor; try done; set_solver.
Qed.

Lemma join_split parts c :
  parts ≠ [] → Forall (λ part, c ∉ part) parts → split (join parts [c]) c = parts.
Proof.
  induction parts as [|p [|q parts] IH]; intros Hne Hp; [done| |].
  - apply split_single. by apply Forall_inv in Hp.
  - apply Forall_cons in Hp as [Hc Hp].
    change (split (p ++ c :: join (q :: parts) [c]) c = p :: q :: parts).
    by rewrite split_app, IH.
Qed.

(** What [trim] leaves has no white space at its ends. *)
Lemma trim_start_head s c : head (trim_start s) = Some c → is_whitespace c = false.
Proof. induction s as [|d s IH]; cbn; [done|]. case_match; [done|]. by intros [= <-]. Qed.

Lemma trim_start_suffix s : ∃ pre, s = pre ++ trim_start s.
Proof.
  induction s as [|c s [pre IH]]; [by exists []|]. cbn. case_match; [|by exists []].
  exists (c :: pre). cbn. by rewrite <- IH.
Qed.

Lemma trim_end_prefix s : ∃ post, s = trim_end s ++ post.
Proof.
  destruct (trim_start_suffix (reverse s)) as [pre Hp]. exists (reverse pre).
  unfold trim_end. by rewrite <- reverse_app, <- Hp, reverse_involutive.
Qed.

Lemma trim_idem s : trim (trim s) = trim s.
Proof.
  apply trim_id; intros c; unfold trim.
  - intros Hh. destruct (trim_end_prefix (trim_start s)) as [post Hp].
    destruct (trim_end (trim_start s)) as [|d l]; [done|]. injection Hh as ->.
    apply (trim_start_head s). by rewrite Hp.
  - unfold trim_end. rewrite <- head_reverse, reverse_involutive. apply trim_start_head.
Qed.
