(* ===== verification/Protocol.v ===== *)
(** Model of the codec framework, [crates/opc-protocol/src]: the decode and
    encode contexts ([context.rs]) and the structured errors ([error.rs]) every
    protocol crate uses. *)
From S2P Require Import Prelude.

(** ** Specification references, [error.rs] *)

Record SpecRef := {
  body : string;
  doc : string;
  section : string;
  table : option string;
}.

Definition SpecRef_new (body doc section : string) : SpecRef :=
  {| body := body; doc := doc; section := section; table := None |}.

Definition with_table (r : SpecRef) (table : string) : SpecRef :=
  {| body := body r; doc := doc r; section := section r; table := Some table |}.

(** ** Decode errors *)

Inductive DecodeErrorCode :=
| Truncated
| InvalidLength (reason : string)
| LengthOverflow
| DepthExceeded
| IeCountExceeded
| MessageLengthExceeded
| UnknownCriticalIe
| DuplicateIe
| InvalidEnumValue (field : string) (value : Z)
| Structural (reason : string)
| Incomplete.

Record DecodeError := {
  code : DecodeErrorCode;
  offset : Z;
  spec_ref : option SpecRef;
}.

Definition DecodeError_new (c : DecodeErrorCode) (off : Z) : DecodeError :=
  {| code := c; offset := off; spec_ref := None |}.

Definition with_spec_ref (e : DecodeError) (r : SpecRef) : DecodeError :=
  {| code := code e; offset := offset e; spec_ref := Some r |}.

(** ** Encode errors *)

Inductive EncodeErrorCode :=
| CapacityExceeded (required available : Z)
| EncodeLengthOverflow
| EncodeStructural (reason : string).

Record EncodeError := {
  encode_code : EncodeErrorCode;
  encode_spec_ref : option SpecRef;
}.

Definition EncodeError_new (c : EncodeErrorCode) : EncodeError :=
  {| encode_code := c; encode_spec_ref := None |}.

Definition length_overflow : EncodeError := EncodeError_new EncodeLengthOverflow.

Definition encode_with_spec_ref (e : EncodeError) (r : SpecRef) : EncodeError :=
  {| encode_code := encode_code e; encode_spec_ref := Some r |}.

(** ** Contexts, [context.rs] *)

Inductive ValidationLevel := HeaderOnly | StructuralLevel | Strict | ProcedureAware.
Inductive UnknownIePolicy := UnknownDrop | UnknownPreserve | UnknownReject.
Inductive DuplicateIePolicy := DuplicateFirst | DuplicateLast | DuplicateReject.

#[export] Instance ValidationLevel_eq_dec : EqDecision ValidationLevel.
Proof. solve_decision. Defined.
#[export] Instance UnknownIePolicy_eq_dec : EqDecision UnknownIePolicy.
Proof. solve_decision. Defined.

Record AllocationBudget := {
  decode_heap_allocations_fast_path : Z;
  decode_max_temporary_bytes : Z;
  encode_max_temporary_bytes : Z;
}.

Definition FAST_PATH : AllocationBudget :=
  {| decode_heap_allocations_fast_path := 0;
     decode_max_temporary_bytes := 1024;
     encode_max_temporary_bytes := 1024 |}.

Record DecodeContext := {
  protocol_version : Z;
  max_depth : Z;
  max_ies : Z;
  max_message_len : Z;
  unknown_ie_policy : UnknownIePolicy;
  duplicate_ie_policy : DuplicateIePolicy;
  validation_level : ValidationLevel;
  allocation_budget : AllocationBudget;
}.

Definition DecodeContext_conservative : DecodeContext :=
  {| protocol_version := 1;
     max_depth := 8;
     max_ies := 128;
     max_message_len := 8192;
     unknown_ie_policy := UnknownReject;
     duplicate_ie_policy := DuplicateReject;
     validation_level := Strict;
     allocation_budget := FAST_PATH |}.

Definition DecodeContext_default : DecodeContext :=
  {| protocol_version := 1;
     max_depth := 16;
     max_ies := 256;
     max_message_len := 65535;
     unknown_ie_policy := UnknownPreserve;
     duplicate_ie_policy := DuplicateLast;
     validation_level := StructuralLevel;
     allocation_budget := FAST_PATH |}.

Record EncodeContext := {
  encode_protocol_version : Z;
  raw_preserving : bool;
  encode_max_message_len : Z;
}.

Definition EncodeContext_default : EncodeContext :=
  {| encode_protocol_version := 1;
     raw_preserving := false;
     encode_max_message_len := 65535 |}.

Definition check_capacity (ctx : EncodeContext) (required : Z) : outcome EncodeError () :=
  if encode_max_message_len ctx <? required
  then Err (EncodeError_new (CapacityExceeded required (encode_max_message_len ctx)))
  else Ok ().
