(* ===== verification/GtpuExtension.v ===== *)
(** Model of the GTP-U extension headers: [crates/opc-proto-gtpu/src/extension.rs]
    and the extension part of [crates/opc-proto-gtpu/src/lib.rs] (comprehension
    rules, PDU Session Container, lazy iterator).  The chain summary and the
    builders are in [GtpuChain]. *)
From S2P Require Import Prelude.
From S2P Require Import Protocol.

(** ** Extension header types and their comprehension class *)

Definition GTPU_EXT_PDU_SESSION_CONTAINER : Z := 0x85.
Definition GTPU_EXT_UDP_PORT : Z := 0x40.
Definition GTPU_EXT_PDCP_PDU_NUMBER : Z := 0xc0.

Inductive GtpuExtensionHeaderRecipient :=
| Endpoint
| Intermediate
| ServingGatewayReceivingGpdu.

Inductive GtpuExtensionHeaderComprehension :=
| NotRequiredForward
| NotRequiredDiscardByIntermediate
| RequiredByEndpoint
| RequiredByRecipient.

Definition is_required_by (c : GtpuExtensionHeaderComprehension)
    (recipient : GtpuExtensionHeaderRecipient) : bool :=
  match c, recipient with
  | NotRequiredForward, _ | NotRequiredDiscardByIntermediate, _ => false
  | RequiredByEndpoint, Endpoint => true
  | RequiredByEndpoint, (Intermediate | ServingGatewayReceivingGpdu) => false
  | RequiredByRecipient, _ => true
  end.

Definition intermediate_discards_content (c : GtpuExtensionHeaderComprehension) : bool :=
  match c with NotRequiredDiscardByIntermediate => true | _ => false end.

(** [GtpuExtensionHeaderType] wraps the on-wire octet. *)
Definition comprehension (t : Z) : GtpuExtensionHeaderComprehension :=
  let class := Z.shiftr t 6 in
  if class =? 0 then NotRequiredForward
  else if class =? 1 then NotRequiredDiscardByIntermediate
  else if class =? 2 then RequiredByEndpoint
  else RequiredByRecipient.

Definition is_supported_by_codec (t : Z) : bool :=
  (t =? 0x03) || (t =? 0x20) || (t =? 0x40)
  || ((0x81 <=? t) && (t <=? 0x85)) || (t =? 0xc0).

Definition is_supported_by_endpoint (t : Z) : bool :=
  (t =? GTPU_EXT_UDP_PORT) || (t =? GTPU_EXT_PDU_SESSION_CONTAINER).

Definition unsupported_requires_comprehension_by (t : Z)
    (recipient : GtpuExtensionHeaderRecipient) : bool :=
  if (t =? GTPU_EXT_PDCP_PDU_NUMBER)
     && match recipient with ServingGatewayReceivingGpdu => true | _ => false end
  then false
  else negb (is_supported_by_endpoint t) && is_required_by (comprehension t) recipient.

(** ** One extension header and the lazy iterator *)

Record GtpuExtensionHeader := {
  ext_type : Z;
  content : bytes;
  header_next_ext_type : Z;
}.

Record GtpuExtensionHeaderIterator := {
  buffer : bytes;
  iter_next_ext_type : Z;
}.

(** [Iterator::next].  [Ok None] is the end of the iteration, [Ok (Some h)] an
    item and [Err e] the single error item after which the iterator is done. *)
Definition iter_next (it : GtpuExtensionHeaderIterator)
    : outcome DecodeError (option GtpuExtensionHeader) * GtpuExtensionHeaderIterator :=
  let done := {| buffer := buffer it; iter_next_ext_type := 0 |} in
  if iter_next_ext_type it =? 0 then (Ok None, it)
  else
    match buffer it with
    | [] => (Err (DecodeError_new Truncated 0), done)
    | ext_len_units :: _ =>
        if ext_len_units =? 0 then
          (Err (DecodeError_new (InvalidLength "extension header units is zero") 0), done)
        else
          match checked_mul ext_len_units 4 with
          | None => (Err (DecodeError_new LengthOverflow 0), done)
          | Some ext_len_bytes =>
              if len (buffer it) <? ext_len_bytes then
                (Err (DecodeError_new Truncated 0), done)
              else
                match slice (E := DecodeError) (buffer it) 1 (ext_len_bytes - 1),
                      idx (E := DecodeError) (buffer it) (ext_len_bytes - 1),
                      slice (E := DecodeError) (buffer it) ext_len_bytes (len (buffer it)) with
                | Ok content, Ok next_ext, Ok rest =>
                    (Ok (Some {| ext_type := iter_next_ext_type it;
                                 content := content;
                                 header_next_ext_type := next_ext |}),
                     {| buffer := rest; iter_next_ext_type := next_ext |})
                | _, _, _ => (Crash, done)
                end
          end
    end.

Definition invalid_length : DecodeError :=
  DecodeError_new (InvalidLength "invalid typed GTP-U extension length") 0.

Definition validate_fixed_length (h : GtpuExtensionHeader) : outcome DecodeError () :=
  let expected :=
    if (ext_type h =? 0x20) || (ext_type h =? 0x40) || (ext_type h =? 0xc0) then Some 2
    else if (ext_type h =? 0x03) || (ext_type h =? 0x82) then Some 6
    else None in
  match expected with
  | None => Ok ()
  | Some expected =>
      if negb (len (content h) =? expected) then Err invalid_length else Ok ()
  end.

(** The [for] loop of [first_unsupported_required_extension].  An item consumes
    at least four octets, so the length of the buffer bounds the iterations. *)
Fixpoint scan_required (fuel : nat) (it : GtpuExtensionHeaderIterator)
    (recipient : GtpuExtensionHeaderRecipient) (first_unsupported : option Z)
    : outcome DecodeError (option Z * GtpuExtensionHeaderIterator) :=
  match fuel with
  | O => Crash
  | S fuel =>
      let '(item, it) := iter_next it in
      let? item := item in
      match item with
      | None => Ok (first_unsupported, it)
      | Some extension =>
          let? _ := validate_fixed_length extension in
          let t := ext_type extension in
          let first_unsupported :=
            if match first_unsupported with None => true | Some _ => false end
               && unsupported_requires_comprehension_by t recipient
            then Some t else first_unsupported in
          scan_required fuel it recipient first_unsupported
      end
  end.

Definition first_unsupported_required_extension (it : GtpuExtensionHeaderIterator)
    (recipient : GtpuExtensionHeaderRecipient) : outcome DecodeError (option Z) :=
  let raw_len := len (buffer it) in
  let? (first_unsupported, it) := scan_required (S (length (buffer it))) it recipient None in
  match buffer it with
  | [] => Ok first_unsupported
  | _ :: _ =>
      let consumed := Z.max 0 (raw_len - len (buffer it)) in
      Err (DecodeError_new (Structural "bytes remain after terminal extension header") consumed)
  end.

(** ** PDU Session Container *)

Inductive PduSessionContainerError :=
| InvalidExtensionType
| PscTruncated
| Misaligned
| ReservedPduType
| UnsupportedDownlinkConditionalFields
| MissingPagingPolicyIndicator
| UnsupportedDownlinkExtensionFields
| UnsupportedUplinkConditionalFields
| UnsupportedUplinkExtensionFields
| QfiOutOfRange
| PpiOutOfRange
| UplinkPagingPolicyIndicator
| UplinkReflectiveQosIndicator.

#[export] Instance PduSessionContainerError_eq_dec : EqDecision PduSessionContainerError.
Proof. solve_decision. Defined.

Definition decode_reason (e : PduSessionContainerError) : string :=
  match e with
  | InvalidExtensionType => "extension type is not PDU Session Container"
  | PscTruncated => "PDU Session Container is truncated"
  | Misaligned => "PDU Session Container is not extension-header aligned"
  | ReservedPduType => "reserved PDU Session Container type"
  | UnsupportedDownlinkConditionalFields =>
      "DL PDU Session Container uses unsupported conditional fields"
  | MissingPagingPolicyIndicator => "Paging Policy Indicator missing despite PPP flag"
  | UnsupportedDownlinkExtensionFields =>
      "unsupported DL PDU Session Container extension fields"
  | UnsupportedUplinkConditionalFields =>
      "UL PDU Session Container uses unsupported conditional fields"
  | UnsupportedUplinkExtensionFields =>
      "unsupported UL PDU Session Container extension fields"
  | QfiOutOfRange => "PDU Session Container QFI exceeds six bits"
  | PpiOutOfRange => "PDU Session Container PPI exceeds three bits"
  | UplinkPagingPolicyIndicator =>
      "UL PDU Session Container cannot carry Paging Policy Indicator"
  | UplinkReflectiveQosIndicator =>
      "UL PDU Session Container cannot carry Reflective QoS Indicator"
  end.

Record PduSessionContainer := {
  pdu_type : Z;
  qfi : Z;
  ppi : option Z;
  rqi : bool;
}.

#[export] Instance PduSessionContainer_eq_dec : EqDecision PduSessionContainer.
Proof. solve_decision. Defined.

Definition psc_validate (c : PduSessionContainer) : outcome PduSessionContainerError () :=
  if pdu_type c =? 0 then
    if 0x3f <? qfi c then Err QfiOutOfRange
    else if match ppi c with Some p => 0x07 <? p | None => false end then Err PpiOutOfRange
    else Ok ()
  else if pdu_type c =? 1 then
    if 0x3f <? qfi c then Err QfiOutOfRange
    else if match ppi c with Some _ => true | None => false end
    then Err UplinkPagingPolicyIndicator
    else if rqi c then Err UplinkReflectiveQosIndicator
    else Ok ()
  else Err ReservedPduType.

Definition new_downlink (qfi : Z) (ppi : option Z) (rqi : bool)
    : outcome PduSessionContainerError PduSessionContainer :=
  let value := {| pdu_type := 0; qfi := qfi; ppi := ppi; rqi := rqi |} in
  let? _ := psc_validate value in
  Ok value.

Definition new_uplink (qfi : Z) : outcome PduSessionContainerError PduSessionContainer :=
  let value := {| pdu_type := 1; qfi := qfi; ppi := None; rqi := false |} in
  let? _ := psc_validate value in
  Ok value.

Definition psc_decode_with_reason (ext : GtpuExtensionHeader)
    : outcome (PduSessionContainerError * Z) PduSessionContainer :=
  if negb (ext_type ext =? GTPU_EXT_PDU_SESSION_CONTAINER) then Err (InvalidExtensionType, 0)
  else
    let content := content ext in
    if match content with [] => true | _ => false end then Err (PscTruncated, 0)
    else if match checked_add (len content) 2 with
            | None => true
            | Some total => negb (Z.modulo total 4 =? 0)
            end
    then Err (Misaligned, 0)
    else
      let? c0 := idx content 0 in
      let pdu_type := Z.land (Z.shiftr c0 4) 0x0f in
      if pdu_type =? 0 then
        if len content <? 2 then Err (PscTruncated, 1)
        else if negb (Z.land c0 0x0e =? 0) then Err (UnsupportedDownlinkConditionalFields, 0)
        else
          let? c1 := idx content 1 in
          let ppp := negb (Z.land c1 0x80 =? 0) in
          let rqi := negb (Z.land c1 0x40 =? 0) in
          let qfi := Z.land c1 0x3f in
          let? ppi :=
            (if ppp then
               if len content <? 3 then Err (MissingPagingPolicyIndicator, 1)
               else
                 let? c2 := idx content 2 in
                 if negb (Z.land c2 0x03 =? 0)
                 then Err (UnsupportedDownlinkConditionalFields, 2)
                 else if negb (len content =? 6)
                 then Err (UnsupportedDownlinkExtensionFields, 3)
                 else Ok (Some (Z.shiftr c2 5))
             else if negb (len content =? 2)
             then Err (UnsupportedDownlinkExtensionFields, 2)
             else Ok None) in
          Ok {| pdu_type := pdu_type; qfi := qfi; ppi := ppi; rqi := rqi |}
      else if pdu_type =? 1 then
        if len content <? 2 then Err (PscTruncated, 1)
        else
          let? c1 := idx content 1 in
          if negb (Z.land c0 0x0f =? 0) || negb (Z.land c1 0xc0 =? 0)
          then Err (UnsupportedUplinkConditionalFields, 0)
          else if negb (len content =? 2)
          then Err (UnsupportedUplinkExtensionFields, 2)
          else
            Ok {| pdu_type := pdu_type; qfi := Z.land c1 0x3f; ppi := None; rqi := false |}
      else Err (ReservedPduType, 0).

Definition psc_decode (ext : GtpuExtensionHeader) : outcome DecodeError PduSessionContainer :=
  let spec_ref := SpecRef_new "3gpp" "TS29281" "5.2.2.7" in
  map_err
    (λ '(reason, offset),
       let code :=
         if bool_decide (reason = PscTruncated) then Truncated
         else Structural (decode_reason reason) in
       with_spec_ref (DecodeError_new code offset) spec_ref)
    (psc_decode_with_reason ext).

Definition psc_encode (c : PduSessionContainer) : outcome PduSessionContainerError bytes :=
  let? _ := psc_validate c in
  let octet2 := Z.land (Z.shiftl (pdu_type c) 4) 0xff in
  let content :=
    if pdu_type c =? 0 then
      let octet3 := qfi c in
      let octet3 := match ppi c with Some _ => Z.lor octet3 0x80 | None => octet3 end in
      let octet3 := if rqi c then Z.lor octet3 0x40 else octet3 in
      [octet2; octet3]
      ++ match ppi c with Some p => [Z.land (Z.shiftl p 5) 0xff] | None => [] end
    else [octet2; qfi c] in
  let rem := Z.modulo (len content + 2) 4 in
  Ok (if negb (rem =? 0) then content ++ replicate (Z.to_nat (4 - rem)) 0 else content).

(** ** The chain relation

    The abstract reading of a raw extension chain: [ext_chain t hs raw] says that
    [raw], entered with first type [t], is exactly the headers [hs]. *)

Inductive ext_chain : Z → list GtpuExtensionHeader → bytes → Prop :=
| chain_end : ext_chain 0 [] []
| chain_cons t units c next hs raw :
    t ≠ 0 →
    0 < units < 256 →
    len c + 2 = 4 * units →
    ext_chain next hs raw →
    ext_chain t ({| ext_type := t; content := c; header_next_ext_type := next |} :: hs)
      (units :: c ++ next :: raw).

#[export] Hint Constructors ext_chain : rust.

Lemma header_split (units : Z) (tl : bytes) :
  0 < units → 4 * units ≤ len (units :: tl) →
  ∃ c next rest, tl = c ++ next :: rest ∧ len c + 2 = 4 * units.
Proof.
  intros Hu Hl. destruct (split_at tl (4 * units - 2)) as (c & post & -> & Hc); [len_lia|].
  destruct (len_pos_inv post) as (next & rest & ->); [len_lia|].
  exists c, next, rest. split; [done|lia].
Qed.

Lemma iter_next_cons t units c next rest :
  t ≠ 0 → 0 < units < 256 → len c + 2 = 4 * units →
  iter_next {| buffer := units :: c ++ next :: rest; iter_next_ext_type := t |}
  = (Ok (Some {| ext_type := t; content := c; header_next_ext_type := next |}),
     {| buffer := rest; iter_next_ext_type := next |}).
Proof.
  intros Ht Hu Hc. unfold iter_next; cbn [buffer iter_next_ext_type].
  rewrite (proj2 (Z.eqb_neq t 0)), (proj2 (Z.eqb_neq units 0)) by lia.
  unfold checked_mul. rewrite (proj2 (Z.leb_le (units * 4) USIZE_MAX)) by (unfold USIZE_MAX; lia).
  rewrite (proj2 (Z.ltb_ge _ (units * 4))) by len_lia.
  change (units :: c ++ next :: rest) with ([units] ++ c ++ next :: rest).
  rewrite slice_at by len_lia.
  rewrite app_assoc, idx_at by len_lia.
  replace (([units] ++ c) ++ next :: rest) with ((units :: c ++ [next]) ++ rest ++ [])
    by (cbn; by rewrite app_nil_r, <- app_assoc).
  by rewrite slice_at by len_lia.
Qed.

Lemma iter_next_inv buf t h it :
  bytes_ok buf →
  iter_next {| buffer := buf; iter_next_ext_type := t |} = (Ok (Some h), it) →
  t ≠ 0 ∧ ∃ units c next rest,
    buf = units :: c ++ next :: rest ∧ 0 < units < 256 ∧ len c + 2 = 4 * units
    ∧ h = {| ext_type := t; content := c; header_next_ext_type := next |}
    ∧ it = {| buffer := rest; iter_next_ext_type := next |}.
Proof.
  intros Hb H. destruct (decide (t = 0)) as [->|Ht]; [done|]. split; [done|].
  unfold iter_next in H; cbn [buffer iter_next_ext_type] in H.
  rewrite (proj2 (Z.eqb_neq t 0)) in H by done.
  destruct buf as [|units tl]; [done|].
  apply Forall_cons in Hb as [Hu _]. unfold u8 in Hu.
  destruct (units =? 0) eqn:E0; [done|]. to_prop.
  unfold checked_mul in H. rewrite (proj2 (Z.leb_le (units * 4) USIZE_MAX)) in H
    by (unfold USIZE_MAX; lia).
  destruct (_ <? _) eqn:El; [done|]. to_prop.
  destruct (header_split units tl) as (c & next & rest & -> & Hc); [lia..|].
  pose proof (iter_next_cons t units c next rest Ht) as Hn.
  unfold iter_next in Hn; cbn [buffer iter_next_ext_type] in Hn.
  rewrite (proj2 (Z.eqb_neq t 0)), (proj2 (Z.eqb_neq units 0)) in Hn by lia.
  unfold checked_mul in Hn. rewrite (proj2 (Z.leb_le (units * 4) USIZE_MAX)) in Hn
    by (unfold USIZE_MAX; lia).
  rewrite (proj2 (Z.ltb_ge _ (units * 4))) in Hn by lia.
  rewrite Hn in H by lia. simplify_eq. eauto 10 with lia.
Qed.

Lemma iter_next_end buf :
  iter_next {| buffer := buf; iter_next_ext_type := 0 |}
  = (Ok None, {| buffer := buf; iter_next_ext_type := 0 |}).
Proof. done. Qed.

Lemma iter_next_None buf t it :
  iter_next {| buffer := buf; iter_next_ext_type := t |} = (Ok None, it) →
  t = 0 ∧ it = {| buffer := buf; iter_next_ext_type := 0 |}.
Proof.
  unfold iter_next; cbn [buffer iter_next_ext_type]. intros H.
  destruct (t =? 0) eqn:E; to_prop; [by simplify_eq|]. by rust_cases.
Qed.

Lemma iter_next_returns it : bytes_ok (buffer it) → returns (fst (iter_next it)).
Proof.
  destruct it as [buf t]; cbn [buffer]. intros Hb.
  destruct (decide (t = 0)) as [->|Ht]; [done|].
  unfold iter_next; cbn [buffer iter_next_ext_type].
  rewrite (proj2 (Z.eqb_neq t 0)) by done.
  destruct buf as [|units tl]; [done|].
  apply Forall_cons in Hb as [Hu _]. unfold u8 in Hu.
  destruct (units =? 0) eqn:E0; [done|].
  unfold checked_mul. rewrite (proj2 (Z.leb_le (units * 4) USIZE_MAX)) by (unfold USIZE_MAX; lia).
  destruct (_ <? _) eqn:El; [done|]. to_prop.
  destruct (slice_ok (E := DecodeError) (units :: tl) 1 (units * 4 - 1)) as [? ->]; [lia..|].
  destruct (idx_ok (E := DecodeError) (units :: tl) (units * 4 - 1)) as [? ->]; [lia..|].
  by destruct (slice_ok (E := DecodeError) (units :: tl) (units * 4) (len (units :: tl)))
    as [? ->]; [lia..|].
Qed.

Lemma ext_chain_len t hs raw : ext_chain t hs raw → 4 * len hs ≤ len raw.
Proof. induction 1; len_lia. Qed.

Lemma ext_chain_fuel t hs raw : ext_chain t hs raw → (length hs ≤ length raw)%nat.
Proof. intros H%ext_chain_len. unfold len in H. lia. Qed.

Lemma ext_chain_nil_inv t hs : ext_chain t hs [] → t = 0 ∧ hs = [].
Proof. by inversion 1. Qed.

Lemma ext_chain_det t hs raw : ext_chain t hs raw → ∀ hs', ext_chain t hs' raw → hs = hs'.
Proof.
  induction 1 as [|t u c n hs raw Ht Hu Hc _ IH]; intros hs' H; inversion H; simplify_eq; [done|].
  match goal with E : _ ++ _ :: _ = _ ++ _ :: _ |- _ =>
    apply app_inj_1 in E as [-> ?]; [|unfold len in *; lia] end.
  simplify_eq. f_equal. eauto.
Qed.

(** *** Comprehension scan *)

Definition fixed_length_ok (h : GtpuExtensionHeader) : bool := is_ok (validate_fixed_length h).

Definition first_unsupported (hs : list GtpuExtensionHeader)
    (recipient : GtpuExtensionHeaderRecipient) : option Z :=
  List.find (λ t, unsupported_requires_comprehension_by t recipient) (ext_type <$> hs).

Lemma validate_fixed_length_cases h :
  validate_fixed_length h = if fixed_length_ok h then Ok () else Err invalid_length.
Proof. unfold fixed_length_ok, validate_fixed_length. by rust_cases. Qed.

Lemma scan_required_chain t hs raw r : ext_chain t hs raw → ∀ fuel first,
  (length hs < fuel)%nat →
  scan_required fuel {| buffer := raw; iter_next_ext_type := t |} r first
  = if forallb fixed_length_ok hs
    then Ok (match first with Some x => Some x | None => first_unsupported hs r end,
             {| buffer := []; iter_next_ext_type := 0 |})
    else Err invalid_length.
Proof.
  induction 1 as [|t u c n hs raw Ht Hu Hc Hch IH]; intros [|fuel] first Hf; cbn in Hf; try lia.
  - cbn. by destruct first.
  - cbn [scan_required]. rewrite iter_next_cons by done.
    rewrite validate_fixed_length_cases. cbn [forallb].
    destruct (fixed_length_ok _); cbn [andb]; [|done].
    rewrite IH by lia. destruct (forallb _ hs); [|done].
    unfold first_unsupported; cbn. by destruct first, (unsupported_requires_comprehension_by t r).
Qed.

Lemma scan_required_inv r fuel : ∀ buf t first o it,
  bytes_ok buf →
  scan_required fuel {| buffer := buf; iter_next_ext_type := t |} r first = Ok (o, it) →
  ∃ hs raw, buf = raw ++ buffer it ∧ ext_chain t hs raw.
Proof.
  induction fuel as [|fuel IH]; [done|]. intros buf t first o it Hb H.
  cbn [scan_required] in H.
  destruct (iter_next _) as [[[h|]|e|] it'] eqn:Hn; try done.
  - destruct (iter_next_inv _ _ _ _ Hb Hn) as (Ht & u & c & n & rest & -> & Hu & Hc & -> & ->).
    rewrite validate_fixed_length_cases in H. destruct (fixed_length_ok _); [|done].
    rewrite bytes_ok_cons, bytes_ok_app, bytes_ok_cons in Hb. destruct Hb as (? & ? & ? & Hb).
    destruct (IH _ _ _ _ _ Hb H) as (hs & raw & -> & Hch).
    eexists _, (u :: c ++ n :: raw). split; [cbn; by rewrite <- app_assoc|].
    by constructor.
  - apply iter_next_None in Hn as [-> ->]. simplify_eq.
    exists [], []. split; [done|constructor].
Qed.

Lemma scan_required_returns r fuel : ∀ buf t first,
  bytes_ok buf → (length buf < fuel)%nat →
  returns (scan_required fuel {| buffer := buf; iter_next_ext_type := t |} r first).
Proof.
  induction fuel as [|fuel IH]; intros buf t first Hb Hf; [lia|].
  cbn [scan_required].
  pose proof (iter_next_returns {| buffer := buf; iter_next_ext_type := t |} Hb) as Hr.
  destruct (iter_next _) as [[[h|]|e|] it] eqn:Hn; try done.
  destruct (iter_next_inv _ _ _ _ Hb Hn) as (Ht & u & c & n & rest & -> & Hu & Hc & -> & ->).
  rewrite validate_fixed_length_cases. destruct (fixed_length_ok _); [|done].
  rewrite bytes_ok_cons, bytes_ok_app, bytes_ok_cons in Hb.
  apply IH; [naive_solver|]. cbn in Hf. rewrite List.length_app in Hf. cbn in Hf. lia.
Qed.

(** The scan succeeds exactly on well-formed chains whose fixed-width headers
    have their width, and answers the first type the recipient must comprehend. *)
Lemma first_unsupported_required_extension_iff raw t r o :
  bytes_ok raw →
  first_unsupported_required_extension {| buffer := raw; iter_next_ext_type := t |} r = Ok o
  ↔ ∃ hs, ext_chain t hs raw ∧ forallb fixed_length_ok hs = true ∧ o = first_unsupported hs r.
Proof.
  intros Hb. unfold first_unsupported_required_extension; cbn [buffer]. split.
  - destruct (scan_required _ _ _ _) as [[o' it]|e|] eqn:Hs; try done.
    destruct (scan_required_inv _ _ _ _ _ _ _ Hb Hs) as (hs & pre & E & Hch).
    destruct (buffer it) eqn:Eb; [|done]. intros [= <-].
    rewrite E, app_nil_r in *. subst raw.
    apply ext_chain_fuel in Hch as Hl.
    rewrite (scan_required_chain _ _ _ _ Hch) in Hs by lia.
    destruct (forallb _ _) eqn:?; [|done]. naive_solver.
  - intros (hs & Hch & Hf & ->). apply ext_chain_fuel in Hch as Hl.
    rewrite (scan_required_chain _ _ _ _ Hch) by lia. by rewrite Hf.
Qed.

(** *** PDU Session Container codec *)

(** The fields are [u8] values in the source. *)
Definition psc_fields_ok (c : PduSessionContainer) : Prop :=
  0 ≤ qfi c ∧ match ppi c with Some p => 0 ≤ p | None => True end.

Definition octet3 (q : Z) (ppp rqi : bool) : Z :=
  let o := if ppp then Z.lor q 0x80 else q in
  if rqi then Z.lor o 0x40 else o.

Lemma octet3_bits (ppp rqi : bool) : ∀ q, 0 ≤ q < 64 →
  (Z.land (octet3 q ppp rqi) 0x80 =? 0) = negb ppp
  ∧ (Z.land (octet3 q ppp rqi) 0x40 =? 0) = negb rqi
  ∧ Z.land (octet3 q ppp rqi) 0x3f = q
  ∧ 0 ≤ octet3 q ppp rqi ∧ octet3 q ppp rqi < 256.
Proof. destruct ppp, rqi; by_enum 64%nat. Qed.

Lemma ppi_bits : ∀ p, 0 ≤ p < 8 →
  Z.land (Z.land (Z.shiftl p 5) 0xff) 0x03 = 0
  ∧ Z.shiftr (Z.land (Z.shiftl p 5) 0xff) 5 = p
  ∧ 0 ≤ Z.land (Z.shiftl p 5) 0xff ∧ Z.land (Z.shiftl p 5) 0xff < 256.
Proof. by_enum 8%nat. Qed.

Lemma octet_fields : ∀ b, 0 ≤ b < 256 →
  0 ≤ Z.land b 0x3f ∧ Z.land b 0x3f < 64 ∧ 0 ≤ Z.shiftr b 5 ∧ Z.shiftr b 5 < 8.
Proof. by_enum 256%nat. Qed.

(** The encoder's output, one case per shape. *)
Definition psc_wire (c : PduSessionContainer) : bytes :=
  if pdu_type c =? 0 then
    match ppi c with
    | Some p => [0; octet3 (qfi c) true (rqi c); Z.land (Z.shiftl p 5) 0xff; 0; 0; 0]
    | None => [0; octet3 (qfi c) false (rqi c)]
    end
  else [16; qfi c].

Lemma psc_encode_wire c :
  psc_encode c = match psc_validate c with Ok _ => Ok (psc_wire c) | Err e => Err e | Crash => Crash end.
Proof.
  destruct c as [t q p r]. unfold psc_encode, psc_wire, psc_validate, octet3.
  cbn [pdu_type qfi ppi rqi].
  destruct (t =? 0) eqn:E0; to_prop; subst; [by rust_cases|].
  destruct (t =? 1) eqn:E1; to_prop; subst; [by rust_cases|done].
Qed.

Lemma psc_validate_range c :
  psc_fields_ok c → psc_validate c = Ok () →
  0 ≤ qfi c < 64 ∧ match ppi c with Some p => pdu_type c = 0 ∧ 0 ≤ p < 8 | None => True end
  ∧ (pdu_type c = 0 ∨ pdu_type c = 1 ∧ ppi c = None ∧ rqi c = false).
Proof.
  destruct c as [t q p r]. unfold psc_validate, psc_fields_ok; cbn. intros [Hq Hp] H.
  rust_cases; to_prop; repeat split; lia || auto.
Qed.

Lemma psc_wire_bytes c : psc_fields_ok c → psc_validate c = Ok () → bytes_ok (psc_wire c).
Proof.
  intros Hf Hv. destruct (psc_validate_range c Hf Hv) as (Hq & Hp & _).
  pose proof (octet3_bits true (rqi c) _ Hq) as (_ & _ & _ & ? & ?).
  pose proof (octet3_bits false (rqi c) _ Hq) as (_ & _ & _ & ? & ?).
  unfold psc_wire, bytes_ok, u8.
  destruct (pdu_type c =? 0); [destruct (ppi c) as [p|]|];
    [pose proof (ppi_bits p (proj2 Hp)) as (_ & _ & ? & ?)|..]; repeat constructor; lia.
Qed.

Lemma psc_wire_len c : len (psc_wire c) = 2 ∨ len (psc_wire c) = 6.
Proof. unfold psc_wire. rust_cases; auto. Qed.

Definition psc_decodes (next : Z) (c : PduSessionContainer) : Prop :=
  psc_decode_with_reason {| ext_type := GTPU_EXT_PDU_SESSION_CONTAINER;
                            content := psc_wire c; header_next_ext_type := next |} = Ok c.

#[local] Instance psc_decodes_dec next c : Decision (psc_decodes next c).
Proof. unfold psc_decodes. apply _. Defined.

Lemma psc_decodes_uplink next : ∀ q, 0 ≤ q < 64 →
  psc_decodes next {| pdu_type := 1; qfi := q; ppi := None; rqi := false |}.
Proof. by_enum 64%nat. Qed.

Lemma psc_decodes_downlink next : ∀ q, 0 ≤ q < 64 →
  Forall (λ p, Forall (λ r, psc_decodes next {| pdu_type := 0; qfi := q; ppi := p; rqi := r |})
                 [true; false])
    (None :: (Some ∘ Z.of_nat <$> seq 0 8)).
Proof. by_enum 64%nat. Qed.

Lemma psc_decode_wire c next :
  psc_fields_ok c → psc_validate c = Ok () → psc_decodes next c.
Proof.
  intros Hf Hv. destruct (psc_validate_range c Hf Hv) as (Hq & Hp & Ht).
  destruct c as [t q p r]; cbn in *.
  destruct Ht as [->|(-> & -> & ->)]; [|by apply psc_decodes_uplink].
  pose proof (psc_decodes_downlink next q Hq) as H. rewrite Forall_forall in H.
  assert (Hr : r ∈ [true; false]) by (destruct r; set_solver).
  specialize (H p). rewrite Forall_forall in H. apply H; [|done].
  destruct p as [p|]; [right|left]. apply list_elem_of_fmap. exists (Z.to_nat p).
  destruct Hp. split; [cbn; f_equal; lia|apply elem_of_seq; lia].
Qed.

Lemma psc_decode_valid h c :
  bytes_ok (content h) → psc_decode_with_reason h = Ok c →
  psc_fields_ok c ∧ psc_validate c = Ok () ∧ len (psc_wire c) = len (content h).
Proof.
  destruct h as [t cs n]. unfold bytes_ok; cbn [content]. intros Hb H.
  unfold psc_decode_with_reason in H; cbn [content ext_type] in H.
  assert (Hi : ∀ i x, idx (E := PduSessionContainerError * Z) cs i = Ok x → 0 ≤ x < 256).
  { intros i x (pre & post & -> & _)%idx_inv. apply Forall_app in Hb as [_ Hb].
    by apply Forall_cons in Hb as [? _]. }
  repeat (case_match; simplify_eq); to_prop;
    repeat match goal with E : idx _ _ = Ok _ |- _ =>
      apply Hi, octet_fields in E as (? & ? & ? & ?) end;
    unfold psc_fields_ok, psc_validate, psc_wire; cbn [pdu_type qfi ppi rqi];
    repeat match goal with E : Z.land (_ ≫ 4) 15 = _ |- _ => rewrite E; clear E end;
    cbn [Z.eqb Pos.eqb];
    rewrite ?(proj2 (Z.ltb_ge 63 _)), ?(proj2 (Z.ltb_ge 7 _)) by lia;
    repeat split; try lia; by symmetry.
Qed.

Lemma psc_decode_returns h : returns (psc_decode_with_reason h).
Proof.
  unfold psc_decode_with_reason, returns.
  destruct (content h) as [|c0 [|c1 [|c2 tl]]]; rust_cases; done.
Qed.

(** ** Properties *)

(**  The comprehension scan is exact: [first_unsupported_required_extension]
    answers precisely on well-formed chains whose fixed-length extensions have
    their length, its answer is the first extension type in wire order that the
    recipient must comprehend and the codec does not support, and on any octets
    at all it returns an answer or an error. *)
Theorem comprehension_scan_spec raw t r :
  bytes_ok raw →
  let scan := first_unsupported_required_extension
                {| buffer := raw; iter_next_ext_type := t |} r in
  returns scan
  ∧ ∀ o, scan = Ok o
         ↔ ∃ hs, ext_chain t hs raw ∧ forallb fixed_length_ok hs = true
                 ∧ o = first_unsupported hs r.
Proof.
  intros Hb scan. split; [|intros o; by apply first_unsupported_required_extension_iff].
  unfold scan, first_unsupported_required_extension; cbn [buffer].
  pose proof (scan_required_returns r (S (length raw)) raw t None Hb) as Hr.
  destruct (scan_required _ _ _ _) as [[o it]|e|]; [by destruct (buffer it)|done|].
  exfalso. apply Hr; [lia|done].
Qed.

Lemma comprehension_scan_witness :
  first_unsupported_required_extension
    {| buffer := [1; 8; 104; 0xc1; 1; 0; 0; 0]; iter_next_ext_type := 0x40 |} Endpoint
  = Ok (Some 0xc1)
  ∧ ∃ hs, ext_chain 0x40 hs [1; 8; 104; 0xc1; 1; 0; 0; 0]
          ∧ forallb fixed_length_ok hs = true
          ∧ Some 0xc1 = first_unsupported hs Endpoint.
Proof.
  split; [by vm_compute|].
  apply (comprehension_scan_spec [1; 8; 104; 0xc1; 1; 0; 0; 0] 0x40 Endpoint);
    [repeat constructor; done|by vm_compute].
Defined.

(**  PDU Session Containers round trip: the encoder accepts exactly the
    containers [validate] accepts, and what it writes, carried in a header of the
    container type, decodes to the same container. *)
Theorem psc_roundtrip c next :
  psc_fields_ok c →
  if is_ok (psc_validate c)
  then ∃ w, psc_encode c = Ok w ∧ bytes_ok w ∧ Z.modulo (len w + 2) 4 = 0
            ∧ psc_decode {| ext_type := GTPU_EXT_PDU_SESSION_CONTAINER; content := w;
                            header_next_ext_type := next |} = Ok c
  else is_err (psc_encode c) = true.
Proof.
  intros Hf. rewrite psc_encode_wire. destruct (psc_validate c) as [[]|e|] eqn:Hv; cbn.
  - exists (psc_wire c). split_and!; [done|by apply psc_wire_bytes| |].
    + by destruct (psc_wire_len c) as [->| ->].
    + unfold psc_decode. by rewrite (psc_decode_wire c next).
  - done.
  - unfold psc_validate in Hv. by rust_cases.
Qed.

Lemma psc_roundtrip_witness :
  ∃ w, psc_encode {| pdu_type := 0; qfi := 63; ppi := Some 7; rqi := true |} = Ok w
    ∧ bytes_ok w ∧ Z.modulo (len w + 2) 4 = 0
    ∧ psc_decode {| ext_type := GTPU_EXT_PDU_SESSION_CONTAINER; content := w;
                    header_next_ext_type := 0 |}
      = Ok {| pdu_type := 0; qfi := 63; ppi := Some 7; rqi := true |}.
Proof.
  apply (psc_roundtrip {| pdu_type := 0; qfi := 63; ppi := Some 7; rqi := true |} 0).
  by vm_compute.
Defined.

(**  Whatever the container decoder accepts is a valid container, and
    encoding it again gives content of the same length that decodes to it: a
    decoded container can always be sent on. *)
Theorem psc_decode_canonical h c :
  bytes_ok (content h) → psc_decode_with_reason h = Ok c →
  ∃ w, psc_encode c = Ok w ∧ len w = len (content h)
       ∧ psc_decode_with_reason
           {| ext_type := ext_type h; content := w;
              header_next_ext_type := header_next_ext_type h |} = Ok c.
Proof.
  intros Hb Hd. destruct (psc_decode_valid h c Hb Hd) as (Hf & Hv & Hl).
  exists (psc_wire c). rewrite psc_encode_wire, Hv. split_and!; [done..|].
  assert (ext_type h = GTPU_EXT_PDU_SESSION_CONTAINER) as ->.
  { unfold psc_decode_with_reason in Hd. destruct (_ =? _) eqn:E in Hd; [by to_prop|done]. }
  by apply psc_decode_wire.
Qed.

Lemma psc_decode_canonical_witness :
  ∃ w, psc_encode {| pdu_type := 0; qfi := 5; ppi := None; rqi := true |} = Ok w ∧ len w = 2
    ∧ psc_decode_with_reason {| ext_type := 0x85; content := w; header_next_ext_type := 0x40 |}
      = Ok {| pdu_type := 0; qfi := 5; ppi := None; rqi := true |}.
Proof.
  apply (psc_decode_canonical
           {| ext_type := 0x85; content := [1; 0x45]; header_next_ext_type := 0x40 |}
           {| pdu_type := 0; qfi := 5; ppi := None; rqi := true |});
    [repeat constructor; done|by vm_compute].
Defined.
