(* ===== verification/GtpuChain.v ===== *)
(** GTP-U extension chains, [GtpuExtensionChain] of
    [crates/opc-proto-gtpu/src/lib.rs]: the one-pass summary of a raw chain and the
    builders that insert or replace a header.  The chain a summary stands for is
    the relation [chain_of]; the theorems say which chains the summary accepts and
    what each builder does to the list of headers. *)
From S2P Require Import Prelude.
From S2P Require Import Protocol.
From S2P Require Import GtpuExtension.

(** ** Extension chains *)

Inductive GtpuExtensionChainMalformedReason :=
| ChainTruncated
| LengthUnitsZero
| ChainLengthOverflow
| TrailingBytes
| MalformedPduSessionContainer (reason : PduSessionContainerError).

Inductive GtpuExtensionChainError :=
| MissingFirstExtensionType
| FirstExtensionTypeWithoutHeaders
| MalformedRawChain (reason : GtpuExtensionChainMalformedReason)
| DuplicatePduSessionContainer
| InvalidPduSessionContainer (reason : PduSessionContainerError)
| ExtensionLengthOverflow
| BuiltChainInvalid.

Record GtpuExtensionChain := {
  first_extension_type : option Z;
  raw_headers : bytes;
  header_count : Z;
  pdu_session_container : option PduSessionContainer;
}.

#[export] Instance GtpuExtensionChain_eq_dec : EqDecision GtpuExtensionChain.
Proof. solve_decision. Defined.

Definition chain_none : GtpuExtensionChain :=
  {| first_extension_type := None;
     raw_headers := [];
     header_count := 0;
     pdu_session_container := None |}.

Definition has_headers (c : GtpuExtensionChain) : bool :=
  match first_extension_type c with Some _ => true | None => false end
  || match raw_headers c with [] => false | _ => true end.

(** The block of the summary loop that records the singleton container. *)
Definition note_container (psc : option PduSessionContainer) (extension : GtpuExtensionHeader)
    : outcome GtpuExtensionChainError (option PduSessionContainer) :=
  if ext_type extension =? GTPU_EXT_PDU_SESSION_CONTAINER then
    match psc with
    | Some _ => Err DuplicatePduSessionContainer
    | None =>
        let? container :=
          map_err (λ '(reason, _), MalformedRawChain (MalformedPduSessionContainer reason))
            (psc_decode_with_reason extension) in
        Ok (Some container)
    end
  else Ok psc.

(** The [while] loop of [summarize_extension_chain]; a turn advances the offset
    by at least four, so the length of the raw bytes bounds the turns. *)
Fixpoint summarize_loop (fuel : nat) (raw_headers : bytes)
    (next_ext_type offset header_count : Z) (psc : option PduSessionContainer)
    : outcome GtpuExtensionChainError (Z * Z * option PduSessionContainer) :=
  if next_ext_type =? 0 then Ok (offset, header_count, psc)
  else
    match fuel with
    | O => Crash
    | S fuel =>
        if len raw_headers <=? offset then Err (MalformedRawChain ChainTruncated)
        else
          let? ext_len_units := idx raw_headers offset in
          if ext_len_units =? 0 then Err (MalformedRawChain LengthUnitsZero)
          else
            let? ext_len_bytes :=
              ok_or (checked_mul ext_len_units 4) (MalformedRawChain ChainLengthOverflow) in
            let? end_ :=
              ok_or (checked_add offset ext_len_bytes)
                (MalformedRawChain ChainLengthOverflow) in
            if len raw_headers <? end_ then Err (MalformedRawChain ChainTruncated)
            else
              let? content := slice raw_headers (offset + 1) (end_ - 1) in
              let? next := idx raw_headers (end_ - 1) in
              let extension :=
                {| ext_type := next_ext_type;
                   content := content;
                   header_next_ext_type := next |} in
              let header_count := saturating_add header_count 1 in
              let? psc := note_container psc extension in
              summarize_loop fuel raw_headers (header_next_ext_type extension)
                end_ header_count psc
    end.

Definition summarize_extension_chain (first_extension_type : option Z) (raw_headers : bytes)
    : outcome GtpuExtensionChainError GtpuExtensionChain :=
  match raw_headers with
  | [] =>
      match first_extension_type with
      | Some _ => Err FirstExtensionTypeWithoutHeaders
      | None => Ok chain_none
      end
  | _ :: _ =>
      let? first := ok_or first_extension_type MissingFirstExtensionType in
      if first =? 0 then Err MissingFirstExtensionType
      else
        let? (offset, header_count, psc) :=
          summarize_loop (length raw_headers) raw_headers first 0 0 None in
        if negb (offset =? len raw_headers) then Err (MalformedRawChain TrailingBytes)
        else Ok {| first_extension_type := first_extension_type;
                   raw_headers := raw_headers;
                   header_count := header_count;
                   pdu_session_container := psc |}
  end.

Definition from_raw := summarize_extension_chain.

Definition encode_extension_header (content : bytes) (next_ext_type : Z)
    : outcome GtpuExtensionChainError bytes :=
  let? len := ok_or (checked_add (len content) 2) ExtensionLengthOverflow in
  if negb (Z.modulo len 4 =? 0) then Err ExtensionLengthOverflow
  else
    let units := len / 4 in
    if 255 <? units then Err ExtensionLengthOverflow
    else if units =? 0 then Err ExtensionLengthOverflow
    else Ok (units :: content ++ [next_ext_type]).

Definition validate_consistency (c : GtpuExtensionChain)
    : outcome GtpuExtensionChainError () :=
  let? observed := from_raw (first_extension_type c) (raw_headers c) in
  if bool_decide (observed = c) then Ok () else Err BuiltChainInvalid.

(** [try_fold] of the capacity and the encoding loop of [from_extension_parts]. *)
Fixpoint parts_capacity (total : Z) (headers : list (Z * bytes))
    : outcome GtpuExtensionChainError Z :=
  match headers with
  | [] => Ok total
  | (_, content) :: rest =>
      let? total := ok_or (checked_add total (len content)) ExtensionLengthOverflow in
      let? total := ok_or (checked_add total 2) ExtensionLengthOverflow in
      parts_capacity total rest
  end.

Definition first_type_of (headers : list (Z * bytes)) : Z :=
  match headers with (t, _) :: _ => t | [] => 0 end.

Fixpoint encode_parts (headers : list (Z * bytes)) : outcome GtpuExtensionChainError bytes :=
  match headers with
  | [] => Ok []
  | (_, content) :: rest =>
      let? raw := encode_extension_header content (first_type_of rest) in
      let? raws := encode_parts rest in
      Ok (raw ++ raws)
  end.

Definition from_extension_parts (headers : list (Z * bytes))
    : outcome GtpuExtensionChainError GtpuExtensionChain :=
  let first_extension_type := fst <$> head headers in
  let? _ := parts_capacity 0 headers in
  let? raw_headers := encode_parts headers in
  from_raw first_extension_type raw_headers.

(** The loop of [upsert_leading_extension] over the lazy iterator. *)
Fixpoint upsert_leading_loop (fuel : nat) (it : GtpuExtensionHeaderIterator)
    (extension_type : Z) (removed : bool) (headers : list (Z * bytes))
    : outcome GtpuExtensionChainError (list (Z * bytes)) :=
  match fuel with
  | O => Crash
  | S fuel =>
      let '(item, it) := iter_next it in
      let? item := map_err (λ _, BuiltChainInvalid) item in
      match item with
      | None => Ok headers
      | Some extension =>
          if ext_type extension =? extension_type then
            if removed then Err BuiltChainInvalid
            else upsert_leading_loop fuel it extension_type true headers
          else
            upsert_leading_loop fuel it extension_type removed
              (headers ++ [(ext_type extension, content extension)])
      end
  end.

Definition upsert_leading_extension (c : GtpuExtensionChain) (extension_type : Z)
    (replacement_content : bytes) : outcome GtpuExtensionChainError GtpuExtensionChain :=
  let? _ := validate_consistency c in
  let? _ := ok_or (checked_add (header_count c) 1) ExtensionLengthOverflow in
  let first_type := default 0 (first_extension_type c) in
  let? headers :=
    upsert_leading_loop (S (length (raw_headers c)))
      {| buffer := raw_headers c; iter_next_ext_type := first_type |}
      extension_type false [(extension_type, replacement_content)] in
  from_extension_parts headers.

(** The loop of [upsert_extension]: replace in place, or append. *)
Fixpoint upsert_loop (fuel : nat) (it : GtpuExtensionHeaderIterator)
    (extension_type : Z) (replacement_content : bytes) (replaced : bool)
    (headers : list (Z * bytes))
    : outcome GtpuExtensionChainError (bool * list (Z * bytes)) :=
  match fuel with
  | O => Crash
  | S fuel =>
      let '(item, it) := iter_next it in
      let? item := map_err (λ _, BuiltChainInvalid) item in
      match item with
      | None => Ok (replaced, headers)
      | Some extension =>
          if ext_type extension =? extension_type then
            if replaced then Err BuiltChainInvalid
            else upsert_loop fuel it extension_type replacement_content true
                   (headers ++ [(ext_type extension, replacement_content)])
          else
            upsert_loop fuel it extension_type replacement_content replaced
              (headers ++ [(ext_type extension, content extension)])
      end
  end.

Definition upsert_extension (c : GtpuExtensionChain) (extension_type : Z)
    (replacement_content : bytes) : outcome GtpuExtensionChainError GtpuExtensionChain :=
  let? _ := validate_consistency c in
  let? _ := ok_or (checked_add (header_count c) 1) ExtensionLengthOverflow in
  let first_type := default 0 (first_extension_type c) in
  let? (replaced, headers) :=
    upsert_loop (S (length (raw_headers c)))
      {| buffer := raw_headers c; iter_next_ext_type := first_type |}
      extension_type replacement_content false [] in
  let headers :=
    if replaced then headers else headers ++ [(extension_type, replacement_content)] in
  from_extension_parts headers.

Definition upsert_udp_port (c : GtpuExtensionChain) (port : Z)
    : outcome GtpuExtensionChainError GtpuExtensionChain :=
  upsert_extension c GTPU_EXT_UDP_PORT (u16_to_be_bytes port).

Definition upsert_pdu_session_container (c : GtpuExtensionChain)
    (container : PduSessionContainer) : outcome GtpuExtensionChainError GtpuExtensionChain :=
  let? content := map_err InvalidPduSessionContainer (psc_encode container) in
  upsert_leading_extension c GTPU_EXT_PDU_SESSION_CONTAINER content.

Definition canonicalize_pdu_session_container (c : GtpuExtensionChain)
    : outcome GtpuExtensionChainError GtpuExtensionChain :=
  match pdu_session_container c with
  | Some container => upsert_pdu_session_container c container
  | None =>
      let? _ := validate_consistency c in
      Ok c
  end.

Definition from_pdu_session_container (container : PduSessionContainer)
    : outcome GtpuExtensionChainError GtpuExtensionChain :=
  let? chain := upsert_pdu_session_container chain_none container in
  if bool_decide (pdu_session_container chain = Some container) then Ok chain
  else Err BuiltChainInvalid.

(** ** Chains as header lists *)

Definition parts (hs : list GtpuExtensionHeader) : list (Z * bytes) :=
  (λ h, (ext_type h, content h)) <$> hs.

Definition has_type (t : Z) (p : Z * bytes) : bool := p.1 =? t.

Definition as_header (p : Z * bytes) : GtpuExtensionHeader :=
  {| ext_type := p.1; content := p.2; header_next_ext_type := 0 |}.

(** The container among [(type, content)] parts: none, or the single one, whose
    content then decodes. *)
Definition container_of (ps : list (Z * bytes)) (psc : option PduSessionContainer) : Prop :=
  match List.filter (has_type GTPU_EXT_PDU_SESSION_CONTAINER) ps with
  | [] => psc = None
  | [p] => ∃ c, psc_decode_with_reason (as_header p) = Ok c ∧ psc = Some c
  | _ => False
  end.

Lemma ext_chain_first t hs raw : ext_chain t hs raw → first_type_of (parts hs) = t.
Proof. by destruct 1. Qed.

Lemma ext_chain_head t hs raw :
  ext_chain t hs raw → fst <$> head (parts hs) = if t =? 0 then None else Some t.
Proof. destruct 1 as [|t ??????]; [done|]. cbn. by rewrite (proj2 (Z.eqb_neq t 0)). Qed.

(** Folding [note_container] over the headers, as the summary loop does. *)
Fixpoint note_all (psc : option PduSessionContainer) (hs : list GtpuExtensionHeader)
    : outcome GtpuExtensionChainError (option PduSessionContainer) :=
  match hs with
  | [] => Ok psc
  | h :: hs => let? psc := note_container psc h in note_all psc hs
  end.

Lemma note_container_type psc h :
  note_container psc h
  = if has_type GTPU_EXT_PDU_SESSION_CONTAINER (ext_type h, content h)
    then match psc with
         | Some _ => Err DuplicatePduSessionContainer
         | None => map_ok Some (map_err (λ '(reason, _),
                     MalformedRawChain (MalformedPduSessionContainer reason))
                     (psc_decode_with_reason (as_header (ext_type h, content h))))
         end
    else Ok psc.
Proof.
  destruct h as [t c n]. unfold note_container, has_type; cbn [ext_type content fst].
  change (psc_decode_with_reason _) with (psc_decode_with_reason (as_header (t, c))).
  destruct (_ =? _); [|done]. destruct psc; [done|].
  by destruct (psc_decode_with_reason _) as [|[]|].
Qed.

Lemma note_all_some c hs r :
  note_all (Some c) hs = Ok r
  ↔ List.filter (has_type GTPU_EXT_PDU_SESSION_CONTAINER) (parts hs) = [] ∧ r = Some c.
Proof.
  induction hs as [|h hs IH]; cbn; [naive_solver|].
  rewrite note_container_type. destruct (has_type _ _); naive_solver.
Qed.

Lemma note_all_none hs r : note_all None hs = Ok r ↔ container_of (parts hs) r.
Proof.
  unfold container_of. induction hs as [|h hs IH]; cbn; [naive_solver|].
  rewrite note_container_type.
  destruct (has_type _ _) eqn:E; [|done].
  destruct (psc_decode_with_reason _) as [c|[]|] eqn:Hd; cbn;
    [rewrite note_all_some|..];
    (destruct (List.filter _ (parts hs)) eqn:Ef; unfold parts in Ef; rewrite Ef); naive_solver.
Qed.

Lemma note_all_returns hs : ∀ psc, returns (note_all psc hs).
Proof.
  induction hs as [|h hs IH]; intros psc; cbn; [done|].
  unfold note_container. pose proof (psc_decode_returns h) as Hr.
  destruct (_ =? _); [destruct psc; [done|]|apply IH].
  destruct (psc_decode_with_reason h) as [c|[]|]; cbn; [apply IH|done..].
Qed.

(** One turn of the summary loop. *)
Lemma summarize_step fuel pre t units c next rest k psc :
  t ≠ 0 → 0 < units < 256 → len c + 2 = 4 * units →
  len (pre ++ units :: c ++ next :: rest) ≤ USIZE_MAX →
  summarize_loop (S fuel) (pre ++ units :: c ++ next :: rest) t (len pre) k psc
  = let? psc := note_container psc
                  {| ext_type := t; content := c; header_next_ext_type := next |} in
    summarize_loop fuel (pre ++ units :: c ++ next :: rest) next
      (len pre + 4 * units) (saturating_add k 1) psc.
Proof.
  intros Ht Hu Hc Hl. cbn [summarize_loop].
  rewrite (proj2 (Z.eqb_neq t 0)) by done.
  rewrite (proj2 (Z.leb_gt _ (len pre))) by len_lia.
  rewrite idx_at, (proj2 (Z.eqb_neq units 0)) by lia.
  unfold checked_mul, checked_add.
  rewrite (proj2 (Z.leb_le (units * 4) _)) by (unfold USIZE_MAX; lia). cbn [ok_or].
  rewrite (proj2 (Z.leb_le (len pre + units * 4) _)) by len_lia. cbn [ok_or].
  rewrite (proj2 (Z.ltb_ge _ (len pre + units * 4))) by len_lia.
  rewrite (cons_middle units pre), (app_assoc pre), slice_at by len_lia.
  rewrite (app_assoc _ c), idx_at by len_lia.
  replace (len pre + units * 4) with (len pre + 4 * units) by lia.
  by rewrite <- !app_assoc.
Qed.

Lemma app_header pre (units : Z) c (next : Z) rest :
  pre ++ units :: c ++ next :: rest = (pre ++ units :: c ++ [next]) ++ rest.
Proof. by rewrite <- app_assoc, <- app_comm_cons, <- app_assoc. Qed.

Lemma len_header pre (units : Z) c (next : Z) :
  len c + 2 = 4 * units → len (pre ++ units :: c ++ [next]) = len pre + 4 * units.
Proof. intros. len_lia. Qed.

Lemma summarize_loop_chain t hs raw : ext_chain t hs raw → ∀ fuel pre post k psc,
  (length hs ≤ fuel)%nat → 0 ≤ k ≤ len pre → len (pre ++ raw ++ post) ≤ USIZE_MAX →
  summarize_loop fuel (pre ++ raw ++ post) t (len pre) k psc
  = map_ok (λ psc, (len pre + len raw, k + len hs, psc)) (note_all psc hs).
Proof.
  induction 1 as [|t u c n hs raw Ht Hu Hc Hch IH]; intros fuel pre post k psc Hf Hk Hl.
  - autorewrite with len. rewrite !Z.add_0_r. by destruct fuel.
  - destruct fuel as [|fuel]; cbn in Hf; [lia|].
    cbn [app] in *. rewrite <- app_assoc in *. cbn [app] in *.
    rewrite summarize_step by done. cbn [note_all].
    destruct (note_container psc _) as [psc'|e|]; [|done..].
    rewrite app_header, <- len_header with (pre := pre) (c := c) (next := n) by done.
    rewrite app_header in Hl.
    assert (saturating_add k 1 = k + 1) as ->.
    { unfold saturating_add, U64_MAX, USIZE_MAX in *. len_lia. }
    rewrite IH; [|lia|rewrite len_header by done; lia|done].
    destruct (note_all psc' hs); cbn; [|done..]. do 3 f_equal; len_lia.
Qed.

(** A turn either reports an error or finds a complete header. *)
Lemma summarize_cases fuel pre rest t k psc :
  t ≠ 0 → bytes_ok rest →
  (∃ e, summarize_loop (S fuel) (pre ++ rest) t (len pre) k psc = Err e)
  ∨ ∃ u c n rest', rest = u :: c ++ n :: rest' ∧ 0 < u < 256 ∧ len c + 2 = 4 * u.
Proof.
  intros Ht Hb. cbn [summarize_loop]. rewrite (proj2 (Z.eqb_neq t 0)) by done.
  destruct rest as [|u tl]; [rewrite (proj2 (Z.leb_le _ _)) by len_lia; eauto|].
  apply bytes_ok_cons in Hb as [Hu _]. unfold u8 in Hu.
  rewrite (proj2 (Z.leb_gt _ _)), idx_at by len_lia.
  destruct (u =? 0) eqn:Eu; [eauto|]. to_prop.
  unfold checked_mul, checked_add, USIZE_MAX.
  rewrite (proj2 (Z.leb_le (u * 4) _)) by lia. cbn [ok_or].
  destruct (_ <=? _); cbn [ok_or]; [|eauto].
  destruct (_ <? _) eqn:El; [eauto|]. to_prop. right.
  destruct (header_split u tl) as (c & n & rest' & -> & Hc); [lia|len_lia|].
  exists u, c, n, rest'. split_and!; lia || done.
Qed.

Lemma summarize_loop_inv fuel : ∀ pre rest t k psc off k' psc',
  bytes_ok rest → len (pre ++ rest) ≤ USIZE_MAX →
  summarize_loop fuel (pre ++ rest) t (len pre) k psc = Ok (off, k', psc') →
  ∃ hs raw post, rest = raw ++ post ∧ ext_chain t hs raw ∧ off = len pre + len raw
                 ∧ (length hs ≤ fuel)%nat.
Proof.
  induction fuel as [|fuel IH]; intros pre rest t k psc off k' psc' Hb Hl H;
    (destruct (decide (t = 0)) as [->|Ht];
     [cbn in H; simplify_eq; exists [], [], rest; split_and!; [done|constructor|len_lia|cbn; lia]|]).
  - cbn in H. by rewrite (proj2 (Z.eqb_neq t 0)) in H.
  - destruct (summarize_cases fuel pre rest t k psc Ht Hb)
      as [[e He]|(u & c & n & rest' & -> & Hu & Hc)]; [by rewrite He in H|].
    rewrite summarize_step in H by done.
    destruct (note_container psc _) as [psc1|e|]; [|done..].
    rewrite app_header, <- len_header with (pre := pre) (c := c) (next := n) in H by done.
    rewrite bytes_ok_cons, bytes_ok_app, bytes_ok_cons in Hb. destruct Hb as (_ & _ & _ & Hb).
    destruct (IH _ _ _ _ _ _ _ _ Hb ltac:(by rewrite <- app_header) H)
      as (hs & raw & post & -> & Hch & -> & Hf).
    eexists _, (u :: c ++ n :: raw), post. split_and!.
    + cbn. by rewrite <- app_assoc.
    + by constructor.
    + rewrite len_header by done. len_lia.
    + cbn. lia.
Qed.

Lemma summarize_loop_returns fuel : ∀ pre rest t k psc,
  bytes_ok rest → (length rest ≤ fuel)%nat → (0 < fuel)%nat → len (pre ++ rest) ≤ USIZE_MAX →
  returns (summarize_loop fuel (pre ++ rest) t (len pre) k psc).
Proof.
  induction fuel as [|fuel IH]; intros pre rest t k psc Hb Hf Hf0 Hl; [lia|].
  destruct (decide (t = 0)) as [->|Ht]; [done|].
  destruct (summarize_cases fuel pre rest t k psc Ht Hb)
    as [[e He]|(u & c & n & rest' & -> & Hu & Hc)]; [by rewrite He|].
  rewrite summarize_step by done.
  pose proof (note_all_returns
    [{| ext_type := t; content := c; header_next_ext_type := n |}] psc) as Hn. cbn in Hn.
  destruct (note_container psc _) as [psc1|e|]; [|done..].
  rewrite app_header, <- len_header with (pre := pre) (c := c) (next := n) by done.
  rewrite bytes_ok_cons, bytes_ok_app, bytes_ok_cons in Hb.
  rewrite app_header in Hl. cbn in Hf. rewrite List.length_app in Hf. cbn in Hf.
  unfold len in Hc. apply IH; [naive_solver|lia|lia|done].
Qed.

(** The summary accepts exactly the well-formed chains with at most one container. *)
Lemma summarize_iff t raw c :
  bytes_ok raw → len raw ≤ USIZE_MAX → raw ≠ [] →
  summarize_extension_chain (Some t) raw = Ok c
  ↔ ∃ hs psc, ext_chain t hs raw ∧ container_of (parts hs) psc
      ∧ c = {| first_extension_type := Some t; raw_headers := raw;
               header_count := len hs; pdu_session_container := psc |}.
Proof.
  intros Hb Hl Hne. unfold summarize_extension_chain. destruct raw as [|u tl]; [done|].
  set (raw := u :: tl) in *. cbn [ok_or]. split.
  - intros H. destruct (t =? 0) eqn:Et; [done|].
    destruct (summarize_loop _ raw t 0 0 None) as [[[off k] psc]|e|] eqn:Hs; try done.
    destruct (off =? len raw) eqn:Eo; cbn [negb] in H; [|done]. to_prop. simplify_eq.
    destruct (summarize_loop_inv _ [] raw t 0 None _ _ _ Hb Hl Hs)
      as (hs & raw' & post & E & Hch & Eo & Hf).
    assert (post = []) as ->. { apply len_0_inv. rewrite E in Eo. len_lia. }
    pose proof (summarize_loop_chain _ _ _ Hch (length raw) [] [] 0 None Hf) as Hs'.
    cbn [app] in Hs'. rewrite <- E in Hs'. change (len []) with 0 in Hs'.
    rewrite Hs in Hs'. specialize (Hs' ltac:(lia) Hl).
    destruct (note_all None hs) as [psc0|e|] eqn:Hn; simplify_eq/=.
    rewrite app_nil_r in E. exists hs, psc0.
    split_and!; [by rewrite E|by rewrite <- note_all_none|done].
  - intros (hs & psc & Hch & Hc & ->).
    pose proof (summarize_loop_chain _ _ _ Hch (length raw) [] [] 0 None) as Hs.
    cbn [app] in Hs. rewrite app_nil_r in Hs. change (len []) with 0 in Hs.
    assert (t ≠ 0). { by inversion Hch. }
    rewrite (proj2 (Z.eqb_neq t 0)) by done.
    rewrite Hs; [|by eapply ext_chain_fuel|lia|done].
    rewrite (proj2 (note_all_none hs psc)) by done. cbn [map_ok].
    by rewrite !Z.add_0_l, Z.eqb_refl.
Qed.

(** ** Summaries that stand for a header list *)

Definition chain_of (hs : list GtpuExtensionHeader) (c : GtpuExtensionChain) : Prop :=
  ∃ t, ext_chain t hs (raw_headers c)
       ∧ first_extension_type c = (if t =? 0 then None else Some t)
       ∧ header_count c = len hs
       ∧ container_of (parts hs) (pdu_session_container c).

Lemma from_raw_iff f raw c :
  bytes_ok raw → len raw ≤ USIZE_MAX →
  from_raw f raw = Ok c
  ↔ raw_headers c = raw ∧ first_extension_type c = f ∧ ∃ hs, chain_of hs c.
Proof.
  intros Hb Hl. unfold from_raw, chain_of. destruct (decide (raw = [])) as [->|Hne].
  - split.
    + destruct f; [done|]. intros [= <-]. split_and!; [done..|].
      exists [], 0. split_and!; [constructor|done..].
    + destruct c as [f' raw' k psc]; cbn. intros (-> & -> & hs & t & Hch & -> & -> & Hc).
      apply ext_chain_nil_inv in Hch as [-> ->]. cbn in Hc. by rewrite Hc.
  - destruct f as [t|]; [rewrite summarize_iff by done|].
    + split.
      * intros (hs & psc & Hch & Hc & ->). split_and!; [done..|].
        exists hs, t. split_and!; [done| |done..].
        inversion Hch; simplify_eq; by rewrite (proj2 (Z.eqb_neq t 0)).
      * destruct c as [f raw' k psc]; cbn. intros (-> & -> & hs & t' & Hch & E & -> & Hc).
        destruct (t' =? 0); simplify_eq. eauto.
    + unfold summarize_extension_chain. destruct raw; [done|]. split; [done|].
      intros (E & En & hs & t & Hch & Et & _). rewrite E in Hch. rewrite En in Et.
      inversion Hch; simplify_eq. by rewrite (proj2 (Z.eqb_neq t 0)) in Et.
Qed.

Lemma validate_consistency_iff c :
  bytes_ok (raw_headers c) → len (raw_headers c) ≤ USIZE_MAX →
  validate_consistency c = Ok () ↔ ∃ hs, chain_of hs c.
Proof.
  intros Hb Hl. unfold validate_consistency. split.
  - destruct (from_raw _ _) as [c'|e|] eqn:Hr; try done.
    case_bool_decide; [|done]. subst c'. apply from_raw_iff in Hr; naive_solver.
  - intros Hc. assert (from_raw (first_extension_type c) (raw_headers c) = Ok c) as ->.
    { by apply from_raw_iff. }
    by rewrite bool_decide_true.
Qed.

(** ** Builders *)

Definition part_ok (p : Z * bytes) : Prop :=
  p.1 ≠ 0 ∧ u8 p.1 ∧ bytes_ok p.2 ∧ ∃ units, 0 < units < 256 ∧ len p.2 + 2 = 4 * units.

Lemma ext_chain_parts_ok t hs raw :
  ext_chain t hs raw → u8 t → bytes_ok raw → Forall part_ok (parts hs).
Proof.
  induction 1 as [|t u c n hs raw Ht Hu Hc Hch IH]; intros Hb8 Hb; [constructor|].
  rewrite bytes_ok_cons, bytes_ok_app, bytes_ok_cons in Hb.
  constructor; [split_and!; naive_solver|naive_solver].
Qed.

Lemma encode_extension_header_ok c next units :
  0 < units < 256 → len c + 2 = 4 * units →
  encode_extension_header c next = Ok (units :: c ++ [next]).
Proof.
  intros Hu Hc. unfold encode_extension_header, checked_add.
  rewrite (proj2 (Z.leb_le _ _)) by (unfold USIZE_MAX; lia). cbn [ok_or].
  rewrite Hc. replace (Z.modulo (4 * units) 4) with 0 by (Z.div_mod_to_equations; lia).
  cbn [Z.eqb negb]. replace (4 * units / 4) with units by (Z.div_mod_to_equations; lia).
  by rewrite (proj2 (Z.ltb_ge 255 units)), (proj2 (Z.eqb_neq units 0)) by lia.
Qed.

Fixpoint parts_size (ps : list (Z * bytes)) : Z :=
  match ps with [] => 0 | p :: ps => len p.2 + 2 + parts_size ps end.

Lemma parts_size_nonneg ps : 0 ≤ parts_size ps.
Proof. induction ps as [|p ps IH]; cbn; len_lia. Qed.

Lemma parts_capacity_ok ps : ∀ total,
  0 ≤ total → total + parts_size ps ≤ USIZE_MAX →
  parts_capacity total ps = Ok (total + parts_size ps).
Proof.
  induction ps as [|[t c] ps IH]; intros total Ht Hl; cbn in *; [by rewrite Z.add_0_r|].
  pose proof (parts_size_nonneg ps). pose proof (len_nonneg c). unfold checked_add.
  rewrite (proj2 (Z.leb_le (total + len c) _)) by lia. cbn [ok_or].
  rewrite (proj2 (Z.leb_le (total + len c + 2) _)) by lia. cbn [ok_or].
  rewrite IH by lia. f_equal. lia.
Qed.

(** Link the parts into headers. *)
Fixpoint link (ps : list (Z * bytes)) : list GtpuExtensionHeader :=
  match ps with
  | [] => []
  | (t, c) :: rest =>
      {| ext_type := t; content := c; header_next_ext_type := first_type_of rest |} :: link rest
  end.

Lemma parts_link ps : parts (link ps) = ps.
Proof. induction ps as [|[t c] ps IH]; cbn; [done|]. by f_equal. Qed.

Lemma encode_parts_ok ps :
  Forall part_ok ps →
  ∃ raw, encode_parts ps = Ok raw ∧ ext_chain (first_type_of ps) (link ps) raw
         ∧ bytes_ok raw ∧ len raw = parts_size ps.
Proof.
  induction 1 as [|[t c] ps (Ht & Ht8 & Hc & u & Hu & Hl) Hps (raw & He & Hch & Hb & Hs)].
  - exists []. split_and!; [done|constructor|constructor|done].
  - exists (u :: c ++ first_type_of ps :: raw). cbn in *.
    rewrite (encode_extension_header_ok _ _ u), He by done. split_and!.
    + by rewrite <- app_comm_cons, <- app_assoc.
    + by constructor.
    + rewrite bytes_ok_cons, bytes_ok_app, bytes_ok_cons. split_and!; [unfold u8; lia|done| |done].
      destruct Hps as [|[] ? (?&?&_)]; [by unfold u8|done].
    + len_lia.
Qed.

(** Building from valid parts gives a summary that stands for exactly those parts. *)
Lemma from_extension_parts_ok ps psc :
  Forall part_ok ps → parts_size ps ≤ USIZE_MAX → container_of ps psc →
  ∃ c, from_extension_parts ps = Ok c ∧ chain_of (link ps) c
       ∧ pdu_session_container c = psc ∧ bytes_ok (raw_headers c)
       ∧ len (raw_headers c) = parts_size ps.
Proof.
  intros Hps Hl Hc. destruct (encode_parts_ok ps Hps) as (raw & He & Hch & Hb & Hs).
  set (f := fst <$> head ps).
  assert (Hf : f = (if first_type_of ps =? 0 then None else Some (first_type_of ps))).
  { rewrite <- (ext_chain_head _ _ _ Hch), parts_link. done. }
  exists {| first_extension_type := f; raw_headers := raw;
            header_count := len (link ps); pdu_session_container := psc |}.
  assert (Hco : chain_of (link ps)
    {| first_extension_type := f; raw_headers := raw;
       header_count := len (link ps); pdu_session_container := psc |}).
  { exists (first_type_of ps). cbn. rewrite parts_link. by split_and!. }
  split_and!; [|done..]. unfold from_extension_parts.
  rewrite parts_capacity_ok, He by (done || lia).
  apply from_raw_iff; [done|lia|]. split_and!; [done..|]. eauto.
Qed.

(** ** Updating a chain *)

(** The octets of a summary are octets. *)
Definition chain_ok (c : GtpuExtensionChain) : Prop :=
  bytes_ok (raw_headers c) ∧ ∀ t, first_extension_type c = Some t → u8 t.

Definition others (t : Z) (ps : list (Z * bytes)) : list (Z * bytes) :=
  List.filter (λ p, negb (has_type t p)) ps.

Definition count_type (t : Z) (ps : list (Z * bytes)) : nat :=
  length (List.filter (has_type t) ps).

(** Replace the first part of type [t], or append a new one. *)
Fixpoint set_part (t : Z) (v : bytes) (ps : list (Z * bytes)) : list (Z * bytes) :=
  match ps with
  | [] => [(t, v)]
  | p :: ps => if has_type t p then (t, v) :: ps else p :: set_part t v ps
  end.

Lemma chain_of_parts hs c :
  chain_of hs c → chain_ok c →
  ext_chain (default 0 (first_extension_type c)) hs (raw_headers c)
  ∧ Forall part_ok (parts hs).
Proof.
  intros (t & Hch & Hf & _) [Hb H8]. rewrite Hf in H8 |- *.
  destruct (t =? 0) eqn:E; to_prop; [subst; cbn|cbn in *].
  - split; [done|]. by inversion Hch.
  - split; [done|]. eapply ext_chain_parts_ok; eauto.
Qed.

Lemma ext_chain_size t hs raw : ext_chain t hs raw → parts_size (parts hs) = len raw.
Proof.
  induction 1 as [|t u c n hs raw Ht Hu Hc Hch IH]; [done|].
  change (parts (_ :: hs)) with ((t, c) :: parts hs). cbn [parts_size snd]. len_lia.
Qed.

Lemma parts_size_others t ps : parts_size (others t ps) ≤ parts_size ps.
Proof.
  unfold others.
  induction ps as [|p ps IH]; cbn; [done|]. pose proof (len_nonneg p.2).
  destruct (has_type t p); cbn; lia.
Qed.

Lemma parts_size_set t v ps : parts_size (set_part t v ps) ≤ parts_size ps + len v + 2.
Proof.
  induction ps as [|p ps IH]; cbn; [lia|]. pose proof (len_nonneg p.2).
  destruct (has_type t p); cbn; lia.
Qed.

Lemma others_none t ps : count_type t ps = 0%nat → others t ps = ps.
Proof.
  unfold count_type, others. induction ps as [|p ps IH]; cbn; [done|].
  destruct (has_type t p); cbn; [done|]. intros H. by rewrite IH.
Qed.

Lemma Forall_others t ps : Forall part_ok ps → Forall part_ok (others t ps).
Proof.
  unfold others.
  induction 1 as [|p ps Hp Hps IH]; cbn; [done|]. by destruct (has_type t p); [|constructor].
Qed.

Lemma Forall_set t v ps : part_ok (t, v) → Forall part_ok ps → Forall part_ok (set_part t v ps).
Proof.
  intros Hp. induction 1 as [|p ps Hq Hps IH]; cbn; [by constructor|].
  by destruct (has_type t p); constructor.
Qed.

Lemma filter_others t ps : List.filter (has_type t) (others t ps) = [].
Proof.
  unfold others.
  induction ps as [|p ps IH]; cbn; [done|].
  destruct (has_type t p) eqn:E; cbn; [done|]. by rewrite E.
Qed.

Lemma set_part_filter t u v ps :
  t ≠ u → List.filter (has_type u) (set_part t v ps) = List.filter (has_type u) ps.
Proof.
  intros Hne. induction ps as [|p ps IH]; cbn.
  - unfold has_type; cbn. by rewrite (proj2 (Z.eqb_neq t u)).
  - destruct (has_type t p) eqn:E; cbn; [|by rewrite IH].
    unfold has_type in *; cbn. apply Z.eqb_eq in E.
    by rewrite (proj2 (Z.eqb_neq t u)), (proj2 (Z.eqb_neq p.1 u)) by congruence.
Qed.

Lemma count_type_cons t p ps :
  count_type t (p :: ps) = (Nat.b2n (has_type t p) + count_type t ps)%nat.
Proof. unfold count_type; cbn. by destruct (has_type t p). Qed.

Lemma others_cons t p ps :
  others t (p :: ps) = if has_type t p then others t ps else p :: others t ps.
Proof. unfold others; cbn. by destruct (has_type t p). Qed.

Lemma parts_cons h hs : parts (h :: hs) = (ext_type h, content h) :: parts hs.
Proof. done. Qed.

Lemma upsert_leading_loop_chain t raw ty hs : ext_chain t hs raw → ∀ fuel removed acc,
  (length hs < fuel)%nat →
  upsert_leading_loop fuel {| buffer := raw; iter_next_ext_type := t |} ty removed acc
  = if (count_type ty (parts hs) + Nat.b2n removed <=? 1)%nat
    then Ok (acc ++ others ty (parts hs)) else Err BuiltChainInvalid.
Proof.
  induction 1 as [|t u c n hs raw Ht Hu Hc Hch IH]; intros [|fuel] removed acc Hf;
    cbn in Hf; try lia; cbn [upsert_leading_loop].
  - rewrite iter_next_end. cbn. by destruct removed; rewrite app_nil_r.
  - rewrite iter_next_cons, parts_cons, count_type_cons, others_cons by done.
    cbn [map_err ext_type content]. unfold has_type; cbn [fst].
    destruct (t =? ty) eqn:E; cbn [Nat.b2n].
    + destruct removed; [by rewrite Nat.add_1_r|].
      rewrite IH by lia. cbn [Nat.b2n]. by rewrite Nat.add_1_r, Nat.add_0_r.
    + rewrite IH by lia. cbn [Nat.add].
      destruct (_ <=? _)%nat; [|done]. by rewrite <- app_assoc.
Qed.

Lemma upsert_loop_chain t raw ty v hs : ext_chain t hs raw → ∀ fuel replaced acc,
  (length hs < fuel)%nat →
  upsert_loop fuel {| buffer := raw; iter_next_ext_type := t |} ty v replaced acc
  = if (count_type ty (parts hs) + Nat.b2n replaced <=? 1)%nat
    then Ok (if decide (count_type ty (parts hs) = 0%nat)
             then (replaced, acc ++ parts hs) else (true, acc ++ set_part ty v (parts hs)))
    else Err BuiltChainInvalid.
Proof.
  induction 1 as [|t u c n hs raw Ht Hu Hc Hch IH]; intros [|fuel] removed acc Hf;
    cbn in Hf; try lia; cbn [upsert_loop].
  - rewrite iter_next_end. cbn. by destruct removed; rewrite app_nil_r.
  - rewrite iter_next_cons, parts_cons, count_type_cons by done.
    cbn [map_err ext_type content set_part]. unfold has_type; cbn [fst].
    destruct (t =? ty) eqn:E; cbn [Nat.b2n].
    + apply Z.eqb_eq in E as ->. destruct removed; [by rewrite Nat.add_1_r|].
      rewrite IH by lia. cbn [Nat.b2n]. rewrite Nat.add_1_r, Nat.add_0_r.
      rewrite (decide_False (P := (1 + _)%nat = _)) by lia.
      destruct (count_type _ _); cbn; [by rewrite <- app_assoc|done].
    + rewrite IH by lia. cbn [Nat.add].
      destruct (_ <=? _)%nat; [|done]. repeat case_decide; try done; by rewrite <- app_assoc.
Qed.

Lemma set_part_none t v ps : count_type t ps = 0%nat → ps ++ [(t, v)] = set_part t v ps.
Proof.
  induction ps as [|p ps IH]; [done|]. rewrite count_type_cons; cbn.
  destruct (has_type t p); cbn; [done|]. intros H. by rewrite IH.
Qed.

Lemma chain_count hs c : chain_of hs c → bytes_ok (raw_headers c) →
  len (raw_headers c) < USIZE_MAX → ok_or (E := GtpuExtensionChainError)
    (checked_add (header_count c) 1) ExtensionLengthOverflow = Ok (len hs + 1).
Proof.
  intros (t & Hch & _ & -> & _) _ Hl. apply ext_chain_len in Hch. unfold checked_add.
  by rewrite (proj2 (Z.leb_le _ _)) by len_lia.
Qed.

Lemma built_chain_ok ps c :
  Forall part_ok ps → chain_of (link ps) c → bytes_ok (raw_headers c) → chain_ok c.
Proof.
  intros Hps (t & Hch & Hf & _) Hb. split; [done|]. intros t' Ht'. rewrite Hf in Ht'.
  apply ext_chain_first in Hch. rewrite parts_link in Hch.
  destruct (t =? 0) eqn:E; simplify_eq. destruct Hps as [|[] ? (?&?&_)]; [done|]. done.
Qed.

(** [upsert_leading_extension] on a consistent chain: the new part comes first,
    the other parts keep their order. *)
Lemma upsert_leading_extension_parts hs c t v psc :
  chain_of hs c → chain_ok c → part_ok (t, v) →
  len (raw_headers c) + len v + 2 ≤ USIZE_MAX →
  (count_type t (parts hs) ≤ 1)%nat →
  container_of ((t, v) :: others t (parts hs)) psc →
  ∃ c', upsert_leading_extension c t v = Ok c' ∧ chain_ok c'
        ∧ chain_of (link ((t, v) :: others t (parts hs))) c'
        ∧ pdu_session_container c' = psc.
Proof.
  intros Hco Hok Hp Hl Hct Hc. destruct (chain_of_parts _ _ Hco Hok) as [Hch Hps].
  pose proof (ext_chain_size _ _ _ Hch) as Hs. pose proof (len_nonneg v).
  pose proof (parts_size_others t (parts hs)).
  destruct (from_extension_parts_ok ((t, v) :: others t (parts hs)) psc)
    as (c' & He & Hco' & Hpsc & Hb & _); [by constructor; [|apply Forall_others]| |done|].
  { cbn [parts_size snd]. lia. }
  exists c'. unfold upsert_leading_extension.
  rewrite (proj2 (validate_consistency_iff c ltac:(apply Hok) ltac:(lia))) by eauto.
  rewrite (chain_count hs) by (done || apply Hok || lia).
  rewrite (upsert_leading_loop_chain _ _ _ hs) by
    (done || (apply ext_chain_fuel in Hch; lia)).
  cbn [Nat.b2n]. rewrite Nat.add_0_r, (proj2 (Nat.leb_le _ _)) by done.
  split_and!; [done| |done..].
  eapply built_chain_ok; [|done..]. by constructor; [|apply Forall_others].
Qed.

(** [upsert_extension] on a consistent chain: the first part of the type is
    replaced where it stands, or the new part is appended. *)
Lemma upsert_extension_parts hs c t v psc :
  chain_of hs c → chain_ok c → part_ok (t, v) →
  len (raw_headers c) + len v + 2 ≤ USIZE_MAX →
  container_of (set_part t v (parts hs)) psc →
  if (count_type t (parts hs) <=? 1)%nat
  then ∃ c', upsert_extension c t v = Ok c' ∧ chain_ok c'
             ∧ chain_of (link (set_part t v (parts hs))) c'
             ∧ pdu_session_container c' = psc
  else upsert_extension c t v = Err BuiltChainInvalid.
Proof.
  intros Hco Hok Hp Hl Hc. destruct (chain_of_parts _ _ Hco Hok) as [Hch Hps].
  pose proof (ext_chain_size _ _ _ Hch) as Hs. pose proof (len_nonneg v).
  pose proof (parts_size_set t v (parts hs)).
  destruct (from_extension_parts_ok (set_part t v (parts hs)) psc)
    as (c' & He & Hco' & Hpsc & Hb & _); [by apply Forall_set|lia|done|].
  unfold upsert_extension.
  rewrite (proj2 (validate_consistency_iff c ltac:(apply Hok) ltac:(lia))) by eauto.
  rewrite (chain_count hs) by (done || apply Hok || lia).
  rewrite (upsert_loop_chain _ _ _ _ hs) by (done || (apply ext_chain_fuel in Hch; lia)).
  cbn [Nat.b2n]. rewrite Nat.add_0_r. destruct (_ <=? 1)%nat; [|done]. exists c'.
  split_and!; [|eapply built_chain_ok; [|done..]; by apply Forall_set|done..].
  case_decide; cbn [app]; [by rewrite set_part_none|done].
Qed.

Lemma container_count ps psc :
  container_of ps psc → (count_type GTPU_EXT_PDU_SESSION_CONTAINER ps ≤ 1)%nat.
Proof.
  unfold container_of, count_type. destruct (List.filter _ _) as [|? []]; cbn; try lia; done.
Qed.

Lemma psc_part_ok k :
  psc_fields_ok k → psc_validate k = Ok () →
  part_ok (GTPU_EXT_PDU_SESSION_CONTAINER, psc_wire k).
Proof.
  intros Hf Hv. split_and!; [done|by unfold u8|by apply psc_wire_bytes|].
  cbn. destruct (psc_wire_len k) as [->| ->]; [exists 1|exists 2]; lia.
Qed.

Lemma container_of_leading k ps :
  psc_fields_ok k → psc_validate k = Ok () →
  container_of ((GTPU_EXT_PDU_SESSION_CONTAINER, psc_wire k)
                :: others GTPU_EXT_PDU_SESSION_CONTAINER ps) (Some k).
Proof.
  intros Hf Hv. unfold container_of.
  set (t := GTPU_EXT_PDU_SESSION_CONTAINER). cbn [List.filter].
  rewrite filter_others. cbn. exists k. split; [|done]. by apply (psc_decode_wire k 0).
Qed.

Lemma upsert_pdu_session_container_parts hs c k :
  chain_of hs c → chain_ok c → psc_fields_ok k → psc_validate k = Ok () →
  len (raw_headers c) + 8 ≤ USIZE_MAX →
  ∃ c', upsert_pdu_session_container c k = Ok c' ∧ chain_ok c'
    ∧ chain_of (link ((GTPU_EXT_PDU_SESSION_CONTAINER, psc_wire k)
                      :: others GTPU_EXT_PDU_SESSION_CONTAINER (parts hs))) c'
    ∧ pdu_session_container c' = Some k.
Proof.
  intros Hco Hok Hf Hv Hl. unfold upsert_pdu_session_container.
  rewrite psc_encode_wire, Hv. cbn [map_err].
  apply upsert_leading_extension_parts; [done..|by apply psc_part_ok| | |].
  - destruct (psc_wire_len k) as [->| ->]; lia.
  - destruct Hco as (? & _ & _ & _ & Hc). by eapply container_count.
  - by apply container_of_leading.
Qed.

(** ** Properties *)

(**  The chain summary is exact: [from_raw] accepts octets and a first type
    precisely when the octets are a well-formed chain of extension headers from
    that type with nothing after it and at most one, well-formed, PDU Session
    Container, and the summary it returns has that chain's header count and that
    container. *)
Theorem from_raw_spec f raw c :
  bytes_ok raw → len raw ≤ USIZE_MAX →
  from_raw f raw = Ok c
  ↔ raw_headers c = raw ∧ first_extension_type c = f ∧ ∃ hs, chain_of hs c.
Proof. apply from_raw_iff. Qed.

Lemma from_raw_spec_witness :
  ∃ c, from_raw (Some 0x85) [1; 0x10; 9; 0] = Ok c ∧ ∃ hs, chain_of hs c.
Proof.
  eexists. split; [vm_compute; reflexivity|].
  apply (from_raw_spec (Some 0x85) [1; 0x10; 9; 0] _
           ltac:(repeat constructor; done) ltac:(done)).
  vm_compute; reflexivity.
Defined.

(**  Inserting a PDU Session Container: on any consistent chain and any valid
    container the call succeeds, the result is again consistent, the container
    leads the chain, a container that was there before is gone, every other
    header keeps its content and order, and the result reports the new
    container. *)
Theorem upsert_pdu_session_container_spec hs c k :
  chain_of hs c → chain_ok c → psc_fields_ok k → psc_validate k = Ok () →
  len (raw_headers c) + 8 ≤ USIZE_MAX →
  ∃ c' hs', upsert_pdu_session_container c k = Ok c' ∧ chain_ok c' ∧ chain_of hs' c'
    ∧ parts hs' = (GTPU_EXT_PDU_SESSION_CONTAINER, psc_wire k)
                    :: others GTPU_EXT_PDU_SESSION_CONTAINER (parts hs)
    ∧ pdu_session_container c' = Some k.
Proof.
  intros Hco Hok Hf Hv Hl.
  destruct (upsert_pdu_session_container_parts hs c k) as (c' & ? & ? & ? & ?); [done..|].
  eexists c', _. split_and!; try done. apply parts_link.
Qed.

(**  Setting the UDP port: on a consistent chain the call replaces the port
    of the one UDP Port header where it stands or appends one, keeping every
    other header and the container, and it is refused exactly when the chain has
    two UDP Port headers. *)
Theorem upsert_udp_port_spec hs c port :
  chain_of hs c → chain_ok c → u16 port → len (raw_headers c) + 4 ≤ USIZE_MAX →
  if (count_type GTPU_EXT_UDP_PORT (parts hs) <=? 1)%nat
  then ∃ c' hs', upsert_udp_port c port = Ok c' ∧ chain_ok c' ∧ chain_of hs' c'
         ∧ parts hs' = set_part GTPU_EXT_UDP_PORT (u16_to_be_bytes port) (parts hs)
         ∧ pdu_session_container c' = pdu_session_container c
  else upsert_udp_port c port = Err BuiltChainInvalid.
Proof.
  intros Hco Hok Hp Hl. unfold upsert_udp_port.
  assert (Hlen : len (u16_to_be_bytes port) = 2) by done.
  assert (part_ok (GTPU_EXT_UDP_PORT, u16_to_be_bytes port)).
  { split_and!; [done|by unfold u8| |exists 1; cbn [snd]; lia].
    destruct (u16_bytes port Hp) as (a & b & -> & ? & ? & _).
    unfold bytes_ok; cbn [snd]. rewrite !Forall_cons. split_and!; [done..|constructor]. }
  assert (container_of (set_part GTPU_EXT_UDP_PORT (u16_to_be_bytes port) (parts hs))
            (pdu_session_container c)).
  { destruct Hco as (? & _ & _ & _ & Hc). unfold container_of. by rewrite set_part_filter. }
  pose proof (upsert_extension_parts hs c GTPU_EXT_UDP_PORT (u16_to_be_bytes port) _
                Hco Hok ltac:(done) ltac:(lia) ltac:(done)) as Hu.
  destruct (_ <=? 1)%nat; [destruct Hu as (c' & ? & ? & ? & ?)|apply Hu].
  eexists c', _. split_and!; try done. apply parts_link.
Qed.

(** The chain of one UDP Port header, for the witnesses. *)
Definition udp_chain : GtpuExtensionChain :=
  {| first_extension_type := Some GTPU_EXT_UDP_PORT;
     raw_headers := [1; 8; 104; 0];
     header_count := 1;
     pdu_session_container := None |}.

Definition udp_headers : list GtpuExtensionHeader :=
  [{| ext_type := GTPU_EXT_UDP_PORT; content := [8; 104]; header_next_ext_type := 0 |}].

Lemma udp_chain_of : chain_of udp_headers udp_chain.
Proof.
  exists GTPU_EXT_UDP_PORT. split_and!; [|done..].
  apply (chain_cons GTPU_EXT_UDP_PORT 1 [8; 104] 0 [] []); [done..|constructor].
Qed.

Lemma udp_chain_ok : chain_ok udp_chain.
Proof. split; [repeat constructor; done|]. by intros t [= <-]. Qed.

Lemma upsert_pdu_session_container_witness :
  ∃ c' hs', upsert_pdu_session_container udp_chain
              {| pdu_type := 0; qfi := 9; ppi := Some 3; rqi := true |} = Ok c'
            ∧ chain_ok c' ∧ chain_of hs' c'
            ∧ parts hs' = [(0x85, [0x00; 0xc9; 0x60; 0; 0; 0]); (0x40, [8; 104])]
            ∧ pdu_session_container c'
              = Some {| pdu_type := 0; qfi := 9; ppi := Some 3; rqi := true |}.
Proof.
  apply (upsert_pdu_session_container_spec udp_headers udp_chain
           {| pdu_type := 0; qfi := 9; ppi := Some 3; rqi := true |}
           udp_chain_of udp_chain_ok); by vm_compute.
Defined.

Lemma upsert_udp_port_witness :
  ∃ c' hs', upsert_udp_port udp_chain 4500 = Ok c' ∧ chain_ok c' ∧ chain_of hs' c'
            ∧ parts hs' = [(0x40, [17; 148])] ∧ pdu_session_container c' = None.
Proof.
  apply (upsert_udp_port_spec udp_headers udp_chain 4500 udp_chain_of udp_chain_ok);
    by vm_compute.
Defined.
