(* ===== verification/GtpuTyped.v ===== *)
(** Typed GTP-U extension values, [crates/opc-proto-gtpu/src/extension.rs]: the
    decoder and the encoder of each known extension type, their round trip and the
    values the encoder refuses. *)
From S2P Require Import Prelude.
From S2P Require Import Protocol.
From S2P Require Import GtpuExtension.
From S2P Require Import GtpuChain.

(** ** Definitions *)

Inductive GtpuTypedExtension :=
| UdpPort (port : Z)
| PdcpPduNumber (n : Z)
| LongPdcpPduNumber (n : Z)
| LegacyLongPdcpPduNumber (n : Z)
| ServiceClassIndicator (sci : Z)
| RanContainer (value : bytes)
| XwRanContainer (value : bytes)
| NrRanContainer (value : bytes)
| TypedPduSessionContainer (c : PduSessionContainer).

Definition ran_width_invalid (value : bytes) : bool :=
  (len value <? 2) || (1018 <? len value) || negb (Z.modulo (len value + 2) 4 =? 0).

Definition typed_decode (header : GtpuExtensionHeader)
    : outcome DecodeError (option GtpuTypedExtension) :=
  let? _ := validate_fixed_length header in
  let value := content header in
  let t := ext_type header in
  if t =? 0x40 then
    let? v0 := idx value 0 in
    let? v1 := idx value 1 in
    Ok (Some (UdpPort (u16_from_be_bytes v0 v1)))
  else if t =? 0xc0 then
    let? v0 := idx value 0 in
    let? v1 := idx value 1 in
    Ok (Some (PdcpPduNumber (u16_from_be_bytes v0 v1)))
  else if (t =? 0x03) || (t =? 0x82) then
    let? v0 := idx value 0 in
    let? v1 := idx value 1 in
    let? v2 := idx value 2 in
    let number := u32_from_be_bytes 0 (Z.land v0 3) v1 v2 in
    if t =? 0x03 then Ok (Some (LongPdcpPduNumber number))
    else Ok (Some (LegacyLongPdcpPduNumber number))
  else if t =? 0x20 then
    let? v0 := idx value 0 in
    Ok (Some (ServiceClassIndicator v0))
  else if (t =? 0x81) || (t =? 0x83) || (t =? 0x84) then
    if ran_width_invalid value then Err invalid_length
    else if t =? 0x81 then Ok (Some (RanContainer value))
    else if t =? 0x83 then Ok (Some (XwRanContainer value))
    else Ok (Some (NrRanContainer value))
  else if t =? 0x85 then
    let? c := psc_decode header in
    Ok (Some (TypedPduSessionContainer c))
  else Ok None.

Definition extension_type (x : GtpuTypedExtension) : Z :=
  match x with
  | UdpPort _ => 0x40
  | PdcpPduNumber _ => 0xc0
  | LongPdcpPduNumber _ => 0x03
  | LegacyLongPdcpPduNumber _ => 0x82
  | ServiceClassIndicator _ => 0x20
  | RanContainer _ => 0x81
  | XwRanContainer _ => 0x83
  | NrRanContainer _ => 0x84
  | TypedPduSessionContainer _ => 0x85
  end.

Definition typed_encode (x : GtpuTypedExtension) (next_extension_type : Z)
    : outcome EncodeError bytes :=
  let invalid := EncodeError_new (EncodeStructural "invalid typed GTP-U extension value") in
  let? content :=
    (match x with
     | UdpPort value | PdcpPduNumber value => Ok (u16_to_be_bytes value)
     | LongPdcpPduNumber value | LegacyLongPdcpPduNumber value =>
         if 0x3ffff <? value then Err invalid
         else
           let bytes := u32_to_be_bytes value in
           let? b1 := idx bytes 1 in
           let? b2 := idx bytes 2 in
           let? b3 := idx bytes 3 in
           Ok [b1; b2; b3; 0; 0; 0]
     | ServiceClassIndicator value =>
         if 15 <? value then Err invalid else Ok [value; 0]
     | RanContainer value | XwRanContainer value | NrRanContainer value =>
         if ran_width_invalid value then Err invalid else Ok value
     | TypedPduSessionContainer value => map_err (λ _, invalid) (psc_encode value)
     end) in
  map_err (λ _, invalid) (encode_extension_header content next_extension_type).

(** ** Round trip *)

(** The fields are within their Rust types. *)
Definition typed_ok (x : GtpuTypedExtension) : Prop :=
  match x with
  | UdpPort v | PdcpPduNumber v => u16 v
  | LongPdcpPduNumber v | LegacyLongPdcpPduNumber v => u32 v
  | ServiceClassIndicator v => u8 v
  | RanContainer v | XwRanContainer v | NrRanContainer v => bytes_ok v
  | TypedPduSessionContainer c => psc_fields_ok c
  end.

(** The values the encoder is documented to send. *)
Definition sendable (x : GtpuTypedExtension) : bool :=
  match x with
  | UdpPort _ | PdcpPduNumber _ => true
  | LongPdcpPduNumber v | LegacyLongPdcpPduNumber v => v <? 2 ^ 18
  | ServiceClassIndicator v => v <? 16
  | RanContainer v | XwRanContainer v | NrRanContainer v =>
      (2 <=? len v) && (len v <=? 1018) && (Z.modulo (len v) 4 =? 2)
  | TypedPduSessionContainer c => is_ok (psc_validate c)
  end.

Definition typed_content (x : GtpuTypedExtension) : bytes :=
  match x with
  | UdpPort v | PdcpPduNumber v => u16_to_be_bytes v
  | LongPdcpPduNumber v | LegacyLongPdcpPduNumber v =>
      [Z.modulo (v / 65536) 256; Z.modulo (v / 256) 256; Z.modulo v 256; 0; 0; 0]
  | ServiceClassIndicator v => [v; 0]
  | RanContainer v | XwRanContainer v | NrRanContainer v => v
  | TypedPduSessionContainer c => psc_wire c
  end.

Lemma ran_width_units v :
  ran_width_invalid v = negb ((2 <=? len v) && (len v <=? 1018) && (Z.modulo (len v) 4 =? 2)).
Proof.
  unfold ran_width_invalid. pose proof (len_nonneg v).
  destruct (len v <? 2) eqn:E1, (2 <=? len v) eqn:E2, (1018 <? len v) eqn:E3,
    (len v <=? 1018) eqn:E4; to_prop; cbn; try lia; try done.
  destruct (Z.eqb_spec (Z.modulo (len v + 2) 4) 0), (Z.eqb_spec (Z.modulo (len v) 4) 2);
    try done; exfalso; Z.div_mod_to_equations; lia.
Qed.

Lemma typed_content_units x :
  typed_ok x → sendable x = true →
  bytes_ok (typed_content x)
  ∧ ∃ units, 0 < units < 256 ∧ len (typed_content x) + 2 = 4 * units.
Proof.
  assert (Hran : ∀ v : bytes, (2 <=? len v) && (len v <=? 1018) && (Z.modulo (len v) 4 =? 2) = true →
                 ∃ units, 0 < units < 256 ∧ len v + 2 = 4 * units).
  { intros v Hv. to_prop. exists ((len v + 2) / 4). Z.div_mod_to_equations; lia. }
  destruct x; cbn; intros Hok Hs; (split; [|try by auto]);
    try (unfold bytes_ok, u8 in *; to_prop; repeat constructor; Z.div_mod_to_equations; lia).
  1-3: done.
  - destruct (psc_validate c) as [[]|?|] eqn:Hv; [|done..]. by apply psc_wire_bytes.
  - destruct (psc_wire_len c) as [->| ->]; [exists 1|exists 2]; lia.
Qed.

Lemma idx_u32_1 {E} n : idx (E := E) (u32_to_be_bytes n) 1 = Ok (Z.modulo (n / 65536) 256).
Proof. done. Qed.

Lemma idx_u32_2 {E} n : idx (E := E) (u32_to_be_bytes n) 2 = Ok (Z.modulo (n / 256) 256).
Proof. done. Qed.

Lemma idx_u32_3 {E} n : idx (E := E) (u32_to_be_bytes n) 3 = Ok (Z.modulo n 256).
Proof. done. Qed.

Lemma typed_encode_content x next :
  typed_ok x →
  if sendable x
  then ∃ units, 0 < units < 256 ∧ len (typed_content x) + 2 = 4 * units
                ∧ typed_encode x next = Ok (units :: typed_content x ++ [next])
  else is_err (typed_encode x next) = true.
Proof.
  intros Hok. destruct (sendable x) eqn:Hs.
  - destruct (typed_content_units x Hok Hs) as (_ & u & Hu & Hl). exists u.
    split_and!; [lia..|]. unfold typed_encode.
    destruct x; cbn in Hs; cbn [typed_content] in *; rewrite ?ran_width_units, ?Hs; cbn [negb];
      try (by rewrite (encode_extension_header_ok _ _ u)).
    1-3: rewrite ?(proj2 (Z.ltb_ge 262143 _)), ?(proj2 (Z.ltb_ge 15 _)) by (to_prop; lia);
      rewrite ?idx_u32_1, ?idx_u32_2, ?idx_u32_3; by rewrite (encode_extension_header_ok _ _ u).
    rewrite psc_encode_wire. destruct (psc_validate c) as [[]|?|]; [|done..].
    cbn [map_err]. by rewrite (encode_extension_header_ok _ _ u).
  - unfold typed_encode. destruct x; cbn in Hs; rewrite ?ran_width_units, ?Hs; try done.
    1-3: by rewrite (proj2 (Z.ltb_lt _ _)) by (to_prop; lia).
    rewrite psc_encode_wire. destruct (psc_validate c) as [[]|?|] eqn:E; [done..|].
    exfalso. unfold psc_validate in E. by rust_cases.
Qed.

Lemma typed_decode_content x next :
  typed_ok x → sendable x = true →
  typed_decode {| ext_type := extension_type x; content := typed_content x;
                  header_next_ext_type := next |} = Ok (Some x).
Proof.
  intros Hok Hs. destruct x; cbn in Hok, Hs; unfold typed_decode; 
    cbn [ext_type content typed_content extension_type].
  1-2: cbn; do 3 f_equal; unfold u16, u16_from_be_bytes in *; Z.div_mod_to_equations; lia.
  1-2: to_prop; cbn -[Z.land Z.modulo Z.div Z.mul Z.add]; do 3 f_equal;
    change 3 with (Z.ones 2); rewrite Z.land_ones by lia;
    unfold u32, u32_from_be_bytes in *; Z.div_mod_to_equations; lia.
  1: done.
  1-3: cbn -[ran_width_invalid]; by rewrite ran_width_units, Hs.
  destruct (psc_validate c) as [[]|?|] eqn:Hv; [|done..]. cbn -[psc_decode].
  unfold psc_decode. by rewrite (psc_decode_wire c next).
Qed.

Lemma content_octet {E} (v : bytes) i b : bytes_ok v → idx (E := E) v i = Ok b → u8 b.
Proof.
  intros Hb (pre & post & -> & _)%idx_inv. rewrite bytes_ok_app, bytes_ok_cons in Hb. naive_solver.
Qed.

Lemma pdcp_number_range a b c :
  u8 a → u8 b → u8 c → 0 ≤ u32_from_be_bytes 0 (Z.land a 3) b c < 2 ^ 18.
Proof.
  intros Ha Hb Hc. change 3 with (Z.ones 2). rewrite Z.land_ones by lia.
  unfold u8, u32_from_be_bytes in *. pose proof (Z.mod_pos_bound a (2 ^ 2) ltac:(lia)). lia.
Qed.

(** Every typed value the decoder produces is a value of its Rust type, of the
    header's own type, and the encoder accepts it unless it is a reserved Service
    Class Indicator. *)
Lemma typed_decode_value h x :
  bytes_ok (content h) → typed_decode h = Ok (Some x) →
  typed_ok x ∧ extension_type x = ext_type h
  ∧ (sendable x = true ∨ ∃ v, x = ServiceClassIndicator v ∧ 15 < v).
Proof.
  intros Hb. unfold typed_decode.
  destruct (validate_fixed_length h) as [[]|?|]; [|done..].
  intros H. rust_cases; to_prop;
    repeat match goal with E : idx _ _ = Ok _ |- _ => apply content_octet in E; [|done] end;
    try (match goal with E : ran_width_invalid _ = false |- _ => rewrite ran_width_units in E end);
    to_prop; cbn [typed_ok extension_type sendable].
  all: try (split_and!; [unfold u16, u8, u16_from_be_bytes in *; lia|lia|by left]).
  all: try (match goal with |- context [u32_from_be_bytes 0 (Z.land ?a 3) ?b ?c] =>
        pose proof (pdcp_number_range a b c ltac:(done) ltac:(done) ltac:(done)) end;
        split_and!; [unfold u32; lia|lia|left; apply Z.ltb_lt; lia]).
  all: try (split_and!; [done|lia|left; by repeat (apply andb_true_iff; split); lia]).
  - split_and!; [done|lia|]. destruct (Z.ltb_spec a 16); [by left|right]. eauto with lia.
  - match goal with E : psc_decode h = Ok a |- _ => unfold psc_decode in E end.
    destruct (psc_decode_with_reason h) as [c|[]|] eqn:Ed; cbn [map_err] in *; simplify_eq.
    apply psc_decode_valid in Ed as (Hf & Hv & _); [|done].
    split; [done|]. split; [lia|left]. by rewrite Hv.
Qed.

(**  Typed extension values round trip: the encoder accepts exactly the values
    it is documented to send; the header it writes is read back by the chain
    iterator whatever follows it, and decodes to the same typed value. *)
Theorem typed_extension_roundtrip x next :
  typed_ok x →
  if sendable x
  then ∃ raw h, typed_encode x next = Ok raw
       ∧ (∀ rest, iter_next {| buffer := raw ++ rest; iter_next_ext_type := extension_type x |}
                  = (Ok (Some h), {| buffer := rest; iter_next_ext_type := next |}))
       ∧ typed_decode h = Ok (Some x)
  else is_err (typed_encode x next) = true.
Proof.
  intros Hok. pose proof (typed_encode_content x next Hok) as H.
  destruct (sendable x) eqn:Hs; [|done]. destruct H as (u & Hu & Hl & He).
  eexists _, _. split_and!; [done| |by apply (typed_decode_content x next)].
  intros rest. cbn. rewrite <- app_assoc. apply iter_next_cons; [by destruct x|done..].
Qed.

Lemma typed_extension_roundtrip_witness :
  ∃ raw h, typed_encode (LongPdcpPduNumber 262143) 0x85 = Ok raw
    ∧ (∀ rest, iter_next {| buffer := raw ++ rest; iter_next_ext_type := 3 |}
               = (Ok (Some h), {| buffer := rest; iter_next_ext_type := 0x85 |}))
    ∧ typed_decode h = Ok (Some (LongPdcpPduNumber 262143)).
Proof. apply (typed_extension_roundtrip (LongPdcpPduNumber 262143) 0x85). by vm_compute. Defined.

(**  Decoding a typed extension yields a value of its Rust type and of the
    header's own extension type, and one the encoder accepts, the single exception
    being a received Service Class Indicator in the reserved range. *)
Theorem typed_decode_sound h x :
  bytes_ok (content h) → typed_decode h = Ok (Some x) →
  typed_ok x ∧ extension_type x = ext_type h
  ∧ (sendable x = true ∨ ∃ v, x = ServiceClassIndicator v ∧ 15 < v).
Proof. apply typed_decode_value. Qed.

Lemma typed_decode_sound_witness :
  typed_ok (ServiceClassIndicator 200)
  ∧ extension_type (ServiceClassIndicator 200) = 0x20
  ∧ (sendable (ServiceClassIndicator 200) = true
     ∨ ∃ v, ServiceClassIndicator 200 = ServiceClassIndicator v ∧ 15 < v).
Proof.
  apply (typed_decode_sound
           {| ext_type := 0x20; content := [200; 7]; header_next_ext_type := 0 |}
           (ServiceClassIndicator 200)); [repeat constructor; done|by vm_compute].
Defined.
