(* ===== verification/GtpuMessage.v ===== *)
(** Model of the GTP-U message codec, [crates/opc-proto-gtpu/src/lib.rs]: the
    eager decoder ([BorrowDecode for GtpuMessage]), the two encoding modes
    ([Encode for GtpuMessage]) and their owned twins. *)
From S2P Require Import Prelude.
From S2P Require Import Protocol.
From S2P Require Import GtpuExtension.
From S2P Require Import GtpuChain.

Definition validation_strictness (level : ValidationLevel) : Z :=
  match level with
  | HeaderOnly => 0
  | StructuralLevel => 1
  | Strict => 2
  | ProcedureAware => 3
  end.

Record GtpuHeader := {
  version : Z;
  protocol_type : bool;
  reserved : Z;
  ext_hdr_flag : bool;
  seq_num_flag : bool;
  npdu_num_flag : bool;
  message_type : Z;
  length_field : Z;
  teid : Z;
  sequence_number : option Z;
  npdu_number : option Z;
  next_ext_type : option Z;
  raw_sequence_number : option Z;
  raw_npdu_number : option Z;
  raw_next_ext_type : option Z;
}.

(** The borrowed and the owned message have the same fields; a byte slice and a
    [Bytes] handle are both the octets they hold. *)
Record GtpuMessage := {
  header : GtpuHeader;
  raw_extension_headers : bytes;
  payload : bytes;
}.

(** [GtpuMessage::extensions]. *)
Definition extensions (m : GtpuMessage) : GtpuExtensionHeaderIterator :=
  {| buffer := raw_extension_headers m;
     iter_next_ext_type :=
       default 0 (if ext_hdr_flag (header m) then next_ext_type (header m) else None) |}.

Definition message_first_unsupported_required_extension (m : GtpuMessage)
    (recipient : GtpuExtensionHeaderRecipient) : outcome DecodeError (option Z) :=
  first_unsupported_required_extension (extensions m) recipient.

(** [GtpuExtensionChain::from_message]. *)
Definition from_message (m : GtpuMessage) : outcome GtpuExtensionChainError GtpuExtensionChain :=
  let first_extension_type :=
    match (if ext_hdr_flag (header m) then next_ext_type (header m) else None) with
    | Some value => if negb (value =? 0) then Some value else None
    | None => None
    end in
  from_raw first_extension_type (raw_extension_headers m).

(** ** Decoding *)

Definition spec_5_1 : SpecRef := SpecRef_new "3gpp" "TS29281" "5.1".

Definition fail_at {A} (c : DecodeErrorCode) (off : Z) : outcome DecodeError A :=
  Err (with_spec_ref (DecodeError_new c off) spec_5_1).

(** The [while current_next_ext != 0] loop; the result is the final
    [current_offset].  Every turn that does not return advances the offset by at
    least four within the packet, so the packet's length bounds the turns. *)
Fixpoint decode_extensions (fuel : nat) (ctx : DecodeContext) (packet_bytes : bytes)
    (total_declared_len current_next_ext current_offset depth ie_count : Z)
    : outcome DecodeError Z :=
  if current_next_ext =? 0 then Ok current_offset
  else
    match fuel with
    | O => Crash
    | S fuel =>
        let depth := depth + 1 in
        if max_depth ctx <? depth then fail_at DepthExceeded current_offset
        else
        let ie_count := ie_count + 1 in
        if max_ies ctx <? ie_count then fail_at IeCountExceeded current_offset
        else
        match checked_sub total_declared_len current_offset with
        | None => fail_at LengthOverflow current_offset
        | Some remaining_in_packet =>
        if remaining_in_packet <? 4 then fail_at Truncated current_offset
        else
        let? ext_len_units := idx packet_bytes current_offset in
        if ext_len_units =? 0
        then fail_at (InvalidLength "extension header units is zero") current_offset
        else
        match checked_mul ext_len_units 4 with
        | None => fail_at LengthOverflow current_offset
        | Some ext_len_bytes =>
        if remaining_in_packet <? ext_len_bytes then fail_at Truncated current_offset
        else
        match (match checked_add current_offset ext_len_bytes with
               | Some offset => checked_sub offset 1
               | None => None
               end) with
        | None => fail_at LengthOverflow current_offset
        | Some next_ext_offset =>
        let? next_ext := idx packet_bytes next_ext_offset in
        let? _ :=
          (if bool_decide (validation_level ctx = ProcedureAware) then
             let? content := slice packet_bytes (current_offset + 1) next_ext_offset in
             map_err
               (λ error, with_spec_ref (DecodeError_new (code error) current_offset)
                           (SpecRef_new "3gpp" "TS29281" "5.2.2"))
               (validate_fixed_length
                  {| ext_type := current_next_ext;
                     content := content;
                     header_next_ext_type := next_ext |})
           else Ok ()) in
        if unsupported_requires_comprehension_by current_next_ext Endpoint
           && bool_decide (unknown_ie_policy ctx = UnknownReject)
        then fail_at UnknownCriticalIe current_offset
        else
        let? _ :=
          (if bool_decide (validation_level ctx = ProcedureAware)
              && (current_next_ext =? 0x85) then
             let? content := slice packet_bytes (current_offset + 1) next_ext_offset in
             match psc_decode {| ext_type := current_next_ext;
                                 content := content;
                                 header_next_ext_type := next_ext |} with
             | Ok _ => Ok ()
             | Err _ => fail_at (Structural "malformed PDU Session Container") current_offset
             | Crash => Crash
             end
           else Ok ()) in
        match checked_add current_offset ext_len_bytes with
        | None => fail_at LengthOverflow current_offset
        | Some offset =>
            decode_extensions fuel ctx packet_bytes total_declared_len
              next_ext offset depth ie_count
        end
        end
        end
        end
    end.

(** The optional four octets: sequence number, N-PDU number and next extension
    type as they stand on the wire. *)
Definition decode_optional_fields (ctx : DecodeContext) (packet_bytes : bytes) (length : Z)
    (ext_hdr_flag optional : bool)
    : outcome DecodeError (option Z * option Z * option Z) :=
  if optional then
    if length <? 4
    then fail_at (InvalidLength "length smaller than optional fields size (4 octets)") 8
    else
      let? s8 := idx packet_bytes 8 in
      let? s9 := idx packet_bytes 9 in
      let? npdu := idx packet_bytes 10 in
      let? next_ext := idx packet_bytes 11 in
      if (2 <=? validation_strictness (validation_level ctx)) && ext_hdr_flag
         && (next_ext =? 0)
      then fail_at
             (Structural "extension header flag set but next extension header type is 0") 11
      else Ok (Some (u16_from_be_bytes s8 s9), Some npdu, Some next_ext)
  else Ok (None, None, None).

(** The [if ext_hdr_flag] block: the length of the extension headers. *)
Definition decode_ext_headers_len (ctx : DecodeContext) (packet_bytes : bytes)
    (total_declared_len : Z) (ext_hdr_flag : bool) (next_ext_type : option Z)
    : outcome DecodeError Z :=
  if ext_hdr_flag then
    let? current_offset :=
      decode_extensions (List.length packet_bytes) ctx packet_bytes total_declared_len
        (default 0 next_ext_type) 12 0 0 in
    match checked_sub current_offset 12 with
    | Some len => Ok len
    | None => fail_at LengthOverflow current_offset
    end
  else Ok 0.

(** The last part of the decoder: the extension headers and the payload. *)
Definition decode_payload (packet_bytes : bytes)
    (length total_declared_len optional_fields_len ext_headers_len : Z)
    : outcome DecodeError (bytes * bytes) :=
  match checked_add optional_fields_len ext_headers_len with
  | None => fail_at LengthOverflow 8
  | Some opt_and_ext_len =>
  if length <? opt_and_ext_len
  then fail_at (InvalidLength "length smaller than optional and extensions size") 2
  else
  match checked_sub length opt_and_ext_len with
  | None => fail_at LengthOverflow 8
  | Some payload_len =>
  let raw_ext_start := 8 + optional_fields_len in
  let raw_ext_end := raw_ext_start + ext_headers_len in
  let? raw_extension_headers := slice packet_bytes raw_ext_start raw_ext_end in
  let payload_start := raw_ext_end in
  match checked_add payload_start payload_len with
  | None => fail_at LengthOverflow payload_start
  | Some payload_end =>
  if negb (payload_end =? total_declared_len)
  then fail_at (Structural "payload boundaries mismatch") 8
  else
  let? payload := slice packet_bytes payload_start payload_end in
  Ok (raw_extension_headers, payload)
  end
  end
  end.

Definition decode (input : bytes) (ctx : DecodeContext)
    : outcome DecodeError (bytes * GtpuMessage) :=
  if max_message_len ctx <? len input then fail_at MessageLengthExceeded 0
  else if len input <? 8 then fail_at Truncated 0
  else
  let? b1 := idx input 0 in
  let version := Z.land (Z.shiftr b1 5) 0x07 in
  let protocol_type := negb (Z.land (Z.shiftr b1 4) 0x01 =? 0) in
  let reserved := Z.land (Z.shiftr b1 3) 0x01 in
  let ext_hdr_flag := negb (Z.land (Z.shiftr b1 2) 0x01 =? 0) in
  let seq_num_flag := negb (Z.land (Z.shiftr b1 1) 0x01 =? 0) in
  let npdu_num_flag := negb (Z.land b1 0x01 =? 0) in
  if negb (version =? 1) then fail_at (InvalidEnumValue "version" version) 0
  else if negb protocol_type then fail_at (InvalidEnumValue "protocol_type" 0) 0
  else if (2 <=? validation_strictness (validation_level ctx)) && negb (reserved =? 0)
  then fail_at (Structural "reserved bit must be zero") 0
  else
  let? message_type := idx input 1 in
  let? l2 := idx input 2 in
  let? l3 := idx input 3 in
  let length := u16_from_be_bytes l2 l3 in
  let? t4 := idx input 4 in
  let? t5 := idx input 5 in
  let? t6 := idx input 6 in
  let? t7 := idx input 7 in
  let teid := u32_from_be_bytes t4 t5 t6 t7 in
  match checked_add 8 length with
  | None => fail_at LengthOverflow 2
  | Some total_declared_len =>
  if len input <? total_declared_len then fail_at Truncated (len input)
  else
  let? packet_bytes := slice input 0 total_declared_len in
  let? tail_bytes := slice input total_declared_len (len input) in
  let optional := ext_hdr_flag || seq_num_flag || npdu_num_flag in
  let? (seq, npdu, next_ext) :=
    decode_optional_fields ctx packet_bytes length ext_hdr_flag optional in
  let optional_fields_len := if optional then 4 else 0 in
  let next_ext_type := if ext_hdr_flag then next_ext else None in
  let? ext_headers_len :=
    decode_ext_headers_len ctx packet_bytes total_declared_len ext_hdr_flag next_ext_type in
  let? (raw_extension_headers, payload) :=
    decode_payload packet_bytes length total_declared_len optional_fields_len
      ext_headers_len in
  Ok (tail_bytes,
      {| header :=
           {| version := version;
              protocol_type := protocol_type;
              reserved := reserved;
              ext_hdr_flag := ext_hdr_flag;
              seq_num_flag := seq_num_flag;
              npdu_num_flag := npdu_num_flag;
              message_type := message_type;
              length_field := length;
              teid := teid;
              sequence_number := if seq_num_flag then seq else None;
              npdu_number := if npdu_num_flag then npdu else None;
              next_ext_type := next_ext_type;
              raw_sequence_number := seq;
              raw_npdu_number := npdu;
              raw_next_ext_type := next_ext |};
         raw_extension_headers := raw_extension_headers;
         payload := payload |})
  end.

(** [OwnedDecode]: the owned slices are taken at the borrowed slices' positions. *)
Definition decode_owned (input : bytes) (ctx : DecodeContext)
    : outcome DecodeError GtpuMessage :=
  let? (_, borrowed) := decode input ctx in
  Ok borrowed.

(** ** Encoding *)

(** The [(has_ext, has_seq, has_npdu)] triple both [wire_len] and [encode] compute. *)
Definition presence (m : GtpuMessage) (ctx : EncodeContext) : bool * bool * bool :=
  if raw_preserving ctx then
    (ext_hdr_flag (header m), seq_num_flag (header m), npdu_num_flag (header m))
  else
    (match raw_extension_headers m with [] => false | _ => true end
       || negb (default 0 (next_ext_type (header m)) =? 0),
     match sequence_number (header m) with Some _ => true | None => false end,
     match npdu_number (header m) with Some _ => true | None => false end).

Definition overflow_5_1 : EncodeError := encode_with_spec_ref length_overflow spec_5_1.

Definition wire_len (m : GtpuMessage) (ctx : EncodeContext) : outcome EncodeError Z :=
  let '(has_ext, has_seq, has_npdu) := presence m ctx in
  let? l :=
    (if has_ext || has_seq || has_npdu then ok_or (checked_add 8 4) overflow_5_1 else Ok 8) in
  let? l := ok_or (checked_add l (len (raw_extension_headers m))) overflow_5_1 in
  ok_or (checked_add l (len (payload m))) overflow_5_1.

(** [Encode::encode]: the destination buffer after the call, and the result.  A
    failing call may leave octets it had already appended. *)
Definition encode (m : GtpuMessage) (dst : bytes) (ctx : EncodeContext)
    : bytes * outcome EncodeError () :=
  match (let? l := wire_len m ctx in
         let? _ := check_capacity ctx l in
         Ok l) with
  | Crash => (dst, Crash)
  | Err e => (dst, Err e)
  | Ok l =>
  let h := header m in
  let '(has_ext, has_seq, has_npdu) := presence m ctx in
  let b1 :=
    if raw_preserving ctx then
      Z.lor (Z.lor (Z.land (Z.shiftl (Z.land (version h) 0x07) 5) 0xff)
                   (if protocol_type h then 0x10 else 0))
            (Z.land (Z.shiftl (Z.land (reserved h) 0x01) 3) 0xff)
    else 0x30 in
  let b1 := if has_ext then Z.lor b1 0x04 else b1 in
  let b1 := if has_seq then Z.lor b1 0x02 else b1 in
  let b1 := if has_npdu then Z.lor b1 0x01 else b1 in
  let dst := dst ++ [b1; message_type h] in
  match checked_sub l 8 with
  | None =>
      (dst, Err (encode_with_spec_ref
                   (EncodeError_new (EncodeStructural "wire length smaller than header"))
                   spec_5_1))
  | Some length_field_val =>
  if 65535 <? length_field_val then (dst, Err overflow_5_1)
  else
  let dst := dst ++ u16_to_be_bytes length_field_val in
  let dst := dst ++ u32_to_be_bytes (teid h) in
  let dst :=
    if has_ext || has_seq || has_npdu then
      let seq :=
        if raw_preserving ctx
        then default (default 0 (sequence_number h)) (raw_sequence_number h)
        else default 0 (sequence_number h) in
      let npdu :=
        if raw_preserving ctx
        then default (default 0 (npdu_number h)) (raw_npdu_number h)
        else default 0 (npdu_number h) in
      let next_ext :=
        if raw_preserving ctx
        then default (default 0 (next_ext_type h)) (raw_next_ext_type h)
        else default 0 (next_ext_type h) in
      dst ++ u16_to_be_bytes seq ++ [npdu] ++ [next_ext]
    else dst in
  (dst ++ raw_extension_headers m ++ payload m, Ok ())
  end
  end.

(** ** The extension loop of the eager decoder *)

(** The checks of one turn of the loop on the header it has delimited. *)
Definition header_accepted (ctx : DecodeContext) (h : GtpuExtensionHeader) : bool :=
  (negb (bool_decide (validation_level ctx = ProcedureAware)) || fixed_length_ok h)
  && negb (unsupported_requires_comprehension_by (ext_type h) Endpoint
           && bool_decide (unknown_ie_policy ctx = UnknownReject))
  && (negb (bool_decide (validation_level ctx = ProcedureAware) && (ext_type h =? 0x85))
      || is_ok (psc_decode_with_reason h)).

Lemma packet_header {E} pre units c next rest :
  len c + 2 = 4 * units →
  let packet := pre ++ units :: c ++ next :: rest in
  idx (E := E) packet (len pre) = Ok units
  ∧ idx (E := E) packet (len pre + units * 4 - 1) = Ok next
  ∧ slice (E := E) packet (len pre + 1) (len pre + units * 4 - 1) = Ok c.
Proof.
  intros Hc packet. unfold packet. split_and!.
  - by apply idx_at.
  - rewrite app_comm_cons, app_assoc. apply idx_at. len_lia.
  - rewrite cons_middle, app_assoc. apply slice_at; len_lia.
Qed.

Lemma decode_extensions_step fuel ctx pre t units c next rest depth ie :
  t ≠ 0 → 0 < units < 256 → len c + 2 = 4 * units →
  let packet := pre ++ units :: c ++ next :: rest in
  let h := {| ext_type := t; content := c; header_next_ext_type := next |} in
  len packet ≤ USIZE_MAX →
  if (depth <? max_depth ctx) && (ie <? max_ies ctx) && header_accepted ctx h
  then decode_extensions (S fuel) ctx packet (len packet) t (len pre) depth ie
       = decode_extensions fuel ctx packet (len packet) next (len pre + 4 * units)
           (depth + 1) (ie + 1)
  else is_err (decode_extensions (S fuel) ctx packet (len packet) t (len pre) depth ie) = true.
Proof.
  intros Ht Hu Hc packet h Hl.
  assert (Hlp : len packet = len pre + 4 * units + len rest) by (unfold packet; len_lia).
  pose proof (len_nonneg pre). pose proof (len_nonneg rest).
  destruct (packet_header (E := DecodeError) pre units c next rest Hc)
    as (Hi & Hn & Hs). fold packet in Hi, Hn, Hs. clearbody packet.
  cbn [decode_extensions]. rewrite (proj2 (Z.eqb_neq t 0)) by done.
  destruct (depth <? max_depth ctx) eqn:Ed; to_prop;
    [rewrite (proj2 (Z.ltb_ge _ (depth + 1))) by lia
    |by rewrite (proj2 (Z.ltb_lt _ (depth + 1))) by lia].
  destruct (ie <? max_ies ctx) eqn:Ei; to_prop;
    [rewrite (proj2 (Z.ltb_ge _ (ie + 1))) by lia
    |by rewrite (proj2 (Z.ltb_lt _ (ie + 1))) by lia].
  rewrite checked_sub_ok by lia.
  rewrite (proj2 (Z.ltb_ge _ 4)) by lia. rewrite Hi.
  rewrite (proj2 (Z.eqb_neq units 0)) by lia.
  rewrite checked_mul_ok by (unfold USIZE_MAX; lia).
  rewrite (proj2 (Z.ltb_ge _ (units * 4))) by lia.
  rewrite checked_add_ok by lia.
  rewrite checked_sub_ok by lia.
  rewrite Hn, Hs. fold h.
  rewrite validate_fixed_length_cases. unfold header_accepted.
  change (ext_type h) with t.
  replace (len pre + units * 4) with (len pre + 4 * units) by lia. cbn [andb].
  destruct (bool_decide (validation_level ctx = ProcedureAware)); cbn [negb orb andb].
  - destruct (fixed_length_ok h); cbn [andb map_err]; [|done].
    destruct (unsupported_requires_comprehension_by _ _ && _); cbn [negb andb]; [done|].
    destruct (t =? 133); [|done]. cbn [negb orb]. unfold psc_decode.
    pose proof (psc_decode_returns h) as Hr. by destruct (psc_decode_with_reason h) as [|[]|].
  - by destruct (unsupported_requires_comprehension_by _ _ && _).
Qed.

(** A chain of at most [n] headers, all accepted. *)
Definition chain_accepted (ctx : DecodeContext) (depth ie : Z) (hs : list GtpuExtensionHeader)
    : Prop :=
  (hs ≠ [] → depth + len hs ≤ max_depth ctx ∧ ie + len hs ≤ max_ies ctx)
  ∧ forallb (header_accepted ctx) hs = true.

Lemma chain_accepted_cons ctx depth ie h hs :
  chain_accepted ctx depth ie (h :: hs)
  ↔ (depth <? max_depth ctx) && (ie <? max_ies ctx) && header_accepted ctx h = true
    ∧ chain_accepted ctx (depth + 1) (ie + 1) hs.
Proof.
  unfold chain_accepted. cbn [forallb]. rewrite !andb_true_iff, !Z.ltb_lt.
  autorewrite with len. pose proof (len_nonneg hs). split.
  - intros [Hl [Hh Hf]]. specialize (Hl ltac:(done)). split_and!; try done; lia.
  - intros [[[Hd Hi] Hh] [Hl Hf]]. split; [|done]. intros _.
    destruct (decide (hs = [])) as [->|Hne]; [rewrite len_nil; lia|]. specialize (Hl Hne). lia.
Qed.

Lemma decode_extensions_chain ctx t hs raw : ext_chain t hs raw → ∀ fuel pre post depth ie,
  len (pre ++ raw ++ post) ≤ USIZE_MAX → (length hs ≤ fuel)%nat →
  chain_accepted ctx depth ie hs →
  decode_extensions fuel ctx (pre ++ raw ++ post) (len (pre ++ raw ++ post)) t (len pre) depth ie
  = Ok (len pre + len raw).
Proof.
  induction 1 as [|t u c n hs raw Ht Hu Hc Hch IH]; intros fuel pre post depth ie Hl Hf Ha.
  - change (len []) with 0. rewrite Z.add_0_r. by destruct fuel.
  - destruct fuel as [|fuel]; cbn in Hf; [lia|].
    apply chain_accepted_cons in Ha as [Hh Ha].
    replace (pre ++ (u :: c ++ n :: raw) ++ post) with (pre ++ u :: c ++ n :: raw ++ post) in *
      by (cbn; by rewrite <- app_assoc).
    pose proof (decode_extensions_step fuel ctx pre t u c n (raw ++ post) depth ie Ht Hu Hc Hl)
      as Hs. cbv zeta in Hs. rewrite Hh in Hs. rewrite Hs. clear Hs.
    specialize (IH fuel (pre ++ u :: c ++ [n]) post (depth + 1) (ie + 1)).
    replace ((pre ++ u :: c ++ [n]) ++ raw ++ post) with (pre ++ u :: c ++ n :: raw ++ post) in IH
      by (cbn; rewrite <- !app_assoc; cbn; by rewrite <- app_assoc).
    replace (len (pre ++ u :: c ++ [n])) with (len pre + 4 * u) in IH by len_lia.
    rewrite IH by (done || lia). f_equal. len_lia.
Qed.

(** A chain is determined by its first type and any octets that extend it. *)
Lemma ext_chain_prefix t hs raw : ext_chain t hs raw → ∀ hs' raw' post post',
  ext_chain t hs' raw' → raw ++ post = raw' ++ post' → raw = raw'.
Proof.
  induction 1 as [|t u c n hs raw Ht Hu Hc _ IH]; intros hs' raw' post post' H E;
    inversion H as [|t' u' c' n' hs0 raw0 ? Hu' Hc' Hch']; simplify_eq; [done..|].
  rewrite <- !app_assoc in *.
  match goal with E : _ ++ _ = _ ++ _ |- _ =>
    apply app_inj_1 in E as [-> ?]; [|unfold len in *; lia] end.
  simplify_eq. do 3 f_equal. by eapply IH.
Qed.

Lemma packet_split pre t rest :
  t ≠ 0 → bytes_ok rest →
  (∃ u c n rest', rest = u :: c ++ n :: rest' ∧ 0 < u < 256 ∧ len c + 2 = 4 * u)
  ∨ ∀ fuel ctx depth ie,
      is_err (decode_extensions (S fuel) ctx (pre ++ rest) (len (pre ++ rest)) t (len pre)
                depth ie) = true.
Proof.
  intros Ht Hb. pose proof (len_nonneg pre). pose proof (len_nonneg rest).
  destruct (Z.ltb_spec (len rest) 4).
  - right. intros fuel ctx depth ie. cbn [decode_extensions].
    rewrite (proj2 (Z.eqb_neq t 0)) by done.
    destruct (_ <? _); [done|]. destruct (_ <? _); [done|].
    rewrite checked_sub_ok by len_lia. by rewrite (proj2 (Z.ltb_lt _ 4)) by len_lia.
  - destruct rest as [|u tl]; [done|]. rewrite bytes_ok_cons in Hb. destruct Hb as [Hu Hb].
    unfold u8 in Hu.
    destruct (decide (0 < u ∧ 4 * u ≤ len (u :: tl))) as [[Hu0 Hl]|Hn].
    + left. destruct (header_split u tl) as (c & n & rest & -> & Hc); [lia..|].
      exists u, c, n, rest. split_and!; done || lia.
    + right. intros fuel ctx depth ie. cbn [decode_extensions].
      rewrite (proj2 (Z.eqb_neq t 0)) by done.
      destruct (_ <? _); [done|]. destruct (_ <? _); [done|].
      rewrite checked_sub_ok, (proj2 (Z.ltb_ge _ 4)), idx_at by len_lia.
      destruct (u =? 0) eqn:E; to_prop; [done|].
      rewrite checked_mul_ok by (unfold USIZE_MAX; lia).
      by rewrite (proj2 (Z.ltb_lt _ (u * 4))) by len_lia.
Qed.

Lemma decode_extensions_cases ctx fuel : ∀ t pre rest depth ie,
  bytes_ok rest → len (pre ++ rest) ≤ USIZE_MAX → (length rest < fuel)%nat →
  is_err (decode_extensions fuel ctx (pre ++ rest) (len (pre ++ rest)) t (len pre) depth ie) = true
  ∨ ∃ hs raw post, rest = raw ++ post ∧ ext_chain t hs raw ∧ chain_accepted ctx depth ie hs.
Proof.
  induction fuel as [|fuel IH]; intros t pre rest depth ie Hb Hl Hf; [lia|].
  destruct (decide (t = 0)) as [->|Ht].
  { right. exists [], [], rest. split_and!; [done|constructor|done]. }
  destruct (packet_split pre t rest Ht Hb) as [(u & c & n & rest' & -> & Hu & Hc)|He];
    [|by left].
  rewrite bytes_ok_cons, bytes_ok_app, bytes_ok_cons in Hb.
  pose proof (decode_extensions_step fuel ctx pre t u c n rest' depth ie Ht Hu Hc Hl) as Hs.
  cbv zeta in Hs. destruct (_ && header_accepted _ _) eqn:Eh; [rewrite Hs; clear Hs|by left].
  specialize (IH n (pre ++ u :: c ++ [n]) rest' (depth + 1) (ie + 1)).
  replace ((pre ++ u :: c ++ [n]) ++ rest') with (pre ++ u :: c ++ n :: rest') in IH
    by (cbn; rewrite <- !app_assoc; cbn; by rewrite <- app_assoc).
  replace (len (pre ++ u :: c ++ [n])) with (len pre + 4 * u) in IH by len_lia.
  destruct IH as [IH|(hs & raw & post & -> & Hch & Ha)]; [naive_solver|done| |by left|].
  { cbn in Hf. rewrite List.length_app in Hf. cbn in Hf. lia. }
  right. eexists _, (u :: c ++ n :: raw), post. split_and!;
    [cbn; by rewrite <- app_assoc|by constructor|by apply chain_accepted_cons].
Qed.

(** The eager loop accepts exactly the well-formed chains within the limits whose
    headers pass the checks, and never crashes. *)
Lemma decode_extensions_spec ctx fuel t pre rest :
  bytes_ok rest → len (pre ++ rest) ≤ USIZE_MAX → (length rest < fuel)%nat →
  let run := decode_extensions fuel ctx (pre ++ rest) (len (pre ++ rest)) t (len pre) 0 0 in
  returns run
  ∧ ∀ off, run = Ok off
      ↔ ∃ hs raw post, rest = raw ++ post ∧ ext_chain t hs raw ∧ chain_accepted ctx 0 0 hs
                       ∧ off = len pre + len raw.
Proof.
  intros Hb Hl Hf run.
  destruct (decode_extensions_cases ctx fuel t pre rest 0 0 Hb Hl Hf)
    as [He|(hs & raw & post & -> & Hch & Ha)]; fold run in He || idtac.
  - split; [by destruct run|]. intros off. split; [by destruct run|].
    intros (hs & raw & post & -> & Hch & Ha & ->). exfalso.
    apply ext_chain_fuel in Hch as Hn. rewrite List.length_app in Hf.
    unfold run in He. by rewrite (decode_extensions_chain ctx _ _ _ Hch) in He by (done || lia).
  - apply ext_chain_fuel in Hch as Hn. rewrite List.length_app in Hf.
    assert (Hr : run = Ok (len pre + len raw)).
    { by apply (decode_extensions_chain ctx _ _ _ Hch); [|lia|]. }
    rewrite Hr. split; [done|]. intros off. split; [naive_solver|].
    intros (hs' & raw' & post' & E & Hch' & _ & ->).
    by rewrite (ext_chain_prefix _ _ _ Hch _ _ _ _ Hch' E).
Qed.

(** ** The wire format *)

Definition optional_present (h : GtpuHeader) : bool :=
  ext_hdr_flag h || seq_num_flag h || npdu_num_flag h.

Definition first_octet (r : Z) (e s n : bool) : Z :=
  0x30 + 8 * r + 4 * Z.b2z e + 2 * Z.b2z s + Z.b2z n.

Definition optional_wire (h : GtpuHeader) : bytes :=
  if optional_present h
  then u16_to_be_bytes (default 0 (raw_sequence_number h))
       ++ [default 0 (raw_npdu_number h); default 0 (raw_next_ext_type h)]
  else [].

Definition wire (m : GtpuMessage) : bytes :=
  let h := header m in
  [first_octet (reserved h) (ext_hdr_flag h) (seq_num_flag h) (npdu_num_flag h);
   message_type h]
  ++ u16_to_be_bytes (length_field h) ++ u32_to_be_bytes (teid h)
  ++ optional_wire h ++ raw_extension_headers m ++ payload m.

(** A header whose fields agree with each other and with the body lengths. *)
Record layout (m : GtpuMessage) : Prop := {
  l_version : version (header m) = 1;
  l_protocol_type : protocol_type (header m) = true;
  l_reserved : reserved (header m) = 0 ∨ reserved (header m) = 1;
  l_message_type : u8 (message_type (header m));
  l_teid : u32 (teid (header m));
  l_length : length_field (header m)
             = len (optional_wire (header m)) + len (raw_extension_headers m) + len (payload m);
  l_length_u16 : length_field (header m) ≤ 65535;
  l_optional :
    if optional_present (header m)
    then ∃ s n x, raw_sequence_number (header m) = Some s ∧ u16 s
                  ∧ raw_npdu_number (header m) = Some n ∧ u8 n
                  ∧ raw_next_ext_type (header m) = Some x ∧ u8 x
    else raw_sequence_number (header m) = None ∧ raw_npdu_number (header m) = None
         ∧ raw_next_ext_type (header m) = None;
  l_sequence : sequence_number (header m)
               = if seq_num_flag (header m) then raw_sequence_number (header m) else None;
  l_npdu : npdu_number (header m)
           = if npdu_num_flag (header m) then raw_npdu_number (header m) else None;
  l_next : next_ext_type (header m)
           = if ext_hdr_flag (header m) then raw_next_ext_type (header m) else None;
  l_extensions : bytes_ok (raw_extension_headers m);
  l_payload : bytes_ok (payload m);
}.

(** What a decode context adds: the reserved bit and the extension chain. *)
Definition strict (ctx : DecodeContext) : bool :=
  2 <=? validation_strictness (validation_level ctx).

Record admitted (ctx : DecodeContext) (m : GtpuMessage) : Prop := {
  a_reserved : strict ctx = true → reserved (header m) = 0;
  a_next : strict ctx = true → ext_hdr_flag (header m) = true →
           raw_next_ext_type (header m) ≠ Some 0;
  a_chain :
    if ext_hdr_flag (header m)
    then ∃ hs, ext_chain (default 0 (raw_next_ext_type (header m))) hs (raw_extension_headers m)
               ∧ chain_accepted ctx 0 0 hs
    else raw_extension_headers m = [];
}.

Lemma first_octet_bits (e s n : bool) : ∀ r, 0 ≤ r < 2 →
  let b := first_octet r e s n in
  0 ≤ b ∧ b < 256
  ∧ Z.land (Z.shiftr b 5) 7 = 1 ∧ negb (Z.land (Z.shiftr b 4) 1 =? 0) = true
  ∧ Z.land (Z.shiftr b 3) 1 = r ∧ negb (Z.land (Z.shiftr b 2) 1 =? 0) = e
  ∧ negb (Z.land (Z.shiftr b 1) 1 =? 0) = s ∧ negb (Z.land b 1 =? 0) = n.
Proof. destruct e, s, n; by_enum 2%nat. Qed.

Lemma first_octet_of : ∀ b, 0 ≤ b < 256 →
  Z.land (Z.shiftr b 5) 7 = 1 → negb (Z.land (Z.shiftr b 4) 1 =? 0) = true →
  b = first_octet (Z.land (Z.shiftr b 3) 1) (negb (Z.land (Z.shiftr b 2) 1 =? 0))
        (negb (Z.land (Z.shiftr b 1) 1 =? 0)) (negb (Z.land b 1 =? 0))
  ∧ (Z.land (Z.shiftr b 3) 1 = 0 ∨ Z.land (Z.shiftr b 3) 1 = 1).
Proof. by_enum 256%nat. Qed.

Lemma decode_payload_ok hd raw pay o k length :
  len hd = 8 + o → 0 ≤ o → len raw = k → length = o + k + len pay →
  8 + length ≤ USIZE_MAX →
  decode_payload (hd ++ raw ++ pay) length (8 + length) o k = Ok (raw, pay).
Proof.
  intros Hh Ho Hk -> Hl. pose proof (len_nonneg raw). pose proof (len_nonneg pay).
  unfold decode_payload.
  rewrite checked_add_ok, (proj2 (Z.ltb_ge _ (o + k))), checked_sub_ok, slice_at by lia.
  rewrite checked_add_ok by lia. rewrite (proj2 (Z.eqb_eq _ _)) by lia. cbn [negb].
  rewrite <- (app_nil_r pay) at 1. rewrite (app_assoc hd), slice_at by len_lia. done.
Qed.

(** The decoder on an input whose fixed header and declared body are in place. *)
Lemma decode_fixed b1 mt l2 l3 t4 t5 t6 t7 body tail ctx :
  let hd := [b1; mt; l2; l3; t4; t5; t6; t7] in
  let length := u16_from_be_bytes l2 l3 in
  let reserved := Z.land (Z.shiftr b1 3) 1 in
  let e := negb (Z.land (Z.shiftr b1 2) 1 =? 0) in
  let s := negb (Z.land (Z.shiftr b1 1) 1 =? 0) in
  let n := negb (Z.land b1 1 =? 0) in
  len (hd ++ body ++ tail) ≤ max_message_len ctx →
  u8 l2 → u8 l3 → len body = length →
  Z.land (Z.shiftr b1 5) 7 = 1 → negb (Z.land (Z.shiftr b1 4) 1 =? 0) = true →
  strict ctx && negb (reserved =? 0) = false →
  decode (hd ++ body ++ tail) ctx
  = let? (seq, npdu, next_ext) :=
      decode_optional_fields ctx (hd ++ body) length e (e || s || n) in
    let? k := decode_ext_headers_len ctx (hd ++ body) (8 + length) e
                (if e then next_ext else None) in
    let? (raw, pay) :=
      decode_payload (hd ++ body) length (8 + length) (if e || s || n then 4 else 0) k in
    Ok (tail,
        {| header :=
             {| version := 1; protocol_type := true; reserved := reserved;
                ext_hdr_flag := e; seq_num_flag := s; npdu_num_flag := n;
                message_type := mt; length_field := length;
                teid := u32_from_be_bytes t4 t5 t6 t7;
                sequence_number := if s then seq else None;
                npdu_number := if n then npdu else None;
                next_ext_type := if e then next_ext else None;
                raw_sequence_number := seq; raw_npdu_number := npdu;
                raw_next_ext_type := next_ext |};
           raw_extension_headers := raw; payload := pay |}).
Proof.
  intros hd length r e s n Hm H2 H3 Hb Hv Hp Hr.
  assert (Hl : 0 ≤ length ≤ 65535) by (unfold length, u8, u16_from_be_bytes in *; lia).
  assert (Hlen : len (hd ++ body ++ tail) = 8 + length + len tail) by (unfold hd; len_lia).
  pose proof (len_nonneg tail). unfold decode.
  rewrite (proj2 (Z.ltb_ge (max_message_len ctx) _)), (proj2 (Z.ltb_ge _ 8)) by lia.
  change (idx (hd ++ body ++ tail) 0) with (@Ok DecodeError _ b1). cbv beta iota.
  fold r e s n. rewrite Hv, Hp. cbn [negb Z.eqb Pos.eqb]. unfold strict in Hr. rewrite Hr.
  change (idx (hd ++ body ++ tail) 1) with (@Ok DecodeError _ mt).
  change (idx (hd ++ body ++ tail) 2) with (@Ok DecodeError _ l2).
  change (idx (hd ++ body ++ tail) 3) with (@Ok DecodeError _ l3).
  change (idx (hd ++ body ++ tail) 4) with (@Ok DecodeError _ t4).
  change (idx (hd ++ body ++ tail) 5) with (@Ok DecodeError _ t5).
  change (idx (hd ++ body ++ tail) 6) with (@Ok DecodeError _ t6).
  change (idx (hd ++ body ++ tail) 7) with (@Ok DecodeError _ t7). cbv beta iota.
  fold length. rewrite checked_add_ok by (unfold USIZE_MAX; lia).
  rewrite (proj2 (Z.ltb_ge _ (8 + length))) by lia.
  replace (slice (hd ++ body ++ tail) 0 (8 + length)) with (@Ok DecodeError _ (hd ++ body))
    by (symmetry; rewrite app_assoc; apply (slice_at []); [done|unfold hd; len_lia]).
  replace (slice (hd ++ body ++ tail) (8 + length) (len (hd ++ body ++ tail)))
    with (@Ok DecodeError _ tail) by
    (symmetry; rewrite Hlen; rewrite <- (app_nil_r tail) at 1; rewrite (app_assoc hd);
     apply slice_at; unfold hd; len_lia).
  done.
Qed.

Lemma decode_ext_headers_len_spec ctx hd rest x :
  len hd = 12 → bytes_ok rest → len (hd ++ rest) ≤ USIZE_MAX →
  let run := decode_ext_headers_len ctx (hd ++ rest) (len (hd ++ rest)) true (Some x) in
  returns run
  ∧ ∀ k, run = Ok k
      ↔ ∃ hs raw post, rest = raw ++ post ∧ ext_chain x hs raw ∧ chain_accepted ctx 0 0 hs
                       ∧ k = len raw.
Proof.
  intros Hh Hb Hl run. unfold run, decode_ext_headers_len. cbn [default].
  destruct (decode_extensions_spec ctx (length (hd ++ rest)) x hd rest) as [Hr Hs]; [done..| |].
  { rewrite List.length_app. unfold len in Hh. lia. }
  rewrite Hh in Hr, Hs. destruct (decode_extensions _ _ _ _ _ _ _ _) as [off|e|] eqn:He.
  - destruct (proj1 (Hs off) eq_refl) as (hs & raw & post & -> & Hch & Ha & ->).
    rewrite checked_sub_ok by (pose proof (len_nonneg raw); lia). split; [done|]. intros k.
    split; [intros [= <-]; eexists hs, raw, post; split_and!; done || lia|].
    intros (hs' & raw' & post' & E & Hch' & _ & ->).
    rewrite (ext_chain_prefix _ _ _ Hch _ _ _ _ Hch' E). f_equal. lia.
  - split; [done|]. intros k. split; [done|]. intros (hs & raw & post & E & Hch & Ha & ->).
    discriminate (proj2 (Hs (12 + len raw)) (ex_intro _ hs (ex_intro _ raw (ex_intro _ post
      (conj E (conj Hch (conj Ha eq_refl))))))).
  - done.
Qed.

Lemma decode_optional_fields_ok ctx hd s0 s1 n x rest length e :
  len hd = 8 → 4 ≤ length →
  decode_optional_fields ctx (hd ++ [s0; s1; n; x] ++ rest) length e true
  = if strict ctx && e && (x =? 0)
    then fail_at
           (Structural "extension header flag set but next extension header type is 0") 11
    else Ok (Some (u16_from_be_bytes s0 s1), Some n, Some x).
Proof.
  intros Hh Hl. unfold decode_optional_fields. rewrite (proj2 (Z.ltb_ge _ 4)) by done.
  cbn [app]. rewrite idx_at by lia. rewrite (cons_middle s0), app_assoc, idx_at by len_lia.
  rewrite (cons_middle s1), app_assoc, idx_at by len_lia.
  rewrite (cons_middle n), app_assoc, idx_at by len_lia. done.
Qed.

Lemma decode_rest_optional ctx hd s0 s1 a x raw pay e length :
  len hd = 8 → length = 4 + len raw + len pay → length ≤ 65535 → bytes_ok (raw ++ pay) →
  (strict ctx = true → e = true → x ≠ 0) →
  (if e then ∃ hs, ext_chain x hs raw ∧ chain_accepted ctx 0 0 hs else raw = []) →
  let packet := hd ++ [s0; s1; a; x] ++ raw ++ pay in
  decode_optional_fields ctx packet length e true
  = Ok (Some (u16_from_be_bytes s0 s1), Some a, Some x)
  ∧ decode_ext_headers_len ctx packet (8 + length) e (if e then Some x else None)
    = Ok (len raw)
  ∧ decode_payload packet length (8 + length) 4 (len raw) = Ok (raw, pay).
Proof.
  intros Hh Hl H16 Hb Hx Hc packet. pose proof (len_nonneg raw). pose proof (len_nonneg pay).
  unfold packet. split_and!.
  - rewrite decode_optional_fields_ok by lia.
    destruct (strict ctx), e; cbn [andb]; try done. by rewrite (proj2 (Z.eqb_neq x 0)) by auto.
  - rewrite app_assoc. destruct e; [|by subst raw].
    replace (8 + length) with (len ((hd ++ [s0; s1; a; x]) ++ raw ++ pay)) by len_lia.
    destruct (decode_ext_headers_len_spec ctx (hd ++ [s0; s1; a; x]) (raw ++ pay) x)
      as [_ Hs]; [len_lia|done|unfold USIZE_MAX; len_lia|].
    apply Hs. destruct Hc as (hs & Hch & Ha). eauto 10.
  - rewrite app_assoc. apply decode_payload_ok; [len_lia..|unfold USIZE_MAX; lia].
Qed.

(** Every message whose fields are consistent and that the context admits is read
    back from its wire form, whatever follows it. *)
Lemma decode_wire ctx m tail :
  layout m → admitted ctx m → len (wire m ++ tail) ≤ max_message_len ctx →
  decode (wire m ++ tail) ctx = Ok (tail, m).
Proof.
  intros HL HA Hm.
  destruct m as [[v pt r e s n mt lf td sn np nx rs rn rx] raw pay].
  destruct HL as [Hv Hp Hr Ht Hd Hlen Hl16 Ho Hs Hn Hx Hbr Hbp], HA as [Har Hax Hac].
  unfold wire, optional_wire, optional_present in *; cbn [header version protocol_type reserved
    ext_hdr_flag seq_num_flag npdu_num_flag message_type length_field teid sequence_number
    npdu_number next_ext_type raw_sequence_number raw_npdu_number raw_next_ext_type
    raw_extension_headers payload] in *. subst v pt sn np nx.
  pose proof (len_nonneg raw). pose proof (len_nonneg pay).
  set (ow := if e || s || n then _ else _) in *. pose proof (len_nonneg ow).
  assert (Hll : u16 lf) by (unfold u16; lia).
  destruct (u16_bytes _ Hll) as (l2 & l3 & El & H2 & H3 & El').
  destruct (u32_bytes _ Hd) as (t4 & t5 & t6 & t7 & Et & _ & _ & _ & _ & Et').
  destruct (first_octet_bits e s n r) as (_ & _ & B1 & B2 & B3 & B4 & B5 & B6); [lia|].
  set (b1 := first_octet _ _ _ _) in *. rewrite El, Et in Hm |- *.
  change (([b1; mt] ++ [l2; l3] ++ [t4; t5; t6; t7] ++ ow ++ raw ++ pay) ++ tail)
    with ([b1; mt; l2; l3; t4; t5; t6; t7] ++ (ow ++ raw ++ pay) ++ tail) in *.
  rewrite decode_fixed; [|try done..].
  2: rewrite El', Hlen; len_lia.
  2: { rewrite B3. destruct (strict ctx); [|done]. by rewrite Har. }
  rewrite B3, B4, B5, B6, El', Et'.
  assert (Hh : len [b1; mt; l2; l3; t4; t5; t6; t7] = 8) by done.
  revert Hh. generalize [b1; mt; l2; l3; t4; t5; t6; t7]. intros hd Hh.
  destruct (e || s || n) eqn:Eo.
  - destruct Ho as (q & a & x & -> & Hq & -> & Ha & -> & Hx8).
    destruct (u16_bytes _ Hq) as (s0 & s1 & Eq & _ & _ & Eq').
    subst ow. unfold default, id in *. rewrite Eq in Hlen |- *.
    change ([s0; s1] ++ [a; x]) with [s0; s1; a; x] in *.
    destruct (decode_rest_optional ctx hd s0 s1 a x raw pay e lf) as (-> & -> & ->);
      [done| |done|by apply bytes_ok_app|intros ?? ->; by apply Hax|done|].
    { rewrite Hlen. len_lia. }
    by rewrite Eq'.
  - apply orb_false_iff in Eo as [[-> ->]%orb_false_iff ->].
    destruct Ho as (-> & -> & ->). cbn in Hac. subst raw ow. cbn [decode_optional_fields].
    cbn [decode_ext_headers_len app orb]. pose proof (decode_payload_ok hd [] pay 0 0 lf) as Hpay.
    cbn [app] in Hpay. change (len []) with 0 in *.
    rewrite Hpay; [done|lia..|done|lia|unfold USIZE_MAX; lia].
Qed.

Lemma decode_refuses_fixed b1 mt l2 l3 t4 t5 t6 t7 rest ctx :
  let r := Z.land (Z.shiftr b1 3) 1 in
  (Z.land (Z.shiftr b1 5) 7 ≠ 1 ∨ negb (Z.land (Z.shiftr b1 4) 1 =? 0) = false
   ∨ strict ctx && negb (r =? 0) = true
   ∨ 0 ≤ u16_from_be_bytes l2 l3 ≤ 65535 ∧ len rest < u16_from_be_bytes l2 l3) →
  is_err (decode ([b1; mt; l2; l3; t4; t5; t6; t7] ++ rest) ctx) = true.
Proof.
  intros r H. unfold decode. destruct (_ <? _); [done|].
  rewrite (proj2 (Z.ltb_ge _ 8)) by len_lia.
  change (idx _ 0) with (@Ok DecodeError _ b1). cbv beta iota.
  destruct (_ =? 1) eqn:Ev; [|done]. cbn [negb]. destruct (negb (_ =? 0)) eqn:Ep in |- *; [|done].
  cbn [negb]. fold (strict ctx). fold r. destruct (strict ctx && _) eqn:Er; [done|].
  destruct H as [H|[H|[H|H]]]; [to_prop; congruence..|].
  change (idx _ 1) with (@Ok DecodeError _ mt). change (idx _ 2) with (@Ok DecodeError _ l2).
  change (idx _ 3) with (@Ok DecodeError _ l3). change (idx _ 4) with (@Ok DecodeError _ t4).
  change (idx _ 5) with (@Ok DecodeError _ t5). change (idx _ 6) with (@Ok DecodeError _ t6).
  change (idx _ 7) with (@Ok DecodeError _ t7). cbv beta iota.
  rewrite checked_add_ok by (unfold USIZE_MAX; lia).
  by rewrite (proj2 (Z.ltb_lt _ (8 + _))) by len_lia.
Qed.

(** The message the decoder builds from the fixed header and the optional fields. *)
Definition decoded (r : Z) (e s n : bool) (mt length td : Z) (seq npdu next : option Z)
    (raw pay : bytes) : GtpuMessage :=
  {| header :=
       {| version := 1; protocol_type := true; reserved := r;
          ext_hdr_flag := e; seq_num_flag := s; npdu_num_flag := n;
          message_type := mt; length_field := length; teid := td;
          sequence_number := if s then seq else None;
          npdu_number := if n then npdu else None;
          next_ext_type := if e then next else None;
          raw_sequence_number := seq; raw_npdu_number := npdu; raw_next_ext_type := next |};
     raw_extension_headers := raw; payload := pay |}.

Lemma optional_wire_decoded r e s n mt l td s0 s1 a x raw pay :
  e || s || n = true → u8 s0 → u8 s1 →
  optional_wire (header (decoded r e s n mt l td (Some (u16_from_be_bytes s0 s1)) (Some a)
                           (Some x) raw pay)) = [s0; s1; a; x].
Proof.
  intros Eo H0 H1. unfold optional_wire, optional_present, decoded; cbn [header ext_hdr_flag
    seq_num_flag npdu_num_flag raw_sequence_number raw_npdu_number raw_next_ext_type].
  rewrite Eo. unfold default, id. by rewrite u16_to_from.
Qed.

Lemma decode_ext_cases ctx hd s0 s1 a x rest e :
  len hd = 8 → bytes_ok rest → len ([s0; s1; a; x] ++ rest) ≤ 65535 →
  is_err (decode_ext_headers_len ctx (hd ++ [s0; s1; a; x] ++ rest)
            (8 + len ([s0; s1; a; x] ++ rest)) e (if e then Some x else None)) = true
  ∨ ∃ raw pay, rest = raw ++ pay
      ∧ if e then ∃ hs, ext_chain x hs raw ∧ chain_accepted ctx 0 0 hs else raw = [].
Proof.
  intros Hh Hb Hl. destruct e; [|right; by exists [], rest]. rewrite app_assoc.
  replace (8 + len ([s0; s1; a; x] ++ rest)) with (len ((hd ++ [s0; s1; a; x]) ++ rest))
    by len_lia.
  destruct (decode_ext_headers_len_spec ctx (hd ++ [s0; s1; a; x]) rest x) as [Hrt Hs];
    [len_lia|done|unfold USIZE_MAX; len_lia|].
  destruct (decode_ext_headers_len _ _ _ _ _) as [k|?|]; [|by left|done].
  right. destruct (proj1 (Hs k) eq_refl) as (hs & raw & pay & -> & ? & ? & _). eauto 10.
Qed.

Lemma decode_body_cases ctx (hd : bytes) r e s n mt td body :
  len hd = 8 → bytes_ok body → len body ≤ 65535 → (r = 0 ∨ r = 1) → u8 mt → u32 td →
  (strict ctx = true → r = 0) →
  is_err (let? (seq, npdu, next_ext) :=
            decode_optional_fields ctx (hd ++ body) (len body) e (e || s || n) in
          let? k := decode_ext_headers_len ctx (hd ++ body) (8 + len body) e
                      (if e then next_ext else None) in
          Ok k) = true
  ∨ ∃ m, layout m ∧ admitted ctx m
         ∧ body = optional_wire (header m) ++ raw_extension_headers m ++ payload m
         ∧ reserved (header m) = r ∧ ext_hdr_flag (header m) = e
         ∧ seq_num_flag (header m) = s ∧ npdu_num_flag (header m) = n
         ∧ message_type (header m) = mt ∧ teid (header m) = td
         ∧ length_field (header m) = len body.
Proof.
  intros Hh Hb Hl Hr Hmt Htd Hsr. destruct (e || s || n) eqn:Eo.
  - destruct (Z.ltb_spec (len body) 4) as [H4|H4].
    { left. unfold decode_optional_fields. by rewrite (proj2 (Z.ltb_lt _ 4)). }
    destruct body as [|s0 [|s1 [|a [|x rest]]]]; [done..|].
    rewrite !bytes_ok_cons in Hb. destruct Hb as (H0 & H1 & Ha & Hx & Hb).
    change (s0 :: s1 :: a :: x :: rest) with ([s0; s1; a; x] ++ rest) in *.
    rewrite decode_optional_fields_ok by done.
    destruct (strict ctx && e && (x =? 0)) eqn:Ex; [by left|].
    destruct (decode_ext_cases ctx hd s0 s1 a x rest e) as [Hc|(raw & pay & -> & Hc)];
      [done..|left; by destruct (decode_ext_headers_len _ _ _ _ _)|].
    right. apply bytes_ok_app in Hb as [Hbr Hbp].
    exists (decoded r e s n mt (len ([s0; s1; a; x] ++ raw ++ pay)) td
              (Some (u16_from_be_bytes s0 s1)) (Some a) (Some x) raw pay).
    pose proof (optional_wire_decoded r e s n mt (len ([s0; s1; a; x] ++ raw ++ pay)) td
                  s0 s1 a x raw pay Eo H0 H1) as Ho.
    assert (Hq : u16 (u16_from_be_bytes s0 s1)) by (unfold u16, u8, u16_from_be_bytes in *; lia).
    split_and!; try done.
    + split; try done; rewrite ?Ho; unfold decoded, optional_present; cbn; rewrite ?Eo; try done.
      * len_lia.
      * eauto 10.
    + split; cbn; try done. intros Hst -> [= ->]. by rewrite Hst in Ex.
    + by rewrite Ho.
  - right. apply orb_false_iff in Eo as [[-> ->]%orb_false_iff ->].
    exists (decoded r false false false mt (len body) td None None None [] body).
    split_and!; try done; split; try done. constructor.
Qed.

Lemma split_fixed (input : bytes) :
  8 ≤ len input →
  ∃ b1 mt l2 l3 t4 t5 t6 t7 rest, input = [b1; mt; l2; l3; t4; t5; t6; t7] ++ rest.
Proof.
  intros H. destruct input as [|? [|? [|? [|? [|? [|? [|? [|? rest]]]]]]]]; [done..|].
  by eexists _, _, _, _, _, _, _, _, rest.
Qed.

(** The decoder fails, or its input starts with the wire form of an admitted
    message. *)
Lemma decode_cases ctx input :
  bytes_ok input →
  is_err (decode input ctx) = true
  ∨ ∃ m tail, input = wire m ++ tail ∧ layout m ∧ admitted ctx m
              ∧ len input ≤ max_message_len ctx.
Proof.
  intros Hb. destruct (Z.ltb_spec (max_message_len ctx) (len input)) as [Hm|Hm].
  { left. unfold decode. by rewrite (proj2 (Z.ltb_lt _ _)). }
  destruct (Z.ltb_spec (len input) 8) as [H8|H8].
  { left. unfold decode. by rewrite (proj2 (Z.ltb_ge _ _)), (proj2 (Z.ltb_lt _ 8)). }
  destruct (split_fixed input H8) as (b1 & mt & l2 & l3 & t4 & t5 & t6 & t7 & rest & ->).
  pose proof (decode_refuses_fixed b1 mt l2 l3 t4 t5 t6 t7 rest ctx) as Hr. cbv zeta in Hr.
  apply bytes_ok_app in Hb as [Hh Hb]. rewrite !bytes_ok_cons in Hh.
  destruct Hh as (Hb1 & Hmt & H2 & H3 & H4 & H5 & H6 & H7 & _).
  assert (Hl : 0 ≤ u16_from_be_bytes l2 l3 ≤ 65535) by (unfold u8, u16_from_be_bytes in *; lia).
  destruct (decide (Z.land (Z.shiftr b1 5) 7 = 1)) as [Ev|]; [|left; apply Hr; auto].
  destruct (negb (Z.land (Z.shiftr b1 4) 1 =? 0)) eqn:Ep; [|left; apply Hr; auto].
  destruct (strict ctx && _) eqn:Er; [left; apply Hr; auto|].
  destruct (Z.ltb_spec (len rest) (u16_from_be_bytes l2 l3)); [left; apply Hr; auto|].
  destruct (split_at rest (u16_from_be_bytes l2 l3)) as (body & tail & -> & Hbl); [lia|].
  apply bytes_ok_app in Hb as [Hbb _].
  destruct (first_octet_of b1 Hb1 Ev Ep) as [Hb1' Hrr].
  destruct (decode_body_cases ctx [b1; mt; l2; l3; t4; t5; t6; t7] (Z.land (Z.shiftr b1 3) 1)
    (negb (Z.land (Z.shiftr b1 2) 1 =? 0)) (negb (Z.land (Z.shiftr b1 1) 1 =? 0))
    (negb (Z.land b1 1 =? 0)) mt (u32_from_be_bytes t4 t5 t6 t7) body)
    as [He|(m & HL & HA & Ebody & E1 & E2 & E3 & E4 & E5 & E6 & E7)]; try done.
  - lia.
  - unfold u32, u8, u32_from_be_bytes in *; lia.
  - intros Hs. rewrite Hs in Er. cbn in Er. by to_prop.
  - left. rewrite decode_fixed by done. rewrite Hbl in He.
    destruct (decode_optional_fields _ _ _ _ _) as [[[? ?] ?]|?|]; try done.
    by destruct (decode_ext_headers_len _ _ _ _ _).
  - right. exists m, tail. split_and!; [|done..]. unfold wire.
    rewrite E1, E2, E3, E4, E5, E6, E7, <- Hb1', Hbl, u16_to_from, u32_to_from by done.
    cbn [app]. by rewrite Ebody, <- !app_assoc.
Qed.

Lemma decode_iff ctx input tail m :
  bytes_ok input →
  decode input ctx = Ok (tail, m)
  ↔ input = wire m ++ tail ∧ layout m ∧ admitted ctx m ∧ len input ≤ max_message_len ctx.
Proof.
  intros Hb. split; [|intros (-> & HL & HA & Hm); by apply decode_wire].
  intros Hd. destruct (decode_cases ctx input Hb) as [He|(m' & tail' & -> & HL & HA & Hm)].
  - by rewrite Hd in He.
  - by rewrite (decode_wire ctx m' tail') in Hd; [|done..]; simplify_eq.
Qed.
