(* ===== verification/GtpuRoundtrip.v ===== *)
(** The GTP-U message codec as a whole, [crates/opc-proto-gtpu/src/lib.rs]: what the
    encoder writes in its two modes, the round trips between [decode] and [encode],
    and the agreement of the eager decoder with the lazy chain readers. *)
From S2P Require Import Prelude.
From S2P Require Import Protocol.
From S2P Require Import GtpuExtension.
From S2P Require Import GtpuChain.
From S2P Require Import GtpuMessage.

(** ** Encoding *)

(** The body the encoder writes after the fixed header, and the message it stands
    for, in the two modes. *)
Definition fits (ctx : EncodeContext) (l : Z) : Prop := check_capacity ctx l = Ok ().

Definition canonical (m : GtpuMessage) : GtpuMessage :=
  let h := header m in
  let e := negb (default 0 (next_ext_type h) =? 0) in
  let o := e || seq_num_flag h || npdu_num_flag h in
  decoded 0 e (seq_num_flag h) (npdu_num_flag h) (message_type h)
    ((if o then 4 else 0) + len (raw_extension_headers m) + len (payload m)) (teid h)
    (if o then Some (default 0 (sequence_number h)) else None)
    (if o then Some (default 0 (npdu_number h)) else None)
    (if o then Some (default 0 (next_ext_type h)) else None)
    (raw_extension_headers m) (payload m).

Lemma optional_wire_len h : len (optional_wire h) = if optional_present h then 4 else 0.
Proof. unfold optional_wire. by destruct (optional_present h). Qed.

Lemma wire_size m : layout m → len (wire m) = 8 + length_field (header m).
Proof. intros [_ _ _ _ _ Hl _ _ _ _ _ _ _]. unfold wire. rewrite Hl. len_lia. Qed.

Lemma wire_bytes m : layout m → bytes_ok (wire m).
Proof.
  intros [_ _ Hr Ht Hd Hl H16 Ho _ _ _ Hb1 Hb2]. unfold wire.
  destruct (first_octet_bits (ext_hdr_flag (header m)) (seq_num_flag (header m))
    (npdu_num_flag (header m)) (reserved (header m))) as (B0 & B1 & _); [lia|].
  pose proof (len_nonneg (optional_wire (header m))). pose proof (len_nonneg (payload m)).
  pose proof (len_nonneg (raw_extension_headers m)).
  destruct (u16_bytes (length_field (header m))) as (? & ? & -> & ? & ? & _); [unfold u16; lia|].
  destruct (u32_bytes _ Hd) as (? & ? & ? & ? & -> & ? & ? & ? & ? & _).
  rewrite !bytes_ok_app, !bytes_ok_cons. split_and!; try done; try constructor.
  unfold optional_wire. destruct (optional_present _); [|constructor].
  destruct Ho as (q & a & nx & -> & Hq & -> & Ha & -> & Hx).
  destruct (u16_bytes _ Hq) as (? & ? & Eq & ? & ? & _). unfold default, id. rewrite Eq.
  cbn [app]. rewrite !bytes_ok_cons. split_and!; try done; constructor.
Qed.

(** The optional octets and the first octet the encoder writes. *)
Definition written_optional (m : GtpuMessage) (ctx : EncodeContext) : bytes :=
  let h := header m in
  let '(e, s, n) := presence m ctx in
  if e || s || n then
    if raw_preserving ctx then
      u16_to_be_bytes (default (default 0 (sequence_number h)) (raw_sequence_number h))
      ++ [default (default 0 (npdu_number h)) (raw_npdu_number h);
          default (default 0 (next_ext_type h)) (raw_next_ext_type h)]
    else
      u16_to_be_bytes (default 0 (sequence_number h))
      ++ [default 0 (npdu_number h); default 0 (next_ext_type h)]
  else [].

Lemma written_optional_len m ctx :
  len (written_optional m ctx)
  = let '(e, s, n) := presence m ctx in if e || s || n then 4 else 0.
Proof.
  unfold written_optional. destruct (presence m ctx) as [[e s] n].
  by destruct (e || s || n), (raw_preserving ctx).
Qed.

Definition written_reserved (m : GtpuMessage) (ctx : EncodeContext) : Z :=
  if raw_preserving ctx then reserved (header m) else 0.

Lemma encode_first_octet (e s n : bool) : ∀ r, 0 ≤ r < 2 →
  let b := Z.lor (Z.lor 0x20 0x10) (Z.land (Z.shiftl (Z.land r 1) 3) 255) in
  let b := if e then Z.lor b 4 else b in
  let b := if s then Z.lor b 2 else b in
  (if n then Z.lor b 1 else b) = first_octet r e s n.
Proof. destruct e, s, n; by_enum 2%nat. Qed.

(** [encode] past the capacity check: everything is written when the length field
    can hold the body; otherwise the two octets before it are left behind. *)
Lemma encode_eq m dst ctx e s n :
  version (header m) = 1 → protocol_type (header m) = true →
  (reserved (header m) = 0 ∨ reserved (header m) = 1) →
  presence m ctx = (e, s, n) →
  let body := len (written_optional m ctx) + len (raw_extension_headers m) + len (payload m) in
  8 + body ≤ USIZE_MAX → fits ctx (8 + body) →
  encode m dst ctx
  = (let hd := [first_octet (written_reserved m ctx) e s n; message_type (header m)] in
     if 65535 <? body then (dst ++ hd, Err overflow_5_1)
     else (dst ++ hd ++ u16_to_be_bytes body ++ u32_to_be_bytes (teid (header m))
               ++ written_optional m ctx ++ raw_extension_headers m ++ payload m, Ok ())).
Proof.
  intros Hv Hp Hr Hpr body Hu Hf.
  pose proof (len_nonneg (raw_extension_headers m)). pose proof (len_nonneg (payload m)).
  pose proof (written_optional_len m ctx) as Ho. rewrite Hpr in Ho.
  assert (Hw : wire_len m ctx = Ok (8 + body)).
  { unfold wire_len. rewrite Hpr. destruct (e || s || n); unfold ok_or;
      rewrite !checked_add_ok by (unfold USIZE_MAX in *; lia); f_equal; lia. }
  unfold encode. rewrite Hw, Hf, Hpr, checked_sub_ok by (subst body; destruct (e || s || n); lia).
  replace (8 + body - 8) with body by lia. rewrite Hv, Hp.
  unfold written_reserved, written_optional. rewrite Hpr.
  pose proof (encode_first_octet e s n (reserved (header m)) ltac:(lia)) as Hb1.
  pose proof (encode_first_octet e s n 0 ltac:(lia)) as Hb0.
  destruct (raw_preserving ctx);
    [change (Z.lor (Z.land (Z.shiftl (Z.land 1 7) 5) 255) 16) with (Z.lor 32 16)
    |change 48 with (Z.lor (Z.lor 32 16) (Z.land (Z.shiftl (Z.land 0 1) 3) 255))];
    cbv zeta in Hb1, Hb0; rewrite ?Hb1, ?Hb0;
    destruct (65535 <? body), (e || s || n); cbn [app]; try done;
    by rewrite <- !app_assoc.
Qed.

Lemma encode_raw_wire m dst ctx :
  layout m → raw_preserving ctx = true → fits ctx (len (wire m)) →
  encode m dst ctx = (dst ++ wire m, Ok ()).
Proof.
  intros HL Hr Hf. rewrite wire_size in Hf by done.
  destruct HL as [Hv Hp Hres Ht Hd Hl H16 Ho Hs Hn Hx _ _].
  assert (Hw : written_optional m ctx = optional_wire (header m)).
  { unfold written_optional, optional_wire, presence. rewrite Hr.
    fold (optional_present (header m)). destruct (optional_present (header m)); [|done].
    by destruct Ho as (q & a & x & -> & Hq & -> & Ha & -> & _). }
  rewrite (encode_eq m dst ctx _ _ _ Hv Hp Hres
             ltac:(unfold presence; rewrite Hr; reflexivity)); rewrite Hw, <- Hl.
  - rewrite (proj2 (Z.ltb_ge 65535 _)) by done. unfold written_reserved. by rewrite Hr.
  - unfold USIZE_MAX. lia.
  - done.
Qed.

(** In an admitted message the chain is empty exactly when its first type is 0. *)
Lemma admitted_next ctx m :
  layout m → admitted ctx m →
  (match raw_extension_headers m with [] => false | _ => true end
   || negb (default 0 (next_ext_type (header m)) =? 0))
  = negb (default 0 (next_ext_type (header m)) =? 0).
Proof.
  intros HL HA. pose proof (l_next _ HL) as Hx. pose proof (a_chain _ _ HA) as Hc. rewrite Hx.
  destruct (ext_hdr_flag (header m)); [|by rewrite Hc].
  destruct Hc as (hs & Hch & _). destruct (raw_extension_headers m) eqn:Er; [done|].
  destruct (_ =? 0) eqn:E; [|done]. to_prop. rewrite E in Hch. by inversion Hch.
Qed.

Lemma flag_default (b : bool) (o : option Z) s :
  o = Some s → (match (if b then o else None) with Some _ => true | None => false end) = b.
Proof. by intros ->; destruct b. Qed.

Lemma canonical_presence ctx m :
  layout m → admitted ctx m →
  ∀ ectx, raw_preserving ectx = false →
  presence m ectx = (negb (default 0 (next_ext_type (header m)) =? 0),
                     seq_num_flag (header m), npdu_num_flag (header m)).
Proof.
  intros HL HA ectx Hr. unfold presence. rewrite Hr, (admitted_next ctx) by done.
  rewrite (l_sequence _ HL), (l_npdu _ HL). pose proof (l_optional _ HL) as Ho.
  unfold optional_present in Ho.
  destruct (ext_hdr_flag _), (seq_num_flag _), (npdu_num_flag _); cbn in Ho |- *;
    try done; destruct Ho as (? & ? & ? & E1 & _ & E2 & _); by rewrite ?E1, ?E2.
Qed.

Lemma canonical_length m :
  layout m → length_field (header (canonical m)) ≤ length_field (header m).
Proof.
  intros HL. rewrite (l_length _ HL), optional_wire_len.
  unfold canonical, decoded, optional_present; cbn. rewrite (l_next _ HL).
  destruct (ext_hdr_flag _), (seq_num_flag _), (npdu_num_flag _); cbn;
    repeat case_match; lia.
Qed.

Lemma canonical_layout ctx m : layout m → admitted ctx m → layout (canonical m).
Proof.
  intros HL HA. pose proof (canonical_length m HL) as Hcl.
  destruct HL as [Hv Hp Hres Ht Hd Hl H16 Ho Hs Hn Hx Hb1 Hb2].
  assert (Hcs : u16 (default 0 (sequence_number (header m)))
                ∧ u8 (default 0 (npdu_number (header m)))
                ∧ u8 (default 0 (next_ext_type (header m)))).
  { rewrite Hs, Hn, Hx. unfold optional_present in Ho.
    destruct (ext_hdr_flag _), (seq_num_flag _), (npdu_num_flag _); cbn in Ho |- *;
      try done; destruct Ho as (? & ? & ? & E1 & ? & E2 & ? & E3 & ?);
      by rewrite ?E1, ?E2, ?E3. }
  destruct Hcs as (Hcs & Hcn & Hcx).
  split; unfold canonical in *; cbn -[optional_wire Z.add]; try done; try auto.
  - rewrite optional_wire_len. by unfold optional_present; cbn.
  - cbn in Hcl. lia.
  - unfold optional_present; cbn. case_match; [eauto 10|done].
Qed.

Lemma canonical_admitted ctx m : layout m → admitted ctx m → admitted ctx (canonical m).
Proof.
  intros HL HA. pose proof (l_next _ HL) as Hx. destruct HA as [Hr Hn Hc].
  split; unfold canonical; cbn.
  - done.
  - intros _ E. rewrite E. cbn. to_prop. congruence.
  - rewrite Hx in *. destruct (ext_hdr_flag _); cbn; [|done].
    destruct Hc as (hs & Hch & Ha). destruct (_ =? 0) eqn:E; cbn; [|eauto].
    to_prop. rewrite E in Hch. by inversion Hch.
Qed.

Lemma canonical_idem m : layout m → canonical (canonical m) = canonical m.
Proof.
  intros HL. pose proof (l_sequence _ HL) as Hs. pose proof (l_npdu _ HL) as Hn.
  unfold canonical, decoded; cbn.
  destruct (default 0 (next_ext_type (header m)) =? 0) eqn:E; cbn; rewrite Hs, Hn;
    destruct (seq_num_flag _), (npdu_num_flag _); cbn; rewrite ?E; cbn; try done;
    apply Z.eqb_eq in E; by rewrite E.
Qed.

Lemma encode_canonical_wire ctx m dst ectx :
  layout m → admitted ctx m → raw_preserving ectx = false →
  fits ectx (len (wire (canonical m))) →
  encode m dst ectx = (dst ++ wire (canonical m), Ok ()).
Proof.
  intros HL HA Hr Hf. pose proof (canonical_layout ctx m HL HA) as HL'.
  pose proof (l_length_u16 _ HL') as H16. pose proof (l_length _ HL') as Hl.
  rewrite wire_size in Hf by done.
  assert (Hw : written_optional m ectx = optional_wire (header (canonical m))).
  { unfold written_optional. rewrite (canonical_presence ctx), Hr by done.
    unfold optional_wire, optional_present, canonical, decoded; cbn. by case_match. }
  pose proof (canonical_presence ctx m HL HA ectx Hr) as Hpr.
  destruct HL as [Hv Hp Hres _ _ _ _ _ _ _ _ _ _].
  change (raw_extension_headers (canonical m)) with (raw_extension_headers m) in Hl.
  change (payload (canonical m)) with (payload m) in Hl.
  rewrite (encode_eq m dst ectx _ _ _ Hv Hp Hres Hpr); rewrite Hw, <- Hl;
    [|unfold USIZE_MAX; lia|done].
  rewrite (proj2 (Z.ltb_ge 65535 _)) by done. unfold written_reserved. by rewrite Hr.
Qed.

Lemma canonical_len ctx m : layout m → admitted ctx m → len (wire (canonical m)) ≤ len (wire m).
Proof.
  intros HL HA. rewrite !wire_size by (done || by apply (canonical_layout ctx)).
  pose proof (canonical_length m HL). lia.
Qed.

(** The optional fields whose flag is set survive canonical encoding. *)
Lemma canonical_fields m :
  layout m →
  sequence_number (header (canonical m)) = sequence_number (header m)
  ∧ npdu_number (header (canonical m)) = npdu_number (header m).
Proof.
  intros HL. pose proof (l_optional _ HL) as Ho. rewrite (l_sequence _ HL), (l_npdu _ HL).
  unfold canonical, decoded, optional_present in *; cbn. rewrite (l_sequence _ HL), (l_npdu _ HL).
  destruct (ext_hdr_flag _), (seq_num_flag _), (npdu_num_flag _); cbn in Ho |- *;
    try done; destruct Ho as (? & ? & ? & E1 & ? & E2 & ?); rewrite ?E1, ?E2; cbn;
    by rewrite ?orb_true_r.
Qed.

(** ** Properties *)

(** C4.  The eager decoder is total and exact.  On any octets it returns a message
    or an error, never panicking and never running forever; and it returns message
    [m] with remainder [tail] precisely when the input is the wire form of [m]
    followed by [tail], [m]'s fields are consistent, the context admits [m]
    (reserved bit, first extension type, chain well formed within the depth and
    count limits, every header accepted) and the input is within the message
    limit. *)
Theorem decode_spec ctx input :
  bytes_ok input →
  returns (decode input ctx)
  ∧ ∀ tail m, decode input ctx = Ok (tail, m)
      ↔ input = wire m ++ tail ∧ layout m ∧ admitted ctx m
        ∧ len input ≤ max_message_len ctx.
Proof.
  intros Hb. split; [|intros tail m; by apply decode_iff].
  destruct (decode_cases ctx input Hb) as [He|(m & tail & -> & HL & HA & Hm)].
  - by destruct (decode input ctx).
  - by rewrite decode_wire.
Qed.

(** A sample G-PDU: sequence number, a PDU Session Container and two payload octets. *)
Definition sample : bytes :=
  [0x36; 0xff; 0; 10; 0; 0; 0; 7; 0x12; 0x34; 0; 0x85; 1; 0x10; 9; 0; 0xaa; 0xbb].

Definition sample_ctx : DecodeContext := DecodeContext_default.

Lemma sample_bytes : bytes_ok sample.
Proof. repeat constructor; done. Qed.

Definition sample_message : GtpuMessage :=
  decoded 0 true true false 0xff 10 7 (Some 0x1234) (Some 0) (Some 0x85)
    [1; 0x10; 9; 0] [0xaa; 0xbb].

Lemma decode_spec_witness :
  decode (sample ++ [1; 2]) sample_ctx = Ok ([1; 2], sample_message)
  ∧ layout sample_message ∧ admitted sample_ctx sample_message.
Proof.
  assert (Hd : decode (sample ++ [1; 2]) sample_ctx = Ok ([1; 2], sample_message))
    by by vm_compute.
  assert (Hb : bytes_ok (sample ++ [1; 2])) by (repeat constructor; done).
  split; [done|].
  destruct (proj1 (proj2 (decode_spec sample_ctx (sample ++ [1; 2]) Hb) [1; 2] sample_message) Hd)
    as (_ & HL & HA & _).
  done.
Defined.

(** C5.  Raw-preserving encoding is the inverse of decoding: encoding a decoded
    message reproduces, octet for octet, the part of the input that the decoder
    consumed, spare bits and unused optional fields included. *)
Theorem raw_preserving_roundtrip ctx ectx input tail m dst :
  bytes_ok input → decode input ctx = Ok (tail, m) →
  raw_preserving ectx = true → len input ≤ encode_max_message_len ectx →
  ∃ consumed, input = consumed ++ tail ∧ encode m dst ectx = (dst ++ consumed, Ok ()).
Proof.
  intros Hb Hd Hr Hc. apply decode_iff in Hd as (-> & HL & HA & Hm); [|done].
  exists (wire m). split; [done|]. apply encode_raw_wire; [done..|].
  unfold fits, check_capacity. by rewrite (proj2 (Z.ltb_ge _ _)) by len_lia.
Qed.

Definition raw_ctx : EncodeContext :=
  {| encode_protocol_version := 1; raw_preserving := true; encode_max_message_len := 65535 |}.

Lemma raw_preserving_roundtrip_witness :
  ∃ consumed, sample ++ [1; 2] = consumed ++ [1; 2]
              ∧ encode sample_message [5] raw_ctx = ([5] ++ consumed, Ok ()).
Proof.
  apply (raw_preserving_roundtrip sample_ctx raw_ctx (sample ++ [1; 2]) [1; 2]
           sample_message [5]); [repeat constructor; done|by vm_compute..].
Defined.

(** C6.  Canonical encoding is a normal form: the canonical octets of a decoded
    message are accepted by the same context with nothing left over, are no longer
    than what was consumed, have the reserved bit cleared and keep the identity of
    the packet (type, tunnel, sequence and N-PDU numbers, extension chain,
    payload), and encoding the message read back gives the same octets again. *)
Theorem canonical_roundtrip ctx ectx input tail m :
  bytes_ok input → decode input ctx = Ok (tail, m) →
  raw_preserving ectx = false → len input ≤ encode_max_message_len ectx →
  ∃ out m', encode m [] ectx = (out, Ok ()) ∧ len out + len tail ≤ len input
    ∧ decode out ctx = Ok ([], m') ∧ encode m' [] ectx = (out, Ok ())
    ∧ reserved (header m') = 0
    ∧ message_type (header m') = message_type (header m)
    ∧ teid (header m') = teid (header m)
    ∧ sequence_number (header m') = sequence_number (header m)
    ∧ npdu_number (header m') = npdu_number (header m)
    ∧ raw_extension_headers m' = raw_extension_headers m ∧ payload m' = payload m.
Proof.
  intros Hb Hd Hr Hc. apply decode_iff in Hd as (-> & HL & HA & Hm); [|done].
  pose proof (canonical_layout ctx m HL HA) as HL'.
  pose proof (canonical_admitted ctx m HL HA) as HA'.
  pose proof (canonical_len ctx m HL HA) as Hlen. autorewrite with len in *.
  pose proof (len_nonneg tail).
  assert (Hf : fits ectx (len (wire (canonical m)))).
  { unfold fits, check_capacity. by rewrite (proj2 (Z.ltb_ge _ _)) by lia. }
  exists (wire (canonical m)), (canonical m). split_and!; try done.
  - by apply (encode_canonical_wire ctx).
  - lia.
  - rewrite <- (app_nil_r (wire (canonical m))). apply decode_wire; [done..|].
    rewrite app_nil_r. lia.
  - rewrite (encode_canonical_wire ctx) by (done || by rewrite canonical_idem).
    by rewrite canonical_idem.
  - by apply canonical_fields.
  - by apply canonical_fields.
Qed.

(** A packet with the reserved bit set and an extension flag with no extension. *)
Definition sloppy : bytes := [0x3e; 0xff; 0; 5; 0; 0; 0; 7; 0x12; 0x34; 9; 0; 0xaa].

Lemma canonical_roundtrip_witness :
  ∃ m out m', decode sloppy DecodeContext_default = Ok ([], m)
    ∧ encode m [] EncodeContext_default = (out, Ok ()) ∧ len out + len (@nil Z) ≤ len sloppy
    ∧ decode out DecodeContext_default = Ok ([], m')
    ∧ encode m' [] EncodeContext_default = (out, Ok ())
    ∧ reserved (header m') = 0.
Proof.
  eexists. destruct (canonical_roundtrip DecodeContext_default EncodeContext_default sloppy []
    (decoded 1 true true false 255 5 7 (Some 0x1234) (Some 9) (Some 0) [] [0xaa]))
    as (out & m' & ? & ? & ? & ? & ? & _);
    [repeat constructor; done|by vm_compute..|].
  exists out, m'. split_and!; try done.
Defined.

(** ** Endpoint procedures *)

(** The chain of an admitted message, as the lazy iterator reads it. *)
Lemma admitted_chain ctx m :
  layout m → admitted ctx m →
  ∃ hs, ext_chain (default 0 (next_ext_type (header m))) hs (raw_extension_headers m)
        ∧ chain_accepted ctx 0 0 hs.
Proof.
  intros HL [_ _ Hc]. rewrite (l_next _ HL). destruct (ext_hdr_flag (header m)); [done|].
  rewrite Hc. exists []. split; [constructor|done].
Qed.

Lemma accepted_container ctx hs :
  validation_level ctx = ProcedureAware → forallb (header_accepted ctx) hs = true →
  (count_type GTPU_EXT_PDU_SESSION_CONTAINER (parts hs) ≤ 1)%nat →
  ∃ psc, container_of (parts hs) psc.
Proof.
  intros Hv. unfold container_of, count_type. induction hs as [|h hs IH]; cbn [forallb].
  - intros _ _. cbn. eauto.
  - intros [Hh Hhs]%andb_true_iff. rewrite parts_cons. cbn [List.filter].
    destruct (has_type _ _) eqn:E; [|by auto]. cbn [List.length]. intros Hl.
    destruct (List.filter _ (parts hs)); [|cbn in Hl; lia].
    unfold header_accepted in Hh. rewrite bool_decide_true in Hh by done.
    unfold has_type in E; cbn [fst] in E. change 133 with GTPU_EXT_PDU_SESSION_CONTAINER in Hh.
    rewrite E in Hh. cbn [negb orb andb] in Hh. apply andb_true_iff in Hh as [_ Hh].
    destruct h as [t c n]; cbn [ext_type content] in *.
    change (psc_decode_with_reason _) with (psc_decode_with_reason (as_header (t, c))) in Hh.
    destruct (psc_decode_with_reason _) as [k|?|]; [|done..]. eauto.
Qed.

Lemma accepted_comprehended ctx hs :
  validation_level ctx = ProcedureAware → unknown_ie_policy ctx = UnknownReject →
  forallb (header_accepted ctx) hs = true →
  forallb fixed_length_ok hs = true ∧ first_unsupported hs Endpoint = None.
Proof.
  intros Hv Hu. unfold first_unsupported. induction hs as [|h hs IH]; [done|].
  cbn [forallb fmap list_fmap List.find]. intros [Hh Hhs]%andb_true_iff.
  unfold header_accepted in Hh. rewrite !bool_decide_true in Hh by done.
  destruct (fixed_length_ok h), (unsupported_requires_comprehension_by _ _); cbn in Hh; try done.
  by apply IH.
Qed.

(**  The eager decoder and the lazy readers agree.  A message accepted at
    procedure-aware level under the reject policy is one the endpoint comprehends
    completely: the lazy scan finds no unsupported required extension, and the
    chain summary succeeds unless the packet carries two PDU Session Containers,
    with as many headers as the limits allow. *)
Theorem procedure_aware_comprehended ctx input tail m :
  bytes_ok input → decode input ctx = Ok (tail, m) →
  validation_level ctx = ProcedureAware → unknown_ie_policy ctx = UnknownReject →
  message_first_unsupported_required_extension m Endpoint = Ok None
  ∧ ∃ hs, ext_chain (iter_next_ext_type (extensions m)) hs (raw_extension_headers m)
      ∧ (hs ≠ [] → len hs ≤ max_depth ctx ∧ len hs ≤ max_ies ctx)
      ∧ ((count_type GTPU_EXT_PDU_SESSION_CONTAINER (parts hs) ≤ 1)%nat →
         ∃ c, from_message m = Ok c ∧ chain_of hs c).
Proof.
  intros Hb Hd Hv Hu. apply decode_iff in Hd as (-> & HL & HA & Hm); [|done].
  destruct (admitted_chain ctx m HL HA) as (hs & Hch & Hlim & Hacc).
  destruct (accepted_comprehended ctx hs Hv Hu Hacc) as [Hfix Hnone].
  assert (Hnx : (if ext_hdr_flag (header m) then next_ext_type (header m) else None)
                = next_ext_type (header m)).
  { rewrite (l_next _ HL). by destruct (ext_hdr_flag (header m)). }
  unfold message_first_unsupported_required_extension, extensions, from_message.
  rewrite Hnx. cbn [iter_next_ext_type]. split.
  { apply first_unsupported_required_extension_iff; [apply HL|]. eauto. }
  exists hs. split_and!; [done| |].
  { intros Hne. specialize (Hlim Hne). lia. }
  intros Hct. destruct (accepted_container ctx hs Hv Hacc Hct) as [psc Hc].
  pose proof (l_length _ HL) as Hl. pose proof (l_length_u16 _ HL).
  pose proof (len_nonneg (payload m)). pose proof (len_nonneg (optional_wire (header m))).
  set (f := match next_ext_type (header m) with Some _ => _ | None => None end).
  assert (Hco : chain_of hs {| first_extension_type := f; raw_headers := raw_extension_headers m;
                               header_count := len hs; pdu_session_container := psc |}).
  { exists (default 0 (next_ext_type (header m))). split_and!; try done. cbn. unfold f.
    destruct (next_ext_type (header m)) as [x|]; [|done]. cbn. by destruct (x =? 0). }
  eexists. split; [|done]. apply from_raw_iff; [apply HL|unfold USIZE_MAX; lia|]. eauto.
Qed.

Definition procedure_ctx : DecodeContext :=
  {| protocol_version := 1; max_depth := 8; max_ies := 128; max_message_len := 8192;
     unknown_ie_policy := UnknownReject; duplicate_ie_policy := DuplicateReject;
     validation_level := ProcedureAware; allocation_budget := FAST_PATH |}.

Lemma procedure_aware_comprehended_witness :
  message_first_unsupported_required_extension sample_message Endpoint = Ok None
  ∧ ∃ hs, ext_chain (iter_next_ext_type (extensions sample_message)) hs
            (raw_extension_headers sample_message)
      ∧ (hs ≠ [] → len hs ≤ 8 ∧ len hs ≤ 128)
      ∧ ((count_type GTPU_EXT_PDU_SESSION_CONTAINER (parts hs) ≤ 1)%nat →
         ∃ c, from_message sample_message = Ok c ∧ chain_of hs c).
Proof.
  apply (procedure_aware_comprehended procedure_ctx sample [] sample_message sample_bytes);
    by vm_compute.
Defined.

(** The first octet of any header: three bits of version, the protocol type, one reserved
    bit and the three presence flags; a canonical encoding writes version 1. *)
Definition written_first (m : GtpuMessage) (ctx : EncodeContext) : Z :=
  let h := header m in
  let '(e, s, n) := presence m ctx in
  (if raw_preserving ctx
   then 32 * (version h mod 8) + 16 * Z.b2z (protocol_type h) + 8 * (reserved h mod 2)
   else 48)
  + 4 * Z.b2z e + 2 * Z.b2z s + Z.b2z n.

Lemma any_first_octet (p e s n : bool) v r :
  let b := Z.lor (Z.lor (Z.land (Z.shiftl (Z.land v 0x07) 5) 0xff) (if p then 0x10 else 0))
             (Z.land (Z.shiftl (Z.land r 0x01) 3) 0xff) in
  let b := if e then Z.lor b 0x04 else b in
  let b := if s then Z.lor b 0x02 else b in
  (if n then Z.lor b 0x01 else b)
  = 32 * (v mod 8) + 16 * Z.b2z p + 8 * (r mod 2) + 4 * Z.b2z e + 2 * Z.b2z s + Z.b2z n.
Proof.
  change 0x07 with (Z.ones 3). change (Z.land r 0x01) with (Z.land r (Z.ones 1)).
  rewrite !Z.land_ones by lia. change (2 ^ 3) with 8. change (2 ^ 1) with 2.
  pose proof (Z.mod_pos_bound v 8 ltac:(lia)). pose proof (Z.mod_pos_bound r 2 ltac:(lia)).
  assert (v mod 8 = 0 ∨ v mod 8 = 1 ∨ v mod 8 = 2 ∨ v mod 8 = 3
          ∨ v mod 8 = 4 ∨ v mod 8 = 5 ∨ v mod 8 = 6 ∨ v mod 8 = 7) as Hv by lia.
  assert (r mod 2 = 0 ∨ r mod 2 = 1) as [->| ->] by lia;
    destruct Hv as [->|[->|[->|[->|[->|[->|[->| ->]]]]]]]; by destruct p, e, s, n.
Qed.

(** The octets of the message by the sizes of its parts, as integers without bounds. *)
Definition encoded_size (m : GtpuMessage) (ctx : EncodeContext) : Z :=
  8 + len (written_optional m ctx) + len (raw_extension_headers m) + len (payload m).

Definition encoded (m : GtpuMessage) (ctx : EncodeContext) : bytes :=
  [written_first m ctx; message_type (header m)]
  ++ u16_to_be_bytes (encoded_size m ctx - 8) ++ u32_to_be_bytes (teid (header m))
  ++ written_optional m ctx ++ raw_extension_headers m ++ payload m.

Lemma wire_len_exact m ctx :
  wire_len m ctx
  = if encoded_size m ctx <=? USIZE_MAX then Ok (encoded_size m ctx) else Err overflow_5_1.
Proof.
  pose proof (len_nonneg (raw_extension_headers m)). pose proof (len_nonneg (payload m)).
  unfold wire_len, encoded_size. rewrite written_optional_len.
  destruct (presence m ctx) as [[e s] n]. unfold checked_add.
  set (x := if e || s || n then 4 else 0).
  assert ((if e || s || n then ok_or (if 8 + 4 <=? USIZE_MAX then Some (8 + 4) else None) overflow_5_1
           else Ok 8) = Ok (8 + x)) as -> by (subst x; by destruct (e || s || n)).
  destruct (Z.leb_spec (8 + x + len (raw_extension_headers m)) USIZE_MAX) as [|Hgt]; cbn [ok_or].
  - by destruct (_ <=? _).
  - by rewrite (proj2 (Z.leb_gt _ _)) by lia.
Qed.

(** C39.  Every outcome of the encoder, for every message, destination and context, by the
    size of the encoding: a size that overflows the machine word or exceeds the capacity of
    the context is refused with the destination untouched; a body the 16-bit length field
    cannot hold is refused after the first two octets have been appended, a partial write
    the contract of the trait advises against; otherwise the call succeeds and appends
    exactly the header, the optional octets, the extension headers and the payload, and
    [wire_len] is their number. *)
Theorem encode_outcomes m dst ctx :
  let size := encoded_size m ctx in
  wire_len m ctx = (if size <=? USIZE_MAX then Ok size else Err overflow_5_1)
  ∧ encode m dst ctx
    = (if USIZE_MAX <? size then (dst, Err overflow_5_1)
       else if encode_max_message_len ctx <? size
       then (dst, Err (EncodeError_new (CapacityExceeded size (encode_max_message_len ctx))))
       else if 65543 <? size
       then (dst ++ [written_first m ctx; message_type (header m)], Err overflow_5_1)
       else (dst ++ encoded m ctx, Ok ()))
  ∧ len (encoded m ctx) = size.
Proof.
  intros size. split; [apply wire_len_exact|]. split; cycle 1.
  { unfold encoded, size, encoded_size. len_lia. }
  unfold encode. rewrite wire_len_exact. fold size. rewrite Z.ltb_antisym.
  destruct (size <=? USIZE_MAX); [|done]. cbn [negb]. unfold check_capacity.
  destruct (_ <? size); [done|].
  pose proof (len_nonneg (written_optional m ctx)). pose proof (len_nonneg (raw_extension_headers m)).
  pose proof (len_nonneg (payload m)). rewrite checked_sub_ok by (unfold size, encoded_size; lia).
  replace (65543 <? size) with (65535 <? size - 8) by (apply Bool.eq_iff_eq_true; rewrite !Z.ltb_lt; lia).
  unfold encoded, written_first, written_optional. fold size.
  destruct (presence m ctx) as [[e s] n].
  pose proof (any_first_octet (protocol_type (header m)) e s n (version (header m)) (reserved (header m))) as Hb.
  assert (Hc : (let b := 0x30 in let b := if e then Z.lor b 0x04 else b in
                let b := if s then Z.lor b 0x02 else b in if n then Z.lor b 0x01 else b)
               = 48 + 4 * Z.b2z e + 2 * Z.b2z s + Z.b2z n) by (by destruct e, s, n).
  cbv zeta in Hb, Hc.
  destruct (raw_preserving ctx); cbv zeta; rewrite ?Hb, ?Hc; destruct (65535 <? size - 8), (e || s || n);
    try done; by rewrite <- !app_assoc.
Qed.
