(* ===== verification/GtpuControl.v ===== *)
(** Model of the typed GTP-U path and tunnel management messages,
    [crates/opc-proto-gtpu/src/control.rs]: the message types with their builders,
    the receiver (generic frame checks, extension headers, information elements)
    and the canonical sender.  Definitions only; the theorems are in
    [GtpuControlRefs] and [GtpuControlRoundtrip]. *)
From S2P Require Import Prelude.
From S2P Require Import Protocol.
From S2P Require Import GtpuExtension.
From S2P Require Import GtpuChain.
From S2P Require Import GtpuMessage.

Definition GTPU_MESSAGE_ECHO_REQUEST : Z := 1.
Definition GTPU_MESSAGE_ECHO_RESPONSE : Z := 2.
Definition GTPU_MESSAGE_ERROR_INDICATION : Z := 26.
Definition GTPU_MESSAGE_SUPPORTED_EXTENSION_HEADERS_NOTIFICATION : Z := 31.
Definition GTPU_MESSAGE_TUNNEL_STATUS : Z := 253.
Definition GTPU_MESSAGE_END_MARKER : Z := 254.

Definition IE_RECOVERY : Z := 14.
Definition IE_TEID_DATA_I : Z := 16.
Definition IE_GTPU_PEER_ADDRESS : Z := 133.
Definition IE_EXTENSION_HEADER_TYPE_LIST : Z := 141.
Definition IE_GTPU_TUNNEL_STATUS : Z := 230.
Definition IE_RECOVERY_TIME_STAMP : Z := 231.
Definition IE_PRIVATE_EXTENSION : Z := 255.
Definition MAX_CONTROL_IES : Z := 256.

(** ** Errors

    A constructor carries [Control] where another part of the crate already uses
    its name. *)

Inductive GtpuControlCodecErrorCode :=
| Framing (code : DecodeErrorCode)
| UnsupportedMessageType (message_type : Z)
| ControlTrailingBytes
| InvalidHeaderFlags
| InvalidHeaderTeid
| UnsupportedRequiredExtension (extension_type : Z)
| UnexpectedExtension (extension_type : Z)
| InvalidExtensionLength
| MalformedExtensionChain (reason : GtpuExtensionChainMalformedReason)
| ControlMalformedPduSessionContainer (reason : PduSessionContainerError)
| ControlDuplicatePduSessionContainer
| TruncatedIe
| InvalidIeLength (ie_type : Z)
| UnknownTvIe (ie_type : Z)
| UnknownIe (ie_type : Z)
| UnexpectedIe (ie_type : Z)
| ControlDuplicateIe (ie_type : Z)
| MissingMandatoryIe (ie_type : Z)
| IesOutOfOrder
| ControlIeCountExceeded
| InvalidIeValue (ie_type : Z)
| InvalidModel
| ControlLengthOverflow
| ControlCapacityExceeded.

Record GtpuControlCodecError := {
  control_code : GtpuControlCodecErrorCode;
  control_offset : Z;
}.

Definition ControlError_new (code : GtpuControlCodecErrorCode) (offset : Z)
    : GtpuControlCodecError :=
  {| control_code := code; control_offset := offset |}.

Definition missing (ie_type datagram_end : Z) : GtpuControlCodecError :=
  ControlError_new (MissingMandatoryIe ie_type) datagram_end.

Definition control_invalid_length (ie_type offset : Z) : GtpuControlCodecError :=
  ControlError_new (InvalidIeLength ie_type) offset.

Definition invalid_value (ie_type offset : Z) : GtpuControlCodecError :=
  ControlError_new (InvalidIeValue ie_type) offset.

Definition framing (code : DecodeErrorCode) (offset : Z) : GtpuControlCodecError :=
  ControlError_new (Framing code) offset.

Definition control_length_overflow : GtpuControlCodecError :=
  ControlError_new ControlLengthOverflow 0.

Abbreviation control_fail code off := (Err (ControlError_new code off)).

(** ** Information elements *)

Definition GtpuTunnelEndpointId : Type := Z.

(** [GtpuRecovery] is a unit struct: the restart counter is never kept. *)
Definition GtpuRecovery : Type := ().

Record GtpuRecoveryTimeStamp := {
  seconds_since_1900 : Z;
  rts_additional_data : bytes;
}.

Definition GtpuRecoveryTimeStamp_new (seconds : Z) : GtpuRecoveryTimeStamp :=
  {| seconds_since_1900 := seconds; rts_additional_data := [] |}.

Record GtpuTunnelStatusInformation := {
  spoc : bool;
  received_spare : Z;
  tsi_additional_data : bytes;
}.

Definition GtpuTunnelStatusInformation_new (spoc : bool) : GtpuTunnelStatusInformation :=
  {| spoc := spoc; received_spare := 0; tsi_additional_data := [] |}.

Record GtpuPrivateExtension := {
  extension_identifier : Z;
  private_value : bytes;
}.

Record GtpuUnknownControlIe := {
  unknown_ie_type : Z;
  unknown_value : bytes;
}.

(** [IpAddr] by its octets. *)
Inductive IpAddr :=
| IpV4 (octets : bytes)
| IpV6 (octets : bytes).

Definition GtpuPeerAddress : Type := IpAddr.

Definition GtpuExtensionHeaderTypeList : Type := list Z.

(** The loop of [GtpuExtensionHeaderTypeList::new]. *)
Fixpoint header_types_from (seen : list bool) (count : Z) (types : list Z)
    : outcome GtpuControlCodecError () :=
  match types with
  | [] => Ok ()
  | value :: types =>
      let? already := (if value =? 0 then Ok true else idx seen value) in
      if (value =? 0) || already || (count =? 255)
      then Err (invalid_value IE_EXTENSION_HEADER_TYPE_LIST 0)
      else header_types_from (<[Z.to_nat value := true]> seen) (count + 1) types
  end.

Definition GtpuExtensionHeaderTypeList_new (types : list Z)
    : outcome GtpuControlCodecError GtpuExtensionHeaderTypeList :=
  let? _ := header_types_from (replicate 256 false) 0 types in
  Ok types.

Record OptionalControlIes := {
  recovery_time_stamp : option GtpuRecoveryTimeStamp;
  private_extensions : list GtpuPrivateExtension;
  unknown_ies : list GtpuUnknownControlIe;
}.

Definition optional_default : OptionalControlIes :=
  {| recovery_time_stamp := None; private_extensions := []; unknown_ies := [] |}.

Definition set_recovery_time_stamp (o : OptionalControlIes) (v : GtpuRecoveryTimeStamp)
    : OptionalControlIes :=
  {| recovery_time_stamp := Some v; private_extensions := private_extensions o;
     unknown_ies := unknown_ies o |}.

Definition push_private (o : OptionalControlIes) (v : GtpuPrivateExtension)
    : OptionalControlIes :=
  {| recovery_time_stamp := recovery_time_stamp o;
     private_extensions := private_extensions o ++ [v];
     unknown_ies := unknown_ies o |}.

(** ** Messages and their builders *)

Record GtpuEchoRequest := {
  ereq_sequence_number : Z;
  ereq_optional : OptionalControlIes;
  ereq_extensions : GtpuExtensionChain;
}.

Definition GtpuEchoRequest_new (sequence_number : Z) : GtpuEchoRequest :=
  {| ereq_sequence_number := sequence_number;
     ereq_optional := optional_default;
     ereq_extensions := chain_none |}.

Definition ereq_with_recovery_time_stamp (m : GtpuEchoRequest) (v : GtpuRecoveryTimeStamp)
    : GtpuEchoRequest :=
  {| ereq_sequence_number := ereq_sequence_number m;
     ereq_optional := set_recovery_time_stamp (ereq_optional m) v;
     ereq_extensions := ereq_extensions m |}.

Definition ereq_push_private_extension (m : GtpuEchoRequest) (v : GtpuPrivateExtension)
    : GtpuEchoRequest :=
  {| ereq_sequence_number := ereq_sequence_number m;
     ereq_optional := push_private (ereq_optional m) v;
     ereq_extensions := ereq_extensions m |}.

Record GtpuEchoResponse := {
  eres_sequence_number : Z;
  eres_recovery : GtpuRecovery;
  eres_optional : OptionalControlIes;
  eres_extensions : GtpuExtensionChain;
}.

Definition GtpuEchoResponse_new (sequence_number : Z) : GtpuEchoResponse :=
  {| eres_sequence_number := sequence_number;
     eres_recovery := ();
     eres_optional := optional_default;
     eres_extensions := chain_none |}.

Definition for_request (request : GtpuEchoRequest) : GtpuEchoResponse :=
  GtpuEchoResponse_new (ereq_sequence_number request).

Definition eres_with_recovery_time_stamp (m : GtpuEchoResponse) (v : GtpuRecoveryTimeStamp)
    : GtpuEchoResponse :=
  {| eres_sequence_number := eres_sequence_number m;
     eres_recovery := eres_recovery m;
     eres_optional := set_recovery_time_stamp (eres_optional m) v;
     eres_extensions := eres_extensions m |}.

Definition eres_push_private_extension (m : GtpuEchoResponse) (v : GtpuPrivateExtension)
    : GtpuEchoResponse :=
  {| eres_sequence_number := eres_sequence_number m;
     eres_recovery := eres_recovery m;
     eres_optional := push_private (eres_optional m) v;
     eres_extensions := eres_extensions m |}.

Record GtpuErrorIndication := {
  teid_data_i : GtpuTunnelEndpointId;
  peer_address : GtpuPeerAddress;
  triggering_udp_source_port : option Z;
  eind_optional : OptionalControlIes;
  eind_extensions : GtpuExtensionChain;
}.

Definition GtpuErrorIndication_new (teid : Z) (address : IpAddr) : GtpuErrorIndication :=
  {| teid_data_i := teid;
     peer_address := address;
     triggering_udp_source_port := None;
     eind_optional := optional_default;
     eind_extensions := chain_none |}.

Definition with_triggering_udp_source_port (m : GtpuErrorIndication) (port : Z)
    : outcome GtpuExtensionChainError GtpuErrorIndication :=
  let? extensions := upsert_udp_port (eind_extensions m) port in
  Ok {| teid_data_i := teid_data_i m;
        peer_address := peer_address m;
        triggering_udp_source_port := Some port;
        eind_optional := eind_optional m;
        eind_extensions := extensions |}.

Definition eind_with_recovery_time_stamp (m : GtpuErrorIndication) (v : GtpuRecoveryTimeStamp)
    : GtpuErrorIndication :=
  {| teid_data_i := teid_data_i m;
     peer_address := peer_address m;
     triggering_udp_source_port := triggering_udp_source_port m;
     eind_optional := set_recovery_time_stamp (eind_optional m) v;
     eind_extensions := eind_extensions m |}.

Definition eind_push_private_extension (m : GtpuErrorIndication) (v : GtpuPrivateExtension)
    : GtpuErrorIndication :=
  {| teid_data_i := teid_data_i m;
     peer_address := peer_address m;
     triggering_udp_source_port := triggering_udp_source_port m;
     eind_optional := push_private (eind_optional m) v;
     eind_extensions := eind_extensions m |}.

Record GtpuSupportedExtensionHeadersNotification := {
  supported_types : GtpuExtensionHeaderTypeList;
  sehn_private_extensions : list GtpuPrivateExtension;
  sehn_unknown_ies : list GtpuUnknownControlIe;
  sehn_extensions : GtpuExtensionChain;
}.

Definition Notification_new (types : GtpuExtensionHeaderTypeList)
    : GtpuSupportedExtensionHeadersNotification :=
  {| supported_types := types; sehn_private_extensions := []; sehn_unknown_ies := [];
     sehn_extensions := chain_none |}.

Definition sehn_push_private_extension (m : GtpuSupportedExtensionHeadersNotification)
    (v : GtpuPrivateExtension) : GtpuSupportedExtensionHeadersNotification :=
  {| supported_types := supported_types m;
     sehn_private_extensions := sehn_private_extensions m ++ [v];
     sehn_unknown_ies := sehn_unknown_ies m;
     sehn_extensions := sehn_extensions m |}.

Record GtpuEndMarker := {
  emrk_teid : GtpuTunnelEndpointId;
  emrk_private_extensions : list GtpuPrivateExtension;
  emrk_unknown_ies : list GtpuUnknownControlIe;
  emrk_extensions : GtpuExtensionChain;
}.

Definition GtpuEndMarker_new (teid : GtpuTunnelEndpointId) : GtpuEndMarker :=
  {| emrk_teid := teid; emrk_private_extensions := []; emrk_unknown_ies := [];
     emrk_extensions := chain_none |}.

Definition with_pdu_session_container (m : GtpuEndMarker) (container : PduSessionContainer)
    : outcome GtpuExtensionChainError GtpuEndMarker :=
  let? extensions := upsert_pdu_session_container (emrk_extensions m) container in
  Ok {| emrk_teid := emrk_teid m;
        emrk_private_extensions := emrk_private_extensions m;
        emrk_unknown_ies := emrk_unknown_ies m;
        emrk_extensions := extensions |}.

Definition emrk_push_private_extension (m : GtpuEndMarker) (v : GtpuPrivateExtension)
    : GtpuEndMarker :=
  {| emrk_teid := emrk_teid m;
     emrk_private_extensions := emrk_private_extensions m ++ [v];
     emrk_unknown_ies := emrk_unknown_ies m;
     emrk_extensions := emrk_extensions m |}.

Record GtpuTunnelStatus := {
  tsta_teid : GtpuTunnelEndpointId;
  tsta_information : GtpuTunnelStatusInformation;
  tsta_private_extensions : list GtpuPrivateExtension;
  tsta_unknown_ies : list GtpuUnknownControlIe;
  tsta_extensions : GtpuExtensionChain;
}.

Definition GtpuTunnelStatus_new (teid : GtpuTunnelEndpointId)
    (information : GtpuTunnelStatusInformation) : GtpuTunnelStatus :=
  {| tsta_teid := teid; tsta_information := information; tsta_private_extensions := [];
     tsta_unknown_ies := []; tsta_extensions := chain_none |}.

Definition tsta_push_private_extension (m : GtpuTunnelStatus) (v : GtpuPrivateExtension)
    : GtpuTunnelStatus :=
  {| tsta_teid := tsta_teid m;
     tsta_information := tsta_information m;
     tsta_private_extensions := tsta_private_extensions m ++ [v];
     tsta_unknown_ies := tsta_unknown_ies m;
     tsta_extensions := tsta_extensions m |}.

Inductive GtpuControlMessage :=
| EchoRequest (m : GtpuEchoRequest)
| EchoResponse (m : GtpuEchoResponse)
| ErrorIndication (m : GtpuErrorIndication)
| SupportedExtensionHeadersNotification (m : GtpuSupportedExtensionHeadersNotification)
| TunnelStatus (m : GtpuTunnelStatus)
| EndMarker (m : GtpuEndMarker).

Definition control_message_type (m : GtpuControlMessage) : Z :=
  match m with
  | EchoRequest _ => GTPU_MESSAGE_ECHO_REQUEST
  | EchoResponse _ => GTPU_MESSAGE_ECHO_RESPONSE
  | ErrorIndication _ => GTPU_MESSAGE_ERROR_INDICATION
  | SupportedExtensionHeadersNotification _ =>
      GTPU_MESSAGE_SUPPORTED_EXTENSION_HEADERS_NOTIFICATION
  | EndMarker _ => GTPU_MESSAGE_END_MARKER
  | TunnelStatus _ => GTPU_MESSAGE_TUNNEL_STATUS
  end.

Definition control_sequence_number (m : GtpuControlMessage) : option Z :=
  match m with
  | EchoRequest request => Some (ereq_sequence_number request)
  | EchoResponse response => Some (eres_sequence_number response)
  | ErrorIndication _ | SupportedExtensionHeadersNotification _ | EndMarker _
  | TunnelStatus _ => None
  end.

(** ** Receiving: the frame *)

Definition validate_zero_teid_and_sequence (message : GtpuMessage)
    : outcome GtpuControlCodecError () :=
  if negb (teid (header message) =? 0) then control_fail InvalidHeaderTeid 4
  else if negb (seq_num_flag (header message))
          || match sequence_number (header message) with None => true | Some _ => false end
  then control_fail InvalidHeaderFlags 0
  else Ok ().

Definition required_sequence (message : GtpuMessage) : outcome GtpuControlCodecError Z :=
  ok_or (sequence_number (header message)) (ControlError_new InvalidHeaderFlags 8).

Abbreviation present o := (match o with Some _ => true | None => false end).

(** [payload_base] and [message_end]. *)
Definition validate_generic_frame_model (message : GtpuMessage) (ctx : DecodeContext)
    : outcome GtpuControlCodecError (Z * Z) :=
  let h := header message in
  if negb (version h =? 1) then Err (framing (InvalidEnumValue "version" (version h)) 0)
  else if negb (protocol_type h) then Err (framing (InvalidEnumValue "protocol_type" 0) 0)
  else if ext_hdr_flag h
          && match next_ext_type h with None => true | Some t => t =? 0 end
  then control_fail InvalidHeaderFlags 11
  else
  let has_optional_fields := ext_hdr_flag h || seq_num_flag h || npdu_num_flag h in
  let raw_fields_match_optional_block :=
    if has_optional_fields
    then present (raw_sequence_number h) && present (raw_npdu_number h)
         && present (raw_next_ext_type h)
    else negb (present (raw_sequence_number h)) && negb (present (raw_npdu_number h))
         && negb (present (raw_next_ext_type h)) in
  if negb raw_fields_match_optional_block
  then Err (framing (Structural "optional header raw-field contract mismatch") 8)
  else if negb (eqb (seq_num_flag h) (present (sequence_number h)))
          || negb (eqb (npdu_num_flag h) (present (npdu_number h)))
          || negb (eqb (ext_hdr_flag h) (present (next_ext_type h)))
  then Err (framing (Structural "optional header flag/model contract mismatch") 8)
  else if (seq_num_flag h && negb (bool_decide (sequence_number h = raw_sequence_number h)))
          || (npdu_num_flag h && negb (bool_decide (npdu_number h = raw_npdu_number h)))
          || (ext_hdr_flag h && negb (bool_decide (next_ext_type h = raw_next_ext_type h)))
  then Err (framing (Structural "active optional field differs from retained wire field") 8)
  else if negb (ext_hdr_flag h)
          && match raw_extension_headers message with [] => false | _ => true end
  then Err (framing
         (Structural "extension bytes present while extension header flag is clear") 12)
  else
  let? optional_header_len :=
    ok_or (checked_mul (Z.b2z has_optional_fields) 4) control_length_overflow in
  let? with_extensions :=
    ok_or (checked_add optional_header_len (len (raw_extension_headers message)))
      control_length_overflow in
  let? declared_body_len :=
    ok_or (checked_add with_extensions (len (payload message))) control_length_overflow in
  let? message_end := ok_or (checked_add 8 declared_body_len) control_length_overflow in
  let? header_declared_end :=
    ok_or (checked_add 8 (length_field h)) control_length_overflow in
  if (max_message_len ctx <? message_end) || (max_message_len ctx <? header_declared_end)
  then Err (framing MessageLengthExceeded 0)
  else if 65535 <? declared_body_len
  then Err (framing (InvalidLength "decoded frame exceeds the GTP-U Length field") 2)
  else if negb (length_field h =? declared_body_len)
  then Err (framing (InvalidLength "declared length does not match decoded frame") 2)
  else
  let? base := ok_or (checked_add 8 optional_header_len) control_length_overflow in
  let? payload_base :=
    ok_or (checked_add base (len (raw_extension_headers message)))
      control_length_overflow in
  Ok (payload_base, message_end).

Definition reject_udp_port (port : option (Z * Z)) : outcome GtpuControlCodecError () :=
  match port with
  | Some (_, offset) => control_fail (UnexpectedExtension GTPU_EXT_UDP_PORT) offset
  | None => Ok ()
  end.

(** ** Receiving: the extension headers *)

Definition malformed_extension_reason (error : DecodeError)
    : GtpuExtensionChainMalformedReason :=
  match code error with
  | InvalidLength reason =>
      if bool_decide (reason = "extension header units is zero"%string)
      then LengthUnitsZero else ChainTruncated
  | LengthOverflow => ChainLengthOverflow
  | _ => ChainTruncated
  end.

Inductive ControlExtensionDisposition :=
| DispositionUdpPort
| DispositionPduSessionContainer
| StandardizedButInapplicable
| DispositionUnknown.

Definition standardized_types : list Z :=
  [0x01; 0x02; 0x03; 0x04; 0x20; GTPU_EXT_UDP_PORT; 0x81; 0x82; 0x83; 0x84;
   GTPU_EXT_PDU_SESSION_CONTAINER; 0x86; 0xc0; 0xc1; 0xc2].

Definition classify_control_extension (extension_type message_type : Z)
    : ControlExtensionDisposition :=
  if (extension_type =? GTPU_EXT_UDP_PORT) && (message_type =? GTPU_MESSAGE_ERROR_INDICATION)
  then DispositionUdpPort
  else if (extension_type =? GTPU_EXT_PDU_SESSION_CONTAINER)
          && (message_type =? GTPU_MESSAGE_END_MARKER)
  then DispositionPduSessionContainer
  else if existsb (Z.eqb extension_type) standardized_types
  then StandardizedButInapplicable
  else DispositionUnknown.

(** The [match] on the disposition: the UDP port with its offset and the container
    after one header. *)
Definition note_extension (message_type : Z) (extension : GtpuExtensionHeader) (offset : Z)
    (udp_port : option (Z * Z)) (psc : option PduSessionContainer)
    : outcome GtpuControlCodecError (option (Z * Z) * option PduSessionContainer) :=
  match classify_control_extension (ext_type extension) message_type with
  | DispositionUdpPort =>
      if negb (len (content extension) =? 2)
      then control_fail InvalidExtensionLength offset
      else if present udp_port
      then control_fail (UnexpectedExtension GTPU_EXT_UDP_PORT) offset
      else
        let? c0 := idx (content extension) 0 in
        let? c1 := idx (content extension) 1 in
        Ok (Some (u16_from_be_bytes c0 c1, offset), psc)
  | DispositionPduSessionContainer =>
      if present psc then control_fail ControlDuplicatePduSessionContainer offset
      else
        let? container :=
          map_err (λ '(reason, _),
                     ControlError_new (ControlMalformedPduSessionContainer reason) offset)
            (psc_decode_with_reason extension) in
        Ok (udp_port, Some container)
  | StandardizedButInapplicable =>
      control_fail (UnexpectedExtension (ext_type extension)) offset
  | DispositionUnknown =>
      if unsupported_requires_comprehension_by (ext_type extension) Endpoint
      then control_fail (UnsupportedRequiredExtension (ext_type extension)) offset
      else Ok (udp_port, psc)
  end.

(** The limits, tested on each item before the item itself: a malformed item past
    a limit reports the limit. *)
Definition count_extension (ctx : DecodeContext) (header_count offset : Z)
    : outcome GtpuControlCodecError Z :=
  let? next_header_count := ok_or (checked_add header_count 1) control_length_overflow in
  if max_depth ctx <? next_header_count then Err (framing DepthExceeded offset)
  else if max_ies ctx <? next_header_count then Err (framing IeCountExceeded offset)
  else Ok next_header_count.

(** The [for] loop over the lazy iterator. *)
Fixpoint parse_extensions_loop (fuel : nat) (message_type : Z) (ctx : DecodeContext)
    (it : GtpuExtensionHeaderIterator) (udp_port : option (Z * Z))
    (psc : option PduSessionContainer) (header_count offset : Z)
    : outcome GtpuControlCodecError
        (option (Z * Z) * option PduSessionContainer * Z * Z) :=
  match fuel with
  | O => Crash
  | S fuel =>
      let '(item, it) := iter_next it in
      match item with
      | Crash => Crash
      | Ok None => Ok (udp_port, psc, header_count, offset)
      | Err error =>
          let? _ := count_extension ctx header_count offset in
          control_fail (MalformedExtensionChain (malformed_extension_reason error)) offset
      | Ok (Some extension) =>
          let? header_count := count_extension ctx header_count offset in
          let? (udp_port, psc) := note_extension message_type extension offset udp_port psc in
          let? past :=
            ok_or (checked_add offset (len (content extension))) control_length_overflow in
          let? offset := ok_or (checked_add past 2) control_length_overflow in
          parse_extensions_loop fuel message_type ctx it udp_port psc header_count offset
      end
  end.

Definition parse_extensions (message : GtpuMessage) (message_type : Z) (ctx : DecodeContext)
    : outcome GtpuControlCodecError (GtpuExtensionChain * option (Z * Z)) :=
  let? (udp_port, psc, header_count, offset) :=
    parse_extensions_loop (S (length (raw_extension_headers message))) message_type ctx
      (extensions message) None None 0 12 in
  let? consumed := ok_or (checked_sub offset 12) control_length_overflow in
  if negb (consumed =? len (raw_extension_headers message))
  then control_fail (MalformedExtensionChain TrailingBytes) offset
  else
  let first_extension_type :=
    match (if ext_hdr_flag (header message) then next_ext_type (header message) else None) with
    | Some value => if negb (value =? 0) then Some value else None
    | None => None
    end in
  Ok ({| first_extension_type := first_extension_type;
         raw_headers := raw_extension_headers message;
         header_count := header_count;
         pdu_session_container := psc |}, udp_port).

(** ** Receiving: the information elements *)

Record ParsedIes := {
  p_tunnel_status_information : option GtpuTunnelStatusInformation;
  p_recovery : bool;
  p_teid_data_i : option GtpuTunnelEndpointId;
  p_peer_address : option GtpuPeerAddress;
  p_extension_header_type_list : option GtpuExtensionHeaderTypeList;
  p_recovery_time_stamp : option GtpuRecoveryTimeStamp;
  p_private_extensions : list GtpuPrivateExtension;
  p_unknown_ies : list GtpuUnknownControlIe;
  known_ie_offsets : list (Z * Z);
}.

Definition ParsedIes_default : ParsedIes :=
  {| p_tunnel_status_information := None; p_recovery := false; p_teid_data_i := None;
     p_peer_address := None; p_extension_header_type_list := None;
     p_recovery_time_stamp := None; p_private_extensions := []; p_unknown_ies := [];
     known_ie_offsets := [] |}.

Definition into_optional (p : ParsedIes) : OptionalControlIes :=
  {| recovery_time_stamp := p_recovery_time_stamp p;
     private_extensions := p_private_extensions p;
     unknown_ies := p_unknown_ies p |}.

Definition offset_of (p : ParsedIes) (ie_type : Z) : option Z :=
  snd <$> find (λ '(present_type, _), present_type =? ie_type) (known_ie_offsets p).

Definition in_range (lo hi x : Z) : bool := (lo <=? x) && (x <=? hi).

Definition tv_value_len (t : Z) : option Z :=
  if (t =? 1) || (t =? 8) || (t =? 11) || in_range 13 15 t || in_range 19 21 t
     || in_range 23 24 t || (t =? 29)
  then Some 1
  else if t =? 2 then Some 8
  else if t =? 3 then Some 6
  else if in_range 4 5 t || in_range 16 17 t || (t =? 127) then Some 4
  else if t =? 9 then Some 28
  else if t =? 12 then Some 3
  else if t =? 18 then Some 5
  else if t =? 22 then Some 9
  else if in_range 25 28 t then Some 2
  else None.

Definition allowed_ies (message_type : Z) : list Z :=
  if message_type =? GTPU_MESSAGE_ECHO_REQUEST
  then [IE_RECOVERY_TIME_STAMP; IE_PRIVATE_EXTENSION]
  else if message_type =? GTPU_MESSAGE_ECHO_RESPONSE
  then [IE_RECOVERY; IE_RECOVERY_TIME_STAMP; IE_PRIVATE_EXTENSION]
  else if message_type =? GTPU_MESSAGE_ERROR_INDICATION
  then [IE_TEID_DATA_I; IE_GTPU_PEER_ADDRESS; IE_RECOVERY_TIME_STAMP; IE_PRIVATE_EXTENSION]
  else if message_type =? GTPU_MESSAGE_SUPPORTED_EXTENSION_HEADERS_NOTIFICATION
  then [IE_EXTENSION_HEADER_TYPE_LIST; IE_PRIVATE_EXTENSION]
  else if message_type =? GTPU_MESSAGE_END_MARKER then [IE_PRIVATE_EXTENSION]
  else if message_type =? GTPU_MESSAGE_TUNNEL_STATUS
  then [IE_GTPU_TUNNEL_STATUS; IE_PRIVATE_EXTENSION]
  else [].

Definition require_bytes (payload : bytes) (offset required datagram_offset : Z)
    : outcome GtpuControlCodecError () :=
  if Z.max 0 (len payload - offset) <? required
  then control_fail TruncatedIe datagram_offset
  else Ok ().

(** [(header_len, value_len)] of the element at [offset]. *)
Definition ie_extent (payload : bytes) (offset datagram_offset ie_type : Z)
    : outcome GtpuControlCodecError (Z * Z) :=
  if in_range 0 127 ie_type then
    let? value_len :=
      ok_or (tv_value_len ie_type) (ControlError_new (UnknownTvIe ie_type) datagram_offset) in
    Ok (1, value_len)
  else if ie_type =? IE_EXTENSION_HEADER_TYPE_LIST then
    let? _ := require_bytes payload offset 2 datagram_offset in
    let? count := idx payload (offset + 1) in
    Ok (2, count)
  else
    let? _ := require_bytes payload offset 3 datagram_offset in
    let? l0 := idx payload (offset + 1) in
    let? l1 := idx payload (offset + 2) in
    Ok (3, u16_from_be_bytes l0 l1).

Definition defined_ie (ie_type : Z) : bool :=
  (ie_type <? 128)
  || existsb (Z.eqb ie_type)
       [IE_GTPU_PEER_ADDRESS; IE_EXTENSION_HEADER_TYPE_LIST; IE_GTPU_TUNNEL_STATUS;
        IE_RECOVERY_TIME_STAMP; IE_PRIVATE_EXTENSION].

Definition set_status p v :=
  {| p_tunnel_status_information := Some v; p_recovery := p_recovery p;
     p_teid_data_i := p_teid_data_i p; p_peer_address := p_peer_address p;
     p_extension_header_type_list := p_extension_header_type_list p;
     p_recovery_time_stamp := p_recovery_time_stamp p;
     p_private_extensions := p_private_extensions p; p_unknown_ies := p_unknown_ies p;
     known_ie_offsets := known_ie_offsets p |}.

Definition set_recovery p :=
  {| p_tunnel_status_information := p_tunnel_status_information p; p_recovery := true;
     p_teid_data_i := p_teid_data_i p; p_peer_address := p_peer_address p;
     p_extension_header_type_list := p_extension_header_type_list p;
     p_recovery_time_stamp := p_recovery_time_stamp p;
     p_private_extensions := p_private_extensions p; p_unknown_ies := p_unknown_ies p;
     known_ie_offsets := known_ie_offsets p |}.

Definition set_teid p v :=
  {| p_tunnel_status_information := p_tunnel_status_information p; p_recovery := p_recovery p;
     p_teid_data_i := Some v; p_peer_address := p_peer_address p;
     p_extension_header_type_list := p_extension_header_type_list p;
     p_recovery_time_stamp := p_recovery_time_stamp p;
     p_private_extensions := p_private_extensions p; p_unknown_ies := p_unknown_ies p;
     known_ie_offsets := known_ie_offsets p |}.

Definition set_peer p v :=
  {| p_tunnel_status_information := p_tunnel_status_information p; p_recovery := p_recovery p;
     p_teid_data_i := p_teid_data_i p; p_peer_address := Some v;
     p_extension_header_type_list := p_extension_header_type_list p;
     p_recovery_time_stamp := p_recovery_time_stamp p;
     p_private_extensions := p_private_extensions p; p_unknown_ies := p_unknown_ies p;
     known_ie_offsets := known_ie_offsets p |}.

Definition set_types p v :=
  {| p_tunnel_status_information := p_tunnel_status_information p; p_recovery := p_recovery p;
     p_teid_data_i := p_teid_data_i p; p_peer_address := p_peer_address p;
     p_extension_header_type_list := Some v;
     p_recovery_time_stamp := p_recovery_time_stamp p;
     p_private_extensions := p_private_extensions p; p_unknown_ies := p_unknown_ies p;
     known_ie_offsets := known_ie_offsets p |}.

Definition set_time_stamp p v :=
  {| p_tunnel_status_information := p_tunnel_status_information p; p_recovery := p_recovery p;
     p_teid_data_i := p_teid_data_i p; p_peer_address := p_peer_address p;
     p_extension_header_type_list := p_extension_header_type_list p;
     p_recovery_time_stamp := Some v;
     p_private_extensions := p_private_extensions p; p_unknown_ies := p_unknown_ies p;
     known_ie_offsets := known_ie_offsets p |}.

Definition push_private_ie p v :=
  {| p_tunnel_status_information := p_tunnel_status_information p; p_recovery := p_recovery p;
     p_teid_data_i := p_teid_data_i p; p_peer_address := p_peer_address p;
     p_extension_header_type_list := p_extension_header_type_list p;
     p_recovery_time_stamp := p_recovery_time_stamp p;
     p_private_extensions := p_private_extensions p ++ [v]; p_unknown_ies := p_unknown_ies p;
     known_ie_offsets := known_ie_offsets p |}.

Definition push_unknown_ie p v :=
  {| p_tunnel_status_information := p_tunnel_status_information p; p_recovery := p_recovery p;
     p_teid_data_i := p_teid_data_i p; p_peer_address := p_peer_address p;
     p_extension_header_type_list := p_extension_header_type_list p;
     p_recovery_time_stamp := p_recovery_time_stamp p;
     p_private_extensions := p_private_extensions p; p_unknown_ies := p_unknown_ies p ++ [v];
     known_ie_offsets := known_ie_offsets p |}.

Definition push_offset p ie_type datagram_offset :=
  {| p_tunnel_status_information := p_tunnel_status_information p; p_recovery := p_recovery p;
     p_teid_data_i := p_teid_data_i p; p_peer_address := p_peer_address p;
     p_extension_header_type_list := p_extension_header_type_list p;
     p_recovery_time_stamp := p_recovery_time_stamp p;
     p_private_extensions := p_private_extensions p; p_unknown_ies := p_unknown_ies p;
     known_ie_offsets := known_ie_offsets p ++ [(ie_type, datagram_offset)] |}.

Definition be_u32 (value : bytes) : outcome GtpuControlCodecError Z :=
  let? a := idx value 0 in
  let? b := idx value 1 in
  let? c := idx value 2 in
  let? d := idx value 3 in
  Ok (u32_from_be_bytes a b c d).

(** The final [match ie_type] of the loop. *)
Definition store_ie (ctx : DecodeContext) (parsed : ParsedIes) (ie_type : Z) (value : bytes)
    (datagram_offset : Z) : outcome GtpuControlCodecError ParsedIes :=
  if ie_type =? IE_RECOVERY then Ok (set_recovery parsed)
  else if ie_type =? IE_TEID_DATA_I then
    let? v := be_u32 value in
    Ok (set_teid parsed v)
  else if ie_type =? IE_EXTENSION_HEADER_TYPE_LIST then
    let? types := map_err (λ _, invalid_value ie_type datagram_offset)
                    (GtpuExtensionHeaderTypeList_new value) in
    Ok (set_types parsed types)
  else if ie_type =? IE_GTPU_PEER_ADDRESS then
    if len value =? 4 then Ok (set_peer parsed (IpV4 value))
    else if len value =? 16 then Ok (set_peer parsed (IpV6 value))
    else Err (control_invalid_length ie_type datagram_offset)
  else if ie_type =? IE_RECOVERY_TIME_STAMP then
    if len value <? 4 then Err (control_invalid_length ie_type datagram_offset)
    else
      let? seconds := be_u32 value in
      let? additional := slice value 4 (len value) in
      Ok (set_time_stamp parsed
            {| seconds_since_1900 := seconds; rts_additional_data := additional |})
  else if ie_type =? IE_GTPU_TUNNEL_STATUS then
    match value with
    | [] => Err (control_invalid_length ie_type datagram_offset)
    | flags :: additional_data =>
        Ok (set_status parsed
              {| spoc := negb (Z.land flags 1 =? 0);
                 received_spare := Z.land flags 0xfe;
                 tsi_additional_data := additional_data |})
    end
  else if ie_type =? IE_PRIVATE_EXTENSION then
    if len value <? 2 then Err (control_invalid_length ie_type datagram_offset)
    else
      let? i0 := idx value 0 in
      let? i1 := idx value 1 in
      let? rest := slice value 2 (len value) in
      Ok (push_private_ie parsed
            {| extension_identifier := u16_from_be_bytes i0 i1; private_value := rest |})
  else if bool_decide (unknown_ie_policy ctx = UnknownPreserve)
  then Ok (push_unknown_ie parsed {| unknown_ie_type := ie_type; unknown_value := value |})
  else Ok parsed.

(** The part of a turn after the element is delimited: skip a repeated singleton,
    skip a defined but unexpected element, store the rest. *)
Definition absorb_ie (message_type : Z) (ctx : DecodeContext) (seen : list bool)
    (parsed : ParsedIes) (ie_type : Z) (value : bytes) (datagram_offset : Z)
    : outcome GtpuControlCodecError (list bool * ParsedIes) :=
  let? already := idx seen ie_type in
  if already && negb (ie_type =? IE_PRIVATE_EXTENSION) then Ok (seen, parsed)
  else
    let seen := <[Z.to_nat ie_type := true]> seen in
    let defined := defined_ie ie_type in
    if defined && negb (existsb (Z.eqb ie_type) (allowed_ies message_type))
    then Ok (seen, parsed)
    else
      let parsed := if defined then push_offset parsed ie_type datagram_offset else parsed in
      let? parsed := store_ie ctx parsed ie_type value datagram_offset in
      Ok (seen, parsed).

(** The [while offset < payload.len()] loop; a turn that does not return advances
    the offset, so the length of the payload bounds the turns. *)
Fixpoint parse_ies_loop (fuel : nat) (payload : bytes) (payload_base message_type : Z)
    (ctx : DecodeContext) (offset count : Z) (previous_type : option Z) (seen : list bool)
    (parsed : ParsedIes) : outcome GtpuControlCodecError ParsedIes :=
  if len payload <=? offset then Ok parsed
  else
    match fuel with
    | O => Crash
    | S fuel =>
        let? datagram_offset :=
          ok_or (checked_add payload_base offset) control_length_overflow in
        let count := saturating_add count 1 in
        if (max_ies ctx <? count) || (MAX_CONTROL_IES <? count)
        then control_fail ControlIeCountExceeded datagram_offset
        else
        let? ie_type := idx payload offset in
        if match previous_type with Some previous => ie_type <? previous | None => false end
        then control_fail IesOutOfOrder datagram_offset
        else
        let? (header_len, value_len) := ie_extent payload offset datagram_offset ie_type in
        let? _ := require_bytes payload offset (header_len + value_len) datagram_offset in
        let value_start := offset + header_len in
        let offset := value_start + value_len in
        let? value := slice payload value_start offset in
        let? (seen, parsed) :=
          absorb_ie message_type ctx seen parsed ie_type value datagram_offset in
        parse_ies_loop fuel payload payload_base message_type ctx offset count
          (Some ie_type) seen parsed
    end.

Definition parse_ies (payload : bytes) (payload_base message_type : Z) (ctx : DecodeContext)
    : outcome GtpuControlCodecError ParsedIes :=
  parse_ies_loop (length payload) payload payload_base message_type ctx 0 0 None
    (replicate 256 false) ParsedIes_default.

(** ** Receiving: the typed message *)

Record ValidatedControlFrame := {
  v_message_type : Z;
  v_payload_base : Z;
  v_message_end : Z;
  v_extensions : GtpuExtensionChain;
  v_udp_port : option (Z * Z);
}.

Definition control_types : list Z :=
  [GTPU_MESSAGE_ECHO_REQUEST; GTPU_MESSAGE_ECHO_RESPONSE; GTPU_MESSAGE_ERROR_INDICATION;
   GTPU_MESSAGE_SUPPORTED_EXTENSION_HEADERS_NOTIFICATION; GTPU_MESSAGE_END_MARKER;
   GTPU_MESSAGE_TUNNEL_STATUS].

Definition ValidatedControlFrame_new (message : GtpuMessage) (ctx : DecodeContext)
    : outcome GtpuControlCodecError ValidatedControlFrame :=
  let? (payload_base, message_end) := validate_generic_frame_model message ctx in
  let message_type := message_type (header message) in
  if negb (existsb (Z.eqb message_type) control_types)
  then control_fail (UnsupportedMessageType message_type) 1
  else
    let? (extensions, udp_port) := parse_extensions message message_type ctx in
    Ok {| v_message_type := message_type;
          v_payload_base := payload_base;
          v_message_end := message_end;
          v_extensions := extensions;
          v_udp_port := udp_port |}.

Definition reject_sequence (message : GtpuMessage) : outcome GtpuControlCodecError () :=
  if seq_num_flag (header message) then control_fail InvalidHeaderFlags 0 else Ok ().

(** The arms of the [match message_type] of [from_message], one per procedure. *)
Definition echo_request_of (message : GtpuMessage) (v : ValidatedControlFrame)
    (parsed : ParsedIes) : outcome GtpuControlCodecError GtpuControlMessage :=
  let? _ := validate_zero_teid_and_sequence message in
  let? _ := reject_udp_port (v_udp_port v) in
  let? sequence_number := required_sequence message in
  Ok (EchoRequest {| ereq_sequence_number := sequence_number;
                     ereq_optional := into_optional parsed;
                     ereq_extensions := v_extensions v |}).

Definition echo_response_of (message : GtpuMessage) (v : ValidatedControlFrame)
    (parsed : ParsedIes) : outcome GtpuControlCodecError GtpuControlMessage :=
  let? _ := validate_zero_teid_and_sequence message in
  let? _ := reject_udp_port (v_udp_port v) in
  if negb (p_recovery parsed) then Err (missing IE_RECOVERY (v_message_end v))
  else
  let? sequence_number := required_sequence message in
  Ok (EchoResponse {| eres_sequence_number := sequence_number;
                      eres_recovery := ();
                      eres_optional := into_optional parsed;
                      eres_extensions := v_extensions v |}).

Definition error_indication_of (message : GtpuMessage) (v : ValidatedControlFrame)
    (parsed : ParsedIes) : outcome GtpuControlCodecError GtpuControlMessage :=
  let? _ := validate_zero_teid_and_sequence message in
  let? teid_data_i :=
    ok_or (p_teid_data_i parsed) (missing IE_TEID_DATA_I (v_message_end v)) in
  if teid_data_i =? 0
  then Err (invalid_value IE_TEID_DATA_I
              (default (v_payload_base v) (offset_of parsed IE_TEID_DATA_I)))
  else
  let? peer_address :=
    ok_or (p_peer_address parsed) (missing IE_GTPU_PEER_ADDRESS (v_message_end v)) in
  Ok (ErrorIndication {| teid_data_i := teid_data_i;
                         peer_address := peer_address;
                         triggering_udp_source_port := fst <$> v_udp_port v;
                         eind_optional := into_optional parsed;
                         eind_extensions := v_extensions v |}).

Definition notification_of (message : GtpuMessage) (v : ValidatedControlFrame)
    (parsed : ParsedIes) : outcome GtpuControlCodecError GtpuControlMessage :=
  let? _ := validate_zero_teid_and_sequence message in
  let? _ := reject_udp_port (v_udp_port v) in
  let? supported_types :=
    ok_or (p_extension_header_type_list parsed)
      (missing IE_EXTENSION_HEADER_TYPE_LIST (v_message_end v)) in
  Ok (SupportedExtensionHeadersNotification
        {| supported_types := supported_types;
           sehn_private_extensions := p_private_extensions parsed;
           sehn_unknown_ies := p_unknown_ies parsed;
           sehn_extensions := v_extensions v |}).

Definition tunnel_status_of (message : GtpuMessage) (v : ValidatedControlFrame)
    (parsed : ParsedIes) : outcome GtpuControlCodecError GtpuControlMessage :=
  let? _ := reject_sequence message in
  let? _ := reject_udp_port (v_udp_port v) in
  let? information :=
    ok_or (p_tunnel_status_information parsed)
      (missing IE_GTPU_TUNNEL_STATUS (v_message_end v)) in
  Ok (TunnelStatus {| tsta_teid := teid (header message);
                      tsta_information := information;
                      tsta_private_extensions := p_private_extensions parsed;
                      tsta_unknown_ies := p_unknown_ies parsed;
                      tsta_extensions := v_extensions v |}).

Definition end_marker_of (message : GtpuMessage) (v : ValidatedControlFrame)
    (parsed : ParsedIes) : outcome GtpuControlCodecError GtpuControlMessage :=
  let? _ := reject_sequence message in
  let? _ := reject_udp_port (v_udp_port v) in
  Ok (EndMarker {| emrk_teid := teid (header message);
                   emrk_private_extensions := p_private_extensions parsed;
                   emrk_unknown_ies := p_unknown_ies parsed;
                   emrk_extensions := v_extensions v |}).

Definition control_from_message (message : GtpuMessage) (ctx : DecodeContext)
    : outcome GtpuControlCodecError GtpuControlMessage :=
  let? v := ValidatedControlFrame_new message ctx in
  let message_type := v_message_type v in
  let? parsed := parse_ies (payload message) (v_payload_base v) message_type ctx in
  if message_type =? GTPU_MESSAGE_ECHO_REQUEST then echo_request_of message v parsed
  else if message_type =? GTPU_MESSAGE_ECHO_RESPONSE then echo_response_of message v parsed
  else if message_type =? GTPU_MESSAGE_ERROR_INDICATION then error_indication_of message v parsed
  else if message_type =? GTPU_MESSAGE_SUPPORTED_EXTENSION_HEADERS_NOTIFICATION
  then notification_of message v parsed
  else if message_type =? GTPU_MESSAGE_TUNNEL_STATUS then tunnel_status_of message v parsed
  else if message_type =? GTPU_MESSAGE_END_MARKER then end_marker_of message v parsed
  else control_fail (UnsupportedMessageType message_type) 1.

(** The context of the structural pass: the caller's limits, [Preserve] and
    [Structural]. *)
Definition frame_ctx (ctx : DecodeContext) : DecodeContext :=
  {| protocol_version := protocol_version ctx;
     max_depth := max_depth ctx;
     max_ies := max_ies ctx;
     max_message_len := max_message_len ctx;
     unknown_ie_policy := UnknownPreserve;
     duplicate_ie_policy := duplicate_ie_policy ctx;
     validation_level := StructuralLevel;
     allocation_budget := allocation_budget ctx |}.

Definition control_decode (input : bytes) (ctx : DecodeContext)
    : outcome GtpuControlCodecError (bytes * GtpuControlMessage) :=
  let? (tail, message) :=
    map_err (λ error, framing (code error) (offset error)) (decode input (frame_ctx ctx)) in
  let? control := control_from_message message ctx in
  Ok (tail, control).

Definition decode_datagram (input : bytes) (ctx : DecodeContext)
    : outcome GtpuControlCodecError GtpuControlMessage :=
  let? (tail, message) := control_decode input ctx in
  match tail with
  | [] => Ok message
  | _ => control_fail ControlTrailingBytes (Z.max 0 (len input - len tail))
  end.

(** ** Sending: information elements *)

Inductive ControlIeRef :=
| RefRecovery
| RefTeid (value : GtpuTunnelEndpointId)
| RefPeerAddress (value : GtpuPeerAddress)
| RefExtensionTypes (value : GtpuExtensionHeaderTypeList)
| RefRecoveryTimeStamp (value : GtpuRecoveryTimeStamp)
| RefTunnelStatus (value : GtpuTunnelStatusInformation)
| RefPrivate (value : GtpuPrivateExtension)
| RefUnknown (value : GtpuUnknownControlIe).

Definition ref_ie_type (ie : ControlIeRef) : Z :=
  match ie with
  | RefRecovery => IE_RECOVERY
  | RefTeid _ => IE_TEID_DATA_I
  | RefPeerAddress _ => IE_GTPU_PEER_ADDRESS
  | RefExtensionTypes _ => IE_EXTENSION_HEADER_TYPE_LIST
  | RefRecoveryTimeStamp _ => IE_RECOVERY_TIME_STAMP
  | RefTunnelStatus _ => IE_GTPU_TUNNEL_STATUS
  | RefPrivate _ => IE_PRIVATE_EXTENSION
  | RefUnknown value => unknown_ie_type value
  end.

Definition tlv_wire_len (value_len : Z) : outcome GtpuControlCodecError Z :=
  if 65535 <? value_len then Err control_length_overflow
  else ok_or (checked_add value_len 3) control_length_overflow.

Definition ref_wire_len (ie : ControlIeRef) : outcome GtpuControlCodecError Z :=
  match ie with
  | RefRecovery => Ok 2
  | RefTeid _ => Ok 5
  | RefPeerAddress (IpV4 _) => Ok 7
  | RefPeerAddress (IpV6 _) => Ok 19
  | RefExtensionTypes value => ok_or (checked_add (len value) 2) control_length_overflow
  | RefTunnelStatus value =>
      let? l := ok_or (checked_add (len (tsi_additional_data value)) 1)
                  control_length_overflow in
      tlv_wire_len l
  | RefRecoveryTimeStamp value =>
      let? l := ok_or (checked_add (len (rts_additional_data value)) 4)
                  control_length_overflow in
      tlv_wire_len l
  | RefPrivate value =>
      let? l := ok_or (checked_add (len (private_value value)) 2) control_length_overflow in
      tlv_wire_len l
  | RefUnknown value => tlv_wire_len (len (unknown_value value))
  end.

(** The octets appended to the destination. *)
Definition put_tlv_header (ie_type value_len : Z) : outcome GtpuControlCodecError bytes :=
  if 65535 <? value_len then Err control_length_overflow
  else Ok (ie_type :: u16_to_be_bytes value_len).

Definition ref_encode (ie : ControlIeRef) : outcome GtpuControlCodecError bytes :=
  match ie with
  | RefRecovery => Ok [IE_RECOVERY; 0]
  | RefTeid value => Ok (IE_TEID_DATA_I :: u32_to_be_bytes value)
  | RefPeerAddress (IpV4 octets) => Ok (IE_GTPU_PEER_ADDRESS :: u16_to_be_bytes 4 ++ octets)
  | RefPeerAddress (IpV6 octets) => Ok (IE_GTPU_PEER_ADDRESS :: u16_to_be_bytes 16 ++ octets)
  | RefExtensionTypes value =>
      if 255 <? len value then control_fail InvalidModel 0
      else Ok (IE_EXTENSION_HEADER_TYPE_LIST :: len value :: value)
  | RefTunnelStatus value =>
      let? l := ok_or (checked_add (len (tsi_additional_data value)) 1)
                  control_length_overflow in
      let? head := put_tlv_header IE_GTPU_TUNNEL_STATUS l in
      Ok (head ++ [Z.b2z (spoc value)] ++ tsi_additional_data value)
  | RefRecoveryTimeStamp value =>
      let? l := ok_or (checked_add (len (rts_additional_data value)) 4)
                  control_length_overflow in
      let? head := put_tlv_header IE_RECOVERY_TIME_STAMP l in
      Ok (head ++ u32_to_be_bytes (seconds_since_1900 value) ++ rts_additional_data value)
  | RefPrivate value =>
      let? l := ok_or (checked_add (len (private_value value)) 2) control_length_overflow in
      let? head := put_tlv_header IE_PRIVATE_EXTENSION l in
      Ok (head ++ u16_to_be_bytes (extension_identifier value) ++ private_value value)
  | RefUnknown value =>
      let? head := put_tlv_header (unknown_ie_type value) (len (unknown_value value)) in
      Ok (head ++ unknown_value value)
  end.

Definition ie_refs_optional (optional : OptionalControlIes) (recovery : bool)
    : list ControlIeRef :=
  (if recovery then [RefRecovery] else [])
  ++ match recovery_time_stamp optional with
     | Some value => [RefRecoveryTimeStamp value]
     | None => []
     end
  ++ (RefPrivate <$> private_extensions optional)
  ++ (RefUnknown <$> unknown_ies optional).

(** A chain of [checked_add]s over the counts. *)
Fixpoint add_counts (total : Z) (counts : list Z) : outcome GtpuControlCodecError Z :=
  match counts with
  | [] => Ok total
  | n :: counts =>
      let? total := ok_or (checked_add total n) control_length_overflow in
      add_counts total counts
  end.

Definition optional_ie_count (optional : OptionalControlIes) (recovery : bool)
    : outcome GtpuControlCodecError Z :=
  add_counts (Z.b2z recovery)
    [Z.b2z (present (recovery_time_stamp optional)); len (private_extensions optional);
     len (unknown_ies optional)].

Definition error_ie_count (value : GtpuErrorIndication) : outcome GtpuControlCodecError Z :=
  add_counts 2
    [Z.b2z (present (recovery_time_stamp (eind_optional value)));
     len (private_extensions (eind_optional value)); len (unknown_ies (eind_optional value))].

Definition supported_ie_count (value : GtpuSupportedExtensionHeadersNotification)
    : outcome GtpuControlCodecError Z :=
  add_counts 1 [len (sehn_private_extensions value); len (sehn_unknown_ies value)].

Definition end_marker_ie_count (value : GtpuEndMarker) : outcome GtpuControlCodecError Z :=
  add_counts (len (emrk_private_extensions value)) [len (emrk_unknown_ies value)].

Definition ensure_control_ie_count (count : Z) : outcome GtpuControlCodecError () :=
  if MAX_CONTROL_IES <? count then control_fail ControlIeCountExceeded 0 else Ok ().

Definition ie_refs_error (value : GtpuErrorIndication) : list ControlIeRef :=
  [RefTeid (teid_data_i value); RefPeerAddress (peer_address value)]
  ++ match recovery_time_stamp (eind_optional value) with
     | Some time_stamp => [RefRecoveryTimeStamp time_stamp]
     | None => []
     end
  ++ (RefPrivate <$> private_extensions (eind_optional value))
  ++ (RefUnknown <$> unknown_ies (eind_optional value)).

Definition ie_refs_supported (value : GtpuSupportedExtensionHeadersNotification)
    : list ControlIeRef :=
  [RefExtensionTypes (supported_types value)]
  ++ (RefPrivate <$> sehn_private_extensions value)
  ++ (RefUnknown <$> sehn_unknown_ies value).

Definition ie_refs_end_marker (value : GtpuEndMarker) : list ControlIeRef :=
  (RefPrivate <$> emrk_private_extensions value)
  ++ (RefUnknown <$> emrk_unknown_ies value).

(** The element list the [TunnelStatus] arm of [to_bytes] builds in place. *)
Definition ie_refs_tunnel_status (value : GtpuTunnelStatus) : list ControlIeRef :=
  [RefTunnelStatus (tsta_information value)]
  ++ (RefPrivate <$> tsta_private_extensions value)
  ++ (RefUnknown <$> tsta_unknown_ies value).

(** ** Sending: the frame *)

(** [slice::sort_by_key] is stable: an element goes before the first later one
    whose key is not smaller. *)
Fixpoint insert_by_type (ie : ControlIeRef) (ies : list ControlIeRef) : list ControlIeRef :=
  match ies with
  | [] => [ie]
  | other :: rest =>
      if ref_ie_type ie <=? ref_ie_type other then ie :: ies
      else other :: insert_by_type ie rest
  end.

Definition sort_by_type (ies : list ControlIeRef) : list ControlIeRef :=
  foldr insert_by_type [] ies.

Fixpoint payload_len_of (total : Z) (ies : list ControlIeRef)
    : outcome GtpuControlCodecError Z :=
  match ies with
  | [] => Ok total
  | ie :: ies =>
      let? l := ref_wire_len ie in
      let? total := ok_or (checked_add total l) control_length_overflow in
      payload_len_of total ies
  end.

Fixpoint encode_ies (ies : list ControlIeRef) : outcome GtpuControlCodecError bytes :=
  match ies with
  | [] => Ok []
  | ie :: ies =>
      let? octets := ref_encode ie in
      let? rest := encode_ies ies in
      Ok (octets ++ rest)
  end.

Definition of_encode_error (error : EncodeError) : GtpuControlCodecError :=
  match encode_code error with
  | CapacityExceeded _ _ => ControlError_new ControlCapacityExceeded 0
  | EncodeLengthOverflow => ControlError_new ControlLengthOverflow 0
  | EncodeStructural _ => ControlError_new InvalidModel 0
  end.

Definition control_frame (message_type teid : Z) (sequence_number : option Z)
    (extensions : GtpuExtensionChain) (payload : bytes) : GtpuMessage :=
  {| header :=
       {| version := 1; protocol_type := true; reserved := 0;
          ext_hdr_flag := has_headers extensions;
          seq_num_flag := present sequence_number;
          npdu_num_flag := false;
          message_type := message_type;
          length_field := 0;
          teid := teid;
          sequence_number := sequence_number;
          npdu_number := None;
          next_ext_type := first_extension_type extensions;
          raw_sequence_number := None;
          raw_npdu_number := None;
          raw_next_ext_type := None |};
     raw_extension_headers := raw_headers extensions;
     payload := payload |}.

Definition encode_control_frame (message_type teid : Z) (sequence_number : option Z)
    (extensions : GtpuExtensionChain) (ies : list ControlIeRef) (ctx : EncodeContext)
    : outcome GtpuControlCodecError bytes :=
  let? _ := map_err (λ _, ControlError_new InvalidModel 0) (validate_consistency extensions) in
  if MAX_CONTROL_IES <? len ies then control_fail ControlIeCountExceeded 0
  else
  let ies := sort_by_type ies in
  let? payload_len := payload_len_of 0 ies in
  let? optional_header_len :=
    ok_or (checked_mul (Z.b2z (present sequence_number || has_headers extensions)) 4)
      control_length_overflow in
  let? with_extensions :=
    ok_or (checked_add optional_header_len (len (raw_headers extensions)))
      control_length_overflow in
  let? bytes_after_mandatory_header :=
    ok_or (checked_add with_extensions payload_len) control_length_overflow in
  if 65535 <? bytes_after_mandatory_header then Err control_length_overflow
  else
  let? required := ok_or (checked_add 8 bytes_after_mandatory_header) control_length_overflow in
  if encode_max_message_len ctx <? required then control_fail ControlCapacityExceeded 0
  else
  let? payload := encode_ies ies in
  let message := control_frame message_type teid sequence_number extensions payload in
  let? encoded_required := map_err of_encode_error (wire_len message ctx) in
  if negb (encoded_required =? required) then control_fail InvalidModel 0
  else
  let '(destination, result) := encode message [] ctx in
  let? _ := map_err of_encode_error result in
  Ok destination.

Definition to_bytes (m : GtpuControlMessage) (ctx : EncodeContext)
    : outcome GtpuControlCodecError bytes :=
  match m with
  | EchoRequest value =>
      let? count := optional_ie_count (ereq_optional value) false in
      let? _ := ensure_control_ie_count count in
      encode_control_frame GTPU_MESSAGE_ECHO_REQUEST 0 (Some (ereq_sequence_number value))
        (ereq_extensions value) (ie_refs_optional (ereq_optional value) false) ctx
  | EchoResponse value =>
      let? count := optional_ie_count (eres_optional value) true in
      let? _ := ensure_control_ie_count count in
      encode_control_frame GTPU_MESSAGE_ECHO_RESPONSE 0 (Some (eres_sequence_number value))
        (eres_extensions value) (ie_refs_optional (eres_optional value) true) ctx
  | ErrorIndication value =>
      if teid_data_i value =? 0 then control_fail InvalidModel 0
      else
      let? count := error_ie_count value in
      let? _ := ensure_control_ie_count count in
      encode_control_frame GTPU_MESSAGE_ERROR_INDICATION 0 (Some 0)
        (eind_extensions value) (ie_refs_error value) ctx
  | SupportedExtensionHeadersNotification value =>
      let? count := supported_ie_count value in
      let? _ := ensure_control_ie_count count in
      encode_control_frame GTPU_MESSAGE_SUPPORTED_EXTENSION_HEADERS_NOTIFICATION 0 (Some 0)
        (sehn_extensions value) (ie_refs_supported value) ctx
  | TunnelStatus value =>
      let? count := add_counts 1 [len (tsta_private_extensions value);
                                  len (tsta_unknown_ies value)] in
      let? _ := ensure_control_ie_count count in
      encode_control_frame GTPU_MESSAGE_TUNNEL_STATUS (tsta_teid value) None
        (tsta_extensions value) (ie_refs_tunnel_status value) ctx
  | EndMarker value =>
      let? count := end_marker_ie_count value in
      let? _ := ensure_control_ie_count count in
      let? extensions :=
        map_err (λ _, ControlError_new InvalidModel 0)
          (canonicalize_pdu_session_container (emrk_extensions value)) in
      encode_control_frame GTPU_MESSAGE_END_MARKER (emrk_teid value) None extensions
        (ie_refs_end_marker value) ctx
  end.
