(* ===== verification/GtpuControlExtensions.v ===== *)
(** The extension headers of GTP-U control messages, [parse_extensions] of
    [crates/opc-proto-gtpu/src/control.rs]: the loop over the lazy iterator
    accepts exactly the well-formed chains within the limits whose headers are
    applicable to the procedure, and the summary it builds is the one
    [GtpuExtensionChain] keeps. *)
From S2P Require Import Prelude.
From S2P Require Import Protocol.
From S2P Require Import GtpuExtension.
From S2P Require Import GtpuChain.
From S2P Require Import GtpuMessage.
From S2P Require Import GtpuControl.

(** ** One header *)

(** An extension type the procedure may carry. *)
Definition applicable (message_type t : Z) : bool :=
  match classify_control_extension t message_type with
  | DispositionUdpPort | DispositionPduSessionContainer => true
  | StandardizedButInapplicable => false
  | DispositionUnknown => negb (unsupported_requires_comprehension_by t Endpoint)
  end.

(** The UDP port after one header, [None] when the header is refused. *)
Definition note_port (port : option Z) (h : GtpuExtensionHeader) : option (option Z) :=
  if ext_type h =? GTPU_EXT_UDP_PORT then
    match port, content h with
    | None, [a; b] => Some (Some (u16_from_be_bytes a b))
    | _, _ => None
    end
  else Some port.

Fixpoint note_ports (port : option Z) (hs : list GtpuExtensionHeader) : option (option Z) :=
  match hs with
  | [] => Some port
  | h :: hs =>
      match note_port port h with
      | Some port => note_ports port hs
      | None => None
      end
  end.

Lemma classify_udp mt :
  classify_control_extension GTPU_EXT_UDP_PORT mt
  = if mt =? GTPU_MESSAGE_ERROR_INDICATION then DispositionUdpPort
    else StandardizedButInapplicable.
Proof. by unfold classify_control_extension; cbn -[Z.eqb]; destruct (mt =? _). Qed.

Lemma classify_psc mt :
  classify_control_extension GTPU_EXT_PDU_SESSION_CONTAINER mt
  = if mt =? GTPU_MESSAGE_END_MARKER then DispositionPduSessionContainer
    else StandardizedButInapplicable.
Proof. by unfold classify_control_extension; cbn -[Z.eqb]; destruct (mt =? _). Qed.

Lemma classify_other t mt :
  t ≠ GTPU_EXT_UDP_PORT → t ≠ GTPU_EXT_PDU_SESSION_CONTAINER →
  classify_control_extension t mt
  = if existsb (Z.eqb t) standardized_types then StandardizedButInapplicable
    else DispositionUnknown.
Proof.
  intros Hu Hp. unfold classify_control_extension.
  by rewrite (proj2 (Z.eqb_neq t _) Hu), (proj2 (Z.eqb_neq t _) Hp).
Qed.

Lemma applicable_udp mt :
  applicable mt GTPU_EXT_UDP_PORT = (mt =? GTPU_MESSAGE_ERROR_INDICATION).
Proof. unfold applicable. rewrite classify_udp. by destruct (mt =? _). Qed.

Lemma applicable_psc mt :
  applicable mt GTPU_EXT_PDU_SESSION_CONTAINER = (mt =? GTPU_MESSAGE_END_MARKER).
Proof. unfold applicable. rewrite classify_psc. by destruct (mt =? _). Qed.

Lemma two_octets (c : bytes) : len c = 2 ↔ ∃ a b, c = [a; b].
Proof.
  split; [|by intros (a & b & ->)].
  destruct c as [|a [|b [|]]]; intros H; [len_lia..| |len_lia]. eauto.
Qed.

(** The source's turn on one header, split into its three independent parts. *)
Lemma note_extension_iff mt h off udp psc port' psc' :
  (∃ udp', note_extension mt h off udp psc = Ok (udp', psc') ∧ fst <$> udp' = port')
  ↔ applicable mt (ext_type h) = true ∧ note_port (fst <$> udp) h = Some port'
    ∧ note_container psc h = Ok psc'.
Proof.
  unfold note_extension, note_port, note_container.
  destruct (decide (ext_type h = GTPU_EXT_UDP_PORT)) as [Eu|Nu];
    [|destruct (decide (ext_type h = GTPU_EXT_PDU_SESSION_CONTAINER)) as [Ep|Np]].
  - rewrite Eu, classify_udp, applicable_udp. destruct (mt =? _); [|naive_solver].
    rewrite Z.eqb_refl. change (GTPU_EXT_UDP_PORT =? GTPU_EXT_PDU_SESSION_CONTAINER) with false.
    destruct (len (content h) =? 2) eqn:El; cbn [negb]; to_prop.
    + apply two_octets in El as (a & b & ->). destruct udp as [[]|]; cbn; naive_solver.
    + split; [naive_solver|]. intros (_ & H & _). exfalso. apply El, two_octets.
      destruct (fst <$> udp), (content h) as [|? [|? []]]; naive_solver.
  - rewrite Ep, classify_psc, applicable_psc. destruct (mt =? _); [|naive_solver].
    change (GTPU_EXT_PDU_SESSION_CONTAINER =? GTPU_EXT_UDP_PORT) with false.
    rewrite Z.eqb_refl. destruct psc; cbn; [naive_solver|].
    destruct (psc_decode_with_reason h) as [|[]|]; cbn; naive_solver.
  - rewrite (proj2 (Z.eqb_neq _ _) Nu), (proj2 (Z.eqb_neq _ _) Np).
    unfold applicable. rewrite classify_other by done.
    destruct (existsb _ _); [naive_solver|].
    destruct (unsupported_requires_comprehension_by _ _); naive_solver.
Qed.

Lemma note_extension_returns mt h off udp psc : returns (note_extension mt h off udp psc).
Proof.
  unfold note_extension. pose proof (psc_decode_returns h) as Hr.
  destruct (classify_control_extension _ _); [| |done|by destruct (unsupported_requires_comprehension_by _ _)].
  - destruct (len (content h) =? 2) eqn:El; cbn [negb]; [|done]. to_prop.
    apply two_octets in El as (a & b & ->). by destruct udp.
  - destruct psc; [done|]. by destruct (psc_decode_with_reason h) as [|[]|].
Qed.

(** ** The chain *)

Fixpoint note_extensions (mt off : Z) (udp : option (Z * Z)) (psc : option PduSessionContainer)
    (hs : list GtpuExtensionHeader)
    : outcome GtpuControlCodecError (option (Z * Z) * option PduSessionContainer) :=
  match hs with
  | [] => Ok (udp, psc)
  | h :: hs =>
      let? (udp, psc) := note_extension mt h off udp psc in
      note_extensions mt (off + len (content h) + 2) udp psc hs
  end.

Definition all_applicable (mt : Z) (hs : list GtpuExtensionHeader) : bool :=
  forallb (λ h, applicable mt (ext_type h)) hs.

Lemma note_extensions_iff mt hs : ∀ off udp psc port' psc',
  (∃ udp', note_extensions mt off udp psc hs = Ok (udp', psc') ∧ fst <$> udp' = port')
  ↔ all_applicable mt hs = true ∧ note_ports (fst <$> udp) hs = Some port'
    ∧ note_all psc hs = Ok psc'.
Proof.
  induction hs as [|h hs IH]; intros off udp psc port' psc'; cbn; [naive_solver|].
  rewrite andb_true_iff.
  destruct (note_extension mt h off udp psc) as [[udp1 psc1]|e|] eqn:Hn.
  - destruct (proj1 (note_extension_iff mt h off udp psc (fst <$> udp1) psc1)) as (-> & -> & ->);
      [eauto|]. rewrite IH. naive_solver.
  - split; [naive_solver|]. intros ((Ha & _) & Hp & Hc).
    destruct (note_port _ h) as [p1|] eqn:E1; [|done].
    destruct (note_container psc h) as [psc1|?|] eqn:E2; [|done..].
    destruct (proj2 (note_extension_iff mt h off udp psc p1 psc1)) as (? & E & _); [done|].
    congruence.
  - by destruct (note_extension_returns mt h off udp psc).
Qed.

(** Only an Error Indication carries a port. *)
Lemma no_ports mt hs port :
  all_applicable mt hs = true → mt ≠ GTPU_MESSAGE_ERROR_INDICATION →
  note_ports port hs = Some port.
Proof.
  intros Ha Hm. induction hs as [|h hs IH]; cbn in *; [done|]. to_prop.
  unfold note_port. destruct (_ =? _) eqn:E; [|auto]. to_prop.
  rewrite E, applicable_udp in *. to_prop. done.
Qed.

Definition within (ctx : DecodeContext) (k : Z) (hs : list GtpuExtensionHeader) : Prop :=
  hs ≠ [] → k + len hs ≤ max_depth ctx ∧ k + len hs ≤ max_ies ctx.

Lemma count_extension_cases ctx k off :
  0 ≤ k < USIZE_MAX →
  count_extension ctx k off
  = if max_depth ctx <? k + 1 then Err (framing DepthExceeded off)
    else if max_ies ctx <? k + 1 then Err (framing IeCountExceeded off)
    else Ok (k + 1).
Proof. intros Hk. unfold count_extension. by rewrite checked_add_ok by lia. Qed.

Lemma within_cons ctx k h hs :
  within ctx k (h :: hs)
  ↔ (max_depth ctx <? k + 1) = false ∧ (max_ies ctx <? k + 1) = false
    ∧ within ctx (k + 1) hs.
Proof.
  unfold within. rewrite !Z.ltb_ge. autorewrite with len. pose proof (len_nonneg hs) as Hl. split.
  - intros H. specialize (H ltac:(done)). split_and!; try lia.
  - intros (? & ? & H) _. destruct (decide (hs = [])) as [->|Hne]; [rewrite len_nil; lia|].
    specialize (H Hne). lia.
Qed.

Lemma parse_loop_chain mt ctx t hs raw : ext_chain t hs raw → ∀ fuel udp psc k off udp' psc' k' off',
  (length hs < fuel)%nat → 0 ≤ k ≤ off → off + len raw < USIZE_MAX →
  parse_extensions_loop fuel mt ctx {| buffer := raw; iter_next_ext_type := t |} udp psc k off
  = Ok (udp', psc', k', off')
  ↔ within ctx k hs ∧ note_extensions mt off udp psc hs = Ok (udp', psc')
    ∧ k' = k + len hs ∧ off' = off + len raw.
Proof.
  induction 1 as [|t u c n hs raw Ht Hu Hc Hch IH];
    intros [|fuel] udp psc k off udp' psc' k' off' Hf Hk Hl; cbn in Hf; try lia.
  - cbn. rewrite !Z.add_0_r. unfold within. naive_solver.
  - cbn [parse_extensions_loop note_extensions]. rewrite iter_next_cons by done. cbn [content].
    pose proof (len_nonneg raw). pose proof (len_nonneg c). autorewrite with len in Hl.
    rewrite count_extension_cases, within_cons by lia.
    destruct (_ <? k + 1); [split; [done|by intros ((? & _) & _)]|].
    destruct (_ <? k + 1); [split; [done|by intros ((_ & ? & _) & _)]|].
    destruct (note_extension mt _ off udp psc) as [[udp1 psc1]|e|];
      [|split; [done|by intros (_ & ? & _)]..].
    rewrite checked_add_ok by lia. cbn [ok_or]. rewrite checked_add_ok by lia. cbn [ok_or].
    rewrite IH by lia. autorewrite with len.
    replace (off + len c + 2 + len raw) with (off + (1 + (len c + (1 + len raw)))) by lia.
    replace (k + 1 + len hs) with (k + (1 + len hs)) by lia. tauto.
Qed.

Lemma extensions_loop_inv mt ctx fuel : ∀ buf t udp psc k off udp' psc' k' off',
  bytes_ok buf →
  parse_extensions_loop fuel mt ctx {| buffer := buf; iter_next_ext_type := t |} udp psc k off
  = Ok (udp', psc', k', off') →
  ∃ hs raw post, buf = raw ++ post ∧ ext_chain t hs raw ∧ off' = off + len raw.
Proof.
  induction fuel as [|fuel IH]; [done|]. intros buf t udp psc k off udp' psc' k' off' Hb H.
  cbn [parse_extensions_loop] in H.
  destruct (iter_next _) as [[[h|]|e|] it'] eqn:Hn; try done.
  - destruct (iter_next_inv _ _ _ _ Hb Hn) as (Ht & u & c & n & rest & -> & Hu & Hc & -> & ->).
    destruct (count_extension _ _ _); try done.
    destruct (note_extension _ _ _ _ _) as [[]|?|]; try done.
    destruct (checked_add off _) as [?|] eqn:E1; [|done]. cbn [ok_or content] in *.
    destruct (checked_add _ 2) as [?|] eqn:E2; [|done]. cbn [ok_or] in H.
    apply checked_add_some in E1 as [-> _], E2 as [-> _].
    rewrite bytes_ok_cons, bytes_ok_app, bytes_ok_cons in Hb. destruct Hb as (_ & _ & _ & Hb).
    destruct (IH _ _ _ _ _ _ _ _ _ _ Hb H) as (hs & raw & post & -> & Hch & ->).
    eexists _, (u :: c ++ n :: raw), post.
    split_and!; [cbn; by rewrite <- app_assoc|by constructor|len_lia].
  - apply iter_next_None in Hn as [-> ->]. simplify_eq.
    exists [], [], buf. split_and!; [done|constructor|len_lia].
  - by destruct (count_extension _ _ _).
Qed.

Lemma ok_or_returns {E A} (o : option A) (e : E) : returns (ok_or o e).
Proof. by destruct o. Qed.

Lemma extensions_loop_returns mt ctx fuel : ∀ buf t udp psc k off,
  bytes_ok buf → (length buf < fuel)%nat →
  returns (parse_extensions_loop fuel mt ctx {| buffer := buf; iter_next_ext_type := t |}
             udp psc k off).
Proof.
  induction fuel as [|fuel IH]; intros buf t udp psc k off Hb Hf; [lia|].
  cbn [parse_extensions_loop].
  pose proof (iter_next_returns {| buffer := buf; iter_next_ext_type := t |} Hb) as Hr.
  assert (Hk : returns (count_extension ctx k off)).
  { unfold count_extension. destruct (checked_add _ _); cbn; [|done]. by repeat case_match. }
  destruct (iter_next _) as [[[h|]|e|] it] eqn:Hn; try done;
    destruct (count_extension ctx k off); try done.
  destruct (iter_next_inv _ _ _ _ Hb Hn) as (Ht & u & c & n & rest & -> & Hu & Hc & -> & ->).
  pose proof (note_extension_returns mt
    {| ext_type := t; content := c; header_next_ext_type := n |} off udp psc) as Hx.
  destruct (note_extension _ _ _ _ _) as [[]|?|]; try done.
  destruct (checked_add off _); [|done]. cbn [ok_or].
  destruct (checked_add _ 2); [|done]. cbn [ok_or].
  rewrite bytes_ok_cons, bytes_ok_app, bytes_ok_cons in Hb.
  apply IH; [naive_solver|]. cbn in Hf. rewrite List.length_app in Hf. cbn in Hf. lia.
Qed.

(** ** [parse_extensions] *)

(** The first extension type of a frame, 0 when there is none. *)
Definition first_type (m : GtpuMessage) : Z := iter_next_ext_type (extensions m).

Definition summary (t : Z) (raw : bytes) (k : Z) (psc : option PduSessionContainer)
    : GtpuExtensionChain :=
  {| first_extension_type := if t =? 0 then None else Some t;
     raw_headers := raw; header_count := k; pdu_session_container := psc |}.

Lemma parse_extensions_iff m mt ctx c udp :
  bytes_ok (raw_extension_headers m) → len (raw_extension_headers m) + 12 < USIZE_MAX →
  parse_extensions m mt ctx = Ok (c, udp)
  ↔ ∃ hs psc, ext_chain (first_type m) hs (raw_extension_headers m) ∧ within ctx 0 hs
      ∧ note_extensions mt 12 None None hs = Ok (udp, psc)
      ∧ c = summary (first_type m) (raw_extension_headers m) (len hs) psc.
Proof.
  intros Hb Hl. unfold parse_extensions.
  assert (Hf : ∀ k psc,
    {| first_extension_type :=
         match (if ext_hdr_flag (header m) then next_ext_type (header m) else None) with
         | Some value => if negb (value =? 0) then Some value else None
         | None => None
         end;
       raw_headers := raw_extension_headers m; header_count := k; pdu_session_container := psc |}
    = summary (first_type m) (raw_extension_headers m) k psc).
  { intros k psc. unfold summary, first_type, extensions. cbn [iter_next_ext_type].
    destruct (if ext_hdr_flag _ then _ else _) as [x|]; cbn; [|done].
    by destruct (x =? 0) eqn:E. }
  set (raw := raw_extension_headers m) in *.
  change (extensions m) with {| buffer := raw; iter_next_ext_type := first_type m |}.
  split.
  - destruct (parse_extensions_loop _ _ _ _ _ _ _ _) as [[[[udp' psc'] k'] off']|?|] eqn:H;
      try done.
    destruct (extensions_loop_inv _ _ _ _ _ _ _ _ _ _ _ _ _ Hb H) as (hs & raw' & post & E & Hch & ->).
    rewrite checked_sub_ok by len_lia. cbn [ok_or].
    destruct (_ =? _) eqn:El; cbn [negb]; [|done]. to_prop.
    assert (post = []) as ->. { apply len_0_inv. rewrite E in El. len_lia. }
    rewrite app_nil_r in E. subst raw'. rewrite Hf. intros [= <- <-].
    apply ext_chain_fuel in Hch as Hn.
    destruct (proj1 (parse_loop_chain mt ctx _ _ _ Hch (S (length raw)) None None 0 12 _ _ _ _
      ltac:(lia) ltac:(lia) ltac:(lia)) H) as (Hw & Hx & Ek & _).
    exists hs, psc'. by rewrite Ek, Z.add_0_l.
  - intros (hs & psc & Hch & Hw & Hx & ->). apply ext_chain_fuel in Hch as Hn.
    rewrite (proj2 (parse_loop_chain mt ctx _ _ _ Hch (S (length raw)) None None 0 12 udp psc
      (len hs) (12 + len raw) ltac:(lia) ltac:(lia) ltac:(lia)) ltac:(done)).
    rewrite checked_sub_ok by len_lia. cbn [ok_or].
    rewrite (proj2 (Z.eqb_eq _ _)) by lia. cbn [negb]. by rewrite Hf.
Qed.

Lemma parse_extensions_returns m mt ctx :
  bytes_ok (raw_extension_headers m) → returns (parse_extensions m mt ctx).
Proof.
  intros Hb. unfold parse_extensions.
  pose proof (extensions_loop_returns mt ctx (S (length (raw_extension_headers m)))
    (raw_extension_headers m) (first_type m) None None 0 12 Hb ltac:(lia)) as Hr.
  change {| buffer := raw_extension_headers m; iter_next_ext_type := first_type m |}
    with (extensions m) in Hr.
  destruct (parse_extensions_loop _ _ _ _ _ _ _ _) as [[[[udp psc] k] off]|?|]; try done.
  destruct (checked_sub off 12); cbn [ok_or]; [|done]. by destruct (_ =? _).
Qed.

(** What an accepted chain is: a consistent summary of applicable headers within
    the limits, with the UDP port among them. *)
Definition control_chain (ctx : DecodeContext) (mt : Z) (c : GtpuExtensionChain)
    (port : option Z) : Prop :=
  ∃ hs, chain_of hs c ∧ within ctx 0 hs ∧ all_applicable mt hs = true
        ∧ note_ports None hs = Some port.

(** ... of the octets of the frame. *)
Definition chain_in (m : GtpuMessage) (c : GtpuExtensionChain) : Prop :=
  raw_headers c = raw_extension_headers m
  ∧ first_extension_type c = (if first_type m =? 0 then None else Some (first_type m)).

Lemma summary_chain_of t hs raw psc :
  ext_chain t hs raw → note_all None hs = Ok psc → chain_of hs (summary t raw (len hs) psc).
Proof. intros Hch Hn. exists t. split_and!; [done..|by apply note_all_none]. Qed.

Lemma parse_extensions_spec m mt ctx c port :
  bytes_ok (raw_extension_headers m) → len (raw_extension_headers m) + 12 < USIZE_MAX →
  (∃ udp, parse_extensions m mt ctx = Ok (c, udp) ∧ fst <$> udp = port)
  ↔ chain_in m c ∧ control_chain ctx mt c port.
Proof.
  intros Hb Hl. split.
  - intros (udp & H & Hp). apply parse_extensions_iff in H as (hs & psc & Hch & Hw & Hx & ->);
      [|done..].
    destruct (proj1 (note_extensions_iff mt hs 12 None None port psc)) as (Ha & Hn & Hc); [eauto|].
    split; [done|]. exists hs. split_and!; try done. by apply summary_chain_of.
  - intros [[Er Ef] (hs & (t & Hch & Et & Ek & Hc) & Hw & Ha & Hn)].
    rewrite Er in Hch.
    assert (t = first_type m) as ->.
    { rewrite Et in Ef. destruct (t =? 0) eqn:E1, (first_type m =? 0) eqn:E2; to_prop; congruence. }
    destruct (proj2 (note_extensions_iff mt hs 12 None None port (pdu_session_container c)))
      as (udp & Hx & Hu); [split_and!; [done..|by apply note_all_none]|].
    exists udp. split; [|done]. apply parse_extensions_iff; [done..|].
    exists hs, (pdu_session_container c). split_and!; [done..|].
    destruct c; cbn in *. by subst.
Qed.

(** ** The container of an End Marker *)

Lemma ext_chain_raw t hs raw : ext_chain t hs raw → ∀ t' raw',
  ext_chain t' hs raw' → t = t' ∧ raw = raw'.
Proof.
  induction 1 as [|t u c n hs raw Ht Hu Hc Hch IH]; intros t' raw' H; inversion H; simplify_eq;
    [done|]. destruct (IH _ _ ltac:(eassumption)) as [_ ->].
  split; [done|]. f_equal. lia.
Qed.

Lemma chain_of_eq hs c c' :
  chain_of hs c → chain_of hs c' → pdu_session_container c = pdu_session_container c' → c = c'.
Proof.
  intros (t & Hch & Hf & Hk & _) (t' & Hch' & Hf' & Hk' & _) Hp.
  destruct (ext_chain_raw _ _ _ Hch _ _ Hch') as [-> E].
  destruct c, c'; cbn in *. congruence.
Qed.

Lemma parts_size_split t ps :
  parts_size ps = parts_size (List.filter (has_type t) ps) + parts_size (others t ps).
Proof.
  unfold others. induction ps as [|p ps IH]; cbn; [done|]. destruct (has_type t p); cbn; lia.
Qed.

Lemma count_split t (ps : list (Z * bytes)) :
  len ps = len (List.filter (has_type t) ps) + len (others t ps).
Proof.
  unfold others. induction ps as [|p ps IH]; [done|]. cbn [List.filter].
  destruct (has_type t p); cbn [negb]; len_lia.
Qed.

Lemma parts_len hs : len (parts hs) = len hs.
Proof. unfold parts, len. by rewrite length_fmap. Qed.

Lemma all_applicable_parts mt hs :
  all_applicable mt hs = forallb (λ p : Z * bytes, applicable mt p.1) (parts hs).
Proof. unfold all_applicable. induction hs as [|h hs IH]; cbn; [done|]. by rewrite IH. Qed.

Lemma forallb_others {f : Z * bytes → bool} t ps :
  forallb f ps = true → forallb f (others t ps) = true.
Proof.
  unfold others. induction ps as [|p ps IH]; cbn; [done|]. intros [? ?]%andb_true_iff.
  destruct (has_type t p); cbn; [auto|]. apply andb_true_iff. auto.
Qed.

(** The chain with its container first: the same headers otherwise. *)
Definition leading (hs : list GtpuExtensionHeader) (k : PduSessionContainer)
    : list GtpuExtensionHeader :=
  link ((GTPU_EXT_PDU_SESSION_CONTAINER, psc_wire k)
        :: others GTPU_EXT_PDU_SESSION_CONTAINER (parts hs)).

Lemma leading_idem hs k : leading (leading hs k) k = leading hs k.
Proof.
  unfold leading. rewrite parts_link. do 2 f_equal. unfold others at 1. cbn [List.filter].
  change (has_type _ (GTPU_EXT_PDU_SESSION_CONTAINER, psc_wire k)) with true. cbn [negb].
  unfold others. induction (parts hs) as [|p ps IH]; [done|]. cbn [List.filter].
  destruct (negb (has_type _ p)) eqn:E; cbn [List.filter]; [|done]. by rewrite E, IH.
Qed.

Lemma canonicalize_some hs c k :
  chain_of hs c → chain_ok c → len (raw_headers c) + 8 ≤ USIZE_MAX →
  pdu_session_container c = Some k →
  psc_fields_ok k ∧ psc_validate k = Ok ()
  ∧ ∃ c', canonicalize_pdu_session_container c = Ok c' ∧ chain_ok c' ∧ chain_of (leading hs k) c'
          ∧ pdu_session_container c' = Some k
          ∧ len (leading hs k) = len hs ∧ len (raw_headers c') = len (raw_headers c).
Proof.
  intros Hco Hok Hl Hk. destruct (chain_of_parts _ _ Hco Hok) as [Hch Hps].
  pose proof Hco as (_ & _ & _ & _ & Hc). rewrite Hk in Hc. unfold container_of in Hc.
  destruct (List.filter _ _) as [|p [|]] eqn:Ef; try done. destruct Hc as (k' & Hd & [= <-]).
  assert (Hin : p ∈ parts hs).
  { apply list_elem_of_In, (List.filter_In (has_type GTPU_EXT_PDU_SESSION_CONTAINER)).
    rewrite Ef. by left. }
  rewrite Forall_forall in Hps. destruct (Hps p Hin) as (_ & _ & Hb & _).
  destruct (psc_decode_valid (as_header p) k Hb Hd) as (Hf & Hv & Hw).
  split; [done|]. split; [done|].
  unfold canonicalize_pdu_session_container. rewrite Hk.
  destruct (upsert_pdu_session_container_parts hs c k Hco Hok Hf Hv Hl)
    as (c' & -> & Hok' & Hco' & Hk').
  exists c'. split_and!; try done; unfold leading.
  - rewrite <- parts_len, parts_link, <- (parts_len hs).
    rewrite (count_split GTPU_EXT_PDU_SESSION_CONTAINER (parts hs)), Ef. len_lia.
  - destruct (chain_of_parts _ _ Hco' Hok') as [Hch' _].
    rewrite <- (ext_chain_size _ _ _ Hch), <- (ext_chain_size _ _ _ Hch'), parts_link.
    rewrite (parts_size_split GTPU_EXT_PDU_SESSION_CONTAINER (parts hs)), Ef.
    cbn [parts_size snd]. cbn in Hw. lia.
Qed.

(** Sending an End Marker rebuilds its chain without changing its size, and the
    receiver accepts the result; sending it again changes nothing. *)
Lemma canonicalize_chain ctx c port :
  control_chain ctx GTPU_MESSAGE_END_MARKER c port → chain_ok c →
  len (raw_headers c) + 8 ≤ USIZE_MAX →
  ∃ c', canonicalize_pdu_session_container c = Ok c'
        ∧ control_chain ctx GTPU_MESSAGE_END_MARKER c' port ∧ chain_ok c'
        ∧ len (raw_headers c') = len (raw_headers c)
        ∧ pdu_session_container c' = pdu_session_container c
        ∧ canonicalize_pdu_session_container c' = Ok c'.
Proof.
  intros (hs & Hco & Hw & Ha & Hn) Hok Hl.
  rewrite (no_ports GTPU_MESSAGE_END_MARKER) in Hn by done. injection Hn as <-.
  destruct (pdu_session_container c) as [k|] eqn:Hk.
  - destruct (canonicalize_some hs c k Hco Hok Hl Hk)
      as (_ & _ & c' & E & Hok' & Hco' & Hk' & Hlen & Hraw).
    exists c'. split; [done|]. split; [|split; [done|split; [done|split; [done|]]]].
    + assert (Ha' : all_applicable GTPU_MESSAGE_END_MARKER (leading hs k) = true).
      { rewrite all_applicable_parts in Ha |- *. unfold leading. rewrite parts_link.
        cbn [forallb fst]. rewrite applicable_psc, forallb_others; done. }
      exists (leading hs k). split_and!; try done; [|by apply (no_ports GTPU_MESSAGE_END_MARKER)].
      intros _. rewrite Hlen. apply Hw. intros ->. unfold leading in Hlen. cbn in Hlen. len_lia.
    + destruct (canonicalize_some (leading hs k) c' k Hco' Hok' ltac:(lia) Hk')
        as (_ & _ & c'' & -> & _ & Hco'' & Hk'' & _). rewrite leading_idem in Hco''.
      f_equal. eapply chain_of_eq; [done..|congruence].
  - assert (canonicalize_pdu_session_container c = Ok c) as E.
    { unfold canonicalize_pdu_session_container. rewrite Hk.
      rewrite (proj2 (validate_consistency_iff c (proj1 Hok) ltac:(lia))) by eauto. done. }
    exists c. split_and!; try done. exists hs. split_and!; try done. by apply (no_ports GTPU_MESSAGE_END_MARKER).
Qed.
