(* ===== verification/GtpuControlIes.v ===== *)
(** The information elements of GTP-U control messages, [parse_ies] and
    [ControlIeRef] of [crates/opc-proto-gtpu/src/control.rs]: the loop reads
    exactly the payloads that are elements in ascending order within the limits,
    and what the sender writes for an element is what the loop reads. *)
From S2P Require Import Prelude.
From S2P Require Import Protocol.
From S2P Require Import GtpuExtension.
From S2P Require Import GtpuChain.
From S2P Require Import GtpuMessage.
From S2P Require Import GtpuControl.

(** ** Elements on the wire

    An element is its type and its value; the layout of its header depends on the
    type. *)

Definition ie_header (t l : Z) : bytes :=
  if in_range 0 127 t then [t]
  else if t =? IE_EXTENSION_HEADER_TYPE_LIST then [t; l]
  else t :: u16_to_be_bytes l.

Definition ie_wire (ie : Z * bytes) : bytes := ie_header ie.1 (len ie.2) ++ ie.2.

Definition ie_len_ok (t l : Z) : Prop :=
  if in_range 0 127 t then tv_value_len t = Some l
  else if t =? IE_EXTENSION_HEADER_TYPE_LIST then l < 256
  else l < 65536.

Definition ie_ok (ie : Z * bytes) : Prop :=
  u8 ie.1 ∧ bytes_ok ie.2 ∧ ie_len_ok ie.1 (len ie.2).

Fixpoint wires (ies : list (Z * bytes)) : bytes :=
  match ies with
  | [] => []
  | ie :: ies => ie_wire ie ++ wires ies
  end.

Lemma ie_header_cons t l : ∃ rest, ie_header t l = t :: rest.
Proof. unfold ie_header. repeat case_match; eauto. Qed.

Lemma ie_wire_pos ie : 0 < len (ie_wire ie).
Proof.
  unfold ie_wire. destruct (ie_header_cons ie.1 (len ie.2)) as [rest ->]. len_lia.
Qed.

Lemma ie_header_len t l :
  len (ie_header t l)
  = if in_range 0 127 t then 1 else if t =? IE_EXTENSION_HEADER_TYPE_LIST then 2 else 3.
Proof. unfold ie_header. by repeat case_match. Qed.

Lemma ie_header_bytes t l : u8 t → 0 ≤ l → ie_len_ok t l → bytes_ok (ie_header t l).
Proof.
  unfold ie_len_ok, ie_header. intros Ht Hl Hok.
  repeat case_match; rewrite ?bytes_ok_cons; [split; [done|constructor]| |].
  - split_and!; [done|unfold u8; lia|constructor].
  - destruct (u16_bytes l) as (a & b & -> & Ha & Hb & _); [unfold u16; lia|].
    rewrite !bytes_ok_cons. split_and!; [done..|constructor].
Qed.

Lemma ie_wire_bytes ie : ie_ok ie → bytes_ok (ie_wire ie).
Proof.
  intros (Ht & Hb & Hl). apply bytes_ok_app. split; [|done].
  apply ie_header_bytes; [done|apply len_nonneg|done].
Qed.

Lemma wires_bytes ies : Forall ie_ok ies → bytes_ok (wires ies).
Proof.
  induction 1; cbn; [constructor|]. apply bytes_ok_app. split; [by apply ie_wire_bytes|done].
Qed.

Lemma require_bytes_cases pre rest n off :
  require_bytes (pre ++ rest) (len pre) n off
  = if len rest <? n then control_fail TruncatedIe off else Ok ().
Proof.
  unfold require_bytes. autorewrite with len. pose proof (len_nonneg rest).
  by replace (Z.max 0 (len pre + len rest - len pre)) with (len rest) by lia.
Qed.

Lemma idx_second {E A} (pre post : list A) t x :
  idx (E := E) (pre ++ t :: x :: post) (len pre + 1) = Ok x.
Proof. rewrite (cons_middle t pre), app_assoc. apply idx_at. len_lia. Qed.

Lemma idx_third {E A} (pre post : list A) t x y :
  idx (E := E) (pre ++ t :: x :: y :: post) (len pre + 2) = Ok y.
Proof.
  replace (pre ++ t :: x :: y :: post) with ((pre ++ [t]) ++ x :: y :: post)
    by by rewrite <- app_assoc.
  rewrite <- idx_second with (pre := pre ++ [t]) (t := x) (post := post). f_equal. len_lia.
Qed.

Lemma ie_extent_wire pre ie post off :
  ie_ok ie →
  ie_extent (pre ++ ie_wire ie ++ post) (len pre) off ie.1
  = Ok (len (ie_header ie.1 (len ie.2)), len ie.2).
Proof.
  destruct ie as [t v]; intros (Ht & Hb & Hl). rewrite ie_header_len.
  unfold ie_wire, ie_header, ie_extent, ie_len_ok in *; cbn [fst snd] in *.
  destruct (in_range 0 127 t); [by rewrite Hl|].
  destruct (t =? _).
  - rewrite require_bytes_cases, (proj2 (Z.ltb_ge _ 2)) by len_lia.
    cbn [app]. by rewrite idx_second.
  - destruct (u16_bytes (len v)) as (a & b & E & _ & _ & Ev).
    { pose proof (len_nonneg v). unfold u16. lia. }
    rewrite E, require_bytes_cases, (proj2 (Z.ltb_ge _ 3)) by len_lia.
    cbn [app]. by rewrite idx_second, idx_third, Ev.
Qed.

(** Splitting the next element off a payload, or the error the reader reports. *)
Definition ie_error (pre rest : bytes) (off t : Z) : Prop :=
  ∃ e, (let? (h, v) := ie_extent (pre ++ rest) (len pre) off t in
        require_bytes (pre ++ rest) (len pre) (h + v) off) = Err e.

Lemma ie_split t tl :
  bytes_ok (t :: tl) →
  (∃ v post, t :: tl = ie_wire (t, v) ++ post ∧ ie_ok (t, v))
  ∨ ∀ pre off, ie_error pre (t :: tl) off t.
Proof.
  rewrite bytes_ok_cons. intros [Ht Hb].
  unfold ie_error, ie_extent, ie_wire, ie_header, ie_ok, ie_len_ok; cbn [fst snd].
  destruct (in_range 0 127 t).
  { destruct (tv_value_len t) as [n|] eqn:En; cbn [ok_or]; [|eauto].
    assert (0 ≤ n) by (unfold tv_value_len in En; repeat case_match; simplify_eq; lia).
    destruct (decide (n ≤ len tl)) as [Hn|Hn].
    - left. destruct (split_at tl n) as (v & post & -> & E); [lia|].
      apply bytes_ok_app in Hb as [? _]. exists v, post. rewrite E. by split_and!.
    - right. intros pre off. rewrite require_bytes_cases, (proj2 (Z.ltb_lt _ _)) by len_lia. eauto. }
  destruct (t =? _).
  { destruct tl as [|n tl]; [right; intros pre off; rewrite require_bytes_cases; cbn; eauto|].
    rewrite bytes_ok_cons in Hb. destruct Hb as [Hn Hb]. unfold u8 in Hn.
    destruct (decide (n ≤ len tl)) as [Hl|Hl].
    - left. destruct (split_at tl n) as (v & post & -> & E); [lia|].
      apply bytes_ok_app in Hb as [? _]. exists v, post. rewrite E. split_and!; try done. lia.
    - right. intros pre off. rewrite require_bytes_cases, (proj2 (Z.ltb_ge _ 2)) by len_lia.
      rewrite idx_second, require_bytes_cases, (proj2 (Z.ltb_lt _ _)) by len_lia. eauto. }
  destruct tl as [|a [|b tl]]; [right; intros pre off; rewrite require_bytes_cases; cbn; eauto..|].
  rewrite !bytes_ok_cons in Hb. destruct Hb as (Ha & Hb' & Hb).
  assert (Hu : u16 (u16_from_be_bytes a b)) by (unfold u8, u16, u16_from_be_bytes in *; lia).
  unfold u16 in Hu. destruct (decide (u16_from_be_bytes a b ≤ len tl)) as [Hl|Hl].
  - left. destruct (split_at tl (u16_from_be_bytes a b)) as (v & post & -> & E); [lia|].
    apply bytes_ok_app in Hb as [? _]. exists v, post. rewrite E, u16_to_from by done.
    split_and!; try done. lia.
  - right. intros pre off. rewrite require_bytes_cases, (proj2 (Z.ltb_ge _ 3)) by len_lia.
    rewrite idx_second, idx_third, require_bytes_cases, (proj2 (Z.ltb_lt _ _)) by len_lia. eauto.
Qed.

(** ** The loop *)

(** The types do not descend from [prev] on. *)
Fixpoint ascending (prev : option Z) (ts : list Z) : Prop :=
  match ts with
  | [] => True
  | t :: ts => (∀ p, prev = Some p → p ≤ t) ∧ ascending (Some t) ts
  end.

Fixpoint absorb_all (mt : Z) (ctx : DecodeContext) (seen : list bool) (parsed : ParsedIes)
    (off : Z) (ies : list (Z * bytes)) : outcome GtpuControlCodecError ParsedIes :=
  match ies with
  | [] => Ok parsed
  | ie :: ies =>
      let? (seen, parsed) := absorb_ie mt ctx seen parsed ie.1 ie.2 off in
      absorb_all mt ctx seen parsed (off + len (ie_wire ie)) ies
  end.

Definition count_ok (ctx : DecodeContext) (n : Z) : Prop :=
  n ≤ max_ies ctx ∧ n ≤ MAX_CONTROL_IES.

Lemma parse_turn fuel pre ie post base mt ctx count prev seen parsed :
  ie_ok ie → let payload := pre ++ ie_wire ie ++ post in
  0 ≤ base → base + len payload ≤ USIZE_MAX → 0 ≤ count ≤ len pre →
  parse_ies_loop (S fuel) payload base mt ctx (len pre) count prev seen parsed
  = if (max_ies ctx <? count + 1) || (MAX_CONTROL_IES <? count + 1)
    then control_fail ControlIeCountExceeded (base + len pre)
    else if match prev with Some p => ie.1 <? p | None => false end
    then control_fail IesOutOfOrder (base + len pre)
    else
      let? (seen, parsed) := absorb_ie mt ctx seen parsed ie.1 ie.2 (base + len pre) in
      parse_ies_loop fuel payload base mt ctx (len (pre ++ ie_wire ie)) (count + 1)
        (Some ie.1) seen parsed.
Proof.
  intros Hok payload Hp Hl Hc. pose proof (ie_wire_pos ie).
  cbn [parse_ies_loop]. rewrite (proj2 (Z.leb_gt _ _)) by (unfold payload; len_lia).
  rewrite checked_add_ok by (unfold payload in *; len_lia). cbn [ok_or].
  assert (saturating_add count 1 = count + 1) as ->.
  { unfold saturating_add, U64_MAX, USIZE_MAX, payload in *. pose proof (len_nonneg post). len_lia. }
  destruct (_ || _); [done|].
  assert (idx (E := GtpuControlCodecError) payload (len pre) = Ok ie.1) as ->.
  { unfold payload, ie_wire. destruct (ie_header_cons ie.1 (len ie.2)) as [rest ->].
    cbn [app]. by apply idx_at. }
  destruct (match prev with Some p => _ | None => _ end); [done|].
  unfold payload. rewrite ie_extent_wire by done.
  rewrite require_bytes_cases, (proj2 (Z.ltb_ge _ _)) by (unfold ie_wire; len_lia).
  assert (slice (E := GtpuControlCodecError) (pre ++ ie_wire ie ++ post)
    (len pre + len (ie_header ie.1 (len ie.2)))
    (len pre + len (ie_header ie.1 (len ie.2)) + len ie.2) = Ok ie.2) as ->.
  { unfold ie_wire. rewrite <- app_assoc, app_assoc. apply slice_at; len_lia. }
  replace (len pre + len (ie_header ie.1 (len ie.2)) + len ie.2) with (len (pre ++ ie_wire ie));
    [done|]. unfold ie_wire. len_lia.
Qed.

Lemma prev_ok (prev : option Z) t :
  match prev with Some p => t <? p | None => false end = false ↔ ∀ p, prev = Some p → p ≤ t.
Proof.
  destruct prev as [p|]; [|naive_solver]. rewrite Z.ltb_ge. naive_solver.
Qed.

Lemma parse_loop_ies mt ctx base ies p : 0 ≤ base → Forall ie_ok ies → ∀ fuel pre count prev seen parsed,
  (length ies ≤ fuel)%nat → base + len (pre ++ wires ies) ≤ USIZE_MAX → 0 ≤ count ≤ len pre →
  parse_ies_loop fuel (pre ++ wires ies) base mt ctx (len pre) count prev seen parsed = Ok p
  ↔ (ies ≠ [] → count_ok ctx (count + len ies)) ∧ ascending prev (fst <$> ies)
    ∧ absorb_all mt ctx seen parsed (base + len pre) ies = Ok p.
Proof.
  intros Hp. induction 1 as [|ie ies Hie Hies IH];
    intros fuel pre count prev seen parsed Hf Hl Hc.
  { cbn. rewrite app_nil_r. assert (parse_ies_loop fuel pre base mt ctx (len pre) count prev seen
      parsed = Ok parsed) as ->; [|naive_solver].
    destruct fuel; cbn; by rewrite (proj2 (Z.leb_le _ _)) by lia. }
  destruct fuel as [|fuel]; [cbn in Hf; lia|]. cbn [length] in Hf. cbn [wires] in Hl |- *.
  rewrite parse_turn by done. cbn [absorb_all fmap list_fmap ascending].
  rewrite <- prev_ok. unfold count_ok. pose proof (len_nonneg ies) as Hn.
  destruct (_ || _) eqn:Ec.
  { split; [done|]. intros (H & _). specialize (H ltac:(done)). autorewrite with len in H.
    apply orb_true_iff in Ec. rewrite !Z.ltb_lt in Ec. lia. }
  apply orb_false_iff in Ec. rewrite !Z.ltb_ge in Ec.
  destruct (match prev with Some _ => _ | None => _ end); [naive_solver|].
  destruct (absorb_ie mt ctx seen parsed ie.1 ie.2 (base + len pre)) as [[seen' parsed']|?|];
    [|naive_solver..].
  rewrite (app_assoc pre) in Hl |- *. pose proof (ie_wire_pos ie).
  rewrite IH by (done || lia || len_lia). unfold count_ok.
  rewrite (len_app pre (ie_wire ie)), len_cons.
  replace (base + (len pre + len (ie_wire ie))) with (base + len pre + len (ie_wire ie)) by lia.
  replace (count + (1 + len ies)) with (count + 1 + len ies) by lia.
  destruct (decide (ies = [])) as [->|Hne]; [change (len []) with 0|]; naive_solver lia.
Qed.

(** The reader cuts the payload into elements. *)
Lemma ies_loop_inv mt ctx base fuel : 0 ≤ base → ∀ pre rest count prev seen parsed p,
  bytes_ok rest → base + len (pre ++ rest) ≤ USIZE_MAX → 0 ≤ count ≤ len pre →
  parse_ies_loop fuel (pre ++ rest) base mt ctx (len pre) count prev seen parsed = Ok p →
  ∃ ies, Forall ie_ok ies ∧ rest = wires ies ∧ (length ies ≤ fuel)%nat.
Proof.
  intros Hp. induction fuel as [|fuel IH]; intros pre rest count prev seen parsed p Hb Hl Hc H.
  { exists []. split_and!; [constructor| |done]. cbn in H.
    destruct (_ <=? _) eqn:E; [|done]. to_prop. apply len_0_inv. len_lia. }
  destruct rest as [|t tl]; [exists []; split_and!; [constructor|done|cbn; lia]|].
  destruct (ie_split t tl Hb) as [(v & post & E & Hok)|He].
  - rewrite E in *. rewrite parse_turn in H by done.
    destruct (_ || _); [done|]. destruct (match prev with Some _ => _ | None => _ end); [done|].
    destruct (absorb_ie _ _ _ _ _ _ _) as [[seen' parsed']|?|]; [|done..].
    rewrite (app_assoc pre) in H, Hl. pose proof (ie_wire_pos (t, v)).
    apply bytes_ok_app in Hb as [_ Hb].
    destruct (IH (pre ++ ie_wire (t, v)) post (count + 1) _ _ _ _ Hb Hl ltac:(len_lia) H)
      as (ies & Hies & -> & Hf).
    exists ((t, v) :: ies). split_and!; [by constructor|done|cbn; lia].
  - exfalso. cbn [parse_ies_loop] in H. rewrite (proj2 (Z.leb_gt _ _)) in H by len_lia.
    destruct (checked_add _ _) as [off|]; [|done]. cbn [ok_or] in H.
    destruct (_ || _); [done|]. rewrite idx_at in H by done.
    destruct (match prev with Some _ => _ | None => _ end); [done|].
    destruct (He pre off) as [e He'].
    destruct (ie_extent _ _ _ _) as [[h v]|?|]; [|done..].
    by rewrite He' in H.
Qed.

Lemma wires_fuel ies : (length ies ≤ length (wires ies))%nat.
Proof.
  induction ies as [|ie ies IH]; [done|]. pose proof (ie_wire_pos ie) as Hw. unfold len in Hw.
  cbn. rewrite List.length_app. lia.
Qed.

Lemma parse_elements ies base mt ctx p :
  Forall ie_ok ies → 0 ≤ base → base + len (wires ies) ≤ USIZE_MAX →
  parse_ies (wires ies) base mt ctx = Ok p
  ↔ (ies ≠ [] → count_ok ctx (len ies)) ∧ ascending None (fst <$> ies)
    ∧ absorb_all mt ctx (replicate 256 false) ParsedIes_default base ies = Ok p.
Proof.
  intros Hies H0 Hl. unfold parse_ies.
  pose proof (parse_loop_ies mt ctx base ies p H0 Hies (length (wires ies)) [] 0 None
    (replicate 256 false) ParsedIes_default (wires_fuel ies) Hl ltac:(done)) as H.
  change (len []) with 0 in H. by rewrite Z.add_0_r in H.
Qed.

(** [parse_ies] accepts exactly the payloads that are elements, at most the limit
    of them, in ascending order of type, whose values are accepted in turn. *)
Lemma parse_ies_iff payload base mt ctx p :
  bytes_ok payload → 0 ≤ base → base + len payload ≤ USIZE_MAX →
  parse_ies payload base mt ctx = Ok p
  ↔ ∃ ies, Forall ie_ok ies ∧ payload = wires ies
           ∧ (ies ≠ [] → count_ok ctx (len ies)) ∧ ascending None (fst <$> ies)
           ∧ absorb_all mt ctx (replicate 256 false) ParsedIes_default base ies = Ok p.
Proof.
  intros Hb H0 Hl. split.
  - intros H. destruct (ies_loop_inv mt ctx base (length payload) H0 [] payload 0 _ _ _ _ Hb Hl
      ltac:(done) H) as (ies & Hies & -> & _).
    exists ies. by rewrite <- parse_elements.
  - intros (ies & Hies & -> & H). by apply parse_elements.
Qed.

(** ** Extension Header Type List *)

Definition types_ok (ts : list Z) : Prop :=
  NoDup ts ∧ Forall (λ v, u8 v ∧ v ≠ 0) ts ∧ len ts ≤ 255.

Lemma header_types_from_spec ts : ∀ seen used count,
  marks 256 seen used → bytes_ok ts → 0 ≤ count ≤ 255 →
  returns (header_types_from seen count ts)
  ∧ (header_types_from seen count ts = Ok ()
     ↔ NoDup ts ∧ Forall (λ v, v ≠ 0) ts ∧ count + len ts ≤ 255 ∧ ∀ v, v ∈ ts → v ∉ used).
Proof.
  induction ts as [|v ts IH]; intros seen used count Hm Hb Hc; cbn [header_types_from].
  { split; [done|]. split; [|done]. intros _.
    split_and!; [apply NoDup_nil_2|constructor|len_lia|set_solver]. }
  apply bytes_ok_cons in Hb as [Hv Hb]. rewrite NoDup_cons, Forall_cons.
  pose proof (len_nonneg ts) as Hn. rewrite len_cons.
  destruct (v =? 0) eqn:E0; cbn [orb]; to_prop; [split; [done|]; naive_solver|].
  rewrite (Hm v Hv). case_bool_decide as Hu; cbn [orb].
  { split; [done|]. split; [done|]. intros (_ & _ & _ & H). destruct (H v); [set_solver|done]. }
  destruct (count =? 255) eqn:E1; to_prop; [split; [done|]; split; [done|]; lia|].
  destruct (IH _ _ (count + 1) (marks_update 256 seen used v Hv Hm) Hb ltac:(lia)) as [Hr ->].
  split; [done|]. split.
  - intros (H1 & H2 & H3 & H4). split_and!; try done; [|lia|]; set_solver.
  - intros ((H0 & H1) & (_ & H2) & H3 & H4). split_and!; try done; [lia|set_solver].
Qed.

Lemma header_types_new ts :
  bytes_ok ts →
  returns (GtpuExtensionHeaderTypeList_new ts)
  ∧ ∀ r, GtpuExtensionHeaderTypeList_new ts = Ok r ↔ r = ts ∧ types_ok ts.
Proof.
  intros Hb. unfold GtpuExtensionHeaderTypeList_new, types_ok.
  destruct (header_types_from_spec ts _ [] 0 (marks_start 256) Hb ltac:(lia)) as [Hr Hi].
  destruct (header_types_from _ _ _) as [[]|e|]; [|split; [done|]..|done].
  - split; [done|]. intros r. destruct (proj1 Hi eq_refl) as (H1 & H2 & H3 & _).
    rewrite Forall_and. rewrite Z.add_0_l in H3. unfold bytes_ok in Hb. naive_solver.
  - intros r. split; [done|]. intros (_ & H1 & H2 & H3).
    discriminate (proj2 Hi). split_and!; [done| |lia|set_solver].
    eapply Forall_impl; [exact H2|]. by intros ? [].
Qed.
