(* ===== verification/GtpuControlRefs.v ===== *)
(** The typed information elements of GTP-U control messages,
    [crates/opc-proto-gtpu/src/control.rs]: what the sender writes for an element
    ([ControlIeRef]), what the receiver stores for it, and the order the sender
    puts elements in.  An accepted payload is described by the typed elements the
    receiver kept. *)
From S2P Require Import Prelude.
From S2P Require Import Protocol.
From S2P Require Import GtpuExtension.
From S2P Require Import GtpuChain.
From S2P Require Import GtpuMessage.
From S2P Require Import GtpuControl.
From S2P Require Import GtpuControlIes.

(** ** One element *)

(** The field ranges of the source's types and the lengths that fit a TLV. *)
Definition ref_ok (r : ControlIeRef) : Prop :=
  match r with
  | RefRecovery => True
  | RefTeid v => u32 v
  | RefPeerAddress (IpV4 o) => bytes_ok o ∧ len o = 4
  | RefPeerAddress (IpV6 o) => bytes_ok o ∧ len o = 16
  | RefExtensionTypes ts => types_ok ts
  | RefRecoveryTimeStamp v =>
      u32 (seconds_since_1900 v) ∧ bytes_ok (rts_additional_data v)
      ∧ len (rts_additional_data v) + 4 < 65536
  | RefTunnelStatus v =>
      bytes_ok (tsi_additional_data v) ∧ len (tsi_additional_data v) + 1 < 65536
  | RefPrivate v =>
      u16 (extension_identifier v) ∧ bytes_ok (private_value v)
      ∧ len (private_value v) + 2 < 65536
  | RefUnknown v =>
      u8 (unknown_ie_type v) ∧ defined_ie (unknown_ie_type v) = false
      ∧ bytes_ok (unknown_value v) ∧ len (unknown_value v) < 65536
  end.

Definition ref_value (r : ControlIeRef) : bytes :=
  match r with
  | RefRecovery => [0]
  | RefTeid v => u32_to_be_bytes v
  | RefPeerAddress (IpV4 o) | RefPeerAddress (IpV6 o) => o
  | RefExtensionTypes ts => ts
  | RefRecoveryTimeStamp v => u32_to_be_bytes (seconds_since_1900 v) ++ rts_additional_data v
  | RefTunnelStatus v => Z.b2z (spoc v) :: tsi_additional_data v
  | RefPrivate v => u16_to_be_bytes (extension_identifier v) ++ private_value v
  | RefUnknown v => unknown_value v
  end.

Definition ref_raw (r : ControlIeRef) : Z * bytes := (ref_ie_type r, ref_value r).

Lemma defined_ie_false t :
  defined_ie t = false →
  128 ≤ t ∧ t ≠ IE_GTPU_PEER_ADDRESS ∧ t ≠ IE_EXTENSION_HEADER_TYPE_LIST
  ∧ t ≠ IE_GTPU_TUNNEL_STATUS ∧ t ≠ IE_RECOVERY_TIME_STAMP ∧ t ≠ IE_PRIVATE_EXTENSION.
Proof. unfold defined_ie. cbn [existsb]. intros H. to_prop. by split_and!. Qed.

Lemma in_range_unknown t : 128 ≤ t → in_range 0 127 t = false.
Proof. intros. unfold in_range. apply andb_false_iff. rewrite !Z.leb_gt. lia. Qed.

Lemma types_bytes ts : types_ok ts → bytes_ok ts.
Proof. intros (_ & H & _). eapply Forall_impl; [exact H|]. by intros ? []. Qed.

Lemma u32_octets n : u32 n → bytes_ok (u32_to_be_bytes n).
Proof.
  intros H. destruct (u32_bytes n H) as (? & ? & ? & ? & -> & ? & ? & ? & ? & _).
  rewrite !bytes_ok_cons. split_and!; [done..|constructor].
Qed.

Lemma u16_octets n : u16 n → bytes_ok (u16_to_be_bytes n).
Proof.
  intros H. destruct (u16_bytes n H) as (? & ? & -> & ? & ? & _).
  rewrite !bytes_ok_cons. split_and!; [done..|constructor].
Qed.

Lemma ref_raw_ok r : ref_ok r → ie_ok (ref_raw r).
Proof.
  destruct r as [|v|[o|o]|ts|v|v|v|v]; unfold ref_raw, ie_ok, ie_len_ok; cbn [ref_ok ref_value fst snd ref_ie_type].
  - by intros _; split_and!; [|constructor; [|constructor]|].
  - by intros H; split_and!; [|apply u32_octets|].
  - by intros [? ->].
  - by intros [? ->].
  - intros H. split_and!; [done|by apply types_bytes|]. destruct H as (_ & _ & ?). cbn. lia.
  - intros (? & ? & ?). split_and!; [done|apply bytes_ok_app; by split; [apply u32_octets|]|].
    cbn -[len]. len_lia.
  - intros (? & ?). split_and!; [done| |cbn -[len]; len_lia].
    rewrite bytes_ok_cons. split; [|done]. by destruct (spoc v).
  - intros (? & ? & ?). split_and!; [done|apply bytes_ok_app; by split; [apply u16_octets|]|].
    cbn -[len]. len_lia.
  - intros (? & H & ? & ?). split_and!; [done..|]. apply defined_ie_false in H as (? & _ & ? & _).
    rewrite in_range_unknown by done. by rewrite (proj2 (Z.eqb_neq _ _)).
Qed.

(** The sender's two passes agree: the length it announces is the length of what it
    writes, which is the element on the wire. *)
Lemma tlv_encode t n :
  128 ≤ t → t ≠ IE_EXTENSION_HEADER_TYPE_LIST → 0 ≤ n < 65536 →
  put_tlv_header t n = Ok (ie_header t n) ∧ tlv_wire_len n = Ok (len (ie_header t n) + n).
Proof.
  intros Ht Hne Hn. rewrite ie_header_len. unfold put_tlv_header, tlv_wire_len, ie_header.
  rewrite in_range_unknown, (proj2 (Z.eqb_neq _ _)), (proj2 (Z.ltb_ge _ n)) by (done || lia).
  rewrite checked_add_ok by (unfold USIZE_MAX; lia). split; [done|]. cbn [ok_or]. f_equal. lia.
Qed.

Ltac tlv_case t v n :=
  let H1 := fresh in let H2 := fresh in
  rewrite checked_add_ok by (unfold USIZE_MAX; len_lia); cbn [ok_or];
  destruct (tlv_encode t (len v + n)) as [H1 H2]; [done|done|len_lia|];
  rewrite H1, H2; unfold ie_wire; cbn [fst snd].

Lemma ref_encode_ok r :
  ref_ok r →
  ref_encode r = Ok (ie_wire (ref_raw r)) ∧ ref_wire_len r = Ok (len (ie_wire (ref_raw r))).
Proof.
  destruct r as [|v|[o|o]|ts|v|v|v|v]; cbn [ref_ok]; unfold ref_raw; cbn [ref_encode ref_wire_len ref_value ref_ie_type].
  - done.
  - done.
  - intros [_ Hl]. unfold ie_wire; cbn [fst snd]. rewrite Hl. by rewrite len_app, Hl.
  - intros [_ Hl]. unfold ie_wire; cbn [fst snd]. rewrite Hl. by rewrite len_app, Hl.
  - intros (_ & _ & Hl). rewrite (proj2 (Z.ltb_ge _ _)) by lia.
    rewrite checked_add_ok by (unfold USIZE_MAX; lia). split; [done|].
    unfold ie_wire; cbn -[len]. f_equal. len_lia.
  - intros (_ & _ & Hl). tlv_case IE_RECOVERY_TIME_STAMP (rts_additional_data v) 4.
    rewrite (len_app (u32_to_be_bytes _)), len_u32.
    replace (4 + len (rts_additional_data v)) with (len (rts_additional_data v) + 4) by lia.
    split; [done|]. f_equal. len_lia.
  - intros (_ & Hl). tlv_case IE_GTPU_TUNNEL_STATUS (tsi_additional_data v) 1.
    rewrite (len_cons (Z.b2z _)).
    replace (1 + len (tsi_additional_data v)) with (len (tsi_additional_data v) + 1) by lia.
    split; [done|]. f_equal. len_lia.
  - intros (_ & _ & Hl). tlv_case IE_PRIVATE_EXTENSION (private_value v) 2.
    rewrite (len_app (u16_to_be_bytes _)), len_u16.
    replace (2 + len (private_value v)) with (len (private_value v) + 2) by lia.
    split; [done|]. f_equal. len_lia.
  - intros (_ & Hd & _ & Hl). apply defined_ie_false in Hd as (? & _ & ? & _).
    destruct (tlv_encode (unknown_ie_type v) (len (unknown_value v))) as [-> ->];
      [done|done|len_lia|]. unfold ie_wire; cbn [fst snd]. split; [done|]. f_equal. len_lia.
Qed.

(** ** Storing an element *)

Definition clear_spare (v : GtpuTunnelStatusInformation) : GtpuTunnelStatusInformation :=
  {| spoc := spoc v; received_spare := 0; tsi_additional_data := tsi_additional_data v |}.

Definition preserves (ctx : DecodeContext) : bool :=
  bool_decide (unknown_ie_policy ctx = UnknownPreserve).

Definition store_ref (ctx : DecodeContext) (p : ParsedIes) (r : ControlIeRef) : ParsedIes :=
  match r with
  | RefRecovery => set_recovery p
  | RefTeid v => set_teid p v
  | RefPeerAddress v => set_peer p v
  | RefExtensionTypes v => set_types p v
  | RefRecoveryTimeStamp v => set_time_stamp p v
  | RefTunnelStatus v => set_status p v
  | RefPrivate v => push_private_ie p v
  | RefUnknown v => if preserves ctx then push_unknown_ie p v else p
  end.

(** The receiver does not see the spare bits the sender cleared. *)
Definition norm_ref (r : ControlIeRef) : ControlIeRef :=
  match r with
  | RefTunnelStatus v => RefTunnelStatus (clear_spare v)
  | _ => r
  end.

Lemma be_u32_octets n rest :
  u32 n → be_u32 (u32_to_be_bytes n ++ rest) = Ok n.
Proof. intros H. by destruct (u32_bytes n H) as (a & b & c & d & -> & _ & _ & _ & _ & <-). Qed.

Lemma slice_tail {E} (pre rest : bytes) n :
  n = len pre → slice (E := E) (pre ++ rest) n (len (pre ++ rest)) = Ok rest.
Proof.
  intros ->. rewrite <- (app_nil_r rest) at 1. apply slice_at; [done|]. len_lia.
Qed.

Lemma store_ie_unknown ctx p t v off :
  defined_ie t = false →
  store_ie ctx p t v off
  = Ok (store_ref ctx p (RefUnknown {| unknown_ie_type := t; unknown_value := v |})).
Proof.
  intros (Ht & ? & ? & ? & ? & ?)%defined_ie_false. unfold store_ie.
  rewrite !(proj2 (Z.eqb_neq t _)) by (done || (unfold IE_RECOVERY, IE_TEID_DATA_I; lia)).
  cbn [store_ref]. unfold preserves. by case_bool_decide.
Qed.

Lemma store_ie_ref ctx p r off :
  ref_ok r → store_ie ctx p (ref_ie_type r) (ref_value r) off = Ok (store_ref ctx p (norm_ref r)).
Proof.
  unfold store_ie. destruct r as [|v|[o|o]|ts|v|v|v|v];
    cbn [ref_ok ref_ie_type ref_value norm_ref store_ref].
  - done.
  - intros H. rewrite <- (app_nil_r (u32_to_be_bytes v)). cbn -[be_u32 u32_to_be_bytes].
    by rewrite be_u32_octets.
  - intros [_ Hl]. cbn -[len Z.eqb]. by rewrite Hl.
  - intros [_ Hl]. cbn -[len Z.eqb]. by rewrite Hl.
  - intros H. cbn -[GtpuExtensionHeaderTypeList_new].
    destruct (header_types_new ts (types_bytes _ H)) as [_ Hi].
    by rewrite (proj2 (Hi ts)).
  - intros (Hs & _ & _). cbn -[len Z.ltb be_u32 u32_to_be_bytes slice].
    rewrite (proj2 (Z.ltb_ge _ 4)) by len_lia. rewrite be_u32_octets by done.
    rewrite slice_tail by done. by destruct v.
  - intros _. cbn -[Z.land]. unfold clear_spare. by destruct (spoc v).
  - intros (Hs & _ & _). cbn -[len Z.ltb u16_to_be_bytes slice idx].
    rewrite (proj2 (Z.ltb_ge _ 2)) by len_lia. rewrite slice_tail by done.
    destruct (u16_bytes _ Hs) as (a & b & -> & _ & _ & E).
    destruct v as [i x]; cbn [extension_identifier private_value] in *. by subst i.
  - intros (_ & Hd & _). fold (store_ie ctx p (unknown_ie_type v) (unknown_value v) off).
    rewrite store_ie_unknown by done. by destruct v.
Qed.

(** Whatever the receiver stores is a typed element of the same wire length. *)
Lemma be_u32_cons a b c d tl :
  be_u32 (a :: b :: c :: d :: tl) = Ok (u32_from_be_bytes a b c d).
Proof. done. Qed.

Lemma be_u32_inv v n :
  bytes_ok v → be_u32 v = Ok n → u32 n.
Proof.
  intros Hb H. destruct v as [|a [|b [|c [|d tl]]]]; try done.
  rewrite be_u32_cons in H. injection H as <-.
  rewrite !bytes_ok_cons in Hb. destruct Hb as (? & ? & ? & ? & _).
  unfold u8, u32, u32_from_be_bytes in *. lia.
Qed.

Lemma be_u32_returns v : 4 ≤ len v → returns (be_u32 v).
Proof.
  intros H. destruct v as [|a [|b [|c [|d tl]]]]; try (exfalso; len_lia). done.
Qed.

Definition expected (mt : Z) (t : Z) : Prop :=
  defined_ie t = true → existsb (Z.eqb t) (allowed_ies mt) = true.

Lemma allowed_handled mt t :
  existsb (Z.eqb t) (allowed_ies mt) = true →
  t = IE_RECOVERY ∨ t = IE_TEID_DATA_I ∨ t = IE_EXTENSION_HEADER_TYPE_LIST
  ∨ t = IE_GTPU_PEER_ADDRESS ∨ t = IE_RECOVERY_TIME_STAMP ∨ t = IE_GTPU_TUNNEL_STATUS
  ∨ t = IE_PRIVATE_EXTENSION.
Proof.
  unfold allowed_ies.
  repeat match goal with |- context [if ?b then _ else _] => destruct b end;
    cbn [existsb]; rewrite ?orb_true_iff, ?Z.eqb_eq; intuition discriminate.
Qed.

Definition stored (ctx : DecodeContext) (p : ParsedIes) (t : Z) (v : bytes) (p' : ParsedIes)
    : Prop :=
  ∃ r, ref_ok r ∧ ref_ie_type r = t ∧ len (ref_value r) = len v ∧ p' = store_ref ctx p r.

Ltac kept r := exists r; split; [|split; [|split]].

Lemma store_fixed_inv ctx p t v off p' :
  ie_ok (t, v) → store_ie ctx p t v off = Ok p' →
  t = IE_RECOVERY ∨ t = IE_TEID_DATA_I ∨ t = IE_EXTENSION_HEADER_TYPE_LIST
  ∨ t = IE_GTPU_PEER_ADDRESS →
  stored ctx p t v p'.
Proof.
  intros (Ht & Hb & Hl) H [->|[->|[->| ->]]]; cbn [fst snd] in *; cbn in Hl.
  - injection H as <-. injection Hl as Hl. by kept RefRecovery.
  - cbn -[be_u32] in H. destruct (be_u32 v) as [n|?|] eqn:En; try done. simplify_eq.
    kept (RefTeid n); [by eapply be_u32_inv|done| |done]. cbn [ref_value]. len_lia.
  - cbn -[GtpuExtensionHeaderTypeList_new] in H. destruct (header_types_new v Hb) as [_ Hi].
    destruct (GtpuExtensionHeaderTypeList_new v) as [ts|?|]; try done. cbn in H. simplify_eq.
    destruct (proj1 (Hi ts) eq_refl) as [-> ?]. by kept (RefExtensionTypes v).
  - change (store_ie _ _ _ _ _) with
      (if len v =? 4 then Ok (set_peer p (IpV4 v))
       else if len v =? 16 then Ok (set_peer p (IpV6 v))
       else Err (control_invalid_length IE_GTPU_PEER_ADDRESS off)) in H.
    destruct (len v =? 4) eqn:E; [|destruct (len v =? 16) eqn:E']; simplify_eq; to_prop;
      [by kept (RefPeerAddress (IpV4 v))|by kept (RefPeerAddress (IpV6 v))].
Qed.

Lemma store_tlv_inv ctx p t v off p' :
  ie_ok (t, v) → store_ie ctx p t v off = Ok p' →
  t = IE_RECOVERY_TIME_STAMP ∨ t = IE_GTPU_TUNNEL_STATUS ∨ t = IE_PRIVATE_EXTENSION →
  stored ctx p t v p'.
Proof.
  intros (Ht & Hb & Hl) H [->|[->| ->]]; cbn [fst snd] in *; cbn in Hl.
  - unfold store_ie in H. cbn -[len Z.ltb be_u32 slice] in H.
    destruct (len v <? 4) eqn:E; [done|]. to_prop.
    destruct (be_u32 v) as [n|?|] eqn:En; try done.
    destruct (slice v 4 (len v)) as [x|?|] eqn:Ex; try done. simplify_eq.
    apply slice_inv in Ex as (pre & post & -> & Hp & Hx).
    assert (post = []) as -> by (apply len_0_inv; len_lia). rewrite app_nil_r in *.
    rewrite bytes_ok_app in Hb.
    kept (RefRecoveryTimeStamp {| seconds_since_1900 := n; rts_additional_data := x |});
      cbn [ref_ok ref_value seconds_since_1900 rts_additional_data]; [|done|len_lia|done].
    split; [|split; [apply Hb|len_lia]].
    eapply be_u32_inv; [|exact En]. by apply bytes_ok_app.
  - destruct v as [|flags x]; [done|]. injection H as <-. rewrite bytes_ok_cons in Hb.
    by kept (RefTunnelStatus {| spoc := negb (Z.land flags 1 =? 0);
      received_spare := Z.land flags 0xfe; tsi_additional_data := x |});
      [split; [apply Hb|cbn [tsi_additional_data]; len_lia]|..].
  - destruct v as [|a [|b x]]; [done..|]. unfold store_ie in H.
    cbn -[len Z.ltb slice idx] in H.
    destruct (len _ <? 2) eqn:E; [done|]. to_prop. rewrite !bytes_ok_cons in Hb.
    change (a :: b :: x) with ([a; b] ++ x) in H. rewrite slice_tail in H by done.
    injection H as <-. destruct Hb as (Ha & Hb & Hx).
    kept (RefPrivate {| extension_identifier := u16_from_be_bytes a b; private_value := x |});
      cbn [ref_ok ref_value extension_identifier private_value]; [|done|len_lia|done].
    split; [unfold u8, u16, u16_from_be_bytes in *; lia|]. split; [done|len_lia].
Qed.

Lemma store_ie_inv ctx mt p t v off p' :
  ie_ok (t, v) → expected mt t → store_ie ctx p t v off = Ok p' → stored ctx p t v p'.
Proof.
  intros Hok He H. destruct (defined_ie t) eqn:Hd.
  - apply He, allowed_handled in Hd.
    destruct Hd as [?|[?|[?|[?|[?|[?|?]]]]]]; (by eapply store_fixed_inv; eauto)
      || (eapply store_tlv_inv; eauto).
  - rewrite store_ie_unknown in H by done. simplify_eq. destruct Hok as (Ht & Hb & Hl).
    destruct (defined_ie_false _ Hd) as (? & _ & ? & _). unfold ie_len_ok in Hl; cbn [fst snd] in *.
    rewrite in_range_unknown, (proj2 (Z.eqb_neq _ _)) in Hl by done.
    by kept (RefUnknown {| unknown_ie_type := t; unknown_value := v |}).
Qed.

Lemma store_ie_returns ctx mt p t v off :
  ie_ok (t, v) → expected mt t → returns (store_ie ctx p t v off).
Proof.
  intros (Ht & Hb & Hl) He. destruct (defined_ie t) eqn:Hd; [|by rewrite store_ie_unknown].
  apply He, allowed_handled in Hd. cbn [fst snd] in *.
  destruct Hd as [->|[->|[->|[->|[->|[->| ->]]]]]]; cbn in Hl.
  - done.
  - injection Hl as Hl. unfold store_ie. cbn -[be_u32].
    pose proof (be_u32_returns v ltac:(lia)) as Hr. by destruct (be_u32 v).
  - unfold store_ie. cbn -[GtpuExtensionHeaderTypeList_new].
    destruct (header_types_new v Hb) as [Hr _]. by destruct (GtpuExtensionHeaderTypeList_new v).
  - unfold store_ie, returns. cbn -[len]. by repeat case_match.
  - unfold store_ie. cbn -[len Z.ltb be_u32 slice]. destruct (len v <? 4) eqn:E; [done|]. to_prop.
    pose proof (be_u32_returns v ltac:(lia)) as Hr. destruct (be_u32 v); [|done..].
    by destruct (slice_ok (E := GtpuControlCodecError) v 4 (len v)) as [? ->]; [lia..|].
  - by destruct v.
  - destruct v as [|a [|b x]]; [done..|]. unfold store_ie.
    cbn -[len Z.ltb slice idx]. destruct (len _ <? 2); [done|].
    change (a :: b :: x) with ([a; b] ++ x). by rewrite slice_tail.
Qed.

(** ** Absorbing a list of elements *)

(** Offsets are kept for error reports only. *)
Definition strip (p : ParsedIes) : ParsedIes :=
  {| p_tunnel_status_information := p_tunnel_status_information p; p_recovery := p_recovery p;
     p_teid_data_i := p_teid_data_i p; p_peer_address := p_peer_address p;
     p_extension_header_type_list := p_extension_header_type_list p;
     p_recovery_time_stamp := p_recovery_time_stamp p;
     p_private_extensions := p_private_extensions p; p_unknown_ies := p_unknown_ies p;
     known_ie_offsets := [] |}.

Lemma strip_store ctx p r : strip (store_ref ctx p r) = store_ref ctx (strip p) r.
Proof. by destruct r; cbn; [..|destruct (preserves ctx)]. Qed.

Definition total (rs : list ControlIeRef) : Z :=
  foldr (λ r n, len (ie_wire (ref_raw r)) + n) 0 rs.

(** Every type but Private Extension occurs at most once, and not among [used]. *)
Fixpoint singletons (used : list Z) (ts : list Z) : Prop :=
  match ts with
  | [] => True
  | t :: ts => (t ∉ used ∨ t = IE_PRIVATE_EXTENSION) ∧ singletons (t :: used) ts
  end.

(** The elements of a payload the receiver keeps. *)
Record kept_refs (mt : Z) (used : list Z) (rs : list ControlIeRef) : Prop := {
  k_ok : Forall ref_ok rs;
  k_expected : Forall (λ r, expected mt (ref_ie_type r)) rs;
  k_singletons : singletons used (ref_ie_type <$> rs);
}.

Lemma ascending_weaken (prev : option Z) t ts :
  (∀ p, prev = Some p → p ≤ t) → ascending (Some t) ts → ascending prev ts.
Proof.
  destruct ts as [|u ts]; [done|]. cbn. intros Hp [Hu ?]. split; [|done].
  intros p ->. specialize (Hp p eq_refl). specialize (Hu t eq_refl). lia.
Qed.

Lemma singletons_weaken ts : ∀ used used',
  (∀ t, t ∈ used' → t ∈ used) → singletons used ts → singletons used' ts.
Proof.
  induction ts as [|t ts IH]; cbn; [done|]. intros used used' Hs [Ht Hts]. split; [naive_solver|].
  eapply IH; [|exact Hts]. set_solver.
Qed.

Lemma kept_weaken mt t used rs : kept_refs mt (t :: used) rs → kept_refs mt used rs.
Proof. intros [??]. split; [done..|]. eapply singletons_weaken; [|done]. set_solver. Qed.

Lemma absorb_cases mt ctx seen used p t v off :
  ie_ok (t, v) → marks 256 seen used →
  (absorb_ie mt ctx seen p t v off = Ok (seen, p) ∧ t ∈ used ∧ t ≠ IE_PRIVATE_EXTENSION)
  ∨ (absorb_ie mt ctx seen p t v off = Ok (<[Z.to_nat t := true]> seen, p) ∧ ¬ expected mt t)
  ∨ (t ∉ used ∨ t = IE_PRIVATE_EXTENSION) ∧ expected mt t
    ∧ ∃ p0, strip p0 = strip p
            ∧ absorb_ie mt ctx seen p t v off
              = map_ok (λ p', (<[Z.to_nat t := true]> seen, p')) (store_ie ctx p0 t v off).
Proof.
  intros (Ht & _ & _) Hm. unfold absorb_ie, expected; cbn [fst] in Ht. rewrite (Hm t Ht).
  case_bool_decide as Hu.
  - destruct (t =? IE_PRIVATE_EXTENSION) eqn:Ep; cbn [negb andb]; to_prop; [|by left].
    destruct (defined_ie t); cbn [andb].
    + destruct (existsb _ _); cbn [negb andb]; [|right; left; split; [done|]; naive_solver].
      right; right. split_and!; [by right|done|].
      exists (push_offset p t off). split; [done|]. by destruct (store_ie _ _ _ _ _).
    + right; right. split_and!; [by right|done|]. exists p. split; [done|].
      by destruct (store_ie _ _ _ _ _).
  - cbn [andb]. destruct (defined_ie t); cbn [andb].
    + destruct (existsb _ _); cbn [negb andb]; [|right; left; split; [done|]; naive_solver].
      right; right. split_and!; [by left|done|].
      exists (push_offset p t off). split; [done|]. by destruct (store_ie _ _ _ _ _).
    + right; right. split_and!; [by left|done|]. exists p. split; [done|].
      by destruct (store_ie _ _ _ _ _).
Qed.

Lemma absorb_all_returns mt ctx ies : Forall ie_ok ies → ∀ seen used p off,
  marks 256 seen used → returns (absorb_all mt ctx seen p off ies).
Proof.
  induction 1 as [|[t v] ies Hie Hies IH]; intros seen used p off Hm; [done|].
  pose proof (proj1 Hie) as Ht. cbn [absorb_all fst snd].
  destruct (absorb_cases mt ctx seen used p t v off Hie Hm)
    as [[-> _]|[[-> _]|(_ & He & p0 & _ & ->)]];
    [by eapply IH|by eapply IH, marks_update|].
  pose proof (store_ie_returns ctx mt p0 t v off Hie He) as Hr.
  destruct (store_ie _ _ _ _ _); cbn; [|done..]. by eapply IH, marks_update.
Qed.

(** What an accepted payload stores is the effect of the elements it kept: typed,
    expected in the message, singletons, in the order of the payload and no longer
    than it. *)
Lemma absorb_all_inv mt ctx ies : Forall ie_ok ies → ∀ seen used p off p' prev,
  marks 256 seen used → ascending prev (fst <$> ies) →
  absorb_all mt ctx seen p off ies = Ok p' →
  ∃ rs, kept_refs mt used rs ∧ strip p' = foldl (store_ref ctx) (strip p) rs
        ∧ ascending prev (ref_ie_type <$> rs) ∧ len rs ≤ len ies ∧ total rs ≤ len (wires ies).
Proof.
  induction 1 as [|[t v] ies Hie Hies IH]; intros seen used p off p' prev Hm Ha H.
  { cbn in H. simplify_eq. exists []. by split_and!. }
  pose proof (proj1 Hie) as Ht. cbn [absorb_all fst snd fmap list_fmap ascending wires] in *.
  destruct Ha as [Hp Ha]. rewrite len_cons, len_app.
  pose proof (ie_wire_pos (t, v)).
  destruct (absorb_cases mt ctx seen used p t v off Hie Hm)
    as [[E _]|[[E _]|(Hu & He & p0 & Ep & E)]]; rewrite E in H.
  - destruct (IH _ _ _ _ _ _ Hm Ha H) as (rs & Hk & Hs & Hr & Hl & Hw).
    exists rs. split_and!; try done; [|lia..]. by eapply ascending_weaken.
  - destruct (IH _ _ _ _ _ _ (marks_update 256 _ _ _ Ht Hm) Ha H) as (rs & Hk & Hs & Hr & Hl & Hw).
    exists rs. split_and!; try done; [by eapply kept_weaken|by eapply ascending_weaken|lia..].
  - destruct (store_ie ctx p0 t v off) as [p1|?|] eqn:Es; try done. cbn [map_ok] in H.
    destruct (store_ie_inv ctx mt p0 t v off p1 Hie He Es) as (r & Hr & <- & Hv & ->).
    destruct (IH _ _ _ _ _ _ (marks_update 256 _ _ _ Ht Hm) Ha H) as (rs & [] & Hs & Hra & Hl & Hw).
    exists (r :: rs). split_and!; [by split; constructor| | | |].
    + by rewrite strip_store, Ep in Hs.
    + done.
    + rewrite len_cons. lia.
    + cbn [total foldr]. fold (total rs). unfold ie_wire, ref_raw in *. cbn [fst snd] in *.
      rewrite !len_app, !ie_header_len in *. lia.
Qed.

(** Reading back what the sender writes for kept elements. *)
Lemma absorb_all_refs mt ctx rs : ∀ seen used p off,
  marks 256 seen used → kept_refs mt used rs →
  ∃ p', absorb_all mt ctx seen p off (ref_raw <$> rs) = Ok p'
        ∧ strip p' = foldl (store_ref ctx) (strip p) (norm_ref <$> rs).
Proof.
  induction rs as [|r rs IH]; intros seen used p off Hm [Hok He Hs]; [by exists p|].
  apply Forall_cons in Hok as [Hr Hok], He as [Her He]. cbn in Hs. destruct Hs as [Hu Hs].
  pose proof (ref_raw_ok r Hr) as Hie. pose proof (proj1 Hie) as Ht.
  rewrite !fmap_cons. cbn [absorb_all fst snd foldl].
  destruct (absorb_cases mt ctx seen used p (ref_ie_type r) (ref_value r) off Hie Hm)
    as [(E & Hin & Hne)|[[E Hne]|(_ & _ & p0 & Ep & E)]]; cbn [ref_raw fst snd]; rewrite E.
  - by destruct Hu.
  - done.
  - rewrite store_ie_ref by done. cbn [map_ok].
    destruct (IH _ _ (store_ref ctx p0 (norm_ref r)) (off + len (ie_wire (ref_raw r)))
      (marks_update 256 _ _ _ Ht Hm)) as (p' & Hp' & Hst); [by split|].
    exists p'. split; [done|]. by rewrite Hst, strip_store, Ep.
Qed.

(** ** What a list of elements stores *)

Definition ref_recovery (r : ControlIeRef) : option () :=
  match r with RefRecovery => Some () | _ => None end.
Definition ref_teid (r : ControlIeRef) : option GtpuTunnelEndpointId :=
  match r with RefTeid v => Some v | _ => None end.
Definition ref_peer (r : ControlIeRef) : option GtpuPeerAddress :=
  match r with RefPeerAddress v => Some v | _ => None end.
Definition ref_types (r : ControlIeRef) : option GtpuExtensionHeaderTypeList :=
  match r with RefExtensionTypes v => Some v | _ => None end.
Definition ref_time_stamp (r : ControlIeRef) : option GtpuRecoveryTimeStamp :=
  match r with RefRecoveryTimeStamp v => Some v | _ => None end.
Definition ref_status (r : ControlIeRef) : option GtpuTunnelStatusInformation :=
  match r with RefTunnelStatus v => Some v | _ => None end.
Definition ref_private (r : ControlIeRef) : option GtpuPrivateExtension :=
  match r with RefPrivate v => Some v | _ => None end.
Definition ref_unknown (r : ControlIeRef) : option GtpuUnknownControlIe :=
  match r with RefUnknown v => Some v | _ => None end.

(** The last value of a list, or what was there before. *)
Definition newest {A} (before : option A) (l : list A) : option A :=
  foldl (λ _ x, Some x) before l.

Definition stored_refs (ctx : DecodeContext) (p : ParsedIes) (rs : list ControlIeRef)
    : ParsedIes :=
  {| p_tunnel_status_information := newest (p_tunnel_status_information p) (omap ref_status rs);
     p_recovery := foldl (λ _ _, true) (p_recovery p) (omap ref_recovery rs);
     p_teid_data_i := newest (p_teid_data_i p) (omap ref_teid rs);
     p_peer_address := newest (p_peer_address p) (omap ref_peer rs);
     p_extension_header_type_list :=
       newest (p_extension_header_type_list p) (omap ref_types rs);
     p_recovery_time_stamp := newest (p_recovery_time_stamp p) (omap ref_time_stamp rs);
     p_private_extensions := p_private_extensions p ++ omap ref_private rs;
     p_unknown_ies :=
       p_unknown_ies p ++ if preserves ctx then omap ref_unknown rs else [];
     known_ie_offsets := known_ie_offsets p |}.

Lemma foldl_store ctx rs : ∀ p, foldl (store_ref ctx) p rs = stored_refs ctx p rs.
Proof.
  unfold stored_refs. induction rs as [|r rs IH]; intros p; cbn [foldl].
  { cbn. destruct p; cbn. by destruct (preserves ctx); rewrite !app_nil_r. }
  rewrite IH. destruct r; cbn; rewrite <- ?app_assoc; try done.
  destruct (preserves ctx); cbn; by rewrite <- ?app_assoc.
Qed.

(** ** The sender's order *)

Lemma insert_perm r rs : insert_by_type r rs ≡ₚ r :: rs.
Proof.
  induction rs as [|o rs IH]; cbn; [done|]. case_match; [done|].
  rewrite IH. apply Permutation_swap.
Qed.

Lemma sort_perm rs : sort_by_type rs ≡ₚ rs.
Proof.
  induction rs as [|r rs IH]; cbn; [done|]. fold (sort_by_type rs). by rewrite insert_perm, IH.
Qed.

Lemma insert_ascending r rs : ∀ prev,
  (∀ p, prev = Some p → p ≤ ref_ie_type r) → ascending prev (ref_ie_type <$> rs) →
  ascending prev (ref_ie_type <$> insert_by_type r rs).
Proof.
  induction rs as [|o rs IH]; intros prev Hp Ha; [done|].
  cbn [insert_by_type]. cbn [fmap list_fmap ascending] in Ha. destruct Ha as [Ho Ha].
  destruct (_ <=? _) eqn:E; to_prop; cbn [fmap list_fmap ascending].
  - split_and!; try done. by intros p [= <-].
  - split; [done|]. apply IH; [|done]. intros p [= <-]. lia.
Qed.

Lemma sort_ascending rs : ascending None (ref_ie_type <$> sort_by_type rs).
Proof.
  induction rs as [|r rs IH]; cbn; [done|]. fold (sort_by_type rs). by apply insert_ascending.
Qed.

(** The sort is stable: a projection whose elements are already in order is kept. *)
Definition in_order {A} (f : ControlIeRef → option A) (rs : list ControlIeRef) : Prop :=
  ForallOrdPairs (λ a b, is_Some (f a) → is_Some (f b) → ref_ie_type a ≤ ref_ie_type b) rs.

Lemma omap_insert {A} (f : ControlIeRef → option A) r rs :
  Forall (λ o, is_Some (f r) → is_Some (f o) → ref_ie_type r ≤ ref_ie_type o) rs →
  omap f (insert_by_type r rs) = omap f (r :: rs).
Proof.
  induction 1 as [|o rs Ho Hrs IH]; [done|]. cbn [insert_by_type].
  destruct (_ <=? _) eqn:E; [done|]. to_prop.
  change (omap f (o :: insert_by_type r rs)) with
    (match f o with Some x => x :: omap f (insert_by_type r rs) | None => omap f (insert_by_type r rs) end).
  rewrite IH. cbn. destruct (f r) eqn:Er, (f o) eqn:Eo; try done.
  specialize (Ho ltac:(eauto) ltac:(eauto)). lia.
Qed.

Lemma omap_sort {A} (f : ControlIeRef → option A) rs :
  in_order f rs → omap f (sort_by_type rs) = omap f rs.
Proof.
  induction 1 as [|r rs Hr Hrs IH]; [done|].
  change (sort_by_type (r :: rs)) with (insert_by_type r (sort_by_type rs)).
  rewrite omap_insert; [cbn; by rewrite IH|]. by rewrite sort_perm.
Qed.

Lemma in_order_const {A} (f : ControlIeRef → option A) k rs :
  (∀ r v, f r = Some v → ref_ie_type r = k) → in_order f rs.
Proof.
  intros Hk. induction rs as [|r rs IH]; constructor; [|done].
  apply Forall_true. intros o [v Hv] [w Hw]. apply Hk in Hv, Hw. lia.
Qed.

Lemma singletons_iff ts : ∀ used,
  singletons used ts
  ↔ NoDup (filter (λ t, t ≠ IE_PRIVATE_EXTENSION) ts)
    ∧ ∀ t, t ∈ ts → t ≠ IE_PRIVATE_EXTENSION → t ∉ used.
Proof.
  induction ts as [|t ts IH]; intros used; cbn [singletons].
  { split; [|done]. intros _. split; [apply NoDup_nil_2|set_solver]. }
  rewrite IH, filter_cons. setoid_rewrite elem_of_cons.
  case_decide as Ht.
  - rewrite NoDup_cons, list_elem_of_filter. split.
    + intros ([Hnu|Hpe] & Hn & H); [|done]. split_and!; [|done|].
      * intros [_ Hin]. destruct (H t Hin Ht). by left.
      * intros u [->|Hu] Hne; [done|]. intros Hin. destruct (H u Hu Hne). by right.
    + intros ((Hni & Hn) & H). split_and!; [left; by apply H; [left|]|done|].
      intros u Hu Hne [->|Hin]; [naive_solver|]. by apply (H u); [right|..].
  - assert (t = IE_PRIVATE_EXTENSION) as -> by (by destruct (decide (t = IE_PRIVATE_EXTENSION))).
    split.
    + intros (_ & Hn & H). split; [done|]. intros u [->|Hu] Hne Hin; [done|].
      destruct (H u Hu Hne). by right.
    + intros (Hn & H). split_and!; [by right|done|].
      intros u Hu Hne [->|Hin]; [done|]. by apply (H u); [right|..].
Qed.

Lemma kept_perm mt used rs rs' : rs ≡ₚ rs' → kept_refs mt used rs → kept_refs mt used rs'.
Proof.
  intros E [H1 H2 H3]. split; [by rewrite <- E..|].
  apply singletons_iff. apply singletons_iff in H3 as [Hn Hu]. split.
  - by rewrite <- E.
  - intros t. rewrite <- E. apply Hu.
Qed.

Lemma total_perm rs rs' : rs ≡ₚ rs' → total rs = total rs'.
Proof. induction 1; cbn; unfold total in *; lia. Qed.

Lemma total_wires rs : len (wires (ref_raw <$> rs)) = total rs.
Proof.
  induction rs as [|r rs IH]; [done|]. cbn [fmap list_fmap wires total foldr].
  rewrite len_app. unfold total in IH. lia.
Qed.

Lemma total_nonneg rs : 0 ≤ total rs.
Proof. rewrite <- total_wires. apply len_nonneg. Qed.

(** ** Reading and writing payloads *)

Lemma omap_norm {A} (f : ControlIeRef → option A) (rs : list ControlIeRef) :
  omap f (norm_ref <$> rs) = omap (f ∘ norm_ref) rs.
Proof. induction rs as [|r rs IH]; [done|]. cbn. by rewrite <- IH. Qed.

Lemma omap_norm_sort {A} (f : ControlIeRef → option A) rs :
  in_order (f ∘ norm_ref) rs →
  omap f (norm_ref <$> sort_by_type rs) = omap f (norm_ref <$> rs).
Proof. intros H. rewrite !omap_norm. by apply (omap_sort (f ∘ norm_ref)). Qed.

Lemma norm_type r : ref_ie_type (norm_ref r) = ref_ie_type r.
Proof. by destruct r. Qed.

Lemma in_order_ext {A} (f g : ControlIeRef → option A) rs :
  (∀ r, f r = g r) → in_order f rs → in_order g rs.
Proof.
  intros E. unfold in_order. induction 1 as [|r rs Hr Hrs IH]; constructor; [|done].
  eapply Forall_impl; [exact Hr|]. intros o. by rewrite !E.
Qed.

Lemma stored_sort ctx p rs :
  in_order ref_unknown rs →
  stored_refs ctx p (norm_ref <$> sort_by_type rs) = stored_refs ctx p (norm_ref <$> rs).
Proof.
  intros Hu. unfold stored_refs.
  rewrite (omap_norm_sort ref_unknown)
    by (eapply in_order_ext; [|exact Hu]; by intros []).
  rewrite (omap_norm_sort ref_status)
    by (apply (in_order_const _ IE_GTPU_TUNNEL_STATUS); by intros []).
  rewrite (omap_norm_sort ref_recovery) by (apply (in_order_const _ IE_RECOVERY); by intros []).
  rewrite (omap_norm_sort ref_teid) by (apply (in_order_const _ IE_TEID_DATA_I); by intros []).
  rewrite (omap_norm_sort ref_peer)
    by (apply (in_order_const _ IE_GTPU_PEER_ADDRESS); by intros []).
  rewrite (omap_norm_sort ref_types)
    by (apply (in_order_const _ IE_EXTENSION_HEADER_TYPE_LIST); by intros []).
  rewrite (omap_norm_sort ref_time_stamp)
    by (apply (in_order_const _ IE_RECOVERY_TIME_STAMP); by intros []).
  by rewrite (omap_norm_sort ref_private)
    by (apply (in_order_const _ IE_PRIVATE_EXTENSION); by intros []).
Qed.

Lemma parse_kept payload base mt ctx p :
  bytes_ok payload → 0 ≤ base → base + len payload ≤ USIZE_MAX →
  parse_ies payload base mt ctx = Ok p →
  ∃ rs, kept_refs mt [] rs ∧ strip p = stored_refs ctx ParsedIes_default rs
        ∧ ascending None (ref_ie_type <$> rs)
        ∧ (rs ≠ [] → count_ok ctx (len rs)) ∧ total rs ≤ len payload.
Proof.
  intros Hb H0 Hl H.
  apply parse_ies_iff in H as (ies & Hies & -> & Hc & Ha & H); [|done..].
  destruct (absorb_all_inv mt ctx ies Hies _ [] _ _ _ _ (marks_start 256) Ha H)
    as (rs & Hk & Hs & Hr & Hn & Hw).
  exists rs. split_and!; try done; [by rewrite <- foldl_store|].
  intros Hne. assert (ies ≠ []) as Hi.
  { intros ->. destruct rs; [done|]. autorewrite with len in Hn. pose proof (len_nonneg rs). lia. }
  specialize (Hc Hi). unfold count_ok in *. lia.
Qed.

Lemma parse_written ctx mt base rs :
  kept_refs mt [] rs → in_order ref_unknown rs → (rs ≠ [] → count_ok ctx (len rs)) →
  0 ≤ base → base + total rs ≤ USIZE_MAX →
  ∃ p, parse_ies (wires (ref_raw <$> sort_by_type rs)) base mt ctx = Ok p
       ∧ strip p = stored_refs ctx ParsedIes_default (norm_ref <$> rs).
Proof.
  intros Hk Hu Hc H0 Hl. pose proof (sort_perm rs) as Hp.
  apply (kept_perm _ _ _ (sort_by_type rs)) in Hk; [|done].
  destruct (absorb_all_refs mt ctx (sort_by_type rs) _ [] ParsedIes_default base
    (marks_start 256) Hk) as (p & Ha & Hs).
  exists p. rewrite foldl_store, stored_sort in Hs by done. split; [|done].
  assert (Hok : Forall ie_ok (ref_raw <$> sort_by_type rs)).
  { apply Forall_fmap. eapply Forall_impl; [apply Hk|]. apply ref_raw_ok. }
  apply parse_ies_iff; [by apply wires_bytes|done| |].
  { rewrite total_wires, (total_perm _ _ Hp). done. }
  exists (ref_raw <$> sort_by_type rs). split_and!; try done.
  - intros Hne. unfold len. rewrite length_fmap, Hp. apply Hc. intros ->. done.
  - rewrite <- list_fmap_compose. apply (sort_ascending rs).
Qed.

(** What the sender's two passes produce. *)
Lemma encode_ies_ok rs : Forall ref_ok rs → encode_ies rs = Ok (wires (ref_raw <$> rs)).
Proof.
  induction 1 as [|r rs Hr Hrs IH]; [done|]. cbn [encode_ies].
  by rewrite (proj1 (ref_encode_ok r Hr)), IH.
Qed.

Lemma payload_len_ok rs : Forall ref_ok rs → ∀ n,
  n + total rs ≤ USIZE_MAX → payload_len_of n rs = Ok (n + total rs).
Proof.
  induction 1 as [|r rs Hr Hrs IH]; intros n Hn; cbn [payload_len_of total foldr] in *.
  { by rewrite Z.add_0_r. }
  fold (total rs) in *. pose proof (total_nonneg rs).
  rewrite (proj2 (ref_encode_ok r Hr)), checked_add_ok by lia. cbn [ok_or].
  rewrite IH by lia. f_equal. lia.
Qed.

(** The receiver always answers. *)
Lemma absorb_ie_marks mt ctx seen used p t v off :
  ie_ok (t, v) → marks 256 seen used →
  returns (absorb_ie mt ctx seen p t v off)
  ∧ ∀ seen' p', absorb_ie mt ctx seen p t v off = Ok (seen', p') → ∃ used', marks 256 seen' used'.
Proof.
  intros Hie Hm. pose proof (marks_update 256 _ _ _ (proj1 Hie) Hm) as Hm'.
  destruct (absorb_cases mt ctx seen used p t v off Hie Hm)
    as [[-> _]|[[-> _]|(_ & He & p0 & _ & ->)]]; [split; [done|]; naive_solver..|].
  pose proof (store_ie_returns ctx mt p0 t v off Hie He) as Hr.
  destruct (store_ie _ _ _ _ _); cbn; split; try done. naive_solver.
Qed.

Lemma parse_loop_ies_returns mt ctx base fuel : 0 ≤ base → ∀ pre rest count prev seen used parsed,
  bytes_ok rest → base + len (pre ++ rest) ≤ USIZE_MAX → 0 ≤ count ≤ len pre →
  (length rest ≤ fuel)%nat → marks 256 seen used →
  returns (parse_ies_loop fuel (pre ++ rest) base mt ctx (len pre) count prev seen parsed).
Proof.
  intros Hp. induction fuel as [|fuel IH];
    intros pre rest count prev seen used parsed Hb Hl Hc Hf Hm;
    (destruct rest as [|t tl]; [cbn; by rewrite app_nil_r, (proj2 (Z.leb_le _ _)) by lia|]);
    [cbn in Hf; lia|].
  destruct (ie_split t tl Hb) as [(v & post & E & Hok)|He].
  - rewrite E in *. rewrite parse_turn by done. cbn [fst snd].
    destruct (_ || _); [done|]. destruct (match prev with Some _ => _ | None => _ end); [done|].
    destruct (absorb_ie_marks mt ctx seen used parsed t v (base + len pre) Hok Hm) as [Hr Hu].
    destruct (absorb_ie _ _ _ _ _ _ _) as [[seen' p']|?|]; [|done..].
    destruct (Hu _ _ eq_refl) as [used' Hm']. pose proof (ie_wire_pos (t, v)) as Hw.
    rewrite (app_assoc pre) in Hl |- *. apply bytes_ok_app in Hb as [_ Hb].
    eapply IH; try done; [len_lia|]. rewrite List.length_app in Hf. unfold len in Hw. lia.
  - cbn [parse_ies_loop]. rewrite (proj2 (Z.leb_gt _ _)) by len_lia.
    destruct (checked_add _ _) as [off|]; [|done]. cbn [ok_or].
    destruct (_ || _); [done|]. rewrite idx_at by done.
    destruct (match prev with Some _ => _ | None => _ end); [done|].
    destruct (He pre off) as [e He'].
    destruct (ie_extent _ _ _ _) as [[h v]|?|]; [|done..]. by rewrite He'.
Qed.

Lemma parse_ies_returns payload base mt ctx :
  bytes_ok payload → 0 ≤ base → base + len payload ≤ USIZE_MAX →
  returns (parse_ies payload base mt ctx).
Proof.
  intros Hb H0 Hl. unfold parse_ies.
  eapply (parse_loop_ies_returns mt ctx base _ H0 []); try done. apply marks_start.
Qed.

(** ** Skipped elements *)

(** The elements that count: not a repetition of a singleton, not defined for
    another procedure. *)
Fixpoint retained (mt : Z) (used : list Z) (ies : list (Z * bytes)) : list (Z * bytes) :=
  match ies with
  | [] => []
  | ie :: ies =>
      if bool_decide (ie.1 ∈ used ∧ ie.1 ≠ IE_PRIVATE_EXTENSION) then retained mt used ies
      else if defined_ie ie.1 && negb (existsb (Z.eqb ie.1) (allowed_ies mt))
      then retained mt (ie.1 :: used) ies
      else ie :: retained mt (ie.1 :: used) ies
  end.

(** Whether an element is stored, and what it sets, does not depend on what was
    stored before or on its offset. *)
Definition uniform (ctx : DecodeContext) (t : Z) (v : bytes) : Prop :=
  (∃ g, (∀ p off, store_ie ctx p t v off = Ok (g p))
        ∧ ∀ p q, strip q = strip p → strip (g q) = strip (g p))
  ∨ ∀ p off p', store_ie ctx p t v off ≠ Ok p'.

Lemma strip_eq_store ctx p q r :
  strip q = strip p → strip (store_ref ctx q r) = strip (store_ref ctx p r).
Proof. intros E. by rewrite !strip_store, E. Qed.

Ltac stores ctx r :=
  left; exists (λ p, store_ref ctx p r);
  split; [intros; cbn [store_ref]; unfold preserves; by try case_bool_decide
         |intros; by apply strip_eq_store].

Lemma store_ie_uniform ctx t v : uniform ctx t v.
Proof.
  unfold uniform, store_ie.
  destruct (t =? IE_RECOVERY); [stores ctx RefRecovery|].
  destruct (t =? IE_TEID_DATA_I).
  { destruct (be_u32 v) as [n|?|]; [stores ctx (RefTeid n)|by right..]. }
  destruct (t =? IE_EXTENSION_HEADER_TYPE_LIST).
  { destruct (GtpuExtensionHeaderTypeList_new v) as [ts|?|];
      [stores ctx (RefExtensionTypes ts)|by right..]. }
  destruct (t =? IE_GTPU_PEER_ADDRESS).
  { destruct (len v =? 4); [stores ctx (RefPeerAddress (IpV4 v))|].
    destruct (len v =? 16); [stores ctx (RefPeerAddress (IpV6 v))|by right]. }
  destruct (t =? IE_RECOVERY_TIME_STAMP).
  { destruct (len v <? 4); [by right|]. destruct (be_u32 v) as [n|?|]; [|by right..].
    destruct (slice v 4 (len v)) as [x|?|]; [|by right..].
    stores ctx (RefRecoveryTimeStamp {| seconds_since_1900 := n; rts_additional_data := x |}). }
  destruct (t =? IE_GTPU_TUNNEL_STATUS).
  { destruct v as [|flags x]; [by right|].
    stores ctx (RefTunnelStatus {| spoc := negb (Z.land flags 1 =? 0);
      received_spare := Z.land flags 0xfe; tsi_additional_data := x |}). }
  destruct (t =? IE_PRIVATE_EXTENSION).
  { destruct (len v <? 2); [by right|]. destruct (idx v 0) as [a|?|]; [|by right..].
    destruct (idx v 1) as [b|?|]; [|by right..].
    destruct (slice v 2 (len v)) as [x|?|]; [|by right..].
    stores ctx (RefPrivate
      {| extension_identifier := u16_from_be_bytes a b; private_value := x |}). }
  stores ctx (RefUnknown {| unknown_ie_type := t; unknown_value := v |}).
Qed.

Lemma absorb_kept mt ctx seen used p t v off :
  ie_ok (t, v) → marks 256 seen used → t ∉ used ∨ t = IE_PRIVATE_EXTENSION →
  defined_ie t && negb (existsb (Z.eqb t) (allowed_ies mt)) = false →
  ∃ p0, strip p0 = strip p
        ∧ absorb_ie mt ctx seen p t v off
          = map_ok (λ p', (<[Z.to_nat t := true]> seen, p')) (store_ie ctx p0 t v off).
Proof.
  intros Hie Hm Hu Hd.
  destruct (absorb_cases mt ctx seen used p t v off Hie Hm)
    as [(_ & ? & ?)|[[_ Hne]|(_ & _ & H)]]; [naive_solver| |done].
  destruct Hne. unfold expected. intros Hdef. rewrite Hdef in Hd. cbn in Hd.
  by apply negb_false_iff in Hd.
Qed.

Lemma absorb_skipped mt ctx seen used p t v off :
  ie_ok (t, v) → marks 256 seen used →
  (t ∈ used ∧ t ≠ IE_PRIVATE_EXTENSION → absorb_ie mt ctx seen p t v off = Ok (seen, p))
  ∧ (¬ (t ∈ used ∧ t ≠ IE_PRIVATE_EXTENSION) →
     defined_ie t && negb (existsb (Z.eqb t) (allowed_ies mt)) = true →
     absorb_ie mt ctx seen p t v off = Ok (<[Z.to_nat t := true]> seen, p)).
Proof.
  intros [Ht _] Hm. cbn in Ht. unfold absorb_ie. rewrite (Hm t Ht). split.
  - intros [Hu Hn]. by rewrite bool_decide_true, (proj2 (Z.eqb_neq _ _)).
  - intros Hn ->. destruct (t =? IE_PRIVATE_EXTENSION) eqn:E; to_prop; [by rewrite andb_false_r|].
    by rewrite bool_decide_false by tauto.
Qed.

(** A payload and its retained elements are read alike. *)
Lemma absorb_retained mt ctx ies : Forall ie_ok ies → ∀ seen seen' used used' p q off off' r,
  marks 256 seen used → marks 256 seen' used' → (∀ t, t ∈ used' → t ∈ used) →
  strip q = strip p →
  (∃ p', absorb_all mt ctx seen p off ies = Ok p' ∧ strip p' = r)
  ↔ (∃ q', absorb_all mt ctx seen' q off' (retained mt used ies) = Ok q' ∧ strip q' = r).
Proof.
  induction 1 as [|[t v] ies Hie Hies IH]; intros seen seen' used used' p q off off' r Hm Hm' Hs E.
  { cbn. split; intros (x & [= <-] & <-); [exists q|exists p]; done. }
  pose proof (proj1 Hie) as Ht. cbn [absorb_all retained fst snd].
  destruct (absorb_skipped mt ctx seen used p t v off Hie Hm) as [Hdup Hunx].
  pose proof (marks_update 256 _ _ _ Ht Hm) as Hmt.
  case_bool_decide as Hd; [rewrite Hdup by done; by eapply IH|].
  destruct (defined_ie t && _) eqn:Ed; 
    [rewrite Hunx by done; eapply IH; eauto; intros u Hu; right; by apply Hs|].
  assert (Hu : t ∉ used ∨ t = IE_PRIVATE_EXTENSION).
  { destruct (decide (t = IE_PRIVATE_EXTENSION)); [by right|left; tauto]. }
  assert (Hu' : t ∉ used' ∨ t = IE_PRIVATE_EXTENSION).
  { destruct Hu as [Hu|?]; [left; by intros ?%Hs|by right]. }
  destruct (absorb_kept mt ctx seen used p t v off Hie Hm Hu Ed) as (p0 & Ep & ->).
  cbn [absorb_all fst snd].
  destruct (absorb_kept mt ctx seen' used' q t v off' Hie Hm' Hu' Ed) as (q0 & Eq & ->).
  destruct (store_ie_uniform ctx t v) as [(g & Hg & Hst)|Hno].
  - rewrite !Hg. cbn [map_ok].
    eapply IH; [done|by apply (marks_update 256)| |apply Hst; congruence].
    intros u [->|Hin]%elem_of_cons; [by left|right; by apply Hs].
  - split; intros (x & Hx & _); exfalso;
      [destruct (store_ie ctx p0 t v off) eqn:Es|destruct (store_ie ctx q0 t v off') eqn:Es];
      try done; by eapply Hno.
Qed.

Lemma retained_sub mt ies : ∀ used prev,
  Forall ie_ok ies → ascending prev (fst <$> ies) →
  Forall ie_ok (retained mt used ies) ∧ ascending prev (fst <$> retained mt used ies)
  ∧ len (retained mt used ies) ≤ len ies ∧ len (wires (retained mt used ies)) ≤ len (wires ies).
Proof.
  induction ies as [|ie ies IH]; intros used prev Hok Ha; [done|].
  apply Forall_cons in Hok as [Hie Hok]. cbn [fmap list_fmap ascending] in Ha.
  destruct Ha as [Hp Ha]. cbn [retained]. pose proof (ie_wire_pos ie).
  case_bool_decide; [|destruct (_ && _)].
  - destruct (IH used (Some ie.1) Hok Ha) as (? & ? & ? & ?). cbn [wires].
    split_and!; [done|by eapply ascending_weaken|len_lia..].
  - destruct (IH (ie.1 :: used) (Some ie.1) Hok Ha) as (? & ? & ? & ?). cbn [wires].
    split_and!; [done|by eapply ascending_weaken|len_lia..].
  - destruct (IH (ie.1 :: used) (Some ie.1) Hok Ha) as (? & ? & ? & ?). cbn [wires].
    split_and!; [by constructor|done|len_lia..].
Qed.

(**  The receiver reads past what it must ignore: on a payload of elements in
    order and within the limits, dropping the later occurrences of a singleton and
    the elements defined only for other procedures leaves the result as it is, so
    the first occurrence of a singleton is the one that counts and an unexpected
    element never causes a rejection. *)
Theorem skipped_elements mt ctx base ies r :
  Forall ie_ok ies → ascending None (fst <$> ies) → count_ok ctx (len ies) →
  0 ≤ base → base + len (wires ies) ≤ USIZE_MAX →
  (∃ p, parse_ies (wires ies) base mt ctx = Ok p ∧ strip p = r)
  ↔ (∃ p, parse_ies (wires (retained mt [] ies)) base mt ctx = Ok p ∧ strip p = r).
Proof.
  intros Hok Ha Hc H0 Hl.
  destruct (retained_sub mt ies [] None Hok Ha) as (Hok' & Ha' & Hn & Hw).
  pose proof (absorb_retained mt ctx ies Hok _ _ [] [] ParsedIes_default ParsedIes_default
    base base r (marks_start 256) (marks_start 256) ltac:(done) eq_refl) as H.
  assert (Hiff : ∀ l p, Forall ie_ok l → ascending None (fst <$> l) → len l ≤ len ies →
    len (wires l) ≤ len (wires ies) →
    parse_ies (wires l) base mt ctx = Ok p
    ↔ absorb_all mt ctx (replicate 256 false) ParsedIes_default base l = Ok p).
  { intros l p Hlo Hla Hln Hlw. unfold count_ok in Hc.
    rewrite parse_elements by (done || lia). split; [by intros (_ & _ & ?)|].
    intros Hp. split; [|done]. intros _. split; lia. }
  setoid_rewrite (Hiff ies); [|done..]. by setoid_rewrite Hiff.
Qed.

(** A repeated Recovery and a TEID in an Echo Response. *)
Definition sample_elements : list (Z * bytes) :=
  [(14, [7]); (14, [9]); (16, [0; 0; 0; 1]); (255, [0; 1])].

Lemma skipped_elements_witness :
  retained GTPU_MESSAGE_ECHO_RESPONSE [] sample_elements = [(14, [7]); (255, [0; 1])]
  ∧ ∃ p, parse_ies (wires sample_elements) 12 GTPU_MESSAGE_ECHO_RESPONSE DecodeContext_default
         = Ok p ∧ p_recovery (strip p) = true.
Proof.
  split; [vm_compute; reflexivity|].
  destruct (proj2 (skipped_elements GTPU_MESSAGE_ECHO_RESPONSE DecodeContext_default 12
    sample_elements
    (stored_refs DecodeContext_default ParsedIes_default
       [RefRecovery; RefPrivate {| extension_identifier := 1; private_value := [] |}])
    ltac:(repeat constructor; vm_compute; intuition congruence)
    ltac:(cbn; intuition (simplify_eq; lia))
    ltac:(split; vm_compute; congruence) ltac:(lia) ltac:(vm_compute; congruence)))
    as (p & Hp & Hs).
  { eexists. split; vm_compute; reflexivity. }
  exists p. split; [exact Hp|]. rewrite Hs. vm_compute. reflexivity.
Defined.
