(* ===== verification/GtpuControlFrames.v ===== *)
(** The frames of GTP-U control messages, [crates/opc-proto-gtpu/src/control.rs]:
    what [encode_control_frame] puts on the wire and which frames
    [validate_generic_frame_model] lets through. *)
From S2P Require Import Prelude.
From S2P Require Import Protocol.
From S2P Require Import GtpuExtension.
From S2P Require Import GtpuChain.
From S2P Require Import GtpuMessage.
From S2P Require Import GtpuRoundtrip.
From S2P Require Import GtpuControl.
From S2P Require Import GtpuControlExtensions.
From S2P Require Import GtpuControlIes.
From S2P Require Import GtpuControlRefs.

(** ** Sending a frame *)

(** The frame on the wire: the one the sender describes, with its length and its
    optional octets filled in. *)
Definition sent (mt td : Z) (seq : option Z) (c : GtpuExtensionChain) (pay : bytes)
    : GtpuMessage :=
  canonical (control_frame mt td seq c pay).

Definition frame_size (seq : option Z) (c : GtpuExtensionChain) (n : Z) : Z :=
  (if present seq || has_headers c then 4 else 0) + len (raw_headers c) + n.

Section Sending.
Context (mt td : Z) (seq : option Z) (c : GtpuExtensionChain) (hs : list GtpuExtensionHeader).
Hypothesis Hmt : u8 mt.
Hypothesis Htd : u32 td.
Hypothesis Hseq : ∀ s, seq = Some s → u16 s.
Hypothesis Hchain : chain_of hs c.
Hypothesis Hok : chain_ok c.

(** The first type of a consistent chain is 0 exactly when there is no header. *)
Lemma chain_first :
  has_headers c = negb (default 0 (first_extension_type c) =? 0)
  ∧ (match raw_headers c with [] => false | _ => true end
     || negb (default 0 (first_extension_type c) =? 0))
    = has_headers c
  ∧ ext_chain (default 0 (first_extension_type c)) hs (raw_headers c)
  ∧ u8 (default 0 (first_extension_type c))
  ∧ present (first_extension_type c) = has_headers c.
Proof using Hchain Hok.
  destruct (chain_of_parts hs c Hchain Hok) as [Hch _]. destruct Hok as [_ H8].
  destruct Hchain as (t & Hch' & Hf & _). unfold has_headers in *.
  destruct (first_extension_type c) as [t'|] eqn:Ef; cbn [default id] in *.
  - destruct (t =? 0) eqn:Et; [done|]. simplify_eq. to_prop.
    rewrite (proj2 (Z.eqb_neq t 0)) by done. rewrite orb_true_r. split_and!; try done; by apply H8.
  - assert (raw_headers c = []) as Er by (by inversion Hch). rewrite Er in *. by split_and!.
Qed.

Lemma frame_presence pay ctx :
  presence (control_frame mt td seq c pay) ctx = (has_headers c, present seq, false).
Proof using Hchain Hok.
  destruct chain_first as (_ & E & _). unfold presence; cbn.
  destruct (raw_preserving ctx); [done|]. by rewrite E.
Qed.

Lemma sent_layout pay :
  bytes_ok pay → frame_size seq c (len pay) ≤ 65535 → layout (sent mt td seq c pay).
Proof using Hmt Htd Hseq Hchain Hok.
  intros Hb Hs. destruct chain_first as (E & _ & _ & H8 & _). destruct Hok as [Hbr _].
  unfold frame_size in Hs. rewrite E in Hs.
  assert (Hq : u16 (default 0 seq)) by (destruct seq; [by apply Hseq|done]).
  unfold sent, canonical. split; cbn -[optional_wire Z.add]; try done; try auto.
  - rewrite optional_wire_len. by unfold optional_present; cbn.
  - rewrite orb_false_r, (orb_comm _ (present seq)). exact Hs.
  - unfold optional_present; cbn [header canonical decoded control_frame]. cbn -[default].
    rewrite orb_false_r. destruct (_ || present seq); [|done].
    eexists _, _, _. split; [done|]. split; [exact Hq|]. split; [done|]. split; [done|].
    split; [done|]. exact H8.
Qed.

Lemma sent_wire_len pay :
  bytes_ok pay → frame_size seq c (len pay) ≤ 65535 →
  len (wire (sent mt td seq c pay)) = 8 + frame_size seq c (len pay).
Proof using Hmt Htd Hseq Hchain Hok.
  intros Hb Hs. rewrite wire_size by by apply sent_layout.
  destruct chain_first as (E & _). unfold sent, canonical, frame_size; cbn. rewrite E.
  by rewrite orb_false_r, (orb_comm _ (present seq)).
Qed.

Lemma frame_encoded pay ectx :
  bytes_ok pay → frame_size seq c (len pay) ≤ 65535 →
  8 + frame_size seq c (len pay) ≤ encode_max_message_len ectx →
  let m := control_frame mt td seq c pay in
  wire_len m ectx = Ok (8 + frame_size seq c (len pay))
  ∧ encode m [] ectx = (wire (sent mt td seq c pay), Ok ()).
Proof using Hmt Htd Hseq Hchain Hok.
  intros Hb Hs Hcap m. pose proof (frame_presence pay ectx) as Hp. fold m in Hp.
  destruct chain_first as (E & _ & _ & _ & Epr). unfold frame_size in *.
  pose proof (len_nonneg pay). pose proof (len_nonneg (raw_headers c)).
  assert (Hw : written_optional m ectx = optional_wire (header (sent mt td seq c pay))).
  { unfold written_optional, optional_wire, optional_present. rewrite Hp.
    cbn [sent canonical decoded control_frame m header ext_hdr_flag seq_num_flag npdu_num_flag
      next_ext_type sequence_number npdu_number raw_sequence_number raw_npdu_number
      raw_next_ext_type]. rewrite <- E.
    destruct (has_headers c || present seq || false); [|done].
    by destruct (raw_preserving ectx). }
  assert (Hl : len (written_optional m ectx) = if present seq || has_headers c then 4 else 0).
  { rewrite Hw, optional_wire_len. unfold optional_present; cbn. rewrite <- E.
    by rewrite orb_false_r, orb_comm. }
  split.
  - unfold wire_len. rewrite Hp, orb_false_r, (orb_comm (has_headers c)). cbn [m control_frame
      raw_extension_headers payload].
    destruct (present seq || has_headers c); unfold ok_or;
      rewrite !checked_add_ok by (unfold USIZE_MAX; lia); f_equal; lia.
  - rewrite (encode_eq m [] ectx _ _ _ eq_refl eq_refl (or_introl eq_refl) Hp); rewrite Hl;
      cbn [m control_frame raw_extension_headers payload header].
    + rewrite (proj2 (Z.ltb_ge 65535 _)) by lia. rewrite Hw. unfold written_reserved, wire; cbn.
      rewrite E, orb_false_r, (orb_comm _ (present seq)). by destruct (raw_preserving ectx).
    + destruct (present seq || has_headers c); unfold USIZE_MAX; lia.
    + unfold fits, check_capacity. by rewrite (proj2 (Z.ltb_ge _ _)) by lia.
Qed.

Lemma encode_control_frame_ok rs ectx :
  Forall ref_ok rs → len rs ≤ MAX_CONTROL_IES →
  frame_size seq c (total rs) ≤ 65535 →
  8 + frame_size seq c (total rs) ≤ encode_max_message_len ectx →
  encode_control_frame mt td seq c rs ectx
  = Ok (wire (sent mt td seq c (wires (ref_raw <$> sort_by_type rs)))).
Proof using Hmt Htd Hseq Hchain Hok.
  intros Hrs Hn Hs Hcap. pose proof (sort_perm rs) as Hp.
  assert (Hok' : Forall ref_ok (sort_by_type rs)) by (by rewrite Hp).
  assert (Ht : total (sort_by_type rs) = total rs) by by apply total_perm.
  set (pay := wires (ref_raw <$> sort_by_type rs)).
  assert (Hpl : len pay = total rs) by (unfold pay; rewrite total_wires; done).
  assert (Hb : bytes_ok pay).
  { apply wires_bytes, Forall_fmap. eapply Forall_impl; [exact Hok'|]. apply ref_raw_ok. }
  pose proof (len_nonneg (raw_headers c)). pose proof (total_nonneg rs).
  unfold encode_control_frame.
  rewrite (proj2 (validate_consistency_iff c (proj1 Hok)
    ltac:(unfold frame_size, USIZE_MAX in *; repeat case_match; lia))) by eauto.
  cbn [map_err]. rewrite (proj2 (Z.ltb_ge _ (len rs))) by done.
  rewrite payload_len_ok by (done || (unfold frame_size, USIZE_MAX in *; repeat case_match; lia)).
  rewrite Ht, Z.add_0_l.
  destruct (frame_encoded pay ectx) as [Ew Ee]; [done|by rewrite Hpl..|].
  rewrite Hpl in Ew. unfold frame_size in *.
  assert (Hb4 : checked_mul (Z.b2z (present seq || has_headers c)) 4
                = Some (if present seq || has_headers c then 4 else 0)) by (by case_match).
  rewrite Hb4. cbn [ok_or].
  set (o := if present seq || has_headers c then 4 else 0) in *.
  rewrite checked_add_ok by (unfold USIZE_MAX; lia). cbn [ok_or].
  rewrite checked_add_ok by (unfold USIZE_MAX; lia). cbn [ok_or].
  rewrite (proj2 (Z.ltb_ge _ (o + _ + _))) by lia.
  rewrite checked_add_ok by (unfold USIZE_MAX; lia). cbn [ok_or].
  rewrite (proj2 (Z.ltb_ge _ (8 + _))) by lia.
  rewrite encode_ies_ok by done. fold pay. rewrite Ew. cbn [map_err].
  by rewrite Z.eqb_refl, Ee.
Qed.

End Sending.

(** ** Receiving a frame *)

(** What the types of the source guarantee of a frame. *)
Record frame_typed (m : GtpuMessage) : Prop := {
  ft_raw : bytes_ok (raw_extension_headers m);
  ft_payload : bytes_ok (payload m);
  ft_teid : u32 (teid (header m));
  ft_sequence : ∀ s, sequence_number (header m) = Some s → u16 s;
  ft_next : ∀ t, next_ext_type (header m) = Some t → u8 t;
  ft_message_type : u8 (message_type (header m));
  ft_length : u16 (length_field (header m));
  ft_size : len (raw_extension_headers m) + len (payload m) < USIZE_MAX - 12;
}.

Definition optional_len (m : GtpuMessage) : Z := if optional_present (header m) then 4 else 0.

Definition body_len (m : GtpuMessage) : Z :=
  optional_len m + len (raw_extension_headers m) + len (payload m).

Lemma optional_len_mul m :
  checked_mul (Z.b2z (optional_present (header m))) 4 = Some (optional_len m).
Proof. unfold optional_len. by destruct (optional_present _). Qed.

(** The checks on the lengths. *)
Lemma validate_lengths m ctx :
  frame_typed m →
  (let? with_extensions :=
     ok_or (checked_add (optional_len m) (len (raw_extension_headers m)))
       control_length_overflow in
   let? declared_body_len :=
     ok_or (checked_add with_extensions (len (payload m))) control_length_overflow in
   let? message_end := ok_or (checked_add 8 declared_body_len) control_length_overflow in
   let? header_declared_end :=
     ok_or (checked_add 8 (length_field (header m))) control_length_overflow in
   if (max_message_len ctx <? message_end) || (max_message_len ctx <? header_declared_end)
   then Err (framing MessageLengthExceeded 0)
   else if 65535 <? declared_body_len
   then Err (framing (InvalidLength "decoded frame exceeds the GTP-U Length field") 2)
   else if negb (length_field (header m) =? declared_body_len)
   then Err (framing (InvalidLength "declared length does not match decoded frame") 2)
   else
   let? base := ok_or (checked_add 8 (optional_len m)) control_length_overflow in
   let? payload_base :=
     ok_or (checked_add base (len (raw_extension_headers m))) control_length_overflow in
   Ok (payload_base, message_end))
  = if (max_message_len ctx <? 8 + body_len m)
       || (max_message_len ctx <? 8 + length_field (header m))
    then Err (framing MessageLengthExceeded 0)
    else if 65535 <? body_len m
    then Err (framing (InvalidLength "decoded frame exceeds the GTP-U Length field") 2)
    else if negb (length_field (header m) =? body_len m)
    then Err (framing (InvalidLength "declared length does not match decoded frame") 2)
    else Ok (8 + optional_len m + len (raw_extension_headers m), 8 + body_len m).
Proof.
  intros [_ _ _ _ _ _ Hlf Hs]. unfold body_len. pose proof (len_nonneg (raw_extension_headers m)).
  pose proof (len_nonneg (payload m)). unfold u16 in Hlf.
  assert (0 ≤ optional_len m ≤ 4) by (unfold optional_len; case_match; lia).
  rewrite checked_add_ok by lia. cbn [ok_or].
  rewrite checked_add_ok by lia. cbn [ok_or].
  rewrite checked_add_ok by lia. cbn [ok_or].
  rewrite checked_add_ok by (unfold USIZE_MAX; lia). cbn [ok_or].
  destruct (_ || _); [done|]. destruct (65535 <? _); [done|]. destruct (negb _); [done|].
  rewrite checked_add_ok by lia. cbn [ok_or]. by rewrite checked_add_ok by lia.
Qed.

(** The header of a frame the generic checks pass. *)
Record frame_checked (m : GtpuMessage) (ctx : DecodeContext) : Prop := {
  fc_version : version (header m) = 1;
  fc_protocol_type : protocol_type (header m) = true;
  fc_next : ext_hdr_flag (header m) = true → first_type m ≠ 0;
  fc_sequence : present (sequence_number (header m)) = seq_num_flag (header m);
  fc_extensions : ext_hdr_flag (header m) = false → raw_extension_headers m = [];
  fc_length : length_field (header m) = body_len m;
  fc_fits : 8 + body_len m ≤ max_message_len ctx;
}.

Lemma validate_frame_inv m ctx base end_ :
  frame_typed m → validate_generic_frame_model m ctx = Ok (base, end_) →
  frame_checked m ctx ∧ base = 8 + optional_len m + len (raw_extension_headers m)
  ∧ end_ = 8 + body_len m.
Proof.
  intros Hty H. unfold validate_generic_frame_model in H.
  fold (optional_present (header m)) in H. rewrite optional_len_mul in H. cbn [ok_or] in H.
  destruct (version _ =? 1) eqn:Ev; cbn [negb] in H; [|done].
  destruct (protocol_type _) eqn:Ep; cbn [negb] in H; [|done].
  destruct (_ && match next_ext_type _ with Some _ => _ | None => _ end) eqn:En; [done|].
  destruct (negb (if optional_present _ then _ else _)); [done|].
  destruct (_ || _ || _) eqn:Ef in H; [done|].
  destruct (_ || _ || _) in H; [done|].
  destruct (_ && match raw_extension_headers m with [] => _ | _ => _ end) eqn:Er; [done|].
  rewrite validate_lengths in H by done.
  destruct (_ || _) eqn:El in H; [done|]. destruct (65535 <? _); [done|].
  destruct (_ =? body_len m) eqn:Eb; cbn [negb] in H; [|done]. simplify_eq. to_prop.
  split; [|done]. split; try done.
  - intros He. unfold first_type, extensions; cbn. rewrite He. destruct En as [En|En]; [congruence|].
    destruct (next_ext_type _); cbn; [by apply Z.eqb_neq|done].
  - symmetry. by apply eqb_prop.
  - intros He. destruct Er as [Er|Er]; [by rewrite He in Er|]. by destruct (raw_extension_headers m).
Qed.

Lemma validate_returns m ctx : returns (validate_generic_frame_model m ctx).
Proof.
  unfold validate_generic_frame_model, returns.
  repeat first [done | match goal with
    | |- context [ok_or ?o _] => destruct o; cbn [ok_or]
    | |- context [if ?b then _ else _] => destruct b
    end].
Qed.

Lemma layout_typed m : layout m → frame_typed m.
Proof.
  intros [_ _ _ Ht Hd Hl H16 Ho Hs _ Hx Hb1 Hb2].
  pose proof (len_nonneg (raw_extension_headers m)). pose proof (len_nonneg (payload m)).
  pose proof (len_nonneg (optional_wire (header m))).
  split; try done; [| |unfold u16; lia|unfold USIZE_MAX; lia].
  - intros s E. rewrite Hs in E. destruct (optional_present _);
      [destruct Ho as (q & ? & ? & Eq & ? & _)|destruct Ho as (Eq & _)];
      rewrite Eq in E; by destruct (seq_num_flag _); simplify_eq.
  - intros t E. rewrite Hx in E. destruct (optional_present _);
      [destruct Ho as (? & ? & x & _ & _ & _ & _ & Eq & ?)|destruct Ho as (_ & _ & Eq)];
      rewrite Eq in E; by destruct (ext_hdr_flag _); simplify_eq.
Qed.

Lemma layout_body m : layout m → length_field (header m) = body_len m.
Proof. intros HL. rewrite (l_length _ HL), optional_wire_len. done. Qed.

Lemma validate_layout m ctx :
  layout m → (ext_hdr_flag (header m) = true → first_type m ≠ 0) →
  (ext_hdr_flag (header m) = false → raw_extension_headers m = []) →
  8 + body_len m ≤ max_message_len ctx →
  validate_generic_frame_model m ctx
  = Ok (8 + optional_len m + len (raw_extension_headers m), 8 + body_len m).
Proof.
  intros HL Hn Hr Hm. pose proof (layout_typed m HL) as Hty. pose proof (layout_body m HL) as Hbl.
  destruct HL as [Hv Hp _ _ _ _ H16 Ho Hs Hnp Hx _ _].
  unfold validate_generic_frame_model. fold (optional_present (header m)).
  rewrite optional_len_mul. cbn [ok_or].
  rewrite Hv, Hp. cbn [negb Z.eqb Pos.eqb].
  assert ((ext_hdr_flag (header m) && match next_ext_type (header m) with
            | Some t => t =? 0 | None => true end) = false) as ->.
  { unfold first_type, extensions in Hn; cbn in Hn. destruct (ext_hdr_flag (header m)); [|done].
    specialize (Hn eq_refl). destruct (next_ext_type (header m)); cbn in *; [|done].
    by apply Z.eqb_neq. }
  rewrite Hs, Hnp, Hx.
  assert ((negb (ext_hdr_flag (header m)) &&
            match raw_extension_headers m with [] => false | _ => true end) = false) as ->.
  { destruct (ext_hdr_flag (header m)); [done|]. by rewrite Hr. }
  rewrite validate_lengths, Hbl by done.
  rewrite (proj2 (Z.ltb_ge _ (8 + _))), (proj2 (Z.ltb_ge 65535 _)), Z.eqb_refl by lia.
  unfold optional_present in *.
  destruct (ext_hdr_flag _), (seq_num_flag _), (npdu_num_flag _); cbn in Ho |- *;
    try (destruct Ho as (? & ? & ? & -> & ? & -> & ? & -> & ?)); try destruct Ho as (-> & -> & ->);
    cbn; by rewrite ?bool_decide_true.
Qed.
