(* ===== verification/GtpuControlRoundtrip.v ===== *)
(** The typed GTP-U control codec as a whole, [crates/opc-proto-gtpu/src/control.rs]:
    which messages the receiver produces, and the round trips between [to_bytes]
    and [decode]. *)
From S2P Require Import Prelude.
From S2P Require Import Protocol.
From S2P Require Import GtpuExtension.
From S2P Require Import GtpuChain.
From S2P Require Import GtpuMessage.
From S2P Require Import GtpuRoundtrip.
From S2P Require Import GtpuControl.
From S2P Require Import GtpuControlExtensions.
From S2P Require Import GtpuControlIes.
From S2P Require Import GtpuControlRefs.
From S2P Require Import GtpuControlFrames.

(** ** The parts of a message *)

Definition opt_list {A} (o : option A) : list A :=
  match o with Some x => [x] | None => [] end.

(** The elements of a message other than private extensions and unknown ones. *)
Definition single_refs (m : GtpuControlMessage) : list ControlIeRef :=
  match m with
  | EchoRequest v => RefRecoveryTimeStamp <$> opt_list (recovery_time_stamp (ereq_optional v))
  | EchoResponse v =>
      RefRecovery :: (RefRecoveryTimeStamp <$> opt_list (recovery_time_stamp (eres_optional v)))
  | ErrorIndication v =>
      RefTeid (teid_data_i v) :: RefPeerAddress (peer_address v)
      :: (RefRecoveryTimeStamp <$> opt_list (recovery_time_stamp (eind_optional v)))
  | SupportedExtensionHeadersNotification v => [RefExtensionTypes (supported_types v)]
  | TunnelStatus v => [RefTunnelStatus (tsta_information v)]
  | EndMarker _ => []
  end.

Definition privates (m : GtpuControlMessage) : list GtpuPrivateExtension :=
  match m with
  | EchoRequest v => private_extensions (ereq_optional v)
  | EchoResponse v => private_extensions (eres_optional v)
  | ErrorIndication v => private_extensions (eind_optional v)
  | SupportedExtensionHeadersNotification v => sehn_private_extensions v
  | TunnelStatus v => tsta_private_extensions v
  | EndMarker v => emrk_private_extensions v
  end.

Definition unknowns (m : GtpuControlMessage) : list GtpuUnknownControlIe :=
  match m with
  | EchoRequest v => unknown_ies (ereq_optional v)
  | EchoResponse v => unknown_ies (eres_optional v)
  | ErrorIndication v => unknown_ies (eind_optional v)
  | SupportedExtensionHeadersNotification v => sehn_unknown_ies v
  | TunnelStatus v => tsta_unknown_ies v
  | EndMarker v => emrk_unknown_ies v
  end.

Definition chain (m : GtpuControlMessage) : GtpuExtensionChain :=
  match m with
  | EchoRequest v => ereq_extensions v
  | EchoResponse v => eres_extensions v
  | ErrorIndication v => eind_extensions v
  | SupportedExtensionHeadersNotification v => sehn_extensions v
  | TunnelStatus v => tsta_extensions v
  | EndMarker v => emrk_extensions v
  end.

Definition header_teid (m : GtpuControlMessage) : Z :=
  match m with
  | TunnelStatus v => tsta_teid v
  | EndMarker v => emrk_teid v
  | _ => 0
  end.

(** The sequence number written in the header. *)
Definition header_sequence (m : GtpuControlMessage) : option Z :=
  match m with
  | EchoRequest _ | EchoResponse _ => control_sequence_number m
  | ErrorIndication _ | SupportedExtensionHeadersNotification _ => Some 0
  | TunnelStatus _ | EndMarker _ => None
  end.

Definition port (m : GtpuControlMessage) : option Z :=
  match m with ErrorIndication v => triggering_udp_source_port v | _ => None end.

Definition refs (m : GtpuControlMessage) : list ControlIeRef :=
  single_refs m ++ (RefPrivate <$> privates m) ++ (RefUnknown <$> unknowns m).

Definition size (m : GtpuControlMessage) : Z :=
  frame_size (header_sequence m) (chain m) (total (refs m)).

(** A message as the receiver produces it: the elements its type may carry, each at
    most once except private extensions, unknown elements in ascending order, all
    within the limits; a consistent chain of applicable extension headers; and an
    Error Indication names a tunnel. *)
Record control_wf (ctx : DecodeContext) (m : GtpuControlMessage) : Prop := {
  w_sequence : ∀ s, header_sequence m = Some s → u16 s;
  w_teid : u32 (header_teid m);
  w_indication : match m with ErrorIndication v => teid_data_i v ≠ 0 | _ => True end;
  w_refs : kept_refs (control_message_type m) [] (refs m);
  w_order : in_order ref_unknown (refs m);
  w_count : refs m ≠ [] → count_ok ctx (len (refs m));
  w_unknowns : preserves ctx = true ∨ unknowns m = [];
  w_chain : control_chain ctx (control_message_type m) (chain m) (port m);
  w_chain_ok : chain_ok (chain m);
}.

(** What a message becomes when it is sent and received: the spare bits of a Tunnel
    Status are cleared, the container of an End Marker leads its chain. *)
Definition normalize (m : GtpuControlMessage) : GtpuControlMessage :=
  match m with
  | TunnelStatus v =>
      TunnelStatus {| tsta_teid := tsta_teid v;
                      tsta_information := clear_spare (tsta_information v);
                      tsta_private_extensions := tsta_private_extensions v;
                      tsta_unknown_ies := tsta_unknown_ies v;
                      tsta_extensions := tsta_extensions v |}
  | EndMarker v =>
      match canonicalize_pdu_session_container (emrk_extensions v) with
      | Ok c => EndMarker {| emrk_teid := emrk_teid v;
                             emrk_private_extensions := emrk_private_extensions v;
                             emrk_unknown_ies := emrk_unknown_ies v;
                             emrk_extensions := c |}
      | _ => m
      end
  | _ => m
  end.

(** ** Sending a message *)

Lemma add_counts_ok ns : ∀ n,
  Forall (λ k, 0 ≤ k) ns → 0 ≤ n → n + foldr Z.add 0 ns ≤ USIZE_MAX →
  add_counts n ns = Ok (n + foldr Z.add 0 ns).
Proof.
  induction ns as [|k ns IH]; intros n Hns Hn Hs; cbn [add_counts foldr] in *.
  { by rewrite Z.add_0_r. }
  apply Forall_cons in Hns as [Hk Hns].
  assert (0 ≤ foldr Z.add 0 ns) by (clear -Hns; induction Hns; cbn; lia).
  rewrite checked_add_ok by lia. cbn [ok_or]. rewrite IH by (done || lia). f_equal. lia.
Qed.

Lemma refs_len m : len (refs m) = len (single_refs m) + len (privates m) + len (unknowns m).
Proof. unfold refs, len. rewrite !List.length_app, !length_fmap. lia. Qed.

(** The chain a message is sent with. *)
Definition sent_chain (m : GtpuControlMessage) (c : GtpuExtensionChain) : Prop :=
  match m with
  | EndMarker v => canonicalize_pdu_session_container (emrk_extensions v) = Ok c
  | _ => c = chain m
  end.

Lemma ensure_count_ok n : n ≤ MAX_CONTROL_IES → ensure_control_ie_count n = Ok ().
Proof. intros H. unfold ensure_control_ie_count. by rewrite (proj2 (Z.ltb_ge _ _)). Qed.

(** The count pass of [to_bytes] succeeds on at most the limit of elements. *)
Lemma counted {A} n ns (k : outcome GtpuControlCodecError A) :
  Forall (λ x, 0 ≤ x) ns → 0 ≤ n → n + foldr Z.add 0 ns ≤ MAX_CONTROL_IES →
  (let? count := add_counts n ns in
   let? _ := ensure_control_ie_count count in
   k) = k.
Proof.
  intros Hns Hn Hm. rewrite add_counts_ok by (done || (unfold MAX_CONTROL_IES, USIZE_MAX in *; lia)).
  by rewrite ensure_count_ok.
Qed.

Ltac count_pass :=
  rewrite counted;
  [|repeat constructor; first [done | apply len_nonneg | by destruct (recovery_time_stamp _)]
  |done || apply len_nonneg|cbn [foldr Z.b2z]; lia].

Lemma len_opt {A B} (f : A → B) (o : option A) : len (f <$> opt_list o) = Z.b2z (present o).
Proof. by destruct o. Qed.

Lemma refs_opt {A B} (f : A → B) (o : option A) :
  match o with Some x => [f x] | None => [] end = f <$> opt_list o.
Proof. by destruct o. Qed.

Lemma to_bytes_frame m c ectx :
  len (refs m) ≤ MAX_CONTROL_IES →
  match m with ErrorIndication v => teid_data_i v ≠ 0 | _ => True end →
  sent_chain m c →
  to_bytes m ectx
  = encode_control_frame (control_message_type m) (header_teid m) (header_sequence m) c
      (refs m) ectx.
Proof.
  rewrite refs_len. intros Hn Ht Hc.
  pose proof (len_nonneg (privates m)). pose proof (len_nonneg (unknowns m)).
  destruct m as [v|v|v|v|v|v]; cbn [sent_chain chain] in Hc; try subst c;
    cbn [single_refs privates unknowns to_bytes] in *;
    rewrite ?len_cons, ?len_opt, ?len_nil in Hn.
  - unfold optional_ie_count. count_pass.
    unfold ie_refs_optional. by rewrite refs_opt.
  - unfold optional_ie_count. count_pass.
    unfold ie_refs_optional. by rewrite refs_opt.
  - rewrite (proj2 (Z.eqb_neq _ 0)) by done.
    unfold error_ie_count. count_pass.
    unfold ie_refs_error. by rewrite refs_opt.
  - unfold supported_ie_count. by count_pass.
  - by count_pass.
  - unfold end_marker_ie_count. count_pass.
    by rewrite Hc.
Qed.

(** ** Receiving what was sent *)

Lemma frame_ctx_accepts ctx hs : forallb (header_accepted (frame_ctx ctx)) hs = true.
Proof.
  induction hs as [|h hs IH]; [done|]. cbn [forallb]. rewrite IH, andb_true_r.
  unfold header_accepted; cbn. by rewrite andb_false_r.
Qed.

Section Receiving.
Context (ctx : DecodeContext) (mt td : Z) (seq : option Z) (c : GtpuExtensionChain)
  (port : option Z) (pay : bytes).
Hypothesis Hmt : existsb (Z.eqb mt) control_types = true.
Hypothesis Htd : u32 td.
Hypothesis Hseq : ∀ s, seq = Some s → u16 s.
Hypothesis Hchain : control_chain ctx mt c port.
Hypothesis Hok : chain_ok c.
Hypothesis Hpay : bytes_ok pay.
Hypothesis Hsize : frame_size seq c (len pay) ≤ 65535.
Hypothesis Hfits : 8 + frame_size seq c (len pay) ≤ max_message_len ctx.

Lemma control_type_u8 : u8 mt.
Proof using Hmt.
  apply existsb_exists in Hmt as (x & Hin & E). to_prop. subst x.
  assert (Forall u8 control_types) as H by (repeat constructor; done).
  by apply (proj1 (List.Forall_forall _ _) H).
Qed.

Lemma sent_first_type : first_type (sent mt td seq c pay) = default 0 (first_extension_type c).
Proof using Hchain Hok.
  destruct Hchain as (hs & Hco & _). unfold first_type, extensions, sent, canonical; cbn.
  destruct (chain_first c hs Hco Hok) as (E & _ & _ & _ & Ep).
  destruct (first_extension_type c) as [t|]; cbn in *; [|done].
  rewrite <- Ep in E. destruct (t =? 0); [done|]. done.
Qed.

Lemma sent_flag : ext_hdr_flag (header (sent mt td seq c pay)) = has_headers c.
Proof using Hchain Hok.
  destruct Hchain as (hs & Hco & _). by destruct (chain_first c hs Hco Hok) as (-> & _).
Qed.

Lemma sent_received tail :
  8 + frame_size seq c (len pay) + len tail ≤ max_message_len ctx →
  decode (wire (sent mt td seq c pay) ++ tail) (frame_ctx ctx)
  = Ok (tail, sent mt td seq c pay).
Proof using Hmt Htd Hseq Hchain Hok Hpay Hsize.
  intros Hl. destruct Hchain as (hs & Hco & Hw & _).
  pose proof (sent_layout mt td seq c hs control_type_u8 Htd Hseq Hco Hok pay Hpay Hsize) as HL.
  apply decode_wire; [done| |].
  - split; [done..|]. rewrite sent_flag.
    destruct (chain_first c hs Hco Hok) as (E & _ & Hch & _ & Ep).
    cbn -[has_headers]. rewrite <- E, orb_false_r. destruct (has_headers c) eqn:Eh; cbn [orb].
    + exists hs. split; [done|]. split; [exact Hw|apply frame_ctx_accepts].
    + unfold has_headers in Eh. apply orb_false_iff in Eh as [_ Eh]. by destruct (raw_headers c).
  - rewrite len_app, (sent_wire_len mt td seq c hs control_type_u8 Htd Hseq Hco Hok pay Hpay Hsize).
    exact Hl.
Qed.

Lemma sent_body : body_len (sent mt td seq c pay) = frame_size seq c (len pay).
Proof using Hmt Htd Hseq Hchain Hok Hpay Hsize.
  destruct Hchain as (hs & Hco & Hw & _).
  pose proof (sent_layout mt td seq c hs control_type_u8 Htd Hseq Hco Hok pay Hpay Hsize) as HL.
  pose proof (sent_wire_len mt td seq c hs control_type_u8 Htd Hseq Hco Hok pay Hpay Hsize) as E.
  rewrite wire_size, layout_body in E by done. lia.
Qed.

Lemma sent_validated :
  ∃ v, ValidatedControlFrame_new (sent mt td seq c pay) ctx = Ok v
       ∧ v_message_type v = mt ∧ v_extensions v = c ∧ fst <$> v_udp_port v = port
       ∧ 0 ≤ v_payload_base v ∧ v_payload_base v + len pay ≤ USIZE_MAX.
Proof using All.
  pose proof Hchain as (hs & Hco & Hw & _).
  pose proof (sent_layout mt td seq c hs control_type_u8 Htd Hseq Hco Hok pay Hpay Hsize) as HL.
  set (m := sent mt td seq c pay) in *.
  assert (Er : raw_extension_headers m = raw_headers c) by done.
  assert (Hl : 0 ≤ optional_len m ≤ 4) by (unfold optional_len; case_match; lia).
  pose proof sent_body as Eb. fold m in Eb. unfold body_len in Eb.
  change (payload m) with pay in Eb.
  pose proof (len_nonneg (raw_extension_headers m)). pose proof (len_nonneg pay).
  unfold ValidatedControlFrame_new. rewrite validate_layout; [|done|..].
  2: { unfold m. rewrite sent_flag, sent_first_type.
       destruct (chain_first c hs Hco Hok) as (-> & _). intros Hx. by to_prop. }
  2: { unfold m. rewrite sent_flag. unfold has_headers. intros [_ Hx]%orb_false_iff.
       cbn. by destruct (raw_headers c). }
  2: { unfold m. rewrite sent_body. done. }
  change (message_type (header m)) with mt. rewrite Hmt. cbn [negb].
  destruct (proj2 (parse_extensions_spec m mt ctx c port (l_extensions _ HL)
    ltac:(unfold USIZE_MAX; lia))) as (udp & -> & Hu).
  { split; [|done]. split; [done|]. unfold m. rewrite sent_first_type.
    destruct Hco as (t & _ & -> & _). destruct (t =? 0) eqn:E; cbn; [done|]. by rewrite E. }
  eexists. split; [done|].
  cbn [v_message_type v_extensions v_udp_port v_payload_base].
  split_and!; try done; unfold USIZE_MAX; lia.
Qed.

End Receiving.

Lemma sent_sequence mt td seq c pay : sequence_number (header (sent mt td seq c pay)) = seq.
Proof.
  unfold sent, canonical, decoded; cbn -[default]. destruct seq; cbn; [|done].
  by rewrite orb_true_r.
Qed.

(** The fields the elements of a message are stored in. *)
Definition shape (m : GtpuControlMessage) : ParsedIes :=
  let rs := norm_ref <$> single_refs m in
  {| p_tunnel_status_information := newest None (omap ref_status rs);
     p_recovery := foldl (λ _ _, true) false (omap ref_recovery rs);
     p_teid_data_i := newest None (omap ref_teid rs);
     p_peer_address := newest None (omap ref_peer rs);
     p_extension_header_type_list := newest None (omap ref_types rs);
     p_recovery_time_stamp := newest None (omap ref_time_stamp rs);
     p_private_extensions := privates m;
     p_unknown_ies := unknowns m;
     known_ie_offsets := [] |}.

Lemma omap_shape {A} (f : ControlIeRef → option A) m :
  omap f (norm_ref <$> refs m)
  = omap f (norm_ref <$> single_refs m) ++ omap (f ∘ RefPrivate) (privates m)
    ++ omap (f ∘ RefUnknown) (unknowns m).
Proof.
  unfold refs. rewrite !fmap_app, !omap_app. do 2 f_equal.
  - induction (privates m) as [|v l IH]; [done|]. cbn. by rewrite IH.
  - induction (unknowns m) as [|v l IH]; [done|]. cbn. by rewrite IH.
Qed.

Lemma omap_none {A B} (f : A → option B) (l : list A) : (∀ x, f x = None) → omap f l = [].
Proof. intros H. induction l as [|x l IH]; [done|]. cbn. by rewrite H. Qed.

Lemma omap_some {A} (f : A → option A) (l : list A) : (∀ x, f x = Some x) → omap f l = l.
Proof. intros H. induction l as [|x l IH]; [done|]. cbn. by rewrite H, IH. Qed.

Lemma single_no_private m :
  omap ref_private (norm_ref <$> single_refs m) = []
  ∧ omap ref_unknown (norm_ref <$> single_refs m) = [].
Proof. destruct m as [v|v|v|v|v|v]; cbn; try done; by destruct (recovery_time_stamp _). Qed.

Lemma stored_shape ctx m :
  preserves ctx = true ∨ unknowns m = [] →
  stored_refs ctx ParsedIes_default (norm_ref <$> refs m) = shape m.
Proof.
  intros Hu. unfold stored_refs, shape. rewrite !omap_shape.
  destruct (single_no_private m) as [-> ->].
  rewrite (omap_some (ref_private ∘ RefPrivate)), (omap_some (ref_unknown ∘ RefUnknown)) by done.
  rewrite !(omap_none (_ ∘ RefPrivate)), !(omap_none (_ ∘ RefUnknown)) by done.
  cbn [app]. rewrite !app_nil_r. cbn [ParsedIes_default]. f_equal.
  destruct Hu as [->| ->]; [done|]. by destruct (preserves ctx).
Qed.

Lemma into_optional_strip p : into_optional p = into_optional (strip p).
Proof. done. Qed.

Lemma newest_opt {A} (o : option A) : newest None (opt_list o) = o.
Proof. by destruct o. Qed.

Lemma reject_none (u : option (Z * Z)) : fst <$> u = None → reject_udp_port u = Ok ().
Proof. by destruct u as [[]|]. Qed.

Lemma zero_teid_ok mt s c pay :
  validate_zero_teid_and_sequence (sent mt 0 (Some s) c pay) = Ok ().
Proof. unfold validate_zero_teid_and_sequence. by rewrite sent_sequence. Qed.

Lemma required_sequence_ok mt td s c pay :
  required_sequence (sent mt td (Some s) c pay) = Ok s.
Proof. unfold required_sequence. by rewrite sent_sequence. Qed.

Lemma control_type_known m : existsb (Z.eqb (control_message_type m)) control_types = true.
Proof. by destruct m. Qed.

(** The arm of [from_message] for the message's type rebuilds the message. *)
Lemma arms_rebuild m c v p pay ctx :
  v_message_type v = control_message_type m → v_extensions v = c →
  fst <$> v_udp_port v = port m → strip p = shape m → sent_chain m c →
  match m with ErrorIndication v => teid_data_i v ≠ 0 | _ => True end →
  ValidatedControlFrame_new
    (sent (control_message_type m) (header_teid m) (header_sequence m) c pay) ctx = Ok v →
  parse_ies pay (v_payload_base v) (v_message_type v) ctx = Ok p →
  control_from_message
    (sent (control_message_type m) (header_teid m) (header_sequence m) c pay) ctx
  = Ok (normalize m).
Proof.
  intros Hmt Hx Hu Hp Hc Ht Hv Hpp. unfold control_from_message. rewrite Hv.
  change (payload (sent _ _ _ _ _)) with pay. rewrite Hpp, Hmt.
  destruct m as [[q [o ps us] x]|[q u [o ps us] x]|[t a pt [o ps us] x]|[ts ps us x]|[t i ps us x]
    |[t ps us x]];
    cbn -[sent strip shape normalize] in Hc, Ht, Hu |- *.
  - unfold echo_request_of. rewrite zero_teid_ok, reject_none, required_sequence_ok by done.
    rewrite into_optional_strip, Hp, Hx, Hc. by destruct o.
  - unfold echo_response_of. rewrite zero_teid_ok, reject_none by done.
    change (p_recovery p) with (p_recovery (strip p)). rewrite Hp. cbn [shape p_recovery].
    rewrite required_sequence_ok, into_optional_strip, Hp, Hx, Hc. destruct u. by destruct o.
  - unfold error_indication_of. rewrite zero_teid_ok.
    change (p_teid_data_i p) with (p_teid_data_i (strip p)).
    change (p_peer_address p) with (p_peer_address (strip p)).
    rewrite Hp, into_optional_strip, Hp, Hu, Hx, Hc.
    destruct o; cbn; by rewrite (proj2 (Z.eqb_neq t 0)).
  - unfold notification_of. rewrite zero_teid_ok, reject_none by done.
    change (p_extension_header_type_list p) with (p_extension_header_type_list (strip p)).
    change (p_private_extensions p) with (p_private_extensions (strip p)).
    change (p_unknown_ies p) with (p_unknown_ies (strip p)).
    by rewrite Hp, Hx, Hc.
  - unfold tunnel_status_of. rewrite reject_none by done.
    change (p_tunnel_status_information p) with (p_tunnel_status_information (strip p)).
    change (p_private_extensions p) with (p_private_extensions (strip p)).
    change (p_unknown_ies p) with (p_unknown_ies (strip p)).
    by rewrite Hp, Hx, Hc.
  - unfold end_marker_of. rewrite reject_none by done.
    change (p_private_extensions p) with (p_private_extensions (strip p)).
    change (p_unknown_ies p) with (p_unknown_ies (strip p)).
    rewrite Hp, Hx. cbn. by rewrite Hc.
Qed.

Lemma has_headers_len c hs :
  chain_of hs c → chain_ok c → has_headers c = negb (len (raw_headers c) =? 0).
Proof.
  intros Hco Hok. destruct (chain_first c hs Hco Hok) as (E & _ & Hch & _ & _). rewrite E.
  inversion Hch as [Ht|t u x n hs' raw Ht Hu Hx Hch']; [done|].
  rewrite (proj2 (Z.eqb_neq _ 0)), (proj2 (Z.eqb_neq (len _) 0)) by (done || len_lia). done.
Qed.

Lemma size_sent ctx m c :
  control_wf ctx m → control_chain ctx (control_message_type m) c (port m) → chain_ok c →
  len (raw_headers c) = len (raw_headers (chain m)) →
  frame_size (header_sequence m) c (total (refs m)) = size m.
Proof.
  intros Hwf (hs' & Hco' & _) Hok' E. destruct (w_chain _ _ Hwf) as (hs & Hco & _).
  unfold size, frame_size.
  rewrite (has_headers_len c hs'), (has_headers_len (chain m) hs) by (done || apply Hwf).
  by rewrite E.
Qed.

Lemma size_bounds m : 0 ≤ total (refs m) ∧ len (raw_headers (chain m)) + total (refs m) ≤ size m.
Proof. pose proof (total_nonneg (refs m)). unfold size, frame_size. case_match; lia. Qed.

(** The chain a message is sent with exists, is accepted by the receiver, has the
    size of the chain the message holds, and is what the sent message holds. *)
Lemma sent_chain_ok ctx m :
  control_wf ctx m → size m ≤ 65535 →
  ∃ c, sent_chain m c ∧ control_chain ctx (control_message_type m) c (port m) ∧ chain_ok c
       ∧ len (raw_headers c) = len (raw_headers (chain m)) ∧ sent_chain (normalize m) c.
Proof.
  intros Hwf Hs. pose proof (w_chain _ _ Hwf) as Hc. pose proof (w_chain_ok _ _ Hwf) as Hok.
  destruct (size_bounds m). destruct m as [v|v|v|v|v|v]; try (eexists; by split_and!).
  destruct (canonicalize_chain ctx (emrk_extensions v) None Hc Hok) as (c & E & ? & ? & ? & _ & E').
  { cbn [chain] in *. unfold USIZE_MAX. lia. }
  exists c. split_and!; try done. cbn. rewrite E. done.
Qed.

Lemma insert_norm r rs :
  insert_by_type (norm_ref r) (norm_ref <$> rs) = norm_ref <$> insert_by_type r rs.
Proof.
  induction rs as [|o rs IH]; [done|]. cbn. rewrite !norm_type. case_match; [done|].
  cbn. by rewrite <- IH.
Qed.

Lemma sort_norm rs : sort_by_type (norm_ref <$> rs) = norm_ref <$> sort_by_type rs.
Proof.
  induction rs as [|r rs IH]; [done|]. cbn. fold (sort_by_type (norm_ref <$> rs)).
  fold (sort_by_type rs). by rewrite IH, insert_norm.
Qed.

Lemma wires_norm rs : wires (ref_raw <$> (norm_ref <$> rs)) = wires (ref_raw <$> rs).
Proof. induction rs as [|r rs IH]; [done|]. cbn. rewrite IH. by destruct r. Qed.

Lemma norm_ok r : ref_ok r → ref_ok (norm_ref r).
Proof. by destruct r. Qed.

Lemma refs_normalize m : refs (normalize m) = norm_ref <$> refs m.
Proof.
  assert (H : ∀ ps us, norm_ref <$> ((RefPrivate <$> ps) ++ (RefUnknown <$> us))
                       = (RefPrivate <$> ps) ++ (RefUnknown <$> us)).
  { intros ps us. rewrite fmap_app. f_equal;
      [induction ps as [|? ? IH]|induction us as [|? ? IH]]; try done; cbn; by rewrite IH. }
  unfold refs. rewrite fmap_app, H.
  destruct m as [v|v|v|v|v|v]; cbn [normalize]; try done;
    try (cbn; by destruct (recovery_time_stamp _)).
  by destruct (canonicalize_pdu_session_container _).
Qed.

Lemma normalize_parts m :
  control_message_type (normalize m) = control_message_type m
  ∧ header_teid (normalize m) = header_teid m
  ∧ header_sequence (normalize m) = header_sequence m
  ∧ (match m with ErrorIndication v => teid_data_i v ≠ 0 | _ => True end →
     match normalize m with ErrorIndication v => teid_data_i v ≠ 0 | _ => True end).
Proof.
  destruct m as [v|v|v|v|v|v]; cbn [normalize]; try done.
  by destruct (canonicalize_pdu_session_container _).
Qed.

Lemma to_bytes_wire ctx m c ectx :
  control_wf ctx m → sent_chain m c →
  control_chain ctx (control_message_type m) c (port m) → chain_ok c →
  frame_size (header_sequence m) c (total (refs m)) ≤ 65535 →
  8 + frame_size (header_sequence m) c (total (refs m)) ≤ encode_max_message_len ectx →
  sent_chain (normalize m) c →
  let b := wire (sent (control_message_type m) (header_teid m) (header_sequence m) c
                   (wires (ref_raw <$> sort_by_type (refs m)))) in
  to_bytes m ectx = Ok b ∧ to_bytes (normalize m) ectx = Ok b.
Proof.
  intros Hwf Hc (hs & Hco & _) Hok Hs Hcap Hc'.
  pose proof (control_type_u8 _ (control_type_known m)) as Hmt.
  assert (Hn : len (refs m) ≤ MAX_CONTROL_IES).
  { destruct (decide (refs m = [])) as [->|Hne]; [done|]. apply (w_count _ _ Hwf Hne). }
  pose proof (k_ok _ _ _ (w_refs _ _ Hwf)) as Hrok.
  destruct (normalize_parts m) as (Emt & Etd & Eq & Ht).
  assert (Hnl : len (norm_ref <$> refs m) = len (refs m)) by (unfold len; by rewrite length_fmap).
  assert (Htot : total (norm_ref <$> refs m) = total (refs m))
    by by rewrite <- !total_wires, wires_norm.
  split.
  - rewrite (to_bytes_frame m c) by (done || apply Hwf).
    apply (encode_control_frame_ok _ _ _ _ hs); try done; apply Hwf.
  - rewrite (to_bytes_frame (normalize m) c), Emt, Etd, Eq, refs_normalize;
      [|by rewrite refs_normalize, Hnl|by apply Ht, Hwf|done].
    rewrite (encode_control_frame_ok _ _ _ _ hs); try done; try apply Hwf; try congruence.
    + by rewrite sort_norm, wires_norm.
    + apply Forall_fmap. eapply Forall_impl; [exact Hrok|]. apply norm_ok.
Qed.

(** Sending a well-formed message and receiving it. *)
Lemma send_receive ctx ectx m :
  control_wf ctx m → size m ≤ 65535 → 8 + size m ≤ max_message_len ctx →
  8 + size m ≤ encode_max_message_len ectx →
  ∃ b, to_bytes m ectx = Ok b ∧ bytes_ok b ∧ len b = 8 + size m
       ∧ decode_datagram b ctx = Ok (normalize m) ∧ to_bytes (normalize m) ectx = Ok b.
Proof.
  intros Hwf Hs Hm Hcap.
  destruct (sent_chain_ok ctx m Hwf Hs) as (c & Hc & Hcc & Hok & Hl & Hc').
  pose proof (size_sent ctx m c Hwf Hcc Hok Hl) as Esize.
  destruct (to_bytes_wire ctx m c ectx Hwf Hc Hcc Hok ltac:(lia) ltac:(lia) Hc') as [E1 E2].
  set (pay := wires (ref_raw <$> sort_by_type (refs m))) in *.
  destruct (size_bounds m) as [Ht0 Ht]. pose proof (len_nonneg (raw_headers (chain m))).
  assert (Hlen : len pay = total (refs m)).
  { unfold pay. by rewrite total_wires, (total_perm _ _ (sort_perm (refs m))). }
  assert (Hpay : bytes_ok pay).
  { apply wires_bytes, Forall_fmap. rewrite sort_perm.
    eapply Forall_impl; [apply (k_ok _ _ _ (w_refs _ _ Hwf))|]. apply ref_raw_ok. }
  rewrite <- Hlen in Esize.
  pose proof (control_type_known m) as Hmt. pose proof (control_type_u8 _ Hmt) as H8.
  destruct Hwf as [Hq Htd Hi Hk Ho Hcnt Hu _ _].
  pose proof Hcc as (hs & Hco & _).
  eexists. split; [exact E1|]. split; [|split; [|split; [|exact E2]]].
  - apply wire_bytes. by eapply sent_layout; try done; lia.
  - erewrite sent_wire_len; try done; lia.
  - unfold decode_datagram, control_decode. rewrite <- (app_nil_r (wire _)).
    rewrite (sent_received ctx _ _ _ c (port m)) by (done || lia || (rewrite len_nil; lia)).
    cbn [map_err].
    destruct (sent_validated ctx _ _ _ c (port m) pay Hmt Htd Hq Hcc Hok Hpay) as
      (v & Ev & Evm & Evx & Evu & Ev0 & Evl); [lia..|].
    destruct (parse_written ctx (control_message_type m) (v_payload_base v) (refs m) Hk Ho Hcnt Ev0)
      as (p & Ep & Es); [lia|]. rewrite stored_shape in Es by done.
    rewrite (arms_rebuild m c v p); try done. by rewrite Evm.
Qed.

(** ** What the receiver produces *)

(** All the elements a parse result holds. *)
Definition parsed_refs (p : ParsedIes) : list ControlIeRef :=
  (if p_recovery p then [RefRecovery] else [])
  ++ (RefTeid <$> opt_list (p_teid_data_i p)) ++ (RefPeerAddress <$> opt_list (p_peer_address p))
  ++ (RefExtensionTypes <$> opt_list (p_extension_header_type_list p))
  ++ (RefRecoveryTimeStamp <$> opt_list (p_recovery_time_stamp p))
  ++ (RefTunnelStatus <$> opt_list (p_tunnel_status_information p))
  ++ (RefPrivate <$> p_private_extensions p) ++ (RefUnknown <$> p_unknown_ies p).

Lemma split_kinds rs :
  rs ≡ₚ ((λ _, RefRecovery) <$> omap ref_recovery rs)
        ++ (RefTeid <$> omap ref_teid rs) ++ (RefPeerAddress <$> omap ref_peer rs)
        ++ (RefExtensionTypes <$> omap ref_types rs)
        ++ (RefRecoveryTimeStamp <$> omap ref_time_stamp rs)
        ++ (RefTunnelStatus <$> omap ref_status rs)
        ++ (RefPrivate <$> omap ref_private rs) ++ (RefUnknown <$> omap ref_unknown rs).
Proof.
  induction rs as [|r rs IH]; [done|]. rewrite IH at 1.
  destruct r; cbn; rewrite <- ?Permutation_middle; try done; solve_Permutation.
Qed.

Lemma newest_sub {A B} (f : A → B) (l : list A) : f <$> opt_list (newest None l) ⊆+ f <$> l.
Proof.
  induction l as [|x l IH] using rev_ind; [done|]. unfold newest. rewrite foldl_app. cbn.
  rewrite fmap_app. apply submseteq_inserts_l. done.
Qed.

Lemma recovery_sub {A B} (x : B) (l : list A) :
  (if foldl (λ _ _, true) false l then [x] else []) ⊆+ (λ _, x) <$> l.
Proof.
  destruct l as [|a l]; [done|]. cbn.
  assert (foldl (λ _ _, true) true l = true) as -> by (induction l; done).
  apply submseteq_skip, submseteq_nil_l.
Qed.

Lemma parsed_refs_sub ctx rs : parsed_refs (stored_refs ctx ParsedIes_default rs) ⊆+ rs.
Proof.
  rewrite (split_kinds rs) at 2. unfold parsed_refs, stored_refs; cbn -[omap newest foldl].
  repeat first [apply submseteq_app | apply recovery_sub | apply newest_sub]; [done|].
  destruct (preserves ctx); [done|apply submseteq_nil_l].
Qed.

Lemma total_app l k : total (l ++ k) = total l + total k.
Proof. unfold total. induction l as [|r l IH]; cbn; lia. Qed.

Lemma kept_sub mt l rs :
  l ⊆+ rs → kept_refs mt [] rs → kept_refs mt [] l ∧ total l ≤ total rs ∧ len l ≤ len rs.
Proof.
  intros [k Hk]%submseteq_Permutation Hr. rewrite (total_perm _ _ Hk), total_app.
  assert (len rs = len l + len k) as -> by (rewrite <- len_app; unfold len; by rewrite Hk).
  apply (kept_perm _ _ _ _ Hk) in Hr as [H1 H2 H3].
  apply Forall_app in H1 as [H1 _], H2 as [H2 _].
  apply singletons_iff in H3 as [Hn _]. rewrite fmap_app, filter_app in Hn.
  apply NoDup_app in Hn as [Hn _]. pose proof (total_nonneg k).
  split; [split; try done|split; [lia|len_lia]].
  apply singletons_iff. split; [done|set_solver].
Qed.

Lemma ascending_pairs (ts : list Z) : ∀ prev, ascending prev ts → ForallOrdPairs Z.le ts.
Proof.
  induction ts as [|t ts IH]; intros prev; cbn; [constructor|]. intros [_ Ha].
  constructor; [|by eapply IH]. clear IH. revert t Ha.
  induction ts as [|u ts IH]; intros t Ha; [constructor|]. cbn in Ha. destruct Ha as [Hu Ha].
  specialize (Hu t eq_refl). constructor; [done|].
  eapply Forall_impl; [apply (IH u Ha)|]. intros x Hx. cbn in Hx. lia.
Qed.

Lemma unknown_order rs :
  ascending None (ref_ie_type <$> rs) →
  ForallOrdPairs (λ a b, unknown_ie_type a ≤ unknown_ie_type b) (omap ref_unknown rs).
Proof.
  intros H%ascending_pairs. induction rs as [|r rs IH]; [constructor|].
  cbn in H. inversion H as [|x l Hx Hl]; subst. specialize (IH Hl).
  destruct r; cbn; try done. constructor; [|done].
  clear -Hx. induction rs as [|o rs IH]; [constructor|].
  inversion Hx as [|? ? Ho Hrs]; subst. specialize (IH Hrs). by destruct o; try constructor.
Qed.

Lemma unknowns_in_order m :
  ForallOrdPairs (λ a b, unknown_ie_type a ≤ unknown_ie_type b) (unknowns m) →
  in_order ref_unknown (refs m).
Proof.
  intros H. unfold refs, in_order.
  assert (Hskip : ∀ l k, Forall (λ r, ref_unknown r = None) l →
    in_order ref_unknown k → in_order ref_unknown (l ++ k)).
  { intros l k Hl Hk. induction Hl as [|r l Hr Hl IH]; [done|]. constructor; [|done].
    apply Forall_true. intros o [? E]. congruence. }
  apply Hskip; [|apply Hskip].
  - destruct m as [v|v|v|v|v|v]; cbn; try destruct (recovery_time_stamp _); repeat constructor.
  - apply Forall_fmap, Forall_true. intros x. reflexivity.
  - induction H as [|u us Hu Hus IH]; constructor; [|done]. apply Forall_fmap.
    eapply Forall_impl; [exact Hu|]. intros x Hx _ _. exact Hx.
Qed.

Definition within_limits (ctx : DecodeContext) (rs : list ControlIeRef) : Prop :=
  rs ≠ [] → count_ok ctx (len rs).

(** A message whose parts come from a parse result is well formed in its elements. *)
Lemma built_from ctx mt p rs m :
  kept_refs mt [] rs → strip p = stored_refs ctx ParsedIes_default rs →
  ascending None (ref_ie_type <$> rs) → within_limits ctx rs →
  refs m ⊆+ parsed_refs p → unknowns m = p_unknown_ies p →
  kept_refs mt [] (refs m) ∧ in_order ref_unknown (refs m) ∧ within_limits ctx (refs m)
  ∧ (preserves ctx = true ∨ unknowns m = []) ∧ total (refs m) ≤ total rs.
Proof.
  intros Hk Hs Ha Hc Hm Hu.
  change (parsed_refs p) with (parsed_refs (strip p)) in Hm.
  change (p_unknown_ies p) with (p_unknown_ies (strip p)) in Hu.
  rewrite Hs in Hm, Hu. pose proof (parsed_refs_sub ctx rs) as Hp.
  destruct (kept_sub mt (refs m) rs) as (Hk' & Ht & Hl); [by etrans|done|].
  cbn in Hu. split; [done|]. split; [|split; [|split; [|done]]].
  - apply unknowns_in_order. rewrite Hu.
    destruct (preserves ctx); [by apply unknown_order|constructor].
  - intros Hne. assert (rs ≠ []) as Hr.
    { intros ->. destruct (refs m); [done|]. autorewrite with len in Hl.
      match type of Hl with context [len ?l] => pose proof (len_nonneg l) end. lia. }
    specialize (Hc Hr). unfold count_ok in *. lia.
  - destruct (preserves ctx); [by left|by right].
Qed.

(** The extension chain and the element list of an accepted frame. *)
Lemma frame_parts f ctx v p :
  frame_typed f → ValidatedControlFrame_new f ctx = Ok v →
  parse_ies (payload f) (v_payload_base v) (v_message_type v) ctx = Ok p →
  frame_checked f ctx ∧ v_message_type v = message_type (header f)
  ∧ existsb (Z.eqb (message_type (header f))) control_types = true
  ∧ chain_in f (v_extensions v)
  ∧ control_chain ctx (message_type (header f)) (v_extensions v) (fst <$> v_udp_port v)
  ∧ chain_ok (v_extensions v)
  ∧ ∃ rs, kept_refs (message_type (header f)) [] rs
          ∧ strip p = stored_refs ctx ParsedIes_default rs
          ∧ ascending None (ref_ie_type <$> rs) ∧ within_limits ctx rs
          ∧ total rs ≤ len (payload f).
Proof.
  intros Hty Hv Hp. unfold ValidatedControlFrame_new in Hv.
  destruct (validate_generic_frame_model f ctx) as [[base end_]|?|] eqn:Ev; try done.
  destruct (validate_frame_inv f ctx base end_ Hty Ev) as (Hfc & -> & ->).
  destruct (existsb _ _) eqn:Et; cbn [negb] in Hv; [|done].
  destruct (parse_extensions _ _ _) as [[c udp]|?|] eqn:Ex; try done. simplify_eq.
  cbn [v_message_type v_payload_base v_extensions v_udp_port] in *.
  pose proof Hty as [Hb1 Hb2 _ _ Hn8 _ _ Hs].
  pose proof (len_nonneg (raw_extension_headers f)). pose proof (len_nonneg (payload f)).
  assert (Hl : 0 ≤ optional_len f ≤ 4) by (unfold optional_len; case_match; lia).
  destruct (proj1 (parse_extensions_spec f (message_type (header f)) ctx c (fst <$> udp) Hb1
    ltac:(lia))) as [Hci Hcc]; [eauto|].
  apply parse_kept in Hp; [|done|lia|lia].
  split; [done|]. split; [done|]. split; [done|]. split; [done|]. split; [done|]. split; [|done].
  destruct Hci as [Er Ef]. split; [by rewrite Er|]. intros t Ht. rewrite Ef in Ht.
  destruct (_ =? 0); simplify_eq. unfold first_type, extensions; cbn.
  destruct (ext_hdr_flag _); [|done]. destruct (next_ext_type _) eqn:En; [|done]. by apply Hn8.
Qed.

(** What each arm of [from_message] takes from the frame. *)
Record built (f : GtpuMessage) (v : ValidatedControlFrame) (p : ParsedIes)
    (m : GtpuControlMessage) : Prop := {
  b_type : control_message_type m = message_type (header f);
  b_chain : chain m = v_extensions v;
  b_teid : header_teid m = teid (header f);
  b_port : port m = fst <$> v_udp_port v;
  b_refs : refs m ⊆+ parsed_refs p;
  b_unknowns : unknowns m = p_unknown_ies p;
  b_sequence : ∀ s, header_sequence m = Some s → s = 0 ∨ sequence_number (header f) = Some s;
  b_flag : present (header_sequence m) = true → seq_num_flag (header f) = true;
  b_indication : match m with ErrorIndication v => teid_data_i v ≠ 0 | _ => True end;
}.

Lemma zero_teid_inv f :
  validate_zero_teid_and_sequence f = Ok () →
  teid (header f) = 0 ∧ seq_num_flag (header f) = true.
Proof.
  unfold validate_zero_teid_and_sequence. intros H.
  destruct (teid (header f) =? 0) eqn:E; cbn in H; [|done]. to_prop. split; [done|].
  by destruct (seq_num_flag (header f)).
Qed.

Lemma reject_udp_inv u : reject_udp_port u = Ok () → u = None.
Proof. by destruct u as [[]|]. Qed.

(** A message's elements are a selection of the parsed ones, kind by kind. *)
Ltac from_parsed :=
  unfold refs, parsed_refs;
  cbn [single_refs privates unknowns ereq_optional eres_optional eind_optional into_optional
    recovery_time_stamp private_extensions unknown_ies sehn_private_extensions sehn_unknown_ies
    tsta_private_extensions tsta_unknown_ies emrk_private_extensions emrk_unknown_ies
    supported_types tsta_information teid_data_i peer_address fmap list_fmap opt_list app];
  repeat first [ reflexivity
               | apply submseteq_app; [reflexivity|]
               | apply submseteq_skip
               | apply submseteq_inserts_l ].

Lemma echo_request_built f v p m :
  message_type (header f) = GTPU_MESSAGE_ECHO_REQUEST →
  echo_request_of f v p = Ok m → built f v p m.
Proof.
  unfold echo_request_of. intros Ht H.
  destruct (validate_zero_teid_and_sequence f) as [[]|?|] eqn:Hz; try done.
  apply zero_teid_inv in Hz as [Htd Hs].
  destruct (reject_udp_port _) as [[]|?|] eqn:Hu; try done. apply reject_udp_inv in Hu.
  unfold required_sequence in H.
  destruct (sequence_number (header f)) as [s|] eqn:Hq; cbn [ok_or] in H; [|done]. simplify_eq.
  split; try done; [by rewrite Hu|from_parsed|cbn; rewrite Hq; naive_solver].
Qed.

Lemma echo_response_built f v p m :
  message_type (header f) = GTPU_MESSAGE_ECHO_RESPONSE →
  echo_response_of f v p = Ok m → built f v p m.
Proof.
  unfold echo_response_of. intros Ht H.
  destruct (validate_zero_teid_and_sequence f) as [[]|?|] eqn:Hz; try done.
  apply zero_teid_inv in Hz as [Htd Hs].
  destruct (reject_udp_port _) as [[]|?|] eqn:Hu; try done. apply reject_udp_inv in Hu.
  destruct (p_recovery p) eqn:Hr; cbn [negb] in H; [|done]. unfold required_sequence in H.
  destruct (sequence_number (header f)) as [s|] eqn:Hq; cbn [ok_or] in H; [|done]. simplify_eq.
  split; try done; [by rewrite Hu| |cbn; rewrite Hq; naive_solver].
  unfold parsed_refs. rewrite Hr. fold (parsed_refs p). from_parsed.
Qed.

Lemma error_indication_built f v p m :
  message_type (header f) = GTPU_MESSAGE_ERROR_INDICATION →
  error_indication_of f v p = Ok m → built f v p m.
Proof.
  unfold error_indication_of. intros Ht H.
  destruct (validate_zero_teid_and_sequence f) as [[]|?|] eqn:Hz; try done.
  apply zero_teid_inv in Hz as [Htd Hs].
  destruct (p_teid_data_i p) as [t|] eqn:Hi; cbn [ok_or] in H; [|done].
  destruct (t =? 0) eqn:Et; [done|]. to_prop.
  destruct (p_peer_address p) as [a|] eqn:Ha; cbn [ok_or] in H; [|done]. simplify_eq.
  split; try done; [|cbn; naive_solver].
  unfold parsed_refs. rewrite Hi, Ha. from_parsed.
Qed.

Lemma notification_built f v p m :
  message_type (header f) = GTPU_MESSAGE_SUPPORTED_EXTENSION_HEADERS_NOTIFICATION →
  notification_of f v p = Ok m → built f v p m.
Proof.
  unfold notification_of. intros Ht H.
  destruct (validate_zero_teid_and_sequence f) as [[]|?|] eqn:Hz; try done.
  apply zero_teid_inv in Hz as [Htd Hs].
  destruct (reject_udp_port _) as [[]|?|] eqn:Hu; try done. apply reject_udp_inv in Hu.
  destruct (p_extension_header_type_list p) as [ts|] eqn:Hl; cbn [ok_or] in H; [|done]. simplify_eq.
  split; try done; [by rewrite Hu| |cbn; naive_solver].
  unfold parsed_refs. rewrite Hl. from_parsed.
Qed.

Lemma tunnel_status_built f v p m :
  message_type (header f) = GTPU_MESSAGE_TUNNEL_STATUS →
  tunnel_status_of f v p = Ok m → built f v p m.
Proof.
  unfold tunnel_status_of. intros Ht H.
  destruct (reject_sequence f) as [[]|?|] eqn:Hz; try done.
  destruct (reject_udp_port _) as [[]|?|] eqn:Hu; try done. apply reject_udp_inv in Hu.
  destruct (p_tunnel_status_information p) as [i|] eqn:Hi; cbn [ok_or] in H; [|done]. simplify_eq.
  split; try done; [by rewrite Hu|]. unfold parsed_refs. rewrite Hi. from_parsed.
Qed.

Lemma end_marker_built f v p m :
  message_type (header f) = GTPU_MESSAGE_END_MARKER →
  end_marker_of f v p = Ok m → built f v p m.
Proof.
  unfold end_marker_of. intros Ht H.
  destruct (reject_sequence f) as [[]|?|] eqn:Hz; try done.
  destruct (reject_udp_port _) as [[]|?|] eqn:Hu; try done. apply reject_udp_inv in Hu. simplify_eq.
  split; try done; [by rewrite Hu|from_parsed].
Qed.

Lemma from_message_built f ctx m :
  control_from_message f ctx = Ok m →
  ∃ v p, ValidatedControlFrame_new f ctx = Ok v
         ∧ parse_ies (payload f) (v_payload_base v) (v_message_type v) ctx = Ok p
         ∧ (v_message_type v = message_type (header f) → built f v p m).
Proof.
  unfold control_from_message. intros H.
  destruct (ValidatedControlFrame_new f ctx) as [v|?|]; try done.
  destruct (parse_ies _ _ _ _) as [p|?|] eqn:Hp; try done.
  exists v, p. split; [done|]. split; [done|]. intros Hm.
  destruct (_ =? GTPU_MESSAGE_ECHO_REQUEST) eqn:E1; to_prop;
    [apply echo_request_built; [congruence|done]|].
  destruct (_ =? GTPU_MESSAGE_ECHO_RESPONSE) eqn:E2; to_prop;
    [apply echo_response_built; [congruence|done]|].
  destruct (_ =? GTPU_MESSAGE_ERROR_INDICATION) eqn:E3; to_prop;
    [apply error_indication_built; [congruence|done]|].
  destruct (_ =? GTPU_MESSAGE_SUPPORTED_EXTENSION_HEADERS_NOTIFICATION) eqn:E4; to_prop;
    [apply notification_built; [congruence|done]|].
  destruct (_ =? GTPU_MESSAGE_TUNNEL_STATUS) eqn:E5; to_prop;
    [apply tunnel_status_built; [congruence|done]|].
  destruct (_ =? GTPU_MESSAGE_END_MARKER) eqn:E6; to_prop;
    [apply end_marker_built; [congruence|done]|done].
Qed.

(** The octets the message needs are no more than the frame's. *)
Lemma built_size f ctx v p m rs :
  frame_checked f ctx → chain_in f (v_extensions v) → built f v p m →
  total (refs m) ≤ total rs → total rs ≤ len (payload f) → size m ≤ body_len f.
Proof.
  intros Hfc [Er Ef] Hb Ht Hl. unfold size, frame_size, body_len.
  rewrite (b_chain _ _ _ _ Hb), Er. unfold has_headers, optional_len, optional_present.
  pose proof (b_flag _ _ _ _ Hb) as Hs.
  destruct (ext_hdr_flag (header f)) eqn:Ee; cbn [orb]; [repeat case_match; lia|].
  assert (first_type f = 0) as E0.
  { unfold first_type, extensions; cbn [iter_next_ext_type]. by rewrite Ee. }
  rewrite Er, Ef, E0, (fc_extensions _ _ Hfc Ee). cbn [Z.eqb orb].
  destruct (header_sequence m); [rewrite Hs by done; cbn [orb]; lia|].
  cbn [orb]. destruct (_ || _); lia.
Qed.

Lemma from_message_wf f ctx m :
  frame_typed f → control_from_message f ctx = Ok m →
  control_wf ctx m ∧ size m ≤ body_len f ∧ frame_checked f ctx
  ∧ control_message_type m = message_type (header f) ∧ header_teid m = teid (header f)
  ∧ chain_in f (chain m) ∧ length_field (header f) = body_len f.
Proof.
  intros Hty H. destruct (from_message_built f ctx m H) as (v & p & Hv & Hp & Hb).
  destruct (frame_parts f ctx v p Hty Hv Hp)
    as (Hfc & Hm & Ht & Hci & Hcc & Hok & rs & Hk & Hs & Ha & Hc & Hl).
  specialize (Hb Hm).
  destruct (built_from ctx _ p rs m Hk Hs Ha Hc (b_refs _ _ _ _ Hb) (b_unknowns _ _ _ _ Hb))
    as (Hk' & Ho & Hc' & Hu & Htot).
  pose proof (built_size f ctx v p m rs Hfc Hci Hb Htot Hl) as Hsz.
  destruct Hb as [Et Ec Etd Ep _ Eu Hq Hf Hi]. rewrite <- Et, <- Ec in *.
  split; [|split; [done|split; [done|split; [done|split; [done|split; [done|apply Hfc]]]]]].
  split; try done; [|by rewrite Etd; apply Hty|by rewrite Ep].
  intros s Hsq. destruct (Hq s Hsq) as [->|E]; [done|]. by apply (ft_sequence _ Hty).
Qed.

Lemma arms_return f v p :
  returns (echo_request_of f v p) ∧ returns (echo_response_of f v p)
  ∧ returns (error_indication_of f v p) ∧ returns (notification_of f v p)
  ∧ returns (tunnel_status_of f v p) ∧ returns (end_marker_of f v p).
Proof.
  assert (Hz : returns (validate_zero_teid_and_sequence f)).
  { unfold validate_zero_teid_and_sequence. by destruct (negb _); [|destruct (_ || _)]. }
  assert (Hq : returns (required_sequence f)) by apply ok_or_returns.
  assert (Hs : returns (reject_sequence f)) by (unfold reject_sequence; by case_match).
  assert (Hu : returns (reject_udp_port (v_udp_port v))) by by destruct (v_udp_port v) as [[]|].
  unfold echo_request_of, echo_response_of, error_indication_of, notification_of,
    tunnel_status_of, end_marker_of.
  destruct (validate_zero_teid_and_sequence f), (reject_sequence f),
    (reject_udp_port (v_udp_port v)); try done; (split; [|split; [|split; [|split; [|split]]]]);
    try done; destruct (required_sequence f); try done.
  all: try (by destruct (p_recovery p)); try (by destruct (p_extension_header_type_list p));
    try (by destruct (p_tunnel_status_information p)).
  all: destruct (p_teid_data_i p) as [t|]; cbn [ok_or]; [|done]; destruct (t =? 0); [done|];
    by destruct (p_peer_address p).
Qed.

Lemma from_message_returns f ctx : frame_typed f → returns (control_from_message f ctx).
Proof.
  intros Hty. unfold control_from_message, ValidatedControlFrame_new.
  pose proof (validate_returns f ctx) as Hr.
  destruct (validate_generic_frame_model f ctx) as [[base end_]|?|] eqn:Ev; try done.
  destruct (validate_frame_inv f ctx base end_ Hty Ev) as (Hfc & -> & ->).
  destruct (existsb _ _); cbn [negb]; [|done].
  pose proof (parse_extensions_returns f (message_type (header f)) ctx (ft_raw _ Hty)) as Hx.
  destruct (parse_extensions _ _ _) as [[c udp]|?|]; try done.
  cbn [v_message_type v_payload_base]. pose proof (ft_size _ Hty).
  pose proof (len_nonneg (raw_extension_headers f)).
  assert (Hl : 0 ≤ optional_len f ≤ 4) by (unfold optional_len; case_match; lia).
  pose proof (parse_ies_returns (payload f) (8 + optional_len f + len (raw_extension_headers f))
    (message_type (header f)) ctx (ft_payload _ Hty) ltac:(lia) ltac:(lia)) as Hp.
  destruct (parse_ies _ _ _ _) as [p|?|]; try done.
  match goal with |- context [echo_request_of f ?v p] =>
    destruct (arms_return f v p) as (? & ? & ? & ? & ? & ?) end.
  by repeat (destruct (_ =? _); [done|]).
Qed.

(** ** Properties *)

(** C30.  The control receiver is total and produces only well-formed messages.  On
    any octets [GtpuControlMessage::decode] returns a message or an error, without
    a panic and without looping; a message it returns has the type and the TEID of
    the frame at the start of the input, its mandatory elements, only elements its
    procedure defines or unknown ones, each at most once except private
    extensions, within the caller's limits, and a consistent chain of extension
    headers applicable to the procedure; an Error Indication names a non-zero
    TEID. *)
Theorem control_decode_sound ctx input :
  bytes_ok input →
  returns (control_decode input ctx)
  ∧ ∀ tail m, control_decode input ctx = Ok (tail, m) →
      control_wf ctx m
      ∧ ∃ f, input = wire f ++ tail ∧ layout f
             ∧ message_type (header f) = control_message_type m
             ∧ teid (header f) = header_teid m ∧ chain_in f (chain m)
             ∧ size m ≤ length_field (header f) ≤ max_message_len ctx - 8.
Proof.
  intros Hb. unfold control_decode.
  destruct (decode input (frame_ctx ctx)) as [[tail f]|e|] eqn:Hd; cbn [map_err].
  - apply decode_iff in Hd as (-> & HL & HA & Hm); [|done].
    pose proof (layout_typed f HL) as Hty. pose proof (from_message_returns f ctx Hty) as Hr.
    destruct (control_from_message f ctx) as [m|?|] eqn:Hf; [|done..]. split; [done|].
    intros tail' m' [= <- <-].
    destruct (from_message_wf f ctx m Hty Hf) as (Hwf & Hs & Hfc & Et & Etd & Hci & El).
    split; [done|]. exists f. pose proof (fc_fits _ _ Hfc). split_and!; done || lia.
  - done.
  - by destruct (decode_cases (frame_ctx ctx) input Hb) as [He|(m & t & -> & HL & HA & Hm)];
      [rewrite Hd in He|rewrite decode_wire in Hd].
Qed.

Definition sample_response : bytes :=
  [0x32; 2; 0; 6; 0; 0; 0; 0; 0x12; 0x34; 0; 0; 14; 7; 0xaa].

Lemma control_decode_sound_witness :
  ∃ m, control_decode sample_response DecodeContext_default = Ok ([0xaa], m)
       ∧ control_wf DecodeContext_default m ∧ control_sequence_number m = Some 0x1234.
Proof.
  eexists. split; [vm_compute; reflexivity|]. split; [|reflexivity].
  apply (control_decode_sound DecodeContext_default sample_response
           ltac:(repeat constructor; done)) with (tail := [0xaa]).
  vm_compute; reflexivity.
Defined.

(** C31.  What is sent is received.  Every well-formed control message that fits the
    length field and both sides' limits is encoded, in a datagram of exactly its
    computed size, and decoding that datagram gives the message back, up to what
    the sender normalizes: the spare bits of a Tunnel Status are cleared and the
    container of an End Marker leads its chain.  The normalized message has the
    same encoding. *)
Theorem control_send_receive ctx ectx m :
  control_wf ctx m → size m ≤ 65535 → 8 + size m ≤ max_message_len ctx →
  8 + size m ≤ encode_max_message_len ectx →
  ∃ b, to_bytes m ectx = Ok b ∧ bytes_ok b ∧ len b = 8 + size m
       ∧ decode_datagram b ctx = Ok (normalize m) ∧ to_bytes (normalize m) ectx = Ok b.
Proof. apply send_receive. Qed.

Definition sample_message_built : GtpuControlMessage :=
  EchoResponse
    (eres_push_private_extension
       (eres_with_recovery_time_stamp (for_request (GtpuEchoRequest_new 0x1234))
          (GtpuRecoveryTimeStamp_new 5))
       {| extension_identifier := 0x2a; private_value := [1; 2] |}).

Lemma chain_none_control ctx mt : control_chain ctx mt chain_none None.
Proof.
  exists []. split; [|by split_and!]. exists 0. split_and!; [constructor|done..].
Qed.

Lemma chain_none_ok : chain_ok chain_none.
Proof. by split; [constructor|]. Qed.

Lemma sample_message_wf : control_wf DecodeContext_default sample_message_built.
Proof.
  split; [|done..| | | |by left|apply chain_none_control|apply chain_none_ok].
  - by intros s [= <-].
  - split.
    + repeat constructor; done.
    + repeat constructor.
    + cbn. split_and!; try done; left; set_solver.
  - apply unknowns_in_order. constructor.
  - intros _. by split.
Qed.

Lemma control_send_receive_witness :
  ∃ b, to_bytes sample_message_built EncodeContext_default = Ok b
       ∧ b = [0x32; 2; 0; 20; 0; 0; 0; 0; 0x12; 0x34; 0; 0; 14; 0; 231; 0; 4; 0; 0; 0; 5;
              255; 0; 4; 0; 0x2a; 1; 2]
       ∧ decode_datagram b DecodeContext_default = Ok sample_message_built.
Proof.
  destruct (control_send_receive DecodeContext_default EncodeContext_default
    sample_message_built sample_message_wf) as (b & E & _ & _ & D & _);
    [vm_compute; congruence..|].
  exists b. split; [exact E|]. split; [|exact D].
  vm_compute in E. injection E as <-. reflexivity.
Defined.

(**  Receiving and sending again is stable.  A control message received under
    any context can be sent again whenever the capacity allows what was received:
    the new datagram is no longer than the one received, decoding it under the
    same context gives the received message up to the sender's normalization, and
    from then on the octets do not change. *)
Theorem control_canonical_roundtrip ctx ectx input tail m :
  bytes_ok input → control_decode input ctx = Ok (tail, m) →
  len input - len tail ≤ encode_max_message_len ectx →
  ∃ b, to_bytes m ectx = Ok b ∧ len b ≤ len input - len tail
       ∧ decode_datagram b ctx = Ok (normalize m) ∧ to_bytes (normalize m) ectx = Ok b.
Proof.
  intros Hb Hd Hcap. unfold control_decode in Hd.
  destruct (decode input (frame_ctx ctx)) as [[t f]|e|] eqn:Hf; cbn [map_err] in Hd; try done.
  destruct (control_from_message f ctx) as [m'|?|] eqn:Hm; try done. simplify_eq.
  apply decode_iff in Hf as (-> & HL & HA & _); [|done].
  destruct (from_message_wf f ctx m (layout_typed f HL) Hm) as (Hwf & Hs & Hfc & _ & _ & _ & El).
  rewrite len_app, wire_size in * by done.
  pose proof (l_length_u16 _ HL). pose proof (fc_fits _ _ Hfc).
  destruct (send_receive ctx ectx m Hwf) as (b & E1 & _ & E3 & E4 & E5); [lia..|].
  exists b. split_and!; [done|lia|done..].
Qed.

(** An End Marker whose container comes after an optional unknown header. *)
Definition sample_marker : bytes :=
  [0x34; 254; 0; 12; 0; 0; 0; 7; 0; 0; 0; 5; 1; 0xab; 0xcd; 0x85; 1; 0x10; 9; 0].

Lemma control_canonical_roundtrip_witness :
  ∃ m b, control_decode sample_marker DecodeContext_default = Ok ([], m)
         ∧ to_bytes m EncodeContext_default = Ok b
         ∧ b = [0x34; 254; 0; 12; 0; 0; 0; 7; 0; 0; 0; 0x85; 1; 0x10; 9; 5; 1; 0xab; 0xcd; 0]
         ∧ decode_datagram b DecodeContext_default = Ok (normalize m).
Proof.
  destruct (control_decode sample_marker DecodeContext_default) as [[tail m]|e|] eqn:Hd;
    [|vm_compute in Hd; congruence..].
  assert (tail = []) as -> by (vm_compute in Hd; congruence).
  destruct (control_canonical_roundtrip DecodeContext_default EncodeContext_default
    sample_marker [] m ltac:(repeat constructor; done) Hd) as (b & E & _ & D & _);
    [vm_compute; congruence|].
  exists m, b. split; [reflexivity|]. split; [exact E|]. split; [|exact D].
  vm_compute in Hd. injection Hd as <-. vm_compute in E. injection E as <-. reflexivity.
Defined.
