(* ===== verification/Gre.v ===== *)
(** NWu GRE between a terminal and the interworking function,
    [crates/opc-proto-gre/src]: the keyed GRE codec ([lib.rs]) and the mapping of QoS
    flows to the caller's associations ([mapping.rs]). *)
From S2P Require Import Prelude.
From S2P Require Import Protocol.

(** ** Values, [lib.rs] *)

Definition HEADER_LEN : Z := 8.

Inductive Direction := DirectionUplink | DirectionDownlink.

(** A checked identifier: at most 63 once built. *)
Definition Qfi : Type := Z.

Inductive QfiError := QfiOutsideRange.

Definition Qfi_new (value : Z) : outcome QfiError Qfi :=
  if value <=? 63 then Ok value else Err QfiOutsideRange.

Inductive Rqi := NotIndicated | Indicated.

#[export] Instance Rqi_eq_dec : EqDecision Rqi.
Proof. solve_decision. Defined.

Inductive DirectionalQos :=
| Uplink (qfi : Qfi)
| Downlink (qfi : Qfi) (rqi : Rqi).

Definition qos_qfi (q : DirectionalQos) : Qfi :=
  match q with Uplink qfi | Downlink qfi _ => qfi end.

Definition qos_direction (q : DirectionalQos) : Direction :=
  match q with
  | Uplink _ => DirectionUplink
  | Downlink _ _ => DirectionDownlink
  end.

Definition rqi_bit (q : DirectionalQos) : Z :=
  match q with
  | Downlink _ Indicated => 0x80
  | _ => 0
  end.

(** The borrowed and the owned packet hold the same values. *)
Record NwuGrePacket := {
  qos : DirectionalQos;
  user_payload : bytes;
}.

(** ** Codec *)

Definition gre_spec : SpecRef := SpecRef_new "3gpp" "TS 24.502 V18.8.0" "9.3.3".

Definition decode_error (c : DecodeErrorCode) (offset : Z) : DecodeError :=
  with_spec_ref (DecodeError_new c offset) gre_spec.

Definition structural_decode (reason : string) (offset : Z) : DecodeError :=
  decode_error (Structural reason) offset.

Definition structural_encode (reason : string) : EncodeError :=
  encode_with_spec_ref (EncodeError_new (EncodeStructural reason)) gre_spec.

Definition gre_encoded_len (payload_len : Z) (ctx : EncodeContext) : outcome EncodeError Z :=
  if raw_preserving ctx
  then Err (structural_encode "raw-preserving NWu encoding is unsupported")
  else if payload_len =? 0 then Err (structural_encode "NWu user payload is empty")
  else
    let? len := ok_or (checked_add HEADER_LEN payload_len) length_overflow in
    if encode_max_message_len ctx <? len
    then Err (structural_encode "NWu message length exceeds limit")
    else Ok len.

Definition NwuGrePacket_new (qos : DirectionalQos) (payload : bytes) (ctx : EncodeContext)
    : outcome EncodeError NwuGrePacket :=
  let? _ := gre_encoded_len (len payload) ctx in
  Ok {| qos := qos; user_payload := payload |}.

Definition gre_decode (input : bytes) (direction : Direction) (ctx : DecodeContext)
    : outcome DecodeError NwuGrePacket :=
  if max_message_len ctx <? len input then Err (decode_error MessageLengthExceeded 0)
  else if len input <? HEADER_LEN then Err (decode_error Truncated 0)
  else
  let? f0 := idx input 0 in
  let? f1 := idx input 1 in
  let flags := u16_from_be_bytes f0 f1 in
  if negb (Z.land flags 0xfc07 =? 0x2000)
  then Err (structural_decode "unsupported NWu GRE flags or version" 0)
  else if len input =? HEADER_LEN
  then Err (structural_decode "NWu user payload is empty" HEADER_LEN)
  else
  let? k0 := idx input 4 in
  let qfi := Z.land k0 0x3f in
  let? k3 := idx input 7 in
  let rqi := if Z.land k3 0x80 =? 0 then NotIndicated else Indicated in
  let? qos :=
    match direction with
    | DirectionUplink =>
        if bool_decide (rqi = Indicated)
        then Err (structural_decode "RQI is forbidden on uplink" 7)
        else Ok (Uplink qfi)
    | DirectionDownlink => Ok (Downlink qfi rqi)
    end in
  let? payload := slice input HEADER_LEN (len input) in
  Ok {| qos := qos; user_payload := payload |}.

(** [OwnedNwuGrePacket::decode]: the owned payload is cut at the same place. *)
Definition gre_decode_owned (input : bytes) (direction : Direction) (ctx : DecodeContext)
    : outcome DecodeError NwuGrePacket :=
  let? borrowed := gre_decode input direction ctx in
  let? payload := slice input HEADER_LEN (len input) in
  Ok {| qos := qos borrowed; user_payload := payload |}.

Definition gre_wire_len (p : NwuGrePacket) (ctx : EncodeContext) : outcome EncodeError Z :=
  gre_encoded_len (len (user_payload p)) ctx.

(** The destination after the call, and the result. *)
Definition gre_encode (p : NwuGrePacket) (dst : bytes) (ctx : EncodeContext)
    : bytes * outcome EncodeError () :=
  match (let? l := gre_wire_len p ctx in
         let? _ := ok_or (checked_add (len dst) l) length_overflow in
         Ok ()) with
  | Ok _ =>
      (dst ++ [0x20; 0; 0; 0; qos_qfi (qos p); 0; 0; rqi_bit (qos p)] ++ user_payload p, Ok ())
  | Err e => (dst, Err e)
  | Crash => (dst, Crash)
  end.

(** ** Flow mapping, [mapping.rs] *)

Definition QfiSet : Type := Z.

Definition qfi_set_empty : QfiSet := 0.

Definition qfi_set_with (s : QfiSet) (qfi : Qfi) : QfiSet := Z.lor s (Z.shiftl 1 qfi).

Definition qfi_set_contains (s : QfiSet) (qfi : Qfi) : bool :=
  negb (Z.land s (Z.shiftl 1 qfi) =? 0).

Inductive DefaultFallbackIntent := Ineligible | Eligible.

#[export] Instance DefaultFallbackIntent_eq_dec : EqDecision DefaultFallbackIntent.
Proof. solve_decision. Defined.

Record FlowAssociation (T : Type) := {
  association : T;
  qfis : QfiSet;
  fallback : DefaultFallbackIntent;
}.
Arguments association {T} _.
Arguments qfis {T} _.
Arguments fallback {T} _.

Inductive MappingError := AssociationCountExceeded.

(** The borrowed entries. *)
Definition FlowMapping (T : Type) : Type := list (FlowAssociation T).

Definition FlowMapping_new {T} (entries : list (FlowAssociation T)) (max_associations : Z)
    : outcome MappingError (FlowMapping T) :=
  if max_associations <? len entries then Err AssociationCountExceeded else Ok entries.

Inductive SelectionKind := Exact | DefaultFallback | Unmapped.

Record FlowSelection (T : Type) := {
  selection_entries : list (FlowAssociation T);
  selection_qfi : Qfi;
  kind : SelectionKind;
}.
Arguments selection_entries {T} _.
Arguments selection_qfi {T} _.
Arguments kind {T} _.

Definition select {T} (m : FlowMapping T) (qfi : Qfi) : FlowSelection T :=
  let kind :=
    if existsb (λ entry, qfi_set_contains (qfis entry) qfi) m then Exact
    else if existsb (λ entry, bool_decide (fallback entry = Eligible)) m then DefaultFallback
    else Unmapped in
  {| selection_entries := m; selection_qfi := qfi; kind := kind |}.

Record AssociationCandidates (T : Type) := {
  remaining : list (FlowAssociation T);
  candidates_qfi : Qfi;
  candidates_kind : SelectionKind;
}.
Arguments remaining {T} _.
Arguments candidates_qfi {T} _.
Arguments candidates_kind {T} _.

Definition candidates {T} (s : FlowSelection T) : AssociationCandidates T :=
  {| remaining := selection_entries s; candidates_qfi := selection_qfi s;
     candidates_kind := kind s |}.

Definition matching {T} (kind : SelectionKind) (qfi : Qfi) (entry : FlowAssociation T) : bool :=
  match kind with
  | Exact => qfi_set_contains (qfis entry) qfi
  | DefaultFallback => bool_decide (fallback entry = Eligible)
  | Unmapped => false
  end.

(** [slice::Iter::find]: the first match and what is left after it. *)
Fixpoint find_entry {T} (f : FlowAssociation T → bool) (l : list (FlowAssociation T))
    : option (FlowAssociation T) * list (FlowAssociation T) :=
  match l with
  | [] => (None, [])
  | entry :: l => if f entry then (Some entry, l) else find_entry f l
  end.

Definition candidates_next {T} (c : AssociationCandidates T)
    : option (FlowAssociation T) * AssociationCandidates T :=
  let '(found, rest) :=
    find_entry (matching (candidates_kind c) (candidates_qfi c)) (remaining c) in
  (found, {| remaining := rest; candidates_qfi := candidates_qfi c;
             candidates_kind := candidates_kind c |}).

Definition size_hint {T} (c : AssociationCandidates T) : Z * option Z :=
  (0, Some (len (remaining c))).

(** Draining the iterator; each item uses up at least one entry, so one more step
    than there are entries is enough. *)
Fixpoint drain {T} (fuel : nat) (c : AssociationCandidates T) : list (FlowAssociation T) :=
  match fuel with
  | O => []
  | S fuel =>
      match candidates_next c with
      | (None, _) => []
      | (Some entry, c) => entry :: drain fuel c
      end
  end.

Definition collect_candidates {T} (c : AssociationCandidates T) : list (FlowAssociation T) :=
  drain (S (length (remaining c))) c.

(** ** The codec *)

(** What the key octets say in a direction. *)
Definition key_reads (direction : Direction) (k0 k3 : Z) (q : DirectionalQos) : Prop :=
  match direction with
  | DirectionUplink => Z.land k3 0x80 = 0 ∧ q = Uplink (Z.land k0 0x3f)
  | DirectionDownlink =>
      q = Downlink (Z.land k0 0x3f) (if Z.land k3 0x80 =? 0 then NotIndicated else Indicated)
  end.

Lemma gre_decode_header direction ctx f0 f1 t0 t1 k0 k1 k2 k3 pay :
  let input := [f0; f1; t0; t1; k0; k1; k2; k3] ++ pay in
  returns (gre_decode input direction ctx)
  ∧ ∀ p, gre_decode input direction ctx = Ok p
      ↔ len input ≤ max_message_len ctx ∧ Z.land (u16_from_be_bytes f0 f1) 0xfc07 = 0x2000
        ∧ pay ≠ [] ∧ key_reads direction k0 k3 (qos p) ∧ user_payload p = pay.
Proof.
  intros input. unfold gre_decode. pose proof (len_nonneg pay).
  assert (Hl : len input = 8 + len pay) by (unfold input; len_lia).
  assert (Hs : slice (E := DecodeError) input HEADER_LEN (len input) = Ok pay).
  { unfold input. rewrite <- (app_nil_r pay) at 1. apply slice_at; [done|].
    unfold HEADER_LEN. len_lia. }
  rewrite Hs. change (idx input 0) with (Ok (E := DecodeError) f0).
  change (idx input 1) with (Ok (E := DecodeError) f1).
  change (idx input 4) with (Ok (E := DecodeError) k0).
  change (idx input 7) with (Ok (E := DecodeError) k3).
  rewrite Hl. destruct (max_message_len ctx <? 8 + len pay) eqn:Em; to_prop.
  { split; [done|]. intros p. split; [done|]. intros (? & _). lia. }
  rewrite (proj2 (Z.ltb_ge _ HEADER_LEN)) by (unfold HEADER_LEN; lia).
  destruct (_ =? 0x2000) eqn:Ef; cbn [negb]; to_prop.
  2: { split; [done|]. intros p. split; [done|]. by intros (_ & ? & _). }
  destruct (8 + len pay =? HEADER_LEN) eqn:Ee; to_prop.
  { split; [done|]. intros p. split; [done|]. intros (_ & _ & Hne & _). destruct Hne.
    apply len_0_inv. unfold HEADER_LEN in Ee. lia. }
  assert (Hne : pay ≠ []). { intros ->. by apply Ee. }
  destruct direction; cbn [key_reads].
  - destruct (Z.land k3 0x80 =? 0) eqn:Er; to_prop.
    + split; [done|]. intros [q u]; cbn. naive_solver.
    + split; [done|]. intros p. split; [done|]. by intros (_ & _ & _ & [? _] & _).
  - split; [done|]. intros [q u]; cbn. naive_solver.
Qed.

Lemma split_header (input : bytes) :
  8 ≤ len input →
  ∃ f0 f1 t0 t1 k0 k1 k2 k3 pay, input = [f0; f1; t0; t1; k0; k1; k2; k3] ++ pay.
Proof.
  intros H. do 8 (destruct input as [|? input]; [exfalso; len_lia|]). by repeat eexists.
Qed.

Lemma gre_decode_short direction ctx input :
  len input < 8 → is_err (gre_decode input direction ctx) = true.
Proof.
  intros H. unfold gre_decode. destruct (_ <? len input); [done|].
  by rewrite (proj2 (Z.ltb_lt _ HEADER_LEN)).
Qed.

(** The packet on the wire, as the sender writes it. *)
Definition gre_wire (p : NwuGrePacket) : bytes :=
  [0x20; 0; 0; 0; qos_qfi (qos p); 0; 0; rqi_bit (qos p)] ++ user_payload p.

Lemma gre_encode_eq p dst ctx :
  raw_preserving ctx = false → user_payload p ≠ [] →
  8 + len (user_payload p) ≤ encode_max_message_len ctx →
  len dst + 8 + len (user_payload p) ≤ USIZE_MAX →
  gre_encode p dst ctx = (dst ++ gre_wire p, Ok ()).
Proof.
  intros Hr Hne Hm Hl. unfold gre_encode, gre_wire_len, gre_encoded_len. rewrite Hr.
  pose proof (len_nonneg dst). pose proof (len_nonneg (user_payload p)).
  rewrite (proj2 (Z.eqb_neq _ 0)) by (intros E; by apply Hne, len_0_inv).
  rewrite checked_add_ok by (unfold HEADER_LEN; lia). cbn [ok_or].
  rewrite (proj2 (Z.ltb_ge _ _)) by (unfold HEADER_LEN; lia).
  by rewrite checked_add_ok by (unfold HEADER_LEN; lia).
Qed.

Lemma qfi_six_bits : ∀ q, 0 ≤ q < 64 → Z.land q 0x3f = q.
Proof. by_enum 64%nat. Qed.

Lemma low_six_bits : ∀ b, 0 ≤ b < 256 → 0 ≤ Z.land b 0x3f ∧ Z.land b 0x3f < 64.
Proof. by_enum 256%nat. Qed.

Definition qos_ok (q : DirectionalQos) : Prop := 0 ≤ qos_qfi q < 64.

Lemma gre_wire_read p ctx :
  qos_ok (qos p) → user_payload p ≠ [] → 8 + len (user_payload p) ≤ max_message_len ctx →
  gre_decode (gre_wire p) (qos_direction (qos p)) ctx = Ok p.
Proof.
  intros Hq Hne Hm. apply gre_decode_header. split; [len_lia|]. split; [done|]. split; [done|].
  split; [|done]. unfold qos_ok in Hq.
  destruct (qos p) as [q|q []]; cbn in *; rewrite qfi_six_bits by done; done.
Qed.

Lemma key_reads_ok direction k0 k3 q :
  u8 k0 → key_reads direction k0 k3 q → qos_ok q ∧ qos_direction q = direction.
Proof.
  intros H8 H. pose proof (low_six_bits k0 H8). unfold qos_ok.
  destruct direction; cbn in H; [destruct H as [_ ->]|subst q]; cbn; lia || (split; [lia|done]).
Qed.

(** ** Flow mapping *)

Lemma contains_testbit s q : 0 ≤ q → qfi_set_contains s q = Z.testbit s q.
Proof.
  intros Hq. unfold qfi_set_contains.
  rewrite Z.shiftl_mul_pow2, Z.mul_1_l by done.
  destruct (Z.testbit s q) eqn:E.
  - apply negb_true_iff, Z.eqb_neq. intros H0.
    assert (Z.testbit (Z.land s (2 ^ q)) q = true) as H.
    { rewrite Z.land_spec, E, Z.pow2_bits_true by done. done. }
    by rewrite H0, Z.bits_0 in H.
  - apply negb_false_iff, Z.eqb_eq. apply Z.bits_inj'. intros n Hn.
    rewrite Z.land_spec, Z.bits_0, Z.pow2_bits_eqb by done.
    destruct (q =? n) eqn:Eq; to_prop; [subst; by rewrite E|apply andb_false_r].
Qed.

Lemma contains_with s q q' :
  0 ≤ q → 0 ≤ q' →
  qfi_set_contains (qfi_set_with s q) q' = (q =? q') || qfi_set_contains s q'.
Proof.
  intros Hq Hq'. rewrite !contains_testbit by done. unfold qfi_set_with.
  rewrite Z.lor_spec, Z.shiftl_mul_pow2, Z.mul_1_l, Z.pow2_bits_eqb by done. apply orb_comm.
Qed.

Lemma drain_filter {T} (c : AssociationCandidates T) fuel :
  (length (remaining c) < fuel)%nat →
  drain fuel c
  = List.filter (matching (candidates_kind c) (candidates_qfi c)) (remaining c).
Proof.
  revert c. induction fuel as [|fuel IH]; [lia|]. intros [l q k] Hf. cbn in *.
  unfold candidates_next; cbn. revert Hf. induction l as [|e l IHl]; intros Hf; [done|].
  cbn in *. destruct (matching k q e); [|apply IHl; lia].
  f_equal. apply (IH {| remaining := l; candidates_qfi := q; candidates_kind := k |}).
  cbn. lia.
Qed.

Lemma existsb_filter {A} (f : A → bool) l : existsb f l = false ↔ List.filter f l = [].
Proof.
  induction l as [|x l IH]; [done|]. cbn. destruct (f x); [done|]. done.
Qed.

(** A declaration of the caller: an identifier, its flows, its fallback intent. *)
Definition declare {T} (d : T * list Z * DefaultFallbackIntent) : FlowAssociation T :=
  {| association := d.1.1;
     qfis := foldl qfi_set_with qfi_set_empty d.1.2;
     fallback := d.2 |}.

Lemma contains_declared qs : ∀ s q,
  Forall (λ x, 0 ≤ x < 64) qs → 0 ≤ q →
  qfi_set_contains (foldl qfi_set_with s qs) q
  = bool_decide (q ∈ qs) || qfi_set_contains s q.
Proof.
  induction qs as [|x qs IH]; intros s q Hqs Hq; cbn [foldl].
  { by rewrite bool_decide_false by set_solver. }
  apply Forall_cons in Hqs as [Hx Hqs]. rewrite IH, contains_with by (done || lia).
  rewrite orb_assoc. f_equal. destruct (x =? q) eqn:E; to_prop.
  - subst. rewrite orb_true_r. symmetry. apply bool_decide_true. left.
  - rewrite orb_false_r. apply bool_decide_ext. set_solver.
Qed.

Definition carries {T} (q : Z) (d : T * list Z * DefaultFallbackIntent) : bool :=
  bool_decide (q ∈ d.1.2).

Definition falls_back {T} (d : T * list Z * DefaultFallbackIntent) : bool :=
  bool_decide (d.2 = Eligible).

Lemma matching_declared {T} (ds : list (T * list Z * DefaultFallbackIntent)) q :
  Forall (λ d, Forall (λ x, 0 ≤ x < 64) d.1.2) ds → 0 ≤ q →
  existsb (λ e, qfi_set_contains (qfis e) q) (declare <$> ds) = existsb (carries q) ds
  ∧ List.filter (matching Exact q) (declare <$> ds) = declare <$> List.filter (carries q) ds
  ∧ existsb (λ e, bool_decide (fallback e = Eligible)) (declare <$> ds) = existsb falls_back ds
  ∧ List.filter (matching DefaultFallback q) (declare <$> ds)
    = declare <$> List.filter falls_back ds.
Proof.
  intros Hds Hq. induction Hds as [|d ds Hd Hds (IH1 & IH2 & IH3 & IH4)]; [done|].
  cbn -[qfi_set_contains]. rewrite contains_declared by done.
  rewrite orb_false_r. unfold carries, falls_back in *.
  cbn in IH2, IH4. rewrite IH1, IH3, IH2, IH4.
  split; [done|]. split; [by destruct (bool_decide (q ∈ d.1.2))|]. split; [done|].
  by destruct (bool_decide (d.2 = Eligible)).
Qed.

Lemma unmapped_none {T} q (l : list (FlowAssociation T)) : List.filter (matching Unmapped q) l = [].
Proof. by induction l. Qed.

(** ** Properties *)

(** C40. The GRE receiver is exact: it always answers, and it accepts precisely the
    datagrams within the limit that have the eight-octet header with the key bit as
    the only one of the flags it looks at and version zero, and a non-empty payload,
    where the direction allows the reflective QoS bit; the packet it returns has the
    six-bit flow identifier and that bit of the key, and everything after the
    header. *)
Theorem gre_decode_exact direction ctx input :
  returns (gre_decode input direction ctx)
  ∧ ∀ p, gre_decode input direction ctx = Ok p
      ↔ len input ≤ max_message_len ctx
        ∧ ∃ f0 f1 t0 t1 k0 k1 k2 k3,
            input = [f0; f1; t0; t1; k0; k1; k2; k3] ++ user_payload p
            ∧ Z.land (u16_from_be_bytes f0 f1) 0xfc07 = 0x2000
            ∧ user_payload p ≠ [] ∧ key_reads direction k0 k3 (qos p).
Proof.
  destruct (Z.ltb_spec (len input) 8) as [Hs|Hs].
  - pose proof (gre_decode_short direction ctx input Hs) as He.
    split; [by destruct (gre_decode _ _ _)|]. intros p. split; [by intros E; rewrite E in He|].
    intros (_ & f0 & f1 & t0 & t1 & k0 & k1 & k2 & k3 & -> & _). exfalso. len_lia.
  - destruct (split_header input Hs) as (f0 & f1 & t0 & t1 & k0 & k1 & k2 & k3 & pay & ->).
    destruct (gre_decode_header direction ctx f0 f1 t0 t1 k0 k1 k2 k3 pay) as [Hr Hi].
    split; [done|]. intros p. rewrite Hi. split.
    + intros (H1 & H2 & H3 & H4 & <-). split; [done|]. by repeat eexists.
    + intros (H1 & f0' & f1' & t0' & t1' & k0' & k1' & k2' & k3' & E & H2 & H3 & H4).
      simplify_eq/=. done.
Qed.

(** GRE round trip: a packet received under any context is sent again in a
    datagram of the same length with the same payload, whose header holds the flow
    identifier and the reflective bit and is zero elsewhere but for the key flag,
    and receiving that datagram gives the packet back. *)
Theorem gre_roundtrip direction ctx ectx input p dst :
  bytes_ok input → gre_decode input direction ctx = Ok p →
  raw_preserving ectx = false → len input ≤ encode_max_message_len ectx →
  len dst + len input ≤ USIZE_MAX →
  gre_encode p dst ectx
  = (dst ++ [0x20; 0; 0; 0; qos_qfi (qos p); 0; 0; rqi_bit (qos p)] ++ user_payload p, Ok ())
  ∧ len (gre_wire p) = len input
  ∧ gre_decode (gre_wire p) direction ctx = Ok p.
Proof.
  intros Hb Hd Hr Hm Hl.
  destruct (Z.ltb_spec (len input) 8) as [Hs|Hs].
  { pose proof (gre_decode_short direction ctx input Hs) as He. by rewrite Hd in He. }
  destruct (split_header input Hs) as (f0 & f1 & t0 & t1 & k0 & k1 & k2 & k3 & pay & ->).
  apply gre_decode_header in Hd as (Hmax & _ & Hne & Hk & <-).
  apply bytes_ok_app in Hb as [Hb _]. rewrite !bytes_ok_cons in Hb.
  destruct Hb as (_ & _ & _ & _ & Hk0 & _).
  destruct (key_reads_ok direction k0 k3 (qos p) Hk0 Hk) as [Hq <-].
  split; [|split].
  - apply gre_encode_eq; [done..|len_lia|len_lia].
  - unfold gre_wire. len_lia.
  - apply gre_wire_read; [done..|len_lia].
Qed.

Definition gre_sample : bytes := [0x23; 0xf8; 0x88; 0x64; 0xc9; 1; 2; 0xff; 0x45].

Lemma gre_roundtrip_witness :
  ∃ p, gre_decode gre_sample DirectionDownlink DecodeContext_default = Ok p
       ∧ gre_encode p [] EncodeContext_default
         = ([0x20; 0; 0; 0; 9; 0; 0; 0x80; 0x45], Ok ()).
Proof.
  eexists. split; [vm_compute; reflexivity|].
  apply (gre_roundtrip DirectionDownlink DecodeContext_default EncodeContext_default gre_sample
           _ [] ltac:(repeat constructor; done) ltac:(vm_compute; reflexivity) eq_refl);
    vm_compute; congruence.
Defined.

(** Flow selection refines the caller's declarations: for every flow
    identifier the candidates are, in the order declared, all associations that
    list it; only when there is none, all that are declared as fallback; and
    otherwise none.  The kind tells which of the three it is. *)
Theorem flow_selection {T} (ds : list (T * list Z * DefaultFallbackIntent)) q :
  Forall (λ d, Forall (λ x, 0 ≤ x < 64) d.1.2) ds → 0 ≤ q →
  let s := select (declare <$> ds) q in
  (kind s, collect_candidates (candidates s))
  = if existsb (carries q) ds then (Exact, declare <$> List.filter (carries q) ds)
    else if existsb falls_back ds then (DefaultFallback, declare <$> List.filter falls_back ds)
    else (Unmapped, []).
Proof.
  intros Hds Hq s. destruct (matching_declared ds q Hds Hq) as (E1 & E2 & E3 & E4).
  unfold collect_candidates. rewrite drain_filter by (cbn; lia).
  unfold s, select, candidates; cbn [kind candidates_kind candidates_qfi remaining
    selection_entries selection_qfi]. rewrite E1, E3.
  destruct (existsb (carries q) ds); [by rewrite E2|].
  destruct (existsb falls_back ds); [by rewrite E4|]. by rewrite unmapped_none.
Qed.

Lemma flow_selection_witness :
  let ds := [(1, [5; 9], Ineligible); (2, [], Eligible); (3, [9], Eligible)] in
  let s := select (declare <$> ds) 9 in
  (kind s, collect_candidates (candidates s))
  = (Exact, [declare (1, [5; 9], Ineligible); declare (3, [9], Eligible)]).
Proof.
  intros ds s. unfold s. rewrite (flow_selection ds 9).
  - vm_compute. reflexivity.
  - repeat constructor; done.
  - done.
Defined.
