(* ===== verification/TftModel.v ===== *)
(** Model of the Traffic Flow Template values, [crates/opc-proto-tft/src]: the
    errors ([error.rs]), the value types with their checked constructors and
    the validation of packet filters and of whole templates ([model.rs]).

    A private tuple struct over an integer is that integer; the bound its
    constructor checks is part of the [_typed] predicates below.  An [Ipv4Addr],
    an [Ipv6Addr] and a byte array are the list of their octets. *)
From S2P Require Import Prelude.

(** ** Errors, [error.rs] *)

Inductive TftErrorKind :=
| InvalidValueLength (actual minimum maximum : Z)
| TftTruncated (field : string)
| TftLengthOverflow
| ElementLimitExceeded (limit : Z)
| ReservedOperation (value : Z)
| InvalidOperationHeader (operation : Z)
| InvalidPacketFilterList (operation : Z)
| InvalidPacketFilterCount (operation count : Z)
| UnexpectedTrailingData
| EmptyParameterList
| NonZeroSpareBits (field : string)
| InvalidPacketFilterIdentifier (value : Z)
| DuplicatePacketFilterIdentifier (identifier : Z)
| DuplicateEvaluationPrecedence (precedence : Z)
| EmptyPacketFilterContents
| PacketFilterContentsTooLong (actual maximum : Z)
| ReservedComponentType (component_type : Z)
| InvalidComponentLength (component_type expected actual : Z)
| DuplicateComponent (component_type : Z)
| ConflictingComponents (first second : Z)
| InvalidIpv6PrefixLength (value : Z)
| InvalidPortRange
| InvalidFlowLabel (value : Z)
| InvalidVlanIdentifier (value : Z)
| InvalidVlanPriority (value : Z)
| InvalidParameterLength (identifier actual minimum maximum : Z)
| StandardParameterAsUnknown (identifier : Z)
| DuplicateParameterPacketFilterIdentifier (identifier : Z)
| AuthorizationTokenWithoutFlowIdentifier (parameter_index : Z)
| EncodedLengthMismatch.

Record TftError := {
  tft_kind : TftErrorKind;
  tft_offset : option Z;
}.

Definition TftError_new (kind : TftErrorKind) : TftError :=
  {| tft_kind := kind; tft_offset := None |}.

(** [TftError::at]: the first offset recorded stays. *)
Definition error_at (off : Z) (e : TftError) : TftError :=
  match tft_offset e with
  | None => {| tft_kind := tft_kind e; tft_offset := Some off |}
  | Some _ => e
  end.

Abbreviation tft_fail kind := (Err (TftError_new kind)).

(** ** Operations and directions *)

Definition TFT_MIN_VALUE_LEN : Z := 1.
Definition TFT_MAX_VALUE_LEN : Z := 255.
Definition TFT_MAX_PACKET_FILTERS : Z := 15.

Inductive TftOperation :=
| Ignore
| CreateNew
| DeleteExisting
| AddPacketFilters
| ReplacePacketFilters
| DeletePacketFilters
| NoOperation.

#[export] Instance TftOperation_eq_dec : EqDecision TftOperation.
Proof. solve_decision. Defined.

Definition operation_code (o : TftOperation) : Z :=
  match o with
  | Ignore => 0
  | CreateNew => 1
  | DeleteExisting => 2
  | AddPacketFilters => 3
  | ReplacePacketFilters => 4
  | DeletePacketFilters => 5
  | NoOperation => 6
  end.

Definition operation_from_code (code : Z) : outcome TftError TftOperation :=
  match code with
  | 0 => Ok Ignore
  | 1 => Ok CreateNew
  | 2 => Ok DeleteExisting
  | 3 => Ok AddPacketFilters
  | 4 => Ok ReplacePacketFilters
  | 5 => Ok DeletePacketFilters
  | 6 => Ok NoOperation
  | value => tft_fail (ReservedOperation value)
  end.

Inductive PacketFilterDirection :=
| PreRelease7
| DownlinkOnly
| UplinkOnly
| Bidirectional.

Definition direction_code (d : PacketFilterDirection) : Z :=
  match d with
  | PreRelease7 => 0
  | DownlinkOnly => 1
  | UplinkOnly => 2
  | Bidirectional => 3
  end.

Definition direction_from_code (code : Z) : PacketFilterDirection :=
  match Z.land code 0x03 with
  | 0 => PreRelease7
  | 1 => DownlinkOnly
  | 2 => UplinkOnly
  | _ => Bidirectional
  end.

(** ** Checked scalar values *)

Definition PacketFilterIdentifier : Type := Z.

Definition PacketFilterIdentifier_new (value : Z) : outcome TftError PacketFilterIdentifier :=
  if 0x0f <? value then tft_fail (InvalidPacketFilterIdentifier value) else Ok value.

Record PortRange := { low : Z; high : Z }.

Definition PortRange_new (low high : Z) : outcome TftError PortRange :=
  if high <? low then tft_fail InvalidPortRange else Ok {| low := low; high := high |}.

Record Ipv6AddressPrefix := { prefix_address : bytes; prefix_length : Z }.

Definition Ipv6AddressPrefix_new (address : bytes) (prefix_length : Z)
    : outcome TftError Ipv6AddressPrefix :=
  if 128 <? prefix_length then tft_fail (InvalidIpv6PrefixLength prefix_length)
  else Ok {| prefix_address := address; prefix_length := prefix_length |}.

Definition Ipv6FlowLabel : Type := Z.

Definition Ipv6FlowLabel_new (value : Z) : outcome TftError Ipv6FlowLabel :=
  if 0x000fffff <? value then tft_fail (InvalidFlowLabel value) else Ok value.

Definition VlanIdentifier : Type := Z.

Definition VlanIdentifier_new (value : Z) : outcome TftError VlanIdentifier :=
  if 0x0fff <? value then tft_fail (InvalidVlanIdentifier value) else Ok value.

Record VlanPriority := { pcp : Z; drop_eligible : bool }.

Definition VlanPriority_new (pcp : Z) (drop_eligible : bool) : outcome TftError VlanPriority :=
  if 7 <? pcp then tft_fail (InvalidVlanPriority pcp)
  else Ok {| pcp := pcp; drop_eligible := drop_eligible |}.

(** ** Packet filter components

    The kinds carry a [K] where the source tells them from the components by
    the name of the enum. *)

Inductive PacketFilterComponentKind :=
| KIpv4RemoteAddress
| KIpv4LocalAddress
| KIpv6RemoteAddress
| KIpv6RemoteAddressPrefix
| KIpv6LocalAddressPrefix
| KProtocolIdentifierNextHeader
| KSingleLocalPort
| KLocalPortRange
| KSingleRemotePort
| KRemotePortRange
| KSecurityParameterIndex
| KTypeOfServiceTrafficClass
| KFlowLabel
| KDestinationMacAddress
| KSourceMacAddress
| KCustomerVlanId
| KServiceVlanId
| KCustomerVlanPriority
| KServiceVlanPriority
| KEtherType.

#[export] Instance PacketFilterComponentKind_eq_dec : EqDecision PacketFilterComponentKind.
Proof. solve_decision. Defined.

Definition type_code (k : PacketFilterComponentKind) : Z :=
  match k with
  | KIpv4RemoteAddress => 0x10
  | KIpv4LocalAddress => 0x11
  | KIpv6RemoteAddress => 0x20
  | KIpv6RemoteAddressPrefix => 0x21
  | KIpv6LocalAddressPrefix => 0x23
  | KProtocolIdentifierNextHeader => 0x30
  | KSingleLocalPort => 0x40
  | KLocalPortRange => 0x41
  | KSingleRemotePort => 0x50
  | KRemotePortRange => 0x51
  | KSecurityParameterIndex => 0x60
  | KTypeOfServiceTrafficClass => 0x70
  | KFlowLabel => 0x80
  | KDestinationMacAddress => 0x81
  | KSourceMacAddress => 0x82
  | KCustomerVlanId => 0x83
  | KServiceVlanId => 0x84
  | KCustomerVlanPriority => 0x85
  | KServiceVlanPriority => 0x86
  | KEtherType => 0x87
  end.

Definition from_type_code (code : Z) : outcome TftError PacketFilterComponentKind :=
  match code with
  | 0x10 => Ok KIpv4RemoteAddress
  | 0x11 => Ok KIpv4LocalAddress
  | 0x20 => Ok KIpv6RemoteAddress
  | 0x21 => Ok KIpv6RemoteAddressPrefix
  | 0x23 => Ok KIpv6LocalAddressPrefix
  | 0x30 => Ok KProtocolIdentifierNextHeader
  | 0x40 => Ok KSingleLocalPort
  | 0x41 => Ok KLocalPortRange
  | 0x50 => Ok KSingleRemotePort
  | 0x51 => Ok KRemotePortRange
  | 0x60 => Ok KSecurityParameterIndex
  | 0x70 => Ok KTypeOfServiceTrafficClass
  | 0x80 => Ok KFlowLabel
  | 0x81 => Ok KDestinationMacAddress
  | 0x82 => Ok KSourceMacAddress
  | 0x83 => Ok KCustomerVlanId
  | 0x84 => Ok KServiceVlanId
  | 0x85 => Ok KCustomerVlanPriority
  | 0x86 => Ok KServiceVlanPriority
  | 0x87 => Ok KEtherType
  | component_type => tft_fail (ReservedComponentType component_type)
  end.

Inductive PacketFilterComponent :=
| Ipv4RemoteAddress (address mask : bytes)
| Ipv4LocalAddress (address mask : bytes)
| Ipv6RemoteAddress (address mask : bytes)
| Ipv6RemoteAddressPrefix (value : Ipv6AddressPrefix)
| Ipv6LocalAddressPrefix (value : Ipv6AddressPrefix)
| ProtocolIdentifierNextHeader (value : Z)
| SingleLocalPort (value : Z)
| LocalPortRange (value : PortRange)
| SingleRemotePort (value : Z)
| RemotePortRange (value : PortRange)
| SecurityParameterIndex (value : Z)
| TypeOfServiceTrafficClass (value mask : Z)
| FlowLabel (value : Ipv6FlowLabel)
| DestinationMacAddress (value : bytes)
| SourceMacAddress (value : bytes)
| CustomerVlanId (value : VlanIdentifier)
| ServiceVlanId (value : VlanIdentifier)
| CustomerVlanPriority (value : VlanPriority)
| ServiceVlanPriority (value : VlanPriority)
| EtherType (value : Z).

Definition component_kind (c : PacketFilterComponent) : PacketFilterComponentKind :=
  match c with
  | Ipv4RemoteAddress _ _ => KIpv4RemoteAddress
  | Ipv4LocalAddress _ _ => KIpv4LocalAddress
  | Ipv6RemoteAddress _ _ => KIpv6RemoteAddress
  | Ipv6RemoteAddressPrefix _ => KIpv6RemoteAddressPrefix
  | Ipv6LocalAddressPrefix _ => KIpv6LocalAddressPrefix
  | ProtocolIdentifierNextHeader _ => KProtocolIdentifierNextHeader
  | SingleLocalPort _ => KSingleLocalPort
  | LocalPortRange _ => KLocalPortRange
  | SingleRemotePort _ => KSingleRemotePort
  | RemotePortRange _ => KRemotePortRange
  | SecurityParameterIndex _ => KSecurityParameterIndex
  | TypeOfServiceTrafficClass _ _ => KTypeOfServiceTrafficClass
  | FlowLabel _ => KFlowLabel
  | DestinationMacAddress _ => KDestinationMacAddress
  | SourceMacAddress _ => KSourceMacAddress
  | CustomerVlanId _ => KCustomerVlanId
  | ServiceVlanId _ => KServiceVlanId
  | CustomerVlanPriority _ => KCustomerVlanPriority
  | ServiceVlanPriority _ => KServiceVlanPriority
  | EtherType _ => KEtherType
  end.

Definition encoded_len (c : PacketFilterComponent) : Z :=
  match c with
  | Ipv4RemoteAddress _ _ | Ipv4LocalAddress _ _ => 9
  | Ipv6RemoteAddress _ _ => 33
  | Ipv6RemoteAddressPrefix _ | Ipv6LocalAddressPrefix _ => 18
  | ProtocolIdentifierNextHeader _ => 2
  | SingleLocalPort _ | SingleRemotePort _ => 3
  | LocalPortRange _ | RemotePortRange _ => 5
  | SecurityParameterIndex _ => 5
  | TypeOfServiceTrafficClass _ _ => 3
  | FlowLabel _ => 4
  | DestinationMacAddress _ | SourceMacAddress _ => 7
  | CustomerVlanId _ | ServiceVlanId _ | EtherType _ => 3
  | CustomerVlanPriority _ | ServiceVlanPriority _ => 2
  end.

(** ** Packet filters *)

Inductive IpFamily := V4 | V6.

#[export] Instance IpFamily_eq_dec : EqDecision IpFamily.
Proof. solve_decision. Defined.

Record PacketFilter := {
  pf_identifier : PacketFilterIdentifier;
  pf_direction : PacketFilterDirection;
  evaluation_precedence : Z;
  components : list PacketFilterComponent;
}.

(** The [try_fold] of [PacketFilter::contents_len]. *)
Fixpoint contents_len_from (total : Z) (cs : list PacketFilterComponent) : outcome TftError Z :=
  match cs with
  | [] => Ok total
  | c :: cs =>
      let? total := ok_or (checked_add total (encoded_len c)) (TftError_new TftLengthOverflow) in
      contents_len_from total cs
  end.

Definition filter_contents_len (f : PacketFilter) : outcome TftError Z :=
  contents_len_from 0 (components f).

(** What [PacketFilter::validate] has gathered when its loop reaches a component. *)
Record FilterScan := {
  seen : list bool;
  remote_address : option Z;
  local_address : option Z;
  local_port : option Z;
  remote_port : option Z;
  ip_family : option (IpFamily * Z);
  first_ip_component : option Z;
  protocol : option Z;
  any_port : option Z;
  spi : option Z;
  flow_label : option Z;
  ether_type : option (Z * Z);
}.

Definition scan_start : FilterScan :=
  {| seen := replicate 256 false;
     remote_address := None;
     local_address := None;
     local_port := None;
     remote_port := None;
     ip_family := None;
     first_ip_component := None;
     protocol := None;
     any_port := None;
     spi := None;
     flow_label := None;
     ether_type := None |}.

Definition conflicting {A} (first second : Z) : outcome TftError A :=
  tft_fail (ConflictingComponents first second).

(** [set_exclusive], the new contents of the slot. *)
Definition set_exclusive (slot : option Z) (code : Z) : outcome TftError (option Z) :=
  match slot with
  | Some existing => conflicting existing code
  | None => Ok (Some code)
  end.

(** [Option::get_or_insert]. *)
Definition get_or_insert (slot : option Z) (code : Z) : option Z :=
  match slot with Some existing => Some existing | None => Some code end.

Definition family_of (k : PacketFilterComponentKind) : option IpFamily :=
  match k with
  | KIpv4RemoteAddress | KIpv4LocalAddress => Some V4
  | KIpv6RemoteAddress | KIpv6RemoteAddressPrefix | KIpv6LocalAddressPrefix | KFlowLabel =>
      Some V6
  | _ => None
  end.

Definition join_family (slot : option (IpFamily * Z)) (family : option IpFamily) (code : Z)
    : outcome TftError (option (IpFamily * Z)) :=
  match family with
  | Some family =>
      match slot with
      | Some (existing, existing_type) =>
          if bool_decide (existing ≠ family) then conflicting existing_type code else Ok slot
      | None => Ok (Some (family, code))
      end
  | None => Ok slot
  end.

Definition is_ip_component (k : PacketFilterComponentKind) : bool :=
  match k with
  | KIpv4RemoteAddress | KIpv4LocalAddress | KIpv6RemoteAddress | KIpv6RemoteAddressPrefix
  | KIpv6LocalAddressPrefix | KProtocolIdentifierNextHeader | KSingleLocalPort
  | KLocalPortRange | KSingleRemotePort | KRemotePortRange | KSecurityParameterIndex
  | KTypeOfServiceTrafficClass | KFlowLabel => true
  | _ => false
  end.

(** The last [match kind] of the loop of [PacketFilter::validate]. *)
Definition classify (s : FilterScan) (c : PacketFilterComponent) (code : Z)
    : outcome TftError FilterScan :=
  let '{| seen := seen; remote_address := remote_address; local_address := local_address;
          local_port := local_port; remote_port := remote_port; ip_family := ip_family;
          first_ip_component := first_ip; protocol := protocol; any_port := any_port;
          spi := spi; flow_label := flow_label; ether_type := ether_type |} := s in
  match component_kind c with
  | KIpv4RemoteAddress | KIpv6RemoteAddress | KIpv6RemoteAddressPrefix =>
      let? remote_address := set_exclusive remote_address code in
      Ok (Build_FilterScan seen remote_address local_address local_port remote_port ip_family
            first_ip protocol any_port spi flow_label ether_type)
  | KIpv4LocalAddress | KIpv6LocalAddressPrefix =>
      let? local_address := set_exclusive local_address code in
      Ok (Build_FilterScan seen remote_address local_address local_port remote_port ip_family
            first_ip protocol any_port spi flow_label ether_type)
  | KSingleLocalPort | KLocalPortRange =>
      let? local_port := set_exclusive local_port code in
      Ok (Build_FilterScan seen remote_address local_address local_port remote_port ip_family
            first_ip protocol (get_or_insert any_port code) spi flow_label ether_type)
  | KSingleRemotePort | KRemotePortRange =>
      let? remote_port := set_exclusive remote_port code in
      Ok (Build_FilterScan seen remote_address local_address local_port remote_port ip_family
            first_ip protocol (get_or_insert any_port code) spi flow_label ether_type)
  | KProtocolIdentifierNextHeader =>
      Ok (Build_FilterScan seen remote_address local_address local_port remote_port ip_family
            first_ip (Some code) any_port spi flow_label ether_type)
  | KSecurityParameterIndex =>
      Ok (Build_FilterScan seen remote_address local_address local_port remote_port ip_family
            first_ip protocol any_port (Some code) flow_label ether_type)
  | KFlowLabel =>
      Ok (Build_FilterScan seen remote_address local_address local_port remote_port ip_family
            first_ip protocol any_port spi (Some code) ether_type)
  | KEtherType =>
      let ether_type :=
        match c with EtherType value => Some (value, code) | _ => ether_type end in
      Ok (Build_FilterScan seen remote_address local_address local_port remote_port ip_family
            first_ip protocol any_port spi flow_label ether_type)
  | _ => Ok s
  end.

(** One turn of the loop of [PacketFilter::validate]. *)
Definition scan_component (s : FilterScan) (c : PacketFilterComponent)
    : outcome TftError FilterScan :=
  let kind := component_kind c in
  let code := type_code kind in
  let? already := idx (seen s) code in
  if already : bool then tft_fail (DuplicateComponent code)
  else
  let seen' := <[Z.to_nat code := true]> (seen s) in
  let? family := join_family (ip_family s) (family_of kind) code in
  let first_ip :=
    if is_ip_component kind && bool_decide (first_ip_component s = None)
    then Some code else first_ip_component s in
  classify
    {| seen := seen';
       remote_address := remote_address s;
       local_address := local_address s;
       local_port := local_port s;
       remote_port := remote_port s;
       ip_family := family;
       first_ip_component := first_ip;
       protocol := protocol s;
       any_port := any_port s;
       spi := spi s;
       flow_label := flow_label s;
       ether_type := ether_type s |} c code.

Fixpoint scan_components (s : FilterScan) (cs : list PacketFilterComponent)
    : outcome TftError FilterScan :=
  match cs with
  | [] => Ok s
  | c :: cs => let? s := scan_component s c in scan_components s cs
  end.

(** The checks of [PacketFilter::validate] after its loop. *)
Definition check_flow_label (s : FilterScan) : outcome TftError () :=
  match flow_label s with
  | Some flow_type =>
      match protocol s, any_port s, spi s with
      | Some protocol_type, _, _ => conflicting protocol_type flow_type
      | None, Some port, _ => conflicting port flow_type
      | None, None, Some spi_type => conflicting spi_type flow_type
      | None, None, None => Ok ()
      end
  | None => Ok ()
  end.

Definition check_ether_type (s : FilterScan) : outcome TftError () :=
  match ether_type s with
  | Some (ether_type_value, ether_type_code) =>
      if ether_type_value =? 0x0800 then
        match ip_family s with
        | Some (V6, family_type) => conflicting ether_type_code family_type
        | _ => Ok ()
        end
      else if ether_type_value =? 0x86dd then
        match ip_family s with
        | Some (V4, family_type) => conflicting ether_type_code family_type
        | _ => Ok ()
        end
      else
        match first_ip_component s with
        | Some ip_type => conflicting ether_type_code ip_type
        | None => Ok ()
        end
  | None => Ok ()
  end.

Definition check_relations (s : FilterScan) : outcome TftError () :=
  match any_port s, spi s with
  | Some port, Some spi_type => conflicting port spi_type
  | _, _ =>
      let? _ := check_flow_label s in
      check_ether_type s
  end.

Definition filter_validate (f : PacketFilter) : outcome TftError () :=
  match components f with
  | [] => tft_fail EmptyPacketFilterContents
  | cs =>
      let? contents_len := filter_contents_len f in
      if 255 <? contents_len then tft_fail (PacketFilterContentsTooLong contents_len 255)
      else
      let? s := scan_components scan_start cs in
      check_relations s
  end.

Definition PacketFilter_new (identifier : PacketFilterIdentifier)
    (direction : PacketFilterDirection) (evaluation_precedence : Z)
    (components : list PacketFilterComponent) : outcome TftError PacketFilter :=
  let value :=
    {| pf_identifier := identifier;
       pf_direction := direction;
       evaluation_precedence := evaluation_precedence;
       components := components |} in
  let? _ := filter_validate value in
  Ok value.

(** ** Packet filter lists and parameters *)

Inductive PacketFilterList :=
| NoFilters
| Filters (filters : list PacketFilter)
| Identifiers (identifiers : list PacketFilterIdentifier).

Definition filter_list_len (l : PacketFilterList) : Z :=
  match l with
  | NoFilters => 0
  | Filters filters => len filters
  | Identifiers identifiers => len identifiers
  end.

Definition validate_parameter_length (identifier actual minimum maximum : Z)
    : outcome TftError () :=
  if negb ((minimum <=? actual) && (actual <=? maximum))
  then tft_fail (InvalidParameterLength identifier actual minimum maximum)
  else Ok ().

Fixpoint unique_identifiers_from (seen : list bool) (parameter : bool)
    (identifiers : list PacketFilterIdentifier) : outcome TftError () :=
  match identifiers with
  | [] => Ok ()
  | value :: identifiers =>
      let? already := idx seen value in
      if already : bool then
        if parameter then tft_fail (DuplicateParameterPacketFilterIdentifier value)
        else tft_fail (DuplicatePacketFilterIdentifier value)
      else unique_identifiers_from (<[Z.to_nat value := true]> seen) parameter identifiers
  end.

Definition validate_unique_identifiers (identifiers : list PacketFilterIdentifier)
    (parameter : bool) : outcome TftError () :=
  unique_identifiers_from (replicate 16 false) parameter identifiers.

Definition AuthorizationToken : Type := bytes.

Definition AuthorizationToken_new (bytes : bytes) : outcome TftError AuthorizationToken :=
  let? _ := validate_parameter_length 0x01 (len bytes) 1 255 in
  Ok bytes.

Record FlowIdentifier := { media_component_number : Z; ip_flow_number : Z }.

Definition PacketFilterIdentifierList : Type := list PacketFilterIdentifier.

Definition PacketFilterIdentifierList_new (identifiers : list PacketFilterIdentifier)
    : outcome TftError PacketFilterIdentifierList :=
  let? _ := validate_parameter_length 0x03 (len identifiers) 1 255 in
  let? _ := validate_unique_identifiers identifiers true in
  Ok identifiers.

Record UnknownTftParameter := { unknown_identifier : Z; unknown_contents : bytes }.

Definition UnknownTftParameter_new (identifier : Z) (contents : bytes)
    : outcome TftError UnknownTftParameter :=
  if (0x01 <=? identifier) && (identifier <=? 0x03)
  then tft_fail (StandardParameterAsUnknown identifier)
  else
  let? _ := validate_parameter_length identifier (len contents) 0 255 in
  Ok {| unknown_identifier := identifier; unknown_contents := contents |}.

Inductive TftParameter :=
| AuthorizationTokenParameter (token : AuthorizationToken)
| FlowIdentifierParameter (flow : FlowIdentifier)
| PacketFilterIdentifiersParameter (value : PacketFilterIdentifierList)
| UnknownParameter (value : UnknownTftParameter).

(** [TftParameter::identifier], through [TftParameter::kind]. *)
Definition parameter_identifier (p : TftParameter) : Z :=
  match p with
  | AuthorizationTokenParameter _ => 0x01
  | FlowIdentifierParameter _ => 0x02
  | PacketFilterIdentifiersParameter _ => 0x03
  | UnknownParameter value => unknown_identifier value
  end.

Definition parameter_contents_len (p : TftParameter) : Z :=
  match p with
  | AuthorizationTokenParameter token => len token
  | FlowIdentifierParameter _ => 4
  | PacketFilterIdentifiersParameter value => len value
  | UnknownParameter value => len (unknown_contents value)
  end.

(** The loop of [validate_parameter_sequence] from index [index] on: [ps] is what
    is left, so [parameters.get(index + 1)] is the head of its tail. *)
Fixpoint parameter_sequence_from (index : Z) (ps : list TftParameter) : outcome TftError () :=
  match ps with
  | [] => Ok ()
  | AuthorizationTokenParameter _ :: rest =>
      match rest with
      | FlowIdentifierParameter _ :: _ => parameter_sequence_from (index + 1) rest
      | _ => tft_fail (AuthorizationTokenWithoutFlowIdentifier index)
      end
  | _ :: rest => parameter_sequence_from (index + 1) rest
  end.

Definition validate_parameter_sequence (parameters : list TftParameter) : outcome TftError () :=
  parameter_sequence_from 0 parameters.

(** ** Traffic flow templates *)

Record TrafficFlowTemplate := {
  operation : TftOperation;
  packet_filters : PacketFilterList;
  parameters : list TftParameter;
  ignored_contents : bytes;
}.

Definition validate_filter_count (operation : TftOperation) (count : Z) : outcome TftError () :=
  if negb ((1 <=? count) && (count <=? TFT_MAX_PACKET_FILTERS))
  then tft_fail (InvalidPacketFilterCount (operation_code operation) count)
  else Ok ().

Fixpoint unique_full_filters_from (identifiers precedences : list bool)
    (filters : list PacketFilter) : outcome TftError () :=
  match filters with
  | [] => Ok ()
  | filter :: filters =>
      let identifier := pf_identifier filter in
      let? used := idx identifiers identifier in
      if used : bool then tft_fail (DuplicatePacketFilterIdentifier identifier)
      else
      let precedence := evaluation_precedence filter in
      let? used := idx precedences precedence in
      if used : bool then tft_fail (DuplicateEvaluationPrecedence precedence)
      else unique_full_filters_from (<[Z.to_nat identifier := true]> identifiers)
             (<[Z.to_nat precedence := true]> precedences) filters
  end.

Definition validate_unique_full_filters (filters : list PacketFilter) : outcome TftError () :=
  unique_full_filters_from (replicate 16 false) (replicate 256 false) filters.

(** The filter and parameter loops of [encoded_value_len_internal]. *)
Fixpoint filters_len_from (length : Z) (filters : list PacketFilter) : outcome TftError Z :=
  match filters with
  | [] => Ok length
  | filter :: filters =>
      let? contents_len := filter_contents_len filter in
      let? length :=
        ok_or (checked_add length 3 ≫= λ value, checked_add value contents_len)
          (TftError_new TftLengthOverflow) in
      filters_len_from length filters
  end.

Fixpoint parameters_len_from (length : Z) (ps : list TftParameter) : outcome TftError Z :=
  match ps with
  | [] => Ok length
  | p :: ps =>
      let? length :=
        ok_or (checked_add length 2 ≫= λ value, checked_add value (parameter_contents_len p))
          (TftError_new TftLengthOverflow) in
      parameters_len_from length ps
  end.

Definition encoded_value_len_internal (t : TrafficFlowTemplate) : outcome TftError Z :=
  let length := TFT_MIN_VALUE_LEN in
  let? length :=
    match packet_filters t with
    | NoFilters => Ok length
    | Identifiers identifiers =>
        ok_or (checked_add length (len identifiers)) (TftError_new TftLengthOverflow)
    | Filters filters => filters_len_from length filters
    end in
  let? length := parameters_len_from length (parameters t) in
  ok_or (checked_add length (len (ignored_contents t))) (TftError_new TftLengthOverflow).

Fixpoint validate_filters (filters : list PacketFilter) : outcome TftError () :=
  match filters with
  | [] => Ok ()
  | filter :: filters => let? _ := filter_validate filter in validate_filters filters
  end.

(** The [match (self.operation, &self.packet_filters)] of
    [TrafficFlowTemplate::validate]. *)
Definition validate_operation (t : TrafficFlowTemplate) : outcome TftError () :=
  match operation t, packet_filters t with
  | Ignore, NoFilters =>
      if negb (bool_decide (parameters t = []))
      then tft_fail (InvalidOperationHeader (operation_code (operation t)))
      else Ok ()
  | DeleteExisting, NoFilters =>
      if negb (bool_decide (ignored_contents t = []))
      then tft_fail (InvalidOperationHeader (operation_code (operation t)))
      else Ok ()
  | NoOperation, NoFilters =>
      if bool_decide (parameters t = []) || negb (bool_decide (ignored_contents t = []))
      then tft_fail EmptyParameterList
      else Ok ()
  | (CreateNew | AddPacketFilters | ReplacePacketFilters), Filters filters =>
      let? _ := validate_filter_count (operation t) (len filters) in
      let? _ := validate_unique_full_filters filters in
      if negb (bool_decide (ignored_contents t = [])) then tft_fail UnexpectedTrailingData
      else Ok ()
  | DeletePacketFilters, Identifiers identifiers =>
      let? _ := validate_filter_count (operation t) (len identifiers) in
      let? _ := validate_unique_identifiers identifiers false in
      if negb (bool_decide (ignored_contents t = [])) then tft_fail UnexpectedTrailingData
      else Ok ()
  | _, _ => tft_fail (InvalidPacketFilterList (operation_code (operation t)))
  end.

Definition template_validate (t : TrafficFlowTemplate) : outcome TftError () :=
  let? _ :=
    match packet_filters t with
    | Filters filters => validate_filters filters
    | _ => Ok ()
    end in
  let? _ := validate_parameter_sequence (parameters t) in
  let? _ := validate_operation t in
  let? length := encoded_value_len_internal t in
  if negb ((TFT_MIN_VALUE_LEN <=? length) && (length <=? TFT_MAX_VALUE_LEN))
  then tft_fail (InvalidValueLength length TFT_MIN_VALUE_LEN TFT_MAX_VALUE_LEN)
  else Ok ().

Definition TrafficFlowTemplate_new (operation : TftOperation) (packet_filters : PacketFilterList)
    (parameters : list TftParameter) : outcome TftError TrafficFlowTemplate :=
  let value :=
    {| operation := operation;
       packet_filters := packet_filters;
       parameters := parameters;
       ignored_contents := [] |} in
  let? _ := template_validate value in
  Ok value.

Definition ignore : TrafficFlowTemplate :=
  {| operation := Ignore;
     packet_filters := NoFilters;
     parameters := [];
     ignored_contents := [] |}.

Definition ignore_with_contents (contents : bytes) : outcome TftError TrafficFlowTemplate :=
  let value :=
    {| operation := Ignore;
       packet_filters := NoFilters;
       parameters := [];
       ignored_contents := contents |} in
  let? _ := template_validate value in
  Ok value.

Definition create_new (filters : list PacketFilter) (parameters : list TftParameter)
    : outcome TftError TrafficFlowTemplate :=
  TrafficFlowTemplate_new CreateNew (Filters filters) parameters.

Definition delete_existing : TrafficFlowTemplate :=
  {| operation := DeleteExisting;
     packet_filters := NoFilters;
     parameters := [];
     ignored_contents := [] |}.

Definition delete_existing_with_parameters (parameters : list TftParameter)
    : outcome TftError TrafficFlowTemplate :=
  TrafficFlowTemplate_new DeleteExisting NoFilters parameters.

Definition add_packet_filters (filters : list PacketFilter) (parameters : list TftParameter)
    : outcome TftError TrafficFlowTemplate :=
  TrafficFlowTemplate_new AddPacketFilters (Filters filters) parameters.

Definition replace_packet_filters (filters : list PacketFilter) (parameters : list TftParameter)
    : outcome TftError TrafficFlowTemplate :=
  TrafficFlowTemplate_new ReplacePacketFilters (Filters filters) parameters.

Definition delete_packet_filters (identifiers : list PacketFilterIdentifier)
    (parameters : list TftParameter) : outcome TftError TrafficFlowTemplate :=
  TrafficFlowTemplate_new DeletePacketFilters (Identifiers identifiers) parameters.

Definition no_operation (parameters : list TftParameter)
    : outcome TftError TrafficFlowTemplate :=
  TrafficFlowTemplate_new NoOperation NoFilters parameters.
