(* ===== verification/TftValid.v ===== *)
(** What it means for a Traffic Flow Template to be valid, stated without the
    scan, the bit tables and the error order of [model.rs], and the proof that
    [TrafficFlowTemplate::validate] decides exactly that. *)
From S2P Require Import Prelude.
From S2P Require Import TftModel.

(** ** Typed values

    The widths of the fields, and what the checked constructors of the private
    types establish. *)

Definition octets (n : Z) (l : bytes) : Prop := len l = n ∧ bytes_ok l.

Definition identifier_typed (i : PacketFilterIdentifier) : Prop := 0 ≤ i < 16.

Definition range_typed (r : PortRange) : Prop := 0 ≤ low r ≤ high r ∧ high r < 65536.

Definition prefix_typed (p : Ipv6AddressPrefix) : Prop :=
  octets 16 (prefix_address p) ∧ 0 ≤ prefix_length p ≤ 128.

Definition component_typed (c : PacketFilterComponent) : Prop :=
  match c with
  | Ipv4RemoteAddress a m | Ipv4LocalAddress a m => octets 4 a ∧ octets 4 m
  | Ipv6RemoteAddress a m => octets 16 a ∧ octets 16 m
  | Ipv6RemoteAddressPrefix p | Ipv6LocalAddressPrefix p => prefix_typed p
  | ProtocolIdentifierNextHeader v => u8 v
  | SingleLocalPort v | SingleRemotePort v | EtherType v => u16 v
  | LocalPortRange r | RemotePortRange r => range_typed r
  | SecurityParameterIndex v => u32 v
  | TypeOfServiceTrafficClass v m => u8 v ∧ u8 m
  | FlowLabel v => 0 ≤ v ≤ 0xfffff
  | DestinationMacAddress v | SourceMacAddress v => octets 6 v
  | CustomerVlanId v | ServiceVlanId v => 0 ≤ v ≤ 0xfff
  | CustomerVlanPriority p | ServiceVlanPriority p => 0 ≤ pcp p ≤ 7
  end.

Definition filter_typed (f : PacketFilter) : Prop :=
  identifier_typed (pf_identifier f)
  ∧ u8 (evaluation_precedence f)
  ∧ Forall component_typed (components f).

Definition parameter_typed (p : TftParameter) : Prop :=
  match p with
  | AuthorizationTokenParameter token => 1 ≤ len token ≤ 255 ∧ bytes_ok token
  | FlowIdentifierParameter f => u16 (media_component_number f) ∧ u16 (ip_flow_number f)
  | PacketFilterIdentifiersParameter ids =>
      1 ≤ len ids ≤ 255 ∧ Forall identifier_typed ids ∧ NoDup ids
  | UnknownParameter v =>
      u8 (unknown_identifier v) ∧ (unknown_identifier v < 1 ∨ 3 < unknown_identifier v)
      ∧ len (unknown_contents v) ≤ 255 ∧ bytes_ok (unknown_contents v)
  end.

Definition filter_list_typed (l : PacketFilterList) : Prop :=
  match l with
  | NoFilters => True
  | Filters fs => Forall filter_typed fs
  | Identifiers ids => Forall identifier_typed ids
  end.

Definition template_typed (t : TrafficFlowTemplate) : Prop :=
  filter_list_typed (packet_filters t)
  ∧ Forall parameter_typed (parameters t)
  ∧ bytes_ok (ignored_contents t).

(** ** The specification *)

(** The classes of components TS 24.008 allows at most one of. *)
Definition is_remote_address (k : PacketFilterComponentKind) : bool :=
  bool_decide (k ∈ [KIpv4RemoteAddress; KIpv6RemoteAddress; KIpv6RemoteAddressPrefix]).
Definition is_local_address (k : PacketFilterComponentKind) : bool :=
  bool_decide (k ∈ [KIpv4LocalAddress; KIpv6LocalAddressPrefix]).
Definition is_local_port (k : PacketFilterComponentKind) : bool :=
  bool_decide (k ∈ [KSingleLocalPort; KLocalPortRange]).
Definition is_remote_port (k : PacketFilterComponentKind) : bool :=
  bool_decide (k ∈ [KSingleRemotePort; KRemotePortRange]).
Definition is_port (k : PacketFilterComponentKind) : bool :=
  is_local_port k || is_remote_port k.
Definition is_kind (k k' : PacketFilterComponentKind) : bool := bool_decide (k = k').
Definition of_family (f : IpFamily) (k : PacketFilterComponentKind) : bool :=
  bool_decide (family_of k = Some f).

(** The components an EtherType excludes. *)
Definition ether_excludes (value : Z) (k : PacketFilterComponentKind) : bool :=
  if value =? 0x0800 then of_family V6 k
  else if value =? 0x86dd then of_family V4 k
  else is_ip_component k.

(** Kinds of which one filter takes one: both IP families, or two of one class. *)
Definition exclusive (ka kb : PacketFilterComponentKind) : bool :=
  (of_family V4 ka && of_family V6 kb)
  || (is_remote_address ka && is_remote_address kb)
  || (is_local_address ka && is_local_address kb)
  || (is_local_port ka && is_local_port kb)
  || (is_remote_port ka && is_remote_port kb).

(** Kinds the presence of [a] rules out. *)
Definition rules_out (a : PacketFilterComponent) (kb : PacketFilterComponentKind) : bool :=
  match a with
  | SecurityParameterIndex _ => is_port kb
  | FlowLabel _ =>
      is_kind KProtocolIdentifierNextHeader kb || is_port kb || is_kind KSecurityParameterIndex kb
  | EtherType value => ether_excludes value kb
  | _ => false
  end.

(** Two components of different kinds that may not be in one filter. *)
Definition conflict (a b : PacketFilterComponent) : bool :=
  exclusive (component_kind a) (component_kind b) || rules_out a (component_kind b).

Definition compatible (cs : list PacketFilterComponent) : Prop :=
  NoDup (component_kind <$> cs)
  ∧ ∀ a b, a ∈ cs → b ∈ cs → component_kind a ≠ component_kind b → conflict a b = false.

Definition sum (l : list Z) : Z := foldr Z.add 0 l.

Definition contents_size (f : PacketFilter) : Z := sum (encoded_len <$> components f).

Definition filter_valid (f : PacketFilter) : Prop :=
  components f ≠ [] ∧ contents_size f ≤ 255 ∧ compatible (components f).

(** Every authorization token is directly followed by a flow identifier. *)
Definition tokens_paired (ps : list TftParameter) : Prop :=
  ∀ i token, ps !! i = Some (AuthorizationTokenParameter token) →
  ∃ flow, ps !! S i = Some (FlowIdentifierParameter flow).

Definition filter_list_size (l : PacketFilterList) : Z :=
  match l with
  | NoFilters => 0
  | Identifiers ids => len ids
  | Filters fs => sum ((λ f, 3 + contents_size f) <$> fs)
  end.

Definition value_size (t : TrafficFlowTemplate) : Z :=
  1 + filter_list_size (packet_filters t)
  + sum ((λ p, 2 + parameter_contents_len p) <$> parameters t)
  + len (ignored_contents t).

(** The contents each operation takes. *)
Definition operation_valid (t : TrafficFlowTemplate) : Prop :=
  match packet_filters t with
  | NoFilters =>
      match operation t with
      | Ignore => parameters t = []
      | DeleteExisting => ignored_contents t = []
      | NoOperation => parameters t ≠ [] ∧ ignored_contents t = []
      | _ => False
      end
  | Filters fs =>
      operation t ∈ [CreateNew; AddPacketFilters; ReplacePacketFilters]
      ∧ 1 ≤ len fs ≤ 15 ∧ Forall filter_valid fs
      ∧ NoDup (pf_identifier <$> fs) ∧ NoDup (evaluation_precedence <$> fs)
      ∧ ignored_contents t = []
  | Identifiers ids =>
      operation t = DeletePacketFilters ∧ 1 ≤ len ids ≤ 15 ∧ NoDup ids
      ∧ ignored_contents t = []
  end.

Definition template_valid (t : TrafficFlowTemplate) : Prop :=
  operation_valid t ∧ tokens_paired (parameters t) ∧ value_size t ≤ 255.

(** ** The scan of a packet filter *)

Lemma type_code_u8 k : u8 (type_code k).
Proof. unfold u8. by destruct k. Qed.

Lemma from_type_code_inv code k : from_type_code code = Ok k → code = type_code k.
Proof. unfold from_type_code. intros H. rust_cases; done. Qed.

Lemma from_type_code_ok k : from_type_code (type_code k) = Ok k.
Proof. by destruct k. Qed.

Lemma type_code_inj k k' : type_code k = type_code k' → k = k'.
Proof.
  intros H. pose proof (from_type_code_ok k) as Hk. rewrite H, from_type_code_ok in Hk. congruence.
Qed.

(** A component of the list has a kind with the property. *)
Definition has (P : PacketFilterComponentKind → bool) (cs : list PacketFilterComponent) : bool :=
  existsb (λ c, P (component_kind c)) cs.

Lemma has_spec P cs : has P cs = true ↔ ∃ c, c ∈ cs ∧ P (component_kind c) = true.
Proof. unfold has. rewrite existsb_exists. by setoid_rewrite list_elem_of_In. Qed.

Lemma has_false P cs : has P cs = false ↔ ∀ c, c ∈ cs → P (component_kind c) = false.
Proof.
  rewrite <- not_true_iff_false, has_spec. split.
  - intros H c Hc. apply not_true_iff_false. eauto.
  - intros H (c & Hc & HP). rewrite H in HP; done.
Qed.

Definition ether_is (v : Z) (c : PacketFilterComponent) : bool :=
  match c with EtherType w => w =? v | _ => false end.

Definition set {A} (o : option A) : bool := match o with Some _ => true | None => false end.

Definition family_set (f : IpFamily) (o : option (IpFamily * Z)) : bool :=
  match o with Some (g, _) => bool_decide (g = f) | None => false end.

(** What the scan has gathered after the components [cs]. *)
Record scanned (s : FilterScan) (cs : list PacketFilterComponent) : Prop := {
  scanned_seen : ∀ k, idx (E := TftError) (seen s) (type_code k) = Ok (has (is_kind k) cs);
  scanned_remote : set (remote_address s) = has is_remote_address cs;
  scanned_local : set (local_address s) = has is_local_address cs;
  scanned_lport : set (local_port s) = has is_local_port cs;
  scanned_rport : set (remote_port s) = has is_remote_port cs;
  scanned_family : ∀ f, family_set f (ip_family s) = has (of_family f) cs;
  scanned_ip : set (first_ip_component s) = has is_ip_component cs;
  scanned_protocol : set (protocol s) = has (is_kind KProtocolIdentifierNextHeader) cs;
  scanned_port : set (any_port s) = has is_port cs;
  scanned_spi : set (spi s) = has (is_kind KSecurityParameterIndex) cs;
  scanned_flow : set (flow_label s) = has (is_kind KFlowLabel) cs;
  scanned_ether : ∀ v,
    match ether_type s with Some (w, _) => w =? v | None => false end = existsb (ether_is v) cs;
}.

(** The components [cs] leave room for [c], as far as the loop looks. *)
Definition admits (cs : list PacketFilterComponent) (c : PacketFilterComponent) : bool :=
  let k := component_kind c in
  negb (has (is_kind k) cs
        || (of_family V4 k && has (of_family V6) cs)
        || (of_family V6 k && has (of_family V4) cs)
        || (is_remote_address k && has is_remote_address cs)
        || (is_local_address k && has is_local_address cs)
        || (is_local_port k && has is_local_port cs)
        || (is_remote_port k && has is_remote_port cs)).

Lemma scan_start_scanned : scanned scan_start [].
Proof. split; try done. by intros []. Qed.

Lemma seen_update s cs c :
  (∀ k, idx (E := TftError) s (type_code k) = Ok (has (is_kind k) cs)) →
  ∀ k, idx (E := TftError) (<[Z.to_nat (type_code (component_kind c)) := true]> s) (type_code k)
       = Ok (has (is_kind k) (c :: cs)).
Proof.
  intros Hs k. specialize (Hs k) as Hk. specialize (Hs (component_kind c)) as Hc.
  pose proof (type_code_u8 k). pose proof (type_code_u8 (component_kind c)). unfold u8 in *.
  unfold idx in *. rewrite (proj2 (Z.ltb_ge _ 0)) in * by lia.
  unfold has at 1, is_kind at 1. cbn [existsb]. fold (has (is_kind k) cs).
  destruct (decide (k = component_kind c)) as [->|Hne].
  - rewrite list_lookup_insert_eq; [by rewrite bool_decide_true|].
    apply lookup_lt_is_Some. by destruct (s !! _); [eexists|].
  - rewrite (bool_decide_false (k = component_kind c)) by done.
    rewrite list_lookup_insert_ne; [done|]. intros E. apply Hne, type_code_inj. lia.
Qed.

Lemma has_cons P c cs : has P (c :: cs) = P (component_kind c) || has P cs.
Proof. done. Qed.

Lemma set_first b (o : option Z) code :
  set (if b && bool_decide (o = None) then Some code else o) = b || set o.
Proof. by destruct b, o. Qed.

Lemma set_get_or_insert o code : set (get_or_insert o code) = true.
Proof. by destruct o. Qed.

Lemma join_family_spec slot k code :
  match join_family slot (family_of k) code with
  | Ok slot' =>
      (of_family V4 k && family_set V6 slot) || (of_family V6 k && family_set V4 slot) = false
      ∧ ∀ f, family_set f slot' = of_family f k || family_set f slot
  | Err _ =>
      (of_family V4 k && family_set V6 slot) || (of_family V6 k && family_set V4 slot) = true
  | Crash => False
  end.
Proof.
  unfold of_family. destruct (family_of k) as [f|]; cbn [join_family]; [|done].
  destruct slot as [[g t]|]; [|by destruct f; (split; [done|intros []])].
  by destruct f, g; cbn; try (split; [done|intros []]).
Qed.

Lemma no_ether cs v : has (is_kind KEtherType) cs = false → existsb (ether_is v) cs = false.
Proof.
  induction cs as [|c cs IH]; [done|]. rewrite has_cons. intros [Hc Hcs]%orb_false_iff.
  cbn [existsb]. rewrite IH by done. by destruct c.
Qed.

Lemma scan_component_spec s cs c :
  scanned s cs →
  match scan_component s c with
  | Ok s' => admits cs c = true ∧ scanned s' (c :: cs)
  | Err _ => admits cs c = false
  | Crash => False
  end.
Proof.
  intros [Hseen Hrem Hloc Hlp Hrp Hfam Hip Hpro Hport Hspi Hflow Heth].
  pose proof (seen_update _ _ c Hseen) as Hseen'.
  unfold scan_component, admits. rewrite Hseen.
  destruct (has (is_kind (component_kind c)) cs) eqn:Hk; [done|].
  pose proof (join_family_spec (ip_family s) (component_kind c) (type_code (component_kind c)))
    as Hj. rewrite !Hfam in Hj.
  destruct (join_family _ _ _) as [fam'|e|]; [|by cbn [orb]; rewrite Hj|done].
  destruct Hj as [Hj Hfam']. setoid_rewrite Hfam in Hfam'. cbn [orb]. rewrite Hj. cbn [orb]. clear Hj Hfam Hseen.
  rewrite <- Hrem, <- Hloc, <- Hlp, <- Hrp.
  pose proof (no_ether cs) as Hno.
  destruct s as [sn ra la lp rp fam fi pr ap sp fl et].
  cbn [remote_address local_address local_port remote_port ip_family first_ip_component
       protocol any_port spi flow_label ether_type seen] in *.
  destruct c; cbn [component_kind classify];
    try (match goal with |- context [set_exclusive ?o _] =>
           destruct o; cbn [set_exclusive]; [done|] end);
    (split; [by repeat case_match|]); (split;
      cbn [remote_address local_address local_port remote_port ip_family first_ip_component
           protocol any_port spi flow_label ether_type seen];
      [exact Hseen'|..]); intros; rewrite ?set_first, ?set_get_or_insert, ?has_cons; try done.
  cbn [existsb ether_is]. by rewrite Hno, orb_false_r.
Qed.

(** The loop accepts the components [cs] after [done]. *)
Fixpoint admitted (done cs : list PacketFilterComponent) : Prop :=
  match cs with
  | [] => True
  | c :: cs => admits done c = true ∧ admitted (c :: done) cs
  end.

Lemma scan_components_spec s done cs :
  scanned s done →
  match scan_components s cs with
  | Ok s' => admitted done cs ∧ scanned s' (rev cs ++ done)
  | Err _ => ¬ admitted done cs
  | Crash => False
  end.
Proof.
  revert s done. induction cs as [|c cs IH]; intros s done Hs; [by split|].
  cbn [scan_components admitted rev].
  pose proof (scan_component_spec s done c Hs) as Hc.
  destruct (scan_component s c) as [s'|e|]; [|by intros [Ha _]; congruence|done].
  destruct Hc as [Hc Hs']. specialize (IH s' (c :: done) Hs').
  rewrite <- app_assoc. cbn [app]. destruct (scan_components s' cs); naive_solver.
Qed.

(** The loop's share of [compatible]. *)
Definition separate (cs : list PacketFilterComponent) : Prop :=
  NoDup (component_kind <$> cs)
  ∧ ∀ a b, a ∈ cs → b ∈ cs → component_kind a ≠ component_kind b →
    exclusive (component_kind a) (component_kind b) = false.

Lemma has_and p P cs : p && has P cs = has (λ k, p && P k) cs.
Proof.
  induction cs as [|c cs IH]; [apply andb_false_r|]. rewrite !has_cons, <- IH.
  apply andb_orb_distrib_r.
Qed.

Lemma has_or P Q cs : has P cs || has Q cs = has (λ k, P k || Q k) cs.
Proof.
  induction cs as [|c cs IH]; [done|]. rewrite !has_cons, <- IH.
  by destruct (P _), (Q _), (has P cs).
Qed.

Lemma admits_spec cs c :
  admits cs c = true ↔
  ∀ d, d ∈ cs → component_kind c ≠ component_kind d
    ∧ exclusive (component_kind c) (component_kind d) = false
    ∧ exclusive (component_kind d) (component_kind c) = false.
Proof.
  unfold admits. rewrite !has_and, !has_or, negb_true_iff, has_false.
  apply forall_proper; intros d. apply forall_proper; intros _.
  transitivity (is_kind (component_kind c) (component_kind d)
                || exclusive (component_kind c) (component_kind d)
                || exclusive (component_kind d) (component_kind c) = false).
  - match goal with |- ?a = false ↔ ?b = false => assert (a = b) as -> end; [|done].
    by destruct (component_kind c), (component_kind d).
  - rewrite !orb_false_iff. unfold is_kind. rewrite bool_decide_eq_false. tauto.
Qed.

Lemma separate_cons c cs : separate (c :: cs) ↔ admits cs c = true ∧ separate cs.
Proof.
  rewrite admits_spec. unfold separate. rewrite fmap_cons, NoDup_cons, list_elem_of_fmap.
  split.
  - intros [[Hc Hn] H]. split_and!; [|done|].
    + intros d Hd. assert (component_kind c ≠ component_kind d) by naive_solver.
      split_and!; [done|apply H|apply H]; set_solver.
    + intros a b Ha Hb. apply H; set_solver.
  - intros (Hc & Hn & H). split_and!; [naive_solver|done|].
    intros a b [->|Ha]%elem_of_cons [->|Hb]%elem_of_cons Hne; [done|..|by apply H].
    + by apply Hc.
    + by apply Hc.
Qed.

Lemma separate_app_r l cs : separate (l ++ cs) → separate cs.
Proof. induction l as [|c l IH]; [done|]. cbn [app]. rewrite separate_cons. tauto. Qed.

Lemma admitted_separate done cs :
  separate done → (admitted done cs ↔ separate (rev cs ++ done)).
Proof.
  revert done. induction cs as [|c cs IH]; intros done Hd; [cbn; tauto|].
  cbn [admitted rev]. rewrite <- app_assoc. cbn [app]. split.
  - intros [Hc Hr]. apply IH; [by apply separate_cons|done].
  - intros H. assert (Hs : separate (c :: done)) by (by eapply separate_app_r).
    split; [by apply separate_cons in Hs as [? _]|by apply IH].
Qed.

Lemma scanned_perm s cs cs' : cs ≡ₚ cs' → scanned s cs → scanned s cs'.
Proof.
  intros Hp. assert (Hh : ∀ P, has P cs = has P cs').
  { intros P. apply eq_bool_prop_intro. rewrite !Is_true_true, !has_spec. by setoid_rewrite Hp. }
  assert (He : ∀ v, existsb (ether_is v) cs = existsb (ether_is v) cs').
  { intros v. apply eq_bool_prop_intro. rewrite !Is_true_true, !existsb_exists.
    setoid_rewrite <- list_elem_of_In. by setoid_rewrite Hp. }
  intros [? ? ? ? ? ? ? ? ? ? ? ?].
  split; intros; rewrite <- ?Hh, <- ?He; auto.
Qed.

Lemma separate_perm cs cs' : cs ≡ₚ cs' → separate cs ↔ separate cs'.
Proof. intros Hp. unfold separate. by setoid_rewrite Hp. Qed.

(** The share of [compatible] the checks after the loop decide. *)
Definition unruled (cs : list PacketFilterComponent) : Prop :=
  ∀ a b, a ∈ cs → b ∈ cs → rules_out a (component_kind b) = false.

Lemma rules_out_other a b : rules_out a (component_kind b) = true → component_kind a ≠ component_kind b.
Proof.
  destruct a; try done; destruct b; try done. cbn. unfold ether_excludes. by repeat case_match.
Qed.

Lemma conflict_false a b :
  conflict a b = false ↔
  exclusive (component_kind a) (component_kind b) = false ∧ rules_out a (component_kind b) = false.
Proof. apply orb_false_iff. Qed.

Lemma compatible_split cs : compatible cs ↔ separate cs ∧ unruled cs.
Proof.
  unfold compatible, separate, unruled. setoid_rewrite conflict_false. split.
  - intros [Hn H]. split_and!; [done|intros; by apply H|].
    intros a b Ha Hb. apply not_true_iff_false. intros Hr.
    pose proof (rules_out_other _ _ Hr). destruct (H a b Ha Hb); congruence.
  - intros [[Hn H] Hu]. split; [done|]. intros a b Ha Hb Hne. split; [by apply H|by apply Hu].
Qed.

Lemma unruled_has cs :
  unruled cs ↔
  (has (is_kind KSecurityParameterIndex) cs = true → has is_port cs = false)
  ∧ (has (is_kind KFlowLabel) cs = true →
     has (λ k, is_kind KProtocolIdentifierNextHeader k || is_port k
               || is_kind KSecurityParameterIndex k) cs = false)
  ∧ ∀ v, existsb (ether_is v) cs = true → has (ether_excludes v) cs = false.
Proof.
  unfold unruled. split.
  - intros H. split_and!; [| |intros v]; rewrite ?has_spec, ?existsb_exists; intros (a & Ha & Hk);
      rewrite ?list_elem_of_In in *; apply has_false; intros b Hb; rewrite ?list_elem_of_In in *;
      specialize (H a b); rewrite !list_elem_of_In in H; specialize (H Ha Hb); destruct a; try done.
    cbn in Hk. to_prop. by subst.
  - intros (Hs & Hf & He) a b Ha Hb. destruct a; try done; cbn [rules_out].
    + revert b Hb. apply has_false, Hs, has_spec. eauto.
    + refine (proj1 (has_false _ _) (Hf _) b Hb). apply has_spec. eauto.
    + revert b Hb. apply has_false, He, existsb_exists. eexists. rewrite <- list_elem_of_In.
      split; [done|]. cbn. lia.
Qed.

Lemma check_ether_type_spec s :
  returns (check_ether_type s)
  ∧ (check_ether_type s = Ok () ↔
     ∀ v, match ether_type s with Some (w, _) => w =? v | None => false end = true →
     (if v =? 0x0800 then family_set V6 (ip_family s)
      else if v =? 0x86dd then family_set V4 (ip_family s)
      else set (first_ip_component s)) = false).
Proof.
  unfold check_ether_type, returns, conflicting. destruct (ether_type s) as [[w x]|]; [|done].
  assert (Hw : ∀ P : Z → Prop, (∀ v, (w =? v) = true → P v) ↔ P w).
  { intros P. split; [intros H; apply H; lia|]. intros H v Hv. to_prop. by subst. }
  rewrite (Hw (λ v, _ = false)). destruct (w =? 0x0800), (w =? 0x86dd);
    destruct (ip_family s) as [[[] ?]|], (first_ip_component s); cbn; done.
Qed.

Lemma check_relations_spec s cs :
  scanned s cs → returns (check_relations s) ∧ (check_relations s = Ok () ↔ unruled cs).
Proof.
  intros [_ _ _ _ _ Hfam Hip Hpro Hport Hspi Hflow Heth].
  rewrite unruled_has, <- !has_or, <- Hspi, <- Hflow, <- Hport, <- Hpro.
  pose proof (check_ether_type_spec s) as [Hr He].
  assert (Hx : ∀ v, has (ether_excludes v) cs =
    if v =? 0x0800 then family_set V6 (ip_family s)
    else if v =? 0x86dd then family_set V4 (ip_family s) else set (first_ip_component s)).
  { intros v. rewrite !Hfam, Hip. unfold ether_excludes. by repeat case_match. }
  setoid_rewrite <- Heth. setoid_rewrite Hx. rewrite <- He.
  clear Hfam Hip Hpro Hport Hspi Hflow Heth He Hx.
  unfold check_relations, check_flow_label, conflicting, returns in *.
  destruct (any_port s), (spi s), (flow_label s), (protocol s); cbn [set orb]; intuition congruence.
Qed.

(** ** Sizes *)

Lemma sum_cons x l : sum (x :: l) = x + sum l.
Proof. done. Qed.

Lemma encoded_len_pos c : 2 ≤ encoded_len c ≤ 33.
Proof. destruct c; cbn; lia. Qed.

Lemma sum_encoded_nonneg cs : 0 ≤ sum (encoded_len <$> cs).
Proof.
  induction cs as [|c cs IH]; [done|]. rewrite fmap_cons, sum_cons.
  pose proof (encoded_len_pos c). lia.
Qed.

(** [r] is [Ok n], or an error when [n] does not fit a [usize]. *)
Definition fits (r : outcome TftError Z) (n : Z) : Prop :=
  r = if n <=? USIZE_MAX then Ok n else tft_fail TftLengthOverflow.

Lemma contents_len_from_fits total cs :
  0 ≤ total ≤ USIZE_MAX →
  fits (contents_len_from total cs) (total + sum (encoded_len <$> cs)).
Proof.
  unfold fits. revert total. induction cs as [|c cs IH]; intros total Ht.
  - cbn. rewrite Z.add_0_r. by rewrite (proj2 (Z.leb_le _ _)) by lia.
  - cbn [contents_len_from]. rewrite fmap_cons, sum_cons. pose proof (encoded_len_pos c).
    pose proof (sum_encoded_nonneg cs). unfold checked_add.
    destruct (total + encoded_len c <=? USIZE_MAX) eqn:E; to_prop; cbn [ok_or].
    + rewrite IH by lia. by rewrite Z.add_assoc.
    + by rewrite (proj2 (Z.leb_gt _ _)) by lia.
Qed.

Lemma filter_contents_len_fits f : fits (filter_contents_len f) (contents_size f).
Proof. by apply contents_len_from_fits. Qed.

(** ** Packet filters *)

Lemma filter_validate_spec f :
  returns (filter_validate f) ∧ (filter_validate f = Ok () ↔ filter_valid f).
Proof.
  unfold filter_validate, filter_valid, returns. rewrite (filter_contents_len_fits f).
  destruct (components f) as [|c cs] eqn:Hf; [by split; [|split; [|intros [? _]]]|].
  destruct (contents_size f <=? USIZE_MAX) eqn:Hu; to_prop;
    [|unfold USIZE_MAX in Hu; split; [done|split; [done|lia]]].
  destruct (255 <? contents_size f) eqn:H255; to_prop; [split; [done|split; [done|lia]]|].
  pose proof (scan_components_spec scan_start [] (c :: cs) scan_start_scanned) as Hs.
  assert (Hp : rev (c :: cs) ++ [] ≡ₚ c :: cs)
    by (rewrite app_nil_r; symmetry; apply Permutation_rev).
  assert (Ha : admitted [] (c :: cs) ↔ separate (c :: cs)).
  { rewrite <- (separate_perm _ _ Hp). apply admitted_separate.
    split; [apply NoDup_nil_2|set_solver]. }
  rewrite compatible_split, <- Ha.
  destruct (scan_components scan_start (c :: cs)) as [s| |]; [|naive_solver|done].
  destruct Hs as [Hsep Hs]. apply (scanned_perm _ _ _ Hp), check_relations_spec in Hs as [Hr Hu'].
  unfold returns in Hr. rewrite Hu'.
  intuition congruence.
Qed.

Lemma validate_filters_spec fs :
  returns (validate_filters fs) ∧ (validate_filters fs = Ok () ↔ Forall filter_valid fs).
Proof.
  induction fs as [|f fs [IHr IH]]; [by split; [|split]|].
  cbn [validate_filters]. rewrite Forall_cons, <- IH.
  destruct (filter_validate_spec f) as [Hr Hf]. rewrite <- Hf. unfold returns in *.
  destruct (filter_validate f) as [[]| |]; intuition congruence.
Qed.

(** ** Tables of used values *)

Lemma unique_identifiers_from_spec table used parameter ids :
  marks 16 table used → Forall identifier_typed ids →
  returns (unique_identifiers_from table parameter ids)
  ∧ (unique_identifiers_from table parameter ids = Ok () ↔
     NoDup ids ∧ ∀ v, v ∈ ids → v ∉ used).
Proof.
  revert table used. induction ids as [|v ids IH]; intros table used Hm Hty.
  { split; [done|]. split; [|done]. intros _. split; [apply NoDup_nil_2|set_solver]. }
  apply Forall_cons in Hty as [Hv Hty]. cbn [unique_identifiers_from]. rewrite (Hm v Hv).
  rewrite NoDup_cons. case_bool_decide as Hu.
  { destruct parameter; (split; [done|]; split; [done|]); intros [_ H]; exfalso;
      apply (H v); set_solver. }
  destruct (IH _ _ (marks_update 16 table used v Hv Hm) Hty) as [Hr ->]. split; [done|].
  split; intros [H1 H2]; (split; [set_solver|]); set_solver.
Qed.

Lemma unique_full_filters_from_spec table1 table2 used1 used2 fs :
  marks 16 table1 used1 → marks 256 table2 used2 → Forall filter_typed fs →
  returns (unique_full_filters_from table1 table2 fs)
  ∧ (unique_full_filters_from table1 table2 fs = Ok () ↔
     (NoDup (pf_identifier <$> fs) ∧ ∀ f, f ∈ fs → pf_identifier f ∉ used1)
     ∧ NoDup (evaluation_precedence <$> fs) ∧ ∀ f, f ∈ fs → evaluation_precedence f ∉ used2).
Proof.
  revert table1 table2 used1 used2.
  induction fs as [|f fs IH]; intros table1 table2 used1 used2 Hm1 Hm2 Hty.
  { split; [done|]. split; [|done]. intros _. split_and!; try apply NoDup_nil_2; set_solver. }
  apply Forall_cons in Hty as [(Hi & Hp & _) Hty]. cbn [unique_full_filters_from].
  rewrite (Hm1 _ Hi), !fmap_cons, !NoDup_cons, !list_elem_of_fmap. case_bool_decide as Hu1.
  { split; [done|]. split; [done|]. intros ((_ & H) & _). exfalso. apply (H f); [apply list_elem_of_here|done]. }
  rewrite (Hm2 _ Hp). case_bool_decide as Hu2.
  { split; [done|]. split; [done|]. intros (_ & _ & H). exfalso. apply (H f); [apply list_elem_of_here|done]. }
  destruct (IH _ _ _ _ (marks_update 16 _ _ _ Hi Hm1) (marks_update 256 _ _ _ Hp Hm2) Hty)
    as [Hr ->]. split; [done|]. setoid_rewrite not_elem_of_cons. setoid_rewrite elem_of_cons.
  split.
  - intros ((N1 & H1) & N2 & H2). split_and!; try done.
    + intros (g & E & Hg). destruct (H1 g Hg). congruence.
    + intros g [->|Hg]; [done|]. by apply H1.
    + intros (g & E & Hg). destruct (H2 g Hg). congruence.
    + intros g [->|Hg]; [done|]. by apply H2.
  - intros (((F1 & N1) & H1) & (F2 & N2) & H2). split_and!; try done; intros g Hg; split; eauto.
Qed.

(** ** Parameters and sizes *)

Lemma tokens_paired_cons p ps :
  tokens_paired (p :: ps) ↔
  (∀ token, p = AuthorizationTokenParameter token →
   ∃ flow, ps !! 0%nat = Some (FlowIdentifierParameter flow)) ∧ tokens_paired ps.
Proof.
  unfold tokens_paired. split.
  - intros H. split; [intros token ->; by apply (H 0%nat token)|]. intros i. apply (H (S i)).
  - intros [Hp Hps] [|i] token Hi; [apply (Hp token); by injection Hi|by apply (Hps i token)].
Qed.

Lemma parameter_sequence_from_spec index ps :
  returns (parameter_sequence_from index ps)
  ∧ (parameter_sequence_from index ps = Ok () ↔ tokens_paired ps).
Proof.
  revert index. induction ps as [|p ps IH]; intros index.
  { split; [done|]. split; [|done]. intros _ i token Hi. by rewrite lookup_nil in Hi. }
  rewrite tokens_paired_cons. specialize (IH (index + 1)) as [Hr <-].
  destruct p as [token|flow|ids|value]; cbn [parameter_sequence_from];
    [|split; [done|naive_solver]..].
  destruct ps as [|[] ps]; (split; [done|]); split; try done; naive_solver.
Qed.

Lemma parameter_contents_len_nonneg p : 0 ≤ parameter_contents_len p.
Proof. destruct p; cbn; try apply len_nonneg. done. Qed.

(** Adding a header and then the contents, as both length loops do. *)
Lemma add_header_fits length header contents :
  0 ≤ contents →
  ok_or (checked_add length header ≫= λ value, checked_add value contents)
    (TftError_new TftLengthOverflow)
  = if length + (header + contents) <=? USIZE_MAX then Ok (length + (header + contents))
    else tft_fail TftLengthOverflow.
Proof.
  intros Hc. unfold checked_add. rewrite !Z.add_assoc.
  destruct (length + header <=? USIZE_MAX) eqn:E; cbn; [by case_match|]. to_prop.
  by rewrite (proj2 (Z.leb_gt _ _)) by lia.
Qed.

Lemma parameter_sizes_nonneg ps : 0 ≤ sum ((λ p, 2 + parameter_contents_len p) <$> ps).
Proof.
  induction ps as [|p ps IH]; [done|]. rewrite fmap_cons, sum_cons.
  pose proof (parameter_contents_len_nonneg p). lia.
Qed.

Lemma parameters_len_from_fits length ps :
  0 ≤ length ≤ USIZE_MAX →
  fits (parameters_len_from length ps) (length + sum ((λ p, 2 + parameter_contents_len p) <$> ps)).
Proof.
  unfold fits. revert length. induction ps as [|p ps IH]; intros length Hl.
  { cbn. rewrite Z.add_0_r. by rewrite (proj2 (Z.leb_le _ _)) by lia. }
  cbn [parameters_len_from]. pose proof (parameter_contents_len_nonneg p).
  rewrite add_header_fits, fmap_cons, sum_cons by done.
  pose proof (parameter_sizes_nonneg ps).
  destruct (length + (2 + parameter_contents_len p) <=? USIZE_MAX) eqn:E; to_prop; cbv beta iota.
  - rewrite IH by lia. by rewrite <- !Z.add_assoc.
  - by rewrite (proj2 (Z.leb_gt _ _)) by lia.
Qed.

Lemma filter_sizes_nonneg fs : 0 ≤ sum ((λ f, 3 + contents_size f) <$> fs).
Proof.
  induction fs as [|f fs IH]; [done|]. rewrite fmap_cons, sum_cons.
  assert (0 ≤ contents_size f) by apply sum_encoded_nonneg. lia.
Qed.

Lemma filters_len_from_fits length fs :
  0 ≤ length ≤ USIZE_MAX →
  fits (filters_len_from length fs) (length + sum ((λ f, 3 + contents_size f) <$> fs)).
Proof.
  unfold fits. revert length. induction fs as [|f fs IH]; intros length Hl.
  { cbn. rewrite Z.add_0_r. by rewrite (proj2 (Z.leb_le _ _)) by lia. }
  cbn [filters_len_from]. rewrite (filter_contents_len_fits f), fmap_cons, sum_cons.
  pose proof (filter_sizes_nonneg fs).
  assert (0 ≤ contents_size f) by apply sum_encoded_nonneg.
  destruct (contents_size f <=? USIZE_MAX) eqn:E; to_prop;
    [|by rewrite (proj2 (Z.leb_gt _ _)) by lia].
  rewrite add_header_fits by done.
  destruct (length + (3 + contents_size f) <=? USIZE_MAX) eqn:E'; to_prop; cbv beta iota.
  - rewrite IH by lia. by rewrite <- !Z.add_assoc.
  - by rewrite (proj2 (Z.leb_gt _ _)) by lia.
Qed.

Lemma filter_list_size_nonneg l : 0 ≤ filter_list_size l.
Proof. destruct l; [done|apply filter_sizes_nonneg|apply len_nonneg]. Qed.

Lemma value_size_pos t : 1 ≤ value_size t.
Proof.
  unfold value_size. pose proof (filter_list_size_nonneg (packet_filters t)).
  pose proof (parameter_sizes_nonneg (parameters t)).
  pose proof (len_nonneg (ignored_contents t)). lia.
Qed.

Lemma encoded_value_len_fits t : fits (encoded_value_len_internal t) (value_size t).
Proof.
  unfold encoded_value_len_internal, value_size.
  pose proof (filter_list_size_nonneg (packet_filters t)) as Hn.
  assert (Hf : fits match packet_filters t with
      | NoFilters => Ok TFT_MIN_VALUE_LEN
      | Filters filters => filters_len_from TFT_MIN_VALUE_LEN filters
      | Identifiers identifiers =>
          ok_or (checked_add TFT_MIN_VALUE_LEN (len identifiers)) (TftError_new TftLengthOverflow)
      end (1 + filter_list_size (packet_filters t))).
  { unfold fits. destruct (packet_filters t); [done|by apply filters_len_from_fits|].
    unfold checked_add, TFT_MIN_VALUE_LEN. cbn [filter_list_size].
    by destruct (1 + len _ <=? USIZE_MAX). }
  rewrite Hf. pose proof (parameter_sizes_nonneg (parameters t)).
  pose proof (len_nonneg (ignored_contents t)). unfold fits.
  set (n := filter_list_size (packet_filters t)) in *.
  destruct (1 + n <=? USIZE_MAX) eqn:E1; to_prop; [|by rewrite (proj2 (Z.leb_gt _ _)) by lia].
  rewrite (parameters_len_from_fits (1 + n) (parameters t)) by lia.
  destruct (1 + n + _ <=? USIZE_MAX) eqn:E2; to_prop; [|by rewrite (proj2 (Z.leb_gt _ _)) by lia].
  cbv beta iota. unfold checked_add. by destruct (_ + len _ <=? USIZE_MAX).
Qed.

(** ** Templates *)

(** [r] returns, and accepts exactly when [P] holds. *)
Definition decides {A} (r : outcome TftError A) (P : Prop) : Prop :=
  match r with
  | Ok _ => P
  | Err _ => ¬ P
  | Crash => False
  end.

Lemma decides_iff (r : outcome TftError ()) P : returns r → (r = Ok () ↔ P) → decides r P.
Proof. unfold returns. destruct r as [[]| |]; cbn; [|intros _ <-; done|done]. tauto. Qed.

Lemma decides_bind {A B} (r : outcome TftError A) (k : A → outcome TftError B) P Q :
  decides r P → (∀ a, P → decides (k a) Q) → decides (let? a := r in k a) (P ∧ Q).
Proof.
  destruct r as [a|e|]; cbn; [|tauto|done]. intros HP HQ. specialize (HQ a HP).
  destruct (k a); cbn in *; tauto.
Qed.

#[export] Instance decides_proper {A} (r : outcome TftError A) : Proper (iff ==> iff) (decides r).
Proof. intros P Q H. destruct r; cbn; tauto. Qed.

Lemma decides_given {A} (r : outcome TftError A) (P Q : Prop) :
  P → decides r Q → decides r (P ∧ Q).
Proof. intros HP. destruct r; cbn; tauto. Qed.

Lemma decides_if {A} b (a : A) e P :
  (b = false ↔ P) → decides (if b : bool then Err e else Ok a) P.
Proof. intros <-. by destruct b. Qed.

Lemma negb_decide_nil {A} (l : list A) : negb (bool_decide (l = [])) = false ↔ l = [].
Proof. rewrite negb_false_iff. apply bool_decide_eq_true. Qed.

Lemma filter_count_decides o n : decides (validate_filter_count o n) (1 ≤ n ≤ 15).
Proof.
  apply decides_if. rewrite negb_false_iff, andb_true_iff, !Z.leb_le.
  unfold TFT_MAX_PACKET_FILTERS. lia.
Qed.

Lemma unique_filters_decides fs :
  Forall filter_typed fs →
  decides (validate_unique_full_filters fs)
    (NoDup (pf_identifier <$> fs) ∧ NoDup (evaluation_precedence <$> fs)).
Proof.
  intros Hty. destruct (unique_full_filters_from_spec _ _ [] [] fs (marks_start 16)
    (marks_start 256) Hty) as [Hr Hi]. apply decides_iff; [done|]. unfold
    validate_unique_full_filters. rewrite Hi. set_solver.
Qed.

Lemma unique_identifiers_decides parameter ids :
  Forall identifier_typed ids → decides (validate_unique_identifiers ids parameter) (NoDup ids).
Proof.
  intros Hty. destruct (unique_identifiers_from_spec _ [] parameter ids (marks_start 16) Hty)
    as [Hr Hi]. apply decides_iff; [done|]. unfold validate_unique_identifiers.
  rewrite Hi. set_solver.
Qed.

(** [operation_valid] without what the filters need by themselves. *)
Definition shape_valid (t : TrafficFlowTemplate) : Prop :=
  match packet_filters t with
  | NoFilters => operation_valid t
  | Filters fs =>
      operation t ∈ [CreateNew; AddPacketFilters; ReplacePacketFilters]
      ∧ 1 ≤ len fs ≤ 15
      ∧ (NoDup (pf_identifier <$> fs) ∧ NoDup (evaluation_precedence <$> fs))
      ∧ ignored_contents t = []
  | Identifiers ids => operation_valid t
  end.

Lemma operation_decides t : template_typed t → decides (validate_operation t) (shape_valid t).
Proof.
  unfold template_typed, filter_list_typed, validate_operation, shape_valid, operation_valid.
  intros (Hty & _ & _). destruct (packet_filters t) as [|fs|ids].
  - destruct (operation t); try (cbn; tauto); apply decides_if;
      rewrite ?orb_false_iff, negb_decide_nil, ?bool_decide_eq_false; done.
  - assert (Hd : ∀ o, decides
      (let? _ := validate_filter_count o (len fs) in
       let? _ := validate_unique_full_filters fs in
       if negb (bool_decide (ignored_contents t = [])) then tft_fail UnexpectedTrailingData
       else Ok ())
      (1 ≤ len fs ≤ 15 ∧ (NoDup (pf_identifier <$> fs) ∧ NoDup (evaluation_precedence <$> fs))
       ∧ ignored_contents t = [])).
    { intros o. apply decides_bind; [apply filter_count_decides|]. intros _ _.
      apply decides_bind; [by apply unique_filters_decides|]. intros _ _.
      apply decides_if, negb_decide_nil. }
    destruct (operation t); try (cbn; set_solver); (apply decides_given; [set_solver|apply Hd]).
  - destruct (operation t); try (cbn; naive_solver). apply decides_given; [done|].
    apply decides_bind; [apply filter_count_decides|]. intros _ _.
    apply decides_bind; [by apply unique_identifiers_decides|]. intros _ _.
    apply decides_if, negb_decide_nil.
Qed.

Lemma filters_decides t :
  decides (match packet_filters t with Filters fs => validate_filters fs | _ => Ok () end)
    (match packet_filters t with Filters fs => Forall filter_valid fs | _ => True end).
Proof.
  destruct (packet_filters t) as [|fs|ids]; [done| |done].
  apply decides_iff; apply validate_filters_spec.
Qed.

Lemma length_decides t :
  decides
    (let? length := encoded_value_len_internal t in
     if negb ((TFT_MIN_VALUE_LEN <=? length) && (length <=? TFT_MAX_VALUE_LEN))
     then tft_fail (InvalidValueLength length TFT_MIN_VALUE_LEN TFT_MAX_VALUE_LEN)
     else Ok ()) (value_size t ≤ 255).
Proof.
  pose proof (value_size_pos t).
  rewrite (encoded_value_len_fits t).
  destruct (value_size t <=? USIZE_MAX) eqn:E; to_prop;
    [|unfold USIZE_MAX in E; cbn; lia].
  apply decides_if. rewrite negb_false_iff, andb_true_iff, !Z.leb_le.
  unfold TFT_MIN_VALUE_LEN, TFT_MAX_VALUE_LEN. lia.
Qed.

Lemma template_validate_spec t :
  template_typed t → decides (template_validate t) (template_valid t).
Proof.
  intros Hty. unfold template_validate.
  assert (Hv : template_valid t ↔
    match packet_filters t with Filters fs => Forall filter_valid fs | _ => True end
    ∧ tokens_paired (parameters t) ∧ shape_valid t ∧ value_size t ≤ 255).
  { unfold template_valid, shape_valid, operation_valid.
    destruct (packet_filters t); clear; tauto. }
  rewrite Hv. apply decides_bind; [apply filters_decides|]. intros _ _.
  apply decides_bind; [apply decides_iff; apply parameter_sequence_from_spec|]. intros _ _.
  apply decides_bind; [by apply operation_decides|]. intros _ _. apply length_decides.
Qed.

(** For every well-typed template [TrafficFlowTemplate::validate] returns,
    and it accepts exactly the valid ones: each operation has its own contents,
    one to fifteen filters or identifiers without a repeated identifier or
    precedence, each filter with components that are of different kinds and
    pairwise compatible in whatever order they are listed, every authorization
    token directly followed by a flow identifier, and at most 255 octets. *)
Theorem validate_exact t :
  template_typed t → decides (template_validate t) (template_valid t).
Proof. apply template_validate_spec. Qed.

(** A filter for DNS over UDP to one resolver, with an authorised flow. *)
Definition sample_filter : PacketFilter :=
  {| pf_identifier := 3;
     pf_direction := Bidirectional;
     evaluation_precedence := 7;
     components :=
       [Ipv4RemoteAddress [192; 0; 2; 53] [255; 255; 255; 255];
        ProtocolIdentifierNextHeader 17; SingleRemotePort 53; EtherType 0x0800] |}.

Definition sample_template : TrafficFlowTemplate :=
  {| operation := CreateNew;
     packet_filters := Filters [sample_filter];
     parameters :=
       [AuthorizationTokenParameter [1; 2; 3];
        FlowIdentifierParameter {| media_component_number := 258; ip_flow_number := 1 |};
        PacketFilterIdentifiersParameter [3];
        UnknownParameter {| unknown_identifier := 9; unknown_contents := [170] |}];
     ignored_contents := [] |}.

Lemma sample_typed : template_typed sample_template.
Proof.
  unfold template_typed, sample_template. cbn [packet_filters parameters ignored_contents].
  split_and!; [| |by constructor].
  - repeat constructor; cbn; unfold u8; lia.
  - apply Forall_cons_2; [|apply Forall_cons_2; [|apply Forall_cons_2; [|apply Forall_cons_2;
      [|apply Forall_nil_2]]]]; cbn [parameter_typed unknown_identifier unknown_contents].
    + split; [done|]. repeat constructor; cbn; lia.
    + by split.
    + split; [done|]. split; [repeat constructor; cbn; lia|]. apply NoDup_singleton.
    + split; [by split|]. split; [by right|]. split; [done|]. repeat constructor; cbn; lia.
Qed.

Lemma validate_exact_witness :
  template_validate sample_template = Ok () ∧ template_valid sample_template.
Proof.
  split; [vm_compute; reflexivity|].
  refine (_ (validate_exact sample_template sample_typed)).
  replace (template_validate sample_template) with (Ok (E := TftError) ())
    by (vm_compute; reflexivity). exact (λ H, H).
Defined.
