(* ===== verification/TftCodec.v ===== *)
(** Model of the Traffic Flow Template codec, [crates/opc-proto-tft/src/codec.rs]:
    the cursor and the element budget, the strict decoder, the encoder and the
    [opc_protocol] trait implementations. *)
From S2P Require Import Prelude.
From S2P Require Import Protocol.
From S2P Require Import TftModel.

Definition AUTHORIZATION_TOKEN_PARAMETER : Z := 0x01.
Definition FLOW_IDENTIFIER_PARAMETER : Z := 0x02.
Definition PACKET_FILTER_IDENTIFIER_PARAMETER : Z := 0x03.

Definition tft_spec_ref : SpecRef :=
  with_table (SpecRef_new "3gpp" "TS24008" "10.5.6.12") "10.5.162".

(** ** The cursor *)

Record Cursor := { input : bytes; cursor_offset : Z }.

Definition Cursor_new (input : bytes) : Cursor := {| input := input; cursor_offset := 0 |}.

Definition cursor_is_empty (c : Cursor) : bool := bool_decide (input c = []).

Abbreviation fail_at kind off := (Err (error_at off (TftError_new kind))).

Definition advance (c : Cursor) (rest : bytes) (n : Z) : outcome TftError Cursor :=
  match checked_add (cursor_offset c) n with
  | Some off => Ok {| input := rest; cursor_offset := off |}
  | None => fail_at TftLengthOverflow (cursor_offset c)
  end.

Definition read_u8 (c : Cursor) (field : string) : outcome TftError (Z * Cursor) :=
  match input c with
  | value :: rest =>
      let? c := advance c rest 1 in
      Ok (value, c)
  | [] => fail_at (TftTruncated field) (cursor_offset c)
  end.

Definition take_bytes (c : Cursor) (length : Z) (field : string)
    : outcome TftError (bytes * Cursor) :=
  if len (input c) <? length then fail_at (TftTruncated field) (cursor_offset c)
  else
  let? c' := advance c (drop (Z.to_nat length) (input c)) length in
  Ok (take (Z.to_nat length) (input c), c').

Definition take_component (c : Cursor) (component_type expected : Z)
    : outcome TftError (bytes * Cursor) :=
  if len (input c) <? expected
  then fail_at (InvalidComponentLength component_type expected (len (input c))) (cursor_offset c)
  else take_bytes c expected "packet filter component value".

(** ** The element budget *)

Record ElementBudget := { used : Z; limit : Z }.

Definition ElementBudget_new (limit : Z) : ElementBudget := {| used := 0; limit := limit |}.

Definition consume (b : ElementBudget) (off : Z) : outcome TftError ElementBudget :=
  let? used :=
    ok_or (checked_add (used b) 1) (error_at off (TftError_new TftLengthOverflow)) in
  if limit b <? used then fail_at (ElementLimitExceeded (limit b)) off
  else Ok {| used := used; limit := limit b |}.

(** ** Components *)

(** [copy_array::<N>]. *)
Definition copy_array (n : Z) (l : bytes) (field : string) (off : Z) : outcome TftError bytes :=
  if len l =? n then Ok l else fail_at (TftTruncated field) off.

(** Destructuring an array of the named length. *)
Definition array2 (l : bytes) : outcome TftError (Z * Z) :=
  match l with [a; b] => Ok (a, b) | _ => Crash end.
Definition array3 (l : bytes) : outcome TftError (Z * Z * Z) :=
  match l with [a; b; c] => Ok (a, b, c) | _ => Crash end.
Definition array4 (l : bytes) : outcome TftError (Z * Z * Z * Z) :=
  match l with [a; b; c; d] => Ok (a, b, c, d) | _ => Crash end.
Definition array8 (l : bytes) : outcome TftError ((Z * Z * Z * Z) * (Z * Z * Z * Z)) :=
  match l with
  | [a; b; c; d; e; f; g; h] => Ok ((a, b, c, d), (e, f, g, h))
  | _ => Crash
  end.

Definition read_component_u8 (c : Cursor) (component_type : Z) : outcome TftError (Z * Cursor) :=
  let? (raw, c) := take_component c component_type 1 in
  match raw with
  | value :: _ => Ok (value, c)
  | [] => fail_at (InvalidComponentLength component_type 1 (len raw)) (cursor_offset c)
  end.

(** The [raw.get(..16)] and [raw.get(16..)] of the IPv6 arms. *)
Definition split_16 (raw : bytes) (component_type expected off : Z)
    : outcome TftError (bytes * bytes) :=
  if len raw <? 16 then fail_at (InvalidComponentLength component_type expected (len raw)) off
  else Ok (take 16 raw, drop 16 raw).

(** A two-octet component value. *)
Definition read_component_u16 (c : Cursor) (component_type : Z) (field : string) (off : Z)
    : outcome TftError (Z * Z * Cursor) :=
  let? (raw, c) := take_component c component_type 2 in
  let? value := copy_array 2 raw field off in
  let? (a, b) := array2 value in
  Ok (a, b, c).

(** The [match kind] of [decode_component], by the shape of the value. *)
Definition decode_ipv4 (c : Cursor) (component_type off : Z)
    : outcome TftError (bytes * bytes * Cursor) :=
  let? (raw, c) := take_component c component_type 8 in
  let? value := copy_array 8 raw "IPv4 address and mask" off in
  let? ((a0, a1, a2, a3), (m0, m1, m2, m3)) := array8 value in
  Ok ([a0; a1; a2; a3], [m0; m1; m2; m3], c).

Definition decode_ipv6 (c : Cursor) (component_type off : Z)
    : outcome TftError (bytes * bytes * Cursor) :=
  let? (raw, c) := take_component c component_type 32 in
  let? (address_raw, mask_raw) := split_16 raw component_type 32 off in
  let? address := copy_array 16 address_raw "IPv6 remote address" off in
  let? mask := copy_array 16 mask_raw "IPv6 remote mask" off in
  Ok (address, mask, c).

Definition decode_ipv6_prefix (c : Cursor) (component_type off : Z)
    : outcome TftError (Ipv6AddressPrefix * Cursor) :=
  let? (raw, c) := take_component c component_type 17 in
  let? (address_raw, rest) := split_16 raw component_type 17 off in
  let? prefix_length :=
    ok_or (head rest) (error_at off (TftError_new (InvalidComponentLength component_type 17 (len raw)))) in
  let? address := copy_array 16 address_raw "IPv6 address" off in
  let? value := map_err (error_at off) (Ipv6AddressPrefix_new address prefix_length) in
  Ok (value, c).

Definition decode_port_range (c : Cursor) (component_type off : Z)
    : outcome TftError (PortRange * Cursor) :=
  let? (raw, c) := take_component c component_type 4 in
  let? value := copy_array 4 raw "port range" off in
  let? (low0, low1, high0, high1) := array4 value in
  let? range :=
    map_err (error_at off)
      (PortRange_new (u16_from_be_bytes low0 low1) (u16_from_be_bytes high0 high1)) in
  Ok (range, c).

Definition decode_spi (c : Cursor) (component_type off : Z) : outcome TftError (Z * Cursor) :=
  let? (raw, c) := take_component c component_type 4 in
  let? value := copy_array 4 raw "security parameter index" off in
  let? (b0, b1, b2, b3) := array4 value in
  Ok (u32_from_be_bytes b0 b1 b2 b3, c).

Definition decode_flow_label (c : Cursor) (component_type off : Z)
    : outcome TftError (Ipv6FlowLabel * Cursor) :=
  let? (raw, c) := take_component c component_type 3 in
  let? value := copy_array 3 raw "IPv6 flow label" off in
  let? (high, middle, low) := array3 value in
  if negb (Z.land high 0xf0 =? 0) then fail_at (NonZeroSpareBits "IPv6 flow label") off
  else
  let value := u32_from_be_bytes 0 high middle low in
  let? label := map_err (error_at off) (Ipv6FlowLabel_new value) in
  Ok (label, c).

Definition decode_mac (c : Cursor) (component_type off : Z) : outcome TftError (bytes * Cursor) :=
  let? (raw, c) := take_component c component_type 6 in
  let? value := copy_array 6 raw "MAC address" off in
  Ok (value, c).

Definition decode_vlan_id (c : Cursor) (component_type off : Z)
    : outcome TftError (VlanIdentifier * Cursor) :=
  let? (high, low, c) := read_component_u16 c component_type "VLAN identifier" off in
  if negb (Z.land high 0xf0 =? 0) then fail_at (NonZeroSpareBits "VLAN identifier") off
  else
  let? value := map_err (error_at off) (VlanIdentifier_new (u16_from_be_bytes high low)) in
  Ok (value, c).

Definition decode_vlan_priority (c : Cursor) (component_type off : Z)
    : outcome TftError (VlanPriority * Cursor) :=
  let? (value, c) := read_component_u8 c component_type in
  if negb (Z.land value 0xf0 =? 0) then fail_at (NonZeroSpareBits "VLAN PCP/DEI") off
  else
  let? priority :=
    map_err (error_at off)
      (VlanPriority_new (Z.land (Z.shiftr value 1) 0x07) (negb (Z.land value 0x01 =? 0))) in
  Ok (priority, c).

Definition decode_component_value (kind : PacketFilterComponentKind) (c : Cursor)
    (component_type off : Z) : outcome TftError (PacketFilterComponent * Cursor) :=
  match kind with
  | KIpv4RemoteAddress =>
      let? (address, mask, c) := decode_ipv4 c component_type off in
      Ok (Ipv4RemoteAddress address mask, c)
  | KIpv4LocalAddress =>
      let? (address, mask, c) := decode_ipv4 c component_type off in
      Ok (Ipv4LocalAddress address mask, c)
  | KIpv6RemoteAddress =>
      let? (address, mask, c) := decode_ipv6 c component_type off in
      Ok (Ipv6RemoteAddress address mask, c)
  | KIpv6RemoteAddressPrefix =>
      let? (value, c) := decode_ipv6_prefix c component_type off in
      Ok (Ipv6RemoteAddressPrefix value, c)
  | KIpv6LocalAddressPrefix =>
      let? (value, c) := decode_ipv6_prefix c component_type off in
      Ok (Ipv6LocalAddressPrefix value, c)
  | KProtocolIdentifierNextHeader =>
      let? (value, c) := read_component_u8 c component_type in
      Ok (ProtocolIdentifierNextHeader value, c)
  | KSingleLocalPort =>
      let? (a, b, c) := read_component_u16 c component_type "single port" off in
      Ok (SingleLocalPort (u16_from_be_bytes a b), c)
  | KSingleRemotePort =>
      let? (a, b, c) := read_component_u16 c component_type "single port" off in
      Ok (SingleRemotePort (u16_from_be_bytes a b), c)
  | KLocalPortRange =>
      let? (range, c) := decode_port_range c component_type off in
      Ok (LocalPortRange range, c)
  | KRemotePortRange =>
      let? (range, c) := decode_port_range c component_type off in
      Ok (RemotePortRange range, c)
  | KSecurityParameterIndex =>
      let? (value, c) := decode_spi c component_type off in
      Ok (SecurityParameterIndex value, c)
  | KTypeOfServiceTrafficClass =>
      let? (value, mask, c) :=
        read_component_u16 c component_type "type of service or traffic class" off in
      Ok (TypeOfServiceTrafficClass value mask, c)
  | KFlowLabel =>
      let? (value, c) := decode_flow_label c component_type off in
      Ok (FlowLabel value, c)
  | KDestinationMacAddress =>
      let? (value, c) := decode_mac c component_type off in
      Ok (DestinationMacAddress value, c)
  | KSourceMacAddress =>
      let? (value, c) := decode_mac c component_type off in
      Ok (SourceMacAddress value, c)
  | KCustomerVlanId =>
      let? (value, c) := decode_vlan_id c component_type off in
      Ok (CustomerVlanId value, c)
  | KServiceVlanId =>
      let? (value, c) := decode_vlan_id c component_type off in
      Ok (ServiceVlanId value, c)
  | KCustomerVlanPriority =>
      let? (value, c) := decode_vlan_priority c component_type off in
      Ok (CustomerVlanPriority value, c)
  | KServiceVlanPriority =>
      let? (value, c) := decode_vlan_priority c component_type off in
      Ok (ServiceVlanPriority value, c)
  | KEtherType =>
      let? (a, b, c) := read_component_u16 c component_type "EtherType" off in
      Ok (EtherType (u16_from_be_bytes a b), c)
  end.

Definition decode_component (c : Cursor) (b : ElementBudget)
    : outcome TftError (PacketFilterComponent * Cursor * ElementBudget) :=
  let component_offset := cursor_offset c in
  let? b := consume b component_offset in
  let? (component_type, c) := read_u8 c "packet filter component type" in
  let? kind := map_err (error_at component_offset) (from_type_code component_type) in
  let? (component, c) := decode_component_value kind c component_type component_offset in
  Ok (component, c, b).

(** The [while !component_cursor.is_empty()] loop. *)
Fixpoint decode_components (fuel : nat) (c : Cursor) (b : ElementBudget)
    : outcome TftError (list PacketFilterComponent * ElementBudget) :=
  if cursor_is_empty c then Ok ([], b)
  else
  match fuel with
  | O => Crash
  | S fuel =>
      let? (component, c, b) := decode_component c b in
      let? (components, b) := decode_components fuel c b in
      Ok (component :: components, b)
  end.

(** ** Packet filters *)

Definition decode_full_filter (c : Cursor) (b : ElementBudget)
    : outcome TftError (PacketFilter * Cursor * ElementBudget) :=
  let filter_offset := cursor_offset c in
  let? b := consume b filter_offset in
  let? (identifier_direction, c) := read_u8 c "packet filter identifier and direction" in
  if negb (Z.land identifier_direction 0xc0 =? 0)
  then fail_at (NonZeroSpareBits "packet filter identifier and direction") filter_offset
  else
  let? identifier :=
    map_err (error_at filter_offset)
      (PacketFilterIdentifier_new (Z.land identifier_direction 0x0f)) in
  let direction := direction_from_code (Z.land (Z.shiftr identifier_direction 4) 0x03) in
  let? (precedence, c) := read_u8 c "packet filter evaluation precedence" in
  let? (contents_length, c) := read_u8 c "packet filter contents length" in
  if contents_length =? 0 then fail_at EmptyPacketFilterContents (cursor_offset c)
  else
  let contents_offset := cursor_offset c in
  let? (contents, c) := take_bytes c contents_length "packet filter contents" in
  let? (components, b) :=
    decode_components (length contents)
      {| input := contents; cursor_offset := contents_offset |} b in
  let? filter :=
    map_err (error_at filter_offset)
      (PacketFilter_new identifier direction precedence components) in
  Ok (filter, c, b).

Definition validate_wire_filter_count (operation : TftOperation) (filter_count : Z)
    : outcome TftError () :=
  if negb ((1 <=? filter_count) && (filter_count <=? 15))
  then fail_at (InvalidPacketFilterCount (operation_code operation) filter_count) 0
  else Ok ().

(** The two [for _ in 0..filter_count] loops. *)
Fixpoint decode_filters (count : nat) (c : Cursor) (b : ElementBudget)
    : outcome TftError (list PacketFilter * Cursor * ElementBudget) :=
  match count with
  | O => Ok ([], c, b)
  | S count =>
      let? (filter, c, b) := decode_full_filter c b in
      let? (filters, c, b) := decode_filters count c b in
      Ok (filter :: filters, c, b)
  end.

Definition decode_identifier (octet : Z) (field : string) (off : Z)
    : outcome TftError PacketFilterIdentifier :=
  if negb (Z.land octet 0xf0 =? 0) then fail_at (NonZeroSpareBits field) off
  else map_err (error_at off) (PacketFilterIdentifier_new (Z.land octet 0x0f)).

Fixpoint decode_identifiers (count : nat) (c : Cursor) (b : ElementBudget)
    : outcome TftError (list PacketFilterIdentifier * Cursor * ElementBudget) :=
  match count with
  | O => Ok ([], c, b)
  | S count =>
      let off := cursor_offset c in
      let? b := consume b off in
      let? (octet, c) := read_u8 c "packet filter identifier" in
      let? identifier := decode_identifier octet "packet filter identifier" off in
      let? (identifiers, c, b) := decode_identifiers count c b in
      Ok (identifier :: identifiers, c, b)
  end.

(** ** Parameters *)

(** The loop over the octets of a packet-filter-identifier parameter; [index] is
    the position of the first octet of [contents]. *)
Fixpoint decode_parameter_identifiers (contents_offset index : Z) (contents : bytes)
    (b : ElementBudget) : outcome TftError (list PacketFilterIdentifier * ElementBudget) :=
  match contents with
  | [] => Ok ([], b)
  | octet :: contents =>
      let? off := ok_or (checked_add contents_offset index) (TftError_new TftLengthOverflow) in
      let? b := consume b off in
      let? identifier := decode_identifier octet "packet-filter-identifier parameter" off in
      let? (identifiers, b) :=
        decode_parameter_identifiers contents_offset (index + 1) contents b in
      Ok (identifier :: identifiers, b)
  end.

(** The [match identifier] of [decode_parameters]. *)
Definition decode_parameter (identifier : Z) (contents : bytes) (contents_offset : Z)
    (b : ElementBudget) : outcome TftError (TftParameter * ElementBudget) :=
  if identifier =? AUTHORIZATION_TOKEN_PARAMETER then
    let? token := map_err (error_at contents_offset) (AuthorizationToken_new contents) in
    Ok (AuthorizationTokenParameter token, b)
  else if identifier =? FLOW_IDENTIFIER_PARAMETER then
    if negb (len contents =? 4)
    then fail_at (InvalidParameterLength identifier (len contents) 4 4) contents_offset
    else
    let? value := copy_array 4 contents "flow identifier" contents_offset in
    let? (media0, media1, flow0, flow1) := array4 value in
    Ok (FlowIdentifierParameter
          {| media_component_number := u16_from_be_bytes media0 media1;
             ip_flow_number := u16_from_be_bytes flow0 flow1 |}, b)
  else if identifier =? PACKET_FILTER_IDENTIFIER_PARAMETER then
    if bool_decide (contents = [])
    then fail_at (InvalidParameterLength identifier 0 1 255) contents_offset
    else
    let? (identifiers, b) := decode_parameter_identifiers contents_offset 0 contents b in
    let? value :=
      map_err (error_at contents_offset) (PacketFilterIdentifierList_new identifiers) in
    Ok (PacketFilterIdentifiersParameter value, b)
  else
    let? value :=
      map_err (error_at contents_offset) (UnknownTftParameter_new identifier contents) in
    Ok (UnknownParameter value, b).

Fixpoint decode_parameters (fuel : nat) (c : Cursor) (b : ElementBudget)
    : outcome TftError (list TftParameter * ElementBudget) :=
  if cursor_is_empty c then Ok ([], b)
  else
  match fuel with
  | O => Crash
  | S fuel =>
      let? b := consume b (cursor_offset c) in
      let? (identifier, c) := read_u8 c "TFT parameter identifier" in
      let? (contents_length, c) := read_u8 c "TFT parameter length" in
      let contents_offset := cursor_offset c in
      let? (contents, c) := take_bytes c contents_length "TFT parameter contents" in
      let? (parameter, b) := decode_parameter identifier contents contents_offset b in
      let? (parameters, b) := decode_parameters fuel c b in
      Ok (parameter :: parameters, b)
  end.

(** ** The decoder *)

(** The [let packet_filters = match operation]. *)
Definition decode_packet_filters (operation : TftOperation) (filter_count : Z) (c : Cursor)
    (b : ElementBudget) : outcome TftError (PacketFilterList * Cursor * ElementBudget) :=
  match operation with
  | CreateNew | AddPacketFilters | ReplacePacketFilters =>
      let? _ := validate_wire_filter_count operation filter_count in
      let? (filters, c, b) := decode_filters (Z.to_nat filter_count) c b in
      Ok (Filters filters, c, b)
  | DeletePacketFilters =>
      let? _ := validate_wire_filter_count operation filter_count in
      let? (identifiers, c, b) := decode_identifiers (Z.to_nat filter_count) c b in
      Ok (Identifiers identifiers, c, b)
  | DeleteExisting | NoOperation =>
      if negb (filter_count =? 0)
      then fail_at (InvalidOperationHeader (operation_code operation)) 0
      else Ok (NoFilters, c, b)
  | Ignore => Ok (NoFilters, c, b)
  end.

Definition decode_parameter_list (parameters_present : bool) (c : Cursor) (b : ElementBudget)
    : outcome TftError (list TftParameter) :=
  if parameters_present then
    if cursor_is_empty c then fail_at EmptyParameterList (cursor_offset c)
    else
    let? (parameters, _) := decode_parameters (length (input c)) c b in
    Ok parameters
  else if negb (cursor_is_empty c) then fail_at UnexpectedTrailingData (cursor_offset c)
  else Ok [].

(** The [TftOperation::Ignore] arm. *)
Definition decode_ignore (parameters_present : bool) (filter_count : Z) (c : Cursor)
    : outcome TftError TrafficFlowTemplate :=
  if parameters_present || negb (filter_count =? 0)
  then fail_at (InvalidOperationHeader (operation_code Ignore)) 0
  else
  let? (ignored, _) := take_bytes c (len (input c)) "ignored TFT contents" in
  map_err (error_at 0) (ignore_with_contents ignored).

Definition decode_value_with_context (data : bytes) (context : DecodeContext)
    : outcome TftError TrafficFlowTemplate :=
  if negb ((TFT_MIN_VALUE_LEN <=? len data) && (len data <=? TFT_MAX_VALUE_LEN))
  then fail_at (InvalidValueLength (len data) TFT_MIN_VALUE_LEN TFT_MAX_VALUE_LEN) 0
  else if max_message_len context <? len data
  then fail_at (InvalidValueLength (len data) 0 (max_message_len context)) 0
  else
  let? (operation_octet, c) := read_u8 (Cursor_new data) "TFT operation header" in
  let? operation := map_err (error_at 0) (operation_from_code (Z.shiftr operation_octet 5)) in
  let parameters_present := negb (Z.land operation_octet 0x10 =? 0) in
  let filter_count := Z.land operation_octet 0x0f in
  if bool_decide (operation = Ignore) then decode_ignore parameters_present filter_count c
  else
  let? (packet_filters, c, b) :=
    decode_packet_filters operation filter_count c (ElementBudget_new (max_ies context)) in
  let? parameters := decode_parameter_list parameters_present c b in
  map_err (error_at 0) (TrafficFlowTemplate_new operation packet_filters parameters).

Definition value_context : DecodeContext :=
  let context := DecodeContext_conservative in
  {| protocol_version := protocol_version context;
     max_depth := max_depth context;
     max_ies := TFT_MAX_VALUE_LEN;
     max_message_len := TFT_MAX_VALUE_LEN;
     unknown_ie_policy := unknown_ie_policy context;
     duplicate_ie_policy := duplicate_ie_policy context;
     validation_level := validation_level context;
     allocation_budget := allocation_budget context |}.

Definition decode_value (data : bytes) : outcome TftError TrafficFlowTemplate :=
  decode_value_with_context data value_context.

(** ** The encoder *)

Definition encode_component (c : PacketFilterComponent) : bytes :=
  type_code (component_kind c) ::
  match c with
  | Ipv4RemoteAddress address mask | Ipv4LocalAddress address mask => address ++ mask
  | Ipv6RemoteAddress address mask => address ++ mask
  | Ipv6RemoteAddressPrefix value | Ipv6LocalAddressPrefix value =>
      prefix_address value ++ [prefix_length value]
  | ProtocolIdentifierNextHeader value => [value]
  | SingleLocalPort value | SingleRemotePort value => u16_to_be_bytes value
  | LocalPortRange value | RemotePortRange value =>
      u16_to_be_bytes (low value) ++ u16_to_be_bytes (high value)
  | SecurityParameterIndex value => u32_to_be_bytes value
  | TypeOfServiceTrafficClass value mask => [value; mask]
  | FlowLabel value => drop 1 (u32_to_be_bytes value)
  | DestinationMacAddress value | SourceMacAddress value => value
  | CustomerVlanId value | ServiceVlanId value => u16_to_be_bytes value
  | CustomerVlanPriority value | ServiceVlanPriority value =>
      [Z.lor (Z.shiftl (pcp value) 1) (if drop_eligible value then 1 else 0)]
  | EtherType value => u16_to_be_bytes value
  end.

(** [u8::try_from]. *)
Definition u8_try_from (n : Z) : outcome TftError Z :=
  if n <=? 255 then Ok n else tft_fail TftLengthOverflow.

Definition encode_filter (f : PacketFilter) : outcome TftError bytes :=
  let? contents_len := filter_contents_len f in
  let? contents_len := u8_try_from contents_len in
  Ok ([Z.lor (Z.shiftl (direction_code (pf_direction f)) 4) (pf_identifier f);
       evaluation_precedence f; contents_len] ++ mjoin (encode_component <$> components f)).

Definition encode_parameter (p : TftParameter) : outcome TftError bytes :=
  let? contents_len := u8_try_from (parameter_contents_len p) in
  Ok ([parameter_identifier p; contents_len] ++
      match p with
      | AuthorizationTokenParameter token => token
      | FlowIdentifierParameter flow =>
          u16_to_be_bytes (media_component_number flow) ++ u16_to_be_bytes (ip_flow_number flow)
      | PacketFilterIdentifiersParameter value => value
      | UnknownParameter value => unknown_contents value
      end).

(** A [for] loop that appends what each element encodes to. *)
Fixpoint encode_all {A} (encode_one : A → outcome TftError bytes) (l : list A)
    : outcome TftError bytes :=
  match l with
  | [] => Ok []
  | x :: l =>
      let? one := encode_one x in
      let? rest := encode_all encode_one l in
      Ok (one ++ rest)
  end.

Definition encode_value_inner (t : TrafficFlowTemplate) : outcome TftError bytes :=
  let? count := u8_try_from (filter_list_len (packet_filters t)) in
  let operation_octet := Z.shiftl (operation_code (operation t)) 5 in
  let operation_octet :=
    if bool_decide (parameters t = []) then operation_octet else Z.lor operation_octet 0x10 in
  let operation_octet := Z.lor operation_octet count in
  let? packet_filters :=
    match packet_filters t with
    | NoFilters => Ok []
    | Identifiers identifiers => Ok identifiers
    | Filters filters => encode_all encode_filter filters
    end in
  let? parameters := encode_all encode_parameter (parameters t) in
  Ok (operation_octet :: packet_filters ++ parameters ++ ignored_contents t).

Definition encoded_value_len (t : TrafficFlowTemplate) : outcome TftError Z :=
  let? _ := template_validate t in
  encoded_value_len_internal t.

(** [encode_value]: the destination after the call, and the result. *)
Definition encode_value (t : TrafficFlowTemplate) (destination : bytes)
    : bytes * outcome TftError () :=
  match
    let? expected_len := encoded_value_len t in
    let? encoded := encode_value_inner t in
    if negb (len encoded =? expected_len) then tft_fail EncodedLengthMismatch else Ok encoded
  with
  | Ok encoded => (destination ++ encoded, Ok ())
  | Err e => (destination, Err e)
  | Crash => (destination, Crash)
  end.

(** ** The [opc_protocol] traits *)

Definition protocol_decode_error (e : TftError) : DecodeError :=
  let off := default 0 (tft_offset e) in
  let code :=
    match tft_kind e with
    | TftTruncated _ => Truncated
    | TftLengthOverflow => LengthOverflow
    | ElementLimitExceeded _ => IeCountExceeded
    | InvalidValueLength actual _ maximum =>
        if maximum <? actual then MessageLengthExceeded else InvalidLength "invalid TFT length"
    | InvalidComponentLength _ _ _ | InvalidParameterLength _ _ _ _ =>
        InvalidLength "invalid TFT length"
    | ReservedOperation value => InvalidEnumValue "tft_operation" value
    | ReservedComponentType component_type => InvalidEnumValue "tft_component_type" component_type
    | _ => Structural "invalid traffic flow template"
    end in
  with_spec_ref (DecodeError_new code off) tft_spec_ref.

Definition protocol_encode_error (e : TftError) : EncodeError :=
  let code :=
    match tft_kind e with
    | TftLengthOverflow => EncodeLengthOverflow
    | _ => EncodeStructural "invalid traffic flow template"
    end in
  encode_with_spec_ref (EncodeError_new code) tft_spec_ref.

(** [BorrowDecode::decode]: what is left of the input, and the value. *)
Definition tft_decode (data : bytes) (context : DecodeContext)
    : outcome DecodeError (bytes * TrafficFlowTemplate) :=
  let? value := map_err protocol_decode_error (decode_value_with_context data context) in
  Ok ([], value).

Definition tft_decode_owned (data : bytes) (context : DecodeContext)
    : outcome DecodeError TrafficFlowTemplate :=
  map_err protocol_decode_error (decode_value_with_context data context).

Definition tft_wire_len (t : TrafficFlowTemplate) (context : EncodeContext)
    : outcome EncodeError Z :=
  let? length := map_err protocol_encode_error (encoded_value_len t) in
  let? _ := check_capacity context length in
  Ok length.

Definition tft_encode (t : TrafficFlowTemplate) (destination : bytes) (context : EncodeContext)
    : bytes * outcome EncodeError () :=
  match
    let? length := map_err protocol_encode_error (encoded_value_len t) in
    check_capacity context length
  with
  | Ok _ =>
      let '(destination, r) := encode_value t destination in
      (destination, map_err protocol_encode_error r)
  | Err e => (destination, Err e)
  | Crash => (destination, Crash)
  end.
