(* ===== verification/TftRoundtrip.v ===== *)
(** The Traffic Flow Template decoder and encoder are inverse to each other: the
    decoder accepts exactly the encodings of valid templates that keep within
    the caller's limits. *)
From S2P Require Import Prelude.
From S2P Require Import Protocol.
From S2P Require Import TftModel.
From S2P Require Import TftValid.
From S2P Require Import TftCodec.

(** ** The octets of a value *)

Definition component_body (c : PacketFilterComponent) : bytes := tail (encode_component c).

Definition filter_wire (f : PacketFilter) : bytes :=
  [Z.lor (Z.shiftl (direction_code (pf_direction f)) 4) (pf_identifier f);
   evaluation_precedence f; contents_size f] ++ mjoin (encode_component <$> components f).

Definition parameter_body (p : TftParameter) : bytes :=
  match p with
  | AuthorizationTokenParameter token => token
  | FlowIdentifierParameter flow =>
      u16_to_be_bytes (media_component_number flow) ++ u16_to_be_bytes (ip_flow_number flow)
  | PacketFilterIdentifiersParameter value => value
  | UnknownParameter value => unknown_contents value
  end.

Definition parameter_wire (p : TftParameter) : bytes :=
  [parameter_identifier p; parameter_contents_len p] ++ parameter_body p.

Definition filters_wire (l : PacketFilterList) : bytes :=
  match l with
  | NoFilters => []
  | Identifiers ids => ids
  | Filters fs => mjoin (filter_wire <$> fs)
  end.

Definition header_octet (o : TftOperation) (with_parameters : bool) (count : Z) : Z :=
  Z.lor (if with_parameters then Z.lor (Z.shiftl (operation_code o) 5) 0x10
         else Z.shiftl (operation_code o) 5) count.

Definition template_wire (t : TrafficFlowTemplate) : bytes :=
  header_octet (operation t) (negb (bool_decide (parameters t = [])))
    (filter_list_len (packet_filters t))
  :: filters_wire (packet_filters t) ++ mjoin (parameter_wire <$> parameters t)
  ++ ignored_contents t.

(** What a value takes of the element budget. *)
Definition filter_cost (f : PacketFilter) : Z := 1 + len (components f).

Definition parameter_cost (p : TftParameter) : Z :=
  match p with
  | PacketFilterIdentifiersParameter ids => 1 + len ids
  | _ => 1
  end.

Definition filter_list_cost (l : PacketFilterList) : Z :=
  match l with
  | NoFilters => 0
  | Identifiers ids => len ids
  | Filters fs => sum (filter_cost <$> fs)
  end.

Definition element_count (t : TrafficFlowTemplate) : Z :=
  filter_list_cost (packet_filters t) + sum (parameter_cost <$> parameters t).

(** ** Reasoning about outcomes *)

(** [r] returns, and an accepted value has [P]. *)
Definition sound {A} (r : outcome TftError A) (P : A → Prop) : Prop :=
  match r with
  | Ok a => P a
  | Err _ => True
  | Crash => False
  end.

Lemma sound_bind {A B} (r : outcome TftError A) (k : A → outcome TftError B) P Q :
  sound r P → (∀ a, P a → sound (k a) Q) → sound (let? a := r in k a) Q.
Proof. destruct r; cbn; auto. Qed.

Lemma sound_mono {A} (r : outcome TftError A) P Q : (∀ a, P a → Q a) → sound r P → sound r Q.
Proof. destruct r; cbn; auto. Qed.

Lemma sound_map_err {A} f (r : outcome TftError A) P : sound r P → sound (map_err f r) P.
Proof. by destruct r. Qed.

Lemma sound_if {A} (b : bool) e (r : outcome TftError A) P :
  (b = false → sound r P) → sound (if b then Err e else r) P.
Proof. destruct b; cbn; auto. Qed.

Ltac sound_step :=
  lazymatch goal with
  | |- sound (Ok _) _ => cbn [sound]
  | |- sound (Err _) _ => exact I
  | |- sound (if _ then Err _ else _) _ => apply sound_if; intros ?
  | |- sound (map_err _ _) _ => apply sound_map_err
  | |- sound (match _ with Ok _ => _ | Err _ => _ | Crash => _ end) _ => eapply sound_bind
  end.

(** ** Cursor and budget *)

(** [c'] is [c] after reading [l]. *)
Definition reads (c : Cursor) (l : bytes) (c' : Cursor) : Prop :=
  input c = l ++ input c' ∧ cursor_offset c' = cursor_offset c + len l.

Lemma reads_trans c l c' k c'' : reads c l c' → reads c' k c'' → reads c (l ++ k) c''.
Proof.
  intros [H1 H2] [H3 H4]. unfold reads. rewrite H1, H3, H4, H2, <- app_assoc.
  split; [done|]. len_lia.
Qed.

Lemma reads_nil c : reads c [] c.
Proof. split; [done|]. rewrite len_nil. lia. Qed.

Lemma read_u8_sound c field : sound (read_u8 c field) (λ r, reads c [r.1] r.2).
Proof.
  unfold read_u8, advance. destruct (input c) as [|v rest] eqn:E; [done|].
  unfold checked_add. by repeat case_match; simplify_eq.
Qed.

Lemma take_bytes_sound c n field :
  0 ≤ n → sound (take_bytes c n field) (λ r, reads c r.1 r.2 ∧ len r.1 = n).
Proof.
  intros Hn. unfold take_bytes. sound_step. to_prop. unfold advance, checked_add.
  destruct (_ <=? USIZE_MAX); [|done]. cbn. unfold reads. cbn. rewrite take_drop. unfold len in *.
  rewrite length_take. split; [split; [done|lia]|lia].
Qed.

Lemma take_component_sound c t n :
  0 ≤ n → sound (take_component c t n) (λ r, reads c r.1 r.2 ∧ len r.1 = n).
Proof. intros Hn. unfold take_component. sound_step. by apply take_bytes_sound. Qed.

Lemma copy_array_sound n l field off : sound (copy_array n l field off) (λ v, v = l ∧ len l = n).
Proof. unfold copy_array. case_match; to_prop; done. Qed.

(** [b'] is [b] with [n] more elements, within the limit if [b] was. *)
Definition spends (b : ElementBudget) (n : Z) (b' : ElementBudget) : Prop :=
  used b' = used b + n ∧ limit b' = limit b ∧ (used b ≤ limit b → used b' ≤ limit b').

Lemma spends_0 b : spends b 0 b.
Proof. unfold spends. lia. Qed.

Lemma spends_trans b n b' k b'' m :
  spends b n b' → spends b' k b'' → m = n + k → spends b m b''.
Proof. unfold spends. intros. lia. Qed.

Lemma consume_sound b off : sound (consume b off) (λ b', spends b 1 b').
Proof.
  unfold consume, checked_add. destruct (_ <=? USIZE_MAX); cbn [ok_or]; [|done]. sound_step. to_prop.
  unfold spends. cbn. lia.
Qed.

Lemma array2_sound l : len l = 2 → sound (array2 l) (λ r, l = [r.1; r.2]).
Proof. unfold len. destruct l as [|? [|? [|]]]; cbn; try lia; done. Qed.

Lemma array3_sound l : len l = 3 → sound (array3 l) (λ '(a, b, c), l = [a; b; c]).
Proof. unfold len. destruct l as [|? [|? [|? [|]]]]; cbn; try lia; done. Qed.

Lemma array4_sound l : len l = 4 → sound (array4 l) (λ '(a, b, c, d), l = [a; b; c; d]).
Proof. unfold len. destruct l as [|? [|? [|? [|? [|]]]]]; cbn; try lia; done. Qed.

Lemma array8_sound l :
  len l = 8 →
  sound (array8 l) (λ '((a, b, c, d), (e, f, g, h)), l = [a; b; c; d] ++ [e; f; g; h]).
Proof.
  unfold len. destruct l as [|? [|? [|? [|? [|? [|? [|? [|? [|]]]]]]]]]; cbn; try lia; done.
Qed.

(** ** Components: what the decoder accepts *)

Lemma read_component_u8_sound c t :
  bytes_ok (input c) → sound (read_component_u8 c t) (λ r, reads c [r.1] r.2 ∧ u8 r.1).
Proof.
  intros Hc. unfold read_component_u8. sound_step; [by apply take_component_sound|].
  intros [raw c'] [Hr Hl]. cbn [fst snd] in *. destruct raw as [|v raw]; [done|].
  rewrite len_cons in Hl. assert (raw = []) as -> by (apply len_0_inv; lia).
  cbn. split; [done|]. destruct Hr as [Hr _]. rewrite Hr in Hc. by apply bytes_ok_cons in Hc as [? _].
Qed.

Lemma reads_ok c l c' : reads c l c' → bytes_ok (input c) → bytes_ok l ∧ bytes_ok (input c').
Proof. intros [-> _]. by rewrite bytes_ok_app. Qed.

(** Read [n] octets and copy them into an array. *)
Lemma take_array_sound {A} c t n field off (k : bytes → Cursor → outcome TftError A) P :
  0 ≤ n → bytes_ok (input c) →
  (∀ l c', reads c l c' → len l = n → bytes_ok l → sound (k l c') P) →
  sound (let? (raw, c') := take_component c t n in
         let? value := copy_array n raw field off in k value c') P.
Proof.
  intros Hn Hc Hk. sound_step; [by apply take_component_sound|].
  intros [raw c'] [Hr Hl]. cbn [fst snd] in *. sound_step; [apply copy_array_sound|].
  intros v [-> _]. apply Hk; [done|done|]. by apply (reads_ok _ _ _ Hr).
Qed.

Lemma decode_ipv4_sound c t off :
  bytes_ok (input c) →
  sound (decode_ipv4 c t off)
    (λ '(a, m, c'), reads c (a ++ m) c' ∧ octets 4 a ∧ octets 4 m).
Proof.
  intros Hc. unfold decode_ipv4.
  eapply take_array_sound; [lia|exact Hc|].
  intros l c' Hr Hl Hb. sound_step; [by apply array8_sound|].
  intros [[[[a0 a1] a2] a3] [[[m0 m1] m2] m3]] ->. apply bytes_ok_app in Hb as [Ha Hm].
  exact (conj Hr (conj (conj eq_refl Ha) (conj eq_refl Hm))).
Qed.

Lemma split_16_sound raw t n off :
  sound (split_16 raw t n off) (λ r, raw = r.1 ++ r.2 ∧ len r.1 = 16).
Proof.
  unfold split_16. sound_step. to_prop. cbn. rewrite take_drop. split; [done|].
  unfold len in *. rewrite length_take. lia.
Qed.

Lemma decode_ipv6_sound c t off :
  bytes_ok (input c) →
  sound (decode_ipv6 c t off)
    (λ '(a, m, c'), reads c (a ++ m) c' ∧ octets 16 a ∧ octets 16 m).
Proof.
  intros Hc. unfold decode_ipv6. sound_step; [by apply take_component_sound|].
  intros [raw c'] [Hr Hl]. cbn [fst snd] in *. destruct (reads_ok _ _ _ Hr Hc) as [Hb _].
  sound_step; [apply split_16_sound|]. intros [a m] [-> Ha]. cbn [fst snd] in *.
  sound_step; [apply copy_array_sound|]. intros ? [-> _].
  sound_step; [apply copy_array_sound|]. intros ? [-> Hm].
  apply bytes_ok_app in Hb as [? ?]. by sound_step.
Qed.

Lemma decode_ipv6_prefix_sound c t off :
  bytes_ok (input c) →
  sound (decode_ipv6_prefix c t off)
    (λ r, reads c (prefix_address r.1 ++ [prefix_length r.1]) r.2 ∧ prefix_typed r.1).
Proof.
  intros Hc. unfold decode_ipv6_prefix. sound_step; [by apply take_component_sound|].
  intros [raw c'] [Hr Hl]. cbn [fst snd] in *. destruct (reads_ok _ _ _ Hr Hc) as [Hb _].
  sound_step; [apply split_16_sound|]. intros [a rest] [-> Ha]. cbn [fst snd] in *.
  destruct rest as [|n [|? rest]]; cbn [hd_error ok_or]; [exact I| |len_lia].
  sound_step; [apply copy_array_sound|]. intros ? [-> _].
  unfold Ipv6AddressPrefix_new. destruct (128 <? n) eqn:E; cbn; [done|]. to_prop.
  apply bytes_ok_app in Hb as [? [[? ?] _]%bytes_ok_cons].
  split; [done|]. split; [done|]. cbn. lia.
Qed.

Lemma read_component_u16_sound c t field off :
  bytes_ok (input c) →
  sound (read_component_u16 c t field off)
    (λ '(a, b, c'), reads c [a; b] c' ∧ u8 a ∧ u8 b).
Proof.
  intros Hc. unfold read_component_u16. eapply take_array_sound; [lia|exact Hc|].
  intros l c' Hr Hl Hb. sound_step; [by apply array2_sound|]. intros [a b] ->.
  apply bytes_ok_cons in Hb as [? [? _]%bytes_ok_cons]. by sound_step.
Qed.

Lemma decode_port_range_sound c t off :
  bytes_ok (input c) →
  sound (decode_port_range c t off)
    (λ r, reads c (u16_to_be_bytes (low r.1) ++ u16_to_be_bytes (high r.1)) r.2
          ∧ range_typed r.1).
Proof.
  intros Hc. unfold decode_port_range. eapply take_array_sound; [lia|exact Hc|].
  intros l c' Hr Hl Hb. sound_step; [by apply array4_sound|]. intros [[[a b] d] e] ->.
  apply bytes_ok_cons in Hb as [? [? [? [? _]%bytes_ok_cons]%bytes_ok_cons]%bytes_ok_cons].
  unfold PortRange_new. destruct (_ <? _) eqn:E; cbn [map_err sound]; [done|]. to_prop. cbn [low high fst snd].
  rewrite !u16_to_from by done. split; [done|].
  unfold range_typed, u16_from_be_bytes, u8 in *. cbn [low high]. lia.
Qed.

Lemma decode_spi_sound c t off :
  bytes_ok (input c) →
  sound (decode_spi c t off) (λ r, reads c (u32_to_be_bytes r.1) r.2 ∧ u32 r.1).
Proof.
  intros Hc. unfold decode_spi. eapply take_array_sound; [lia|exact Hc|].
  intros l c' Hr Hl Hb. sound_step; [by apply array4_sound|]. intros [[[a b] d] e] ->.
  apply bytes_ok_cons in Hb as [? [? [? [? _]%bytes_ok_cons]%bytes_ok_cons]%bytes_ok_cons].
  sound_step. cbn [fst snd]. rewrite u32_to_from by done. split; [done|].
  unfold u32, u32_from_be_bytes, u8 in *. lia.
Qed.

Lemma decode_mac_sound c t off :
  bytes_ok (input c) →
  sound (decode_mac c t off) (λ r, reads c r.1 r.2 ∧ octets 6 r.1).
Proof.
  intros Hc. unfold decode_mac. eapply take_array_sound; [lia|exact Hc|].
  intros l c' Hr Hl Hb. by sound_step.
Qed.

(** An octet without its upper four bits. *)
Lemma low_nibble v : u8 v → Z.land v 0xf0 = 0 → 0 ≤ v < 16.
Proof.
  revert v. assert (H : ∀ v, 0 ≤ v < 256 → Z.land v 240 = 0 → v < 16) by by_enum 256%nat.
  intros v Hv H0. pose proof (H v Hv H0). unfold u8 in Hv. lia.
Qed.

Lemma decode_flow_label_sound c t off :
  bytes_ok (input c) →
  sound (decode_flow_label c t off)
    (λ r, reads c (drop 1 (u32_to_be_bytes r.1)) r.2 ∧ 0 ≤ r.1 ≤ 0xfffff).
Proof.
  intros Hc. unfold decode_flow_label. eapply take_array_sound; [lia|exact Hc|].
  intros l c' Hr Hl Hb. sound_step; [by apply array3_sound|]. intros [[a b] d] ->.
  apply bytes_ok_cons in Hb as [? [? [? _]%bytes_ok_cons]%bytes_ok_cons].
  sound_step. to_prop. unfold Ipv6FlowLabel_new.
  destruct (_ <? _) eqn:E; cbn [map_err sound]; [done|]. to_prop. cbn [fst snd].
  rewrite u32_to_from by (done || unfold u8; lia). split; [done|].
  unfold u32_from_be_bytes, u8 in *. lia.
Qed.

Lemma decode_vlan_id_sound c t off :
  bytes_ok (input c) →
  sound (decode_vlan_id c t off)
    (λ r, reads c (u16_to_be_bytes r.1) r.2 ∧ 0 ≤ r.1 ≤ 0xfff).
Proof.
  intros Hc. unfold decode_vlan_id. sound_step; [by apply read_component_u16_sound|].
  intros [[a b] c'] (Hr & Ha & Hb). sound_step. to_prop. unfold VlanIdentifier_new.
  destruct (_ <? _) eqn:E; cbn [map_err sound]; [done|]. to_prop. cbn [fst snd].
  rewrite u16_to_from by done. split; [done|]. unfold u16_from_be_bytes, u8 in *. lia.
Qed.

Lemma priority_octet v :
  u8 v → Z.land v 0xf0 = 0 →
  Z.lor (Z.shiftl (Z.land (Z.shiftr v 1) 7) 1) (if negb (Z.land v 1 =? 0) then 1 else 0) = v
  ∧ 0 ≤ Z.land (Z.shiftr v 1) 7.
Proof.
  intros Hv H0. pose proof (low_nibble v Hv H0) as Hn. clear Hv H0.
  revert v Hn. by_enum 16%nat.
Qed.

Lemma decode_vlan_priority_sound c t off :
  bytes_ok (input c) →
  sound (decode_vlan_priority c t off)
    (λ r, reads c [Z.lor (Z.shiftl (pcp r.1) 1) (if drop_eligible r.1 then 1 else 0)] r.2
          ∧ 0 ≤ pcp r.1 ≤ 7).
Proof.
  intros Hc. unfold decode_vlan_priority. sound_step; [by apply read_component_u8_sound|].
  intros [v c'] [Hr Hv]. cbn [fst snd] in *. sound_step. to_prop. unfold VlanPriority_new.
  destruct (priority_octet v) as [Ho Hp]; [done..|].
  destruct (_ <? _) eqn:E; cbn [map_err sound]; [done|]. to_prop. cbn [fst snd pcp drop_eligible].
  rewrite Ho. split; [done|lia].
Qed.

Create HintDb tft.
#[export] Hint Resolve decode_ipv4_sound decode_ipv6_sound decode_ipv6_prefix_sound
  read_component_u8_sound read_component_u16_sound decode_port_range_sound decode_spi_sound
  decode_mac_sound decode_flow_label_sound decode_vlan_id_sound decode_vlan_priority_sound : tft.

Lemma u16_of_octets a b : u8 a → u8 b → u16 (u16_from_be_bytes a b).
Proof. unfold u8, u16, u16_from_be_bytes. lia. Qed.

Lemma decode_component_value_sound kind c t off :
  bytes_ok (input c) →
  sound (decode_component_value kind c t off)
    (λ r, component_kind r.1 = kind ∧ reads c (component_body r.1) r.2 ∧ component_typed r.1).
Proof.
  intros Hc. destruct kind; cbn [decode_component_value];
    (sound_step; [eauto with tft|]); cbn beta;
    first [intros [[a b] c'] (Hr & Ha & Hb)|intros [v c'] [Hr Hv]]; cbn [fst snd] in *;
    sound_step; cbn [fst snd component_kind]; (split; [done|]);
    unfold component_body; cbn [encode_component tail component_typed];
    rewrite ?u16_to_from by done; auto using u16_of_octets; exact (conj Hr (conj Ha Hb)).
Qed.

Lemma from_type_code_sound t : sound (from_type_code t) (λ k, t = type_code k).
Proof.
  destruct (from_type_code t) as [k|e|] eqn:E; [by apply from_type_code_inv|done|].
  unfold from_type_code in E. by repeat case_match.
Qed.

Lemma encode_component_cons c :
  encode_component c = type_code (component_kind c) :: component_body c.
Proof. done. Qed.

Lemma decode_component_sound c b :
  bytes_ok (input c) →
  sound (decode_component c b)
    (λ '(comp, c', b'),
       reads c (encode_component comp) c' ∧ component_typed comp ∧ spends b 1 b').
Proof.
  intros Hc. unfold decode_component. sound_step; [apply consume_sound|]. intros b' Hb.
  sound_step; [apply read_u8_sound|]. intros [t c1] H1. cbn [fst snd] in *.
  destruct (reads_ok _ _ _ H1 Hc) as [_ Hc1].
  sound_step; [apply sound_map_err, from_type_code_sound|]. intros kind ->.
  sound_step; [by apply decode_component_value_sound|]. intros [comp c'] (<- & Hr & Hty).
  sound_step. cbn [fst snd] in *. split; [|done].
  exact (reads_trans c _ c1 (component_body comp) c' H1 Hr).
Qed.

(** ** Filters and parameters: what the decoder accepts *)

Lemma cursor_is_empty_spec c : cursor_is_empty c = true ↔ input c = [].
Proof. apply bool_decide_eq_true. Qed.

Lemma decode_components_sound fuel c b :
  bytes_ok (input c) → (length (input c) ≤ fuel)%nat →
  sound (decode_components fuel c b)
    (λ '(cs, b'), input c = mjoin (encode_component <$> cs) ∧ Forall component_typed cs
                  ∧ spends b (len cs) b').
Proof.
  revert c b. induction fuel as [|fuel IH]; intros c b Hc Hf; cbn [decode_components];
    destruct (cursor_is_empty c) eqn:E.
  1,3: apply cursor_is_empty_spec in E; rewrite E; split_and!; [done|constructor|apply spends_0].
  { apply not_true_iff_false in E. destruct E. apply cursor_is_empty_spec, nil_length_inv. lia. }
  sound_step; [by apply decode_component_sound|]. intros [[comp c1] b1] (Hr & Hty & Hb).
  destruct (reads_ok _ _ _ Hr Hc) as [_ Hc1]. destruct Hr as [Hr _].
  sound_step; [apply IH; [done|]|].
  { rewrite Hr, encode_component_cons, List.length_app, List.length_cons in Hf. lia. }
  intros [cs b2] (Hcs & Htys & Hb2). cbn [sound]. split_and!.
  - by rewrite Hr, Hcs.
  - by constructor.
  - eapply spends_trans; [done..|]. rewrite len_cons. lia.
Qed.

Lemma len_encode_component c : component_typed c → len (encode_component c) = encoded_len c.
Proof.
  rewrite encode_component_cons, len_cons. unfold component_body.
  destruct c; cbn [component_typed encode_component tail encoded_len]; unfold prefix_typed, octets;
    intros; destruct_and?; autorewrite with len; try done; lia.
Qed.

Lemma join_cons (l : bytes) ls : mjoin (l :: ls) = l ++ mjoin ls.
Proof. done. Qed.

Lemma len_components cs :
  Forall component_typed cs →
  len (mjoin (encode_component <$> cs)) = sum (encoded_len <$> cs).
Proof.
  induction 1 as [|c cs Hc _ IH]; [done|]. rewrite !fmap_cons, sum_cons.
  rewrite join_cons, len_app, len_encode_component by done. by rewrite IH.
Qed.

Lemma filter_octet v :
  u8 v → Z.land v 0xc0 = 0 →
  Z.lor (Z.shiftl (direction_code (direction_from_code (Z.land (Z.shiftr v 4) 0x03))) 4)
    (Z.land v 0x0f) = v ∧ 0 ≤ Z.land v 0x0f < 16.
Proof. unfold u8. revert v. by_enum 256%nat. Qed.

Lemma filter_new_sound i d p cs :
  sound (PacketFilter_new i d p cs)
    (λ f, f = {| pf_identifier := i; pf_direction := d; evaluation_precedence := p;
                 components := cs |} ∧ filter_valid f).
Proof.
  unfold PacketFilter_new. set (f := Build_PacketFilter i d p cs).
  destruct (filter_validate_spec f) as [Hr Hv]. unfold returns in Hr.
  destruct (filter_validate f) as [[]|e|]; cbn; [|done|done]. tauto.
Qed.

Lemma identifier_new_sound v :
  sound (PacketFilterIdentifier_new v) (λ i, i = v ∧ i ≤ 15).
Proof. unfold PacketFilterIdentifier_new. sound_step. to_prop. done. Qed.

Lemma decode_full_filter_sound c b :
  bytes_ok (input c) →
  sound (decode_full_filter c b)
    (λ '(f, c', b'), reads c (filter_wire f) c' ∧ filter_typed f ∧ filter_valid f
                     ∧ spends b (filter_cost f) b').
Proof.
  intros Hc. unfold decode_full_filter. sound_step; [apply consume_sound|]. intros b1 Hb1.
  sound_step; [apply read_u8_sound|]. intros [v c1] H1. cbn [fst snd] in *.
  destruct (reads_ok _ _ _ H1 Hc) as [[Hv _]%bytes_ok_cons Hc1].
  sound_step. to_prop. destruct (filter_octet v) as [Ho Hi]; [done..|].
  sound_step; [apply sound_map_err, identifier_new_sound|]. intros ? [-> _].
  sound_step; [apply read_u8_sound|]. intros [p c2] H2. cbn [fst snd] in *.
  destruct (reads_ok _ _ _ H2 Hc1) as [[Hp _]%bytes_ok_cons Hc2].
  sound_step; [apply read_u8_sound|]. intros [n c3] H3. cbn [fst snd] in *.
  destruct (reads_ok _ _ _ H3 Hc2) as [[Hn _]%bytes_ok_cons Hc3].
  sound_step. sound_step; [apply take_bytes_sound; unfold u8 in Hn; lia|].
  intros [contents c4] [H4 Hl]. cbn [fst snd] in *.
  destruct (reads_ok _ _ _ H4 Hc3) as [Hcon _].
  sound_step; [by apply decode_components_sound|].
  intros [cs b2] (Hcs & Htys & Hb2). cbn [input] in Hcs.
  sound_step; [apply sound_map_err, filter_new_sound|]. intros f [-> Hf]. sound_step. split_and!.
  - unfold filter_wire, contents_size. cbn [pf_identifier pf_direction evaluation_precedence components].
    rewrite Ho, <- len_components, <- Hcs, Hl by done.
    exact (reads_trans _ _ _ _ _ (reads_trans _ _ _ _ _ (reads_trans _ _ _ _ _ H1 H2) H3) H4).
  - done.
  - done.
  - by apply (spends_trans _ _ _ _ _ _ Hb1 Hb2).
Qed.

Lemma decode_filters_sound n c b :
  bytes_ok (input c) →
  sound (decode_filters n c b)
    (λ '(fs, c', b'), length fs = n ∧ reads c (mjoin (filter_wire <$> fs)) c'
       ∧ Forall filter_typed fs ∧ Forall filter_valid fs
       ∧ spends b (sum (filter_cost <$> fs)) b').
Proof.
  revert c b. induction n as [|n IH]; intros c b Hc; cbn [decode_filters].
  { sound_step. split_and!; [done|apply reads_nil|constructor|constructor|apply spends_0]. }
  sound_step; [by apply decode_full_filter_sound|]. intros [[f c1] b1] (H1 & Hty & Hv & Hb1).
  destruct (reads_ok _ _ _ H1 Hc) as [_ Hc1].
  sound_step; [by apply IH|]. intros [[fs c2] b2] (<- & H2 & Htys & Hvs & Hb2).
  sound_step. split_and!; [done| |by constructor|by constructor|].
  - exact (reads_trans _ _ _ _ _ H1 H2).
  - by apply (spends_trans _ _ _ _ _ _ Hb1 Hb2).
Qed.

Lemma decode_identifier_sound v field off :
  u8 v → sound (decode_identifier v field off) (λ i, i = v ∧ identifier_typed v).
Proof.
  intros Hv. unfold decode_identifier. sound_step. to_prop. sound_step.
  pose proof (low_nibble v) as Hn. apply Hn in Hv; [|done].
  assert (Z.land v 15 = v) as -> by (clear -Hv; revert v Hv; by_enum 16%nat).
  eapply sound_mono; [|apply identifier_new_sound]. cbn. intros ? [-> _]. done.
Qed.

Lemma decode_identifiers_sound n c b :
  bytes_ok (input c) →
  sound (decode_identifiers n c b)
    (λ '(ids, c', b'), length ids = n ∧ reads c ids c' ∧ Forall identifier_typed ids
       ∧ spends b (len ids) b').
Proof.
  revert c b. induction n as [|n IH]; intros c b Hc; cbn [decode_identifiers].
  { sound_step. split_and!; [done|apply reads_nil|constructor|apply spends_0]. }
  sound_step; [apply consume_sound|]. intros b1 Hb1.
  sound_step; [apply read_u8_sound|]. intros [v c1] H1. cbn [fst snd] in *.
  destruct (reads_ok _ _ _ H1 Hc) as [[Hv _]%bytes_ok_cons Hc1].
  sound_step; [by apply decode_identifier_sound|]. intros i [-> Hi].
  sound_step; [by apply IH|]. intros [[ids c2] b2] (<- & H2 & Htys & Hb2).
  sound_step. split_and!; [done| |by constructor|].
  - exact (reads_trans _ _ _ _ _ H1 H2).
  - apply (spends_trans _ _ _ _ _ _ Hb1 Hb2). by rewrite len_cons.
Qed.

Lemma decode_parameter_identifiers_sound base i l b :
  bytes_ok l →
  sound (decode_parameter_identifiers base i l b)
    (λ '(ids, b'), ids = l ∧ Forall identifier_typed ids ∧ spends b (len ids) b').
Proof.
  intros Hl. revert i b. induction Hl as [|v k Hv Hk IH]; intros i b;
    cbn [decode_parameter_identifiers].
  { sound_step. split_and!; [done|constructor|apply spends_0]. }
  destruct (checked_add base i); cbn [ok_or]; [|done].
  sound_step; [apply consume_sound|]. intros b1 Hb1.
  sound_step; [by apply decode_identifier_sound|]. intros ? [-> Hi].
  sound_step; [apply IH|]. intros [ids b2] (Hids & Htys & Hb2). subst ids. sound_step.
  split_and!; [done|by constructor|]. apply (spends_trans _ _ _ _ _ _ Hb1 Hb2).
  by rewrite len_cons.
Qed.

Lemma parameter_length_sound i n lo hi :
  sound (validate_parameter_length i n lo hi) (λ _, lo ≤ n ≤ hi).
Proof. unfold validate_parameter_length. sound_step. to_prop. done. Qed.

Lemma identifier_list_new_sound ids :
  Forall identifier_typed ids →
  sound (PacketFilterIdentifierList_new ids) (λ v, v = ids ∧ 1 ≤ len ids ≤ 255 ∧ NoDup ids).
Proof.
  intros Hty. unfold PacketFilterIdentifierList_new.
  sound_step; [apply parameter_length_sound|]. intros [] Hl.
  pose proof (unique_identifiers_decides true ids Hty) as Hu.
  by destruct (validate_unique_identifiers ids true).
Qed.

Lemma token_new_sound l : sound (AuthorizationToken_new l) (λ v, v = l ∧ 1 ≤ len l ≤ 255).
Proof.
  unfold AuthorizationToken_new. sound_step; [apply parameter_length_sound|]. by intros [] H.
Qed.

Lemma unknown_new_sound i l :
  sound (UnknownTftParameter_new i l)
    (λ v, v = {| unknown_identifier := i; unknown_contents := l |} ∧ (i < 1 ∨ 3 < i)).
Proof.
  unfold UnknownTftParameter_new. sound_step. to_prop.
  sound_step; [apply parameter_length_sound|]. intros [] _. cbn. split; [done|].
  rewrite !Z.leb_gt in *. lia.
Qed.

Lemma decode_parameter_sound i l off b :
  u8 i → bytes_ok l → len l ≤ 255 →
  sound (decode_parameter i l off b)
    (λ '(p, b'), parameter_wire p = [i; len l] ++ l ∧ parameter_typed p
                 ∧ spends b (parameter_cost p - 1) b').
Proof.
  intros Hi Hl Hn. unfold decode_parameter, AUTHORIZATION_TOKEN_PARAMETER,
    FLOW_IDENTIFIER_PARAMETER, PACKET_FILTER_IDENTIFIER_PARAMETER.
  destruct (i =? 1) eqn:E1; to_prop; [subst i|].
  { sound_step; [apply sound_map_err, token_new_sound|]. intros ? [-> H]. sound_step.
    split; [done|split; [done|apply spends_0]]. }
  destruct (i =? 2) eqn:E2; to_prop; [subst i|].
  { sound_step. to_prop. sound_step; [apply copy_array_sound|]. intros ? [-> _].
    sound_step; [by apply array4_sound|]. intros [[[a c] d] e] ->.
    apply bytes_ok_cons in Hl as [? [? [? [? _]%bytes_ok_cons]%bytes_ok_cons]%bytes_ok_cons].
    sound_step. split; [|split; [split; by apply u16_of_octets|apply spends_0]].
    unfold parameter_wire, parameter_body. cbn [media_component_number ip_flow_number].
    by rewrite !u16_to_from by done. }
  destruct (i =? 3) eqn:E3; to_prop; [subst i|].
  { sound_step. sound_step; [by apply decode_parameter_identifiers_sound|].
    intros [ids b1] (-> & Hty & Hb). sound_step;
      [by apply sound_map_err, identifier_list_new_sound|]. intros ? (-> & Hlen & Hnd).
    sound_step. split; [done|split; [done|]].
    cbn [parameter_cost]. rewrite Z.add_simpl_l. exact Hb. }
  sound_step; [apply sound_map_err, unknown_new_sound|]. intros ? [-> Hs]. sound_step.
  split; [done|split; [|apply spends_0]].
  cbn. split_and!; try done; unfold u8 in Hi; lia.
Qed.

Lemma decode_parameters_sound fuel c b :
  bytes_ok (input c) → (length (input c) ≤ fuel)%nat →
  sound (decode_parameters fuel c b)
    (λ '(ps, b'), input c = mjoin (parameter_wire <$> ps) ∧ Forall parameter_typed ps
                  ∧ spends b (sum (parameter_cost <$> ps)) b').
Proof.
  revert c b. induction fuel as [|fuel IH]; intros c b Hc Hf; cbn [decode_parameters];
    destruct (cursor_is_empty c) eqn:E.
  1,3: apply cursor_is_empty_spec in E; rewrite E; split_and!; [done|constructor|apply spends_0].
  { apply not_true_iff_false in E. destruct E. apply cursor_is_empty_spec, nil_length_inv. lia. }
  sound_step; [apply consume_sound|]. intros b1 Hb1.
  sound_step; [apply read_u8_sound|]. intros [i c1] H1. cbn [fst snd] in *.
  destruct (reads_ok _ _ _ H1 Hc) as [[Hi _]%bytes_ok_cons Hc1].
  sound_step; [apply read_u8_sound|]. intros [n c2] H2. cbn [fst snd] in *.
  destruct (reads_ok _ _ _ H2 Hc1) as [[Hn _]%bytes_ok_cons Hc2]. unfold u8 in Hn.
  sound_step; [apply take_bytes_sound; lia|]. intros [l c3] [H3 Hl]. cbn [fst snd] in *.
  destruct (reads_ok _ _ _ H3 Hc2) as [Hlo Hc3].
  sound_step; [apply decode_parameter_sound; [done|done|lia]|]. intros [p b2] (Hw & Hty & Hb2).
  destruct (reads_trans _ _ _ _ _ (reads_trans _ _ _ _ _ H1 H2) H3) as [Hin _].
  sound_step; [apply IH; [done|]|].
  { rewrite Hin, !List.length_app in Hf. cbn in Hf. lia. }
  intros [ps b3] (Hps & Htys & Hb3). sound_step. split_and!; [|by constructor|].
  - rewrite fmap_cons, join_cons, <- Hps, Hw, Hl. exact Hin.
  - apply (spends_trans _ _ _ _ _ _ (spends_trans _ _ _ _ _ _ Hb1 Hb2 eq_refl) Hb3).
    rewrite fmap_cons, sum_cons. lia.
Qed.

(** ** Templates: what the decoder accepts *)

Lemma header_octet_inv v o :
  u8 v → operation_from_code (Z.shiftr v 5) = Ok o →
  header_octet o (negb (Z.land v 0x10 =? 0)) (Z.land v 0x0f) = v ∧ 0 ≤ Z.land v 0x0f < 16.
Proof.
  assert (H : ∀ v, 0 ≤ v < 256 →
    (match operation_from_code (Z.shiftr v 5) with
     | Ok o => (header_octet o (negb (Z.land v 0x10 =? 0)) (Z.land v 0x0f) =? v)
     | _ => true
     end && (0 <=? Z.land v 0x0f) && (Z.land v 0x0f <? 16)) = true) by by_enum 256%nat.
  intros Hv Ho. specialize (H v Hv). rewrite Ho in H. to_prop. done.
Qed.

Lemma operation_from_code_returns v : returns (operation_from_code v).
Proof. unfold operation_from_code, returns. by repeat case_match. Qed.

Lemma wire_filter_count_sound o n :
  sound (validate_wire_filter_count o n) (λ _, 1 ≤ n ≤ 15).
Proof. unfold validate_wire_filter_count. sound_step. to_prop. done. Qed.

Lemma decode_packet_filters_sound o n c b :
  bytes_ok (input c) → o ≠ Ignore →
  sound (decode_packet_filters o n c b)
    (λ '(l, c', b'), filter_list_len l = n ∧ reads c (filters_wire l) c' ∧ filter_list_typed l
       ∧ spends b (filter_list_cost l) b').
Proof.
  intros Hc Ho.
  assert (Hfs : ∀ o, sound
    (let? _ := validate_wire_filter_count o n in
     let? (filters, c, b) := decode_filters (Z.to_nat n) c b in Ok (Filters filters, c, b))
    (λ '(l, c', b'), filter_list_len l = n ∧ reads c (filters_wire l) c' ∧ filter_list_typed l
       ∧ spends b (filter_list_cost l) b')).
  { intros o'. sound_step; [apply wire_filter_count_sound|]. intros [] Hn.
    sound_step; [by apply decode_filters_sound|]. intros [[fs c'] b'] (Hl & Hr & Hty & _ & Hb).
    sound_step. split; [cbn; unfold len; lia|done]. }
  destruct o; try done; cbn [decode_packet_filters]; try apply Hfs.
  - sound_step. to_prop. subst n. sound_step. split_and!; [done|apply reads_nil|done|apply spends_0].
  - sound_step; [apply wire_filter_count_sound|]. intros [] Hn.
    sound_step; [by apply decode_identifiers_sound|]. intros [[ids c'] b'] (Hl & Hr & Hty & Hb).
    sound_step. split; [cbn; unfold len; lia|done].
  - sound_step. to_prop. subst n. sound_step. split_and!; [done|apply reads_nil|done|apply spends_0].
Qed.

Lemma decode_parameter_list_sound present c b :
  bytes_ok (input c) →
  sound (decode_parameter_list present c b)
    (λ ps, present = negb (bool_decide (ps = [])) ∧ input c = mjoin (parameter_wire <$> ps)
           ∧ Forall parameter_typed ps
           ∧ (used b ≤ limit b → used b + sum (parameter_cost <$> ps) ≤ limit b)).
Proof.
  intros Hc. unfold decode_parameter_list. destruct present; sound_step.
  - sound_step; [by apply decode_parameters_sound|]. intros [ps b'] (Hi & Hty & Hb).
    sound_step. unfold spends in Hb. split_and!; [|done|done|lia].
    rewrite bool_decide_false; [done|]. intros ->. unfold cursor_is_empty in *.
    apply bool_decide_eq_false_1 in H. done.
  - apply negb_false_iff, cursor_is_empty_spec in H. sound_step. split_and!; [done|done|constructor|].
    cbn. lia.
Qed.

Lemma template_checked_sound t :
  template_typed t →
  sound (let? _ := template_validate t in Ok t) (λ t', t' = t ∧ template_valid t).
Proof.
  intros Hty. pose proof (template_validate_spec t Hty) as Hd. by destruct (template_validate t).
Qed.

(** [t] is what [data] encodes, within the limits of [context]. *)
Definition encodes (context : DecodeContext) (t : TrafficFlowTemplate) (data : bytes) : Prop :=
  data = template_wire t ∧ template_typed t ∧ template_valid t
  ∧ len data ≤ max_message_len context ∧ element_count t ≤ max_ies context.

Definition ignored (contents : bytes) : TrafficFlowTemplate :=
  {| operation := Ignore; packet_filters := NoFilters; parameters := [];
     ignored_contents := contents |}.

Lemma decode_ignore_sound present n c :
  bytes_ok (input c) →
  sound (decode_ignore present n c)
    (λ t, present = false ∧ n = 0 ∧ t = ignored (input c) ∧ template_valid t).
Proof.
  intros Hc. unfold decode_ignore. sound_step. to_prop.
  sound_step; [apply take_bytes_sound, len_nonneg|]. intros [l c'] [[Hi _] Hl].
  cbn [fst snd] in *. rewrite Hi in Hl. rewrite len_app in Hl.
  assert (Hc' : input c' = []) by (apply len_0_inv; lia). rewrite Hc', app_nil_r in Hi.
  sound_step. unfold ignore_with_contents. rewrite <- Hi.
  eapply sound_mono; [|apply (template_checked_sound (ignored (input c)))].
  - intros t [-> Hv]. by split_and!.
  - split; [done|]. split; [constructor|done].
Qed.

Lemma decode_value_sound data context :
  bytes_ok data → 0 ≤ max_ies context →
  sound (decode_value_with_context data context) (λ t, encodes context t data).
Proof.
  intros Hd Hm. unfold decode_value_with_context, encodes. sound_step. sound_step. to_prop.
  sound_step; [apply read_u8_sound|]. intros [v c] Hr. cbn [fst snd] in *.
  destruct (reads_ok _ _ _ Hr Hd) as [[Hv _]%bytes_ok_cons Hc]. destruct Hr as [Hin _].
  pose proof (operation_from_code_returns (Z.shiftr v 5)) as Hret. unfold returns in Hret.
  destruct (operation_from_code (Z.shiftr v 5)) as [o|e|] eqn:Ho; cbn [map_err]; [|done|done].
  destruct (header_octet_inv v o Hv Ho) as [Hh _]. cbn [input Cursor_new app] in Hin.
  case_bool_decide as Hig.
  - subst o. eapply sound_mono; [|by apply decode_ignore_sound].
    intros t (Hp & Hn & -> & Hval). rewrite Hp, Hn in Hh.
    split; [by rewrite Hin, <- Hh|]. split; [by repeat split; try constructor|].
    by split_and!.
  - sound_step; [by apply decode_packet_filters_sound|]. intros [[l c1] b1] (Hl & Hr1 & Hty & Hb).
    destruct (reads_ok _ _ _ Hr1 Hc) as [_ Hc1]. destruct Hr1 as [Hin1 _].
    sound_step; [by apply decode_parameter_list_sound|]. intros ps (Hps & Hin2 & Htys & Hb2).
    rewrite Hps, <- Hl in Hh. sound_step.
    set (t := Build_TrafficFlowTemplate o l ps []).
    assert (Ht : template_typed t) by exact (conj Hty (conj Htys (List.Forall_nil _))).
    eapply sound_mono; [|apply (template_checked_sound t Ht)].
    intros ? [-> Hval]. split; [|split; [done|split; [done|split; [done|]]]].
    + rewrite Hin, Hin1, Hin2, <- Hh. unfold template_wire. cbn. by rewrite app_nil_r.
    + unfold spends in Hb. cbn [used limit ElementBudget_new] in Hb.
      change (filter_list_cost l + sum (parameter_cost <$> ps) ≤ max_ies context). lia.
Qed.

(** ** The encoder *)

Lemma fits_small r n : fits r n → n ≤ 255 → r = Ok n.
Proof. unfold fits. intros -> Hn. by rewrite (proj2 (Z.leb_le _ _)) by (unfold USIZE_MAX; lia). Qed.

Lemma u8_try_from_ok n : n ≤ 255 → u8_try_from n = Ok n.
Proof. intros Hn. unfold u8_try_from. by rewrite (proj2 (Z.leb_le _ _)) by lia. Qed.

Lemma encode_filter_ok f : contents_size f ≤ 255 → encode_filter f = Ok (filter_wire f).
Proof.
  intros Hf. unfold encode_filter.
  rewrite (fits_small _ _ (filter_contents_len_fits f) Hf), u8_try_from_ok by done. done.
Qed.

Lemma parameter_contents_small p : parameter_typed p → parameter_contents_len p ≤ 255.
Proof. destruct p; cbn; intros; lia. Qed.

Lemma encode_parameter_ok p : parameter_typed p → encode_parameter p = Ok (parameter_wire p).
Proof.
  intros Hp. unfold encode_parameter.
  by rewrite u8_try_from_ok by (by apply parameter_contents_small).
Qed.

Lemma encode_all_ok {A} (enc : A → outcome TftError bytes) (wire : A → bytes) l :
  Forall (λ x, enc x = Ok (wire x)) l → encode_all enc l = Ok (mjoin (wire <$> l)).
Proof. induction 1 as [|x l Hx _ IH]; [done|]. cbn [encode_all]. by rewrite Hx, IH. Qed.

Lemma filters_wire_ok t :
  template_valid t →
  match packet_filters t with
  | NoFilters => Ok []
  | Filters filters => encode_all encode_filter filters
  | Identifiers identifiers => Ok identifiers
  end = Ok (E := TftError) (filters_wire (packet_filters t)).
Proof.
  intros [Ho _]. unfold operation_valid in Ho. destruct (packet_filters t) as [|fs|ids]; [done| |done].
  destruct Ho as (_ & _ & Hv & _). apply encode_all_ok.
  eapply Forall_impl; [exact Hv|]. intros f (_ & Hf & _). by apply encode_filter_ok.
Qed.

Lemma filter_list_count t : template_valid t → 0 ≤ filter_list_len (packet_filters t) ≤ 15.
Proof.
  intros [Ho _]. unfold operation_valid in Ho. destruct (packet_filters t); cbn in *; [lia|..];
    destruct_and?; lia.
Qed.

Lemma encode_value_inner_ok t :
  template_typed t → template_valid t → encode_value_inner t = Ok (template_wire t).
Proof.
  intros (_ & Hps & _) Hv. unfold encode_value_inner.
  pose proof (filter_list_count t Hv). rewrite u8_try_from_ok, filters_wire_ok by (done || lia).
  rewrite (encode_all_ok _ parameter_wire).
  - unfold template_wire, header_octet. by destruct (bool_decide (parameters t = [])).
  - eapply Forall_impl; [exact Hps|]. intros p. apply encode_parameter_ok.
Qed.

Lemma len_parameter_wire p : len (parameter_wire p) = 2 + parameter_contents_len p.
Proof.
  unfold parameter_wire. rewrite len_app. f_equal. destruct p; cbn [parameter_body]; done.
Qed.

Lemma len_filter_wire f : filter_typed f → len (filter_wire f) = 3 + contents_size f.
Proof.
  intros (_ & _ & Hc). unfold filter_wire. rewrite len_app, len_components by done. done.
Qed.

Lemma len_join {A} (wire : A → bytes) (size : A → Z) l :
  Forall (λ x, len (wire x) = size x) l → len (mjoin (wire <$> l)) = sum (size <$> l).
Proof.
  induction 1 as [|x l Hx _ IH]; [done|]. rewrite !fmap_cons, sum_cons, join_cons, len_app, Hx.
  by rewrite IH.
Qed.

Lemma len_template_wire t : template_typed t → len (template_wire t) = value_size t.
Proof.
  intros (Hf & _ & _). unfold template_wire, value_size. rewrite len_cons, !len_app.
  rewrite (len_join parameter_wire (λ p, 2 + parameter_contents_len p))
    by (apply Forall_true, len_parameter_wire).
  destruct (packet_filters t) as [|fs|ids]; cbn [filters_wire filter_list_typed filter_list_size] in *;
    [rewrite len_nil; lia| |unfold PacketFilterIdentifier in *; lia].
  rewrite (len_join filter_wire (λ f, 3 + contents_size f)); [lia|].
  eapply Forall_impl; [exact Hf|]. apply len_filter_wire.
Qed.

Lemma validate_ok t : template_typed t → template_valid t → template_validate t = Ok ().
Proof.
  intros Hty Hv. pose proof (template_validate_spec t Hty) as Hd.
  by destruct (template_validate t) as [[]|e|].
Qed.

Lemma encoded_value_len_ok t :
  template_typed t → template_valid t → encoded_value_len t = Ok (value_size t).
Proof.
  intros Hty Hv. unfold encoded_value_len. rewrite validate_ok by done.
  apply (fits_small _ _ (encoded_value_len_fits t)), Hv.
Qed.

Lemma encode_value_ok t destination :
  template_typed t → template_valid t →
  encode_value t destination = (destination ++ template_wire t, Ok ()).
Proof.
  intros Hty Hv. unfold encode_value.
  rewrite encoded_value_len_ok, encode_value_inner_ok, len_template_wire by done.
  by rewrite Z.eqb_refl.
Qed.

(** ** Components: the decoder reads back what the encoder wrote *)

Abbreviation cur l o := {| input := l; cursor_offset := o |}.

Lemma advance_ok c rest n :
  cursor_offset c + n ≤ USIZE_MAX → advance c rest n = Ok (cur rest (cursor_offset c + n)).
Proof. intros H. unfold advance. by rewrite checked_add_ok by done. Qed.

Lemma read_u8_ok v rest o field :
  o + 1 ≤ USIZE_MAX → read_u8 (cur (v :: rest) o) field = Ok (v, cur rest (o + 1)).
Proof. intros H. unfold read_u8. cbn [input]. by rewrite advance_ok. Qed.

Lemma take_bytes_ok l rest o n field :
  len l = n → o + n ≤ USIZE_MAX →
  take_bytes (cur (l ++ rest) o) n field = Ok (l, cur rest (o + n)).
Proof.
  intros <- H. unfold take_bytes. cbn [input].
  rewrite (proj2 (Z.ltb_ge _ _)) by len_lia. rewrite advance_ok by done. unfold len.
  by rewrite Nat2Z.id, drop_app_length, take_app_length.
Qed.

Lemma take_component_ok l rest o t n :
  len l = n → o + n ≤ USIZE_MAX →
  take_component (cur (l ++ rest) o) t n = Ok (l, cur rest (o + n)).
Proof.
  intros Hl H. unfold take_component. cbn [input].
  rewrite (proj2 (Z.ltb_ge _ _)) by len_lia. by apply take_bytes_ok.
Qed.

Lemma copy_array_ok n l field off : len l = n → copy_array n l field off = Ok l.
Proof. intros <-. unfold copy_array. by rewrite Z.eqb_refl. Qed.

Lemma consume_ok b off :
  used b + 1 ≤ limit b → limit b ≤ USIZE_MAX →
  consume b off = Ok {| used := used b + 1; limit := limit b |}.
Proof.
  intros H Hl. unfold consume. rewrite checked_add_ok by lia. cbn [ok_or].
  by rewrite (proj2 (Z.ltb_ge _ _)) by lia.
Qed.

Lemma read_component_u8_ok v rest o t :
  o + 1 ≤ USIZE_MAX → read_component_u8 (cur (v :: rest) o) t = Ok (v, cur rest (o + 1)).
Proof.
  intros H. unfold read_component_u8. change (v :: rest) with ([v] ++ rest).
  by rewrite (take_component_ok [v] rest o t 1).
Qed.

Lemma read_component_u16_ok a b rest o t field off :
  o + 2 ≤ USIZE_MAX →
  read_component_u16 (cur (a :: b :: rest) o) t field off = Ok (a, b, cur rest (o + 2)).
Proof.
  intros H. unfold read_component_u16. change (a :: b :: rest) with ([a; b] ++ rest).
  rewrite (take_component_ok [a; b] rest o t 2) by done.
  by rewrite copy_array_ok by done.
Qed.

Lemma octets_4 l : octets 4 l → ∃ a b c d, l = [a; b; c; d].
Proof.
  intros [Hl _]. unfold len in Hl. destruct l as [|a [|b [|c [|d [|]]]]]; cbn in Hl; try lia; eauto.
Qed.

Lemma decode_ipv4_ok a m rest o t off :
  octets 4 a → octets 4 m → o + 8 ≤ USIZE_MAX →
  decode_ipv4 (cur ((a ++ m) ++ rest) o) t off = Ok (a, m, cur rest (o + 8)).
Proof.
  intros (a0 & a1 & a2 & a3 & ->)%octets_4 (m0 & m1 & m2 & m3 & ->)%octets_4 H.
  unfold decode_ipv4. rewrite (take_component_ok _ rest o t 8) by done.
  by rewrite copy_array_ok by done.
Qed.

Lemma split_16_ok a m t n off : len a = 16 → split_16 (a ++ m) t n off = Ok (a, m).
Proof.
  intros Ha. unfold split_16. rewrite (proj2 (Z.ltb_ge _ _)) by len_lia.
  assert (Hl : length a = 16%nat) by (unfold len in Ha; lia).
  by rewrite take_app_length', drop_app_length'.
Qed.

Lemma decode_ipv6_ok a m rest o t off :
  octets 16 a → octets 16 m → o + 32 ≤ USIZE_MAX →
  decode_ipv6 (cur ((a ++ m) ++ rest) o) t off = Ok (a, m, cur rest (o + 32)).
Proof.
  intros [Ha _] [Hm _] H. unfold decode_ipv6.
  rewrite (take_component_ok (a ++ m) rest o t 32) by (done || len_lia).
  rewrite split_16_ok by done. by rewrite !copy_array_ok by done.
Qed.

Lemma decode_ipv6_prefix_ok p rest o t off :
  prefix_typed p → o + 17 ≤ USIZE_MAX →
  decode_ipv6_prefix (cur ((prefix_address p ++ [prefix_length p]) ++ rest) o) t off
  = Ok (p, cur rest (o + 17)).
Proof.
  intros [[Ha _] Hp] H. unfold decode_ipv6_prefix.
  rewrite (take_component_ok (_ ++ [_]) rest o t 17) by (done || len_lia).
  rewrite split_16_ok by done. cbn [hd_error ok_or]. rewrite copy_array_ok by done.
  unfold Ipv6AddressPrefix_new. rewrite (proj2 (Z.ltb_ge _ _)) by lia. by destruct p.
Qed.

Lemma decode_port_range_ok r rest o t off :
  range_typed r → o + 4 ≤ USIZE_MAX →
  decode_port_range (cur ((u16_to_be_bytes (low r) ++ u16_to_be_bytes (high r)) ++ rest) o) t off
  = Ok (r, cur rest (o + 4)).
Proof.
  intros Hr H. unfold range_typed in Hr. unfold decode_port_range.
  rewrite (take_component_ok (_ ++ _) rest o t 4) by done. rewrite copy_array_ok by done.
  destruct (u16_bytes (low r)) as (a & b & -> & _ & _ & E1); [unfold u16; lia|].
  destruct (u16_bytes (high r)) as (c & d & -> & _ & _ & E2); [unfold u16; lia|].
  cbn [array4 app]. rewrite E1, E2. unfold PortRange_new.
  rewrite (proj2 (Z.ltb_ge _ _)) by lia. by destruct r.
Qed.

Lemma decode_spi_ok v rest o t off :
  u32 v → o + 4 ≤ USIZE_MAX →
  decode_spi (cur (u32_to_be_bytes v ++ rest) o) t off = Ok (v, cur rest (o + 4)).
Proof.
  intros Hv H. unfold decode_spi. rewrite (take_component_ok (u32_to_be_bytes v) rest o t 4) by done.
  rewrite copy_array_ok by done.
  destruct (u32_bytes v Hv) as (a & b & c & d & -> & _ & _ & _ & _ & E). cbn [array4]. by rewrite E.
Qed.

Lemma nibble_clear v : 0 ≤ v < 16 → Z.land v 0xf0 = 0.
Proof. revert v. by_enum 16%nat. Qed.

Lemma decode_flow_label_ok v rest o t off :
  0 ≤ v ≤ 0xfffff → o + 3 ≤ USIZE_MAX →
  decode_flow_label (cur (drop 1 (u32_to_be_bytes v) ++ rest) o) t off = Ok (v, cur rest (o + 3)).
Proof.
  intros Hv H. unfold decode_flow_label. rewrite (take_component_ok (drop 1 _) rest o t 3) by done.
  rewrite copy_array_ok by done. cbn [drop array3 u32_to_be_bytes].
  rewrite nibble_clear by (Z.div_mod_to_equations; lia). cbn [negb Z.eqb].
  assert (E : u32_from_be_bytes 0 ((v / 65536) mod 256) ((v / 256) mod 256) (v mod 256) = v)
    by (unfold u32_from_be_bytes; Z.div_mod_to_equations; lia).
  rewrite E. unfold Ipv6FlowLabel_new. by rewrite (proj2 (Z.ltb_ge _ _)) by lia.
Qed.

Lemma decode_mac_ok l rest o t off :
  octets 6 l → o + 6 ≤ USIZE_MAX →
  decode_mac (cur (l ++ rest) o) t off = Ok (l, cur rest (o + 6)).
Proof.
  intros [Hl _] H. unfold decode_mac. rewrite (take_component_ok l rest o t 6) by done.
  by rewrite copy_array_ok by done.
Qed.

Lemma decode_vlan_id_ok v rest o t off :
  0 ≤ v ≤ 0xfff → o + 2 ≤ USIZE_MAX →
  decode_vlan_id (cur (u16_to_be_bytes v ++ rest) o) t off = Ok (v, cur rest (o + 2)).
Proof.
  intros Hv H. unfold decode_vlan_id, u16_to_be_bytes. cbn [app].
  rewrite read_component_u16_ok by done.
  rewrite nibble_clear by (Z.div_mod_to_equations; lia). cbn [negb Z.eqb].
  assert (E : u16_from_be_bytes ((v / 256) mod 256) (v mod 256) = v)
    by (unfold u16_from_be_bytes; Z.div_mod_to_equations; lia).
  rewrite E. unfold VlanIdentifier_new. by rewrite (proj2 (Z.ltb_ge _ _)) by lia.
Qed.

Lemma priority_bits v (d : bool) :
  0 ≤ v < 8 →
  let octet := Z.lor (Z.shiftl v 1) (if d then 1 else 0) in
  Z.land octet 0xf0 = 0 ∧ Z.land (Z.shiftr octet 1) 0x07 = v ∧ negb (Z.land octet 0x01 =? 0) = d.
Proof. destruct d; revert v; by_enum 8%nat. Qed.

Lemma decode_vlan_priority_ok p rest o t off :
  0 ≤ pcp p ≤ 7 → o + 1 ≤ USIZE_MAX →
  decode_vlan_priority
    (cur (Z.lor (Z.shiftl (pcp p) 1) (if drop_eligible p then 1 else 0) :: rest) o) t off
  = Ok (p, cur rest (o + 1)).
Proof.
  intros Hp H. unfold decode_vlan_priority. rewrite read_component_u8_ok by done.
  destruct (priority_bits (pcp p) (drop_eligible p)) as (H0 & H1 & H2); [lia|].
  rewrite H0, H1, H2. cbn [negb Z.eqb]. unfold VlanPriority_new.
  rewrite (proj2 (Z.ltb_ge _ _)) by lia. by destruct p.
Qed.

Lemma read_port_ok v rest o t field off :
  u16 v → o + 2 ≤ USIZE_MAX →
  ∃ a b, read_component_u16 (cur (u16_to_be_bytes v ++ rest) o) t field off
         = Ok (a, b, cur rest (o + 2)) ∧ u16_from_be_bytes a b = v.
Proof.
  intros Hv H. destruct (u16_bytes v Hv) as (a & b & -> & _ & _ & E).
  exists a, b. split; [by apply read_component_u16_ok|done].
Qed.

Lemma decode_component_value_ok comp rest o t off :
  component_typed comp → o + encoded_len comp - 1 ≤ USIZE_MAX →
  decode_component_value (component_kind comp) (cur (component_body comp ++ rest) o) t off
  = Ok (comp, cur rest (o + encoded_len comp - 1)).
Proof.
  intros Hty. rewrite <- !Z.add_sub_assoc. unfold component_body.
  destruct comp; cbn [component_typed component_kind encode_component tail encoded_len
    decode_component_value] in *; intros H;
    try (match goal with
         | |- context [read_component_u16 (cur (u16_to_be_bytes ?v ++ _) _) _ ?f _] =>
             destruct (read_port_ok v rest o t f off Hty H) as (a & b & -> & <-); done
         end).
  all: cbn [app]; first
    [rewrite decode_ipv4_ok by (exact H || tauto) | rewrite decode_ipv6_ok by (exact H || tauto)
    |rewrite decode_ipv6_prefix_ok by (exact H || tauto)
    |rewrite read_component_u8_ok by exact H | rewrite read_component_u16_ok by exact H
    |rewrite decode_port_range_ok by (exact H || tauto) | rewrite decode_spi_ok by (exact H || tauto)
    |rewrite decode_flow_label_ok by (exact H || tauto) | rewrite decode_mac_ok by (exact H || tauto)
    |rewrite decode_vlan_id_ok by (exact H || tauto)
    |rewrite decode_vlan_priority_ok by (exact H || tauto)]; done.
Qed.

Lemma decode_component_ok comp rest o b :
  component_typed comp → o + encoded_len comp ≤ USIZE_MAX →
  used b + 1 ≤ limit b → limit b ≤ USIZE_MAX →
  decode_component (cur (encode_component comp ++ rest) o) b
  = Ok (comp, cur rest (o + encoded_len comp), {| used := used b + 1; limit := limit b |}).
Proof.
  intros Hty Ho Hb Hl. pose proof (encoded_len_pos comp). unfold decode_component.
  rewrite encode_component_cons. cbn [cursor_offset app]. rewrite consume_ok, read_u8_ok by lia.
  rewrite from_type_code_ok. cbn [map_err]. rewrite decode_component_value_ok by (done || lia).
  by replace (o + 1 + encoded_len comp - 1) with (o + encoded_len comp) by lia.
Qed.

(** ** Filters and parameters: the decoder reads back what the encoder wrote *)

Lemma decode_components_ok fuel cs o b :
  Forall component_typed cs → (length cs ≤ fuel)%nat →
  o + sum (encoded_len <$> cs) ≤ USIZE_MAX →
  used b + len cs ≤ limit b → limit b ≤ USIZE_MAX →
  decode_components fuel (cur (mjoin (encode_component <$> cs)) o) b
  = Ok (cs, {| used := used b + len cs; limit := limit b |}).
Proof.
  intros Hty. revert fuel o b. induction Hty as [|c cs Hc Hcs IH]; intros fuel o b Hf Ho Hb Hl.
  { destruct fuel; cbn; rewrite Z.add_0_r; by destruct b. }
  destruct fuel as [|fuel]; [cbn in Hf; lia|]. cbn [decode_components].
  rewrite !fmap_cons, sum_cons, ?len_cons in *. rewrite join_cons.
  pose proof (sum_encoded_nonneg cs). pose proof (len_nonneg cs).
  rewrite decode_component_ok by (done || lia).
  change (cursor_is_empty _) with false. cbn [List.length] in Hf.
  rewrite IH by (cbn [used limit]; lia). cbn [used limit]. do 3 f_equal. lia.
Qed.

Lemma components_fuel cs :
  (length cs ≤ length (mjoin (encode_component <$> cs)))%nat.
Proof.
  induction cs as [|c cs IH]; [done|]. rewrite fmap_cons, join_cons, List.length_app.
  rewrite encode_component_cons. cbn. lia.
Qed.

Lemma direction_bits i d :
  0 ≤ i < 16 →
  let octet := Z.lor (Z.shiftl (direction_code d) 4) i in
  Z.land octet 0xc0 = 0 ∧ Z.land octet 0x0f = i ∧ Z.land (Z.shiftr octet 4) 0x03 = direction_code d.
Proof. destruct d; revert i; by_enum 16%nat. Qed.

Lemma direction_from_code_ok d : direction_from_code (direction_code d) = d.
Proof. by destruct d. Qed.

Lemma filter_new_ok f :
  filter_valid f →
  PacketFilter_new (pf_identifier f) (pf_direction f) (evaluation_precedence f) (components f) = Ok f.
Proof.
  intros Hv. unfold PacketFilter_new.
  replace (Build_PacketFilter _ _ _ _) with f by (by destruct f).
  by rewrite (proj2 (proj2 (filter_validate_spec f)) Hv).
Qed.

Lemma decode_full_filter_ok f rest o b :
  filter_typed f → filter_valid f → o + 3 + contents_size f ≤ USIZE_MAX →
  used b + filter_cost f ≤ limit b → limit b ≤ USIZE_MAX →
  decode_full_filter (cur (filter_wire f ++ rest) o) b
  = Ok (f, cur rest (o + 3 + contents_size f), {| used := used b + filter_cost f; limit := limit b |}).
Proof.
  intros (Hi & Hp & Hcs) Hv Ho Hb Hl. unfold filter_cost in *.
  assert (Hpos : 0 < contents_size f).
  { destruct Hv as (Hne & _). unfold contents_size. destruct (components f) as [|c cs]; [done|].
    rewrite fmap_cons, sum_cons. pose proof (encoded_len_pos c). pose proof (sum_encoded_nonneg cs). lia. }
  pose proof (len_nonneg (components f)).
  destruct (direction_bits (pf_identifier f) (pf_direction f) Hi) as (H1 & H2 & H3).
  unfold decode_full_filter, filter_wire. cbn [cursor_offset app].
  rewrite consume_ok, read_u8_ok by lia. rewrite H1, H2, H3. cbn [negb Z.eqb].
  unfold PacketFilterIdentifier_new. rewrite (proj2 (Z.ltb_ge _ _)) by (unfold identifier_typed in Hi; lia).
  cbn [map_err]. rewrite !read_u8_ok by lia. rewrite (proj2 (Z.eqb_neq _ 0)) by lia.
  cbn [cursor_offset]. rewrite take_bytes_ok by (lia || by apply len_components).
  rewrite decode_components_ok by (done || apply components_fuel || (cbn [used limit]; unfold contents_size in *; lia)).
  rewrite direction_from_code_ok, filter_new_ok by done. cbn [map_err used limit].
  do 2 f_equal; [f_equal; f_equal; lia|f_equal; lia].
Qed.

Lemma filter_costs_nonneg fs : 0 ≤ sum (filter_cost <$> fs).
Proof.
  induction fs as [|f fs IH]; [done|]. rewrite fmap_cons, sum_cons. unfold filter_cost at 1.
  pose proof (len_nonneg (components f)). lia.
Qed.

Lemma decode_filters_ok fs rest o b :
  Forall filter_typed fs → Forall filter_valid fs →
  o + sum ((λ f, 3 + contents_size f) <$> fs) ≤ USIZE_MAX →
  used b + sum (filter_cost <$> fs) ≤ limit b → limit b ≤ USIZE_MAX →
  decode_filters (length fs) (cur (mjoin (filter_wire <$> fs) ++ rest) o) b
  = Ok (fs, cur rest (o + sum ((λ f, 3 + contents_size f) <$> fs)),
        {| used := used b + sum (filter_cost <$> fs); limit := limit b |}).
Proof.
  intros Hty. revert o b. induction Hty as [|f fs Hf Hfs IH]; intros o b Hv Ho Hb Hl.
  { cbn. rewrite !Z.add_0_r. by destruct b. }
  apply Forall_cons in Hv as [Hvf Hv]. rewrite !fmap_cons, !sum_cons in *.
  cbn [List.length decode_filters]. rewrite join_cons, <- app_assoc.
  pose proof (filter_sizes_nonneg fs). pose proof (filter_costs_nonneg fs).
  rewrite decode_full_filter_ok by (done || lia). rewrite IH by (done || cbn [used limit]; lia).
  cbn [used limit]. do 2 f_equal; [f_equal; f_equal; lia|f_equal; lia].
Qed.

Lemma decode_identifier_ok i field off :
  identifier_typed i → decode_identifier i field off = Ok i.
Proof.
  unfold identifier_typed. intros Hi. unfold decode_identifier, PacketFilterIdentifier_new.
  assert (Z.land i 15 = i) as -> by (revert i Hi; by_enum 16%nat).
  rewrite nibble_clear by done. cbn [negb Z.eqb]. by rewrite (proj2 (Z.ltb_ge _ _)) by lia.
Qed.

Lemma decode_identifiers_ok (ids : bytes) rest o b :
  Forall identifier_typed ids → o + len ids ≤ USIZE_MAX →
  used b + len ids ≤ limit b → limit b ≤ USIZE_MAX →
  decode_identifiers (length ids) (cur (ids ++ rest) o) b
  = Ok (ids, cur rest (o + len ids), {| used := used b + len ids; limit := limit b |}).
Proof.
  intros Hty. revert o b. induction Hty as [|i ids Hi Hids IH]; intros o b Ho Hb Hl.
  { cbn. rewrite !Z.add_0_r. by destruct b. }
  unfold PacketFilterIdentifier in *. rewrite len_cons in *.
  cbn [List.length decode_identifiers app]. pose proof (len_nonneg ids).
  cbn [cursor_offset]. rewrite consume_ok, read_u8_ok, decode_identifier_ok by (done || lia).
  rewrite IH by (cbn [used limit]; lia). cbn [used limit].
  do 2 f_equal; [f_equal; f_equal; lia|f_equal; lia].
Qed.

Lemma decode_parameter_identifiers_ok base i (ids : bytes) b :
  Forall identifier_typed ids → base + i + len ids ≤ USIZE_MAX →
  used b + len ids ≤ limit b → limit b ≤ USIZE_MAX →
  decode_parameter_identifiers base i ids b
  = Ok (ids, {| used := used b + len ids; limit := limit b |}).
Proof.
  intros Hty. revert i b. induction Hty as [|v ids Hv Hids IH]; intros i b Ho Hb Hl.
  { cbn. rewrite !Z.add_0_r. by destruct b. }
  unfold PacketFilterIdentifier in *. rewrite len_cons in *.
  cbn [decode_parameter_identifiers]. pose proof (len_nonneg ids).
  rewrite checked_add_ok by lia. cbn [ok_or].
  rewrite consume_ok, decode_identifier_ok by (done || lia).
  rewrite IH by (cbn [used limit]; lia). cbn [used limit]. do 3 f_equal. lia.
Qed.

Lemma parameter_length_ok i n lo hi : lo ≤ n ≤ hi → validate_parameter_length i n lo hi = Ok ().
Proof.
  intros H. unfold validate_parameter_length.
  by rewrite (proj2 (Z.leb_le lo n)), (proj2 (Z.leb_le n hi)) by lia.
Qed.

Lemma len_parameter_body p : len (parameter_body p) = parameter_contents_len p.
Proof. pose proof (len_parameter_wire p) as H. unfold parameter_wire in H. len_lia. Qed.

Lemma decode_parameter_ok p off b :
  parameter_typed p → off + parameter_contents_len p ≤ USIZE_MAX →
  used b + parameter_cost p - 1 ≤ limit b → limit b ≤ USIZE_MAX →
  decode_parameter (parameter_identifier p) (parameter_body p) off b
  = Ok (p, {| used := used b + parameter_cost p - 1; limit := limit b |}).
Proof.
  intros Hty Ho Hb Hl. unfold decode_parameter, AUTHORIZATION_TOKEN_PARAMETER,
    FLOW_IDENTIFIER_PARAMETER, PACKET_FILTER_IDENTIFIER_PARAMETER.
  assert (Hb1 : b = {| used := used b + 1 - 1; limit := limit b |}).
  { destruct b. cbn. f_equal. lia. }
  destruct p as [token|flow|ids|v]; cbn [parameter_typed parameter_identifier parameter_body
    parameter_contents_len parameter_cost Z.eqb Pos.eqb] in *.
  - unfold AuthorizationToken_new. rewrite parameter_length_ok by tauto. by rewrite <- Hb1.
  - destruct Hty as [Hm Hf]. cbn [len]. rewrite copy_array_ok by done.
    destruct (u16_bytes _ Hm) as (a & c & -> & _ & _ & E1).
    destruct (u16_bytes _ Hf) as (d & e & -> & _ & _ & E2).
    cbn. rewrite E1, E2. rewrite <- Hb1. by destruct flow.
  - destruct Hty as (Hn & Hty & Hd). rewrite bool_decide_false by (intros ->; rewrite len_nil in Hn; lia).
    unfold PacketFilterIdentifierList, PacketFilterIdentifier in *.
    rewrite decode_parameter_identifiers_ok by (done || lia).
    unfold PacketFilterIdentifierList_new. rewrite parameter_length_ok by done.
    pose proof (unique_identifiers_decides true ids Hty) as Hu.
    destruct (validate_unique_identifiers ids true); [|done|done]. cbn [map_err].
    do 3 f_equal. lia.
  - destruct Hty as (Hu & Hs & Hn & _). unfold UnknownTftParameter_new.
    rewrite !(proj2 (Z.eqb_neq (unknown_identifier v) _)) by lia.
    rewrite (proj2 (andb_false_iff _ _)) by (rewrite !Z.leb_gt; lia).
    pose proof (len_nonneg (unknown_contents v)). rewrite parameter_length_ok by lia.
    cbn [map_err]. rewrite <- Hb1. by destruct v.
Qed.

Lemma parameter_cost_bound p : 1 ≤ parameter_cost p ≤ 1 + parameter_contents_len p.
Proof.
  pose proof (parameter_contents_len_nonneg p).
  destruct p as [| |ids|]; cbn [parameter_cost parameter_contents_len] in *; lia.
Qed.

Lemma parameter_costs_nonneg ps : 0 ≤ sum (parameter_cost <$> ps).
Proof.
  induction ps as [|p ps IH]; [done|]. rewrite fmap_cons, sum_cons.
  pose proof (parameter_cost_bound p). lia.
Qed.

Lemma decode_parameters_ok fuel ps o b :
  Forall parameter_typed ps → (length ps ≤ fuel)%nat →
  o + sum ((λ p, 2 + parameter_contents_len p) <$> ps) ≤ USIZE_MAX →
  used b + sum (parameter_cost <$> ps) ≤ limit b → limit b ≤ USIZE_MAX →
  decode_parameters fuel (cur (mjoin (parameter_wire <$> ps)) o) b
  = Ok (ps, {| used := used b + sum (parameter_cost <$> ps); limit := limit b |}).
Proof.
  intros Hty. revert fuel o b. induction Hty as [|p ps Hp Hps IH]; intros fuel o b Hf Ho Hb Hl.
  { destruct fuel; cbn; rewrite Z.add_0_r; by destruct b. }
  destruct fuel as [|fuel]; [cbn in Hf; lia|]. cbn [decode_parameters List.length] in *.
  rewrite !fmap_cons, !sum_cons in *. rewrite join_cons.
  change (parameter_wire p) with (parameter_identifier p :: parameter_contents_len p :: parameter_body p).
  pose proof (parameter_sizes_nonneg ps). pose proof (parameter_costs_nonneg ps).
  pose proof (parameter_cost_bound p). pose proof (parameter_contents_len_nonneg p).
  change (cursor_is_empty _) with false. cbn [app cursor_offset].
  rewrite consume_ok, !read_u8_ok by lia. cbn [cursor_offset].
  rewrite take_bytes_ok by (lia || apply len_parameter_body).
  rewrite decode_parameter_ok by (done || cbn [used limit]; lia).
  rewrite IH by (cbn [used limit]; lia). cbn [used limit]. do 3 f_equal. lia.
Qed.

Lemma parameters_fuel ps : (length ps ≤ length (mjoin (parameter_wire <$> ps)))%nat.
Proof.
  induction ps as [|p ps IH]; [done|]. rewrite fmap_cons, join_cons, List.length_app. cbn. lia.
Qed.

(** ** Templates: the decoder reads back what the encoder wrote *)

Lemma header_octet_bits o present count :
  0 ≤ count < 16 →
  let octet := header_octet o present count in
  operation_from_code (Z.shiftr octet 5) = Ok o
  ∧ negb (Z.land octet 0x10 =? 0) = present ∧ Z.land octet 0x0f = count.
Proof.
  intros Hc octet. unfold octet.
  assert (H : ∀ n, 0 ≤ n < 16 →
    (match operation_from_code (Z.shiftr (header_octet o present n) 5) with
     | Ok o' => bool_decide (o' = o) | _ => false end
     && Bool.eqb (negb (Z.land (header_octet o present n) 0x10 =? 0)) present
     && (Z.land (header_octet o present n) 0x0f =? n)) = true).
  { destruct o, present; by_enum 16%nat. }
  specialize (H count Hc). to_prop. case_match; try done.
  match goal with H : bool_decide _ = true |- _ => apply bool_decide_eq_true in H as -> end.
  split_and!; [done|by apply Bool.eqb_prop|done].
Qed.

Lemma decode_packet_filters_ok t rest o b :
  template_typed t → template_valid t → operation t ≠ Ignore →
  o + filter_list_size (packet_filters t) ≤ USIZE_MAX →
  used b + filter_list_cost (packet_filters t) ≤ limit b → limit b ≤ USIZE_MAX →
  decode_packet_filters (operation t) (filter_list_len (packet_filters t))
    (cur (filters_wire (packet_filters t) ++ rest) o) b
  = Ok (packet_filters t, cur rest (o + filter_list_size (packet_filters t)),
        {| used := used b + filter_list_cost (packet_filters t); limit := limit b |}).
Proof.
  intros (Hty & _ & _) (Ho & _ & _) Hi Hs Hb Hl. unfold operation_valid in Ho.
  destruct (packet_filters t) as [|fs|ids];
    cbn [filter_list_size filter_list_cost filter_list_len filters_wire filter_list_typed] in *.
  - rewrite !Z.add_0_r. destruct (operation t); try done; by destruct b.
  - destruct Ho as (Hop & Hn & Hv & _).
    assert (Hd : ∀ op, (let? _ := validate_wire_filter_count op (len fs) in
      let? (filters, c, b) := decode_filters (Z.to_nat (len fs))
        (cur (mjoin (filter_wire <$> fs) ++ rest) o) b in Ok (Filters filters, c, b))
      = Ok (Filters fs, cur rest (o + sum ((λ f, 3 + contents_size f) <$> fs)),
            {| used := used b + sum (filter_cost <$> fs); limit := limit b |})).
    { intros op. unfold validate_wire_filter_count.
      rewrite (proj2 (Z.leb_le 1 _)), (proj2 (Z.leb_le _ 15)) by lia. cbn [negb andb].
      unfold len. rewrite Nat2Z.id. by rewrite decode_filters_ok. }
    destruct (operation t); try (exfalso; set_solver); apply Hd.
  - destruct Ho as (-> & Hn & _). cbn [decode_packet_filters]. unfold validate_wire_filter_count.
    rewrite (proj2 (Z.leb_le 1 _)), (proj2 (Z.leb_le _ 15)) by lia. cbn [negb andb].
    unfold len at 1. rewrite Nat2Z.id. unfold PacketFilterIdentifier in *.
    by rewrite decode_identifiers_ok.
Qed.

Lemma decode_parameter_list_ok ps o b :
  Forall parameter_typed ps →
  o + sum ((λ p, 2 + parameter_contents_len p) <$> ps) ≤ USIZE_MAX →
  used b + sum (parameter_cost <$> ps) ≤ limit b → limit b ≤ USIZE_MAX →
  decode_parameter_list (negb (bool_decide (ps = []))) (cur (mjoin (parameter_wire <$> ps)) o) b
  = Ok ps.
Proof.
  intros Hty Ho Hb Hl. unfold decode_parameter_list. destruct ps as [|p ps]; [done|].
  rewrite bool_decide_false by done. cbn [negb]. change (cursor_is_empty _) with false.
  cbv iota. cbn [input]. by rewrite decode_parameters_ok by (done || apply parameters_fuel).
Qed.

Lemma ignore_template t :
  operation t = Ignore → template_valid t → t = ignored (ignored_contents t).
Proof.
  intros Ho (Hop & _). unfold operation_valid in Hop. destruct t as [o l ps ic]. cbn in *. subst o.
  destruct l; cbn in *; [by subst ps|destruct Hop; set_solver|by destruct Hop].
Qed.

Lemma other_ignored t : operation t ≠ Ignore → template_valid t → ignored_contents t = [].
Proof.
  intros Ho (Hop & _). unfold operation_valid in Hop.
  destruct (packet_filters t), (operation t); naive_solver.
Qed.

Lemma decode_ignore_ok l o :
  template_typed (ignored l) → template_valid (ignored l) → o + len l ≤ USIZE_MAX →
  decode_ignore false 0 (cur l o) = Ok (ignored l).
Proof.
  intros Hty Hv Ho. unfold decode_ignore. cbn [orb negb Z.eqb input].
  pose proof (take_bytes_ok l [] o (len l) "ignored TFT contents" eq_refl Ho) as Ht.
  rewrite app_nil_r in Ht. rewrite Ht. unfold ignore_with_contents.
  change (Build_TrafficFlowTemplate _ _ _ l) with (ignored l). by rewrite validate_ok.
Qed.

Lemma decode_value_complete t context data :
  encodes context t data → max_ies context ≤ USIZE_MAX →
  decode_value_with_context data context = Ok t.
Proof.
  intros (-> & Hty & Hv & Hm & He) Hi. pose proof (value_size_pos t) as Hpos.
  assert (Hs : value_size t ≤ 255) by apply Hv. unfold decode_value_with_context.
  pose proof (len_template_wire t Hty) as Hlen. rewrite Hlen in *.
  unfold TFT_MIN_VALUE_LEN, TFT_MAX_VALUE_LEN.
  rewrite (proj2 (Z.leb_le 1 _)), (proj2 (Z.leb_le _ 255)), (proj2 (Z.ltb_ge _ _)) by lia.
  cbn [negb andb]. pose proof (filter_list_count t Hv) as Hc.
  unfold Cursor_new, template_wire. rewrite read_u8_ok by (unfold USIZE_MAX; lia).
  destruct (header_octet_bits (operation t) (negb (bool_decide (parameters t = [])))
    (filter_list_len (packet_filters t))) as (-> & -> & ->); [lia|]. cbn [map_err].
  change (0 + 1) with 1.
  pose proof (filter_list_size_nonneg (packet_filters t)) as Hf.
  pose proof (parameter_sizes_nonneg (parameters t)) as Hp.
  pose proof (parameter_costs_nonneg (parameters t)) as Hpc.
  pose proof (len_nonneg (ignored_contents t)) as Hig. unfold value_size, element_count in *.
  case_bool_decide as Ho.
  - pose proof (ignore_template t Ho Hv) as Et.
    assert (1 + len (ignored_contents t) ≤ USIZE_MAX) by (unfold USIZE_MAX; lia).
    rewrite Et in Hty, Hv |- *. by apply decode_ignore_ok.
  - rewrite decode_packet_filters_ok by (done || (unfold USIZE_MAX; lia) || (cbn [used limit ElementBudget_new]; lia)).
    rewrite (other_ignored t Ho Hv), app_nil_r.
    rewrite decode_parameter_list_ok
      by (apply Hty || (unfold USIZE_MAX; lia) || (cbn [used limit ElementBudget_new]; lia)).
    unfold TrafficFlowTemplate_new. rewrite <- (other_ignored t Ho Hv).
    replace (Build_TrafficFlowTemplate _ _ _ _) with t by (by destruct t). by rewrite validate_ok.
Qed.

(** ** The element budget of [decode_value] *)

Lemma component_count cs : 2 * len cs ≤ sum (encoded_len <$> cs).
Proof.
  induction cs as [|c cs IH]; [done|]. rewrite fmap_cons, sum_cons, len_cons.
  pose proof (encoded_len_pos c). lia.
Qed.

Lemma filter_list_cost_bound l : filter_list_cost l ≤ filter_list_size l.
Proof.
  destruct l as [|fs|ids]; cbn [filter_list_cost filter_list_size]; [done| |done].
  induction fs as [|f fs IH]; [done|]. rewrite !fmap_cons, !sum_cons.
  pose proof (component_count (components f)). pose proof (len_nonneg (components f)).
  unfold filter_cost at 1, contents_size at 1. lia.
Qed.

Lemma element_count_bound t : element_count t ≤ value_size t.
Proof.
  unfold element_count, value_size. pose proof (filter_list_cost_bound (packet_filters t)).
  pose proof (len_nonneg (ignored_contents t)).
  assert (sum (parameter_cost <$> parameters t)
          ≤ sum ((λ p, 2 + parameter_contents_len p) <$> parameters t)).
  { induction (parameters t) as [|p ps IH]; [done|]. rewrite !fmap_cons, !sum_cons.
    pose proof (parameter_cost_bound p). lia. }
  lia.
Qed.

(** ** The properties *)

(** C34. The decoder returns on every octet string, and it accepts exactly the
    encodings of the valid templates that keep within the caller's message
    length and element limits: no two octet strings decode to one template, and
    encoding an accepted template appends the very octets it came from. *)
Theorem tft_decode_exact data context t destination :
  bytes_ok data → 0 ≤ max_ies context ≤ USIZE_MAX →
  returns (decode_value_with_context data context)
  ∧ (decode_value_with_context data context = Ok t ↔ encodes context t data)
  ∧ (decode_value_with_context data context = Ok t →
     encode_value t destination = (destination ++ data, Ok ())).
Proof.
  intros Hd [Hm Hu]. pose proof (decode_value_sound data context Hd Hm) as Hs.
  assert (Hi : decode_value_with_context data context = Ok t → encodes context t data).
  { intros H. by rewrite H in Hs. }
  split; [by intros H; rewrite H in Hs|]. split.
  - split; [done|]. intros He. by apply decode_value_complete.
  - intros H. destruct (Hi H) as (-> & Hty & Hv & _). by apply encode_value_ok.
Qed.

(** Every template [validate] accepts is encoded, in the announced number of
    octets, at least one and at most 255, and decoding them with the default
    limits gives the template back: the element budget of [decode_value] is
    enough for every value. [Encode::encode] writes the same octets, or leaves
    the destination alone when the context has no room for them. *)
Theorem tft_encode_decode t destination context :
  template_typed t → template_validate t = Ok () →
  ∃ data,
    encode_value t destination = (destination ++ data, Ok ())
    ∧ encoded_value_len t = Ok (len data) ∧ 1 ≤ len data ≤ 255
    ∧ decode_value data = Ok t
    ∧ tft_encode t destination context
      = if encode_max_message_len context <? len data
        then (destination, Err (EncodeError_new
               (CapacityExceeded (len data) (encode_max_message_len context))))
        else (destination ++ data, Ok ()).
Proof.
  intros Hty Hok. pose proof (template_validate_spec t Hty) as Hv. rewrite Hok in Hv. cbn in Hv.
  pose proof (len_template_wire t Hty) as Hl. pose proof (value_size_pos t).
  pose proof (element_count_bound t). assert (value_size t ≤ 255) by apply Hv.
  exists (template_wire t). rewrite Hl. split; [by apply encode_value_ok|].
  split; [by apply encoded_value_len_ok|]. split; [lia|]. split.
  - apply decode_value_complete; [|done]. split; [done|]. split; [done|]. split; [done|].
    rewrite Hl. change (value_size t ≤ 255 ∧ element_count t ≤ 255). lia.
  - unfold tft_encode, check_capacity. rewrite encoded_value_len_ok by done. cbn [map_err].
    destruct (_ <? _); [done|]. by rewrite encode_value_ok.
Qed.

Definition sample_octets : bytes :=
  [0x31; 0x33; 7; 17; 0x10; 192; 0; 2; 53; 255; 255; 255; 255; 0x30; 17; 0x50; 0; 53; 0x87; 8; 0;
   1; 3; 1; 2; 3; 2; 4; 1; 2; 0; 1; 3; 1; 3; 9; 1; 170].

Lemma tft_decode_exact_witness :
  decode_value_with_context sample_octets value_context = Ok sample_template
  ∧ encodes value_context sample_template sample_octets
  ∧ encode_value sample_template [0] = (0 :: sample_octets, Ok ()).
Proof.
  assert (Hd : decode_value_with_context sample_octets value_context = Ok sample_template)
    by (vm_compute; reflexivity).
  assert (Hb : bytes_ok sample_octets) by (repeat constructor; cbn; lia).
  destruct (tft_decode_exact sample_octets value_context sample_template [0] Hb) as (_ & Hi & He).
  - split; vm_compute; discriminate.
  - split; [exact Hd|]. split; [exact (proj1 Hi Hd)|exact (He Hd)].
Defined.

Lemma tft_encode_decode_witness :
  ∃ data, encode_value sample_template [] = ([] ++ data, Ok ()) ∧ decode_value data = Ok sample_template.
Proof.
  destruct (tft_encode_decode sample_template [] EncodeContext_default sample_typed)
    as (data & H1 & _ & _ & H2 & _); [vm_compute; reflexivity|].
  exists data. exact (conj H1 H2).
Defined.
