(* ===== verification/SessionTypes.v ===== *)
(** Data of the session store, [crates/opc-session-store/src]: session keys and
    records ([model.rs], [record.rs]), lease guards ([lease.rs]), errors
    ([error.rs]), backend capabilities ([capability.rs]).  A [u64] is a [Z] kept in
    range by the invariants; a timestamp is a [Z] of nanoseconds. *)
From S2P Require Import Prelude.

(** ** Keys, [model.rs] *)

Inductive SessionKeyType :=
| SubscriberContext
| PduSession
| TeidMapping
| PfcpSeid
| HandoverTransaction
| OtherKey (name : string).

#[export] Instance SessionKeyType_eq_dec : EqDecision SessionKeyType.
Proof. solve_decision. Defined.

Definition key_type_as_str (t : SessionKeyType) : string :=
  match t with
  | SubscriberContext => "subscriber-context"
  | PduSession => "pdu-session"
  | TeidMapping => "teid-mapping"
  | PfcpSeid => "pfcp-seid"
  | HandoverTransaction => "handover-transaction"
  | OtherKey value => value
  end.

(** [SessionKey], and [FakeMapKey], which holds the same four fields. *)
Record SessionKey := {
  tenant : string;
  nf_kind : string;
  key_type : SessionKeyType;
  stable_id : bytes;
}.

#[export] Instance SessionKey_eq_dec : EqDecision SessionKey.
Proof. solve_decision. Defined.

#[export] Instance SessionKeyType_countable : Countable SessionKeyType.
Proof.
  refine (inj_countable'
    (λ t, match t with
          | SubscriberContext => inl 0%nat | PduSession => inl 1%nat
          | TeidMapping => inl 2%nat | PfcpSeid => inl 3%nat
          | HandoverTransaction => inl 4%nat | OtherKey n => inr n
          end)
    (λ c, match c with
          | inl 0%nat => SubscriberContext | inl 1%nat => PduSession
          | inl 2%nat => TeidMapping | inl 3%nat => PfcpSeid
          | inl _ => HandoverTransaction | inr n => OtherKey n
          end) _).
  by intros [].
Defined.

#[export] Instance SessionKey_countable : Countable SessionKey.
Proof.
  refine (inj_countable' (λ k, (tenant k, nf_kind k, key_type k, stable_id k))
    (λ '(t, n, y, s), {| tenant := t; nf_kind := n; key_type := y; stable_id := s |}) _).
  by intros [].
Defined.

Inductive StateClass :=
| AuthoritativeSession
| DataplaneLookup
| ReplicatedDr
| TelemetryDerived
| EphemeralProcedure.

#[export] Instance StateClass_eq_dec : EqDecision StateClass.
Proof. solve_decision. Defined.

Definition requires_monotonic_generation (c : StateClass) : bool :=
  match c with TelemetryDerived => false | _ => true end.

(** ** Records, [record.rs] *)

Inductive SessionPayloadEncoding :=
| Plaintext
| LegacyPlaintext
| EnvelopeV1
| Unclassified.

#[export] Instance SessionPayloadEncoding_eq_dec : EqDecision SessionPayloadEncoding.
Proof. solve_decision. Defined.

Record EncryptedSessionPayload := {
  payload_bytes : bytes;
  payload_encoding : SessionPayloadEncoding;
}.

#[export] Instance EncryptedSessionPayload_eq_dec : EqDecision EncryptedSessionPayload.
Proof. solve_decision. Defined.

Record StoredSessionRecord := {
  rec_key : SessionKey;
  generation : Z;
  rec_owner : string;
  rec_fence : Z;
  state_class : StateClass;
  state_type : string;
  rec_expires_at : option Z;
  rec_payload : EncryptedSessionPayload;
}.

#[export] Instance StoredSessionRecord_eq_dec : EqDecision StoredSessionRecord.
Proof. solve_decision. Defined.

Definition is_expired_at (r : StoredSessionRecord) (now : Z) : bool :=
  match rec_expires_at r with Some expires_at => expires_at <=? now | None => false end.

(** ** Lease guards, [lease.rs] *)

Record LeaseGuard := {
  lease_key : SessionKey;
  lease_owner : string;
  lease_fence : Z;
  lease_acquired_at : Z;
  lease_expires_at : Z;
  lease_credential_id : Z;
}.

#[export] Instance LeaseGuard_eq_dec : EqDecision LeaseGuard.
Proof. solve_decision. Defined.

(** ** Errors, [error.rs] *)

Inductive StoreError :=
| NotFound
| StaleFence
| CasConflict
| CasIdempotencyConflict
| CasIdempotencyOutcomeUnavailable
| BackendOperationOutcomeUnavailable
| TopologyAuthorityRevoked
| CapabilityNotSupported (what : string)
| BackendUnavailable (what : string)
| InvalidKey (what : string)
| InvalidReplicationSequence
| InvalidReplicationLogRange
| ReplicationLogPageTooLarge (requested max : Z)
| ReplicationLogCursorCompacted (resume_from : Z)
| ReplicationWatchCatchUpRequired
| ReplicationOperationLimitExceeded
| InvalidSessionTtl
| InvalidRecordExpiry
| RecordExpiryPreflightLimitExceeded
| LeaseHeld
| LeaseExpired
| Crypto (what : string)
| Serialization (what : string)
| PayloadTooLarge (actual max : Z)
| InvalidRestoreScanRequest (what : string)
| InvalidRestoreScanResponse (what : string)
| RestoreScanPageTooLarge (requested max : Z)
| RestoreScanCursorStale
| RestoreScanWorkBudgetExceeded
| RestoreScanResponseTooLarge (max_bytes : Z)
| FencedTransitionRequestConflict
| FencedTransitionOutcomeUnknown
| FencedTransitionRequestExpired
| FencedTransitionHistoryFull
| FencedTransitionRetentionExhausted
| FencedTransitionStorageExhausted
| FencedTransitionHistoryEpochRetired
| FencedTransitionHistoryEpochNotActive
| SessionRecordReserved
| FencedTransitionVoided
| FencedTransitionLeaseDeferred
| FencedTransitionRecoveryJournalUnavailable
| KeyProviderUnavailable (what : string).

#[export] Instance StoreError_eq_dec : EqDecision StoreError.
Proof. solve_decision. Defined.

Inductive LeaseError :=
| AlreadyHeld
| LeaseErrorExpired
| LeaseErrorStaleFence
| LeaseErrorNotFound
| LeaseErrorInvalidSessionTtl
| OperationOutcomeUnavailable
| LeaseErrorBackend (what : StoreError)
| LeaseErrorMessage (what : string).

(** [From<StoreError> for LeaseError]; the display text of the remaining errors
    is kept as the error itself. *)
Definition lease_error_from (err : StoreError) : LeaseError :=
  match err with
  | LeaseHeld => AlreadyHeld
  | LeaseExpired => LeaseErrorExpired
  | StaleFence | TopologyAuthorityRevoked => LeaseErrorStaleFence
  | NotFound => LeaseErrorNotFound
  | InvalidSessionTtl => LeaseErrorInvalidSessionTtl
  | BackendOperationOutcomeUnavailable => OperationOutcomeUnavailable
  | other => LeaseErrorBackend other
  end.

(** ** Capabilities, [capability.rs], and limits *)

Record BackendCapabilities := {
  atomic_compare_and_set : bool;
  monotonic_fencing_token : bool;
  per_key_ttl : bool;
  server_side_lease_expiry : bool;
  ordered_replication_log : bool;
  batch_write : bool;
  cap_watch : bool;
  restore_scan : bool;
  max_value_bytes : Z;
}.

Definition all_enabled : BackendCapabilities :=
  {| atomic_compare_and_set := true;
     monotonic_fencing_token := true;
     per_key_ttl := true;
     server_side_lease_expiry := true;
     ordered_replication_log := true;
     batch_write := true;
     cap_watch := true;
     restore_scan := true;
     max_value_bytes := USIZE_MAX |}.

Record FakeBackendLimits := {
  max_tracked_keys : Z;
  max_replication_entries : Z;
}.

Definition FakeBackendLimits_default : FakeBackendLimits :=
  {| max_tracked_keys := 1000000; max_replication_entries := 1000000 |}.
