(* ===== verification/SessionRetention.v ===== *)
(** Bounded exact key history, [crates/opc-session-store/src/key_retention.rs]: the
    total order of keys used when dead keys are retired, and the epoch rotation
    that forgets old keys while raising the fence floor every absent key is read
    with. *)
From stdpp Require Import sorting.
From S2P Require Import Prelude.
From S2P Require Import SessionTypes.

(** ** Lawful comparisons *)

Record lawful {A} (cmp : A → A → comparison) : Prop := {
  cmp_eq : ∀ x y, cmp x y = Eq ↔ x = y;
  cmp_opp : ∀ x y, cmp y x = CompOpp (cmp x y);
  cmp_trans : ∀ x y z, cmp x y = Lt → cmp y z = Lt → cmp x z = Lt;
}.

Definition lex {A B} (ca : A → A → comparison) (cb : B → B → comparison)
    (x y : A * B) : comparison :=
  match ca x.1 y.1 with Eq => cb x.2 y.2 | c => c end.

Fixpoint lex_list {A} (ca : A → A → comparison) (l k : list A) : comparison :=
  match l, k with
  | [], [] => Eq
  | [], _ :: _ => Lt
  | _ :: _, [] => Gt
  | x :: l, y :: k => match ca x y with Eq => lex_list ca l k | c => c end
  end.

(** The octets of a string, as [str]'s [Ord] compares them. *)
Fixpoint str_bytes (s : string) : bytes :=
  match s with
  | EmptyString => []
  | String c s => Z.of_N (Ascii.N_of_ascii c) :: str_bytes s
  end.

Definition str_compare (a b : string) : comparison :=
  lex_list Z.compare (str_bytes a) (str_bytes b).

(** ** Key order and retention *)

Definition key_kind (t : SessionKeyType) : Z :=
  match t with
  | SubscriberContext => 0
  | PduSession => 1
  | TeidMapping => 2
  | PfcpSeid => 3
  | HandoverTransaction => 4
  | OtherKey _ => 5
  end.

Definition compare_key_parts (left right : SessionKey) : comparison :=
  let parts k := (tenant k, (nf_kind k, (key_type_as_str (key_type k),
                    (key_kind (key_type k), stable_id k)))) in
  lex str_compare (lex str_compare (lex str_compare (lex Z.compare (lex_list Z.compare))))
    (parts left) (parts right).

Definition RETIRED_KEYS_PER_EPOCH : Z := 32768.

Inductive RotationReason := Threshold | Capacity.

#[export] Instance RotationReason_eq_dec : EqDecision RotationReason.
Proof. solve_decision. Defined.

Record KeyRetention := {
  epoch : Z;
  floor_prev : Z;
  floor_cur : Z;
  retired_max : Z;
  retired_count : Z;
  last_rotation : option RotationReason;
}.

#[export] Instance KeyRetention_eq_dec : EqDecision KeyRetention.
Proof. solve_decision. Defined.

Definition KeyRetention_default : KeyRetention :=
  {| epoch := 0; floor_prev := 0; floor_cur := 0; retired_max := 0; retired_count := 0;
     last_rotation := None |}.

(** The new metadata, the new allocation counter and the newest epoch to remove.
    The checked sums are [u64] sums; [u64] and [usize] have the same bound. *)
Definition rotate (k : KeyRetention) (next_fence counter_limit async_floor : Z)
    (reason : RotationReason) : outcome StoreError (KeyRetention * Z * option Z) :=
  let exhausted := FencedTransitionStorageExhausted in
  let? epoch' := ok_or (checked_add (epoch k) 1) exhausted in
  let floor_prev' := Z.max (floor_cur k) async_floor in
  let? above_floor := ok_or (checked_add floor_prev' 1) exhausted in
  let? above_retired := ok_or (checked_add (retired_max k) 1) exhausted in
  let floor_cur' := Z.max above_floor above_retired in
  let? above_cur := ok_or (checked_add floor_cur' 1) exhausted in
  let allocated := Z.max next_fence above_cur in
  if counter_limit <? allocated then Err exhausted
  else Ok ({| epoch := epoch'; floor_prev := floor_prev'; floor_cur := floor_cur';
              retired_max := 0; retired_count := 0; last_rotation := Some reason |},
           allocated, checked_sub epoch' 2).

Definition observed_absent_fence (k : KeyRetention) (async_floor : Z) : Z :=
  Z.max (floor_cur k) async_floor.

Definition accepts_absent_fence (k : KeyRetention) (expected async_floor : Z) : bool :=
  (expected =? Z.max (floor_prev k) async_floor) || (expected =? Z.max (floor_cur k) async_floor).

Definition retains_epoch (k : KeyRetention) (retired_epoch : Z) : bool :=
  (retired_epoch =? epoch k) || bool_decide (checked_sub (epoch k) 1 = Some retired_epoch).

Definition valid_retired_fence (k : KeyRetention) (retired_epoch fence : Z) : bool :=
  retains_epoch k retired_epoch
  && (if retired_epoch =? epoch k then fence <=? retired_max k else fence <? floor_cur k).

Definition retention_valid (k : KeyRetention) (next_fence : Z) : bool :=
  (floor_prev k <=? floor_cur k)
  && (floor_cur k <? next_fence)
  && (retired_max k <? next_fence)
  && (retired_count k <? RETIRED_KEYS_PER_EPOCH)
  && (negb (retired_count k =? 0) || (retired_max k =? 0))
  && (negb (epoch k =? 0) || ((floor_prev k =? 0) && (floor_cur k =? 0)))
  && Bool.eqb (epoch k =? 0) (bool_decide (last_rotation k = None))
  && ((epoch k =? 0) || (floor_prev k <? floor_cur k)).

(** ** The key order is total *)

Lemma lawful_Z : lawful Z.compare.
Proof.
  split.
  - intros x y. apply Z.compare_eq_iff.
  - intros x y. apply Z.compare_antisym.
  - intros x y z. rewrite !Z.compare_lt_iff. lia.
Qed.

Lemma lawful_lex {A B} (ca : A → A → comparison) (cb : B → B → comparison) :
  lawful ca → lawful cb → lawful (lex ca cb).
Proof.
  intros Ha Hb. split.
  - intros [a b] [a' b']. unfold lex; cbn. rewrite pair_equal_spec, <- (cmp_eq _ Ha), <- (cmp_eq _ Hb).
    destruct (ca a a'); naive_solver.
  - intros [a b] [a' b']. unfold lex; cbn. rewrite (cmp_opp _ Ha a a').
    destruct (ca a a'); cbn; [apply Hb|done..].
  - intros [a b] [a' b'] [a'' b'']. unfold lex; cbn.
    destruct (ca a a') eqn:E1, (ca a' a'') eqn:E2; try done; intros H1 H2;
      rewrite ?(cmp_eq _ Ha) in *; subst.
    + rewrite (proj2 (cmp_eq _ Ha _ _) eq_refl). by eapply Hb.
    + by rewrite E2.
    + by rewrite E1.
    + by rewrite (cmp_trans _ Ha _ _ _ E1 E2).
Qed.

Lemma lawful_lex_list {A} (ca : A → A → comparison) : lawful ca → lawful (lex_list ca).
Proof.
  intros Ha. split.
  - intros l. induction l as [|x l IH]; intros [|y k]; cbn; try done.
    destruct (ca x y) eqn:E; [|split; [done|]; intros [= -> ->];
      by rewrite (proj2 (cmp_eq _ Ha _ _) eq_refl) in E..].
    apply (cmp_eq _ Ha) in E as ->. rewrite IH. naive_solver.
  - intros l. induction l as [|x l IH]; intros [|y k]; cbn; try done.
    rewrite (cmp_opp _ Ha x y). destruct (ca x y); cbn; [apply IH|done..].
  - intros l. induction l as [|x l IH]; intros [|y k] [|z m]; cbn; try done.
    destruct (ca x y) eqn:E1, (ca y z) eqn:E2; try done; intros H1 H2;
      rewrite ?(cmp_eq _ Ha) in *; subst.
    + rewrite (proj2 (cmp_eq _ Ha _ _) eq_refl). by eapply IH.
    + by rewrite E2.
    + by rewrite E1.
    + by rewrite (cmp_trans _ Ha _ _ _ E1 E2).
Qed.

Lemma str_bytes_inj a b : str_bytes a = str_bytes b → a = b.
Proof.
  revert b. induction a as [|c a IH]; intros [|d b]; cbn; try done.
  intros [= Hc Hs]. f_equal; [|by apply IH].
  apply N2Z.inj in Hc. by rewrite <- (Ascii.ascii_N_embedding c), Hc, Ascii.ascii_N_embedding.
Qed.

Lemma lawful_pull {A B} (f : A → B) (cmp : B → B → comparison) :
  (∀ x y, f x = f y → x = y) → lawful cmp → lawful (λ x y, cmp (f x) (f y)).
Proof.
  intros Hf H. split.
  - intros x y. rewrite (cmp_eq _ H). split; [apply Hf|by intros ->].
  - intros x y. apply H.
  - intros x y z. apply H.
Qed.

Lemma lawful_key : lawful compare_key_parts.
Proof.
  assert (Hs : lawful str_compare).
  { apply (lawful_pull str_bytes); [apply str_bytes_inj|]. apply lawful_lex_list, lawful_Z. }
  unfold compare_key_parts. apply (lawful_pull (λ k, (tenant k, (nf_kind k,
    (key_type_as_str (key_type k), (key_kind (key_type k), stable_id k)))))).
  - intros [t n y s] [t' n' y' s']; cbn. intros [= -> -> Hy Hk ->]. f_equal.
    destruct y, y'; cbn in *; try done. by subst.
  - repeat apply lawful_lex; try done; [apply lawful_Z|]. apply lawful_lex_list, lawful_Z.
Qed.

(** ** Retirement order *)

Definition key_le (a b : SessionKey) : Prop := compare_key_parts a b ≠ Gt.

#[export] Instance key_le_dec a b : Decision (key_le a b).
Proof. unfold key_le. apply _. Defined.

#[export] Instance key_le_total : Total key_le.
Proof.
  intros a b. unfold key_le. rewrite (cmp_opp _ lawful_key a b).
  destruct (compare_key_parts a b); cbn; auto.
Qed.

#[export] Instance key_le_trans : Transitive key_le.
Proof.
  intros a b c. unfold key_le. intros H1 H2 H3.
  destruct (compare_key_parts a b) eqn:E1; [|clear H1|done].
  - apply (cmp_eq _ lawful_key) in E1 as ->. done.
  - destruct (compare_key_parts b c) eqn:E2; [|clear H2|done].
    + apply (cmp_eq _ lawful_key) in E2 as ->. by rewrite E1 in H3.
    + by rewrite (cmp_trans _ lawful_key _ _ _ E1 E2) in H3.
Qed.

#[export] Instance key_le_anti : AntiSymm (=) key_le.
Proof.
  intros a b. unfold key_le. rewrite (cmp_opp _ lawful_key a b). intros H1 H2.
  apply (cmp_eq _ lawful_key). by destruct (compare_key_parts a b).
Qed.

(** [sort_unstable_by] with [compare_key_parts]: keys are distinct, so stability
    does not matter. *)
Definition sort_keys (l : list SessionKey) : list SessionKey := merge_sort key_le l.

Lemma sort_keys_perm l : sort_keys l ≡ₚ l.
Proof. apply merge_sort_Permutation. Qed.

(**  The order in which dead keys are retired does not depend on how the
    candidate set was iterated: two replicas holding the same candidates, in
    whatever order, process them identically. *)
Theorem retire_order_deterministic l k : l ≡ₚ k → sort_keys l = sort_keys k.
Proof.
  intros Hp. apply (StronglySorted_unique key_le).
  - apply StronglySorted_merge_sort; apply _.
  - apply StronglySorted_merge_sort; apply _.
  - by rewrite !sort_keys_perm.
Qed.

Definition sample_key (n : Z) : SessionKey :=
  {| tenant := "t1"; nf_kind := "smf"; key_type := PduSession; stable_id := [n] |}.

Lemma retire_order_witness :
  sort_keys [sample_key 2; sample_key 1] = sort_keys [sample_key 1; sample_key 2].
Proof. apply (retire_order_deterministic [_; _] [_; _]). constructor. Defined.

(** ** Rotation *)

Lemma rotate_inv k next limit af reason k' next' through :
  rotate k next limit af reason = Ok (k', next', through) →
  epoch k' = epoch k + 1
  ∧ floor_prev k' = Z.max (floor_cur k) af
  ∧ floor_cur k' = Z.max (floor_prev k' + 1) (retired_max k + 1)
  ∧ retired_max k' = 0 ∧ retired_count k' = 0 ∧ last_rotation k' = Some reason
  ∧ next' = Z.max next (floor_cur k' + 1) ∧ next' ≤ limit
  ∧ through = checked_sub (epoch k') 2.
Proof.
  unfold rotate, ok_or. intros H. rust_cases. to_prop.
  repeat match goal with H : checked_add _ _ = Some _ |- _ =>
    apply checked_add_some in H as [-> _] end. cbn. split_and!; try done; lia.
Qed.

Lemma retention_valid_iff k next :
  retention_valid k next = true ↔
  floor_prev k ≤ floor_cur k ∧ floor_cur k < next ∧ retired_max k < next
  ∧ retired_count k < RETIRED_KEYS_PER_EPOCH
  ∧ (retired_count k = 0 → retired_max k = 0)
  ∧ (epoch k = 0 → floor_prev k = 0 ∧ floor_cur k = 0)
  ∧ (epoch k = 0 ↔ last_rotation k = None)
  ∧ (epoch k ≠ 0 → floor_prev k < floor_cur k).
Proof.
  unfold retention_valid. rewrite !andb_true_iff, !orb_true_iff, !negb_true_iff, !andb_true_iff,
    Bool.eqb_true_iff, !Z.leb_le, !Z.ltb_lt, !Z.eqb_eq, !Z.eqb_neq.
  assert (((epoch k =? 0) = bool_decide (last_rotation k = None))
          ↔ (epoch k = 0 ↔ last_rotation k = None)) as ->.
  { destruct (Z.eqb_spec (epoch k) 0); case_bool_decide; naive_solver. }
  split; [intros; destruct_and!|intros; destruct_and!];
    split_and!; try done; intuition lia.
Qed.

Lemma rotate_valid k next limit af reason k' next' through :
  0 ≤ epoch k → 0 ≤ floor_cur k → 0 ≤ af → 0 ≤ retired_max k →
  rotate k next limit af reason = Ok (k', next', through) →
  retention_valid k' next' = true
  ∧ observed_absent_fence k af < observed_absent_fence k' af
  ∧ next ≤ next'.
Proof.
  intros He Hf Ha Hr H. apply rotate_inv in H as (E1 & E2 & E3 & E4 & E5 & E6 & E7 & E8 & ->).
  rewrite retention_valid_iff. unfold observed_absent_fence, RETIRED_KEYS_PER_EPOCH.
  rewrite E4, E5, E6. split_and!; try lia; try done.
  split; [lia|done].
Qed.

(**  An epoch rotation keeps the committed retention metadata valid and moves
    the fence every absent key is read with strictly upwards.  A fence observed
    for an absent key stays acceptable across exactly one rotation and is refused
    after the second. *)
Theorem rotation_window k next limit af reason1 reason2 k1 next1 t1 k2 next2 t2 :
  0 ≤ epoch k → 0 ≤ floor_cur k → 0 ≤ af → 0 ≤ retired_max k →
  retention_valid k next = true →
  rotate k next limit af reason1 = Ok (k1, next1, t1) →
  rotate k1 next1 limit af reason2 = Ok (k2, next2, t2) →
  let prepared := observed_absent_fence k af in
  accepts_absent_fence k prepared af = true
  ∧ accepts_absent_fence k1 prepared af = true
  ∧ accepts_absent_fence k2 prepared af = false
  ∧ prepared < observed_absent_fence k1 af < observed_absent_fence k2 af
  ∧ retention_valid k1 next1 = true ∧ retention_valid k2 next2 = true.
Proof.
  intros He Hf Ha Hr Hv H1 H2 prepared.
  destruct (rotate_valid _ _ _ _ _ _ _ _ He Hf Ha Hr H1) as (V1 & O1 & N1).
  pose proof (rotate_inv _ _ _ _ _ _ _ _ H1) as (E1 & E2 & E3 & E4 & _).
  destruct (rotate_valid k1 next1 limit af reason2 k2 next2 t2) as (V2 & O2 & N2); [lia..|done|].
  pose proof (rotate_inv _ _ _ _ _ _ _ _ H2) as (F1 & F2 & F3 & F4 & _).
  unfold prepared, accepts_absent_fence, observed_absent_fence in *.
  split_and!; try done.
  - rewrite Z.eqb_refl. apply orb_true_r.
  - rewrite (proj2 (Z.eqb_eq _ (Z.max (floor_prev k1) af))) by lia. done.
  - rewrite !(proj2 (Z.eqb_neq _ _)) by lia. done.
Qed.

Lemma rotation_window_witness :
  ∃ k1 n1 t1 k2 n2 t2,
    rotate KeyRetention_default 101 U64_MAX 100 Capacity = Ok (k1, n1, t1)
    ∧ rotate k1 n1 U64_MAX 100 Capacity = Ok (k2, n2, t2)
    ∧ accepts_absent_fence k1 100 100 = true ∧ accepts_absent_fence k2 100 100 = false.
Proof.
  eexists _, _, _, _, _, _. split; [vm_compute; reflexivity|].
  split; [vm_compute; reflexivity|].
  destruct (rotation_window KeyRetention_default 101 U64_MAX 100 Capacity Capacity
    {| epoch := 1; floor_prev := 100; floor_cur := 101; retired_max := 0; retired_count := 0;
       last_rotation := Some Capacity |} 102 None
    {| epoch := 2; floor_prev := 101; floor_cur := 102; retired_max := 0; retired_count := 0;
       last_rotation := Some Capacity |} 103 (Some 0))
    as (_ & H1 & H2 & _); try done.
Defined.

(** The fate of a retired fence in a rotation. *)
Lemma rotate_bucket k next limit af reason k' next' through e f :
  0 ≤ epoch k → 0 ≤ e → 0 ≤ af →
  rotate k next limit af reason = Ok (k', next', through) →
  valid_retired_fence k e f = true →
  if match through with Some t => e <=? t | None => false end
  then f < floor_prev k' ∧ f < observed_absent_fence k' af
  else valid_retired_fence k' e f = true.
Proof.
  intros He0 He Ha H Hv. apply rotate_inv in H as (E1 & E2 & E3 & E4 & E5 & E6 & E7 & E8 & ->).
  unfold valid_retired_fence, retains_epoch, observed_absent_fence in *.
  rewrite andb_true_iff, orb_true_iff, bool_decide_eq_true, checked_sub_some in Hv.
  rewrite E1.
  assert ((match checked_sub (epoch k + 1) 2 with Some t => e <=? t | None => false end)
          = (e <=? epoch k - 1)) as ->.
  { unfold checked_sub. destruct (Z.leb_spec 2 (epoch k + 1)).
    - by replace (epoch k + 1 - 2) with (epoch k - 1) by lia.
    - symmetry. apply Z.leb_gt. lia. }
  destruct (Z.eqb_spec e (epoch k)) as [->|Hne].
  - destruct Hv as [_ Hv%Z.leb_le]. rewrite (proj2 (Z.leb_gt _ _)) by lia.
    rewrite (proj2 (Z.eqb_neq (epoch k) (epoch k + 1))) by lia. cbn [orb].
    rewrite bool_decide_true by (apply checked_sub_some; lia). apply Z.ltb_lt. lia.
  - destruct Hv as [[Hv|[Hv Hv']] Hf]; [done|]. apply Z.ltb_lt in Hf.
    rewrite (proj2 (Z.leb_le e _)) by lia. lia.
Qed.

(**  Forgetting is safe: when a rotation drops the buckets up to [through],
    every exact fence that was valid in a dropped bucket lies below the floor the
    key is read with from then on, and every fence in a kept bucket stays valid. *)
Theorem rotation_forgets_safely k next limit af reason k' next' through e f :
  0 ≤ epoch k → 0 ≤ e → 0 ≤ af →
  rotate k next limit af reason = Ok (k', next', through) →
  valid_retired_fence k e f = true →
  if match through with Some t => e <=? t | None => false end
  then f < floor_prev k' ∧ f < observed_absent_fence k' af
  else valid_retired_fence k' e f = true.
Proof. apply rotate_bucket. Qed.

Lemma rotation_forgets_witness :
  5 < 9 ∧ 5 < observed_absent_fence
                {| epoch := 2; floor_prev := 9; floor_cur := 10; retired_max := 0;
                   retired_count := 0; last_rotation := Some Threshold |} 0.
Proof.
  apply (rotation_forgets_safely
    {| epoch := 1; floor_prev := 2; floor_cur := 9; retired_max := 0; retired_count := 0;
       last_rotation := Some Threshold |} 20 U64_MAX 0 Threshold
    {| epoch := 2; floor_prev := 9; floor_cur := 10; retired_max := 0; retired_count := 0;
       last_rotation := Some Threshold |} 20 (Some 0) 0 5); done.
Defined.
