(* ===== verification/SessionTtl.v ===== *)
(** Session deadlines, [crates/opc-session-store/src/ttl.rs]: TTL and record-expiry
    validation and the saturating clock sum.  A [std] duration is a [Z] of
    nanoseconds; the largest timestamp of the [time] crate is a parameter. *)
From S2P Require Import Prelude.
From S2P Require Import SessionTypes.

(** What the session store uses of the [time] crate: the largest representable
    timestamp.  [OffsetDateTime::checked_add] fails exactly beyond it; the sums
    here never go below the representable range. *)
Class TimestampRange := timestamp_max : Z.

Definition NANOS : Z := 1000000000.
Definition I64_MAX : Z := 9223372036854775807.

Definition as_secs (d : Z) : Z := d / NANOS.
Definition subsec_nanos (d : Z) : Z := Z.modulo d NANOS.

Definition MAX_SESSION_TTL : Z := 365 * 24 * 60 * 60 * NANOS.

Section Ttl.
Context `{TimestampRange}.

Definition datetime_checked_add (t d : Z) : option Z :=
  if t + d <=? timestamp_max then Some (t + d) else None.

Definition validate_session_ttl (ttl : Z) : outcome StoreError () :=
  if MAX_SESSION_TTL <? ttl then Err InvalidSessionTtl else Ok ().

(** [i64::try_from(as_secs)] and the sum of whole seconds and nanoseconds, which
    the [time] duration type refuses only past [i64] seconds. *)
Definition signed_duration (d : Z) : option Z :=
  if I64_MAX <? as_secs d then None else Some (as_secs d * NANOS + subsec_nanos d).

Definition checked_session_deadline (now ttl : Z) : outcome StoreError Z :=
  let? _ := validate_session_ttl ttl in
  let? delta := ok_or (signed_duration ttl) InvalidSessionTtl in
  ok_or (datetime_checked_add now delta) InvalidSessionTtl.

Definition checked_record_expiry_limit (reference_timestamp : Z) : Z :=
  default timestamp_max
    (datetime_checked_add reference_timestamp (365 * 24 * 60 * 60 * NANOS)).

Definition validate_record_expiry_profile (expires_at : option Z) (c : StateClass)
    : outcome StoreError () :=
  if bool_decide (expires_at = None) && bool_decide (c = EphemeralProcedure)
  then Err InvalidRecordExpiry else Ok ().

Definition validate_record_expiry_at (expires_at : option Z) (c : StateClass)
    (reference_timestamp : Z) : outcome StoreError () :=
  let? _ := validate_record_expiry_profile expires_at c in
  match expires_at with
  | None => Ok ()
  | Some expires_at =>
      if checked_record_expiry_limit reference_timestamp <? expires_at
      then Err InvalidRecordExpiry else Ok ()
  end.

Definition validate_stored_record_expiry_at (r : StoredSessionRecord)
    (reference_timestamp : Z) : outcome StoreError () :=
  validate_record_expiry_at (rec_expires_at r) (state_class r) reference_timestamp.

Definition saturating_add_elapsed (anchor elapsed : Z) : Z :=
  match signed_duration elapsed with
  | None => timestamp_max
  | Some delta => default timestamp_max (datetime_checked_add anchor delta)
  end.

(** ** Exactness *)

Lemma signed_duration_exact d :
  0 ≤ d → signed_duration d = if as_secs d <=? I64_MAX then Some d else None.
Proof.
  intros Hd. unfold signed_duration, as_secs, subsec_nanos.
  replace (d / NANOS * NANOS + d `mod` NANOS) with d
    by (rewrite (Z.div_mod d NANOS) at 1 by done; lia).
  rewrite Z.ltb_antisym. by destruct (_ <=? _).
Qed.

Lemma checked_session_deadline_iff now ttl t :
  0 ≤ ttl →
  checked_session_deadline now ttl = Ok t
  ↔ ttl ≤ MAX_SESSION_TTL ∧ now + ttl ≤ timestamp_max ∧ t = now + ttl.
Proof.
  intros Ht. unfold checked_session_deadline, validate_session_ttl, datetime_checked_add.
  destruct (Z.ltb_spec MAX_SESSION_TTL ttl); [naive_solver lia|].
  rewrite signed_duration_exact by done.
  rewrite (proj2 (Z.leb_le (as_secs ttl) _)).
  2: { unfold as_secs. transitivity (MAX_SESSION_TTL / NANOS); [|done].
       by apply Z.div_le_mono. }
  cbn [ok_or]. destruct (Z.leb_spec (now + ttl) timestamp_max); naive_solver lia.
Qed.

Lemma checked_session_deadline_err now ttl :
  returns (checked_session_deadline now ttl).
Proof.
  unfold checked_session_deadline, validate_session_ttl, datetime_checked_add.
  destruct (_ <? _); [done|]. unfold ok_or. repeat case_match; done.
Qed.
End Ttl.

(**  Deadlines are exact: [checked_session_deadline] gives [now + ttl] to the
    nanosecond whenever the TTL is within the one-year bound and the sum is
    representable, and a typed error otherwise, never a panic. *)
Theorem session_deadline_exact `{TimestampRange} now ttl :
  0 ≤ ttl →
  checked_session_deadline now ttl
  = if (ttl <=? MAX_SESSION_TTL) && (now + ttl <=? timestamp_max)
    then Ok (now + ttl) else Err InvalidSessionTtl.
Proof.
  intros Ht. destruct (_ && _) eqn:E.
  - rewrite andb_true_iff, !Z.leb_le in E.
    apply (proj2 (checked_session_deadline_iff now ttl (now + ttl) Ht)). tauto.
  - unfold checked_session_deadline, validate_session_ttl, datetime_checked_add.
    rewrite Z.ltb_antisym. destruct (ttl <=? MAX_SESSION_TTL); [|done]. cbn [negb andb] in *.
    rewrite signed_duration_exact by done. destruct (_ <=? I64_MAX); [|done].
    cbn [ok_or]. by rewrite E.
Qed.

Lemma session_deadline_witness :
  checked_session_deadline (H := 100) 7 20
  = if (20 <=? MAX_SESSION_TTL) && (7 + 20 <=? timestamp_max (TimestampRange := 100))
    then Ok (7 + 20) else Err InvalidSessionTtl.
Proof. apply (session_deadline_exact (H := 100) 7 20). lia. Defined.

(**  The clock sum saturates exactly: within the representable range it is
    the sum, and beyond it the largest timestamp, so the clock never goes back as
    time elapses. *)
Theorem elapsed_clock_saturates `{TimestampRange} anchor elapsed :
  0 ≤ elapsed → anchor ≤ timestamp_max → timestamp_max - anchor ≤ I64_MAX * NANOS →
  saturating_add_elapsed anchor elapsed = Z.min (anchor + elapsed) timestamp_max.
Proof.
  intros He Ha Hr. unfold saturating_add_elapsed. rewrite signed_duration_exact by done.
  destruct (Z.leb_spec (as_secs elapsed) I64_MAX) as [Hs|Hs].
  - unfold datetime_checked_add. destruct (Z.leb_spec (anchor + elapsed) timestamp_max); cbn; lia.
  - unfold as_secs in Hs. assert (I64_MAX * NANOS < elapsed); [|lia].
    pose proof (Z.mul_div_le elapsed NANOS). unfold NANOS in *. lia.
Qed.

Lemma elapsed_clock_witness :
  saturating_add_elapsed (H := 100) 90 30 = Z.min (90 + 30) 100.
Proof. apply (elapsed_clock_saturates (H := 100) 90 30); vm_compute; congruence. Defined.
