(* ===== verification/SessionReplication.v ===== *)
(** The replication journal of the session store: operations and entries
    ([crates/opc-session-store/src/backend.rs]) and the replay policy with its
    command framing ([replay_policy.rs]). *)
From S2P Require Import Prelude.
From S2P Require Import SessionTypes.
From S2P Require Import SessionTtl.

(** ** Replay policy *)

Inductive ReplicationCommandBoundary :=
| Single
| Start (id : bytes) (following_entries : Z)
| Continue (id : bytes) (remaining_entries : Z).

Inductive ReplicationRecoveryBoundary :=
| RecoveryNone
| Recover (previous_sequence : Z).

#[export] Instance ReplicationCommandBoundary_eq_dec : EqDecision ReplicationCommandBoundary.
Proof. solve_decision. Defined.

#[export] Instance ReplicationRecoveryBoundary_eq_dec : EqDecision ReplicationRecoveryBoundary.
Proof. solve_decision. Defined.

Record ReplicationReplayPolicy := {
  prune_expired : bool;
  retire_dead : bool;
  policy_async_fence_floor : Z;
  capacity_rotations : Z;
  policy_internal_key_count : Z;
  command : ReplicationCommandBoundary;
  recovery : ReplicationRecoveryBoundary;
}.

#[export] Instance ReplicationReplayPolicy_eq_dec : EqDecision ReplicationReplayPolicy.
Proof. solve_decision. Defined.

Definition MAX_REPLICATION_INTERNAL_KEYS : Z := 1048576.

Definition policy_preserve : ReplicationReplayPolicy :=
  {| prune_expired := false; retire_dead := false; policy_async_fence_floor := 0;
     capacity_rotations := 0; policy_internal_key_count := 0; command := Single;
     recovery := RecoveryNone |}.

Definition policy_prune_and_retire : ReplicationReplayPolicy :=
  {| prune_expired := true; retire_dead := true; policy_async_fence_floor := 0;
     capacity_rotations := 0; policy_internal_key_count := 0; command := Single;
     recovery := RecoveryNone |}.

Definition policy_validate (p : ReplicationReplayPolicy) : outcome StoreError () :=
  let invalid := Serialization "invalid replication replay policy" in
  if (I64_MAX - 2 <? policy_async_fence_floor p)
     || (2 <? capacity_rotations p)
     || (MAX_REPLICATION_INTERNAL_KEYS <? policy_internal_key_count p)
  then Err invalid
  else
    let? _ :=
      (match command p with
       | Single => Ok ()
       | Start _ following_entries =>
           if (1 <=? following_entries) && (following_entries <=? 255) then Ok ()
           else Err invalid
       | Continue _ remaining_entries =>
           if (remaining_entries <=? 254) && (capacity_rotations p =? 0)
              && bool_decide (recovery p = RecoveryNone)
           then Ok () else Err invalid
       end) in
    match recovery p with
    | RecoveryNone => Ok ()
    | Recover previous_sequence =>
        if (policy_async_fence_floor p =? 0)
           || (policy_async_fence_floor p <? previous_sequence)
           || negb (bool_decide (command p = Single))
           || prune_expired p
           || retire_dead p
        then Err invalid else Ok ()
    end.

(** ** Operations and entries *)

Inductive ProtectedRosterEstablishedSuccessor :=
| Put (record : StoredSessionRecord)
| Delete
| NoOp.

#[export] Instance Successor_eq_dec : EqDecision ProtectedRosterEstablishedSuccessor.
Proof. solve_decision. Defined.

Inductive ReplicationOp :=
| OpCompareAndSet (key : SessionKey) (expected_generation : option Z) (credential_id : Z)
    (guard_expires_at : Z) (new_record : StoredSessionRecord)
| OpDeleteFenced (key : SessionKey) (owner : string) (fence : Z)
| OpRefreshTtl (key : SessionKey) (owner : string) (fence ttl expires_at : Z)
| OpAcquireLease (key : SessionKey) (owner : string) (fence credential_id ttl expires_at : Z)
| OpRenewLease (key : SessionKey) (owner : string) (fence credential_id ttl expires_at : Z)
| OpReleaseLease (key : SessionKey) (owner : string) (fence credential_id : Z)
| OpProtectedRosterEstablished (key : SessionKey) (expected_record : StoredSessionRecord)
    (successor : ProtectedRosterEstablishedSuccessor) (owner : string)
    (fence credential_id guard_acquired_at guard_expires_at : Z)
| OpBatch (ops : list ReplicationOp)
| OpProtectedRosterEstablishedCreate (key : SessionKey) (record : StoredSessionRecord)
    (owner : string) (fence credential_id guard_acquired_at guard_expires_at : Z).

Section ReplicationOp_nested_ind.
Variable P : ReplicationOp → Prop.
Hypothesis leaf : ∀ op, (∀ ops, op ≠ OpBatch ops) → P op.
Hypothesis batch : ∀ ops, Forall P ops → P (OpBatch ops).

Fixpoint ReplicationOp_nested_ind (op : ReplicationOp) : P op.
Proof.
  destruct op as [| | | | | | |ops|]; try (apply leaf; congruence).
  apply batch. induction ops as [|o ops IH]; [constructor|].
  constructor; [apply ReplicationOp_nested_ind|apply IH].
Defined.
End ReplicationOp_nested_ind.

#[export] Instance ReplicationOp_eq_dec : EqDecision ReplicationOp.
Proof.
  unfold EqDecision, RelDecision. fix go 1. intros x y. unfold Decision. decide equality;
    try exact (decide (_ = _)).
  revert ops0. induction ops as [|o ops IH]; intros [|o' ops']; [by left|by right..|].
  destruct (go o o') as [->|?]; [|right; congruence].
  destruct (IH ops') as [->|?]; [by left|right; congruence].
Defined.

Record ReplicationEntry := {
  sequence : Z;
  tx_id : bytes;
  op : ReplicationOp;
  timestamp : Z;
  replay_policy : ReplicationReplayPolicy;
}.

#[export] Instance ReplicationEntry_eq_dec : EqDecision ReplicationEntry.
Proof. solve_decision. Defined.

Definition MAX_REPLICATION_OPERATION_DEPTH : Z := 16.
Definition MAX_REPLICATION_OPERATIONS_PER_ENTRY : Z := 256.

(** The explicit stack of [validate_structure], its top first.  A turn that does
    not return raises [visited], which the limit bounds, so 258 turns are enough. *)
Fixpoint structure_loop (fuel : nat) (pending : list (ReplicationOp * Z)) (visited : Z)
    : outcome StoreError () :=
  match fuel with
  | O => Crash
  | S fuel =>
      match pending with
      | [] => Ok ()
      | (op, depth) :: pending =>
          let? visited := ok_or (checked_add visited 1) ReplicationOperationLimitExceeded in
          if (MAX_REPLICATION_OPERATIONS_PER_ENTRY <? visited)
             || (MAX_REPLICATION_OPERATION_DEPTH <? depth)
          then Err ReplicationOperationLimitExceeded
          else
            match op with
            | OpBatch ops =>
                if negb (bool_decide (ops = [])) && (MAX_REPLICATION_OPERATION_DEPTH <=? depth)
                then Err ReplicationOperationLimitExceeded
                else
                  let? scheduled :=
                    ok_or (checked_add visited (len pending)) ReplicationOperationLimitExceeded in
                  let? remaining :=
                    ok_or (checked_sub MAX_REPLICATION_OPERATIONS_PER_ENTRY scheduled)
                      ReplicationOperationLimitExceeded in
                  if remaining <? len ops then Err ReplicationOperationLimitExceeded
                  else
                    let? child_depth :=
                      ok_or (checked_add depth 1) ReplicationOperationLimitExceeded in
                    structure_loop fuel (((λ child, (child, child_depth)) <$> ops) ++ pending)
                      visited
            | _ => structure_loop fuel pending visited
            end
      end
  end.

Definition validate_structure (op : ReplicationOp) : outcome StoreError () :=
  structure_loop 258 [(op, 1)] 0.

Section Ttls.
Context `{TimestampRange}.

(** The check of one operation in [validate_ttls_at]; a batch has none of its own. *)
Definition validate_op_ttl (reference_timestamp : Z) (op : ReplicationOp)
    : outcome StoreError () :=
  match op with
  | OpRefreshTtl _ _ _ ttl expires_at
  | OpAcquireLease _ _ _ _ ttl expires_at
  | OpRenewLease _ _ _ _ ttl expires_at =>
      let? latest := checked_session_deadline reference_timestamp ttl in
      let latest_with_legacy_tolerance :=
        default timestamp_max (datetime_checked_add latest 1000) in
      if latest_with_legacy_tolerance <? expires_at then Err InvalidSessionTtl else Ok ()
  | OpCompareAndSet _ _ _ _ new_record =>
      validate_stored_record_expiry_at new_record reference_timestamp
  | OpProtectedRosterEstablished _ expected_record successor _ _ _ _ _ =>
      let? _ := validate_stored_record_expiry_at expected_record reference_timestamp in
      match successor with
      | Put record => validate_stored_record_expiry_at record reference_timestamp
      | _ => Ok ()
      end
  | OpProtectedRosterEstablishedCreate _ record _ _ _ _ _ =>
      validate_stored_record_expiry_at record reference_timestamp
  | OpBatch _ | OpDeleteFenced _ _ _ | OpReleaseLease _ _ _ _ => Ok ()
  end.

(** The second worklist, after the structure has been bounded to 256 nodes. *)
Fixpoint ttl_loop (fuel : nat) (reference_timestamp : Z) (pending : list ReplicationOp)
    : outcome StoreError () :=
  match fuel with
  | O => Crash
  | S fuel =>
      match pending with
      | [] => Ok ()
      | op :: pending =>
          let? _ := validate_op_ttl reference_timestamp op in
          ttl_loop fuel reference_timestamp
            (match op with OpBatch ops => rev ops ++ pending | _ => pending end)
      end
  end.

Definition validate_ttls_at (op : ReplicationOp) (reference_timestamp : Z)
    : outcome StoreError () :=
  let? _ := validate_structure op in
  ttl_loop 257 reference_timestamp [op].

Definition validate_sequence (e : ReplicationEntry) : outcome StoreError () :=
  if sequence e =? 0 then Err InvalidReplicationSequence else Ok ().

Definition entry_validate (e : ReplicationEntry) : outcome StoreError () :=
  let? _ := validate_sequence e in
  let? _ := policy_validate (replay_policy e) in
  validate_ttls_at (op e) (timestamp e).
End Ttls.

Definition next_replication_sequence (current : Z) : outcome StoreError Z :=
  ok_or (checked_add current 1) (BackendUnavailable "replication sequence exhausted").

(** [async_fence_floor + 1] cannot overflow: a validated floor is below [i64::MAX]. *)
Definition replication_entry_follows (previous : Z) (e : ReplicationEntry)
    : outcome StoreError bool :=
  match recovery (replay_policy e) with
  | RecoveryNone =>
      let? next := next_replication_sequence previous in
      Ok (sequence e =? next)
  | Recover previous_sequence =>
      let floor := policy_async_fence_floor (replay_policy e) in
      Ok ((previous_sequence =? previous) && (previous <? floor)
          && (sequence e =? floor + 1))
  end.

Fixpoint validate_replication_prefix `{TimestampRange} (previous : Z)
    (entries : list ReplicationEntry) : outcome StoreError () :=
  match entries with
  | [] => Ok ()
  | entry :: entries =>
      let? _ := entry_validate entry in
      let? follows :=
        map_err (λ _, InvalidReplicationSequence) (replication_entry_follows previous entry) in
      if negb follows then Err InvalidReplicationSequence
      else validate_replication_prefix (sequence entry) entries
  end.

(** ** Command framing *)

Record ReplayCommandCursor := {
  cursor_id : bytes;
  cursor_remaining : Z;
  cursor_timestamp : Z;
  cursor_async_fence_floor : Z;
}.

Definition cursor_after (e : ReplicationEntry) : option ReplayCommandCursor :=
  let mk id remaining :=
    Some {| cursor_id := id; cursor_remaining := remaining; cursor_timestamp := timestamp e;
            cursor_async_fence_floor := policy_async_fence_floor (replay_policy e) |} in
  match command (replay_policy e) with
  | Start id following_entries => mk id following_entries
  | Continue id remaining_entries =>
      if 0 <? remaining_entries then mk id remaining_entries else None
  | Single => None
  end.

Definition cursor_advance (pending : option ReplayCommandCursor) (e : ReplicationEntry)
    : outcome StoreError (option ReplayCommandCursor) :=
  let inconsistent := Serialization "inconsistent replication command continuation" in
  let? _ :=
    (match pending, command (replay_policy e) with
     | None, Single | None, Start _ _ => Ok ()
     | Some pending, Continue id remaining_entries =>
         if bool_decide (cursor_id pending = id)
            && (cursor_remaining pending =? remaining_entries + 1)
            && (cursor_timestamp pending =? timestamp e)
            && (cursor_async_fence_floor pending
                =? policy_async_fence_floor (replay_policy e))
         then Ok () else Err inconsistent
     | _, _ => Err inconsistent
     end) in
  let next := cursor_after e in
  match next with
  | Some cursor =>
      let? _ := ok_or (checked_add (sequence e) (cursor_remaining cursor))
                  ReplicationOperationLimitExceeded in
      Ok next
  | None => Ok next
  end.

(** ** The worklists against recursive definitions *)

Fixpoint op_size (op : ReplicationOp) : Z :=
  match op with OpBatch ops => 1 + foldr (λ o n, op_size o + n) 0 ops | _ => 1 end.

Fixpoint op_depth (op : ReplicationOp) : Z :=
  match op with OpBatch ops => 1 + foldr (λ o n, Z.max (op_depth o) n) 0 ops | _ => 1 end.

Fixpoint op_all (P : ReplicationOp → bool) (op : ReplicationOp) : bool :=
  P op && match op with OpBatch ops => forallb (op_all P) ops | _ => true end.

Definition sizes (ops : list ReplicationOp) : Z := foldr (λ o n, op_size o + n) 0 ops.
Definition depths (ops : list ReplicationOp) : Z := foldr (λ o n, Z.max (op_depth o) n) 0 ops.

Lemma op_size_pos op : 1 ≤ op_size op.
Proof.
  induction op as [op Hl|ops IH] using ReplicationOp_nested_ind;
    [destruct op; try done; by edestruct Hl|]. cbn. fold (sizes ops).
  induction IH as [|o ops Ho Hops IH]; [done|]. cbn in *. fold (sizes ops) in *. lia.
Qed.

Lemma sizes_len ops : len ops ≤ sizes ops.
Proof.
  induction ops as [|o ops IH]; [done|]. cbn. fold (sizes ops).
  pose proof (op_size_pos o). len_lia.
Qed.

Lemma sizes_app a b : sizes (a ++ b) = sizes a + sizes b.
Proof. induction a as [|o a IH]; cbn; [done|]. fold (sizes (a ++ b)) (sizes a). lia. Qed.

Lemma sizes_rev a : sizes (rev a) = sizes a.
Proof.
  induction a as [|o a IH]; [done|]. cbn [rev]. rewrite sizes_app, IH. cbn.
  fold (sizes a). lia.
Qed.

Lemma op_depth_pos op : 1 ≤ op_depth op.
Proof.
  destruct op as [| | | | | | |ops|]; cbn; try lia. fold (depths ops).
  induction ops as [|o ops IH]; [done|]. cbn in *. fold (depths ops) in *. lia.
Qed.

Lemma depths_nonempty ops : ops ≠ [] → 1 ≤ depths ops.
Proof.
  destruct ops as [|o ops]; [done|]. intros _. cbn. fold (depths ops).
  pose proof (op_depth_pos o). lia.
Qed.

(** What the stack of [validate_structure] still has to visit. *)
Definition stack_size (pending : list (ReplicationOp * Z)) : Z := sizes (fst <$> pending).

Definition stack_fits (pending : list (ReplicationOp * Z)) : bool :=
  forallb (λ '(op, d), d + op_depth op - 1 <=? MAX_REPLICATION_OPERATION_DEPTH) pending.

Lemma stack_fits_children ops d :
  forallb (λ '(op, d), d + op_depth op - 1 <=? MAX_REPLICATION_OPERATION_DEPTH)
    ((λ child, (child, d)) <$> ops)
  = (bool_decide (ops = [])) || (d + depths ops - 1 <=? MAX_REPLICATION_OPERATION_DEPTH).
Proof.
  induction ops as [|o ops IH]; [done|]. cbn [fmap list_fmap forallb]. rewrite IH.
  rewrite (bool_decide_false (o :: ops = [])) by done. cbn [orb]. cbn [depths foldr].
  fold (depths ops). pose proof (op_depth_pos o). destruct (decide (ops = [])) as [->|Hne].
  - cbn. replace (Z.max (op_depth o) 0) with (op_depth o) by lia. apply andb_true_r.
  - rewrite bool_decide_false by done. cbn [orb].
    destruct (Z.leb_spec (d + op_depth o - 1) MAX_REPLICATION_OPERATION_DEPTH),
      (Z.leb_spec (d + depths ops - 1) MAX_REPLICATION_OPERATION_DEPTH); cbn; symmetry;
      first [apply Z.leb_le; lia|apply Z.leb_gt; lia].
Qed.

Lemma stack_size_children ops d rest :
  stack_size (((λ child, (child, d)) <$> ops) ++ rest) = sizes ops + stack_size rest.
Proof.
  unfold stack_size. rewrite fmap_app, sizes_app. f_equal. f_equal.
  rewrite <- list_fmap_compose. induction ops as [|o ops IH]; cbn; [done|]. by f_equal.
Qed.

Lemma structure_loop_spec fuel : ∀ pending visited,
  0 ≤ visited ≤ 256 → 258 - visited ≤ Z.of_nat fuel →
  Forall (λ '(_, d), 1 ≤ d ≤ 17) pending →
  structure_loop fuel pending visited
  = if (visited + stack_size pending <=? 256) && stack_fits pending then Ok ()
    else Err ReplicationOperationLimitExceeded.
Proof.
  induction fuel as [|fuel IH]; intros pending visited Hv Hf Hd; [lia|].
  destruct pending as [|[op d] pending]; cbn [structure_loop].
  { rewrite (proj2 (Z.leb_le _ 256)) by (cbn; lia). done. }
  apply Forall_cons in Hd as [Hd Hd'].
  assert (Hss : stack_size ((op, d) :: pending) = op_size op + stack_size pending) by done.
  assert (Hsp : len pending ≤ stack_size pending).
  { unfold stack_size. pose proof (sizes_len (fst <$> pending)) as H.
    unfold len in *. by rewrite length_fmap in H. }
  pose proof (op_size_pos op). pose proof (op_depth_pos op). pose proof (len_nonneg pending).
  rewrite Hss. cbn [stack_fits forallb]. fold (stack_fits pending).
  rewrite checked_add_ok by (unfold USIZE_MAX; lia). cbn [ok_or].
  unfold MAX_REPLICATION_OPERATIONS_PER_ENTRY, MAX_REPLICATION_OPERATION_DEPTH in *.
  destruct (Z.ltb_spec 256 (visited + 1)); cbn [orb].
  { by rewrite (proj2 (Z.leb_gt _ 256)) by lia. }
  destruct (Z.ltb_spec 16 d).
  { rewrite (proj2 (Z.leb_gt _ 16)) by lia. by rewrite andb_false_r. }
  destruct op as [| | | | | | |ops|];
    try (rewrite IH by (done || lia); cbn [op_size op_depth];
         replace (d + 1 - 1 <=? 16) with true by (symmetry; apply Z.leb_le; lia);
         by rewrite Z.add_assoc).
  cbn [op_size op_depth] in *. fold (sizes ops) (depths ops) in *.
  pose proof (sizes_len ops). pose proof (len_nonneg ops).
  assert (Hfit : (d + (1 + depths ops) - 1 <=? 16)
                 = bool_decide (ops = []) || (d + 1 + depths ops - 1 <=? 16)).
  { case_bool_decide; [subst; cbn; apply Z.leb_le; lia|]. cbn [orb]. f_equal. lia. }
  rewrite Hfit. destruct (negb _ && _) eqn:Eb.
  { apply andb_true_iff in Eb as [Hne%negb_true_iff Hd16%Z.leb_le].
    rewrite Hne. apply bool_decide_eq_false in Hne. pose proof (depths_nonempty ops Hne).
    cbn [orb]. rewrite (proj2 (Z.leb_gt _ 16)) by lia. by rewrite andb_false_r. }
  unfold checked_add at 1. destruct (Z.leb_spec (visited + 1 + len pending) USIZE_MAX);
    cbn [ok_or]; [|by rewrite (proj2 (Z.leb_gt _ 256)) by (unfold USIZE_MAX in *; lia)].
  unfold checked_sub. destruct (Z.leb_spec (visited + 1 + len pending) 256); cbn [ok_or].
  2: by rewrite (proj2 (Z.leb_gt _ 256)) by lia.
  destruct (Z.ltb_spec (256 - (visited + 1 + len pending)) (len ops)).
  { by rewrite (proj2 (Z.leb_gt _ 256)) by lia. }
  rewrite checked_add_ok by (unfold USIZE_MAX; lia). cbn [ok_or].
  rewrite IH; [|lia..|].
  - rewrite stack_size_children. unfold stack_fits. rewrite forallb_app, stack_fits_children.
    fold (stack_fits pending). unfold MAX_REPLICATION_OPERATION_DEPTH.
    replace (visited + 1 + (sizes ops + stack_size pending))
      with (visited + (1 + sizes ops + stack_size pending)) by lia. done.
  - apply Forall_app. split; [|done]. apply Forall_fmap, Forall_true. intros o. cbn. lia.
Qed.

Lemma validate_structure_spec op :
  validate_structure op
  = if (op_size op <=? MAX_REPLICATION_OPERATIONS_PER_ENTRY)
       && (op_depth op <=? MAX_REPLICATION_OPERATION_DEPTH)
    then Ok () else Err ReplicationOperationLimitExceeded.
Proof.
  unfold validate_structure. rewrite structure_loop_spec; [|lia..|by repeat constructor].
  unfold stack_size, stack_fits, sizes. cbn [fmap list_fmap foldr forallb fst].
  replace (0 + (op_size op + 0)) with (op_size op) by lia.
  replace (1 + op_depth op - 1) with (op_depth op) by lia. by rewrite andb_true_r.
Qed.

Lemma validate_record_expiry_returns `{TimestampRange} r t :
  returns (validate_stored_record_expiry_at r t).
Proof.
  unfold validate_stored_record_expiry_at, validate_record_expiry_at,
    validate_record_expiry_profile. repeat case_match; done.
Qed.

Lemma validate_op_ttl_returns `{TimestampRange} t o : returns (validate_op_ttl t o).
Proof.
  destruct o; cbn; try done; try apply validate_record_expiry_returns;
    try (pose proof (checked_session_deadline_err t ttl) as Hr;
         destruct (checked_session_deadline t ttl); try done; by case_match).
  pose proof (validate_record_expiry_returns expected_record t) as Hr.
  destruct (validate_stored_record_expiry_at expected_record t); try done.
  destruct successor; try done. apply validate_record_expiry_returns.
Qed.

Definition op_ttl_ok `{TimestampRange} (t : Z) (o : ReplicationOp) : bool :=
  is_ok (validate_op_ttl t o).

Lemma op_all_eq P o :
  op_all P o = P o && match o with OpBatch ops => forallb (op_all P) ops | _ => true end.
Proof. by destruct o. Qed.

Lemma ttl_loop_spec `{TimestampRange} t fuel : ∀ pending,
  sizes pending < Z.of_nat fuel →
  returns (ttl_loop fuel t pending)
  ∧ (ttl_loop fuel t pending = Ok () ↔ forallb (op_all (op_ttl_ok t)) pending = true).
Proof.
  induction fuel as [|fuel IH]; intros pending Hf.
  { pose proof (sizes_len pending). len_lia. }
  destruct pending as [|o pending]; cbn [ttl_loop forallb]; [done|].
  assert (Hs : sizes (o :: pending) = op_size o + sizes pending) by done.
  pose proof (op_size_pos o). pose proof (validate_op_ttl_returns t o) as Hr.
  destruct (IH (match o with OpBatch ops => rev ops ++ pending | _ => pending end)) as [R E].
  { destruct o as [| | | | | | |ops|]; try lia. rewrite sizes_app, sizes_rev.
    cbn [op_size] in Hs. fold (sizes ops) in Hs. lia. }
  rewrite op_all_eq. unfold op_ttl_ok at 1.
  destruct (validate_op_ttl t o) as [[]|e|]; [|split; [done|by split; [|cbn]]|by destruct Hr].
  split; [done|]. rewrite E.
  cbn [is_ok andb]. destruct o as [| | | | | | |ops|]; try done.
  rewrite forallb_app, !andb_true_iff. rewrite !forallb_forall.
  setoid_rewrite <- in_rev. done.
Qed.

(**  Validation of untrusted operation trees: the bounded explicit stack
    decides exactly whether the tree has at most 256 operations nested at most 16
    deep, and an entry's operations are accepted exactly when moreover every
    operation in the tree passes its own deadline check; the traversal always
    finishes. *)
Theorem operation_tree_validation `{TimestampRange} o t :
  validate_structure o
  = (if (op_size o <=? MAX_REPLICATION_OPERATIONS_PER_ENTRY)
        && (op_depth o <=? MAX_REPLICATION_OPERATION_DEPTH)
     then Ok () else Err ReplicationOperationLimitExceeded)
  ∧ returns (validate_ttls_at o t)
  ∧ (validate_ttls_at o t = Ok ()
     ↔ op_size o ≤ 256 ∧ op_depth o ≤ 16 ∧ op_all (op_ttl_ok t) o = true).
Proof.
  split; [apply validate_structure_spec|].
  unfold validate_ttls_at. rewrite validate_structure_spec.
  unfold MAX_REPLICATION_OPERATIONS_PER_ENTRY, MAX_REPLICATION_OPERATION_DEPTH.
  destruct (Z.leb_spec (op_size o) 256); cbn [andb]; [|split; [done|naive_solver lia]].
  destruct (Z.leb_spec (op_depth o) 16); cbn [andb]; [|split; [done|naive_solver lia]].
  destruct (ttl_loop_spec t 257 [o]) as [R E]; [cbn; lia|]. split; [done|]. rewrite E.
  cbn [forallb]. rewrite andb_true_r. naive_solver.
Qed.
