(* ===== verification/SessionStore.v ===== *)
(** The in-memory session backend and lease manager,
    [crates/opc-session-store/src/fake/mod.rs] and [fake/read_expiry.rs]: its state,
    the operations on a staged copy of it, and the commands that stage, validate,
    finalize and publish.  Definitions only; the theorems are in the files that
    follow.

    The mutex that every command holds makes a command one step: a function from
    the backend to the backend.  The clock's sample is an argument.  Watcher
    channels and the [lab-memory] feature are not modelled. *)
From S2P Require Import Prelude.
From S2P Require Import SessionTypes.
From S2P Require Import SessionTtl.
From S2P Require Import SessionRetention.
From S2P Require Import SessionReplication.

(** ** State *)

Record LeaseEntry := {
  active : bool;
  credential_id : Z;
  owner : string;
  fence : Z;
  acquired_at : Z;
  expires_at : Z;
  guard_expires_at : Z;
}.

#[export] Instance LeaseEntry_eq_dec : EqDecision LeaseEntry.
Proof. solve_decision. Defined.

Record PendingReplayCommand := {
  pending_fences : gmap SessionKey Z;
  pending_floor_prev : Z;
  pending_remaining : Z;
  pending_id : bytes;
  pending_async_fence_floor : Z;
  pending_timestamp : Z;
}.

Record FakeBackendState := {
  records : gmap SessionKey StoredSessionRecord;
  leases : gmap SessionKey LeaseEntry;
  key_fences : gmap SessionKey Z;
  key_retention : KeyRetention;
  async_fence_floor : Z;
  internal_key_count : Z;
  pending_replay_command : option PendingReplayCommand;
  retired_keys : gmap SessionKey Z;
  retired_index : gset (Z * SessionKey);
  retirement_candidates : gset SessionKey;
  committed_time : option Z;
  next_fence : Z;
  next_credential_id : Z;
  compacted_replication_sequence : Z;
  last_replication_sequence : Z;
  replication_log : list ReplicationEntry;
}.

Definition empty_state : FakeBackendState :=
  {| records := ∅; leases := ∅; key_fences := ∅; key_retention := KeyRetention_default;
     async_fence_floor := 0; internal_key_count := 0; pending_replay_command := None;
     retired_keys := ∅; retired_index := ∅; retirement_candidates := ∅;
     committed_time := None; next_fence := 1; next_credential_id := 1;
     compacted_replication_sequence := 0; last_replication_sequence := 0;
     replication_log := [] |}.

(** Field updates. *)
Definition with_records (st : FakeBackendState) r :=
  {| records := r; leases := leases st; key_fences := key_fences st;
     key_retention := key_retention st; async_fence_floor := async_fence_floor st;
     internal_key_count := internal_key_count st;
     pending_replay_command := pending_replay_command st; retired_keys := retired_keys st;
     retired_index := retired_index st; retirement_candidates := retirement_candidates st;
     committed_time := committed_time st; next_fence := next_fence st;
     next_credential_id := next_credential_id st;
     compacted_replication_sequence := compacted_replication_sequence st;
     last_replication_sequence := last_replication_sequence st;
     replication_log := replication_log st |}.

Definition with_leases (st : FakeBackendState) l :=
  {| records := records st; leases := l; key_fences := key_fences st;
     key_retention := key_retention st; async_fence_floor := async_fence_floor st;
     internal_key_count := internal_key_count st;
     pending_replay_command := pending_replay_command st; retired_keys := retired_keys st;
     retired_index := retired_index st; retirement_candidates := retirement_candidates st;
     committed_time := committed_time st; next_fence := next_fence st;
     next_credential_id := next_credential_id st;
     compacted_replication_sequence := compacted_replication_sequence st;
     last_replication_sequence := last_replication_sequence st;
     replication_log := replication_log st |}.

Definition with_key_fences (st : FakeBackendState) f :=
  {| records := records st; leases := leases st; key_fences := f;
     key_retention := key_retention st; async_fence_floor := async_fence_floor st;
     internal_key_count := internal_key_count st;
     pending_replay_command := pending_replay_command st; retired_keys := retired_keys st;
     retired_index := retired_index st; retirement_candidates := retirement_candidates st;
     committed_time := committed_time st; next_fence := next_fence st;
     next_credential_id := next_credential_id st;
     compacted_replication_sequence := compacted_replication_sequence st;
     last_replication_sequence := last_replication_sequence st;
     replication_log := replication_log st |}.

Definition with_retired (st : FakeBackendState) r i :=
  {| records := records st; leases := leases st; key_fences := key_fences st;
     key_retention := key_retention st; async_fence_floor := async_fence_floor st;
     internal_key_count := internal_key_count st;
     pending_replay_command := pending_replay_command st; retired_keys := r;
     retired_index := i; retirement_candidates := retirement_candidates st;
     committed_time := committed_time st; next_fence := next_fence st;
     next_credential_id := next_credential_id st;
     compacted_replication_sequence := compacted_replication_sequence st;
     last_replication_sequence := last_replication_sequence st;
     replication_log := replication_log st |}.

Definition with_candidates (st : FakeBackendState) c :=
  {| records := records st; leases := leases st; key_fences := key_fences st;
     key_retention := key_retention st; async_fence_floor := async_fence_floor st;
     internal_key_count := internal_key_count st;
     pending_replay_command := pending_replay_command st; retired_keys := retired_keys st;
     retired_index := retired_index st; retirement_candidates := c;
     committed_time := committed_time st; next_fence := next_fence st;
     next_credential_id := next_credential_id st;
     compacted_replication_sequence := compacted_replication_sequence st;
     last_replication_sequence := last_replication_sequence st;
     replication_log := replication_log st |}.

Definition with_retention (st : FakeBackendState) k n :=
  {| records := records st; leases := leases st; key_fences := key_fences st;
     key_retention := k; async_fence_floor := async_fence_floor st;
     internal_key_count := internal_key_count st;
     pending_replay_command := pending_replay_command st; retired_keys := retired_keys st;
     retired_index := retired_index st; retirement_candidates := retirement_candidates st;
     committed_time := committed_time st; next_fence := n;
     next_credential_id := next_credential_id st;
     compacted_replication_sequence := compacted_replication_sequence st;
     last_replication_sequence := last_replication_sequence st;
     replication_log := replication_log st |}.

Definition with_counters (st : FakeBackendState) f c :=
  {| records := records st; leases := leases st; key_fences := key_fences st;
     key_retention := key_retention st; async_fence_floor := async_fence_floor st;
     internal_key_count := internal_key_count st;
     pending_replay_command := pending_replay_command st; retired_keys := retired_keys st;
     retired_index := retired_index st; retirement_candidates := retirement_candidates st;
     committed_time := committed_time st; next_fence := f; next_credential_id := c;
     compacted_replication_sequence := compacted_replication_sequence st;
     last_replication_sequence := last_replication_sequence st;
     replication_log := replication_log st |}.

Definition with_pending (st : FakeBackendState) p :=
  {| records := records st; leases := leases st; key_fences := key_fences st;
     key_retention := key_retention st; async_fence_floor := async_fence_floor st;
     internal_key_count := internal_key_count st; pending_replay_command := p;
     retired_keys := retired_keys st; retired_index := retired_index st;
     retirement_candidates := retirement_candidates st; committed_time := committed_time st;
     next_fence := next_fence st; next_credential_id := next_credential_id st;
     compacted_replication_sequence := compacted_replication_sequence st;
     last_replication_sequence := last_replication_sequence st;
     replication_log := replication_log st |}.

Definition with_floor (st : FakeBackendState) a :=
  {| records := records st; leases := leases st; key_fences := key_fences st;
     key_retention := key_retention st; async_fence_floor := a;
     internal_key_count := internal_key_count st;
     pending_replay_command := pending_replay_command st; retired_keys := retired_keys st;
     retired_index := retired_index st; retirement_candidates := retirement_candidates st;
     committed_time := committed_time st; next_fence := next_fence st;
     next_credential_id := next_credential_id st;
     compacted_replication_sequence := compacted_replication_sequence st;
     last_replication_sequence := last_replication_sequence st;
     replication_log := replication_log st |}.

Definition with_internal (st : FakeBackendState) n :=
  {| records := records st; leases := leases st; key_fences := key_fences st;
     key_retention := key_retention st; async_fence_floor := async_fence_floor st;
     internal_key_count := n; pending_replay_command := pending_replay_command st;
     retired_keys := retired_keys st; retired_index := retired_index st;
     retirement_candidates := retirement_candidates st; committed_time := committed_time st;
     next_fence := next_fence st; next_credential_id := next_credential_id st;
     compacted_replication_sequence := compacted_replication_sequence st;
     last_replication_sequence := last_replication_sequence st;
     replication_log := replication_log st |}.

Definition with_committed_time (st : FakeBackendState) t :=
  {| records := records st; leases := leases st; key_fences := key_fences st;
     key_retention := key_retention st; async_fence_floor := async_fence_floor st;
     internal_key_count := internal_key_count st;
     pending_replay_command := pending_replay_command st; retired_keys := retired_keys st;
     retired_index := retired_index st; retirement_candidates := retirement_candidates st;
     committed_time := t; next_fence := next_fence st;
     next_credential_id := next_credential_id st;
     compacted_replication_sequence := compacted_replication_sequence st;
     last_replication_sequence := last_replication_sequence st;
     replication_log := replication_log st |}.

Definition with_log (st : FakeBackendState) c l log :=
  {| records := records st; leases := leases st; key_fences := key_fences st;
     key_retention := key_retention st; async_fence_floor := async_fence_floor st;
     internal_key_count := internal_key_count st;
     pending_replay_command := pending_replay_command st; retired_keys := retired_keys st;
     retired_index := retired_index st; retirement_candidates := retirement_candidates st;
     committed_time := committed_time st; next_fence := next_fence st;
     next_credential_id := next_credential_id st; compacted_replication_sequence := c;
     last_replication_sequence := l; replication_log := log |}.

(** ** Fences and capacity *)

Definition RESERVED_KEY_TYPES : list string :=
  ["opc-scope-authority"; "opc-scope-lease"; "opc-scope-batch"; "opc-scope-child";
   "opc-scope-claim"; "opc-scope-profile"; "opc-scope-continuation"]%string.

Definition scope_key (k : SessionKey) : bool :=
  bool_decide (key_type_as_str (key_type k) ∈ RESERVED_KEY_TYPES).

Definition current_fence (st : FakeBackendState) (k : SessionKey) : Z :=
  let f := match key_fences st !! k with
           | Some fence => fence
           | None => if scope_key k then 0 else observed_absent_fence (key_retention st) 0
           end in
  Z.max f (async_fence_floor st).

Definition has_key {A} (m : gmap SessionKey A) (k : SessionKey) : bool :=
  bool_decide (is_Some (m !! k)).

(** Forget that [k] was retired. *)
Definition unretire (st : FakeBackendState) (k : SessionKey) : FakeBackendState :=
  match retired_keys st !! k with
  | Some epoch => with_retired st (delete k (retired_keys st)) (retired_index st ∖ {[(epoch, k)]})
  | None => st
  end.

Definition set_fence (st : FakeBackendState) (k : SessionKey) (f : Z) : FakeBackendState :=
  let st := with_key_fences st (<[k := f]> (key_fences st)) in
  let st := if has_key (records st) k || has_key (leases st) k then unretire st k else st in
  with_candidates st ({[k]} ∪ retirement_candidates st).

Definition fence_below_allocation (st : FakeBackendState) (k : SessionKey) : bool :=
  match key_fences st !! k with Some f => f <? next_fence st | None => false end.

Definition tracked (st : FakeBackendState) : Z := Z.of_nat (size (key_fences st)).

(** [ensure_key_capacity]; [saturating_add] of two map sizes cannot saturate but is
    kept. *)
Definition ensure_key_capacity (st : FakeBackendState) (k : SessionKey) (max_keys : Z)
    : outcome StoreError () :=
  if has_key (key_fences st) k
     || (saturating_add (tracked st) (internal_key_count st) <? max_keys)
  then Ok ()
  else
    let pending_dead :=
      len (List.filter
             (λ k, negb (scope_key k) && negb (has_key (retired_keys st) k)
                   && negb (has_key (records st) k) && negb (has_key (leases st) k)
                   && fence_below_allocation st k)
             (elements (retirement_candidates st))) in
    let? live :=
      ok_or (match checked_sub (tracked st) (Z.of_nat (size (retired_keys st))) with
             | Some count => checked_sub count pending_dead
             | None => None
             end) (BackendUnavailable "fake key capacity index differs") in
    if saturating_add live (internal_key_count st) <? max_keys then Ok ()
    else Err (BackendUnavailable "fake backend tracked-key limit reached").

Definition get_with_state (st : FakeBackendState) (k : SessionKey) (now : Z)
    : option StoredSessionRecord :=
  match records st !! k with
  | Some r => if is_expired_at r now then None else Some r
  | None => None
  end.

(** ** Pruning, retirement and rotation *)

Definition apply_async_floor_to_key (st : FakeBackendState) (k : SessionKey)
    : FakeBackendState :=
  let st :=
    match key_fences st !! k with
    | Some f => with_key_fences st (<[k := Z.max f (async_fence_floor st)]> (key_fences st))
    | None => st
    end in
  match leases st !! k with
  | Some l =>
      if (fence l <=? async_fence_floor st) || (credential_id l <=? async_fence_floor st)
      then with_leases st
             (<[k := {| active := false; credential_id := credential_id l; owner := owner l;
                        fence := fence l; acquired_at := acquired_at l;
                        expires_at := expires_at l;
                        guard_expires_at := guard_expires_at l |}]> (leases st))
      else st
  | None => st
  end.

Definition add_candidate (st : FakeBackendState) (k : SessionKey) : FakeBackendState :=
  with_candidates st ({[k]} ∪ retirement_candidates st).

Definition prune_record (st : FakeBackendState) (k : SessionKey) : FakeBackendState :=
  let st := apply_async_floor_to_key st k in
  add_candidate (with_records st (delete k (records st))) k.

Definition prune_lease (st : FakeBackendState) (k : SessionKey) : FakeBackendState :=
  let st := apply_async_floor_to_key st k in
  add_candidate (with_leases st (delete k (leases st))) k.

Definition prune_state (st : FakeBackendState) (now : Z) : FakeBackendState :=
  let expired := fst <$> List.filter (λ '(_, r), is_expired_at r now) (map_to_list (records st)) in
  let st := fold_left prune_record expired st in
  let expired :=
    fst <$> List.filter (λ '(_, l), negb (active l) || (expires_at l <=? now))
              (map_to_list (leases st)) in
  fold_left prune_lease expired st.

(** One turn of the [while] loop of [rotate_keys_with_floor] on an index entry. *)
Definition forget_retired (st : FakeBackendState) (entry : Z * SessionKey)
    : outcome StoreError FakeBackendState :=
  let '(epoch, k) := entry in
  if negb (bool_decide (retired_keys st !! k = Some epoch))
     || match key_fences st !! k with
        | None => true
        | Some f => floor_prev (key_retention st) <=? f
        end
  then Err (BackendUnavailable "fake exact retirement index differs")
  else
    let st := with_retired st (delete k (retired_keys st)) (retired_index st ∖ {[(epoch, k)]}) in
    Ok (with_key_fences st (delete k (key_fences st))).

Fixpoint forget_all (st : FakeBackendState) (entries : list (Z * SessionKey))
    : outcome StoreError FakeBackendState :=
  match entries with
  | [] => Ok st
  | e :: entries => let? st := forget_retired st e in forget_all st entries
  end.

(** The loop takes the least index entry while its epoch is at most [through]; it
    visits exactly the entries up to [through], once each. *)
Definition rotate_keys_with_floor (st : FakeBackendState) (reason : RotationReason)
    (async_floor : Z) : outcome StoreError FakeBackendState :=
  let? (k, n, through) :=
    rotate (key_retention st) (next_fence st) U64_MAX async_floor reason in
  let st := with_retention st k n in
  match through with
  | None => Ok st
  | Some through =>
      forget_all st (List.filter (λ '(e, _), e <=? through) (elements (retired_index st)))
  end.

Definition rotate_keys (st : FakeBackendState) (reason : RotationReason)
    : outcome StoreError FakeBackendState :=
  rotate_keys_with_floor st reason (async_fence_floor st).

(** One candidate of [retire_dead_keys]. *)
Definition retire_key (st : FakeBackendState) (k : SessionKey)
    : outcome StoreError FakeBackendState :=
  if has_key (records st) k || has_key (leases st) k then Ok (unretire st k)
  else if scope_key k || has_key (retired_keys st) k then Ok st
  else
    match key_fences st !! k with
    | None => Ok st
    | Some f =>
        if next_fence st <=? f then Ok st
        else
          let r := key_retention st in
          let? count :=
            ok_or (checked_add (retired_count r) 1) FencedTransitionStorageExhausted in
          let r :=
            {| epoch := epoch r; floor_prev := floor_prev r; floor_cur := floor_cur r;
               retired_max := Z.max (retired_max r) f; retired_count := count;
               last_rotation := last_rotation r |} in
          let st := with_retention st r (next_fence st) in
          let st := with_retired st (<[k := epoch r]> (retired_keys st))
                      ({[(epoch r, k)]} ∪ retired_index st) in
          if retired_count r =? RETIRED_KEYS_PER_EPOCH then rotate_keys st Threshold
          else Ok st
    end.

Fixpoint retire_all (st : FakeBackendState) (candidates : list SessionKey)
    : outcome StoreError FakeBackendState :=
  match candidates with
  | [] => Ok st
  | k :: candidates => let? st := retire_key st k in retire_all st candidates
  end.

Definition retire_dead_keys (st : FakeBackendState) : outcome StoreError FakeBackendState :=
  let candidates := sort_keys (elements (retirement_candidates st)) in
  retire_all (with_candidates st ∅) candidates.

(** [finalize_key_capacity].  After two rotations nothing is retired any more, so
    the loop body runs at most twice and three turns are enough. *)
Fixpoint finalize_loop (fuel : nat) (st : FakeBackendState) (maximum rotations : Z)
    : outcome StoreError (FakeBackendState * Z) :=
  if maximum <? saturating_add (tracked st) (internal_key_count st) then
    match fuel with
    | O => Crash
    | S fuel =>
        if bool_decide (retired_keys st = ∅)
        then Err (BackendUnavailable "fake backend tracked-key limit reached")
        else
          let? st := rotate_keys st Capacity in
          finalize_loop fuel st maximum (rotations + 1)
    end
  else Ok (st, rotations).

Definition finalize_key_capacity (st : FakeBackendState) (maximum : Z)
    : outcome StoreError (FakeBackendState * Z) :=
  finalize_loop 3 st maximum 0.

(** ** Fenced mutations of a staged state *)

Record Config := {
  caps : BackendCapabilities;
  limits : FakeBackendLimits;
}.

Definition validate_fenced_mutation (st : FakeBackendState) (lease : LeaseGuard) (now : Z)
    : outcome StoreError SessionKey :=
  let k := lease_key lease in
  if (lease_expires_at lease <=? now) && negb (has_key (key_fences st) k)
  then Err LeaseExpired
  else if lease_fence lease <? current_fence st k then Err StaleFence
  else if lease_expires_at lease <=? now then Err LeaseExpired
  else
    match leases st !! k with
    | None => Err StaleFence
    | Some entry =>
        if negb (active entry) then Err StaleFence
        else if negb (credential_id entry =? lease_credential_id lease) then Err StaleFence
        else if negb (bool_decide (owner entry = lease_owner lease)) then Err StaleFence
        else if negb (fence entry =? lease_fence lease) then Err StaleFence
        else if negb (guard_expires_at entry =? lease_expires_at lease) then Err StaleFence
        else if lease_expires_at lease <=? now then Err LeaseExpired
        else if expires_at entry <=? now then Err LeaseExpired
        else Ok k
    end.

Record CompareAndSet := {
  cas_key : SessionKey;
  cas_lease : LeaseGuard;
  expected_generation : option Z;
  new_record : StoredSessionRecord;
}.

Inductive CompareAndSetResult :=
| CasSuccess
| CasConflictResult (current : option StoredSessionRecord).

#[export] Instance CompareAndSetResult_eq_dec : EqDecision CompareAndSetResult.
Proof. solve_decision. Defined.

(** The generation rule of a compare-and-set against the live record. *)
Definition generation_conflict (expected : Z) (current new : StoredSessionRecord) : bool :=
  negb (generation current =? expected)
  || (requires_monotonic_generation (state_class current)
      || requires_monotonic_generation (state_class new))
     && (generation new <=? generation current).

Definition put_record (st : FakeBackendState) (k : SessionKey) (r : StoredSessionRecord) (f : Z)
    : FakeBackendState :=
  set_fence (with_records st (<[k := r]> (records st))) k f.

Section Mutations.
Context `{TimestampRange}.

Definition compare_and_set_with_state (cfg : Config) (st : FakeBackendState)
    (c : CompareAndSet) (now : Z)
    : outcome StoreError (FakeBackendState * CompareAndSetResult) :=
  let? _ := validate_stored_record_expiry_at (new_record c) now in
  if negb (atomic_compare_and_set (caps cfg))
  then Err (CapabilityNotSupported "atomic_compare_and_set")
  else if negb (monotonic_fencing_token (caps cfg))
  then Err (CapabilityNotSupported "monotonic_fencing_token")
  else if negb (bool_decide (lease_key (cas_lease c) = cas_key c))
  then Err (InvalidKey "compare-and-set key does not match lease key")
  else if negb (bool_decide (rec_key (new_record c) = cas_key c))
  then Err (InvalidKey "compare-and-set key does not match record key")
  else if negb (bool_decide (rec_owner (new_record c) = lease_owner (cas_lease c)))
          || negb (rec_fence (new_record c) =? lease_fence (cas_lease c))
  then Err StaleFence
  else if max_value_bytes (caps cfg) <? len (payload_bytes (rec_payload (new_record c)))
  then Err (PayloadTooLarge (len (payload_bytes (rec_payload (new_record c))))
              (max_value_bytes (caps cfg)))
  else
    let? k := validate_fenced_mutation st (cas_lease c) now in
    if lease_fence (cas_lease c) <? current_fence st k then Err StaleFence
    else
      let? _ := ensure_key_capacity st k (max_tracked_keys (limits cfg)) in
      match expected_generation c, get_with_state st k now with
      | None, None =>
          Ok (put_record st k (new_record c) (lease_fence (cas_lease c)), CasSuccess)
      | Some expected, Some current =>
          if generation_conflict expected current (new_record c)
          then Ok (st, CasConflictResult (Some current))
          else Ok (put_record st k (new_record c) (lease_fence (cas_lease c)), CasSuccess)
      | None, Some current => Ok (st, CasConflictResult (Some current))
      | Some _, None => Ok (st, CasConflictResult None)
      end.

Definition delete_fenced_with_state (cfg : Config) (st : FakeBackendState)
    (lease : LeaseGuard) (now : Z) : outcome StoreError FakeBackendState :=
  if negb (monotonic_fencing_token (caps cfg))
  then Err (CapabilityNotSupported "monotonic_fencing_token")
  else
    let? k := validate_fenced_mutation st lease now in
    if lease_fence lease <? current_fence st k then Err StaleFence
    else
      let? _ := ensure_key_capacity st k (max_tracked_keys (limits cfg)) in
      let st := with_records st (delete k (records st)) in
      Ok (set_fence st k (lease_fence lease)).

Definition with_record_expiry (r : StoredSessionRecord) (expires_at : Z)
    : StoredSessionRecord :=
  {| rec_key := rec_key r; generation := generation r; rec_owner := rec_owner r;
     rec_fence := rec_fence r; state_class := state_class r; state_type := state_type r;
     rec_expires_at := Some expires_at; rec_payload := rec_payload r |}.

Definition refresh_ttl_with_state (cfg : Config) (st : FakeBackendState)
    (lease : LeaseGuard) (ttl now : Z) : outcome StoreError (FakeBackendState * Z) :=
  let? expires_at := checked_session_deadline now ttl in
  if negb (per_key_ttl (caps cfg)) then Err (CapabilityNotSupported "per_key_ttl")
  else if negb (monotonic_fencing_token (caps cfg))
  then Err (CapabilityNotSupported "monotonic_fencing_token")
  else
    let? k := validate_fenced_mutation st lease now in
    if lease_fence lease <? current_fence st k then Err StaleFence
    else
      let? _ := ensure_key_capacity st k (max_tracked_keys (limits cfg)) in
      match records st !! k with
      | None => Err NotFound
      | Some record =>
          if is_expired_at record now then Err NotFound
          else
            let st := with_records st (<[k := with_record_expiry record expires_at]> (records st)) in
            Ok (set_fence st k (lease_fence lease), expires_at)
      end.
End Mutations.

(** ** Replay of replicated operations *)

Definition validate_replicated_owner (st : FakeBackendState) (k : SessionKey)
    (o : string) (f : Z) : outcome StoreError () :=
  if negb (bool_decide (key_fences st !! k = Some f))
     || negb (match leases st !! k with
              | Some entry => active entry && bool_decide (owner entry = o) && (fence entry =? f)
              | None => false
              end)
  then Err StaleFence else Ok ().

(** [state.next_fence.max(fence.get().saturating_add(1))]. *)
Definition raise_next_fence (st : FakeBackendState) (f : Z) : FakeBackendState :=
  with_counters st (Z.max (next_fence st) (saturating_add f 1)) (next_credential_id st).

(** [next_fence.max(fence.get() + 1)] and [next_credential_id.max(credential_id + 1)]
    with the plain sums of the source: an overflow panics. *)
Definition raise_counters (st : FakeBackendState) (f c : Z)
    : outcome StoreError FakeBackendState :=
  match checked_add f 1, checked_add c 1 with
  | Some f1, Some c1 =>
      Ok (with_counters st (Z.max (next_fence st) f1) (Z.max (next_credential_id st) c1))
  | _, _ => Crash
  end.

(** The fence a replayed acquisition has to exceed. *)
Definition replay_previous_fence (st : FakeBackendState) (k : SessionKey) : Z :=
  let previous :=
    match key_fences st !! k with
    | Some f => f
    | None =>
        match pending_replay_command st with
        | Some pending =>
            match pending_fences pending !! k with
            | Some f => f
            | None => if scope_key k then 0 else pending_floor_prev pending
            end
        | None => if scope_key k then 0 else floor_prev (key_retention st)
        end
    end in
  Z.max previous (async_fence_floor st).

(** [contains_protected_roster_established_create]: whether the variant occurs in
    the tree; the source searches with an explicit stack. *)
Fixpoint contains_create (o : ReplicationOp) : bool :=
  match o with
  | OpProtectedRosterEstablishedCreate _ _ _ _ _ _ _ => true
  | OpBatch ops => existsb contains_create ops
  | _ => false
  end.

Definition PROTECTED_ROSTER_PROFILE_V2_CAPABILITY : string :=
  "protected_roster_profile_v2_not_activated".

Definition with_lease (st : FakeBackendState) (k : SessionKey) (l : LeaseEntry)
    : FakeBackendState :=
  with_leases st (<[k := l]> (leases st)).

(** The arms of [apply_replicated_op_with_state], one per operation. *)

Definition apply_compare_and_set (st : FakeBackendState) (k : SessionKey)
    (expected : option Z) (credential guard_deadline : Z) (new : StoredSessionRecord)
    (now max_keys : Z) : outcome StoreError FakeBackendState :=
  if rec_fence new <? current_fence st k then Err StaleFence
  else
    let? _ := ensure_key_capacity st k max_keys in
    match leases st !! k with
    | None => Err StaleFence
    | Some entry =>
        if negb (active entry) || negb (credential_id entry =? credential)
           || negb (bool_decide (owner entry = rec_owner new))
           || negb (fence entry =? rec_fence new)
           || negb (guard_expires_at entry =? guard_deadline)
        then Err StaleFence
        else if (guard_deadline <=? now) || (expires_at entry <=? now) then Err LeaseExpired
        else
          match expected, get_with_state st k now with
          | None, None => Ok (put_record st k new (rec_fence new))
          | Some expected, Some current =>
              if generation_conflict expected current new then Err CasConflict
              else Ok (put_record st k new (rec_fence new))
          | _, _ => Err CasConflict
          end
    end.

Definition apply_delete_fenced (st : FakeBackendState) (k : SessionKey) (o : string) (f : Z)
    (max_keys : Z) : outcome StoreError FakeBackendState :=
  let? _ := validate_replicated_owner st k o f in
  let? _ := ensure_key_capacity st k max_keys in
  let st := with_records st (delete k (records st)) in
  Ok (raise_next_fence (set_fence st k f) f).

Definition apply_refresh_ttl (st : FakeBackendState) (k : SessionKey) (o : string) (f : Z)
    (deadline max_keys : Z) : outcome StoreError FakeBackendState :=
  let? _ := validate_replicated_owner st k o f in
  let? _ := ensure_key_capacity st k max_keys in
  match records st !! k with
  | Some record =>
      let st := with_records st (<[k := with_record_expiry record deadline]> (records st)) in
      Ok (raise_next_fence (set_fence st k f) f)
  | None => Err NotFound
  end.

Definition apply_acquire_lease (st : FakeBackendState) (k : SessionKey) (o : string)
    (f credential deadline now max_keys : Z) : outcome StoreError FakeBackendState :=
  let st := apply_async_floor_to_key st k in
  if f <=? replay_previous_fence st k then Err StaleFence
  else
    let? _ := ensure_key_capacity st k max_keys in
    if match leases st !! k with
       | Some entry =>
           active entry && negb (bool_decide (owner entry = o)) && (now <? expires_at entry)
       | None => false
       end
    then Err LeaseHeld
    else
      let st := with_lease st k
        {| active := true; credential_id := credential; owner := o; fence := f;
           acquired_at := now; expires_at := deadline; guard_expires_at := deadline |} in
      raise_counters (set_fence st k f) f credential.

Definition apply_renew_lease (st : FakeBackendState) (k : SessionKey) (o : string)
    (f credential deadline max_keys : Z) : outcome StoreError FakeBackendState :=
  let? _ := validate_replicated_owner st k o f in
  match leases st !! k with
  | None => Err StaleFence
  | Some entry =>
      if negb (credential_id entry =? credential) then Err StaleFence
      else
        let? _ := ensure_key_capacity st k max_keys in
        let st := with_lease st k
          {| active := true; credential_id := credential; owner := o; fence := f;
             acquired_at := acquired_at entry; expires_at := deadline;
             guard_expires_at := deadline |} in
        raise_counters (set_fence st k f) f credential
  end.

Definition release_entry (l : LeaseEntry) (now : Z) : LeaseEntry :=
  {| active := false; credential_id := credential_id l; owner := owner l; fence := fence l;
     acquired_at := acquired_at l; expires_at := expires_at l; guard_expires_at := now |}.

Definition apply_release_lease (st : FakeBackendState) (k : SessionKey) (o : string)
    (f credential now max_keys : Z) : outcome StoreError FakeBackendState :=
  let? _ := validate_replicated_owner st k o f in
  match leases st !! k with
  | None => Err StaleFence
  | Some entry =>
      if negb (credential_id entry =? credential) then Err StaleFence
      else
        let st := with_lease st k (release_entry entry now) in
        let? _ := ensure_key_capacity st k max_keys in
        Ok (raise_next_fence (set_fence st k f) f)
  end.

Definition apply_roster_successor (st : FakeBackendState) (k : SessionKey)
    (expected : StoredSessionRecord) (successor : ProtectedRosterEstablishedSuccessor)
    : outcome StoreError FakeBackendState :=
  match successor with
  | Put record =>
      if negb (bool_decide (rec_key record = k)) || bool_decide (is_Some (rec_expires_at record))
         || negb (bool_decide (rec_owner record = rec_owner expected))
         || negb (rec_fence record =? rec_fence expected)
         || (generation record <=? generation expected)
      then Err CasConflict
      else Ok (with_records st (<[k := record]> (records st)))
  | Delete =>
      if has_key (records st) k then Ok (with_records st (delete k (records st)))
      else Err CasConflict
  | NoOp => Ok st
  end.

Definition apply_roster_established (st : FakeBackendState) (k : SessionKey)
    (expected : StoredSessionRecord) (successor : ProtectedRosterEstablishedSuccessor)
    (o : string) (f credential acquired deadline now max_keys : Z)
    : outcome StoreError FakeBackendState :=
  if negb (bool_decide (rec_key expected = k)) || bool_decide (is_Some (rec_expires_at expected))
     || (credential =? 0) || (deadline <=? acquired) || (f <? rec_fence expected)
  then Err StaleFence
  else if f <? current_fence st k then Err StaleFence
  else
    let? _ := ensure_key_capacity st k max_keys in
    match leases st !! k with
    | None => Err StaleFence
    | Some entry =>
        if negb (active entry) || negb (credential_id entry =? credential)
           || negb (bool_decide (owner entry = o)) || negb (fence entry =? f)
           || negb (acquired_at entry =? acquired)
           || negb (guard_expires_at entry =? deadline)
        then Err StaleFence
        else if (deadline <=? now) || (expires_at entry <=? now) then Err LeaseExpired
        else if negb (bool_decide (records st !! k = Some expected)) then Err CasConflict
        else
          let? st := apply_roster_successor st k expected successor in
          Ok (raise_next_fence (set_fence st k f) f)
    end.

Fixpoint apply_replicated_op (st : FakeBackendState) (o : ReplicationOp) (now max_keys : Z)
    {struct o} : outcome StoreError FakeBackendState :=
  if contains_create o
  then Err (CapabilityNotSupported PROTECTED_ROSTER_PROFILE_V2_CAPABILITY)
  else
    match o with
    | OpCompareAndSet k expected credential deadline new =>
        apply_compare_and_set st k expected credential deadline new now max_keys
    | OpDeleteFenced k o f => apply_delete_fenced st k o f max_keys
    | OpRefreshTtl k o f _ deadline => apply_refresh_ttl st k o f deadline max_keys
    | OpAcquireLease k o f credential _ deadline =>
        apply_acquire_lease st k o f credential deadline now max_keys
    | OpRenewLease k o f credential _ deadline =>
        apply_renew_lease st k o f credential deadline max_keys
    | OpReleaseLease k o f credential => apply_release_lease st k o f credential now max_keys
    | OpProtectedRosterEstablished k expected successor o f credential acquired deadline =>
        apply_roster_established st k expected successor o f credential acquired deadline
          now max_keys
    | OpProtectedRosterEstablishedCreate _ _ _ _ _ _ _ =>
        Err (CapabilityNotSupported PROTECTED_ROSTER_PROFILE_V2_CAPABILITY)
    | OpBatch ops =>
        (fix go st ops :=
           match ops with
           | [] => Ok st
           | o :: ops => let? st := apply_replicated_op st o now max_keys in go st ops
           end) st ops
    end.

(** ** The journal *)

Definition apply_visible_recovery_boundary (st : FakeBackendState) (e : ReplicationEntry)
    : FakeBackendState :=
  match recovery (replay_policy e) with
  | Recover _ =>
      with_log st (policy_async_fence_floor (replay_policy e))
        (last_replication_sequence st) []
  | RecoveryNone => st
  end.

Definition compact_replication_log (st : FakeBackendState) (max_entries : Z)
    : outcome StoreError FakeBackendState :=
  let log := replication_log st in
  if len log <=? max_entries then Ok st
  else if max_entries =? 0 then
    let compacted :=
      match last log with
      | Some entry => Z.max (compacted_replication_sequence st) (sequence entry)
      | None => compacted_replication_sequence st
      end in
    Ok (with_log st compacted (last_replication_sequence st) [])
  else
    let drop_count := len log - max_entries in
    let? dropped := idx log (drop_count - 1) in
    Ok (with_log st (Z.max (compacted_replication_sequence st) (sequence dropped))
          (last_replication_sequence st) (drop (Z.to_nat drop_count) log)).

Definition push_entry (st : FakeBackendState) (e : ReplicationEntry) (max_entries : Z)
    : outcome StoreError FakeBackendState :=
  compact_replication_log
    (with_log st (compacted_replication_sequence st) (sequence e)
       (replication_log st ++ [e])) max_entries.

(** The recovery arm of [apply_committed_replication_entry]. *)
Definition apply_recovery (st : FakeBackendState) (e : ReplicationEntry) (continuing : bool)
    : outcome StoreError FakeBackendState :=
  let floor := policy_async_fence_floor (replay_policy e) in
  let inconsistent := Err (Serialization "inconsistent replication recovery floor") in
  match recovery (replay_policy e) with
  | RecoveryNone => if floor =? async_fence_floor st then Ok st else inconsistent
  | Recover previous_sequence =>
      if negb continuing && (previous_sequence =? last_replication_sequence st)
         && (async_fence_floor st <? floor) && (sequence e =? floor + 1)
      then
        let st := with_floor st floor in
        Ok (with_counters st (Z.max (next_fence st) (floor + 1))
              (Z.max (next_credential_id st) (floor + 1)))
      else inconsistent
  end.

Fixpoint replay_rotations (n : nat) (st : FakeBackendState) (floor : Z)
    : outcome StoreError FakeBackendState :=
  match n with
  | O => Ok st
  | S n =>
      if bool_decide (retired_keys st = ∅)
      then Err (Serialization "committed capacity rotation has no retired history")
      else
        let? st := rotate_keys_with_floor st Capacity floor in
        replay_rotations n st floor
  end.

Definition start_command (st : FakeBackendState) (e : ReplicationEntry)
    : outcome StoreError FakeBackendState :=
  match command (replay_policy e) with
  | Start id following_entries =>
      let? _ := ok_or (checked_add (sequence e) following_entries)
                  ReplicationOperationLimitExceeded in
      Ok (with_pending st
            (Some {| pending_fences := key_fences st;
                     pending_floor_prev := floor_prev (key_retention st);
                     pending_remaining := following_entries;
                     pending_id := id;
                     pending_async_fence_floor := policy_async_fence_floor (replay_policy e);
                     pending_timestamp := timestamp e |}))
  | _ => Ok st
  end.

Definition finish_continuation (st : FakeBackendState) (continuing : bool)
    : outcome StoreError FakeBackendState :=
  if continuing then
    match pending_replay_command st with
    | None => Err (Serialization "replication command continuation absent")
    | Some pending =>
        let remaining := pending_remaining pending - 1 in
        Ok (with_pending st
              (if remaining =? 0 then None
               else Some {| pending_fences := pending_fences pending;
                            pending_floor_prev := pending_floor_prev pending;
                            pending_remaining := remaining;
                            pending_id := pending_id pending;
                            pending_async_fence_floor := pending_async_fence_floor pending;
                            pending_timestamp := pending_timestamp pending |}))
    end
  else Ok st.

Definition pending_cursor (p : PendingReplayCommand) : ReplayCommandCursor :=
  {| cursor_id := pending_id p; cursor_remaining := pending_remaining p;
     cursor_timestamp := pending_timestamp p;
     cursor_async_fence_floor := pending_async_fence_floor p |}.

Definition apply_committed_replication_entry (cfg : Config) (st : FakeBackendState)
    (e : ReplicationEntry) : outcome StoreError FakeBackendState :=
  let policy := replay_policy e in
  let continuing := bool_decide (is_Some (pending_replay_command st)) in
  let? _ := cursor_advance (pending_cursor <$> pending_replay_command st) e in
  let? st := apply_recovery st e continuing in
  let st := with_internal st (policy_internal_key_count policy) in
  let st := if prune_expired policy then prune_state st (timestamp e) else st in
  let? st := apply_replicated_op st (op e) (timestamp e) (max_tracked_keys (limits cfg)) in
  let? st := (if retire_dead policy then retire_dead_keys st else Ok st) in
  let? st := start_command st e in
  let? st := replay_rotations (Z.to_nat (capacity_rotations policy)) st
               (policy_async_fence_floor policy) in
  let? st := finish_continuation st continuing in
  if max_tracked_keys (limits cfg) <? saturating_add (tracked st) (internal_key_count st)
  then Err (BackendUnavailable "fake backend tracked-key limit reached")
  else
    Ok (with_committed_time st
          (Some (match committed_time st with
                 | None => timestamp e
                 | Some prior => Z.max prior (timestamp e)
                 end))).

(** ** The backend and its commands *)

Record Backend := {
  inner : FakeBackendState;
  writer_time : option Z;
  read_expiry : gset SessionKey;
}.

Definition empty_backend : Backend :=
  {| inner := empty_state; writer_time := None; read_expiry := ∅ |}.

(** [command_time]: the sample, clamped by committed and earlier attempted time. *)
Definition command_time (b : Backend) (sampled : Z) : Z * Backend :=
  let clamp t o := match o with Some x => Z.max t x | None => t end in
  let now := clamp (clamp sampled (committed_time (inner b))) (writer_time b) in
  (now, {| inner := inner b; writer_time := Some now; read_expiry := read_expiry b |}).

(** [record_expired]: whether the record is hidden from readers, marking it when
    its deadline has passed. *)
Definition record_expired (b : Backend) (r : StoredSessionRecord) (now : Z)
    : bool * Backend :=
  if is_expired_at r now
  then (true, {| inner := inner b; writer_time := writer_time b;
                 read_expiry := {[rec_key r]} ∪ read_expiry b |})
  else (bool_decide (rec_key r ∈ read_expiry b), b).

Definition get_for_read (b : Backend) (k : SessionKey) (now : Z)
    : option StoredSessionRecord * Backend :=
  match records (inner b) !! k with
  | None => (None, b)
  | Some r =>
      let '(hidden, b) := record_expired b r now in
      (if hidden then None else Some r, b)
  end.

(** [SessionBackend::get]. *)
Definition get (b : Backend) (k : SessionKey) (now : Z)
    : option StoredSessionRecord * Backend := get_for_read b k now.

(** [publish_staged_data]: marks of changed records are dropped. *)
Definition publish_staged_data (b : Backend) (staged : FakeBackendState) : Backend :=
  {| inner := staged;
     writer_time := writer_time b;
     read_expiry :=
       filter (λ k, records (inner b) !! k = records staged !! k) (read_expiry b) |}.

Definition require_complete_replay_command (st : FakeBackendState) : outcome StoreError () :=
  match pending_replay_command st with
  | Some _ => Err (BackendUnavailable "replication command is incomplete")
  | None => Ok ()
  end.

Definition next_direct_replication_sequence (cfg : Config) (st : FakeBackendState)
    : outcome StoreError (option Z) :=
  let? _ := require_complete_replay_command st in
  if negb (ordered_replication_log (caps cfg)) then Ok None
  else
    let? s := next_replication_sequence (last_replication_sequence st) in
    Ok (Some s).

(** [ReplicationTxId::from_request_bytes] of eight zero octets and the sequence:
    the lower-case hexadecimal text. *)
Definition hex_digit (n : Z) : Z := if n <? 10 then 48 + n else 87 + n.

Definition encode_lower (bs : bytes) : bytes :=
  flat_map (λ b, [hex_digit (Z.shiftr b 4); hex_digit (Z.land b 15)]) bs.

Definition u64_to_be_bytes (n : Z) : bytes :=
  u32_to_be_bytes (n / 4294967296) ++ u32_to_be_bytes n.

Definition direct_tx_id (sequence : Z) : bytes :=
  encode_lower (replicate 8 0 ++ u64_to_be_bytes sequence).

Definition append_direct_replication_entry (cfg : Config) (st : FakeBackendState)
    (seq : option Z) (o : ReplicationOp) (now : Z) (policy : ReplicationReplayPolicy)
    : outcome StoreError FakeBackendState :=
  match seq with
  | None => Ok st
  | Some s =>
      push_entry st
        {| sequence := s; tx_id := direct_tx_id s; op := o; timestamp := now;
           replay_policy := policy |} (max_replication_entries (limits cfg))
  end.

(** [commit_direct_data] up to publication: the state to publish. *)
Definition finalize_direct (cfg : Config) (staged : FakeBackendState) (seq : option Z)
    (o : ReplicationOp) (now : Z) : outcome StoreError FakeBackendState :=
  let? staged := retire_dead_keys staged in
  let? (staged, rotations) := finalize_key_capacity staged (max_tracked_keys (limits cfg)) in
  let? _ := (match seq with Some _ => validate_structure o | None => Ok () end) in
  let policy :=
    {| prune_expired := true; retire_dead := true;
       policy_async_fence_floor := async_fence_floor staged;
       capacity_rotations := rotations;
       policy_internal_key_count := internal_key_count staged;
       command := Single; recovery := RecoveryNone |} in
  let? _ := policy_validate policy in
  let? staged := append_direct_replication_entry cfg staged seq o now policy in
  Ok (with_committed_time staged (Some now)).

Definition commit_direct_data (cfg : Config) (b : Backend) (staged : FakeBackendState)
    (seq : option Z) (o : ReplicationOp) (now : Z) : outcome StoreError Backend :=
  let? staged := finalize_direct cfg staged seq o now in
  Ok (publish_staged_data b staged).

(** A command that fails after its clock and visibility effects leaves the backend
    with those effects only. *)
Definition settle {E A} (b : Backend) (r : outcome E (Backend * A)) : Backend * outcome E A :=
  match r with
  | Ok (b, a) => (b, Ok a)
  | Err e => (b, Err e)
  | Crash => (b, Crash)
  end.

Section Commands.
Context `{TimestampRange}.
Variable cfg : Config.

Definition cas_op (c : CompareAndSet) : ReplicationOp :=
  OpCompareAndSet (cas_key c) (expected_generation c) (lease_credential_id (cas_lease c))
    (lease_expires_at (cas_lease c)) (new_record c).

Definition compare_and_set (b : Backend) (sampled : Z) (c : CompareAndSet)
    : Backend * outcome StoreError CompareAndSetResult :=
  let '(now, b) := command_time b sampled in
  let '(_, b) := get_for_read b (cas_key c) now in
  settle b
    (let? _ := validate_stored_record_expiry_at (new_record c) now in
     let st := prune_state (inner b) now in
     let? seq := next_direct_replication_sequence cfg st in
     let? (st, result) := compare_and_set_with_state cfg st c now in
     if bool_decide (result = CasSuccess) then
       let? b := commit_direct_data cfg b st seq (cas_op c) now in
       Ok (b, result)
     else Ok (b, result)).

Definition delete_op (lease : LeaseGuard) : ReplicationOp :=
  OpDeleteFenced (lease_key lease) (lease_owner lease) (lease_fence lease).

Definition delete_fenced (b : Backend) (sampled : Z) (lease : LeaseGuard)
    : Backend * outcome StoreError () :=
  let '(now, b) := command_time b sampled in
  settle b
    (let st := prune_state (inner b) now in
     let? seq := next_direct_replication_sequence cfg st in
     let? st := delete_fenced_with_state cfg st lease now in
     let? b := commit_direct_data cfg b st seq (delete_op lease) now in
     Ok (b, ())).

Definition refresh_op (lease : LeaseGuard) (ttl deadline : Z) : ReplicationOp :=
  OpRefreshTtl (lease_key lease) (lease_owner lease) (lease_fence lease) ttl deadline.

Definition refresh_ttl (b : Backend) (sampled : Z) (lease : LeaseGuard) (ttl : Z)
    : Backend * outcome StoreError () :=
  match validate_session_ttl ttl with
  | Err e => (b, Err e)
  | Crash => (b, Crash)
  | Ok _ =>
      let '(now, b) := command_time b sampled in
      let '(_, b) := get_for_read b (lease_key lease) now in
      settle b
        (let? _ := checked_session_deadline now ttl in
         let st := prune_state (inner b) now in
         let? seq := next_direct_replication_sequence cfg st in
         let? (st, deadline) := refresh_ttl_with_state cfg st lease ttl now in
         let? b := commit_direct_data cfg b st seq (refresh_op lease ttl deadline) now in
         Ok (b, ()))
  end.

(** [SessionLeaseManager]. *)

Definition acquire_fence (st : FakeBackendState) (k : SessionKey)
    : outcome LeaseError (FakeBackendState * Z * Z) :=
  let? next_for_key :=
    ok_or (checked_add (current_fence st k) 1) (LeaseErrorMessage "fence token exhausted") in
  let f := Z.max (next_fence st) next_for_key in
  let c := next_credential_id st in
  Ok (with_counters st (saturating_add f 1) (saturating_add c 1), f, c).

Definition acquire (b : Backend) (sampled : Z) (k : SessionKey) (o : string) (ttl : Z)
    : Backend * outcome LeaseError LeaseGuard :=
  match map_err lease_error_from (validate_session_ttl ttl) with
  | Err e => (b, Err e)
  | Crash => (b, Crash)
  | Ok _ =>
      let '(now, b) := command_time b sampled in
      settle b
        (let? deadline := map_err lease_error_from (checked_session_deadline now ttl) in
         let st := prune_state (inner b) now in
         let? seq := map_err lease_error_from (next_direct_replication_sequence cfg st) in
         let st := apply_async_floor_to_key st k in
         if match leases st !! k with
            | Some entry =>
                active entry && negb (bool_decide (owner entry = o)) && (now <? expires_at entry)
            | None => false
            end
         then Err AlreadyHeld
         else
           let? _ :=
             map_err (λ err, match err with
                             | BackendUnavailable message => LeaseErrorMessage message
                             | other => lease_error_from other
                             end)
               (ensure_key_capacity st k (max_tracked_keys (limits cfg))) in
           let? (st, f, c) := acquire_fence st k in
           let st := with_lease st k
             {| active := true; credential_id := c; owner := o; fence := f; acquired_at := now;
                expires_at := deadline; guard_expires_at := deadline |} in
           let st := set_fence st k f in
           let? b := map_err lease_error_from
                       (commit_direct_data cfg b st seq (OpAcquireLease k o f c ttl deadline) now) in
           Ok (b, {| lease_key := k; lease_owner := o; lease_fence := f;
                     lease_acquired_at := now; lease_expires_at := deadline;
                     lease_credential_id := c |}))
  end.

(** The guards that [renew] and [release] share, with the absent-entry answer. *)
Definition held_entry (st : FakeBackendState) (lease : LeaseGuard)
    : outcome LeaseError LeaseEntry :=
  match leases st !! lease_key lease with
  | None =>
      if lease_fence lease <=? current_fence st (lease_key lease)
      then Err LeaseErrorStaleFence else Err LeaseErrorNotFound
  | Some entry =>
      if negb (active entry) then Err LeaseErrorStaleFence
      else if negb (credential_id entry =? lease_credential_id lease)
      then Err LeaseErrorStaleFence
      else if negb (bool_decide (owner entry = lease_owner lease)) then Err AlreadyHeld
      else if negb (fence entry =? lease_fence lease)
              || negb (guard_expires_at entry =? lease_expires_at lease)
      then Err LeaseErrorStaleFence
      else Ok entry
  end.

Definition below_floor (st : FakeBackendState) (lease : LeaseGuard) : bool :=
  (lease_fence lease <=? async_fence_floor st)
  || (lease_credential_id lease <=? async_fence_floor st).

Definition renew_op (lease : LeaseGuard) (credential ttl deadline : Z) : ReplicationOp :=
  OpRenewLease (lease_key lease) (lease_owner lease) (lease_fence lease) credential ttl deadline.

Definition renew_entry (l : LeaseEntry) (deadline : Z) : LeaseEntry :=
  {| active := active l; credential_id := credential_id l; owner := owner l; fence := fence l;
     acquired_at := acquired_at l; expires_at := deadline; guard_expires_at := deadline |}.

Definition renew (b : Backend) (sampled : Z) (lease : LeaseGuard) (ttl : Z)
    : Backend * outcome LeaseError LeaseGuard :=
  match map_err lease_error_from (validate_session_ttl ttl) with
  | Err e => (b, Err e)
  | Crash => (b, Crash)
  | Ok _ =>
      let '(now, b) := command_time b sampled in
      settle b
        (let? deadline := map_err lease_error_from (checked_session_deadline now ttl) in
         let st := prune_state (inner b) now in
         let? seq := map_err lease_error_from (next_direct_replication_sequence cfg st) in
         let k := lease_key lease in
         let st := apply_async_floor_to_key st k in
         if below_floor st lease then Err LeaseErrorStaleFence
         else if lease_expires_at lease <=? now then Err LeaseErrorExpired
         else
           let? entry := held_entry st lease in
           if expires_at entry <=? now then Err LeaseErrorExpired
           else
             let st := with_lease st k (renew_entry entry deadline) in
             let? b := map_err lease_error_from
                         (commit_direct_data cfg b st seq
                            (renew_op lease (credential_id entry) ttl deadline) now) in
             Ok (b, {| lease_key := k; lease_owner := lease_owner lease;
                       lease_fence := lease_fence lease;
                       lease_acquired_at := lease_acquired_at lease;
                       lease_expires_at := deadline;
                       lease_credential_id := credential_id entry |}))
  end.

Definition release_op (lease : LeaseGuard) : ReplicationOp :=
  OpReleaseLease (lease_key lease) (lease_owner lease) (lease_fence lease)
    (lease_credential_id lease).

Definition release (b : Backend) (sampled : Z) (lease : LeaseGuard)
    : Backend * outcome LeaseError () :=
  let '(now, b) := command_time b sampled in
  settle b
    (let st := prune_state (inner b) now in
     let? seq := map_err lease_error_from (next_direct_replication_sequence cfg st) in
     let k := lease_key lease in
     let st := apply_async_floor_to_key st k in
     if below_floor st lease then Err LeaseErrorStaleFence
     else
       let? entry := held_entry st lease in
       let st := with_lease st k (release_entry entry now) in
       let? b := map_err lease_error_from
                   (commit_direct_data cfg b st seq (release_op lease) now) in
       Ok (b, ())).

(** ** Batches *)

Inductive SessionOp :=
| SessionGet (key : SessionKey)
| SessionCompareAndSet (c : CompareAndSet)
| SessionDeleteFenced (lease : LeaseGuard)
| SessionRefreshTtl (lease : LeaseGuard) (ttl : Z).

Inductive SessionOpResult :=
| ResultGet (r : option StoredSessionRecord)
| ResultCompareAndSet (r : outcome StoreError CompareAndSetResult)
| ResultDeleteFenced (r : outcome StoreError ())
| ResultRefreshTtl (r : outcome StoreError ()).

Definition op_validate_ttl (o : SessionOp) : outcome StoreError () :=
  match o with SessionRefreshTtl _ ttl => validate_session_ttl ttl | _ => Ok () end.

Definition op_validate_expiry (now : Z) (o : SessionOp) : outcome StoreError () :=
  match o with
  | SessionCompareAndSet c => validate_stored_record_expiry_at (new_record c) now
  | _ => Ok ()
  end.

Definition op_deadline (now : Z) (o : SessionOp) : outcome StoreError () :=
  match o with
  | SessionRefreshTtl _ ttl => let? _ := checked_session_deadline now ttl in Ok ()
  | _ => Ok ()
  end.

Fixpoint try_for_each (f : SessionOp → outcome StoreError ()) (ops : list SessionOp)
    : outcome StoreError () :=
  match ops with
  | [] => Ok ()
  | o :: ops => let? _ := f o in try_for_each f ops
  end.

(** [validate_session_ops_at]. *)
Definition validate_session_ops_at (ops : list SessionOp) (now : Z) : outcome StoreError () :=
  let? _ := try_for_each op_validate_ttl ops in
  try_for_each (op_validate_expiry now) ops.

Definition is_write (o : SessionOp) : bool :=
  match o with SessionGet _ => false | _ => true end.

(** What a batch read sees of [k], and the record it found expired. *)
Definition batch_get (b : Backend) (st : FakeBackendState) (k : SessionKey) (now : Z)
    : option StoredSessionRecord * option StoredSessionRecord :=
  let current := records st !! k in
  let prior := records (inner b) !! k in
  let seen := match current with Some r => Some r | None => prior end in
  (match current with
   | Some r =>
       if is_expired_at r now then None
       else if bool_decide (Some r = prior) && bool_decide (k ∈ read_expiry b) then None
       else Some r
   | None => None
   end,
   match seen with Some r => if is_expired_at r now then Some r else None | None => None end).

Record BatchState := {
  staged : FakeBackendState;
  replication : list ReplicationOp;
  expired_reads : list StoredSessionRecord;
  results : list SessionOpResult;
}.

Definition fail_result {A B} (r : outcome StoreError A) (f : A → B) : outcome StoreError B :=
  match r with Ok a => Ok (f a) | Err e => Err e | Crash => Crash end.

(** One slot: a failing child leaves the staged state as it was. *)
Definition batch_step (b : Backend) (now : Z) (s : BatchState) (o : SessionOp) : BatchState :=
  let keep res := {| staged := staged s; replication := replication s;
                     expired_reads := expired_reads s; results := results s ++ [res] |} in
  let advance st op res := {| staged := st; replication := replication s ++ [op];
                              expired_reads := expired_reads s; results := results s ++ [res] |} in
  match o with
  | SessionGet k =>
      let '(visible, expired) := batch_get b (staged s) k now in
      {| staged := staged s; replication := replication s;
         expired_reads := expired_reads s ++ match expired with Some r => [r] | None => [] end;
         results := results s ++ [ResultGet visible] |}
  | SessionCompareAndSet c =>
      let result := compare_and_set_with_state cfg (staged s) c now in
      let res := ResultCompareAndSet (fail_result result snd) in
      match result with
      | Ok (child, CasSuccess) => advance child (cas_op c) res
      | _ => keep res
      end
  | SessionDeleteFenced lease =>
      let result := delete_fenced_with_state cfg (staged s) lease now in
      let res := ResultDeleteFenced (fail_result result (λ _, ())) in
      match result with
      | Ok child => advance child (delete_op lease) res
      | _ => keep res
      end
  | SessionRefreshTtl lease ttl =>
      let result := refresh_ttl_with_state cfg (staged s) lease ttl now in
      let res := ResultRefreshTtl (fail_result result (λ _, ())) in
      match result with
      | Ok (child, deadline) => advance child (refresh_op lease ttl deadline) res
      | _ => keep res
      end
  end.

(** The final loop over [expired_reads]. *)
Definition mark_expired_reads (b : Backend) (now : Z) (reads : list StoredSessionRecord)
    : Backend :=
  fold_left (λ b r, if bool_decide (records (inner b) !! rec_key r = Some r)
                    then (record_expired b r now).2 else b) reads b.

Definition batch (b : Backend) (sampled : Z) (ops : list SessionOp)
    : Backend * outcome StoreError (list SessionOpResult) :=
  let writes := existsb is_write ops in
  match (if writes then require_complete_replay_command (inner b) else Ok ()) with
  | Err e => (b, Err e)
  | Crash => (b, Crash)
  | Ok _ =>
      let '(now, b) := if writes then command_time b sampled else (sampled, b) in
      settle b
        (let? _ := validate_session_ops_at ops now in
         let? _ := try_for_each (op_deadline now) ops in
         if negb (batch_write (caps cfg)) then Err (CapabilityNotSupported "batch_write")
         else
           let st := if writes then prune_state (inner b) now else inner b in
           let s := fold_left (batch_step b now) ops
                      {| staged := st; replication := []; expired_reads := []; results := [] |} in
           let? b' :=
             (match replication s with
              | [] => Ok b
              | _ :: _ =>
                  let? seq := next_direct_replication_sequence cfg (inner b) in
                  commit_direct_data cfg b (staged s) seq (OpBatch (replication s)) now
              end) in
           Ok (mark_expired_reads b' now (expired_reads s), results s))
  end.

(** ** Replication *)

Definition replicate_entry (b : Backend) (e : ReplicationEntry) : outcome StoreError Backend :=
  let? _ := entry_validate e in
  if contains_create (op e)
  then Err (CapabilityNotSupported PROTECTED_ROSTER_PROFILE_V2_CAPABILITY)
  else
    let st := inner b in
    let max_seq := last_replication_sequence st in
    if sequence e <=? max_seq then
      if sequence e <=? compacted_replication_sequence st then Ok b
      else
        match List.find (λ x, sequence x =? sequence e) (replication_log st) with
        | Some existing =>
            if bool_decide (existing = e) then Ok b
            else Err (BackendUnavailable "divergent replication entry sequence")
        | None => Err (BackendUnavailable "divergent replication entry sequence")
        end
    else
      let? follows := replication_entry_follows max_seq e in
      if negb follows then Err (BackendUnavailable "replication log sequence gap")
      else
        let? st := apply_committed_replication_entry cfg st e in
        let st := apply_visible_recovery_boundary st e in
        let? st := push_entry st e (max_replication_entries (limits cfg)) in
        Ok (publish_staged_data b st).

Fixpoint replay_entries (st : FakeBackendState) (entries : list ReplicationEntry)
    : outcome StoreError FakeBackendState :=
  match entries with
  | [] => Ok st
  | e :: entries =>
      let? st := apply_committed_replication_entry cfg st e in
      let st := apply_visible_recovery_boundary st e in
      let? st := push_entry st e (max_replication_entries (limits cfg)) in
      replay_entries st entries
  end.

Definition stage_rebuilt_replication_state (entries : list ReplicationEntry)
    : outcome StoreError FakeBackendState :=
  let? _ := validate_replication_prefix 0 entries in
  if existsb (λ e, contains_create (op e)) entries
  then Err (CapabilityNotSupported PROTECTED_ROSTER_PROFILE_V2_CAPABILITY)
  else replay_entries empty_state entries.

Definition rebuild_replication_state (b : Backend) (entries : list ReplicationEntry)
    : outcome StoreError Backend :=
  let? _ := validate_replication_prefix 0 entries in
  let? staged := stage_rebuilt_replication_state entries in
  Ok (publish_staged_data b staged).
End Commands.
