(* ===== verification/SessionInvariant.v ===== *)
(** The invariant of the in-memory session store and its preservation by the steps
    every command is made of: pruning, fencing, retirement and rotation.  Alongside
    it, the order [fence_le]: no step lowers the fence a key is observed with. *)
From S2P Require Import Prelude.
From S2P Require Import SessionTypes.
From S2P Require Import SessionTtl.
From S2P Require Import SessionRetention.
From S2P Require Import SessionReplication.
From S2P Require Import SessionStore.

Ltac st_simpl :=
  cbn [records leases key_fences key_retention async_fence_floor internal_key_count
       pending_replay_command retired_keys retired_index retirement_candidates committed_time
       next_fence next_credential_id compacted_replication_sequence last_replication_sequence
       replication_log with_records with_leases with_key_fences with_retired with_candidates
       with_retention with_counters with_pending with_floor with_internal with_committed_time
       with_log with_lease add_candidate] in *.

(** ** The invariant *)

(** A value below an allocation counter; the counter itself only once the counter
    is saturated. *)
Definition allocated (n v : Z) : Prop := v < n ∨ v = n ∧ n = U64_MAX.

Definition lease_ok (st : FakeBackendState) (k : SessionKey) (l : LeaseEntry) : Prop :=
  0 ≤ fence l ∧ allocated (next_credential_id st) (credential_id l)
  ∧ ∃ f, key_fences st !! k = Some f ∧ fence l ≤ f ∧ (active l = true → fence l = f).

Definition retired_ok (st : FakeBackendState) (k : SessionKey) (e : Z) : Prop :=
  0 ≤ e ∧ scope_key k = false ∧ records st !! k = None ∧ leases st !! k = None
  ∧ ∃ f, key_fences st !! k = Some f ∧ valid_retired_fence (key_retention st) e f = true.

(** The invariant, with the clauses about one key waived while a command is
    between two updates of that key. *)
Record store_ok_ex (x : option SessionKey) (st : FakeBackendState) : Prop := {
  ok_floor : 0 ≤ async_fence_floor st < next_fence st;
  ok_internal : 0 ≤ internal_key_count st;
  ok_next : next_fence st ≤ U64_MAX;
  ok_credential : 1 ≤ next_credential_id st ≤ U64_MAX;
  ok_fences : ∀ k f, key_fences st !! k = Some f → 0 ≤ f ∧ allocated (next_fence st) f;
  ok_leases : ∀ k l, x ≠ Some k → leases st !! k = Some l → lease_ok st k l;
  ok_records : ∀ k, x ≠ Some k → is_Some (records st !! k) → is_Some (key_fences st !! k);
  ok_retired : ∀ k e, x ≠ Some k → retired_keys st !! k = Some e → retired_ok st k e;
  ok_index : ∀ e k, (e, k) ∈ retired_index st ↔ retired_keys st !! k = Some e;
  ok_retention : retention_valid (key_retention st) (next_fence st) = true;
  ok_retention_nonneg : 0 ≤ epoch (key_retention st) ∧ 0 ≤ floor_prev (key_retention st)
                        ∧ 0 ≤ retired_max (key_retention st)
                        ∧ 0 ≤ retired_count (key_retention st);
}.

Lemma allocated_mono n n' v : allocated n v → n ≤ n' → n' ≤ U64_MAX → allocated n' v.
Proof. unfold allocated. lia. Qed.

Lemma allocated_le n v : allocated n v → v ≤ n.
Proof. unfold allocated. lia. Qed.

Definition store_ok (st : FakeBackendState) : Prop := store_ok_ex None st.

Lemma store_ok_open k st : store_ok st → store_ok_ex (Some k) st.
Proof. intros []. by split; eauto. Qed.

Lemma store_ok_close k st :
  store_ok_ex (Some k) st →
  (∀ l, leases st !! k = Some l → lease_ok st k l) →
  (is_Some (records st !! k) → is_Some (key_fences st !! k)) →
  (∀ e, retired_keys st !! k = Some e → retired_ok st k e) →
  store_ok st.
Proof.
  intros [] Hl Hr He. split; try done.
  - intros k' l _ H. destruct (decide (k = k')) as [<-|]; [by apply Hl|]. naive_solver.
  - intros k' _ H. destruct (decide (k = k')) as [<-|]; [by apply Hr|]. naive_solver.
  - intros k' e _ H. destruct (decide (k = k')) as [<-|]; [by apply He|]. naive_solver.
Qed.

(** No key is observed with a lower fence. *)
Definition fence_le (st st' : FakeBackendState) : Prop :=
  (∀ k, current_fence st k ≤ current_fence st' k) ∧ next_fence st ≤ next_fence st'
  ∧ async_fence_floor st ≤ async_fence_floor st'.

#[export] Instance fence_le_preorder : PreOrder fence_le.
Proof.
  split.
  - intros st. by split_and!.
  - intros a b c (H1 & H2 & H3) (H4 & H5 & H6). split_and!; [|lia..].
    intros k. by transitivity (current_fence b k).
Qed.

(** An active lease of the later state was active with the same fence and
    credential before, or its fence is above everything observed before. *)
Definition no_revival (st st' : FakeBackendState) : Prop :=
  ∀ k l', leases st' !! k = Some l' → active l' = true →
  (∃ l, leases st !! k = Some l ∧ active l = true ∧ fence l = fence l'
        ∧ credential_id l = credential_id l')
  ∨ current_fence st k < fence l'.

(** A step of a command: the invariant is kept, no fence goes down and no lease
    comes back to life. *)
Definition advances (st st' : FakeBackendState) : Prop :=
  store_ok st' ∧ fence_le st st' ∧ no_revival st st'.

Lemma no_revival_same st st' : leases st' = leases st → no_revival st st'.
Proof. intros E k l' Hl Ha. rewrite E in Hl. left. by exists l'. Qed.

Lemma no_revival_trans a b c :
  fence_le a b → no_revival a b → no_revival b c → no_revival a c.
Proof.
  intros (Hle & _) Hab Hbc k l'' Hl Ha. destruct (Hbc k l'' Hl Ha) as [(l' & Hl' & Ha' & <- & <-)|Hlt].
  - by apply Hab.
  - right. specialize (Hle k). lia.
Qed.

Lemma advances_refl st : store_ok st → advances st st.
Proof. intros Hok. split_and!; [done|done|]. by apply no_revival_same. Qed.

Lemma advances_trans a b c : advances a b → advances b c → advances a c.
Proof.
  intros (? & ? & ?) (? & ? & ?). split_and!; [done|by etrans|]. by eapply no_revival_trans.
Qed.

Lemma empty_state_ok : store_ok empty_state.
Proof.
  split; try done; cbn; intros *; rewrite ?lookup_empty; done.
Qed.

(** ** Updates outside the invariant *)

Lemma candidates_ok x st c : store_ok_ex x st → store_ok_ex x (with_candidates st c).
Proof. by intros []. Qed.

Lemma log_ok x st c l log : store_ok_ex x st → store_ok_ex x (with_log st c l log).
Proof. by intros []. Qed.

Lemma committed_time_ok x st t : store_ok_ex x st → store_ok_ex x (with_committed_time st t).
Proof. by intros []. Qed.

Lemma pending_ok x st p : store_ok_ex x st → store_ok_ex x (with_pending st p).
Proof. by intros []. Qed.

Lemma internal_ok x st n : 0 ≤ n → store_ok_ex x st → store_ok_ex x (with_internal st n).
Proof. intros ? []. by split. Qed.

(** ** Updates of one key *)

Lemma records_ok_ex k st f :
  store_ok_ex (Some k) st → store_ok_ex (Some k) (with_records st (partial_alter f k (records st))).
Proof.
  intros Hok. split; try apply Hok; unfold retired_ok; st_simpl.
  - intros k' Hk. rewrite lookup_partial_alter_ne by congruence. by apply Hok.
  - intros k' e Hk. rewrite lookup_partial_alter_ne by congruence. by apply Hok.
Qed.

Lemma leases_ok_ex k st f :
  store_ok_ex (Some k) st → store_ok_ex (Some k) (with_leases st (partial_alter f k (leases st))).
Proof.
  intros Hok. split; try apply Hok; unfold retired_ok; st_simpl.
  - intros k' l Hk. rewrite lookup_partial_alter_ne by congruence. by apply Hok.
  - intros k' e Hk. rewrite lookup_partial_alter_ne by congruence. by apply Hok.
Qed.

Lemma fences_ok_ex k st f :
  store_ok_ex (Some k) st → 0 ≤ f → allocated (next_fence st) f →
  store_ok_ex (Some k) (with_key_fences st (<[k := f]> (key_fences st))).
Proof.
  intros Hok Hf Ha. split; try apply Hok; unfold retired_ok, lease_ok; st_simpl.
  - intros k' f'. rewrite lookup_insert_Some. intros [[_ <-]|[_ ?]]; [done|by eapply Hok].
  - intros k' l Hk. rewrite lookup_insert_ne by congruence. by apply Hok.
  - intros k' Hk. rewrite lookup_insert_ne by congruence. by apply Hok.
  - intros k' e Hk. rewrite lookup_insert_ne by congruence. by apply Hok.
Qed.

Lemma counters_ok_ex x st f c :
  store_ok_ex x st → next_fence st ≤ f ≤ U64_MAX → next_credential_id st ≤ c ≤ U64_MAX →
  store_ok_ex x (with_counters st f c).
Proof.
  intros Hok Hf Hc. pose proof (ok_floor _ _ Hok).
  pose proof (ok_credential _ _ Hok).
  split; try apply Hok; st_simpl; try lia.
  - intros k g Hg. destruct (ok_fences _ _ Hok k g Hg) as [? ?]. split; [done|].
    apply (allocated_mono (next_fence st)); [done|lia..].
  - intros k l Hx Hl. destruct (ok_leases _ _ Hok k l Hx Hl) as (? & ? & ?).
    unfold lease_ok; st_simpl. split_and!; try done.
    apply (allocated_mono (next_credential_id st)); [done|lia..].
  - pose proof (ok_retention _ _ Hok) as Hr. rewrite retention_valid_iff in *.
    destruct Hr as (? & ? & ? & ? & ? & ? & ? & ?). split_and!; done || lia.
Qed.

(** ** The recovery floor *)

Lemma apply_floor_ex k st :
  store_ok_ex (Some k) st → store_ok_ex (Some k) (apply_async_floor_to_key st k).
Proof.
  intros Hok. unfold apply_async_floor_to_key. pose proof (ok_floor _ _ Hok).
  assert (Hst : store_ok_ex (Some k)
    match key_fences st !! k with
    | Some f => with_key_fences st (<[k := Z.max f (async_fence_floor st)]> (key_fences st))
    | None => st
    end).
  { destruct (key_fences st !! k) as [f|] eqn:Hf; [|done].
    pose proof (ok_fences _ _ Hok k f Hf) as [? ?]. apply fences_ok_ex; [done|lia|].
    unfold allocated in *. lia. }
  destruct (leases _ !! k) as [l|]; [|done]. destruct (_ || _); [|done].
  by apply (leases_ok_ex k _ (λ _, Some _)).
Qed.

(** Everything but the key's own fence and lease flag stays. *)
Lemma apply_floor_fields k st :
  let st' := apply_async_floor_to_key st k in
  records st' = records st ∧ retired_keys st' = retired_keys st
  ∧ retired_index st' = retired_index st ∧ key_retention st' = key_retention st
  ∧ async_fence_floor st' = async_fence_floor st ∧ next_fence st' = next_fence st
  ∧ next_credential_id st' = next_credential_id st
  ∧ internal_key_count st' = internal_key_count st
  ∧ pending_replay_command st' = pending_replay_command st
  ∧ last_replication_sequence st' = last_replication_sequence st
  ∧ replication_log st' = replication_log st
  ∧ compacted_replication_sequence st' = compacted_replication_sequence st
  ∧ committed_time st' = committed_time st.
Proof. unfold apply_async_floor_to_key. repeat case_match; by split_and!. Qed.

Lemma apply_floor_fence k st :
  key_fences (apply_async_floor_to_key st k) !! k
  = (λ f, Z.max f (async_fence_floor st)) <$> key_fences st !! k.
Proof.
  unfold apply_async_floor_to_key. destruct (key_fences st !! k) as [f|] eqn:Hf;
    repeat case_match; st_simpl; by rewrite ?lookup_insert_eq, ?Hf.
Qed.

Lemma apply_floor_fence_ne k k' st :
  k ≠ k' → key_fences (apply_async_floor_to_key st k) !! k' = key_fences st !! k'.
Proof.
  intros Hne. unfold apply_async_floor_to_key. repeat case_match; st_simpl;
    by rewrite ?lookup_insert_ne by done.
Qed.

Lemma apply_floor_lease_ne k k' st :
  k ≠ k' → leases (apply_async_floor_to_key st k) !! k' = leases st !! k'.
Proof.
  intros Hne. unfold apply_async_floor_to_key. repeat case_match; st_simpl;
    by rewrite ?lookup_insert_ne by done.
Qed.

(** The lease of the key after the floor: inactive when it is at or below it. *)
Lemma apply_floor_lease k st :
  leases (apply_async_floor_to_key st k) !! k
  = (λ l, {| active := active l && (async_fence_floor st <? fence l)
                       && (async_fence_floor st <? credential_id l);
             credential_id := credential_id l; owner := owner l; fence := fence l;
             acquired_at := acquired_at l; expires_at := expires_at l;
             guard_expires_at := guard_expires_at l |}) <$> leases st !! k.
Proof.
  unfold apply_async_floor_to_key.
  set (st1 := match key_fences st !! k with Some _ => _ | None => st end).
  assert (leases st1 = leases st ∧ async_fence_floor st1 = async_fence_floor st) as [El Ef].
  { subst st1. by destruct (key_fences st !! k). }
  rewrite El, Ef. destruct (leases st !! k) as [l|] eqn:Hl; [|by rewrite El, Hl].
  cbn [fmap option_fmap option_map]. rewrite (Z.ltb_antisym (fence l)), (Z.ltb_antisym (credential_id l)).
  destruct (fence l <=? _); cbn [orb negb];
    [st_simpl; by rewrite lookup_insert_eq, andb_false_r|].
  destruct (credential_id l <=? _); cbn [negb].
  - st_simpl. by rewrite lookup_insert_eq, andb_false_r.
  - rewrite El, Hl. cbn. rewrite !andb_true_r. by destruct l.
Qed.

Lemma apply_floor_current k k' st :
  current_fence (apply_async_floor_to_key st k) k' = current_fence st k'.
Proof.
  unfold current_fence. destruct (apply_floor_fields k st) as (_ & _ & _ & -> & -> & _).
  destruct (decide (k = k')) as [<-|Hne]; [|by rewrite apply_floor_fence_ne].
  rewrite apply_floor_fence. destruct (key_fences st !! k); cbn; [lia|done].
Qed.

Lemma apply_floor_le k st : fence_le st (apply_async_floor_to_key st k).
Proof.
  destruct (apply_floor_fields k st) as (_ & _ & _ & _ & Ef & En & _).
  split_and!; [|lia..]. intros k'. by rewrite apply_floor_current.
Qed.

Lemma apply_floor_revival k st : no_revival st (apply_async_floor_to_key st k).
Proof.
  intros k' l' Hl Ha. left. destruct (decide (k = k')) as [<-|Hne].
  - rewrite apply_floor_lease in Hl. destruct (leases st !! k) as [l|]; [|done].
    injection Hl as <-. cbn in *. exists l. rewrite !andb_true_iff in Ha. tauto.
  - rewrite apply_floor_lease_ne in Hl by done. by exists l'.
Qed.

Lemma apply_floor_lease_ok k st :
  (∀ l, leases st !! k = Some l → lease_ok st k l) →
  ∀ l, leases (apply_async_floor_to_key st k) !! k = Some l →
       lease_ok (apply_async_floor_to_key st k) k l.
Proof.
  intros Hok l. rewrite apply_floor_lease. destruct (leases st !! k) as [l0|] eqn:Hl; [|done].
  intros [= <-]. destruct (Hok l0 eq_refl) as (H0 & Hc & f & Hf & Hle & Ha). split; [done|].
  destruct (apply_floor_fields k st) as (_ & _ & _ & _ & _ & _ & -> & _). split; [done|].
  rewrite apply_floor_fence, Hf. eexists. split; [done|]. cbn. split; [lia|].
  rewrite !andb_true_iff, !Z.ltb_lt. intros [[Hact ?] ?]. specialize (Ha Hact). lia.
Qed.

Lemma apply_floor_ok k st :
  store_ok st → retired_keys st !! k = None → store_ok (apply_async_floor_to_key st k).
Proof.
  intros Hok Hr. destruct (apply_floor_fields k st) as (Er & Ek & _).
  apply (store_ok_close k); [by apply apply_floor_ex, store_ok_open| | |].
  - apply apply_floor_lease_ok. intros l. by apply Hok.
  - rewrite Er, apply_floor_fence. intros H. destruct (ok_records _ _ Hok k ltac:(done) H) as [f ->].
    by eexists.
  - rewrite Ek. congruence.
Qed.

(** ** Pruning *)

Lemma live_not_retired k st :
  store_ok st → is_Some (records st !! k) ∨ is_Some (leases st !! k) → retired_keys st !! k = None.
Proof.
  intros Hok Hd. destruct (retired_keys st !! k) as [e'|] eqn:He; [|done].
  destruct (ok_retired _ _ Hok k e' ltac:(done) He) as (_ & _ & Hr & Hl & _).
  rewrite Hr, Hl in Hd. destruct Hd as [[]|[]]; done.
Qed.

Lemma prune_record_ok k st :
  store_ok st → retired_keys st !! k = None →
  advances st (prune_record st k) ∧ retired_keys (prune_record st k) = retired_keys st.
Proof.
  intros Hok Hr. pose proof (apply_floor_ok k st Hok Hr) as Hok'.
  destruct (apply_floor_fields k st) as (_ & Ek & _). unfold prune_record. st_simpl.
  split; [|done]. split_and!; [|apply (apply_floor_le k)|apply (apply_floor_revival k)].
  apply candidates_ok. apply (store_ok_close k).
  - apply (records_ok_ex k _ (λ _, None)). by apply store_ok_open.
  - intros l. st_simpl. apply (ok_leases _ _ Hok' k). done.
  - st_simpl. rewrite lookup_delete_eq. by intros [].
  - st_simpl. rewrite Ek. congruence.
Qed.

Lemma prune_lease_ok k st :
  store_ok st → retired_keys st !! k = None →
  advances st (prune_lease st k) ∧ retired_keys (prune_lease st k) = retired_keys st.
Proof.
  intros Hok Hr. pose proof (apply_floor_ok k st Hok Hr) as Hok'.
  destruct (apply_floor_fields k st) as (_ & Ek & _). unfold prune_lease. st_simpl.
  split; [|done]. split_and!; [|apply (apply_floor_le k)|].
  - apply candidates_ok. apply (store_ok_close k).
    + apply (leases_ok_ex k _ (λ _, None)). by apply store_ok_open.
    + intros l. st_simpl. rewrite lookup_delete_eq. done.
    + st_simpl. apply (ok_records _ _ Hok' k). done.
    + st_simpl. rewrite Ek. congruence.
  - intros k' l' Hl. st_simpl. apply lookup_delete_Some in Hl as [_ Hl].
    by apply (apply_floor_revival k).
Qed.

Lemma prune_fold_ok (step : FakeBackendState → SessionKey → FakeBackendState) keys :
  (∀ k st, store_ok st → retired_keys st !! k = None →
     advances st (step st k) ∧ retired_keys (step st k) = retired_keys st) →
  ∀ st, store_ok st → Forall (λ k, retired_keys st !! k = None) keys →
  advances st (fold_left step keys st).
Proof.
  intros Hstep. induction keys as [|k keys IH]; intros st Hok Hall; cbn; [by apply advances_refl|].
  apply Forall_cons in Hall as [Hk Hall]. destruct (Hstep k st Hok Hk) as (Ha & Er).
  eapply advances_trans; [done|]. apply IH; [apply Ha|by rewrite Er].
Qed.

(** The keys a prune pass collects from a map hold a value there. *)
Lemma filtered_keys {A} (P : SessionKey * A → bool) (m : gmap SessionKey A) k :
  k ∈ (fst <$> List.filter P (map_to_list m)) → is_Some (m !! k).
Proof.
  intros ([k' a] & -> & Hin)%list_elem_of_fmap. apply list_elem_of_In, filter_In in Hin as [Hin _].
  apply list_elem_of_In, elem_of_map_to_list in Hin. by exists a.
Qed.

Lemma prune_state_ok st now : store_ok st → advances st (prune_state st now).
Proof.
  intros Hok. unfold prune_state. cbv zeta.
  set (expired := fst <$> List.filter _ (map_to_list (records st))).
  assert (Ha : advances st (fold_left prune_record expired st)).
  { apply prune_fold_ok; [by intros; apply prune_record_ok|done|]. apply Forall_forall.
    intros k Hk%filtered_keys. apply live_not_retired; [done|by left]. }
  set (st1 := fold_left prune_record expired st) in *. set (dead := fst <$> _).
  eapply advances_trans; [done|].
  apply prune_fold_ok; [by intros; apply prune_lease_ok|apply Ha|]. apply Forall_forall.
  intros k Hk%filtered_keys. apply live_not_retired; [apply Ha|by right].
Qed.

(** ** Setting a fence *)

Lemma unretire_ex k st : store_ok_ex (Some k) st → store_ok_ex (Some k) (unretire st k).
Proof.
  intros Hok. unfold unretire. destruct (retired_keys st !! k) as [e|] eqn:He; [|done].
  split; try apply Hok; st_simpl.
  - intros k' e' Hk. rewrite lookup_delete_ne by congruence. apply Hok. done.
  - intros e' k'. rewrite elem_of_difference, elem_of_singleton, (ok_index _ _ Hok).
    destruct (decide (k = k')) as [<-|Hne].
    + rewrite lookup_delete_eq, He. naive_solver.
    + rewrite lookup_delete_ne by done. naive_solver.
Qed.

Lemma unretire_fields k st :
  let st' := unretire st k in
  records st' = records st ∧ leases st' = leases st ∧ key_fences st' = key_fences st
  ∧ key_retention st' = key_retention st ∧ async_fence_floor st' = async_fence_floor st
  ∧ next_fence st' = next_fence st ∧ next_credential_id st' = next_credential_id st
  ∧ retired_keys st' !! k = None.
Proof.
  unfold unretire. destruct (retired_keys st !! k) eqn:He; st_simpl;
    rewrite ?lookup_delete_eq; by split_and!.
Qed.

(** Fencing a key that holds a record or a lease: the key is live and its clauses
    of the invariant hold again. *)
Lemma set_fence_ok k f st :
  store_ok_ex (Some k) st → 0 ≤ f → allocated (next_fence st) f →
  is_Some (records st !! k) ∨ is_Some (leases st !! k) →
  (∀ l, leases st !! k = Some l → 0 ≤ fence l ≤ f ∧ (active l = true → fence l = f)
     ∧ allocated (next_credential_id st) (credential_id l)) →
  store_ok (set_fence st k f).
Proof.
  intros Hok Hf Hfa Hlive Hl. unfold set_fence. apply candidates_ok.
  assert (has_key (records st) k || has_key (leases st) k = true) as Hb.
  { unfold has_key. destruct Hlive; [|rewrite orb_true_iff; right];
      [apply orb_true_iff; left|]; by apply bool_decide_eq_true. }
  st_simpl. rewrite Hb. set (st1 := with_key_fences _ _).
  destruct (unretire_fields k st1) as (Er & El & Ek & _ & _ & _ & Ec & Hn).
  assert (key_fences st1 !! k = Some f) as Hk by (subst st1; st_simpl; apply lookup_insert_eq).
  apply (store_ok_close k).
  - by apply unretire_ex, fences_ok_ex.
  - rewrite El. intros l Hlk. destruct (Hl l Hlk) as (? & ? & ?). split; [lia|].
    rewrite Ec. split; [done|]. exists f. rewrite Ek, Hk. split_and!; done || lia.
  - rewrite Ek, Hk. by eexists.
  - rewrite Hn. done.
Qed.

Lemma set_fence_fields k f st :
  let st' := set_fence st k f in
  records st' = records st ∧ leases st' = leases st
  ∧ key_fences st' = <[k := f]> (key_fences st) ∧ key_retention st' = key_retention st
  ∧ async_fence_floor st' = async_fence_floor st ∧ next_fence st' = next_fence st
  ∧ next_credential_id st' = next_credential_id st.
Proof.
  unfold set_fence. st_simpl. destruct (_ || _); st_simpl; [|by split_and!].
  unfold unretire. destruct (retired_keys _ !! k); st_simpl; by split_and!.
Qed.

Lemma set_fence_le k f st :
  current_fence st k ≤ Z.max f (async_fence_floor st) → fence_le st (set_fence st k f).
Proof.
  intros Hle. destruct (set_fence_fields k f st) as (_ & _ & Ek & Er & Ef & En & _).
  split_and!; [|lia..]. intros k'. revert Hle. unfold current_fence. rewrite Ek, Er, Ef.
  destruct (decide (k = k')) as [<-|Hne]; [rewrite lookup_insert_eq|rewrite lookup_insert_ne by done]; lia.
Qed.

(** ** Rotation *)

(** [st'] is [st] without the retired keys of the index entries [gone]. *)
Record forgotten (gone : list (Z * SessionKey)) (st st' : FakeBackendState) : Prop := {
  fg_records : records st' = records st;
  fg_leases : leases st' = leases st;
  fg_retention : key_retention st' = key_retention st;
  fg_floor : async_fence_floor st' = async_fence_floor st;
  fg_internal : internal_key_count st' = internal_key_count st;
  fg_next : next_fence st' = next_fence st;
  fg_credential : next_credential_id st' = next_credential_id st;
  fg_committed : committed_time st' = committed_time st;
  fg_gone : ∀ e k, (e, k) ∈ gone → retired_keys st' !! k = None ∧ key_fences st' !! k = None;
  fg_kept : ∀ k, (∀ e, (e, k) ∉ gone) →
    retired_keys st' !! k = retired_keys st !! k ∧ key_fences st' !! k = key_fences st !! k;
  fg_index : ∀ e k, (e, k) ∈ retired_index st' ↔ (e, k) ∈ retired_index st ∧ (e, k) ∉ gone;
}.

Lemma forget_all_spec gone st :
  NoDup gone →
  (∀ e k, (e, k) ∈ gone → retired_keys st !! k = Some e
     ∧ ∃ f, key_fences st !! k = Some f ∧ f < floor_prev (key_retention st)) →
  ∃ st', forget_all st gone = Ok st' ∧ forgotten gone st st'.
Proof.
  revert st. induction gone as [|[e k] gone IH]; intros st Hnd Hin.
  { exists st. split; [done|]. split; try done; set_solver. }
  apply NoDup_cons in Hnd as [Hni Hnd]. cbn [forget_all forget_retired].
  destruct (Hin e k) as (Hr & f & Hf & Hlt); [set_solver|].
  rewrite Hf, bool_decide_true, (proj2 (Z.leb_gt _ _)) by done. cbn [negb orb].
  set (st1 := with_key_fences _ _).
  assert (Hne : ∀ e' k', (e', k') ∈ gone → k ≠ k').
  { intros e' k' Hin' <-. destruct (Hin e' k) as [Hr' _]; [set_solver|]. congruence. }
  destruct (IH st1 Hnd) as (st' & E & Hfg).
  { intros e' k' Hin'. subst st1; st_simpl. rewrite !lookup_delete_ne by eauto.
    apply Hin. set_solver. }
  exists st'. split; [done|]. subst st1. destruct Hfg; st_simpl. split; try done.
  - intros e' k' [[= -> ->]|Hin']%elem_of_cons; [|by eapply fg_gone0].
    destruct (fg_kept0 k) as [-> ->]; [intros e' Hin'; by eapply Hne|].
    by rewrite !lookup_delete_eq.
  - intros k' Hk'. destruct (fg_kept0 k') as [-> ->]; [intros e'; specialize (Hk' e'); set_solver|].
    rewrite !lookup_delete_ne; [done|intros ->; apply (Hk' e); set_solver..].
  - intros e' k'. rewrite fg_index0. set_solver.
Qed.

(** What a rotation leaves of the store. *)
Record rotated (st st' : FakeBackendState) : Prop := {
  rot_ok : store_ok st';
  rot_le : fence_le st st';
  rot_records : records st' = records st;
  rot_leases : leases st' = leases st;
  rot_epoch : epoch (key_retention st') = epoch (key_retention st) + 1;
  rot_retired : ∀ k e, retired_keys st' !! k = Some e →
    retired_keys st !! k = Some e ∧ e = epoch (key_retention st);
  rot_fences : ∀ k f, key_fences st' !! k = Some f → key_fences st !! k = Some f;
  rot_internal : internal_key_count st' = internal_key_count st;
  rot_floor : async_fence_floor st' = async_fence_floor st;
  rot_committed : committed_time st' = committed_time st;
}.

Lemma retired_epoch_le k e f : valid_retired_fence k e f = true → e ≤ epoch k.
Proof.
  unfold valid_retired_fence, retains_epoch.
  rewrite andb_true_iff, orb_true_iff, bool_decide_eq_true, checked_sub_some, Z.eqb_eq. lia.
Qed.

Section Rotate.
Context (st : FakeBackendState) (reason : RotationReason) (af : Z).
Context (r' : KeyRetention) (n' : Z) (through : option Z).
Hypothesis Hok : store_ok st.
Hypothesis Haf : 0 ≤ af.
Hypothesis Hrot : rotate (key_retention st) (next_fence st) U64_MAX af reason
                  = Ok (r', n', through).

Definition dropped (e : Z) : bool :=
  match through with Some t => e <=? t | None => false end.

Lemma dropped_iff e : dropped e = true → e ≤ epoch (key_retention st) - 1.
Proof.
  unfold dropped. apply rotate_inv in Hrot as (E1 & _ & _ & _ & _ & _ & _ & _ & ->).
  rewrite E1. unfold checked_sub. destruct (2 <=? _); [|done]. rewrite Z.leb_le. lia.
Qed.

Lemma dropped_index e k :
  (e, k) ∈ List.filter (λ '(e, _), dropped e) (elements (retired_index st))
  ↔ retired_keys st !! k = Some e ∧ dropped e = true.
Proof.
  rewrite list_elem_of_In, filter_In, <- list_elem_of_In, elem_of_elements, (ok_index _ _ Hok). done.
Qed.

Lemma forget_rotated :
  ∃ st', forget_all (with_retention st r' n')
           (List.filter (λ '(e, _), dropped e) (elements (retired_index st))) = Ok st'
    ∧ forgotten (List.filter (λ '(e, _), dropped e) (elements (retired_index st)))
        (with_retention st r' n') st'.
Proof.
  apply forget_all_spec.
  - apply NoDup_ListNoDup, List.NoDup_filter, NoDup_ListNoDup, NoDup_elements.
  - intros e k [Hr Hd]%dropped_index. st_simpl. split; [done|].
    destruct (ok_retired _ _ Hok k e ltac:(done) Hr) as (He & _ & _ & _ & f & Hf & Hv).
    exists f. split; [done|].
    pose proof (rotate_bucket _ _ _ _ _ _ _ _ e f (proj1 (ok_retention_nonneg _ _ Hok)) He Haf Hrot Hv) as Hb.
    unfold dropped in Hd. rewrite Hd in Hb. lia.
Qed.

Lemma rotated_retired_ok k e :
  retired_keys st !! k = Some e → dropped e = false → retired_ok (with_retention st r' n') k e.
Proof.
  intros Hr Hd. destruct (ok_retired _ _ Hok k e ltac:(done) Hr) as (He & Hs & ? & ? & f & Hf & Hv).
  split_and!; try done. exists f. split; [done|]. st_simpl.
  pose proof (rotate_bucket _ _ _ _ _ _ _ _ e f (proj1 (ok_retention_nonneg _ _ Hok)) He Haf Hrot Hv) as Hb.
  unfold dropped in Hd. by rewrite Hd in Hb.
Qed.

Section Forgotten.
Context (gone : list (Z * SessionKey)) (st' : FakeBackendState).
Hypothesis Hgone : ∀ e k, (e, k) ∈ gone ↔ retired_keys st !! k = Some e ∧ dropped e = true.
Hypothesis Hfg : forgotten gone (with_retention st r' n') st'.

Lemma forgotten_cases k :
  (∃ e, retired_keys st !! k = Some e ∧ dropped e = true
        ∧ retired_keys st' !! k = None ∧ key_fences st' !! k = None)
  ∨ (retired_keys st' !! k = retired_keys st !! k ∧ key_fences st' !! k = key_fences st !! k
     ∧ ∀ e, retired_keys st !! k = Some e → dropped e = false).
Proof.
  destruct (retired_keys st !! k) as [e|] eqn:Hr; [destruct (dropped e) eqn:Hd|].
  - left. exists e. split_and!; try done; eapply (fg_gone _ _ _ Hfg e), Hgone; done.
  - right. destruct (fg_kept _ _ _ Hfg k) as [-> ->]; [|naive_solver].
    intros e'. rewrite Hgone. naive_solver congruence.
  - right. destruct (fg_kept _ _ _ Hfg k) as [-> ->]; [|naive_solver].
    intros e'. rewrite Hgone. naive_solver congruence.
Qed.

Lemma forgotten_live k :
  retired_keys st !! k = None → key_fences st' !! k = key_fences st !! k.
Proof. intros Hr. destruct (forgotten_cases k) as [(e & ? & _)|(_ & ? & _)]; congruence. Qed.

Lemma forgotten_ok : store_ok st'.
Proof.
  pose proof (ok_retention_nonneg _ _ Hok) as (Hn1 & Hn2 & Hn3 & Hn4).
  pose proof (ok_floor _ _ Hok) as Hf. pose proof (ok_retention _ _ Hok) as Hv.
  rewrite retention_valid_iff in Hv. destruct Hv as (? & _).
  destruct (rotate_valid _ _ _ _ _ _ _ _ Hn1 ltac:(lia) Haf Hn3 Hrot) as (Hv' & _ & Hnn).
  pose proof (rotate_inv _ _ _ _ _ _ _ _ Hrot) as (F1 & F2 & F3 & F4 & F5 & F6 & F7 & F8 & F9).
  pose proof forgotten_cases as Hcase. pose proof forgotten_live as Hlive.
  destruct Hfg as [E1 E2 E3 E4 E5 E6 E7 _ _ _ Hi]. st_simpl.
  split; unfold lease_ok, retired_ok;
    rewrite ?E1, ?E2, ?E3, ?E4, ?E5, ?E6, ?E7; try apply Hok; try lia; try done.
  - intros k f Hkf. destruct (Hcase k) as [(e & _ & _ & _ & ?)|(_ & E & _)]; [congruence|].
    rewrite E in Hkf. destruct (ok_fences _ _ Hok k f Hkf) as [? ?]. split; [done|].
    apply (allocated_mono (next_fence st)); [done|lia..].
  - intros k l _ Hl. rewrite Hlive; [by apply (ok_leases _ _ Hok k)|].
    apply live_not_retired; [done|by right].
  - intros k _ Hr. rewrite Hlive; [by apply (ok_records _ _ Hok k)|].
    apply live_not_retired; [done|by left].
  - intros k e _ Hr. destruct (Hcase k) as [(e' & _ & _ & ? & _)|(E & E' & Hd)]; [congruence|].
    rewrite E in Hr. rewrite E'. destruct (rotated_retired_ok k e Hr (Hd e Hr)) as (? & ? & ? & ? & ?).
    by split_and!.
  - intros e k. rewrite Hi, (ok_index _ _ Hok), Hgone.
    destruct (Hcase k) as [(e' & ? & ? & -> & _)|(-> & _ & Hd)]; [|naive_solver congruence].
    split; [|done]. intros [? []]. naive_solver congruence.
Qed.

Lemma forgotten_le : fence_le st st'.
Proof.
  pose proof (ok_retention_nonneg _ _ Hok) as (Hn1 & Hn2 & Hn3 & Hn4).
  pose proof (ok_retention _ _ Hok) as Hv. rewrite retention_valid_iff in Hv. destruct Hv as (? & _).
  destruct (rotate_valid _ _ _ _ _ _ _ _ Hn1 ltac:(lia) Haf Hn3 Hrot) as (Hv' & Hobs & Hnn).
  pose proof forgotten_cases as Hcase. destruct Hfg as [_ _ E3 E4 _ E6 _ _ _ _ _]. st_simpl.
  pose proof (rotate_inv _ _ _ _ _ _ _ _ Hrot) as (_ & F2 & F3 & _).
  split_and!; [|lia..]. intros k. unfold current_fence. rewrite E3, E4.
  destruct (Hcase k) as [(e & Hr & Hd & _ & Ek)|(_ & Ek & _)]; rewrite Ek.
  - destruct (ok_retired _ _ Hok k e ltac:(done) Hr) as (He & -> & _ & _ & f & -> & Hvf).
    pose proof (rotate_bucket _ _ _ _ _ _ _ _ e f Hn1 He Haf Hrot Hvf) as Hb.
    unfold dropped in Hd. rewrite Hd in Hb. unfold observed_absent_fence in *. lia.
  - unfold observed_absent_fence in *. destruct (key_fences st !! k); [lia|].
    destruct (scope_key k); lia.
Qed.

Lemma forgotten_rotated : rotated st st'.
Proof.
  pose proof forgotten_cases as Hcase.
  pose proof (rotate_inv _ _ _ _ _ _ _ _ Hrot) as (F1 & _ & _ & _ & _ & _ & _ & _ & F9).
  split; try (apply Hfg || apply forgotten_ok || apply forgotten_le).
  - rewrite (fg_retention _ _ _ Hfg). st_simpl. done.
  - intros k e Hr. destruct (Hcase k) as [(e' & _ & _ & ? & _)|(E & _ & Hd)]; [congruence|].
    rewrite E in Hr. split; [done|]. specialize (Hd e Hr).
    destruct (ok_retired _ _ Hok k e ltac:(done) Hr) as (He & _ & _ & _ & f & _ & Hv).
    apply retired_epoch_le in Hv. unfold dropped in Hd. rewrite F9, F1 in Hd.
    unfold checked_sub in Hd. destruct (Z.leb_spec 2 (epoch (key_retention st) + 1)); to_prop; lia.
  - intros k f Hkf. destruct (Hcase k) as [(e' & _ & _ & _ & ?)|(_ & E & _)]; congruence.
Qed.

End Forgotten.
End Rotate.

(** A rotation either runs out of counters or yields a rotated store; the index
    never disagrees with the exact fences. *)
Lemma rotate_keys_with_floor_spec st reason af :
  store_ok st → 0 ≤ af →
  rotate_keys_with_floor st reason af = Err FencedTransitionStorageExhausted
  ∨ ∃ st', rotate_keys_with_floor st reason af = Ok st' ∧ rotated st st'.
Proof.
  intros Hok Haf. unfold rotate_keys_with_floor.
  destruct (rotate _ _ _ _ _) as [[[r' n'] through]|e|] eqn:Hrot.
  - right. destruct through as [t|].
    + destruct (forget_rotated st reason af r' n' (Some t) Hok Haf Hrot) as (st' & E & Hfg).
      exists st'. split; [done|]. eapply forgotten_rotated; [done..| |done].
      intros e k. by apply dropped_index.
    + exists (with_retention st r' n'). split; [done|].
      apply (forgotten_rotated st reason af r' n' None) with (gone := []); try done.
      * intros e k. split; [by intros ?%elem_of_nil|]. by intros [_ ?].
      * split; try done; set_solver.
  - left. revert Hrot. unfold rotate, ok_or. intros H. rust_cases; done.
  - exfalso. revert Hrot. unfold rotate, ok_or. intros H. rust_cases; done.
Qed.

(** ** Retirement *)

(** A step that only moves dead keys: live data stays and no fence goes down. *)
Record settled (st st' : FakeBackendState) : Prop := {
  set_ok : store_ok st';
  set_le : fence_le st st';
  set_records : records st' = records st;
  set_leases : leases st' = leases st;
  set_fences : ∀ k f, key_fences st' !! k = Some f → key_fences st !! k = Some f;
  set_floor : async_fence_floor st' = async_fence_floor st;
  set_internal : internal_key_count st' = internal_key_count st;
  set_committed : committed_time st' = committed_time st;
}.

Definition settles (st : FakeBackendState) (r : outcome StoreError FakeBackendState) : Prop :=
  match r with
  | Ok st' => settled st st'
  | Err e => e = FencedTransitionStorageExhausted
  | Crash => False
  end.

Lemma settled_advances st st' : settled st st' → advances st st'.
Proof. intros []. split_and!; [done..|]. by apply no_revival_same. Qed.

Lemma settled_refl st : store_ok st → settled st st.
Proof. by split. Qed.

Lemma settled_trans a b c : settled a b → settled b c → settled a c.
Proof. intros [] []. split; try congruence; eauto. by etrans. Qed.

Lemma rotated_settled st st' : rotated st st' → settled st st'.
Proof. by intros []. Qed.

Lemma rotate_keys_settles st reason : store_ok st → settles st (rotate_keys st reason).
Proof.
  intros Hok. pose proof (ok_floor _ _ Hok).
  destruct (rotate_keys_with_floor_spec st reason (async_fence_floor st) Hok ltac:(lia))
    as [E|(st' & E & Hr)]; unfold rotate_keys; rewrite E; [done|].
  by apply rotated_settled.
Qed.

(** The retention metadata with another count of retired keys. *)
Definition with_count (r : KeyRetention) (c : Z) : KeyRetention :=
  {| epoch := epoch r; floor_prev := floor_prev r; floor_cur := floor_cur r;
     retired_max := retired_max r; retired_count := c; last_rotation := last_rotation r |}.

Lemma rotate_keys_count st reason c :
  rotate_keys (with_retention st (with_count (key_retention st) c) (next_fence st)) reason
  = rotate_keys st reason.
Proof. done. Qed.

(** The store after one more key was retired in the current epoch. *)
Definition retire_in (st : FakeBackendState) (k : SessionKey) (f c : Z) : FakeBackendState :=
  let r := key_retention st in
  let st := with_retention st
    {| epoch := epoch r; floor_prev := floor_prev r; floor_cur := floor_cur r;
       retired_max := Z.max (retired_max r) f; retired_count := c;
       last_rotation := last_rotation r |} (next_fence st) in
  with_retired st (<[k := epoch r]> (retired_keys st)) ({[(epoch r, k)]} ∪ retired_index st).

Lemma retired_max_mono r e f g c :
  valid_retired_fence r e f = true →
  valid_retired_fence
    {| epoch := epoch r; floor_prev := floor_prev r; floor_cur := floor_cur r;
       retired_max := Z.max (retired_max r) g; retired_count := c;
       last_rotation := last_rotation r |} e f = true.
Proof.
  unfold valid_retired_fence, retains_epoch. cbn. rewrite !andb_true_iff. intros [? Hf].
  split; [done|]. destruct (_ =? _); to_prop; lia.
Qed.

Lemma retire_in_ok st k f c :
  store_ok st → records st !! k = None → leases st !! k = None → scope_key k = false →
  retired_keys st !! k = None → key_fences st !! k = Some f → f < next_fence st →
  0 < c < RETIRED_KEYS_PER_EPOCH → store_ok (retire_in st k f c).
Proof.
  intros Hok Hr Hl Hs Hn Hf Hlt Hc. pose proof (ok_fences _ _ Hok k f Hf) as Hf0.
  pose proof (ok_retention_nonneg _ _ Hok) as (? & ? & ? & ?).
  pose proof (ok_retention _ _ Hok) as Hv. rewrite retention_valid_iff in Hv.
  destruct Hv as (? & ? & ? & ? & ? & ? & ? & ?).
  unfold retire_in. split; unfold retired_ok, lease_ok; st_simpl; try apply Hok.
  - intros k' e _. rewrite lookup_insert_Some. intros [[<- <-]|[Hne He]].
    + split_and!; try done. exists f. split; [done|]. unfold valid_retired_fence, retains_epoch.
      cbn. rewrite Z.eqb_refl. cbn. apply Z.leb_le. lia.
    + destruct (ok_retired _ _ Hok k' e ltac:(done) He) as (? & ? & ? & ? & g & Hg & Hvg).
      split_and!; try done. exists g. split; [done|]. by apply retired_max_mono.
  - intros e k'. rewrite elem_of_union, elem_of_singleton, (ok_index _ _ Hok), lookup_insert_Some.
    destruct (decide (k = k')); naive_solver congruence.
  - rewrite retention_valid_iff. cbn. split_and!; done || lia.
  - cbn. lia.
Qed.

Lemma retire_in_settled st k f c :
  store_ok st → store_ok (retire_in st k f c) → settled st (retire_in st k f c).
Proof. intros Hok Hok'. by split. Qed.

Lemma settles_trans a b r : settled a b → settles b r → settles a r.
Proof. intros H. destruct r; cbn; try done. by apply settled_trans. Qed.

Lemma retire_key_settles st k : store_ok st → settles st (retire_key st k).
Proof.
  intros Hok. unfold retire_key, has_key.
  destruct (bool_decide (is_Some (records st !! k)) || bool_decide (is_Some (leases st !! k))) eqn:Hlive.
  { assert (retired_keys st !! k = None) as Hn.
    { apply live_not_retired; [done|]. by rewrite orb_true_iff, !bool_decide_eq_true in Hlive. }
    unfold unretire. rewrite Hn. by apply settled_refl. }
  rewrite orb_false_iff, !bool_decide_eq_false, <- !eq_None_not_Some in Hlive.
  destruct Hlive as [Hr Hl].
  destruct (scope_key k || bool_decide (is_Some (retired_keys st !! k))) eqn:Hs;
    [by apply settled_refl|].
  rewrite orb_false_iff, bool_decide_eq_false, <- eq_None_not_Some in Hs. destruct Hs as [Hs Hn].
  destruct (key_fences st !! k) as [f|] eqn:Hf; [|by apply settled_refl].
  destruct (Z.leb_spec (next_fence st) f); [by apply settled_refl|].
  pose proof (ok_retention_nonneg _ _ Hok) as (_ & _ & _ & Hc).
  pose proof (ok_retention _ _ Hok) as Hv. rewrite retention_valid_iff in Hv.
  destruct Hv as (_ & _ & _ & Hc' & _). unfold RETIRED_KEYS_PER_EPOCH in Hc'.
  rewrite checked_add_ok by (unfold USIZE_MAX; lia). cbn [ok_or].
  fold (retire_in st k f (retired_count (key_retention st) + 1)). cbn [retired_count].
  destruct (Z.eqb_spec (retired_count (key_retention st) + 1) RETIRED_KEYS_PER_EPOCH).
  - change (settles st (rotate_keys (retire_in st k f 1) Threshold)).
    assert (store_ok (retire_in st k f 1)) by (apply retire_in_ok; done || lia).
    eapply settles_trans; [by apply retire_in_settled|]. by apply rotate_keys_settles.
  - apply retire_in_settled; [done|]. apply retire_in_ok; try done. unfold RETIRED_KEYS_PER_EPOCH in *. lia.
Qed.

Lemma retire_all_settles candidates st : store_ok st → settles st (retire_all st candidates).
Proof.
  revert st. induction candidates as [|k l IH]; intros st Hok; cbn; [by apply settled_refl|].
  pose proof (retire_key_settles st k Hok) as Hk.
  destruct (retire_key st k) as [st'| |]; try done. cbn in Hk.
  eapply settles_trans; [done|]. apply IH, Hk.
Qed.

Lemma retire_dead_keys_settles st : store_ok st → settles st (retire_dead_keys st).
Proof.
  intros Hok. unfold retire_dead_keys. eapply settles_trans; [|apply retire_all_settles; by apply candidates_ok].
  split; try done. by apply candidates_ok.
Qed.

(** ** Finalization *)

Definition finalizes (st : FakeBackendState) (maximum : Z)
    (r : outcome StoreError (FakeBackendState * Z)) : Prop :=
  match r with
  | Ok (st', n) => settled st st' ∧ saturating_add (tracked st') (internal_key_count st') ≤ maximum
  | Err e => e = FencedTransitionStorageExhausted
             ∨ e = BackendUnavailable "fake backend tracked-key limit reached"
  | Crash => False
  end.

(** How many rotations empty the retired buckets. *)
Definition rotations_left (n : nat) (st : FakeBackendState) : Prop :=
  match n with
  | O => retired_keys st = ∅
  | 1%nat => ∀ k e, retired_keys st !! k = Some e → e = epoch (key_retention st) - 1
  | _ => True
  end.

Lemma rotated_left n st st' :
  rotated st st' → rotations_left (S n) st → rotations_left n st'.
Proof.
  intros [_ _ _ _ He Hr _ _ _ _] Hleft. destruct n as [|[|n]]; [| |done]; cbn in *.
  - apply map_eq. intros k. rewrite lookup_empty. destruct (retired_keys st' !! k) as [e|] eqn:E; [|done].
    destruct (Hr k e E) as [E' ->]. specialize (Hleft k _ E'). lia.
  - intros k e E. destruct (Hr k e E) as [_ ->]. lia.
Qed.

Lemma finalize_loop_S fuel st maximum rotations :
  finalize_loop (S fuel) st maximum rotations
  = if maximum <? saturating_add (tracked st) (internal_key_count st) then
      if bool_decide (retired_keys st = ∅)
      then Err (BackendUnavailable "fake backend tracked-key limit reached")
      else
        let? st := rotate_keys st Capacity in
        finalize_loop fuel st maximum (rotations + 1)
    else Ok (st, rotations).
Proof. done. Qed.

Lemma finalize_loop_spec n st maximum rotations :
  store_ok st → rotations_left n st →
  finalizes st maximum (finalize_loop (S n) st maximum rotations)
  ∧ ∀ st' m, finalize_loop (S n) st maximum rotations = Ok (st', m) → m ≤ rotations + Z.of_nat n.
Proof.
  revert st rotations. induction n as [|n IH]; intros st rotations Hok Hleft;
    rewrite finalize_loop_S; unfold finalizes;
    (destruct (Z.ltb_spec maximum (saturating_add (tracked st) (internal_key_count st)));
     [|split; [cbn; split; [by apply settled_refl|lia]|intros ? ? [= <- <-]; lia]]).
  - cbn in Hleft. rewrite bool_decide_true by done. split; [cbn; auto|done].
  - case_bool_decide as Hr; [split; [cbn; auto|done]|].
    pose proof (ok_floor _ _ Hok).
    destruct (rotate_keys_with_floor_spec st Capacity (async_fence_floor st) Hok ltac:(lia))
      as [E|(st1 & E & Hrot)]; unfold rotate_keys; rewrite E; [split; [cbn; auto|done]|].
    destruct (IH st1 (rotations + 1)) as [Hf Hm]; [apply Hrot|by eapply rotated_left|].
    split.
    + unfold finalizes in Hf. destruct (finalize_loop (S n) st1 maximum (rotations + 1)) as [[st' m]|e|]; try done.
      destruct Hf as [Hf Hc]. split; [|done]. eapply settled_trans; [|done]. by apply rotated_settled.
    + intros st' m Hl. specialize (Hm st' m Hl). lia.
Qed.

Lemma finalize_key_capacity_spec st maximum :
  store_ok st →
  finalizes st maximum (finalize_key_capacity st maximum)
  ∧ ∀ st' n, finalize_key_capacity st maximum = Ok (st', n) → n ≤ 2.
Proof. intros Hok. by apply (finalize_loop_spec 2). Qed.
