(* ===== verification/SessionFencing.v ===== *)
(** The fencing guarantees of the in-memory session store: every command keeps the
    invariant of [SessionInvariant], no command lowers the fence a key is observed
    with, and a superseded guard is refused for ever. *)
From S2P Require Import Prelude.
From S2P Require Import SessionTypes.
From S2P Require Import SessionTtl.
From S2P Require Import SessionRetention.
From S2P Require Import SessionReplication.
From S2P Require Import SessionStore.
From S2P Require Import SessionInvariant.

(** ** Fenced writes of a staged state *)

Lemma active_fence k l st :
  store_ok st → leases st !! k = Some l → active l = true → key_fences st !! k = Some (fence l).
Proof.
  intros Hok Hl Ha. destruct (ok_leases _ _ Hok k l ltac:(done) Hl) as (_ & _ & f & Hf & _ & Hact).
  by rewrite Hf, (Hact Ha).
Qed.

(** Writing or removing the record of a key under its active lease. *)
Lemma fenced_write k l g st :
  store_ok st → leases st !! k = Some l → active l = true →
  advances st (set_fence (with_records st (partial_alter g k (records st))) k (fence l)).
Proof.
  intros Hok Hl Ha. pose proof (active_fence k l st Hok Hl Ha) as Hf.
  destruct (ok_leases _ _ Hok k l ltac:(done) Hl) as (? & ? & _).
  destruct (ok_fences _ _ Hok k _ Hf) as [_ Hfa]. split_and!.
  - apply set_fence_ok; st_simpl; try done.
    + by apply records_ok_ex, store_ok_open.
    + right. by eexists.
    + intros l' Hl'. rewrite Hl in Hl'. injection Hl' as <-. split_and!; done || lia.
  - transitivity (with_records st (partial_alter g k (records st))); [by split_and!|].
    apply set_fence_le. unfold current_fence. st_simpl. by rewrite Hf.
  - apply no_revival_same.
    by destruct (set_fence_fields k (fence l) (with_records st (partial_alter g k (records st)))) as (_ & -> & _).
Qed.

(** Replacing a lease by one of the same fence and credential. *)
Lemma lease_update k l l' st :
  store_ok st → leases st !! k = Some l →
  fence l' = fence l → credential_id l' = credential_id l → (active l' = true → active l = true) →
  advances st (with_lease st k l').
Proof.
  intros Hok Hl Ef Ec Ha. destruct (ok_leases _ _ Hok k l ltac:(done) Hl) as (? & ? & f & Hf & ? & ?).
  split_and!; [|by split_and!|].
  2:{ intros k' l2. unfold with_lease; st_simpl. rewrite lookup_insert_Some.
      intros [[<- <-]|[? ?]] ?; left; [exists l|exists l2]; naive_solver. }
  apply (store_ok_close k).
  - apply (leases_ok_ex k _ (λ _, Some l')). by apply store_ok_open.
  - unfold with_lease; st_simpl. rewrite lookup_insert_eq. intros ? [= <-]. unfold lease_ok; st_simpl.
    rewrite Ef, Ec. split_and!; try done. exists f. split_and!; try done. auto.
  - intros _. unfold with_lease; st_simpl. rewrite Hf. by eexists.
  - unfold with_lease; st_simpl. intros e He. 
    destruct (ok_retired _ _ Hok k e ltac:(done) He) as (_ & _ & _ & Hn & _). congruence.
Qed.

Lemma lease_install_ok k l st :
  store_ok_ex (Some k) st → 0 ≤ fence l → allocated (next_fence st) (fence l) →
  allocated (next_credential_id st) (credential_id l) →
  store_ok (set_fence (with_lease st k l) k (fence l)).
Proof.
  intros Hok H0 Hf Hc. apply set_fence_ok; unfold with_lease; st_simpl; try done.
  - by apply (leases_ok_ex k _ (λ _, Some l)).
  - right. rewrite lookup_insert_eq. by eexists.
  - rewrite lookup_insert_eq. intros ? [= <-]. split_and!; done || lia.
Qed.

(** Installing a fresh lease at a fence above everything observed for the key. *)
Lemma lease_install k l st :
  store_ok_ex (Some k) st → 0 ≤ fence l → allocated (next_fence st) (fence l) →
  allocated (next_credential_id st) (credential_id l) → current_fence st k < fence l →
  advances st (set_fence (with_lease st k l) k (fence l)).
Proof.
  intros Hok H0 Hf Hc Hlt. split_and!.
  - by apply lease_install_ok.
  - transitivity (with_lease st k l); [by split_and!|]. apply set_fence_le.
    unfold with_lease, current_fence in *; st_simpl. lia.
  - intros k' l'. destruct (set_fence_fields k (fence l) (with_lease st k l)) as (_ & -> & _).
    unfold with_lease; st_simpl. rewrite lookup_insert_Some.
    intros [[<- <-]|[? ?]] ?; [by right|left; by exists l'].
Qed.

Lemma counters_advance st f c :
  store_ok st → next_fence st ≤ f ≤ U64_MAX → next_credential_id st ≤ c ≤ U64_MAX →
  advances st (with_counters st f c).
Proof.
  intros Hok Hf Hc. split_and!; [by apply counters_ok_ex| |by apply no_revival_same].
  split_and!; st_simpl; [done|lia|lia].
Qed.

(** ** The guard check *)

(** The guard is the key's current lease: same credential, owner, fence and
    deadline, and nothing newer has been observed for the key. *)
Record live_guard (st : FakeBackendState) (g : LeaseGuard) (now : Z) (l : LeaseEntry) : Prop := {
  lg_lease : leases st !! lease_key g = Some l;
  lg_active : active l = true;
  lg_credential : credential_id l = lease_credential_id g;
  lg_owner : owner l = lease_owner g;
  lg_fence : fence l = lease_fence g;
  lg_deadline : guard_expires_at l = lease_expires_at g;
  lg_current : current_fence st (lease_key g) ≤ lease_fence g;
  lg_guard_time : now < lease_expires_at g;
  lg_time : now < expires_at l;
}.

Lemma validate_fenced_mutation_iff st g now k :
  validate_fenced_mutation st g now = Ok k ↔ k = lease_key g ∧ ∃ l, live_guard st g now l.
Proof.
  unfold validate_fenced_mutation. split.
  - intros H. rust_cases. to_prop. split; [done|]. eexists. split; done || lia.
  - intros [-> [l []]]. rewrite !(proj2 (Z.leb_gt (lease_expires_at g) now)) by lia.
    rewrite (proj2 (Z.ltb_ge _ _)) by lia. cbn [andb].
    rewrite lg_lease0, lg_active0, lg_credential0, lg_owner0, lg_fence0, lg_deadline0, !Z.eqb_refl.
    rewrite bool_decide_true by done. cbn [negb]. by rewrite (proj2 (Z.leb_gt _ _)) by lia.
Qed.

Lemma validate_fenced_mutation_live st g now l :
  live_guard st g now l → validate_fenced_mutation st g now = Ok (lease_key g).
Proof. intros H. apply validate_fenced_mutation_iff. split; [done|by exists l]. Qed.

Lemma validate_fenced_mutation_returns st g now : returns (validate_fenced_mutation st g now).
Proof. unfold validate_fenced_mutation, returns. repeat case_match; done. Qed.

(** ** The staged mutations *)

(** When a compare-and-set applies: creation of an absent key, or replacement of
    the expected generation, by a higher one if either class is monotonic. *)
Definition cas_matches (expected : option Z) (current : option StoredSessionRecord)
    (new : StoredSessionRecord) : Prop :=
  match expected, current with
  | None, None => True
  | Some e, Some cur =>
      generation cur = e
      ∧ (requires_monotonic_generation (state_class cur)
         || requires_monotonic_generation (state_class new) = true →
         generation cur < generation new)
  | _, _ => False
  end.

Lemma generation_conflict_spec e cur new :
  generation_conflict e cur new = false ↔ cas_matches (Some e) (Some cur) new.
Proof.
  unfold generation_conflict, cas_matches.
  rewrite orb_false_iff, negb_false_iff, Z.eqb_eq, andb_false_iff, Z.leb_gt.
  destruct (_ || _); intuition congruence.
Qed.

(** The staged state and the answer of a compare-and-set whose guard passed. *)
Definition cas_outcome (st : FakeBackendState) (c : CompareAndSet) (now : Z)
    (st' : FakeBackendState) (result : CompareAndSetResult) : Prop :=
  let current := get_with_state st (cas_key c) now in
  match result with
  | CasSuccess =>
      st' = put_record st (cas_key c) (new_record c) (lease_fence (cas_lease c))
      ∧ cas_matches (expected_generation c) current (new_record c)
  | CasConflictResult seen =>
      st' = st ∧ seen = current ∧ ¬ cas_matches (expected_generation c) current (new_record c)
  end.

Section Staged.
Context `{TimestampRange}.
Variable cfg : Config.

(** The outcome of a compare-and-set on a staged state. *)
Lemma compare_and_set_staged st c now st' result :
  compare_and_set_with_state cfg st c now = Ok (st', result) →
  ∃ l, live_guard st (cas_lease c) now l ∧ lease_key (cas_lease c) = cas_key c
    ∧ rec_key (new_record c) = cas_key c
    ∧ rec_owner (new_record c) = lease_owner (cas_lease c)
    ∧ rec_fence (new_record c) = lease_fence (cas_lease c)
    ∧ validate_stored_record_expiry_at (new_record c) now = Ok ()
    ∧ ensure_key_capacity st (cas_key c) (max_tracked_keys (limits cfg)) = Ok ()
    ∧ cas_outcome st c now st' result.
Proof.
  unfold compare_and_set_with_state. intros Hc. 
  destruct (validate_stored_record_expiry_at _ _) as [[]| |] eqn:Hexp; try done.
  rust_cases; to_prop;
    match goal with H : validate_fenced_mutation _ _ _ = Ok _ |- _ =>
      apply validate_fenced_mutation_iff in H as [-> [l Hl]] end;
    repeat match goal with u : () |- _ => destruct u end;
    exists l; split_and!; try (done || congruence); unfold cas_outcome;
    match goal with H : lease_key _ = cas_key _ |- _ => rewrite <- H end;
    repeat match goal with
    | H : expected_generation c = _ |- _ => rewrite H
    | H : get_with_state _ _ _ = _ |- _ => rewrite H
    end; rewrite <- ?generation_conflict_spec; cbn; intuition congruence.
Qed.

Lemma delete_fenced_staged st g now st' :
  delete_fenced_with_state cfg st g now = Ok st' →
  ∃ l, live_guard st g now l
    ∧ ensure_key_capacity st (lease_key g) (max_tracked_keys (limits cfg)) = Ok ()
    ∧ st' = set_fence (with_records st (delete (lease_key g) (records st))) (lease_key g)
              (lease_fence g).
Proof.
  unfold delete_fenced_with_state. intros Hc. rust_cases; to_prop.
  match goal with H : validate_fenced_mutation _ _ _ = Ok _ |- _ =>
    apply validate_fenced_mutation_iff in H as [-> [l Hl]] end.
  repeat match goal with u : () |- _ => destruct u end. by exists l.
Qed.

Lemma refresh_ttl_staged st g ttl now st' deadline :
  refresh_ttl_with_state cfg st g ttl now = Ok (st', deadline) →
  ∃ l r, live_guard st g now l
    ∧ ensure_key_capacity st (lease_key g) (max_tracked_keys (limits cfg)) = Ok ()
    ∧ checked_session_deadline now ttl = Ok deadline
    ∧ get_with_state st (lease_key g) now = Some r
    ∧ st' = set_fence (with_records st (<[lease_key g := with_record_expiry r deadline]> (records st)))
              (lease_key g) (lease_fence g).
Proof.
  unfold refresh_ttl_with_state. intros Hc.
  destruct (checked_session_deadline now ttl) as [d| |] eqn:Hd; [|done..].
  rust_cases; to_prop.
  match goal with H : validate_fenced_mutation _ _ _ = Ok _ |- _ =>
    apply validate_fenced_mutation_iff in H as [-> [l Hl]] end.
  repeat match goal with u : () |- _ => destruct u end. eexists l, _. split_and!; try done.
  unfold get_with_state.
  match goal with H : records _ !! _ = Some _, H' : is_expired_at _ _ = false |- _ =>
    rewrite H; by rewrite H' end.
Qed.

Lemma compare_and_set_advances st c now st' result :
  store_ok st → compare_and_set_with_state cfg st c now = Ok (st', result) → advances st st'.
Proof.
  intros Hok (l & Hl & Ek & _ & _ & _ & _ & _ & Hres)%compare_and_set_staged.
  destruct result; cbn in Hres; [|destruct Hres as [-> _]; by apply advances_refl].
  destruct Hres as [-> _]. unfold put_record. rewrite <- Ek, <- (lg_fence _ _ _ _ Hl).
  apply (fenced_write _ l (λ _, Some _)); [done|apply Hl..].
Qed.

Lemma delete_fenced_advances st g now st' :
  store_ok st → delete_fenced_with_state cfg st g now = Ok st' → advances st st'.
Proof.
  intros Hok (l & Hl & _ & ->)%delete_fenced_staged. rewrite <- (lg_fence _ _ _ _ Hl).
  apply (fenced_write _ l (λ _, None)); [done|apply Hl..].
Qed.

Lemma refresh_ttl_advances st g ttl now st' deadline :
  store_ok st → refresh_ttl_with_state cfg st g ttl now = Ok (st', deadline) → advances st st'.
Proof.
  intros Hok (l & r & Hl & _ & _ & _ & ->)%refresh_ttl_staged. rewrite <- (lg_fence _ _ _ _ Hl).
  apply (fenced_write _ l (λ _, Some _)); [done|apply Hl..].
Qed.

(** ** Commit *)

Lemma push_entry_fields st e n st' :
  push_entry st e n = Ok st' →
  ∃ c s log, st' = with_log st c s log.
Proof.
  unfold push_entry, compact_replication_log. st_simpl. intros Hp. rust_cases; eauto.
Qed.

Lemma committed_settled a b t :
  settled a b → settled (with_committed_time a t) (with_committed_time b t).
Proof. intros []. split; try done. by apply committed_time_ok. Qed.

Lemma log_settled a b c l log : settled a b → settled a (with_log b c l log).
Proof. intros []. split; try done. by apply log_ok. Qed.

Lemma finalize_direct_settled st seq o now st' :
  store_ok st → finalize_direct cfg st seq o now = Ok st' →
  settled (with_committed_time st (Some now)) st'
  ∧ saturating_add (tracked st') (internal_key_count st') ≤ max_tracked_keys (limits cfg).
Proof.
  intros Hok. unfold finalize_direct. pose proof (retire_dead_keys_settles st Hok) as Hr.
  destruct (retire_dead_keys st) as [st1| |]; [|done..]. cbn in Hr.
  destruct (finalize_key_capacity_spec st1 (max_tracked_keys (limits cfg)) (set_ok _ _ Hr)) as [Hf _].
  destruct (finalize_key_capacity _ _) as [[st2 n]| |]; [|done..]. destruct Hf as [Hf Hcap].
  destruct (match seq with Some _ => _ | None => _ end); [|done..].
  destruct (policy_validate _); [|done..]. unfold append_direct_replication_entry.
  assert (Hset : settled st st2) by (by eapply settled_trans).
  destruct seq as [s|].
  - destruct (push_entry _ _ _) as [st3| |] eqn:Hp; [|done..]. intros [= <-].
    apply push_entry_fields in Hp as (c & s' & log & ->).
    split; [|done]. by apply committed_settled, log_settled.
  - intros [= <-]. split; [|done]. by apply committed_settled.
Qed.

Lemma commit_advances b st seq o now b' :
  advances (inner b) st → commit_direct_data cfg b st seq o now = Ok b' →
  advances (inner b) (inner b') ∧ settled (with_committed_time st (Some now)) (inner b')
  ∧ saturating_add (tracked (inner b')) (internal_key_count (inner b'))
    ≤ max_tracked_keys (limits cfg).
Proof.
  intros Ha. unfold commit_direct_data.
  destruct (finalize_direct cfg st seq o now) as [st'| |] eqn:Hf; [|done..]. intros [= <-].
  apply finalize_direct_settled in Hf as (Hset & Hcap); [|apply Ha]. cbn.
  split_and!; try done. eapply advances_trans; [done|]. exact (settled_advances _ _ Hset).
Qed.

End Staged.

(** ** Commands *)

Lemma command_time_spec b sampled now b' :
  command_time b sampled = (now, b') →
  inner b' = inner b ∧ read_expiry b' = read_expiry b ∧ writer_time b' = Some now
  ∧ sampled ≤ now ∧ (∀ t, committed_time (inner b) = Some t → t ≤ now)
  ∧ (∀ t, writer_time b = Some t → t ≤ now).
Proof.
  unfold command_time. intros [= <- <-]. cbn. split_and!; try done.
  - repeat case_match; lia.
  - intros t ->. case_match; lia.
  - intros t ->. lia.
Qed.

Lemma get_for_read_inner b k now : inner (get_for_read b k now).2 = inner b.
Proof. unfold get_for_read, record_expired. repeat case_match; by simplify_eq/=. Qed.

(** The result of a command is its own state or the untouched data. *)
Lemma settle_advances {E A} b (r : outcome E (Backend * A)) st :
  inner b = st → store_ok st → (∀ b' a, r = Ok (b', a) → advances st (inner b')) →
  advances st (inner (settle b r).1).
Proof.
  intros Hb Hok Hr. destruct r as [[b' a]|e|]; cbn; [by eapply Hr|rewrite Hb; by apply advances_refl..].
Qed.

Section CommandSteps.
Context `{TimestampRange}.
Variable cfg : Config.

Lemma compare_and_set_step b sampled c :
  store_ok (inner b) → advances (inner b) (inner (compare_and_set cfg b sampled c).1).
Proof.
  intros Hok. unfold compare_and_set.
  destruct (command_time b sampled) as [now b1] eqn:Ht. apply command_time_spec in Ht as (E1 & _).
  pose proof (get_for_read_inner b1 (cas_key c) now) as E2.
  destruct (get_for_read b1 (cas_key c) now) as [o b2]. cbn in E2.
  apply settle_advances; [congruence|done|]. intros b' a Hr.
  assert (Hp : advances (inner b2) (prune_state (inner b2) now))
    by (apply prune_state_ok; congruence).
  rust_cases.
  - match goal with H : compare_and_set_with_state _ _ _ _ = _ |- _ =>
      apply compare_and_set_advances in H; [|apply Hp] end.
    rewrite <- E1, <- E2. eapply commit_advances; [|done]. by eapply advances_trans.
  - rewrite E2, E1. by apply advances_refl.
Qed.

Lemma delete_fenced_step b sampled g :
  store_ok (inner b) → advances (inner b) (inner (delete_fenced cfg b sampled g).1).
Proof.
  intros Hok. unfold delete_fenced.
  destruct (command_time b sampled) as [now b1] eqn:Ht. apply command_time_spec in Ht as (E1 & _).
  apply settle_advances; [congruence|done|]. intros b' a Hr.
  assert (Hp : advances (inner b1) (prune_state (inner b1) now))
    by (apply prune_state_ok; congruence).
  rust_cases.
  match goal with H : delete_fenced_with_state _ _ _ _ = _ |- _ =>
    apply delete_fenced_advances in H; [|apply Hp] end.
  rewrite <- E1. eapply commit_advances; [|done]. by eapply advances_trans.
Qed.

Lemma refresh_ttl_step b sampled g ttl :
  store_ok (inner b) → advances (inner b) (inner (refresh_ttl cfg b sampled g ttl).1).
Proof.
  intros Hok. unfold refresh_ttl.
  destruct (validate_session_ttl ttl); [|by apply advances_refl..].
  destruct (command_time b sampled) as [now b1] eqn:Ht. apply command_time_spec in Ht as (E1 & _).
  pose proof (get_for_read_inner b1 (lease_key g) now) as E2.
  destruct (get_for_read b1 (lease_key g) now) as [o b2]. cbn in E2.
  apply settle_advances; [congruence|done|]. intros b' a' Hr.
  assert (Hp : advances (inner b2) (prune_state (inner b2) now))
    by (apply prune_state_ok; congruence).
  destruct (checked_session_deadline now ttl); [|done..].
  rust_cases.
  match goal with H : refresh_ttl_with_state _ _ _ _ _ = _ |- _ =>
    apply refresh_ttl_advances in H; [|apply Hp] end.
  rewrite <- E1, <- E2. eapply commit_advances; [|done]. by eapply advances_trans.
Qed.

Lemma acquire_fence_spec st k st' f c :
  next_fence st ≤ U64_MAX → acquire_fence st k = Ok (st', f, c) →
  current_fence st k < f ≤ U64_MAX ∧ next_fence st ≤ f ∧ c = next_credential_id st
  ∧ st' = with_counters st (saturating_add f 1) (saturating_add c 1).
Proof.
  unfold acquire_fence, ok_or. intros Hn Ha. rust_cases.
  match goal with H : checked_add _ _ = Some _ |- _ => apply checked_add_some in H as [-> ?] end.
  unfold USIZE_MAX, U64_MAX in *. split_and!; done || lia.
Qed.

(** The state an acquisition stages, up to the journal. *)
Lemma acquire_staged st k st1 f c l :
  store_ok st → acquire_fence (apply_async_floor_to_key st k) k = Ok (st1, f, c) →
  fence l = f → credential_id l = c →
  advances st (set_fence (with_lease st1 k l) k f) ∧ current_fence st k < f
  ∧ async_fence_floor (set_fence (with_lease st1 k l) k f) < f.
Proof.
  intros Hok Ha <- <-. pose proof (apply_floor_ex k st (store_ok_open _ _ Hok)) as Hok1.
  apply acquire_fence_spec in Ha as (Hf & Hnext & Hc & ->); [|apply Hok1].
  rewrite apply_floor_current in Hf. pose proof (ok_credential _ _ Hok1) as Hcred.
  pose proof (ok_floor _ _ Hok1) as Hfl. split.
  2:{ destruct (set_fence_fields k (fence l) (with_lease (with_counters (apply_async_floor_to_key st k)
        (saturating_add (fence l) 1) (saturating_add (credential_id l) 1)) k l)) as (_ & _ & _ & _ & -> & _).
      destruct (apply_floor_fields k st) as (_ & _ & _ & _ & Ef & _).
      unfold with_lease; st_simpl. rewrite Ef. unfold current_fence in *. lia. }
  set (st0 := apply_async_floor_to_key st k) in *. unfold saturating_add.
  destruct (lease_install k l
    (with_counters st0 (Z.min U64_MAX (fence l + 1)) (Z.min U64_MAX (credential_id l + 1))))
    as (? & Hle & Hrev); try (unfold allocated, U64_MAX in *; st_simpl; lia).
  - apply counters_ok_ex; [done|unfold U64_MAX in *; lia..].
  - change (current_fence st0 k < fence l). subst st0. rewrite apply_floor_current. lia.
  - assert (fence_le st (with_counters st0 (Z.min U64_MAX (fence l + 1))
                           (Z.min U64_MAX (credential_id l + 1)))) as Hle0.
    { etrans; [apply (apply_floor_le k)|]. fold st0. split_and!; st_simpl; [done|lia|lia]. }
    split_and!; [done|by etrans|]. eapply no_revival_trans; [exact Hle0| |exact Hrev].
    apply (apply_floor_revival k).
Qed.

Lemma apply_floor_live k l st :
  store_ok st → leases (apply_async_floor_to_key st k) !! k = Some l →
  advances st (apply_async_floor_to_key st k).
Proof.
  intros Hok Hl. split_and!; [|apply apply_floor_le|apply apply_floor_revival]. apply apply_floor_ok; [done|].
  apply live_not_retired; [done|]. right. rewrite apply_floor_lease in Hl.
  destruct (leases st !! k); [by eexists|done].
Qed.

Lemma acquire_step b sampled k o ttl :
  store_ok (inner b) → advances (inner b) (inner (acquire cfg b sampled k o ttl).1).
Proof.
  intros Hok. unfold acquire.
  destruct (map_err _ (validate_session_ttl ttl)); [|by apply advances_refl..].
  destruct (command_time b sampled) as [now b1] eqn:Ht. apply command_time_spec in Ht as (E1 & _).
  apply settle_advances; [congruence|done|]. intros b' g Hr.
  assert (Hp : advances (inner b1) (prune_state (inner b1) now))
    by (apply prune_state_ok; congruence).
  destruct (map_err _ (checked_session_deadline now ttl)); [|done..].
  destruct (map_err _ (next_direct_replication_sequence _ _)); [|done..].
  destruct (match leases _ !! k with Some _ => _ | None => _ end); [done|].
  destruct (map_err _ (ensure_key_capacity _ _ _)); [|done..].
  destruct (acquire_fence _ _) as [[[st f] c]| |] eqn:Hf; [|done..].
  destruct (map_err _ (commit_direct_data _ _ _ _ _ _)) as [b2| |] eqn:Hc; [|done..].
  injection Hr as <- _. apply map_err_ok in Hc. rewrite <- E1. eapply commit_advances; [|done].
  eapply advances_trans; [done|]. eapply acquire_staged; [apply Hp|done..].
Qed.

Lemma held_entry_spec st g l :
  held_entry st g = Ok l →
  leases st !! lease_key g = Some l ∧ active l = true
  ∧ credential_id l = lease_credential_id g ∧ owner l = lease_owner g
  ∧ fence l = lease_fence g ∧ guard_expires_at l = lease_expires_at g.
Proof. unfold held_entry. intros Hh. rust_cases; to_prop. done. Qed.

Lemma renew_step b sampled g ttl :
  store_ok (inner b) → advances (inner b) (inner (renew cfg b sampled g ttl).1).
Proof.
  intros Hok. unfold renew.
  destruct (map_err _ (validate_session_ttl ttl)); [|by apply advances_refl..].
  destruct (command_time b sampled) as [now b1] eqn:Ht. apply command_time_spec in Ht as (E1 & _).
  apply settle_advances; [congruence|done|]. intros b' g' Hr.
  assert (Hp : advances (inner b1) (prune_state (inner b1) now))
    by (apply prune_state_ok; congruence).
  destruct (map_err _ (checked_session_deadline now ttl)); [|done..].
  destruct (map_err _ (next_direct_replication_sequence _ _)); [|done..].
  destruct (below_floor _ _); [done|]. destruct (_ <=? _); [done|].
  destruct (held_entry _ _) as [l| |] eqn:Hh; [|done..]. destruct (_ <=? _); [done|].
  destruct (map_err _ (commit_direct_data _ _ _ _ _ _)) as [b2| |] eqn:Hc; [|done..].
  injection Hr as <- _. apply map_err_ok in Hc. rewrite <- E1. eapply commit_advances; [|done].
  apply held_entry_spec in Hh as (Hl & Ha & _).
  pose proof (apply_floor_live _ _ _ (proj1 Hp) Hl) as Hfl.
  eapply advances_trans; [done|]. eapply advances_trans; [done|].
  eapply lease_update; [apply Hfl|done|done..].
Qed.

Lemma release_step b sampled g :
  store_ok (inner b) → advances (inner b) (inner (release cfg b sampled g).1).
Proof.
  intros Hok. unfold release.
  destruct (command_time b sampled) as [now b1] eqn:Ht. apply command_time_spec in Ht as (E1 & _).
  apply settle_advances; [congruence|done|]. intros b' [] Hr.
  assert (Hp : advances (inner b1) (prune_state (inner b1) now))
    by (apply prune_state_ok; congruence).
  destruct (map_err _ (next_direct_replication_sequence _ _)); [|done..].
  destruct (below_floor _ _); [done|].
  destruct (held_entry _ _) as [l| |] eqn:Hh; [|done..].
  destruct (map_err _ (commit_direct_data _ _ _ _ _ _)) as [b2| |] eqn:Hc; [|done..].
  injection Hr as <-. apply map_err_ok in Hc. rewrite <- E1. eapply commit_advances; [|done].
  apply held_entry_spec in Hh as (Hl & Ha & _).
  pose proof (apply_floor_live _ _ _ (proj1 Hp) Hl) as Hfl.
  eapply advances_trans; [done|]. eapply advances_trans; [done|].
  eapply lease_update; [apply Hfl|done|done..].
Qed.

Lemma batch_step_advances b now s o st :
  store_ok st → advances st (staged s) → advances st (staged (batch_step cfg b now s o)).
Proof.
  intros Hok Hs. unfold batch_step. destruct o as [k|c|g|g ttl].
  - by destruct (batch_get _ _ _ _).
  - destruct (compare_and_set_with_state _ _ _ _) as [[st' []]| |] eqn:E; try done. cbn.
    apply compare_and_set_advances in E; [by eapply advances_trans|apply Hs].
  - destruct (delete_fenced_with_state _ _ _ _) as [st'| |] eqn:E; try done. cbn.
    apply delete_fenced_advances in E; [by eapply advances_trans|apply Hs].
  - destruct (refresh_ttl_with_state _ _ _ _ _) as [[st' d]| |] eqn:E; try done. cbn.
    apply refresh_ttl_advances in E; [by eapply advances_trans|apply Hs].
Qed.

Lemma batch_fold_advances b now ops s st :
  store_ok st → advances st (staged s) → advances st (staged (fold_left (batch_step cfg b now) ops s)).
Proof.
  revert s. induction ops as [|o ops IH]; intros s Hok Hs; [done|].
  cbn [fold_left]. apply IH; [done|]. by apply batch_step_advances.
Qed.

Lemma mark_expired_reads_inner b now reads : inner (mark_expired_reads b now reads) = inner b.
Proof.
  unfold mark_expired_reads. revert b. induction reads as [|r reads IH]; intros b; [done|].
  cbn [fold_left]. rewrite IH. case_bool_decide; [|done]. unfold record_expired. by case_match.
Qed.

Lemma batch_step_ok b sampled ops :
  store_ok (inner b) → advances (inner b) (inner (batch cfg b sampled ops).1).
Proof.
  intros Hok. unfold batch.
  destruct (if existsb is_write ops then _ else _); [|by apply advances_refl..].
  destruct (if existsb is_write ops then command_time b sampled else _) as [now b1] eqn:Ht.
  assert (inner b1 = inner b) as E1.
  { destruct (existsb is_write ops); [by apply command_time_spec in Ht as (? & _)|by injection Ht as _ <-]. }
  apply settle_advances; [done|done|]. intros b' res Hr.
  destruct (validate_session_ops_at _ _); [|done..]. destruct (try_for_each _ _); [|done..].
  destruct (negb _); [done|].
  match type of Hr with context [fold_left ?f ops ?s0] =>
    assert (Hs : advances (inner b1) (staged (fold_left f ops s0))) end.
  { apply batch_fold_advances; [congruence|]. cbn.
    destruct (existsb is_write ops); [apply prune_state_ok|apply advances_refl]; congruence. }
  destruct (replication _).
  - injection Hr as <- _. rewrite mark_expired_reads_inner, E1. by apply advances_refl.
  - destruct (next_direct_replication_sequence _ _); [|done..].
    destruct (commit_direct_data _ _ _ _ _ _) as [b2| |] eqn:Hc; [|done..].
    injection Hr as <- _. rewrite mark_expired_reads_inner, <- E1. by eapply commit_advances.
Qed.

End CommandSteps.
