(* ===== verification/SessionSafety.v ===== *)
(** The guarantees a client of the session store relies on, over every sequence of
    commands: the invariant is never broken, the fence of a key never goes down, an
    acquisition returns a fresh working guard, a guard that was superseded or
    released is refused from then on, and a held lease excludes other owners. *)
From S2P Require Import Prelude.
From S2P Require Import SessionTypes.
From S2P Require Import SessionTtl.
From S2P Require Import SessionRetention.
From S2P Require Import SessionReplication.
From S2P Require Import SessionStore.
From S2P Require Import SessionInvariant.
From S2P Require Import SessionFencing.
From S2P Require Import SessionReplay.

(** ** Sequences of commands *)

Inductive Command :=
| CmdGet (k : SessionKey)
| CmdCompareAndSet (c : CompareAndSet)
| CmdDeleteFenced (g : LeaseGuard)
| CmdRefreshTtl (g : LeaseGuard) (ttl : Z)
| CmdAcquire (k : SessionKey) (o : string) (ttl : Z)
| CmdRenew (g : LeaseGuard) (ttl : Z)
| CmdRelease (g : LeaseGuard)
| CmdBatch (ops : list SessionOp).

Section Steps.
Context `{TimestampRange}.
Variable cfg : Config.

(** The backend after a command, with the clock sample it took. *)
Definition exec (b : Backend) (sampled : Z) (c : Command) : Backend :=
  match c with
  | CmdGet k => (get b k sampled).2
  | CmdCompareAndSet c => (compare_and_set cfg b sampled c).1
  | CmdDeleteFenced g => (delete_fenced cfg b sampled g).1
  | CmdRefreshTtl g ttl => (refresh_ttl cfg b sampled g ttl).1
  | CmdAcquire k o ttl => (acquire cfg b sampled k o ttl).1
  | CmdRenew g ttl => (renew cfg b sampled g ttl).1
  | CmdRelease g => (release cfg b sampled g).1
  | CmdBatch ops => (batch cfg b sampled ops).1
  end.

Inductive direct_step : Backend → Backend → Prop :=
| direct_command b sampled c : direct_step b (exec b sampled c).

(** Commands, failed ones included, and the two replication entry points. *)
Inductive step : Backend → Backend → Prop :=
| step_command b sampled c : step b (exec b sampled c)
| step_replicate b e b' :
    entry_typed e → replicate_entry cfg b e = Ok b' → step b b'
| step_rebuild b entries b' :
    Forall entry_typed entries → rebuild_replication_state cfg b entries = Ok b' → step b b'.

Lemma exec_advances b sampled c :
  store_ok (inner b) → advances (inner b) (inner (exec b sampled c)).
Proof.
  intros Hok. destruct c; cbn; [|by apply compare_and_set_step|by apply delete_fenced_step
    |by apply refresh_ttl_step|by apply acquire_step|by apply renew_step|by apply release_step
    |by apply batch_step_ok].
  unfold get. rewrite get_for_read_inner. by apply advances_refl.
Qed.

Lemma direct_steps_advance b b' :
  store_ok (inner b) → rtc direct_step b b' → advances (inner b) (inner b').
Proof.
  intros Hok Hs. induction Hs as [b|b b1 b2 [b' t c] _ IH]; [by apply advances_refl|].
  pose proof (exec_advances b' t c Hok) as Ha. eapply advances_trans; [done|]. apply IH, Ha.
Qed.

(** ** Dead guards *)

(** Everything observed for the key is newer than the guard, or the guard's own
    lease is gone. *)
Definition dead_guard (st : FakeBackendState) (g : LeaseGuard) : Prop :=
  lease_fence g < current_fence st (lease_key g)
  ∨ lease_fence g ≤ current_fence st (lease_key g)
    ∧ ∀ l, leases st !! lease_key g = Some l → active l = true → fence l ≠ lease_fence g.

Lemma dead_guard_advances st st' g : advances st st' → dead_guard st g → dead_guard st' g.
Proof.
  intros (_ & (Hle & _) & Hrev) Hd. specialize (Hle (lease_key g)).
  destruct Hd as [Hlt|[Hlt Hno]]; [left; lia|].
  destruct (decide (lease_fence g < current_fence st' (lease_key g))); [by left|right].
  split; [lia|]. intros l' Hl' Ha' Hf. destruct (Hrev _ _ Hl' Ha') as [(l & Hl & Ha & Hfl & _)|]; [|lia].
  apply (Hno l Hl Ha). lia.
Qed.

Lemma dead_not_live st g now l : dead_guard st g → ¬ live_guard st g now l.
Proof. intros [?|[? Hno]] []; [lia|]. by apply (Hno l). Qed.

Lemma dead_guard_validate st g now :
  dead_guard st g → ∃ e, validate_fenced_mutation st g now = Err e.
Proof.
  intros Hd. destruct (validate_fenced_mutation st g now) as [k|e|] eqn:E; [|by eexists|].
  - apply validate_fenced_mutation_iff in E as [_ [l Hl]]. by eapply dead_not_live in Hl.
  - by apply validate_fenced_mutation_returns in E.
Qed.

(** A dead guard does not name the held entry of the key. *)
Lemma dead_guard_held st g :
  store_ok st → dead_guard st g →
  let st' := apply_async_floor_to_key st (lease_key g) in
  below_floor st' g = false → ∃ e, held_entry st' g = Err e.
Proof.
  intros Hok Hd st' Hb. destruct (held_entry st' g) as [l|e|] eqn:E; [|by eexists|].
  - apply held_entry_spec in E as (Hl & Ha & _ & _ & Hf & _).
    pose proof (apply_floor_live _ _ _ Hok Hl) as Hadv. fold st' in Hadv.
    pose proof (active_fence _ _ _ (proj1 Hadv) Hl Ha) as Hk.
    destruct (dead_guard_advances _ _ _ Hadv Hd) as [Hlt|[_ Hno]]; [|by destruct (Hno l)].
    unfold current_fence in Hlt. rewrite Hk in Hlt.
    unfold below_floor in Hb. to_prop. lia.
  - unfold held_entry in E. by repeat case_match.
Qed.

(** ** Slots of a batch *)

Definition presents (g : LeaseGuard) (o : SessionOp) : bool :=
  match o with
  | SessionGet _ => false
  | SessionCompareAndSet c => bool_decide (cas_lease c = g)
  | SessionDeleteFenced lease => bool_decide (lease = g)
  | SessionRefreshTtl lease _ => bool_decide (lease = g)
  end.

Definition slot_refused (r : SessionOpResult) : Prop :=
  match r with
  | ResultGet _ => False
  | ResultCompareAndSet r => is_err r = true
  | ResultDeleteFenced r | ResultRefreshTtl r => is_err r = true
  end.

(** The other slots of a batch. *)
Definition without (g : LeaseGuard) (ops : list SessionOp) : list SessionOp :=
  List.filter (λ o, negb (presents g o)) ops.

(** Every operation that presents the guard fails and leaves the data as it was: a command
    changes nothing, and a slot of a batch fails and the batch does to the data what it does
    without its slots that present the guard. *)
Definition refused (b : Backend) (g : LeaseGuard) : Prop :=
  ∀ sampled,
    (∀ c, cas_lease c = g →
       is_err (compare_and_set cfg b sampled c).2 = true
       ∧ inner (compare_and_set cfg b sampled c).1 = inner b)
    ∧ (is_err (delete_fenced cfg b sampled g).2 = true
       ∧ inner (delete_fenced cfg b sampled g).1 = inner b)
    ∧ (∀ ttl, is_err (refresh_ttl cfg b sampled g ttl).2 = true
              ∧ inner (refresh_ttl cfg b sampled g ttl).1 = inner b)
    ∧ (∀ ttl, is_err (renew cfg b sampled g ttl).2 = true
              ∧ inner (renew cfg b sampled g ttl).1 = inner b)
    ∧ (is_err (release cfg b sampled g).2 = true
       ∧ inner (release cfg b sampled g).1 = inner b)
    ∧ (∀ ops, match (batch cfg b sampled ops).2 with
              | Ok results =>
                  Forall2 (λ o r, presents g o = true → slot_refused r) ops results
                  ∧ inner (batch cfg b sampled ops).1
                    = inner (batch cfg b sampled (without g ops)).1
              | _ => inner (batch cfg b sampled ops).1 = inner b
              end).

(** A command whose body fails: its answer is the error, its data the old data. *)
Lemma settle_refused {E A} b b0 (r : outcome E (Backend * A)) :
  inner b = inner b0 → is_err r = true →
  is_err (settle b r).2 = true ∧ inner (settle b r).1 = inner b0.
Proof. intros Hb Hr. by destruct r as [[? ?]| |]. Qed.

Lemma next_sequence_returns st : returns (next_direct_replication_sequence cfg st).
Proof.
  unfold next_direct_replication_sequence, require_complete_replay_command,
    next_replication_sequence, ok_or, returns. repeat case_match; done.
Qed.

Lemma validate_stored_returns r now : returns (validate_stored_record_expiry_at r now).
Proof.
  unfold validate_stored_record_expiry_at, validate_record_expiry_at,
    validate_record_expiry_profile, returns. repeat case_match; done.
Qed.

Lemma compare_and_set_slot st c now :
  dead_guard st (cas_lease c) → is_err (compare_and_set_with_state cfg st c now) = true.
Proof.
  intros [e He]%(dead_guard_validate _ _ now). unfold compare_and_set_with_state. rewrite He.
  pose proof (validate_stored_returns (new_record c) now).
  destruct (validate_stored_record_expiry_at _ now); [|done..].
  repeat (destruct (negb _); [done|]). destruct (_ || _); [done|]. by destruct (_ <? _).
Qed.

Lemma delete_fenced_slot st g now :
  dead_guard st g → is_err (delete_fenced_with_state cfg st g now) = true.
Proof.
  intros [e He]%(dead_guard_validate _ _ now). unfold delete_fenced_with_state. rewrite He.
  by destruct (negb _).
Qed.

Lemma refresh_ttl_slot st g ttl now :
  dead_guard st g → is_err (refresh_ttl_with_state cfg st g ttl now) = true.
Proof.
  intros [e He]%(dead_guard_validate _ _ now). unfold refresh_ttl_with_state. rewrite He.
  pose proof (checked_session_deadline_err now ttl).
  destruct (checked_session_deadline now ttl); [|done..]. by repeat (destruct (negb _); [done|]).
Qed.

Lemma compare_and_set_refused b sampled c :
  store_ok (inner b) → dead_guard (inner b) (cas_lease c) →
  is_err (compare_and_set cfg b sampled c).2 = true
  ∧ inner (compare_and_set cfg b sampled c).1 = inner b.
Proof.
  intros Hok Hd. unfold compare_and_set.
  destruct (command_time b sampled) as [now b1] eqn:Ht. apply command_time_spec in Ht as (E1 & _).
  pose proof (get_for_read_inner b1 (cas_key c) now) as E2.
  destruct (get_for_read b1 (cas_key c) now) as [o b2]. cbn in E2.
  apply settle_refused; [congruence|]. rewrite E2, E1.
  apply (dead_guard_advances _ _ _ (prune_state_ok _ now Hok)) in Hd.
  apply (compare_and_set_slot _ _ now) in Hd.
  pose proof (next_sequence_returns (prune_state (inner b) now)) as Hn.
  pose proof (validate_stored_returns (new_record c) now) as Hs.
  destruct (validate_stored_record_expiry_at _ now); [|done..].
  destruct (next_direct_replication_sequence _ _); [|done..].
  by destruct (compare_and_set_with_state _ _ _ _).
Qed.

Lemma delete_fenced_refused b sampled g :
  store_ok (inner b) → dead_guard (inner b) g →
  is_err (delete_fenced cfg b sampled g).2 = true
  ∧ inner (delete_fenced cfg b sampled g).1 = inner b.
Proof.
  intros Hok Hd. unfold delete_fenced.
  destruct (command_time b sampled) as [now b1] eqn:Ht. apply command_time_spec in Ht as (E1 & _).
  apply settle_refused; [congruence|]. rewrite E1.
  apply (dead_guard_advances _ _ _ (prune_state_ok _ now Hok)) in Hd.
  apply (delete_fenced_slot _ _ now) in Hd.
  pose proof (next_sequence_returns (prune_state (inner b) now)) as Hn.
  destruct (next_direct_replication_sequence _ _); [|done..].
  by destruct (delete_fenced_with_state _ _ _ _).
Qed.

Lemma refresh_ttl_refused b sampled g ttl :
  store_ok (inner b) → dead_guard (inner b) g →
  is_err (refresh_ttl cfg b sampled g ttl).2 = true
  ∧ inner (refresh_ttl cfg b sampled g ttl).1 = inner b.
Proof.
  intros Hok Hd. unfold refresh_ttl.
  destruct (validate_session_ttl ttl) eqn:Hv; [|done|by unfold validate_session_ttl in Hv; case_match].
  destruct (command_time b sampled) as [now b1] eqn:Ht. apply command_time_spec in Ht as (E1 & _).
  pose proof (get_for_read_inner b1 (lease_key g) now) as E2.
  destruct (get_for_read b1 (lease_key g) now) as [o b2]. cbn in E2.
  apply settle_refused; [congruence|]. rewrite E2, E1.
  apply (dead_guard_advances _ _ _ (prune_state_ok _ now Hok)) in Hd.
  destruct (dead_guard_validate _ _ now Hd) as [e He].
  pose proof (next_sequence_returns (prune_state (inner b) now)) as Hn.
  pose proof (checked_session_deadline_err now ttl) as Hdl. unfold refresh_ttl_with_state.
  destruct (checked_session_deadline now ttl); [|done..].
  destruct (next_direct_replication_sequence _ _); [|done..].
  rewrite He. repeat case_match; simplify_eq/=; done.
Qed.

Lemma map_err_returns {E F A} (f : E → F) (r : outcome E A) : returns r → returns (map_err f r).
Proof. by destruct r. Qed.

Lemma renew_refused b sampled g ttl :
  store_ok (inner b) → dead_guard (inner b) g →
  is_err (renew cfg b sampled g ttl).2 = true ∧ inner (renew cfg b sampled g ttl).1 = inner b.
Proof.
  intros Hok Hd. unfold renew.
  destruct (map_err lease_error_from (validate_session_ttl ttl)) eqn:Hv;
    [|done|by unfold validate_session_ttl in Hv; case_match].
  destruct (command_time b sampled) as [now b1] eqn:Ht. apply command_time_spec in Ht as (E1 & _).
  apply settle_refused; [congruence|]. rewrite E1.
  apply (dead_guard_advances _ _ _ (prune_state_ok _ now Hok)) in Hd.
  pose proof (map_err_returns lease_error_from _ (next_sequence_returns (prune_state (inner b) now))) as Hn.
  pose proof (map_err_returns lease_error_from _ (checked_session_deadline_err now ttl)) as Hdl.
  destruct (map_err _ (checked_session_deadline now ttl)); [|done..].
  destruct (map_err _ (next_direct_replication_sequence _ _)); [|done..].
  pose proof (dead_guard_held _ _ (proj1 (prune_state_ok _ now Hok)) Hd) as Hh. cbn in Hh.
  destruct (below_floor _ g); [done|]. destruct (_ <=? _); [done|].
  by destruct (Hh eq_refl) as [e ->].
Qed.

Lemma release_refused b sampled g :
  store_ok (inner b) → dead_guard (inner b) g →
  is_err (release cfg b sampled g).2 = true ∧ inner (release cfg b sampled g).1 = inner b.
Proof.
  intros Hok Hd. unfold release.
  destruct (command_time b sampled) as [now b1] eqn:Ht. apply command_time_spec in Ht as (E1 & _).
  apply settle_refused; [congruence|]. rewrite E1.
  apply (dead_guard_advances _ _ _ (prune_state_ok _ now Hok)) in Hd.
  pose proof (map_err_returns lease_error_from _ (next_sequence_returns (prune_state (inner b) now))) as Hn.
  destruct (map_err _ (next_direct_replication_sequence _ _)); [|done..].
  pose proof (dead_guard_held _ _ (proj1 (prune_state_ok _ now Hok)) Hd) as Hh. cbn in Hh.
  destruct (below_floor _ g); [done|]. by destruct (Hh eq_refl) as [e ->].
Qed.

(** Reads stage nothing. *)
Lemma reads_replicate_nothing b now ops s :
  existsb is_write ops = false → replication s = [] →
  replication (fold_left (batch_step cfg b now) ops s) = [].
Proof.
  revert s. induction ops as [|o ops IH]; intros s Hw Hs; [done|]. cbn in Hw.
  apply orb_false_iff in Hw as [Ho Hw]. cbn [fold_left]. apply IH; [done|].
  by destruct o.
Qed.

Lemma batch_step_refused b now s o g :
  dead_guard (staged s) g → presents g o = true →
  ∃ r, slot_refused r
    ∧ batch_step cfg b now s o
      = {| staged := staged s; replication := replication s; expired_reads := expired_reads s;
           results := results s ++ [r] |}.
Proof.
  intros Hd Ho. destruct o as [k|c|lease|lease ttl]; [done|..];
    cbn in Ho; apply bool_decide_eq_true in Ho as <-; unfold batch_step.
  - generalize (compare_and_set_slot (staged s) c now Hd).
    destruct (compare_and_set_with_state _ _ _ _); [done| |done]. eexists. by split; [|reflexivity].
  - generalize (delete_fenced_slot (staged s) lease now Hd).
    destruct (delete_fenced_with_state _ _ _ _); [done| |done]. eexists. by split; [|reflexivity].
  - generalize (refresh_ttl_slot (staged s) lease ttl now Hd).
    destruct (refresh_ttl_with_state _ _ _ _ _); [done| |done]. eexists. by split; [|reflexivity].
Qed.

(** What a slot stages depends on what is staged before it. *)
Lemma batch_step_staged b now s t o :
  staged s = staged t → replication s = replication t →
  staged (batch_step cfg b now s o) = staged (batch_step cfg b now t o)
  ∧ replication (batch_step cfg b now s o) = replication (batch_step cfg b now t o)
  ∧ ∃ r, results (batch_step cfg b now s o) = results s ++ [r].
Proof.
  intros Es Er. unfold batch_step. rewrite Es, Er.
  destruct o; repeat case_match; cbn; split_and!; try done; by eexists.
Qed.

Lemma batch_fold_refused b now g ops s t :
  store_ok (staged s) → dead_guard (staged s) g →
  staged s = staged t → replication s = replication t →
  let s' := fold_left (batch_step cfg b now) ops s in
  let t' := fold_left (batch_step cfg b now) (without g ops) t in
  staged s' = staged t' ∧ replication s' = replication t'
  ∧ ∃ rs, results s' = results s ++ rs
      ∧ Forall2 (λ o r, presents g o = true → slot_refused r) ops rs.
Proof.
  revert s t. induction ops as [|o ops IH]; intros s t Hok Hd Es Er.
  { cbn. split_and!; try done. exists []. by rewrite app_nil_r. }
  cbn [fold_left without List.filter]. destruct (presents g o) eqn:Ho; cbn [negb fold_left].
  - destruct (batch_step_refused b now s o g Hd Ho) as (r & Hr & ->).
    set (s1 := {| staged := staged s; replication := replication s |}).
    destruct (IH s1 t Hok Hd Es Er) as (? & ? & rs & Hrs & Hall).
    split_and!; try done. exists (r :: rs). subst s1. cbn in Hrs. rewrite Hrs, <- app_assoc.
    split; [done|by constructor].
  - pose proof (batch_step_advances cfg b now s o (staged s) Hok (advances_refl _ Hok)) as Ha.
    destruct (batch_step_staged b now s t o Es Er) as (Es' & Er' & r & Hr).
    destruct (IH _ _ (proj1 Ha) (dead_guard_advances _ _ _ Ha Hd) Es' Er') as (? & ? & rs & Hrs & Hall).
    split_and!; try done. exists (r :: rs). rewrite Hrs, Hr, <- app_assoc.
    split; [done|]. constructor; [congruence|done].
Qed.

Lemma try_for_each_without f g ops :
  try_for_each f ops = Ok () → try_for_each f (without g ops) = Ok ().
Proof.
  induction ops as [|o ops IH]; [done|]. cbn. destruct (f o) as [[]| |] eqn:Hf; [|done..].
  intros Hops. destruct (negb _); cbn; [rewrite Hf|]; by apply IH.
Qed.

Lemma batch_reads_inner b sampled ops :
  existsb is_write ops = false → inner (batch cfg b sampled ops).1 = inner b.
Proof.
  intros Hw. unfold batch. rewrite Hw. destruct (validate_session_ops_at _ _); [|done..].
  destruct (try_for_each _ _); [|done..]. destruct (negb _); [done|].
  rewrite reads_replicate_nothing by done. cbn. by rewrite mark_expired_reads_inner.
Qed.

Lemma without_writes g ops : existsb is_write (without g ops) = true → existsb is_write ops = true.
Proof.
  rewrite !existsb_exists. intros (o & Ho & Hw). exists o. split; [|done].
  unfold without in Ho. apply filter_In in Ho. apply Ho.
Qed.

Lemma validate_ops_without g ops now :
  validate_session_ops_at ops now = Ok () → validate_session_ops_at (without g ops) now = Ok ().
Proof.
  unfold validate_session_ops_at. destruct (try_for_each _ _) as [[]| |] eqn:Ht; [|done..].
  rewrite (try_for_each_without _ g ops Ht). apply try_for_each_without.
Qed.

Lemma batch_refused b sampled g ops :
  store_ok (inner b) → dead_guard (inner b) g →
  match (batch cfg b sampled ops).2 with
  | Ok results =>
      Forall2 (λ o r, presents g o = true → slot_refused r) ops results
      ∧ inner (batch cfg b sampled ops).1 = inner (batch cfg b sampled (without g ops)).1
  | _ => inner (batch cfg b sampled ops).1 = inner b
  end.
Proof.
  intros Hok Hd. pose proof (batch_reads_inner b sampled (without g ops)) as Hr.
  pose proof (without_writes g ops) as Hw.
  set (others := batch cfg b sampled (without g ops)) in *. unfold batch.
  destruct (if existsb is_write ops then require_complete_replay_command _ else _) as [[]| |] eqn:Hc; [|done..].
  destruct (if existsb is_write ops then command_time b sampled else _) as [now b1] eqn:Ht.
  assert (inner b1 = inner b) as E1.
  { destruct (existsb is_write ops); [by apply command_time_spec in Ht as (? & _)|by injection Ht as _ <-]. }
  destruct (validate_session_ops_at ops now) as [[]| |] eqn:Hv; [|done..].
  destruct (try_for_each (op_deadline now) ops) as [[]| |] eqn:Hdl; [|done..].
  destruct (negb (batch_write _)) eqn:Hbw; [done|].
  set (st := if existsb is_write ops then prune_state (inner b1) now else inner b1).
  assert (advances (inner b) st) as Ha.
  { subst st. rewrite E1. destruct (existsb is_write ops); [by apply prune_state_ok|by apply advances_refl]. }
  set (s0 := {| replication := [] |}).
  destruct (batch_fold_refused b1 now g ops s0 s0 (proj1 Ha) (dead_guard_advances _ _ _ Ha Hd) eq_refl eq_refl)
    as (Es & Er & rs & Hrs & Hall). cbn [results s0 app] in Hrs. rewrite Hrs, Es, Er.
  destruct (existsb is_write (without g ops)) eqn:Hw'; cycle 1.
  { rewrite Hr, reads_replicate_nothing by done. cbn. by rewrite mark_expired_reads_inner. }
  unfold batch in others. subst others s0 st. rewrite Hw in * by done. rewrite Hw', Hc, Ht, Hbw.
  rewrite (validate_ops_without g ops now), (try_for_each_without (op_deadline now) g ops) by done.
  destruct (replication (fold_left _ (without g ops) _)); [cbn; by rewrite !mark_expired_reads_inner|].
  destruct (next_direct_replication_sequence _ _); [|done..].
  destruct (commit_direct_data _ _ _ _ _ _); [|done..]. cbn. by rewrite !mark_expired_reads_inner.
Qed.

Lemma dead_guard_refused b b' g :
  store_ok (inner b) → dead_guard (inner b) g → rtc direct_step b b' → refused b' g.
Proof.
  intros Hok Hd Hs sampled. pose proof (direct_steps_advance b b' Hok Hs) as Ha.
  apply (dead_guard_advances _ _ _ Ha) in Hd. destruct Ha as [Hok' _].
  split; [intros c <-; by apply compare_and_set_refused|].
  split; [by apply delete_fenced_refused|]. split; [intros ttl; by apply refresh_ttl_refused|].
  split; [intros ttl; by apply renew_refused|].
  split; [by apply release_refused|]. intros ops. by apply batch_refused.
Qed.

(** ** Acquisition *)

Lemma acquire_inv b sampled k o ttl b' g :
  store_ok (inner b) → acquire cfg b sampled k o ttl = (b', Ok g) →
  lease_key g = k ∧ lease_owner g = o
  ∧ sampled ≤ lease_acquired_at g
  ∧ checked_session_deadline (lease_acquired_at g) ttl = Ok (lease_expires_at g)
  ∧ current_fence (inner b) k < lease_fence g
  ∧ current_fence (inner b') k = lease_fence g
  ∧ leases (inner b') !! k
    = Some {| active := true; credential_id := lease_credential_id g; owner := o;
              fence := lease_fence g; acquired_at := lease_acquired_at g;
              expires_at := lease_expires_at g; guard_expires_at := lease_expires_at g |}.
Proof.
  intros Hok. unfold acquire.
  destruct (map_err _ (validate_session_ttl ttl)); [|done..].
  destruct (command_time b sampled) as [now b1] eqn:Ht.
  apply command_time_spec in Ht as (E1 & _ & _ & Hnow & _).
  pose proof (prune_state_ok (inner b1) now ltac:(congruence)) as Hp.
  destruct (map_err _ (checked_session_deadline now ttl)) as [d| |] eqn:Hd; [|done..].
  destruct (map_err _ (next_direct_replication_sequence _ _)); [|done..].
  destruct (match leases _ !! k with Some _ => _ | None => _ end); [done|].
  destruct (map_err _ (ensure_key_capacity _ _ _)); [|done..].
  destruct (acquire_fence _ _) as [[[st f] c]| |] eqn:Hf; [|done..].
  set (l := {| active := true; fence := f |}).
  destruct (acquire_staged _ _ _ _ _ l (proj1 Hp) Hf eq_refl eq_refl) as (Ha & Hlt & Hfl).
  destruct (map_err _ (commit_direct_data _ _ _ _ _ _)) as [b2| |] eqn:Hc; [|done..].
  cbn [settle]. intros [= <- <-]. cbn. apply map_err_ok in Hc, Hd.
  apply commit_advances in Hc as (Hadv & [_ _ _ El _ Ef _ _] & _); [|by eapply advances_trans].
  change (leases (inner b2) = leases (set_fence (with_lease st k l) k f)) in El.
  change (async_fence_floor (inner b2) = async_fence_floor (set_fence (with_lease st k l) k f)) in Ef.
  destruct (set_fence_fields k f (with_lease st k l)) as (_ & Esl & _).
  assert (Hl : leases (inner b2) !! k = Some l)
    by (rewrite El, Esl; unfold with_lease; st_simpl; apply lookup_insert_eq).
  split_and!; try done.
  - rewrite <- E1. destruct Hp as (_ & (Hle & _) & _). specialize (Hle k). lia.
  - unfold current_fence. rewrite (active_fence k l _ (proj1 Hadv) Hl eq_refl), Ef.
    subst l; cbn in *. lia.
Qed.

(** States reached from an empty backend. *)
Definition reachable (b : Backend) : Prop := rtc step empty_backend b.

Lemma step_ok b b' : step b b' → store_ok (inner b) → store_ok (inner b').
Proof.
  intros [b0 t c|b0 e b1 Ht He|b0 entries b1 Ht He] Hok.
  - by apply exec_advances.
  - by eapply replicate_entry_ok.
  - by eapply rebuild_ok.
Qed.

Lemma reachable_ok b : reachable b → store_ok (inner b).
Proof.
  intros Hr. unfold reachable in Hr. remember empty_backend as b0 eqn:E.
  assert (Hok : store_ok (inner b0)) by (subst; apply empty_state_ok). clear E.
  induction Hr as [b|b b1 b2 Hs _ IH]; [done|]. apply IH. by eapply step_ok.
Qed.

Lemma live_guard_fence st g now l :
  store_ok st → live_guard st g now l → current_fence st (lease_key g) = lease_fence g.
Proof.
  intros Hok [Hl Ha _ _ Hf _ Hc _ _]. unfold current_fence in *.
  rewrite (active_fence _ _ _ Hok Hl Ha) in *. lia.
Qed.

Lemma release_inv b sampled g b' :
  store_ok (inner b) → release cfg b sampled g = (b', Ok ()) → dead_guard (inner b') g.
Proof.
  intros Hok. unfold release.
  destruct (command_time b sampled) as [now b1] eqn:Ht. apply command_time_spec in Ht as (E1 & _).
  pose proof (prune_state_ok (inner b1) now ltac:(congruence)) as Hp.
  destruct (map_err _ (next_direct_replication_sequence _ _)); [|done..].
  destruct (below_floor _ g); [done|].
  destruct (held_entry _ g) as [l| |] eqn:Hh; [|done..].
  apply held_entry_spec in Hh as (Hl & Ha & _ & _ & Hf & _).
  destruct (map_err _ (commit_direct_data _ _ _ _ _ _)) as [b2| |] eqn:Hc; [|done..].
  cbn [settle]. intros [= <-]. apply map_err_ok in Hc.
  pose proof (apply_floor_live _ _ _ (proj1 Hp) Hl) as Hfl.
  pose proof (active_fence _ _ _ (proj1 Hfl) Hl Ha) as Hk.
  pose proof (lease_update _ _ (release_entry l now) _ (proj1 Hfl) Hl eq_refl eq_refl ltac:(done)) as Hu.
  apply commit_advances in Hc as (_ & Hset & _);
    [|by eapply advances_trans; [|eapply advances_trans]].
  right. split.
  - destruct (set_le _ _ Hset) as (Hle & _). specialize (Hle (lease_key g)).
    unfold current_fence at 1 in Hle. unfold with_lease in Hle; st_simpl. rewrite Hk in Hle. lia.
  - rewrite (set_leases _ _ Hset). unfold with_lease; st_simpl. rewrite lookup_insert_eq.
    by intros ? [= <-].
Qed.

(** ** A held lease *)

(** The recovery floor has not overtaken the lease. *)
Definition above_floor (st : FakeBackendState) (l : LeaseEntry) : Prop :=
  async_fence_floor st < fence l ∧ async_fence_floor st < credential_id l.

Lemma apply_floor_keeps k k' l st :
  leases st !! k = Some l → active l = true → above_floor st l →
  leases (apply_async_floor_to_key st k') !! k = Some l.
Proof.
  intros Hl Ha [Hf Hc]. destruct (decide (k' = k)) as [->|]; [|by rewrite apply_floor_lease_ne].
  rewrite apply_floor_lease, Hl. cbn. rewrite (proj2 (Z.ltb_lt _ (fence l)) Hf),
    (proj2 (Z.ltb_lt _ (credential_id l)) Hc), !andb_true_r. by destruct l.
Qed.

Lemma prune_records_keep k l keys st :
  leases st !! k = Some l → active l = true → above_floor st l →
  leases (fold_left prune_record keys st) !! k = Some l
  ∧ async_fence_floor (fold_left prune_record keys st) = async_fence_floor st.
Proof.
  revert st. induction keys as [|k' keys IH]; intros st Hl Ha Hf; [done|]. cbn [fold_left].
  destruct (apply_floor_fields k' st) as (_ & _ & _ & _ & Ef & _).
  destruct (IH (prune_record st k')) as [-> ->]; unfold prune_record, above_floor; st_simpl;
    rewrite ?Ef; try done. by apply apply_floor_keeps.
Qed.

Lemma prune_leases_keep k l keys st :
  k ∉ keys → leases st !! k = Some l → active l = true → above_floor st l →
  leases (fold_left prune_lease keys st) !! k = Some l
  ∧ async_fence_floor (fold_left prune_lease keys st) = async_fence_floor st.
Proof.
  revert st. induction keys as [|k' keys IH]; intros st Hk Hl Ha Hf; [done|]. cbn [fold_left].
  apply not_elem_of_cons in Hk as [Hne Hk].
  destruct (apply_floor_fields k' st) as (_ & _ & _ & _ & Ef & _).
  destruct (IH (prune_lease st k')) as [-> ->]; unfold prune_lease, above_floor; st_simpl;
    rewrite ?Ef; try done. rewrite lookup_delete_ne by done. by apply apply_floor_keeps.
Qed.

Lemma prune_state_keeps k l st now :
  leases st !! k = Some l → active l = true → now < expires_at l → above_floor st l →
  leases (prune_state st now) !! k = Some l
  ∧ async_fence_floor (prune_state st now) = async_fence_floor st.
Proof.
  intros Hl Ha Hnow Hf. unfold prune_state. cbv zeta.
  set (expired := fst <$> List.filter _ (map_to_list (records st))).
  destruct (prune_records_keep k l expired st Hl Ha Hf) as [Hl1 Ef1].
  set (st1 := fold_left prune_record expired st) in *. rewrite <- Ef1.
  apply prune_leases_keep; [|done|done|unfold above_floor; by rewrite Ef1].
  intros ([k' l'] & -> & Hin)%list_elem_of_fmap. apply list_elem_of_In, filter_In in Hin as [Hin Hd].
  apply list_elem_of_In, elem_of_map_to_list in Hin. cbn in *. rewrite Hl1 in Hin.
  injection Hin as <-. rewrite Ha in Hd. cbn in Hd. to_prop. lia.
Qed.

Lemma held_excludes b sampled k o ttl l :
  store_ok (inner b) → leases (inner b) !! k = Some l → active l = true → owner l ≠ o →
  above_floor (inner b) l → (command_time b sampled).1 < expires_at l →
  is_err (acquire cfg b sampled k o ttl).2 = true
  ∧ inner (acquire cfg b sampled k o ttl).1 = inner b.
Proof.
  intros Hok Hl Ha Ho Hf Hnow. unfold acquire.
  destruct (map_err lease_error_from (validate_session_ttl ttl)) eqn:Hv;
    [|done|by unfold validate_session_ttl in Hv; case_match].
  destruct (command_time b sampled) as [now b1] eqn:Ht. apply command_time_spec in Ht as (E1 & _).
  apply settle_refused; [congruence|]. rewrite E1. cbn in Hnow.
  pose proof (map_err_returns lease_error_from _ (next_sequence_returns (prune_state (inner b) now))) as Hn.
  pose proof (map_err_returns lease_error_from _ (checked_session_deadline_err now ttl)) as Hdl.
  destruct (map_err _ (checked_session_deadline now ttl)); [|done..].
  destruct (map_err _ (next_direct_replication_sequence _ _)); [|done..].
  destruct (prune_state_keeps k l (inner b) now Hl Ha Hnow Hf) as [Hl1 Ef1].
  rewrite (apply_floor_keeps k k l) by (done || (unfold above_floor; by rewrite Ef1)).
  by rewrite Ha, bool_decide_false, (proj2 (Z.ltb_lt _ _) Hnow).
Qed.
End Steps.

(** ** Guarantees *)

Section Sample.

Definition sample_range : TimestampRange := 1000000000000000000000.
Definition sample_config : Config :=
  {| caps := all_enabled; limits := FakeBackendLimits_default |}.
Definition sample_acquire : Backend * outcome LeaseError LeaseGuard :=
  acquire (H := sample_range) sample_config empty_backend 5 (sample_key 1) "smf-1" 100.
Definition sample_guard : LeaseGuard :=
  {| lease_key := sample_key 1; lease_owner := "smf-1"; lease_fence := 1;
     lease_acquired_at := 5; lease_expires_at := 105; lease_credential_id := 1 |}.

End Sample.

Lemma sample_reachable : reachable (H := sample_range) sample_config sample_acquire.1.
Proof. eapply rtc_once, (step_command (H := sample_range) _ _ 5 (CmdAcquire _ _ _)). Qed.

(** C10.  Whatever sequence of commands, replicated entries and rebuilds is run
    from an empty backend, failed ones included, the store invariant holds: an
    active lease carries the exact fence of its key, every fence and credential
    was allocated, retired keys hold no data and are indexed exactly, and the
    retention metadata is valid. *)
Theorem reachable_store_ok `{TimestampRange} cfg b : reachable cfg b → store_ok (inner b).
Proof. apply reachable_ok. Qed.

Lemma reachable_store_witness : store_ok (inner sample_acquire.1).
Proof. apply (reachable_store_ok (H := sample_range) sample_config), sample_reachable. Defined.

(** C11.  No sequence of client commands lowers the fence any key is observed with,
    through expiry, deletion, retirement and epoch rotation. *)
Theorem fences_never_decrease `{TimestampRange} cfg b b' k :
  reachable cfg b → rtc (direct_step cfg) b b' →
  current_fence (inner b) k ≤ current_fence (inner b') k.
Proof.
  intros Hr Hs. destruct (direct_steps_advance cfg b b' (reachable_ok cfg b Hr) Hs) as (_ & (Hle & _) & _).
  apply Hle.
Qed.

Lemma fences_never_decrease_witness :
  current_fence (inner sample_acquire.1) (sample_key 1)
  ≤ current_fence (inner (exec (H := sample_range) sample_config sample_acquire.1 300
                            (CmdAcquire (sample_key 2) "smf-2" 10))) (sample_key 1).
Proof.
  apply (fences_never_decrease (H := sample_range) sample_config _ _ _ sample_reachable).
  apply rtc_once. constructor.
Defined.

(** C21.  A successful acquisition returns a working guard with a fresh fence: its
    fence is above every fence observed for the key before, it is what the key is
    observed with after, and until its deadline the guard, and no guard with other
    credentials, passes the fencing check. *)
Theorem acquired_guard_works `{TimestampRange} cfg b sampled k o ttl b' g :
  reachable cfg b → acquire cfg b sampled k o ttl = (b', Ok g) →
  current_fence (inner b) k < lease_fence g ∧ current_fence (inner b') k = lease_fence g
  ∧ (∀ now, now < lease_expires_at g → validate_fenced_mutation (inner b') g now = Ok k)
  ∧ (∀ g' now, validate_fenced_mutation (inner b') g' now = Ok k →
       lease_owner g' = o ∧ lease_fence g' = lease_fence g
       ∧ lease_credential_id g' = lease_credential_id g
       ∧ lease_expires_at g' = lease_expires_at g).
Proof.
  intros Hr Ha. destruct (acquire_inv cfg b sampled k o ttl b' g (reachable_ok cfg b Hr) Ha)
    as (Ek & Eo & _ & _ & Hlt & Hcur & Hl).
  split_and!; [done|done| |].
  - intros now Hnow. rewrite <- Ek in *. eapply validate_fenced_mutation_live. split; [done|..]; cbn; done || lia.
  - intros g' now [-> [l []]]%validate_fenced_mutation_iff. rewrite lg_lease in Hl. injection Hl as ->.
    cbn in *. done.
Qed.

Lemma acquired_guard_witness :
  validate_fenced_mutation (inner sample_acquire.1) sample_guard 50 = Ok (sample_key 1).
Proof.
  apply (acquired_guard_works (H := sample_range) sample_config empty_backend 5 (sample_key 1)
           "smf-1" 100 sample_acquire.1 sample_guard); [apply rtc_refl|vm_compute; reflexivity|done].
Defined.



(**  A released guard is finished: after a successful release and any further client
    commands, every operation and every slot of a batch that presents it is refused. *)
Theorem released_guard_refused `{TimestampRange} cfg b g sampled b1 b2 :
  reachable cfg b → release cfg b sampled g = (b1, Ok ()) → rtc (direct_step cfg) b1 b2 →
  refused cfg b2 g.
Proof.
  intros Hr%reachable_ok Hrel Hs. eapply dead_guard_refused; [|by eapply release_inv|done].
  pose proof (release_step cfg b sampled g Hr) as Hok. rewrite Hrel in Hok. apply Hok.
Qed.

Lemma released_guard_witness :
  refused (H := sample_range) sample_config
    (release sample_config sample_acquire.1 60 sample_guard).1 sample_guard.
Proof.
  apply (released_guard_refused (H := sample_range) sample_config sample_acquire.1 sample_guard 60
    (release sample_config sample_acquire.1 60 sample_guard).1).
  - apply sample_reachable.
  - vm_compute. reflexivity.
  - apply rtc_refl.
Defined.

(**  Mutual exclusion: while a lease is active, unexpired at the command's
    time and above the recovery floor, an acquisition by another owner fails and
    changes nothing. *)
Theorem held_lease_excludes `{TimestampRange} cfg b sampled k o ttl l :
  reachable cfg b → leases (inner b) !! k = Some l → active l = true → owner l ≠ o →
  async_fence_floor (inner b) < fence l → async_fence_floor (inner b) < credential_id l →
  (command_time b sampled).1 < expires_at l →
  is_err (acquire cfg b sampled k o ttl).2 = true
  ∧ inner (acquire cfg b sampled k o ttl).1 = inner b.
Proof. intros Hr%reachable_ok Hl Ha Ho Hf Hc Ht. by apply (held_excludes cfg b sampled k o ttl l). Qed.

Lemma held_lease_witness :
  is_err (acquire (H := sample_range) sample_config sample_acquire.1 104 (sample_key 1) "smf-2" 9).2 = true.
Proof.
  apply (held_lease_excludes (H := sample_range) sample_config sample_acquire.1 104 (sample_key 1)
    "smf-2" 9 {| active := true; credential_id := 1; owner := "smf-1"; fence := 1;
                 acquired_at := 5; expires_at := 105; guard_expires_at := 105 |}).
  - apply sample_reachable.
  - vm_compute. reflexivity.
  - done.
  - done.
  - vm_compute. reflexivity.
  - vm_compute. reflexivity.
  - vm_compute. reflexivity.
Defined.

(** ** Compare-and-set *)

(** The marks a read of the key leaves. *)
Lemma get_for_read_marks b k now k' :
  k' ∈ read_expiry (get_for_read b k now).2
  ↔ k' ∈ read_expiry b
    ∨ ∃ r, records (inner b) !! k = Some r ∧ is_expired_at r now = true ∧ k' = rec_key r.
Proof.
  unfold get_for_read, record_expired. destruct (records (inner b) !! k) as [r|]; cycle 1.
  { split; [by left|]. by intros [?|(r & ? & _)]. }
  destruct (is_expired_at r now) eqn:He; cbn.
  - rewrite elem_of_union, elem_of_singleton. split.
    + intros [->|?]; [right; by exists r|by left].
    + intros [?|(r' & [= <-] & _ & ->)]; [by right|by left].
  - split; [by left|]. intros [?|(r' & [= <-] & ? & _)]; congruence.
Qed.

(** An answered call: what it staged, and the records and marks it leaves. *)
Lemma compare_and_set_inv `{TimestampRange} cfg b sampled c b' result :
  store_ok (inner b) → compare_and_set cfg b sampled c = (b', Ok result) →
  let now := (command_time b sampled).1 in
  let st := prune_state (inner b) now in
  ∃ st', compare_and_set_with_state cfg st c now = Ok (st', result)
    ∧ match result with
      | CasSuccess =>
          records (inner b') = records st'
          ∧ ∀ k, k ∈ read_expiry b'
                 ↔ records (inner b) !! k = records st' !! k
                   ∧ k ∈ read_expiry (get_for_read b (cas_key c) now).2
      | CasConflictResult _ => inner b' = inner b
      end.
Proof.
  intros Hok. unfold compare_and_set.
  destruct (command_time b sampled) as [now b1] eqn:Ht. apply command_time_spec in Ht as (E1 & Em & _).
  pose proof (get_for_read_inner b1 (cas_key c) now) as E2.
  assert (∀ k, k ∈ read_expiry (get_for_read b1 (cas_key c) now).2
               ↔ k ∈ read_expiry (get_for_read b (cas_key c) now).2) as Hm.
  { intros k. by rewrite !get_for_read_marks, E1, Em. }
  destruct (get_for_read b1 (cas_key c) now) as [o b2]. cbn [snd] in E2, Hm. cbn [fst].
  rewrite E2, E1 in *. pose proof (prune_state_ok (inner b) now Hok) as Hp.
  destruct (validate_stored_record_expiry_at _ _) as [[]| |]; [|done..].
  destruct (next_direct_replication_sequence _ _) as [seq| |]; [|done..].
  destruct (compare_and_set_with_state _ _ _ _) as [[st' r]| |] eqn:Hc; [|done..].
  pose proof (compare_and_set_advances _ _ _ _ _ _ (proj1 Hp) Hc) as Ha.
  case_bool_decide as Hr.
  - unfold commit_direct_data. destruct (finalize_direct _ _ _ _ _) as [st2| |] eqn:Hf; [|done..].
    cbn [settle]. intros [= <- <-]. subst r. exists st'. split; [done|]. cbn.
    apply finalize_direct_settled in Hf as (Hset & _); [|apply Ha].
    pose proof (set_records _ _ Hset) as Er. cbn in Er. rewrite Er. split; [done|].
    intros k. by rewrite elem_of_filter, E2, Hm.
  - cbn [settle]. intros [= <- <-]. exists st'. split; [done|]. destruct r; [done|]. by rewrite E2.
Qed.

Definition sample_record : StoredSessionRecord :=
  {| rec_key := sample_key 1; generation := 1; rec_owner := "smf-1"; rec_fence := 1;
     state_class := AuthoritativeSession; state_type := "pdu"; rec_expires_at := Some 90;
     rec_payload := {| payload_encoding := EnvelopeV1; payload_bytes := [1; 2; 3] |} |}.

Definition sample_cas : CompareAndSet :=
  {| cas_key := sample_key 1; cas_lease := sample_guard; expected_generation := None;
     new_record := sample_record |}.
