(* ===== verification/SessionReplica.v ===== *)
(** Replication of the session store: the journal entry of a committed command,
    replayed by [replicate_entry] on a replica in the same state, yields exactly
    the state the command published. *)
From stdpp Require Import sorting.
From S2P Require Import Prelude.
From S2P Require Import SessionTypes.
From S2P Require Import SessionTtl.
From S2P Require Import SessionRetention.
From S2P Require Import SessionReplication.
From S2P Require Import SessionStore.
From S2P Require Import SessionInvariant.
From S2P Require Import SessionFencing.
From S2P Require Import SessionReplay.
From S2P Require Import SessionSafety.

(** ** What staging leaves alone *)

Definition frame (st : FakeBackendState) :=
  (internal_key_count st, async_fence_floor st, committed_time st,
   pending_replay_command st, last_replication_sequence st).

Definition allocation (st : FakeBackendState) : Z * Z := (next_fence st, next_credential_id st).

Lemma frame_floor k st : frame (apply_async_floor_to_key st k) = frame st.
Proof.
  destruct (apply_floor_fields k st) as (_ & _ & _ & _ & Ef & _ & _ & Ei & Ep & El & _ & _ & Ec).
  unfold frame. by rewrite Ef, Ei, Ec, Ep, El.
Qed.

Lemma allocation_floor k st : allocation (apply_async_floor_to_key st k) = allocation st.
Proof.
  destruct (apply_floor_fields k st) as (_ & _ & _ & _ & _ & En & Ec & _).
  unfold allocation. by rewrite En, Ec.
Qed.

Lemma frame_set_fence k f st : frame (set_fence st k f) = frame st.
Proof.
  unfold set_fence, unretire. st_simpl. destruct (_ || _); [|done].
  by destruct (retired_keys st !! k).
Qed.

Lemma fold_keeps {A} (π : FakeBackendState → A)
    (step : FakeBackendState → SessionKey → FakeBackendState) keys st :
  (∀ st k, π (step st k) = π st) → π (fold_left step keys st) = π st.
Proof.
  intros Hs. revert st. induction keys as [|k keys IH]; intros st; [done|].
  cbn [fold_left]. by rewrite IH, Hs.
Qed.

Lemma frame_prune st now : frame (prune_state st now) = frame st.
Proof.
  unfold prune_state. cbv zeta. rewrite !fold_keeps; [done|..]; intros st' k;
    by rewrite <- (frame_floor k st').
Qed.

Lemma allocation_prune st now : allocation (prune_state st now) = allocation st.
Proof.
  unfold prune_state. cbv zeta. rewrite !fold_keeps; [done|..]; intros st' k;
    by rewrite <- (allocation_floor k st').
Qed.

Lemma with_internal_id st : with_internal st (internal_key_count st) = st.
Proof. by destruct st. Qed.

Lemma with_counters_id st : with_counters st (next_fence st) (next_credential_id st) = st.
Proof. by destruct st. Qed.

Lemma raise_next_fence_id st f :
  next_fence st ≤ U64_MAX → allocated (next_fence st) f → raise_next_fence st f = st.
Proof.
  intros Hn Ha. unfold raise_next_fence. rewrite Z.max_l; [apply with_counters_id|].
  unfold saturating_add, allocated in *. lia.
Qed.

(** ** Rotations *)

Lemma finalize_loop_rotations fuel st maximum r st' n :
  finalize_loop fuel st maximum r = Ok (st', n) →
  r ≤ n ∧ (store_ok st → replay_rotations (Z.to_nat (n - r)) st (async_fence_floor st) = Ok st').
Proof.
  revert st r. induction fuel as [|fuel IH]; intros st r.
  { cbn. destruct (_ <? _); [done|]. intros [= <- <-]. split; [lia|]. by rewrite Z.sub_diag. }
  rewrite finalize_loop_S. destruct (_ <? _).
  2:{ intros [= <- <-]. split; [lia|]. by rewrite Z.sub_diag. }
  destruct (bool_decide (retired_keys st = ∅)) eqn:Hb; [done|].
  destruct (rotate_keys st Capacity) as [st1| |] eqn:Hr; [|done..].
  intros [Hle Hrec]%IH. split; [lia|]. intros Hok.
  replace (Z.to_nat (n - r)) with (S (Z.to_nat (n - (r + 1)))) by lia. cbn [replay_rotations].
  rewrite Hb. unfold rotate_keys in Hr. rewrite Hr.
  pose proof (rotate_keys_settles st Capacity Hok) as Hs. unfold rotate_keys in Hs. rewrite Hr in Hs.
  rewrite <- (set_floor _ _ Hs). apply Hrec, Hs.
Qed.

Lemma finalize_rotations st maximum st' n :
  store_ok st → finalize_key_capacity st maximum = Ok (st', n) →
  replay_rotations (Z.to_nat n) st (async_fence_floor st) = Ok st'.
Proof.
  intros Hok Hf. apply finalize_loop_rotations in Hf as [_ Hf]. rewrite Z.sub_0_r in Hf. by apply Hf.
Qed.

Lemma push_entry_committed st e n t :
  push_entry (with_committed_time st t) e n
  = (let? st := push_entry st e n in Ok (with_committed_time st t)).
Proof.
  unfold push_entry, compact_replication_log. st_simpl. repeat (case_match; try done).
Qed.

(** ** Candidates that stay *)

Definition live_key (st : FakeBackendState) (k : SessionKey) : Prop :=
  is_Some (records st !! k) ∨ is_Some (leases st !! k).

Lemma retire_key_live st k : store_ok st → live_key st k → retire_key st k = Ok st.
Proof.
  intros Hok Hlive. unfold retire_key, has_key.
  assert (bool_decide (is_Some (records st !! k)) || bool_decide (is_Some (leases st !! k)) = true) as ->.
  { rewrite orb_true_iff, !bool_decide_eq_true. done. }
  unfold unretire. by rewrite (live_not_retired k st Hok Hlive).
Qed.

Lemma retire_all_live k candidates st :
  store_ok st → live_key st k →
  retire_all st candidates = retire_all st (filter (λ x, x ≠ k) candidates).
Proof.
  revert st. induction candidates as [|x l IH]; intros st Hok Hlive; [done|].
  rewrite filter_cons. destruct (decide (x ≠ k)) as [Hne|Heq]; cbn.
  - pose proof (retire_key_settles st x Hok) as Hs. destruct (retire_key st x) as [st'| |]; try done.
    cbn in Hs. apply IH; [apply Hs|]. unfold live_key. by rewrite (set_records _ _ Hs), (set_leases _ _ Hs).
  - apply dec_stable in Heq as ->. rewrite retire_key_live by done. by apply IH.
Qed.

Lemma sorted_filter (P : SessionKey → Prop) `{∀ x, Decision (P x)} l :
  StronglySorted key_le l → StronglySorted key_le (filter P l).
Proof.
  induction 1 as [|x l Hs IH Hall]; [constructor|]. rewrite filter_cons.
  destruct (decide (P x)); [|done]. constructor; [done|].
  apply Forall_forall. intros y [_ Hy]%list_elem_of_filter. by eapply Forall_forall in Hall.
Qed.

Lemma sort_without k (c : gset SessionKey) :
  filter (λ x, x ≠ k) (sort_keys (elements ({[k]} ∪ c)))
  = filter (λ x, x ≠ k) (sort_keys (elements c)).
Proof.
  apply (StronglySorted_unique key_le).
  - apply sorted_filter, StronglySorted_merge_sort; apply _.
  - apply sorted_filter, StronglySorted_merge_sort; apply _.
  - rewrite !sort_keys_perm. apply NoDup_Permutation; [apply NoDup_filter, NoDup_elements..|].
    intros x. rewrite !list_elem_of_filter, !elem_of_elements. set_solver.
Qed.

Lemma retire_candidate k st :
  store_ok st → live_key st k → retire_dead_keys (add_candidate st k) = retire_dead_keys st.
Proof.
  intros Hok Hlive. unfold retire_dead_keys.
  change (with_candidates (add_candidate st k) ∅) with (with_candidates st ∅).
  rewrite (retire_all_live k (sort_keys (elements (retirement_candidates (add_candidate st k)))));
    [|by apply candidates_ok|done].
  rewrite (retire_all_live k (sort_keys (elements (retirement_candidates st))));
    [|by apply candidates_ok|done].
  unfold add_candidate; st_simpl. by rewrite sort_without.
Qed.

(** ** Steps that change nothing *)

Lemma set_fence_same k f st :
  store_ok st → live_key st k → key_fences st !! k = Some f → set_fence st k f = add_candidate st k.
Proof.
  intros Hok Hlive Hf. unfold set_fence, add_candidate.
  assert (with_key_fences st (<[k := f]> (key_fences st)) = st) as ->.
  { rewrite insert_id by done. by destruct st. }
  destruct (_ || _); [|done]. unfold unretire. by rewrite (live_not_retired k st Hok Hlive).
Qed.

Lemma apply_floor_same k l st :
  leases st !! k = Some l → key_fences st !! k = Some (fence l) → above_floor st l →
  apply_async_floor_to_key st k = st.
Proof.
  intros Hl Hf [H1 H2]. unfold apply_async_floor_to_key. rewrite Hf, Z.max_l by lia.
  rewrite insert_id by done. st_simpl. rewrite Hl.
  rewrite !(proj2 (Z.leb_gt _ _)) by done. by destruct st.
Qed.

Lemma raise_counters_same st f c :
  f + 1 ≤ next_fence st ≤ U64_MAX → c + 1 ≤ next_credential_id st ≤ U64_MAX →
  raise_counters st f c = Ok st.
Proof.
  intros Hf Hc. unfold raise_counters, U64_MAX in *. rewrite !checked_add_ok by (unfold USIZE_MAX; lia).
  by rewrite !Z.max_l, with_counters_id by lia.
Qed.

(** ** Replaying a commit *)

Lemma validate_ttls_at_ok `{TimestampRange} o t :
  validate_structure o = Ok () → op_all (op_ttl_ok t) o = true → validate_ttls_at o t = Ok ().
Proof.
  intros Hs Ho. unfold validate_ttls_at. rewrite Hs. rewrite validate_structure_spec in Hs.
  destruct (_ && _) eqn:E; [|done]. to_prop. unfold MAX_REPLICATION_OPERATIONS_PER_ENTRY in *.
  apply (ttl_loop_spec t 257 [o]); [cbn; lia|]. cbn. by rewrite Ho.
Qed.

Lemma next_sequence_spec n s :
  next_replication_sequence n = Ok s → s = n + 1.
Proof.
  unfold next_replication_sequence. destruct (checked_add n 1) eqn:E; [|done].
  intros [= <-]. by apply checked_add_some in E as [-> _].
Qed.

Section Replica.
Context `{TimestampRange}.
Variable cfg : Config.

Lemma replica_commit r st1 st1' s o now st2 :
  pending_replay_command (inner r) = None → 0 ≤ last_replication_sequence (inner r) →
  next_replication_sequence (last_replication_sequence (inner r)) = Ok s →
  (∀ t, committed_time (inner r) = Some t → t ≤ now) →
  apply_replicated_op (prune_state (inner r) now) o now (max_tracked_keys (limits cfg)) = Ok st1' →
  retire_dead_keys st1' = retire_dead_keys st1 →
  store_ok st1 → frame st1 = frame (inner r) →
  contains_create o = false → op_all (op_ttl_ok now) o = true →
  finalize_direct cfg st1 (Some s) o now = Ok st2 →
  ∃ e r', sequence e = s ∧ op e = o ∧ timestamp e = now
    ∧ replicate_entry cfg r e = Ok r' ∧ inner r' = st2.
Proof.
  intros Hpend Hlast Hs Hct Happ Hret Hok Hfr Hcc Httl. unfold finalize_direct.
  pose proof (retire_dead_keys_settles st1 Hok) as Hset1.
  destruct (retire_dead_keys st1) as [sa| |]; [|done..]. cbn in Hset1.
  destruct (finalize_key_capacity_spec sa (max_tracked_keys (limits cfg)) (set_ok _ _ Hset1)) as [Hfin _].
  destruct (finalize_key_capacity _ _) as [[sb n]| |] eqn:Hfk; [|done..]. destruct Hfin as [Hset2 Hcap].
  destruct (validate_structure o) as [[]| |] eqn:Hvs; [|done..].
  set (p := {| prune_expired := true |}) in *.
  destruct (policy_validate p) as [[]| |] eqn:Hvp; [|done..]. unfold append_direct_replication_entry.
  set (e := {| sequence := s |}).
  destruct (push_entry sb e _) as [sc| |] eqn:Hpush; [|done..]. intros [= <-].
  pose proof (next_sequence_spec _ _ Hs) as Es.
  pose proof (settled_trans _ _ _ Hset1 Hset2) as Hset. unfold frame in Hfr. injection Hfr as F1 F2 F3 _ _.
  assert (Hrot : replay_rotations (Z.to_nat n) sa (async_fence_floor sb) = Ok sb).
  { rewrite (set_floor _ _ Hset2). eapply finalize_rotations; [apply Hset1|done]. }
  assert (Hcommit : apply_committed_replication_entry cfg (inner r) e
                    = Ok (with_committed_time sb (Some now))).
  { unfold apply_committed_replication_entry. rewrite Hpend. cbn -[prune_state].
    unfold apply_recovery. cbn -[prune_state].
    rewrite (set_floor _ _ Hset), F2, Z.eqb_refl, (set_internal _ _ Hset), F1, with_internal_id.
    rewrite Happ, Hret. unfold start_command. cbn.
    rewrite <- F2, <- (set_floor _ _ Hset), Hrot, (proj2 (Z.ltb_ge _ _) Hcap).
    rewrite (set_committed _ _ Hset), F3. repeat f_equal.
    destruct (committed_time (inner r)) as [t|]; [|done]. specialize (Hct t eq_refl). lia. }
  exists e, (publish_staged_data r (with_committed_time sc (Some now))). split_and!; try done.
  unfold replicate_entry, entry_validate, validate_sequence. cbn [sequence e].
  rewrite (proj2 (Z.eqb_neq s 0)) by lia. cbn [replay_policy op timestamp e].
  rewrite Hvp, (validate_ttls_at_ok o now Hvs Httl), Hcc, (proj2 (Z.leb_gt _ _)) by lia.
  unfold replication_entry_follows. cbn [recovery replay_policy e p]. rewrite Hs, Z.eqb_refl. cbn [negb].
  rewrite Hcommit. unfold apply_visible_recovery_boundary. cbn [recovery replay_policy e p].
  by rewrite push_entry_committed, Hpush.
Qed.

(** ** Replaying each operation *)

Lemma replay_cas st c now st' :
  compare_and_set_with_state cfg st c now = Ok (st', CasSuccess) →
  apply_replicated_op st (cas_op c) now (max_tracked_keys (limits cfg)) = Ok st'
  ∧ op_all (op_ttl_ok now) (cas_op c) = true.
Proof.
  intros (l & Hl & Ek & _ & Eo & Ef & Hexp & Hcap & Hres)%compare_and_set_staged.
  destruct Hres as [-> Hm]. split; [|unfold op_all, op_ttl_ok; cbn; by rewrite Hexp].
  destruct Hl as [Hll Ha Hc Ho Hf Hd Hcur Ht Ht2]. rewrite Ek in *.
  cbn. unfold apply_compare_and_set. rewrite Ef, (proj2 (Z.ltb_ge _ _) Hcur), Hcap, Hll, Ha, Hc, Ho, Hf, Hd, Eo.
  rewrite !Z.eqb_refl, bool_decide_true by done. cbn [negb orb].
  rewrite !(proj2 (Z.leb_gt _ _)) by done. cbn [orb].
  destruct (expected_generation c) as [g|], (get_with_state st (cas_key c) now) as [cur|]; try done.
  apply generation_conflict_spec in Hm. by rewrite Hm.
Qed.

Lemma live_owner st g now l :
  store_ok st → live_guard st g now l →
  validate_replicated_owner st (lease_key g) (lease_owner g) (lease_fence g) = Ok ()
  ∧ allocated (next_fence st) (lease_fence g).
Proof.
  intros Hok [Hl Ha Hc Ho Hf Hd Hcur Ht Ht2]. unfold validate_replicated_owner.
  pose proof (active_fence _ _ _ Hok Hl Ha) as Hk. rewrite Hf in Hk.
  destruct (ok_fences _ _ Hok _ _ Hk) as [_ Hall]. split; [|done].
  rewrite Hl, Ha, Ho, Hf, Z.eqb_refl, !bool_decide_true by done. done.
Qed.

Lemma replay_delete st g now st' :
  store_ok st → delete_fenced_with_state cfg st g now = Ok st' →
  apply_replicated_op st (delete_op g) now (max_tracked_keys (limits cfg)) = Ok st'
  ∧ op_all (op_ttl_ok now) (delete_op g) = true.
Proof.
  intros Hok (l & Hl & Hcap & ->)%delete_fenced_staged. split; [|done].
  destruct (live_owner st g now l Hok Hl) as [Ho Hall].
  cbn. unfold apply_delete_fenced. rewrite Ho, Hcap. f_equal.
  set (st1 := with_records _ _).
  destruct (set_fence_fields (lease_key g) (lease_fence g) st1) as (_ & _ & _ & _ & _ & En & _).
  apply raise_next_fence_id; rewrite En; [apply Hok|done].
Qed.

Lemma deadline_op_ok now ttl deadline :
  checked_session_deadline now ttl = Ok deadline →
  (default timestamp_max (datetime_checked_add deadline 1000) <? deadline) = false.
Proof.
  unfold checked_session_deadline, datetime_checked_add. intros Hd. apply Z.ltb_ge.
  destruct (validate_session_ttl ttl); [|done..]. destruct (ok_or _ _) as [d| |]; [|done..].
  destruct (Z.leb_spec (now + d) timestamp_max); [|done]. injection Hd as <-.
  destruct (_ <=? _); cbn; lia.
Qed.

Lemma replay_refresh st g ttl now st' deadline :
  store_ok st → refresh_ttl_with_state cfg st g ttl now = Ok (st', deadline) →
  apply_replicated_op st (refresh_op g ttl deadline) now (max_tracked_keys (limits cfg)) = Ok st'
  ∧ op_all (op_ttl_ok now) (refresh_op g ttl deadline) = true.
Proof.
  intros Hok (l & r & Hl & Hcap & Hd & Hr & ->)%refresh_ttl_staged. split.
  2:{ unfold op_ttl_ok; cbn. by rewrite Hd, (deadline_op_ok _ _ _ Hd). }
  destruct (live_owner st g now l Hok Hl) as [Ho Hall].
  cbn. unfold apply_refresh_ttl. rewrite Ho, Hcap. unfold get_with_state in Hr.
  destruct (records st !! lease_key g) as [r'|]; [|done]. destruct (is_expired_at r' now); [done|].
  injection Hr as ->. f_equal. set (st1 := with_records _ _).
  destruct (set_fence_fields (lease_key g) (lease_fence g) st1) as (_ & _ & _ & _ & _ & En & _).
  apply raise_next_fence_id; rewrite En; [apply Hok|done].
Qed.

Lemma current_below_next k st :
  store_ok_ex (Some k) st → next_fence st < U64_MAX → current_fence st k < next_fence st.
Proof.
  intros Hok Hn. pose proof (ok_floor _ _ Hok). pose proof (ok_retention _ _ Hok) as Hr.
  rewrite retention_valid_iff in Hr. unfold current_fence, observed_absent_fence.
  destruct (key_fences st !! k) as [f|] eqn:Hf; [|destruct (scope_key k); lia].
  destruct (ok_fences _ _ Hok k f Hf) as [_ Ha]. unfold allocated in Ha. lia.
Qed.

Lemma replay_previous_le k st :
  store_ok_ex (Some k) st → pending_replay_command st = None →
  replay_previous_fence st k ≤ current_fence st k.
Proof.
  intros Hok Hp. pose proof (ok_retention _ _ Hok) as Hr. rewrite retention_valid_iff in Hr.
  pose proof (ok_retention_nonneg _ _ Hok).
  unfold replay_previous_fence, current_fence, observed_absent_fence. rewrite Hp.
  destruct (key_fences st !! k); [lia|]. destruct (scope_key k); lia.
Qed.

Lemma replay_acquire st k o ttl now deadline st1 f c :
  store_ok st → pending_replay_command st = None →
  next_fence st < U64_MAX → next_credential_id st < U64_MAX →
  let st0 := apply_async_floor_to_key st k in
  match leases st0 !! k with
  | Some entry => active entry && negb (bool_decide (owner entry = o)) && (now <? expires_at entry)
  | None => false
  end = false →
  ensure_key_capacity st0 k (max_tracked_keys (limits cfg)) = Ok () →
  acquire_fence st0 k = Ok (st1, f, c) → checked_session_deadline now ttl = Ok deadline →
  let l := {| active := true; credential_id := c; owner := o; fence := f; acquired_at := now;
              expires_at := deadline; guard_expires_at := deadline |} in
  apply_replicated_op st (OpAcquireLease k o f c ttl deadline) now (max_tracked_keys (limits cfg))
  = Ok (set_fence (with_lease st1 k l) k f)
  ∧ op_all (op_ttl_ok now) (OpAcquireLease k o f c ttl deadline) = true.
Proof.
  intros Hok Hp Hn Hnc st0 Hlease Hcap Hf Hd l. split.
  2:{ unfold op_ttl_ok; cbn. by rewrite Hd, (deadline_op_ok _ _ _ Hd). }
  destruct (apply_floor_fields k st) as (_ & _ & _ & _ & _ & En & Ec & _ & Ep & _). fold st0 in En, Ec, Ep.
  pose proof (apply_floor_ex k st (store_ok_open _ _ Hok)) as Hok0. fold st0 in Hok0.
  pose proof (current_below_next k st0 Hok0 ltac:(lia)) as Hcur.
  pose proof (replay_previous_le k st0 Hok0 ltac:(congruence)) as Hprev.
  unfold acquire_fence in Hf. destruct (checked_add (current_fence st0 k) 1) as [n|] eqn:Hadd; [|done].
  apply checked_add_some in Hadd as [-> _]. cbn [ok_or] in Hf. rewrite Z.max_l in Hf by lia.
  injection Hf as <- <- <-. pose proof (ok_credential _ _ Hok0).
  cbn. unfold apply_acquire_lease. fold st0. rewrite (proj2 (Z.leb_gt _ _)) by lia.
  rewrite Hcap, Hlease. unfold raise_counters, saturating_add, U64_MAX in *.
  rewrite !checked_add_ok by (unfold USIZE_MAX; lia).
  destruct (set_fence_fields k (next_fence st0) (with_lease st0 k l)) as (_ & _ & _ & _ & _ & En' & Ec').
  subst l. rewrite En', Ec', set_fence_counters. unfold with_lease; st_simpl.
  by rewrite !Z.max_r, !Z.min_r by lia.
Qed.

(** The entry a renewal or release works on, before the floor was applied. *)
Lemma held_before_floor st g l :
  store_ok st →
  let st0 := apply_async_floor_to_key st (lease_key g) in
  below_floor st0 g = false → held_entry st0 g = Ok l →
  st0 = st ∧ leases st !! lease_key g = Some l ∧ active l = true
  ∧ key_fences st !! lease_key g = Some (lease_fence g).
Proof.
  intros Hok st0 Hb (Hl & Ha & Hc & Ho & Hf & Hd)%held_entry_spec.
  unfold below_floor in Hb. to_prop.
  destruct (apply_floor_fields (lease_key g) st) as (_ & _ & _ & _ & Ef & _). fold st0 in Ef.
  assert (Hl0 : leases st !! lease_key g = Some l).
  { subst st0. rewrite apply_floor_lease in Hl. destruct (leases st !! lease_key g) as [l0|]; [|done].
    cbn in Hl. injection Hl as <-. cbn in Ha. rewrite !andb_true_iff in Ha.
    destruct Ha as [[Ea E1] E2]. rewrite Ea, E1, E2. by destruct l0; cbn in *; subst. }
  pose proof (active_fence _ _ _ Hok Hl0 Ha) as Hk.
  split_and!; try done; [|by rewrite Hk, Hf].
  apply (apply_floor_same _ l); try done. unfold above_floor. lia.
Qed.

Lemma replay_renew st g l ttl now deadline :
  store_ok st → next_fence st < U64_MAX → next_credential_id st < U64_MAX →
  leases st !! lease_key g = Some l → active l = true →
  credential_id l = lease_credential_id g → owner l = lease_owner g → fence l = lease_fence g →
  checked_session_deadline now ttl = Ok deadline →
  apply_replicated_op st (renew_op g (credential_id l) ttl deadline) now (max_tracked_keys (limits cfg))
  = Ok (add_candidate (with_lease st (lease_key g) (renew_entry l deadline)) (lease_key g))
  ∧ op_all (op_ttl_ok now) (renew_op g (credential_id l) ttl deadline) = true.
Proof.
  intros Hok Hn Hnc Hl Ha Hc Ho Hf Hd. split.
  2:{ unfold op_ttl_ok; cbn. by rewrite Hd, (deadline_op_ok _ _ _ Hd). }
  pose proof (active_fence _ _ _ Hok Hl Ha) as Hk.
  destruct (ok_fences _ _ Hok _ _ Hk) as [_ Hfa].
  destruct (ok_leases _ _ Hok _ l ltac:(done) Hl) as (_ & Hca & _).
  pose proof (lease_update _ l (renew_entry l deadline) _ Hok Hl eq_refl eq_refl (λ H, H)) as [Hok' _].
  cbn. unfold apply_renew_lease, validate_replicated_owner, ensure_key_capacity, has_key.
  rewrite Hl, Hk, Ha, Ho, Hf, !Z.eqb_refl, !bool_decide_true by done. cbn [negb orb andb].
  set (l' := {| active := true |}).
  assert (l' = renew_entry l deadline) as -> by (unfold renew_entry, l'; by rewrite Ha, Ho, Hf).
  rewrite set_fence_same; [|done| |by rewrite <- Hf].
  - apply raise_counters_same; unfold allocated, with_lease in *; st_simpl; lia.
  - right. unfold with_lease; st_simpl. rewrite lookup_insert_eq. by eexists.
Qed.

Lemma replay_release st g l now :
  store_ok st → leases st !! lease_key g = Some l → active l = true →
  credential_id l = lease_credential_id g → owner l = lease_owner g → fence l = lease_fence g →
  apply_replicated_op st (release_op g) now (max_tracked_keys (limits cfg))
  = Ok (add_candidate (with_lease st (lease_key g) (release_entry l now)) (lease_key g)).
Proof.
  intros Hok Hl Ha Hc Ho Hf. pose proof (active_fence _ _ _ Hok Hl Ha) as Hk.
  destruct (ok_fences _ _ Hok _ _ Hk) as [_ Hfa]. rewrite Hf in Hfa.
  pose proof (lease_update _ l (release_entry l now) _ Hok Hl eq_refl eq_refl ltac:(done)) as [Hok' _].
  cbn. unfold apply_release_lease, validate_replicated_owner, ensure_key_capacity, has_key.
  rewrite Hl, Hk, Ha, Ho, Hc, Hf, !Z.eqb_refl, !bool_decide_true by done. cbn [negb orb andb].
  rewrite set_fence_same; [|done| |by rewrite <- Hf].
  - by rewrite raise_next_fence_id by (done || apply Hok).
  - right. unfold with_lease; st_simpl. rewrite lookup_insert_eq. by eexists.
Qed.

(** ** Batches *)

Fixpoint apply_ops (st : FakeBackendState) (ops : list ReplicationOp) (now max_keys : Z)
    : outcome StoreError FakeBackendState :=
  match ops with
  | [] => Ok st
  | o :: ops => let? st := apply_replicated_op st o now max_keys in apply_ops st ops now max_keys
  end.

Lemma apply_batch st ops now max_keys :
  existsb contains_create ops = false →
  apply_replicated_op st (OpBatch ops) now max_keys = apply_ops st ops now max_keys.
Proof.
  intros Hc. cbn [apply_replicated_op contains_create]. rewrite Hc. clear Hc.
  revert st. induction ops as [|o ops IH]; intros st; [done|]. cbn [apply_ops].
  destruct (apply_replicated_op st o now max_keys); [apply IH|done..].
Qed.

Lemma apply_ops_snoc st ops o now max_keys st1 :
  apply_ops st ops now max_keys = Ok st1 →
  apply_ops st (ops ++ [o]) now max_keys = apply_replicated_op st1 o now max_keys.
Proof.
  revert st. induction ops as [|o' ops IH]; intros st; cbn.
  - intros [= ->]. by destruct (apply_replicated_op st1 o now max_keys).
  - destruct (apply_replicated_op st o' now max_keys); [apply IH|done..].
Qed.

(** What holds of a batch while its slots run from the pruned state [st]. *)
Record batch_replays (st : FakeBackendState) (now : Z) (s : BatchState) : Prop := {
  br_ok : store_ok (staged s);
  br_frame : frame (staged s) = frame st;
  br_apply : apply_ops st (replication s) now (max_tracked_keys (limits cfg)) = Ok (staged s);
  br_create : existsb contains_create (replication s) = false;
  br_ttls : forallb (op_all (op_ttl_ok now)) (replication s) = true;
}.

Lemma batch_advance_replays st now s o st' results' :
  batch_replays st now s → store_ok st' → frame st' = frame (staged s) →
  apply_replicated_op (staged s) o now (max_tracked_keys (limits cfg)) = Ok st' →
  contains_create o = false → op_all (op_ttl_ok now) o = true →
  batch_replays st now {| staged := st'; replication := replication s ++ [o];
                          expired_reads := expired_reads s; results := results' |}.
Proof.
  intros [Hok Hfr Happ Hcr Httl] Hok' Hfr' Ho Hc Ht. split; cbn.
  - done.
  - congruence.
  - by rewrite (apply_ops_snoc _ _ _ _ _ _ Happ).
  - rewrite existsb_app, Hcr. cbn. by rewrite Hc.
  - rewrite forallb_app, Httl. cbn. by rewrite Ht.
Qed.

Lemma batch_step_replays b st now s o :
  batch_replays st now s → batch_replays st now (batch_step cfg b now s o).
Proof.
  intros Hs. pose proof (br_ok _ _ _ Hs) as Hok. unfold batch_step. destruct o as [k|c|g|g ttl].
  - destruct (batch_get _ _ _ _). by destruct Hs.
  - destruct (compare_and_set_with_state _ _ _ _) as [[st' []]| |] eqn:E; try (by destruct Hs).
    destruct (replay_cas _ _ _ _ E) as [Ha Ht].
    apply batch_advance_replays; try done; [by eapply compare_and_set_advances|].
    apply compare_and_set_staged in E as (l & _ & _ & _ & _ & _ & _ & _ & [-> _]).
    unfold put_record. by rewrite frame_set_fence.
  - destruct (delete_fenced_with_state _ _ _ _) as [st'| |] eqn:E; try (by destruct Hs).
    destruct (replay_delete _ _ _ _ Hok E) as [Ha Ht].
    apply batch_advance_replays; try done; [by eapply delete_fenced_advances|].
    apply delete_fenced_staged in E as (l & _ & _ & ->). by rewrite frame_set_fence.
  - destruct (refresh_ttl_with_state _ _ _ _ _) as [[st' d]| |] eqn:E; try (by destruct Hs).
    destruct (replay_refresh _ _ _ _ _ _ Hok E) as [Ha Ht].
    apply batch_advance_replays; try done; [by eapply refresh_ttl_advances|].
    apply refresh_ttl_staged in E as (l & r & _ & _ & _ & _ & ->). by rewrite frame_set_fence.
Qed.

Lemma batch_fold_replays b st now ops s :
  batch_replays st now s → batch_replays st now (fold_left (batch_step cfg b now) ops s).
Proof.
  revert s. induction ops as [|o ops IH]; intros s Hs; [done|].
  cbn [fold_left]. apply IH. by apply batch_step_replays.
Qed.

(** ** Commands *)

Definition SessionSteady (b : Backend) : Prop :=
  0 ≤ last_replication_sequence (inner b)
  ∧ next_fence (inner b) < U64_MAX ∧ next_credential_id (inner b) < U64_MAX.

Hypothesis Hlog : ordered_replication_log (caps cfg) = true.

(** The step is mirrored: nothing was published, or every replica in the same state
    reaches the published state by replaying one entry, the next one. *)
Definition mirrored (b b' : Backend) : Prop :=
  inner b' = inner b
  ∨ ∀ r, inner r = inner b →
    ∃ e r', sequence e = last_replication_sequence (inner b) + 1
      ∧ replicate_entry cfg r e = Ok r' ∧ inner r' = inner b'.

Lemma direct_sequence_spec st seq :
  next_direct_replication_sequence cfg st = Ok seq →
  pending_replay_command st = None
  ∧ ∃ s, seq = Some s ∧ next_replication_sequence (last_replication_sequence st) = Ok s.
Proof.
  unfold next_direct_replication_sequence, require_complete_replay_command. rewrite Hlog.
  destruct (pending_replay_command st); [done|]. cbn.
  destruct (next_replication_sequence _) as [s| |]; [|done..]. intros [= <-]. naive_solver.
Qed.

Lemma commit_mirrored b b1 now sampled st seq st1 st1' o b' :
  store_ok (inner b) → SessionSteady b → command_time b sampled = (now, b1) →
  frame st = frame (inner b) → next_direct_replication_sequence cfg st = Ok seq →
  apply_replicated_op (prune_state (inner b) now) o now (max_tracked_keys (limits cfg)) = Ok st1' →
  retire_dead_keys st1' = retire_dead_keys st1 →
  store_ok st1 → frame st1 = frame (inner b) →
  contains_create o = false → op_all (op_ttl_ok now) o = true →
  (∃ b2, commit_direct_data cfg b2 st1 seq o now = Ok b') → mirrored b b'.
Proof.
  intros Hok [Hlast _] (_ & _ & _ & _ & Hct & _)%command_time_spec Hfr (Hp & s & -> & Hs)%direct_sequence_spec
    Happ Hret Hok1 Hfr1 Hcc Httl [b2 Hc].
  unfold commit_direct_data in Hc.
  destruct (finalize_direct cfg st1 (Some s) o now) as [st2| |] eqn:Hf; [|done..]. injection Hc as <-.
  unfold frame in Hfr. injection Hfr as _ _ _ Ep El. rewrite Ep in Hp. rewrite El in Hs.
  right. intros r Hr.
  destruct (replica_commit r st1 st1' s o now st2) as (e & r' & Es & _ & _ & Hrep & Ein);
    rewrite ?Hr; try done.
  exists e, r'. split_and!; [|done|done]. rewrite Es. by apply next_sequence_spec.
Qed.

Lemma settle_mirrored {E A} b b1 (r : outcome E (Backend * A)) :
  inner b1 = inner b → (∀ b' a, r = Ok (b', a) → mirrored b b') → mirrored b (settle b1 r).1.
Proof. intros Hb Hr. destruct r as [[b' a]| |]; cbn; [by eapply Hr|by left..]. Qed.

Lemma compare_and_set_mirrored b sampled c :
  store_ok (inner b) → SessionSteady b → mirrored b (compare_and_set cfg b sampled c).1.
Proof.
  intros Hok Hst. unfold compare_and_set.
  destruct (command_time b sampled) as [now b1] eqn:Ht.
  pose proof (command_time_spec _ _ _ _ Ht) as (E1 & _).
  pose proof (get_for_read_inner b1 (cas_key c) now) as E2.
  destruct (get_for_read b1 (cas_key c) now) as [o b2]. cbn in E2.
  apply settle_mirrored; [congruence|]. intros b' a. rewrite E2, E1.
  destruct (validate_stored_record_expiry_at _ _); [|done..].
  destruct (next_direct_replication_sequence _ _) as [seq| |] eqn:Hseq; [|done..].
  destruct (compare_and_set_with_state _ _ _ _) as [[st r]| |] eqn:E; [|done..].
  case_bool_decide as Hr; [subst r|intros [= <- _]; left; congruence].
  destruct (commit_direct_data _ _ _ _ _ _) as [b3| |] eqn:Hc; [|done..]. intros [= <- _].
  destruct (replay_cas _ _ _ _ E) as [Ha Hv].
  eapply (commit_mirrored b b1 now sampled (prune_state (inner b) now) seq st st (cas_op c));
    try done; [apply frame_prune| | |by eexists].
  - eapply compare_and_set_advances; [|done]. by apply prune_state_ok.
  - apply compare_and_set_staged in E as (l & _ & _ & _ & _ & _ & _ & _ & [-> _]).
    unfold put_record. rewrite frame_set_fence. apply (frame_prune _ now).
Qed.

Lemma delete_fenced_mirrored b sampled g :
  store_ok (inner b) → SessionSteady b → mirrored b (delete_fenced cfg b sampled g).1.
Proof.
  intros Hok Hst. unfold delete_fenced.
  destruct (command_time b sampled) as [now b1] eqn:Ht.
  pose proof (command_time_spec _ _ _ _ Ht) as (E1 & _).
  apply settle_mirrored; [congruence|]. intros b' a. rewrite E1.
  destruct (next_direct_replication_sequence _ _) as [seq| |] eqn:Hseq; [|done..].
  pose proof (proj1 (prune_state_ok (inner b) now Hok)) as Hp.
  destruct (delete_fenced_with_state _ _ _ _) as [st| |] eqn:E; [|done..].
  destruct (commit_direct_data _ _ _ _ _ _) as [b3| |] eqn:Hc; [|done..]. intros [= <- _].
  destruct (replay_delete _ _ _ _ Hp E) as [Ha Hv].
  eapply (commit_mirrored b b1 now sampled (prune_state (inner b) now) seq st st (delete_op g));
    try done; [apply frame_prune| | |by eexists].
  - by eapply delete_fenced_advances.
  - apply delete_fenced_staged in E as (l & _ & _ & ->).
    rewrite frame_set_fence. apply (frame_prune _ now).
Qed.

Lemma refresh_ttl_mirrored b sampled g ttl :
  store_ok (inner b) → SessionSteady b → mirrored b (refresh_ttl cfg b sampled g ttl).1.
Proof.
  intros Hok Hst. unfold refresh_ttl. destruct (validate_session_ttl ttl); [|by left..].
  destruct (command_time b sampled) as [now b1] eqn:Ht.
  pose proof (command_time_spec _ _ _ _ Ht) as (E1 & _).
  pose proof (get_for_read_inner b1 (lease_key g) now) as E2.
  destruct (get_for_read b1 (lease_key g) now) as [o b2]. cbn in E2.
  apply settle_mirrored; [congruence|]. intros b' a'. rewrite E2, E1.
  destruct (checked_session_deadline now ttl); [|done..].
  destruct (next_direct_replication_sequence _ _) as [seq| |] eqn:Hseq; [|done..].
  pose proof (proj1 (prune_state_ok (inner b) now Hok)) as Hp.
  destruct (refresh_ttl_with_state _ _ _ _ _) as [[st d]| |] eqn:E; [|done..].
  destruct (commit_direct_data _ _ _ _ _ _) as [b3| |] eqn:Hc; [|done..]. intros [= <- _].
  destruct (replay_refresh _ _ _ _ _ _ Hp E) as [Ha Hv].
  eapply (commit_mirrored b b1 now sampled (prune_state (inner b) now) seq st st (refresh_op g ttl d));
    try done; [apply frame_prune| | |by eexists].
  - by eapply refresh_ttl_advances.
  - apply refresh_ttl_staged in E as (l & r & _ & _ & _ & _ & ->).
    rewrite frame_set_fence. apply (frame_prune _ now).
Qed.

Lemma steady_prune b now :
  SessionSteady b → next_fence (prune_state (inner b) now) < U64_MAX
                    ∧ next_credential_id (prune_state (inner b) now) < U64_MAX.
Proof.
  intros (_ & Hn & Hc). pose proof (allocation_prune (inner b) now) as E. unfold allocation in E.
  injection E as -> ->. done.
Qed.

Lemma acquire_mirrored b sampled k o ttl :
  store_ok (inner b) → SessionSteady b → mirrored b (acquire cfg b sampled k o ttl).1.
Proof.
  intros Hok Hst. unfold acquire.
  destruct (map_err _ (validate_session_ttl ttl)); [|by left..].
  destruct (command_time b sampled) as [now b1] eqn:Ht.
  pose proof (command_time_spec _ _ _ _ Ht) as (E1 & _).
  apply settle_mirrored; [congruence|]. intros b' g. rewrite E1.
  destruct (map_err _ (checked_session_deadline now ttl)) as [d| |] eqn:Hd; [|done..].
  destruct (map_err _ (next_direct_replication_sequence _ _)) as [seq| |] eqn:Hseq; [|done..].
  apply map_err_ok in Hd, Hseq.
  pose proof (proj1 (prune_state_ok (inner b) now Hok)) as Hp.
  destruct (steady_prune b now Hst) as [Hn Hnc].
  destruct (direct_sequence_spec _ _ Hseq) as [Hpend _].
  destruct (match leases _ !! k with Some _ => _ | None => _ end) eqn:Hl; [done|].
  destruct (map_err _ (ensure_key_capacity _ _ _)) as [[]| |] eqn:Hcap; [|done..]. apply map_err_ok in Hcap.
  destruct (acquire_fence _ _) as [[[st f] c]| |] eqn:Hf; [|done..].
  destruct (map_err _ (commit_direct_data _ _ _ _ _ _)) as [b3| |] eqn:Hc; [|done..].
  apply map_err_ok in Hc. intros [= <- _].
  destruct (replay_acquire _ _ _ _ _ _ _ _ _ Hp Hpend Hn Hnc Hl Hcap Hf Hd) as [Ha Hv].
  eapply (commit_mirrored b b1 now sampled (prune_state (inner b) now) seq _ _
    (OpAcquireLease k o f c ttl d)); [done..|apply frame_prune|done|exact Ha|done| | |done|done|by eexists].
  - by eapply acquire_staged.
  - rewrite frame_set_fence. unfold acquire_fence in Hf. destruct (ok_or _ _); [|done..].
    injection Hf as <- _ _. etransitivity; [apply (frame_floor k)|]. apply frame_prune.
Qed.

(** Renewal and release stage a changed lease without touching the fence; replay
    sets the fence it already has, which only adds a live candidate. *)
Lemma lease_commit_mirrored b b1 now sampled seq g l l' o b' :
  store_ok (inner b) → SessionSteady b → command_time b sampled = (now, b1) →
  let st := prune_state (inner b) now in
  next_direct_replication_sequence cfg st = Ok seq →
  leases st !! lease_key g = Some l → fence l' = fence l → credential_id l' = credential_id l →
  (active l' = true → active l = true) →
  apply_replicated_op st o now (max_tracked_keys (limits cfg))
  = Ok (add_candidate (with_lease st (lease_key g) l') (lease_key g)) →
  contains_create o = false → op_all (op_ttl_ok now) o = true →
  (∃ b2, commit_direct_data cfg b2 (with_lease st (lease_key g) l') seq o now = Ok b') →
  mirrored b b'.
Proof.
  intros Hok Hst Ht st Hseq Hl Ef Ec Ha Happ Hcc Httl Hc.
  pose proof (proj1 (prune_state_ok (inner b) now Hok)) as Hp.
  pose proof (lease_update _ l l' _ Hp Hl Ef Ec Ha) as [Hok' _].
  eapply (commit_mirrored b b1 now sampled st seq _ _ o); 
    [done..|apply frame_prune|done|exact Happ| |done| |done|done|done].
  - apply retire_candidate; [done|]. right. unfold with_lease; st_simpl.
    rewrite lookup_insert_eq. by eexists.
  - apply frame_prune.
Qed.

Lemma renew_mirrored b sampled g ttl :
  store_ok (inner b) → SessionSteady b → mirrored b (renew cfg b sampled g ttl).1.
Proof.
  intros Hok Hst. unfold renew.
  destruct (map_err _ (validate_session_ttl ttl)); [|by left..].
  destruct (command_time b sampled) as [now b1] eqn:Ht.
  pose proof (command_time_spec _ _ _ _ Ht) as (E1 & _).
  apply settle_mirrored; [congruence|]. intros b' g'. rewrite E1.
  destruct (map_err _ (checked_session_deadline now ttl)) as [d| |] eqn:Hd; [|done..].
  destruct (map_err _ (next_direct_replication_sequence _ _)) as [seq| |] eqn:Hseq; [|done..].
  apply map_err_ok in Hd, Hseq.
  pose proof (proj1 (prune_state_ok (inner b) now Hok)) as Hp.
  destruct (steady_prune b now Hst) as [Hn Hnc].
  destruct (below_floor _ _) eqn:Hb; [done|]. destruct (_ <=? _); [done|].
  destruct (held_entry _ _) as [l| |] eqn:Hh; [|done..]. destruct (_ <=? _); [done|].
  destruct (map_err _ (commit_direct_data _ _ _ _ _ _)) as [b3| |] eqn:Hc; [|done..].
  apply map_err_ok in Hc. intros [= <- _].
  destruct (held_before_floor _ _ _ Hp Hb Hh) as (E & Hl & Ha & Hk). rewrite E in *.
  apply held_entry_spec in Hh as (_ & _ & Hcr & Ho & Hf & _).
  destruct (replay_renew _ _ _ _ _ _ Hp Hn Hnc Hl Ha Hcr Ho Hf Hd) as [Happ Hv].
  eapply (lease_commit_mirrored b b1 now sampled seq g l (renew_entry l d)
    (renew_op g (credential_id l) ttl d)); try done. by eexists.
Qed.

Lemma release_mirrored b sampled g :
  store_ok (inner b) → SessionSteady b → mirrored b (release cfg b sampled g).1.
Proof.
  intros Hok Hst. unfold release.
  destruct (command_time b sampled) as [now b1] eqn:Ht.
  pose proof (command_time_spec _ _ _ _ Ht) as (E1 & _).
  apply settle_mirrored; [congruence|]. intros b' []. rewrite E1.
  destruct (map_err _ (next_direct_replication_sequence _ _)) as [seq| |] eqn:Hseq; [|done..].
  apply map_err_ok in Hseq. pose proof (proj1 (prune_state_ok (inner b) now Hok)) as Hp.
  destruct (below_floor _ _) eqn:Hb; [done|].
  destruct (held_entry _ _) as [l| |] eqn:Hh; [|done..].
  destruct (map_err _ (commit_direct_data _ _ _ _ _ _)) as [b3| |] eqn:Hc; [|done..].
  apply map_err_ok in Hc. intros [= <-].
  destruct (held_before_floor _ _ _ Hp Hb Hh) as (E & Hl & Ha & Hk). rewrite E in *.
  apply held_entry_spec in Hh as (_ & _ & Hcr & Ho & Hf & _).
  eapply (lease_commit_mirrored b b1 now sampled seq g l (release_entry l now) (release_op g)); try done;
    [by apply replay_release|by eexists].
Qed.

Lemma batch_mirrored b sampled ops :
  store_ok (inner b) → SessionSteady b → mirrored b (batch cfg b sampled ops).1.
Proof.
  intros Hok Hst. unfold batch.
  destruct (if existsb is_write ops then require_complete_replay_command _ else _); [|by left..].
  destruct (if existsb is_write ops then command_time b sampled else _) as [now b1] eqn:Ht.
  assert (inner b1 = inner b) as E1.
  { destruct (existsb is_write ops); [by apply command_time_spec in Ht as (? & _)|by injection Ht as _ <-]. }
  apply settle_mirrored; [done|]. intros b' res. rewrite E1.
  destruct (validate_session_ops_at _ _); [|done..]. destruct (try_for_each _ _); [|done..].
  destruct (negb _); [done|]. set (s0 := {| replication := [] |}).
  destruct (existsb is_write ops) eqn:Hw.
  2:{ rewrite (reads_replicate_nothing cfg b1 now ops s0 Hw eq_refl). intros [= <- _].
      left. by rewrite mark_expired_reads_inner. }
  pose proof (proj1 (prune_state_ok (inner b) now Hok)) as Hp.
  assert (batch_replays (prune_state (inner b) now) now (fold_left (batch_step cfg b1 now) ops s0)) as Hs.
  { apply batch_fold_replays. by split. }
  set (s := fold_left _ ops s0) in *. destruct Hs as [Hs1 Hs2 Hs3 Hs4 Hs5].
  destruct (replication s) as [|o os] eqn:Er.
  { intros [= <- _]. left. by rewrite mark_expired_reads_inner. }
  destruct (next_direct_replication_sequence _ _) as [seq| |] eqn:Hseq; [|done..].
  destruct (commit_direct_data _ _ _ _ _ _) as [b3| |] eqn:Hc; [|done..]. intros [= <- _].
  assert (mirrored b b3) as [Hm|Hm].
  { rewrite <- apply_batch in Hs3 by done.
    eapply (commit_mirrored b b1 now sampled (inner b) seq _ _ (OpBatch (o :: os)));
      [done..|exact Hs3|done|done| |done|done|by eexists].
    rewrite Hs2. apply frame_prune. }
  - left. by rewrite mark_expired_reads_inner.
  - right. by rewrite mark_expired_reads_inner.
Qed.

Lemma exec_mirrored b sampled c :
  store_ok (inner b) → SessionSteady b → mirrored b (exec cfg b sampled c).
Proof.
  intros Hok Hst. destruct c; cbn [exec]; [|by apply compare_and_set_mirrored
    |by apply delete_fenced_mirrored|by apply refresh_ttl_mirrored|by apply acquire_mirrored
    |by apply renew_mirrored|by apply release_mirrored|by apply batch_mirrored].
  left. apply get_for_read_inner.
Qed.
End Replica.

(** ** Histories *)

Lemma push_entry_last st e n st' :
  push_entry st e n = Ok st' → last_replication_sequence st' = sequence e.
Proof. unfold push_entry, compact_replication_log. st_simpl. intros Hp. by rust_cases. Qed.

Section Histories.
Context `{TimestampRange}.
Variable cfg : Config.

(** An entry that extends the log passed every check and was applied. *)
Lemma replicate_next r e r' :
  replicate_entry cfg r e = Ok r' → sequence e = last_replication_sequence (inner r) + 1 →
  entry_validate e = Ok () ∧ contains_create (op e) = false
  ∧ replication_entry_follows (last_replication_sequence (inner r)) e = Ok true
  ∧ last_replication_sequence (inner r') = sequence e
  ∧ ∀ entries, replay_entries cfg (inner r) (e :: entries) = replay_entries cfg (inner r') entries.
Proof.
  unfold replicate_entry. intros Hr Hseq.
  destruct (entry_validate e) as [[]| |]; [|done..]. destruct (contains_create (op e)); [done|].
  rewrite (proj2 (Z.leb_gt _ _)) in Hr by lia.
  destruct (replication_entry_follows _ _) as [[]| |]; [|done..]. cbn [negb] in Hr.
  destruct (apply_committed_replication_entry _ _ _) as [st1| |] eqn:E1; [|done..].
  destruct (push_entry _ _ _) as [st2| |] eqn:E2; [|done..]. injection Hr as <-.
  split_and!; try done.
  - by eapply push_entry_last.
  - intros entries. cbn [replay_entries]. by rewrite E1, E2.
Qed.

(** A client command while no allocation counter is exhausted. *)
Inductive steady_step : Backend → Backend → Prop :=
| steady_command b sampled c : SessionSteady b → steady_step b (exec cfg b sampled c).

Hypothesis Hlog : ordered_replication_log (caps cfg) = true.

(** The entries of a history, and what replaying them from its start gives. *)
Definition history (b b' : Backend) (entries : list ReplicationEntry) : Prop :=
  validate_replication_prefix (last_replication_sequence (inner b)) entries = Ok ()
  ∧ existsb (λ e, contains_create (op e)) entries = false
  ∧ replay_entries cfg (inner b) entries = Ok (inner b').

Lemma history_cons b b1 b' r e entries :
  inner r = inner b1 → replicate_entry cfg b e = Ok r →
  sequence e = last_replication_sequence (inner b) + 1 →
  history b1 b' entries → history b b' (e :: entries).
Proof.
  intros Hr He Hs (Hv & Hc & Hrep).
  destruct (replicate_next b e r He Hs) as (Hev & Hcc & Hf & Hl & Hre).
  split_and!.
  - cbn [validate_replication_prefix]. rewrite Hev, Hf. cbn. by rewrite <- Hl, Hr.
  - cbn. by rewrite Hcc.
  - by rewrite Hre, Hr.
Qed.

Lemma steady_history b b' :
  store_ok (inner b) → rtc steady_step b b' → ∃ entries, history b b' entries.
Proof.
  intros Hok Hs. induction Hs as [b|b b1 b2 Hstep _ IH]; [by exists []|].
  destruct Hstep as [b t c Hst]. pose proof (exec_advances cfg b t c Hok) as [Hok1 _].
  destruct (IH Hok1) as [entries Hh].
  destruct (exec_mirrored cfg Hlog b t c Hok Hst) as [E|Hm].
  - exists entries. unfold history in *. by rewrite <- E.
  - destruct (Hm b eq_refl) as (e & r & Hseq & Hr & Er). exists (e :: entries).
    by eapply history_cons.
Qed.
End Histories.

(** C8.  Replication refines the commands: whatever command is run, either nothing
    was published, or there is one next journal entry such that every replica in
    the same state that replays it reaches exactly the state the command
    published: records, leases, fences, retirement, counters, time and journal. *)
Theorem command_replicates `{TimestampRange} cfg b sampled c :
  reachable cfg b → ordered_replication_log (caps cfg) = true → SessionSteady b →
  inner (exec cfg b sampled c) = inner b
  ∨ ∀ r, inner r = inner b →
    ∃ e r', sequence e = last_replication_sequence (inner b) + 1
      ∧ replicate_entry cfg r e = Ok r' ∧ inner r' = inner (exec cfg b sampled c).
Proof. intros Hr Hlog Hst. apply exec_mirrored; [done|by eapply reachable_ok|done]. Qed.

Lemma command_replicates_witness :
  let b := exec (H := sample_range) sample_config sample_acquire.1 20 (CmdCompareAndSet sample_cas) in
  inner b = inner sample_acquire.1
  ∨ ∀ r, inner r = inner sample_acquire.1 →
    ∃ e r', sequence e = 2 ∧ replicate_entry (H := sample_range) sample_config r e = Ok r'
            ∧ inner r' = inner b.
Proof.
  apply (command_replicates (H := sample_range) sample_config sample_acquire.1 20
           (CmdCompareAndSet sample_cas)); [apply sample_reachable|reflexivity|].
  vm_compute. by split_and!.
Defined.

(** C9.  The journal is a complete account: for every history of commands from an
    empty backend there is a list of journal entries from which
    [rebuild_replication_state], on any backend, reconstructs the state exactly. *)
Theorem journal_rebuilds `{TimestampRange} cfg b b0 :
  ordered_replication_log (caps cfg) = true → rtc (steady_step cfg) empty_backend b →
  ∃ entries b', rebuild_replication_state cfg b0 entries = Ok b' ∧ inner b' = inner b.
Proof.
  intros Hlog Hs. destruct (steady_history cfg Hlog empty_backend b empty_state_ok Hs)
    as (entries & Hv & Hc & Hr). exists entries, (publish_staged_data b0 (inner b)). split; [|done].
  unfold rebuild_replication_state, stage_rebuilt_replication_state.
  change (last_replication_sequence (inner empty_backend)) with 0 in Hv.
  change (inner empty_backend) with empty_state in Hr. by rewrite Hv, Hc, Hr.
Qed.

Lemma journal_rebuilds_witness :
  ∃ entries b', rebuild_replication_state (H := sample_range) sample_config empty_backend entries = Ok b'
                ∧ inner b' = inner sample_acquire.1.
Proof.
  apply (journal_rebuilds (H := sample_range) sample_config); [reflexivity|].
  eapply rtc_once, (steady_command (H := sample_range) _ _ 5 (CmdAcquire _ _ _)).
  vm_compute. by split_and!.
Defined.

(** ** The last fence *)

(** A replicated acquisition at the last fence but one. *)
Definition last_fence_entry : ReplicationEntry :=
  {| sequence := 1; tx_id := direct_tx_id 1;
     op := OpAcquireLease (sample_key 1) "smf-1" (U64_MAX - 1) 1 100 105; timestamp := 5;
     replay_policy :=
       {| prune_expired := true; retire_dead := true; policy_async_fence_floor := 0;
          capacity_rotations := 0; policy_internal_key_count := 0; command := Single;
          recovery := RecoveryNone |} |}.

Definition last_fence_backend : Backend :=
  match replicate_entry (H := sample_range) sample_config empty_backend last_fence_entry with
  | Ok b => b
  | _ => empty_backend
  end.

(** The last fence: once the fence counter is saturated a direct acquisition
    still commits, because it saturates, while replaying the journal entry it
    appended overflows, because replay adds one.  The hypothesis on the counters of
    the replication theorems is therefore needed. *)
Theorem last_fence_replay_overflows :
  let r := acquire (H := sample_range) sample_config last_fence_backend 6 (sample_key 2) "smf-2" 50 in
  is_ok r.2 = true
  ∧ match last (replication_log (inner r.1)) with
    | Some e => replicate_entry (H := sample_range) sample_config last_fence_backend e = Crash
    | None => False
    end.
Proof. vm_compute. by split. Qed.
