(* ===== verification/SessionTotal.v ===== *)
(** Progress of the session store: its commands always return, what it holds stays
    within its configured limits, a lease on a free key that admission lets through is
    granted, and an admitted compare-and-set is answered, exactly. *)
From S2P Require Import Prelude.
From S2P Require Import SessionTypes.
From S2P Require Import SessionTtl.
From S2P Require Import SessionRetention.
From S2P Require Import SessionReplication.
From S2P Require Import SessionStore.
From S2P Require Import SessionInvariant.
From S2P Require Import SessionFencing.
From S2P Require Import SessionReplay.
From S2P Require Import SessionSafety.
From S2P Require Import SessionReplica.

(** ** What staging, retirement and rotation leave alone *)

(** The part of a state that only replication changes. *)
Definition journal (st : FakeBackendState) : list ReplicationEntry * Z * Z :=
  (replication_log st, internal_key_count st, async_fence_floor st).

Lemma journal_floor k st : journal (apply_async_floor_to_key st k) = journal st.
Proof. unfold apply_async_floor_to_key. by repeat case_match. Qed.

Lemma journal_set_fence k f st : journal (set_fence st k f) = journal st.
Proof.
  unfold set_fence, unretire. st_simpl. destruct (_ || _); [|done].
  by destruct (retired_keys st !! k).
Qed.

Lemma journal_prune st now : journal (prune_state st now) = journal st.
Proof.
  unfold prune_state. cbv zeta. rewrite !fold_keeps; [done|..]; intros st' k;
    by rewrite <- (journal_floor k st').
Qed.

(** The keys that are tracked and not retired. *)
Definition unretired (st : FakeBackendState) : gset SessionKey :=
  dom (key_fences st) ∖ dom (retired_keys st).

Lemma forget_all_keeps entries st st' :
  forget_all st entries = Ok st' →
  journal st' = journal st ∧ next_fence st' = next_fence st
  ∧ key_retention st' = key_retention st ∧ unretired st' ⊆ unretired st.
Proof.
  revert st. induction entries as [|[e k] entries IH]; intros st; cbn [forget_all forget_retired].
  { by intros [= <-]. }
  destruct (_ || _); [done|]. intros (Ej & En & Er & Hu)%IH. split_and!; [done..|].
  etrans; [exact Hu|]. unfold unretired. st_simpl. set_solver.
Qed.

Lemma rotate_keeps st reason af st' :
  rotate_keys_with_floor st reason af = Ok st' →
  journal st' = journal st ∧ unretired st' ⊆ unretired st
  ∧ ∃ r n t, rotate (key_retention st) (next_fence st) U64_MAX af reason = Ok (r, n, t)
             ∧ key_retention st' = r ∧ next_fence st' = n.
Proof.
  unfold rotate_keys_with_floor.
  destruct (rotate _ _ _ _ _) as [[[r n] [t|]]| |] eqn:Hr; [| |done..].
  - intros (Ej & En & Er & Hu)%forget_all_keeps. split_and!; [done..|]. by exists r, n, (Some t).
  - intros [= <-]. split_and!; [done..|]. by exists r, n, None.
Qed.

Lemma retire_key_journal st k st' : retire_key st k = Ok st' → journal st' = journal st.
Proof.
  unfold retire_key, rotate_keys. intros Hr.
  destruct (_ || _); [injection Hr as <-; unfold unretire; by case_match|].
  destruct (_ || _); [by injection Hr as <-|].
  destruct (key_fences st !! k); [|by injection Hr as <-].
  destruct (_ <=? _); [by injection Hr as <-|].
  destruct (ok_or _ _); [|done..]. cbn [retired_count] in Hr.
  destruct (_ =? _); [|by injection Hr as <-]. apply rotate_keeps in Hr as (-> & _). done.
Qed.

Lemma retire_all_journal l st st' : retire_all st l = Ok st' → journal st' = journal st.
Proof.
  revert st. induction l as [|k l IH]; intros st; cbn; [by intros [= <-]|].
  destruct (retire_key st k) as [st1| |] eqn:Hk; [|done..].
  intros ->%IH. by eapply retire_key_journal.
Qed.

Lemma finalize_loop_journal fuel st maximum n st' m :
  finalize_loop fuel st maximum n = Ok (st', m) → journal st' = journal st.
Proof.
  revert st n. induction fuel as [|fuel IH]; intros st n; cbn [finalize_loop];
    (destruct (_ <? _); [|by intros [= <- _]]); [done|].
  case_bool_decide; [done|]. unfold rotate_keys.
  destruct (rotate_keys_with_floor _ _ _) as [st1| |] eqn:Hr; [|done..].
  intros ->%IH. by apply rotate_keeps in Hr as (-> & _).
Qed.

(** ** Limits *)

Section Limits.
Context `{TimestampRange}.
Variable cfg : Config.
Hypothesis Hentries : 0 ≤ max_replication_entries (limits cfg).

(** The configured limits, and the two a replay policy carries. *)
Definition bounded (st : FakeBackendState) : Prop :=
  saturating_add (tracked st) (internal_key_count st) ≤ max_tracked_keys (limits cfg)
  ∧ len (replication_log st) ≤ max_replication_entries (limits cfg)
  ∧ async_fence_floor st ≤ I64_MAX - 2
  ∧ internal_key_count st ≤ MAX_REPLICATION_INTERNAL_KEYS.

Lemma push_entry_total st e :
  ∃ c log, push_entry st e (max_replication_entries (limits cfg)) = Ok (with_log st c (sequence e) log)
           ∧ len log ≤ max_replication_entries (limits cfg).
Proof.
  unfold push_entry, compact_replication_log. st_simpl.
  set (log := replication_log st ++ [e]). pose proof Hentries as Hn. revert Hn.
  generalize (max_replication_entries (limits cfg)). intros n Hn.
  destruct (len log <=? n) eqn:Hl; to_prop; [eauto|].
  destruct (n =? 0) eqn:H0; to_prop; [eexists _, []; split; [done|rewrite len_nil; lia]|].
  destruct (idx_ok (E := StoreError) log (len log - n - 1)) as [x ->]; [lia|].
  eexists _, _. split; [reflexivity|]. unfold len in *. rewrite length_drop. lia.
Qed.

Lemma policy_validate_returns p : returns (policy_validate p).
Proof. unfold returns, policy_validate. by repeat case_match. Qed.

Lemma finalize_direct_total st seq o now :
  store_ok st →
  returns (finalize_direct cfg st seq o now)
  ∧ ∀ st', finalize_direct cfg st seq o now = Ok st' →
      len (replication_log st) ≤ max_replication_entries (limits cfg) →
      len (replication_log st') ≤ max_replication_entries (limits cfg).
Proof.
  intros Hok. unfold finalize_direct. pose proof (retire_dead_keys_settles st Hok) as Hr.
  destruct (retire_dead_keys st) as [st1| |] eqn:E1; [|done..]. cbn in Hr.
  destruct (finalize_key_capacity_spec st1 (max_tracked_keys (limits cfg)) (set_ok _ _ Hr)) as [Hf _].
  destruct (finalize_key_capacity _ _) as [[st2 n]| |] eqn:E2; [|done..].
  assert (replication_log st2 = replication_log st) as Ej.
  { apply retire_all_journal in E1. apply finalize_loop_journal in E2.
    unfold journal in *. st_simpl. congruence. }
  assert (returns (match seq with Some _ => validate_structure o | None => Ok () end)) as Hv.
  { destruct seq; [|done]. rewrite validate_structure_spec. by case_match. }
  destruct (match seq with Some _ => _ | None => _ end); [|done..].
  set (p := {| prune_expired := _ |}). pose proof (policy_validate_returns p).
  destruct (policy_validate p); [|done..]. unfold append_direct_replication_entry.
  destruct seq as [s|].
  - match goal with |- context [push_entry st2 ?e _] =>
      destruct (push_entry_total st2 e) as (c & log & -> & Hl) end.
    split; [done|]. by intros st' [= <-].
  - split; [done|]. intros st' [= <-]. cbn. by rewrite Ej.
Qed.

Lemma commit_total b st seq o now :
  store_ok st → journal st = journal (inner b) → bounded (inner b) →
  returns (commit_direct_data cfg b st seq o now)
  ∧ ∀ b', commit_direct_data cfg b st seq o now = Ok b' → bounded (inner b').
Proof.
  intros Hok Hj (_ & Hlog & Hfl & Hin). injection Hj as Ej1 Ej2 Ej3.
  destruct (finalize_direct_total st seq o now Hok) as [Hret Hl]. unfold commit_direct_data.
  destruct (finalize_direct cfg st seq o now) as [st'| |] eqn:Hf; [|done..].
  split; [done|]. intros b' [= <-]. cbn [inner publish_staged_data].
  apply finalize_direct_settled in Hf as Hs; [|done]. destruct Hs as [Hset Hcap].
  rewrite Ej1 in Hl. split; [exact Hcap|]. split; [exact (Hl st' eq_refl Hlog)|].
  rewrite (set_floor _ _ Hset), (set_internal _ _ Hset). st_simpl.
  rewrite Ej2, Ej3. exact (conj Hfl Hin).
Qed.

(** ** Commands return and stay within the limits *)

Definition sound {E A} (r : outcome E (Backend * A)) : Prop :=
  returns r ∧ ∀ b' a, r = Ok (b', a) → bounded (inner b').

Lemma settle_sound {E A} b (r : outcome E (Backend * A)) :
  bounded (inner b) → sound r → bounded (inner (settle b r).1) ∧ returns (settle b r).2.
Proof.
  intros Hb [Hr Hs]. unfold returns in *. destruct r as [[b' a]|e|]; cbn; [|done..].
  split; [by eapply Hs|done].
Qed.

Lemma sound_err {E A} (e : E) : sound (E := E) (A := A) (Err e).
Proof. by split. Qed.

(** The end of every command: commit and answer. *)
Lemma commit_sound {E A} b st seq o now (f : StoreError → E) (a : A) :
  store_ok st → journal st = journal (inner b) → bounded (inner b) →
  sound (let? b := map_err f (commit_direct_data cfg b st seq o now) in Ok (b, a)).
Proof.
  intros Hok Hj Hb. destruct (commit_total b st seq o now Hok Hj Hb) as [Hr Hc].
  unfold returns in *. destruct (commit_direct_data _ _ _ _ _ _) as [b1| |]; cbn; [|by split..|done].
  split; [done|]. intros ? ? [= <- <-]. by apply Hc.
Qed.

Lemma commit_sound' {A} b st seq o now (a : A) :
  store_ok st → journal st = journal (inner b) → bounded (inner b) →
  sound (let? b := commit_direct_data cfg b st seq o now in Ok (b, a)).
Proof.
  intros Hok Hj Hb. destruct (commit_total b st seq o now Hok Hj Hb) as [Hr Hc].
  unfold returns in *. destruct (commit_direct_data _ _ _ _ _ _) as [b1| |]; [|by split..|done].
  split; [done|]. intros ? ? [= <- <-]. by apply Hc.
Qed.

Lemma ensure_returns st k n : returns (ensure_key_capacity st k n).
Proof. unfold returns, ensure_key_capacity, ok_or. by repeat case_match. Qed.

Lemma deadline_returns now ttl : returns (checked_session_deadline now ttl).
Proof. unfold returns, checked_session_deadline, validate_session_ttl, ok_or. by repeat case_match. Qed.

Lemma compare_and_set_with_state_total st c now :
  returns (compare_and_set_with_state cfg st c now)
  ∧ ∀ st' r, compare_and_set_with_state cfg st c now = Ok (st', r) → journal st' = journal st.
Proof.
  split.
  - unfold compare_and_set_with_state.
    pose proof (validate_stored_returns (new_record c) now) as H1. unfold returns in *.
    destruct (validate_stored_record_expiry_at _ _); [|done..].
    repeat (destruct (negb _); [done|]). destruct (_ || _); [done|]. destruct (_ <? _); [done|].
    pose proof (validate_fenced_mutation_returns st (cas_lease c) now) as H2. unfold returns in *.
    destruct (validate_fenced_mutation _ _ _) as [k| |]; [|done..]. destruct (_ <? _); [done|].
    pose proof (ensure_returns st k (max_tracked_keys (limits cfg))) as H3. unfold returns in *.
    destruct (ensure_key_capacity _ _ _); [|done..]. by repeat case_match.
  - intros st' r (l & _ & _ & _ & _ & _ & _ & _ & Hres)%compare_and_set_staged.
    destruct r; cbn in Hres; [|by destruct Hres as [-> _]]. destruct Hres as [-> _].
    unfold put_record. by rewrite journal_set_fence.
Qed.

Lemma delete_fenced_with_state_total st g now :
  returns (delete_fenced_with_state cfg st g now)
  ∧ ∀ st', delete_fenced_with_state cfg st g now = Ok st' → journal st' = journal st.
Proof.
  split.
  - unfold delete_fenced_with_state. destruct (negb _); [done|].
    pose proof (validate_fenced_mutation_returns st g now) as H2. unfold returns in *.
    destruct (validate_fenced_mutation _ _ _) as [k| |]; [|done..]. destruct (_ <? _); [done|].
    pose proof (ensure_returns st k (max_tracked_keys (limits cfg))) as H3. unfold returns in *.
    by destruct (ensure_key_capacity _ _ _).
  - intros st' (l & _ & _ & ->)%delete_fenced_staged. by rewrite journal_set_fence.
Qed.

Lemma refresh_ttl_with_state_total st g ttl now :
  returns (refresh_ttl_with_state cfg st g ttl now)
  ∧ ∀ st' d, refresh_ttl_with_state cfg st g ttl now = Ok (st', d) → journal st' = journal st.
Proof.
  split.
  - unfold refresh_ttl_with_state. pose proof (deadline_returns now ttl) as H1. unfold returns in *.
    destruct (checked_session_deadline now ttl); [|done..].
    repeat (destruct (negb _); [done|]).
    pose proof (validate_fenced_mutation_returns st g now) as H2. unfold returns in *.
    destruct (validate_fenced_mutation _ _ _) as [k| |]; [|done..]. destruct (_ <? _); [done|].
    pose proof (ensure_returns st k (max_tracked_keys (limits cfg))) as H3. unfold returns in *.
    destruct (ensure_key_capacity _ _ _); [|done..]. by repeat case_match.
  - intros st' d (l & r & _ & _ & _ & _ & ->)%refresh_ttl_staged. by rewrite journal_set_fence.
Qed.

(** Case analysis on a call that returns: its value, or the error the command then
    fails with. *)
Ltac call H :=
  let R := fresh in pose proof H as R; unfold returns in R;
  lazymatch type of R with ?t ≠ Crash => destruct t eqn:?; [|apply sound_err|done] end.

Lemma compare_and_set_total b sampled c :
  store_ok (inner b) → bounded (inner b) →
  bounded (inner (compare_and_set cfg b sampled c).1)
  ∧ returns (compare_and_set cfg b sampled c).2.
Proof.
  intros Hok Hb. unfold compare_and_set.
  destruct (command_time b sampled) as [now b1] eqn:Ht. apply command_time_spec in Ht as (E1 & _).
  destruct (get_for_read b1 (cas_key c) now) as [v b2] eqn:Hg.
  assert (inner b2 = inner b) as E2 by (rewrite <- E1, <- (get_for_read_inner b1 (cas_key c) now), Hg; done).
  rewrite <- E2 in Hok, Hb. apply settle_sound; [done|].
  call (validate_stored_returns (new_record c) now).
  pose proof (prune_state_ok (inner b2) now Hok) as Hp.
  call (next_sequence_returns cfg (prune_state (inner b2) now)).
  destruct (compare_and_set_with_state_total (prune_state (inner b2) now) c now) as [Hr Hj].
  call Hr. destruct a1 as [st r]. case_bool_decide; [|split; [done|]; by intros ? ? [= <- <-]].
  apply compare_and_set_advances in Heqo1 as Ha; [|apply Hp].
  apply commit_sound'; [apply Ha| |done]. by erewrite Hj, journal_prune.
Qed.

Lemma delete_fenced_total b sampled g :
  store_ok (inner b) → bounded (inner b) →
  bounded (inner (delete_fenced cfg b sampled g).1) ∧ returns (delete_fenced cfg b sampled g).2.
Proof.
  intros Hok Hb. unfold delete_fenced.
  destruct (command_time b sampled) as [now b1] eqn:Ht. apply command_time_spec in Ht as (E1 & _).
  rewrite <- E1 in Hok, Hb. apply settle_sound; [done|].
  pose proof (prune_state_ok (inner b1) now Hok) as Hp.
  call (next_sequence_returns cfg (prune_state (inner b1) now)).
  destruct (delete_fenced_with_state_total (prune_state (inner b1) now) g now) as [Hr Hj].
  call Hr. apply delete_fenced_advances in Heqo0 as Ha; [|apply Hp].
  apply commit_sound'; [apply Ha| |done]. by erewrite Hj, journal_prune.
Qed.

Lemma refresh_ttl_total b sampled g ttl :
  store_ok (inner b) → bounded (inner b) →
  bounded (inner (refresh_ttl cfg b sampled g ttl).1) ∧ returns (refresh_ttl cfg b sampled g ttl).2.
Proof.
  intros Hok Hb. unfold refresh_ttl.
  destruct (validate_session_ttl ttl) eqn:Hv; [|done|unfold validate_session_ttl in Hv; by case_match].
  destruct (command_time b sampled) as [now b1] eqn:Ht. apply command_time_spec in Ht as (E1 & _).
  destruct (get_for_read b1 (lease_key g) now) as [v b2] eqn:Hg.
  assert (inner b2 = inner b) as E2 by (rewrite <- E1, <- (get_for_read_inner b1 (lease_key g) now), Hg; done).
  rewrite <- E2 in Hok, Hb. apply settle_sound; [done|].
  call (deadline_returns now ttl).
  pose proof (prune_state_ok (inner b2) now Hok) as Hp.
  call (next_sequence_returns cfg (prune_state (inner b2) now)).
  destruct (refresh_ttl_with_state_total (prune_state (inner b2) now) g ttl now) as [Hr Hj].
  call Hr. destruct a2 as [st d]. apply refresh_ttl_advances in Heqo1 as Ha; [|apply Hp].
  apply commit_sound'; [apply Ha| |done]. by erewrite Hj, journal_prune.
Qed.

Lemma session_ttl_returns ttl : returns (validate_session_ttl ttl).
Proof. unfold returns, validate_session_ttl. by case_match. Qed.

Lemma validate_ttl_returns ttl : returns (map_err lease_error_from (validate_session_ttl ttl)).
Proof. apply map_err_returns, session_ttl_returns. Qed.

Lemma acquire_total b sampled k o ttl :
  store_ok (inner b) → bounded (inner b) →
  bounded (inner (acquire cfg b sampled k o ttl).1) ∧ returns (acquire cfg b sampled k o ttl).2.
Proof.
  intros Hok Hb. unfold acquire. pose proof (validate_ttl_returns ttl) as Hv. unfold returns in Hv.
  destruct (map_err _ (validate_session_ttl ttl)); [|done..].
  destruct (command_time b sampled) as [now b1] eqn:Ht. apply command_time_spec in Ht as (E1 & _).
  rewrite <- E1 in Hok, Hb. apply settle_sound; [done|].
  call (map_err_returns lease_error_from _ (deadline_returns now ttl)).
  pose proof (prune_state_ok (inner b1) now Hok) as Hp.
  call (map_err_returns lease_error_from _ (next_sequence_returns cfg (prune_state (inner b1) now))).
  set (st := prune_state (inner b1) now) in *.
  destruct (match leases _ !! k with Some _ => _ | None => _ end); [apply sound_err|].
  match goal with |- context [map_err ?f (ensure_key_capacity ?s k ?n)] =>
    call (map_err_returns f _ (ensure_returns s k n)) end.
  assert (returns (acquire_fence (apply_async_floor_to_key st k) k)) as Hf
    by (unfold returns, acquire_fence, ok_or; by repeat case_match).
  call Hf. destruct a3 as [[st1 f] c].
  apply commit_sound; [by eapply acquire_staged; [apply Hp|done..]| |done].
  apply acquire_fence_spec in Heqo3 as (_ & _ & _ & ->);
    [|destruct (apply_floor_fields k st) as (_ & _ & _ & _ & _ & -> & _); apply Hp].
  rewrite journal_set_fence. transitivity (journal (apply_async_floor_to_key st k)); [done|].
  rewrite journal_floor. apply journal_prune.
Qed.

Lemma held_entry_returns st g : returns (held_entry st g).
Proof. unfold returns, held_entry. by repeat case_match. Qed.

(** What [renew] and [release] commit: another entry for a lease that is held. *)
Lemma lease_commit_sound {A} b now g l l' seq o (a : A) :
  store_ok (inner b) → bounded (inner b) →
  let st := apply_async_floor_to_key (prune_state (inner b) now) (lease_key g) in
  held_entry st g = Ok l → fence l' = fence l → credential_id l' = credential_id l →
  (active l' = true → active l = true) →
  sound (let? b := map_err lease_error_from
                     (commit_direct_data cfg b (with_lease st (lease_key g) l') seq o now) in
         Ok (b, a)).
Proof.
  intros Hok Hb st Hh Ef Ec Ha. pose proof (prune_state_ok (inner b) now Hok) as Hp.
  apply held_entry_spec in Hh as (Hl & _). pose proof (apply_floor_live _ _ _ (proj1 Hp) Hl) as Hfl.
  apply commit_sound; [by eapply lease_update; [apply Hfl|done..]| |done].
  transitivity (journal st); [done|]. unfold st. by rewrite journal_floor, journal_prune.
Qed.

Lemma renew_total b sampled g ttl :
  store_ok (inner b) → bounded (inner b) →
  bounded (inner (renew cfg b sampled g ttl).1) ∧ returns (renew cfg b sampled g ttl).2.
Proof.
  intros Hok Hb. unfold renew. pose proof (validate_ttl_returns ttl) as Hv. unfold returns in Hv.
  destruct (map_err _ (validate_session_ttl ttl)); [|done..].
  destruct (command_time b sampled) as [now b1] eqn:Ht. apply command_time_spec in Ht as (E1 & _).
  rewrite <- E1 in Hok, Hb. apply settle_sound; [done|].
  call (map_err_returns lease_error_from _ (deadline_returns now ttl)).
  call (map_err_returns lease_error_from _ (next_sequence_returns cfg (prune_state (inner b1) now))).
  destruct (below_floor _ _); [apply sound_err|]. destruct (_ <=? _); [apply sound_err|].
  call (held_entry_returns (apply_async_floor_to_key (prune_state (inner b1) now) (lease_key g)) g).
  destruct (_ <=? _); [apply sound_err|]. by eapply lease_commit_sound.
Qed.

Lemma release_total b sampled g :
  store_ok (inner b) → bounded (inner b) →
  bounded (inner (release cfg b sampled g).1) ∧ returns (release cfg b sampled g).2.
Proof.
  intros Hok Hb. unfold release.
  destruct (command_time b sampled) as [now b1] eqn:Ht. apply command_time_spec in Ht as (E1 & _).
  rewrite <- E1 in Hok, Hb. apply settle_sound; [done|].
  call (map_err_returns lease_error_from _ (next_sequence_returns cfg (prune_state (inner b1) now))).
  destruct (below_floor _ _); [apply sound_err|].
  call (held_entry_returns (apply_async_floor_to_key (prune_state (inner b1) now) (lease_key g)) g).
  by eapply lease_commit_sound.
Qed.

Definition slot_returns (r : SessionOpResult) : Prop :=
  match r with
  | ResultGet _ => True
  | ResultCompareAndSet r => returns r
  | ResultDeleteFenced r | ResultRefreshTtl r => returns r
  end.

Lemma fail_result_returns {A B} (r : outcome StoreError A) (f : A → B) :
  returns r → returns (fail_result r f).
Proof. by destruct r. Qed.

Lemma batch_step_total b now s o :
  Forall slot_returns (results s) →
  journal (staged (batch_step cfg b now s o)) = journal (staged s)
  ∧ Forall slot_returns (results (batch_step cfg b now s o)).
Proof.
  intros Hs. unfold batch_step. destruct o as [k|c|g|g ttl].
  - destruct (batch_get _ _ _ _). cbn. split; [done|]. apply Forall_app. by repeat constructor.
  - destruct (compare_and_set_with_state_total (staged s) c now) as [Hr Hj].
    destruct (compare_and_set_with_state _ _ _ _) as [[st []]| |]; cbn; try done;
      (split; [first [done|by eapply Hj]|]; apply Forall_app; by repeat constructor).
  - destruct (delete_fenced_with_state_total (staged s) g now) as [Hr Hj].
    destruct (delete_fenced_with_state _ _ _ _) as [st| |]; cbn; try done;
      (split; [first [done|by eapply Hj]|]; apply Forall_app; by repeat constructor).
  - destruct (refresh_ttl_with_state_total (staged s) g ttl now) as [Hr Hj].
    destruct (refresh_ttl_with_state _ _ _ _ _) as [[st d]| |]; cbn; try done;
      (split; [first [done|by eapply Hj]|]; apply Forall_app; by repeat constructor).
Qed.

Lemma batch_fold_total b now ops s :
  Forall slot_returns (results s) →
  journal (staged (fold_left (batch_step cfg b now) ops s)) = journal (staged s)
  ∧ Forall slot_returns (results (fold_left (batch_step cfg b now) ops s)).
Proof.
  revert s. induction ops as [|o ops IH]; intros s Hs; [done|]. cbn [fold_left].
  destruct (batch_step_total b now s o Hs) as [Hj Hr]. destruct (IH _ Hr) as [Hj' Hr'].
  split; [congruence|done].
Qed.

Lemma try_for_each_returns f ops : (∀ o, returns (f o)) → returns (try_for_each f ops).
Proof.
  intros Hf. induction ops as [|o ops IH]; [done|]. cbn. specialize (Hf o). unfold returns in *.
  by destruct (f o).
Qed.

Lemma validate_ops_returns ops now : returns (validate_session_ops_at ops now).
Proof.
  unfold validate_session_ops_at.
  pose proof (try_for_each_returns op_validate_ttl ops) as R.
  pose proof (try_for_each_returns (op_validate_expiry now) ops) as R'. unfold returns in *.
  destruct (try_for_each op_validate_ttl ops); try done.
  - apply R'. intros []; try done. apply validate_stored_returns.
  - exfalso. apply R; [|done]. intros [| | |g ttl]; try done. apply session_ttl_returns.
Qed.

Lemma op_deadlines_return ops now : returns (try_for_each (op_deadline now) ops).
Proof.
  apply try_for_each_returns. intros [| | |g ttl]; try done. cbn.
  pose proof (deadline_returns now ttl). unfold returns in *.
  by destruct (checked_session_deadline _ _).
Qed.

Lemma batch_total b sampled ops :
  store_ok (inner b) → bounded (inner b) →
  bounded (inner (batch cfg b sampled ops).1) ∧ returns (batch cfg b sampled ops).2
  ∧ ∀ l, (batch cfg b sampled ops).2 = Ok l → Forall slot_returns l.
Proof.
  intros Hok Hb. unfold batch.
  destruct (if existsb is_write ops then _ else _) eqn:Hw; [|done|];
    [|unfold require_complete_replay_command in Hw; by repeat case_match].
  destruct (if existsb is_write ops then command_time b sampled else _) as [now b1] eqn:Ht.
  assert (inner b1 = inner b) as E1.
  { destruct (existsb is_write ops); [by apply command_time_spec in Ht as (? & _)|by injection Ht as _ <-]. }
  rewrite <- E1 in Hok, Hb.
  match goal with |- context [settle b1 ?r] =>
    enough (sound r ∧ ∀ b' l, r = Ok (b', l) → Forall slot_returns l) as [Hs Hl] end.
  { destruct (settle_sound _ _ Hb Hs) as [? ?]. split; [done|]. split; [done|].
    intros l. match goal with |- (settle b1 ?r).2 = _ → _ => destruct r as [[b' l']| |] end; cbn; try done.
    intros [= <-]. by eapply Hl. }
  pose proof (validate_ops_returns ops now) as R1. pose proof (op_deadlines_return ops now) as R2.
  unfold returns in R1, R2.
  destruct (validate_session_ops_at ops now); [|by split; [apply sound_err|]|done].
  destruct (try_for_each _ _); [|by split; [apply sound_err|]|done].
  destruct (negb _); [by split; [apply sound_err|]|].
  set (st := if existsb is_write ops then _ else _).
  set (s0 := {| staged := st |}).
  assert (advances (inner b1) st) as Ha0.
  { subst st. destruct (existsb is_write ops); [by apply prune_state_ok|by apply advances_refl]. }
  pose proof (batch_fold_advances cfg b1 now ops s0 (inner b1) Hok Ha0) as Ha.
  destruct (batch_fold_total b1 now ops s0) as [Hj Hr]; [constructor|].
  destruct (replication _).
  { split; [split; [done|]|]; intros b' l [= <- <-]; [by rewrite mark_expired_reads_inner|done]. }
  pose proof (next_sequence_returns cfg (inner b1)) as R3. unfold returns in R3.
  destruct (next_direct_replication_sequence _ _) as [seq| |]; [|by split; [apply sound_err|]|done].
  match goal with |- context [commit_direct_data cfg b1 ?x seq ?o now] =>
    destruct (commit_total b1 x seq o now) as [Hc Hcb]; [apply Ha| |done|];
    [|unfold returns in Hc; destruct (commit_direct_data cfg b1 x seq o now);
      [|by split; [apply sound_err|]|done]] end.
  { rewrite Hj. subst s0 st. cbn. destruct (existsb is_write ops); [apply journal_prune|done]. }
  split; [split; [done|]|]; intros b' l' [= <- <-]; [|done].
  rewrite mark_expired_reads_inner. by apply Hcb.
Qed.

(** ** Replayed entries stay within the limits *)

Lemma journal_raise k f st : journal (raise_next_fence (set_fence st k f) f) = journal st.
Proof. exact (journal_set_fence k f st). Qed.

Lemma journal_raise_counters k f c st st' :
  raise_counters (set_fence st k f) f c = Ok st' → journal st' = journal st.
Proof.
  unfold raise_counters. destruct (checked_add f 1), (checked_add c 1); try done.
  intros [= <-]. exact (journal_set_fence k f st).
Qed.

Lemma journal_replay_writes st k now max_keys st' :
  (∃ e c d new, apply_compare_and_set st k e c d new now max_keys = Ok st')
  ∨ (∃ o f, apply_delete_fenced st k o f max_keys = Ok st')
  ∨ (∃ o f d, apply_refresh_ttl st k o f d max_keys = Ok st') →
  journal st' = journal st.
Proof.
  intros [(e & c & d & new & Hr)|[(o & f & Hr)|(o & f & d & Hr)]]; revert Hr.
  - unfold apply_compare_and_set, put_record. intros Hr. rust_cases; exact (journal_set_fence _ _ _).
  - unfold apply_delete_fenced. intros Hr. rust_cases. exact (journal_raise _ _ _).
  - unfold apply_refresh_ttl. intros Hr. rust_cases. exact (journal_raise _ _ _).
Qed.

Lemma journal_replay_leases st k now max_keys st' :
  (∃ o f c d, apply_acquire_lease st k o f c d now max_keys = Ok st')
  ∨ (∃ o f c d, apply_renew_lease st k o f c d max_keys = Ok st')
  ∨ (∃ o f c, apply_release_lease st k o f c now max_keys = Ok st') →
  journal st' = journal st.
Proof.
  intros [(o & f & c & d & Hr)|[(o & f & c & d & Hr)|(o & f & c & Hr)]]; revert Hr.
  - unfold apply_acquire_lease. destruct (_ <=? _); [done|].
    destruct (ensure_key_capacity _ _ _); [|done..]. destruct (match leases _ !! _ with Some _ => _ | None => _ end); [done|].
    intros Hr%journal_raise_counters. rewrite Hr. exact (journal_floor k st).
  - unfold apply_renew_lease. destruct (validate_replicated_owner _ _ _ _); [|done..].
    destruct (leases st !! k); [|done]. destruct (negb _); [done|].
    destruct (ensure_key_capacity _ _ _); [|done..]. by intros Hr%journal_raise_counters.
  - unfold apply_release_lease. intros Hr. rust_cases. exact (journal_raise _ _ _).
Qed.

Lemma journal_replay_roster st k e s o f c a d now max_keys st' :
  apply_roster_established st k e s o f c a d now max_keys = Ok st' → journal st' = journal st.
Proof.
  unfold apply_roster_established. destruct (_ || _); [done|]. destruct (_ <? _); [done|].
  destruct (ensure_key_capacity _ _ _); [|done..]. destruct (leases st !! k); [|done].
  destruct (_ || _); [done|]. destruct (_ || _); [done|]. destruct (negb _); [done|].
  destruct (apply_roster_successor st k e s) as [st1| |] eqn:Hs; [|done..]. intros [= <-].
  transitivity (journal st1); [exact (journal_raise _ _ _)|].
  unfold apply_roster_successor in Hs. by rust_cases.
Qed.

Lemma journal_replay o st st' now max_keys :
  apply_replicated_op st o now max_keys = Ok st' → journal st' = journal st.
Proof.
  revert st st'. induction o as [o Hleaf|ops IH] using ReplicationOp_nested_ind; intros st st'.
  - destruct o as [k e c d new|k ow f|k ow f t d|k ow f c t d|k ow f c t d|k ow f c
      |k e su ow f c aq d|ops|]; cbn [apply_replicated_op];
      (destruct (contains_create _); [done|]); intros Hr.
    1-3: apply (journal_replay_writes st k now max_keys); naive_solver.
    1-3: apply (journal_replay_leases st k now max_keys); naive_solver.
    + by eapply journal_replay_roster.
    + by destruct (Hleaf ops).
    + done.
  - cbn [apply_replicated_op]. destruct (contains_create _); [done|]. revert st.
    induction IH as [|o ops Ho _ IH]; intros st; [by intros [= <-]|].
    destruct (apply_replicated_op st o now max_keys) as [st1| |] eqn:E; [|done..].
    intros ->%IH. by apply Ho.
Qed.

Lemma replay_rotations_journal n st floor st' :
  replay_rotations n st floor = Ok st' → journal st' = journal st.
Proof.
  revert st. induction n as [|n IH]; intros st; cbn; [by intros [= <-]|].
  case_bool_decide; [done|].
  destruct (rotate_keys_with_floor _ _ _) as [st1| |] eqn:Hr; [|done..].
  intros ->%IH. by apply rotate_keeps in Hr as (-> & _).
Qed.

Lemma policy_validate_limits p u :
  policy_validate p = Ok u →
  policy_async_fence_floor p ≤ I64_MAX - 2
  ∧ policy_internal_key_count p ≤ MAX_REPLICATION_INTERNAL_KEYS.
Proof.
  unfold policy_validate. destruct (_ || _) eqn:Hb; [done|]. intros _.
  apply orb_false_iff in Hb as [Hb ?]. apply orb_false_iff in Hb as [? ?]. to_prop. lia.
Qed.

Lemma apply_committed_limits st e st' :
  apply_committed_replication_entry cfg st e = Ok st' →
  async_fence_floor st' = policy_async_fence_floor (replay_policy e)
  ∧ internal_key_count st' = policy_internal_key_count (replay_policy e)
  ∧ saturating_add (tracked st') (internal_key_count st') ≤ max_tracked_keys (limits cfg).
Proof.
  unfold apply_committed_replication_entry. destruct (cursor_advance _ _); [|done..].
  destruct (apply_recovery _ _ _) as [st1| |] eqn:E1; [|done..]. apply apply_recovery_floor in E1.
  set (st2 := if prune_expired _ then _ else _).
  assert (async_fence_floor st2 = policy_async_fence_floor (replay_policy e)
          ∧ internal_key_count st2 = policy_internal_key_count (replay_policy e)) as [F2 I2].
  { subst st2. destruct (prune_expired _); [|done].
    match goal with |- context [prune_state ?s ?t] => pose proof (journal_prune s t) as Hj end.
    injection Hj as _ -> ->. done. }
  destruct (apply_replicated_op _ _ _ _) as [st3| |] eqn:E3; [|done..].
  apply journal_replay in E3. injection E3 as _ I3 F3.
  destruct (if retire_dead _ then _ else _) as [st4| |] eqn:E4; [|done..].
  assert (journal st4 = journal st3) as J4.
  { destruct (retire_dead _); [by apply retire_all_journal in E4|by injection E4 as <-]. }
  injection J4 as _ I4 F4. destruct (start_command st4 e) as [st5| |] eqn:E5; [|done..].
  assert (journal st5 = journal st4) as J5
    by (unfold start_command, ok_or in E5; by rust_cases).
  injection J5 as _ I5 F5. destruct (replay_rotations _ _ _) as [st6| |] eqn:E6; [|done..].
  apply replay_rotations_journal in E6. injection E6 as _ I6 F6.
  destruct (finish_continuation _ _) as [st7| |] eqn:E7; [|done..].
  assert (journal st7 = journal st6) as J7 by (unfold finish_continuation in E7; by rust_cases).
  injection J7 as _ I7 F7. destruct (_ <? _) eqn:Hcap; [done|]. to_prop. intros [= <-].
  split; [cbn; congruence|]. split; [cbn; congruence|exact Hcap].
Qed.

(** One replayed entry, from application to the journal. *)
Lemma replayed_bounded st e st1 st2 u :
  policy_validate (replay_policy e) = Ok u →
  apply_committed_replication_entry cfg st e = Ok st1 →
  push_entry (apply_visible_recovery_boundary st1 e) e (max_replication_entries (limits cfg)) = Ok st2 →
  bounded st2.
Proof.
  intros [Hf Hi]%policy_validate_limits (Ef & Ei & Hcap)%apply_committed_limits Hp.
  destruct (push_entry_total (apply_visible_recovery_boundary st1 e) e) as (c & log & E & Hl).
  rewrite E in Hp. injection Hp as <-.
  assert (∀ l, bounded (with_log (apply_visible_recovery_boundary st1 e) c (sequence e) l)
               ↔ bounded (with_log st1 c (sequence e) l)) as ->.
  { intros l. unfold apply_visible_recovery_boundary. by case_match. }
  split; [exact Hcap|]. split; [exact Hl|]. st_simpl. rewrite Ef, Ei. exact (conj Hf Hi).
Qed.

Lemma entry_validate_policy e u :
  entry_validate e = Ok u → ∃ v, policy_validate (replay_policy e) = Ok v.
Proof.
  unfold entry_validate. destruct (validate_sequence e); [|done..].
  destruct (policy_validate _) as [v| |]; [|done..]. by exists v.
Qed.

Lemma replicate_entry_bounded b e b' :
  bounded (inner b) → replicate_entry cfg b e = Ok b' → bounded (inner b').
Proof.
  intros Hb. unfold replicate_entry. intros Hr.
  destruct (entry_validate e) as [u| |] eqn:Hv; [|done..]. apply entry_validate_policy in Hv as [v Hv].
  destruct (contains_create _); [done|]. destruct (_ <=? _).
  { destruct (_ <=? _); [by injection Hr as <-|]. destruct (List.find _ _); [|done].
    case_bool_decide; [by injection Hr as <-|done]. }
  destruct (replication_entry_follows _ _) as [[]| |]; [|done..].
  cbn [negb] in Hr. destruct (apply_committed_replication_entry _ _ _) as [st1| |] eqn:E1; [|done..].
  destruct (push_entry _ _ _) as [st2| |] eqn:E2; [|done..]. injection Hr as <-.
  by eapply replayed_bounded.
Qed.

Lemma rebuild_bounded entries : ∀ previous st st' u,
  bounded st → validate_replication_prefix previous entries = Ok u →
  replay_entries cfg st entries = Ok st' → bounded st'.
Proof.
  induction entries as [|e entries IH]; intros previous st st' u Hb; cbn; [by intros _ [= <-]|].
  destruct (entry_validate e) as [w| |] eqn:Hv; [|done..]. apply entry_validate_policy in Hv as [v Hv].
  destruct (map_err _ _) as [[]| |]; cbn [negb]; [|done..]. intros Hpre.
  destruct (apply_committed_replication_entry _ _ _) as [st1| |] eqn:E1; [|done..].
  destruct (push_entry _ _ _) as [st2| |] eqn:E2; [|done..].
  eapply IH; [|exact Hpre]. by eapply replayed_bounded.
Qed.

(** ** Reachable states *)

(** The call a command stands for returns, and so does every slot of a batch. *)
Definition command_returns (b : Backend) (sampled : Z) (c : Command) : Prop :=
  match c with
  | CmdGet _ => True
  | CmdCompareAndSet c => returns (compare_and_set cfg b sampled c).2
  | CmdDeleteFenced g => returns (delete_fenced cfg b sampled g).2
  | CmdRefreshTtl g ttl => returns (refresh_ttl cfg b sampled g ttl).2
  | CmdAcquire k o ttl => returns (acquire cfg b sampled k o ttl).2
  | CmdRenew g ttl => returns (renew cfg b sampled g ttl).2
  | CmdRelease g => returns (release cfg b sampled g).2
  | CmdBatch ops =>
      returns (batch cfg b sampled ops).2
      ∧ ∀ l, (batch cfg b sampled ops).2 = Ok l → Forall slot_returns l
  end.

Lemma exec_total b sampled c :
  store_ok (inner b) → bounded (inner b) →
  bounded (inner (exec cfg b sampled c)) ∧ command_returns b sampled c.
Proof.
  intros Hok Hb. destruct c; cbn [exec command_returns];
    [|by apply compare_and_set_total|by apply delete_fenced_total|by apply refresh_ttl_total
    |by apply acquire_total|by apply renew_total|by apply release_total|by apply batch_total].
  unfold get. by rewrite get_for_read_inner.
Qed.

Hypothesis Hkeys : 0 ≤ max_tracked_keys (limits cfg).

Lemma empty_bounded : bounded empty_state.
Proof.
  unfold bounded, saturating_add, tracked. cbn [key_fences internal_key_count replication_log
    async_fence_floor empty_state]. rewrite map_size_empty.
  change (len (@nil ReplicationEntry)) with 0. unfold U64_MAX, I64_MAX,
    MAX_REPLICATION_INTERNAL_KEYS. lia.
Qed.

Lemma step_bounded b b' : store_ok (inner b) → bounded (inner b) → step cfg b b' → bounded (inner b').
Proof.
  intros Hok Hb Hs. revert Hok Hb. destruct Hs as [b0 t c|b0 e b1 _ He|b0 entries b1 _ He]; intros Hok Hb;
    [exact (proj1 (exec_total b0 t c Hok Hb))| |].
  - by eapply replicate_entry_bounded.
  - unfold rebuild_replication_state, stage_rebuilt_replication_state in He.
    destruct (validate_replication_prefix _ _) eqn:Hv; [|done..]. destruct (existsb _ _); [done|].
    destruct (replay_entries _ _ _) as [st| |] eqn:Hr; [|done..]. injection He as <-.
    exact (rebuild_bounded entries _ _ _ _ empty_bounded Hv Hr).
Qed.

Lemma reachable_bounded b : reachable cfg b → store_ok (inner b) ∧ bounded (inner b).
Proof.
  intros Hr. unfold reachable in Hr. remember empty_backend as b0 eqn:E.
  assert (H0 : store_ok (inner b0) ∧ bounded (inner b0))
    by (subst; split; [apply empty_state_ok|apply empty_bounded]). clear E.
  induction Hr as [b|b b1 b2 Hs _ IH]; [exact H0|]. apply IH. destruct H0 as [Hok Hb].
  split; [exact (step_ok _ _ _ Hs Hok)|exact (step_bounded _ _ Hok Hb Hs)].
Qed.
End Limits.

(** C35.  Commands terminate: in every reachable state every call of the backend and
    of the lease manager returns, with a result or an error, and so does every slot
    of a batch.  The retirement, rotation and capacity loops and the traversals of
    the journalled operation all end, and the journal is never indexed out of
    range. *)
Theorem commands_return `{TimestampRange} cfg b sampled c :
  0 ≤ max_tracked_keys (limits cfg) → 0 ≤ max_replication_entries (limits cfg) →
  reachable cfg b → command_returns cfg b sampled c.
Proof.
  intros Hk He Hr. destruct (reachable_bounded cfg He Hk b Hr) as [Hok Hb].
  exact (proj2 (exec_total cfg He b sampled c Hok Hb)).
Qed.

Lemma commands_return_witness :
  command_returns (H := sample_range) sample_config sample_acquire.1 20 (CmdCompareAndSet sample_cas)
  ∧ (compare_and_set (H := sample_range) sample_config sample_acquire.1 20 sample_cas).2 = Ok CasSuccess.
Proof.
  split; [|by vm_compute].
  apply (commands_return (H := sample_range) sample_config sample_acquire.1 20
           (CmdCompareAndSet sample_cas)); [by vm_compute..|apply sample_reachable].
Defined.

(** C36.  Resources stay bounded: in every reachable state, after client commands,
    replicated entries and rebuilds in any order, the tracked keys with the internal
    ones do not exceed the configured number of keys, and the journal does not
    exceed the configured number of entries. *)
Theorem resources_bounded `{TimestampRange} cfg b :
  0 ≤ max_tracked_keys (limits cfg) → 0 ≤ max_replication_entries (limits cfg) →
  reachable cfg b →
  saturating_add (tracked (inner b)) (internal_key_count (inner b)) ≤ max_tracked_keys (limits cfg)
  ∧ len (replication_log (inner b)) ≤ max_replication_entries (limits cfg).
Proof.
  intros Hk He Hr. destruct (reachable_bounded cfg He Hk b Hr) as (_ & Hc & Hl & _).
  exact (conj Hc Hl).
Qed.

Lemma resources_bounded_witness :
  saturating_add (tracked (inner sample_acquire.1)) (internal_key_count (inner sample_acquire.1))
    ≤ max_tracked_keys (limits sample_config)
  ∧ len (replication_log (inner sample_acquire.1)) = 1.
Proof.
  split; [|by vm_compute].
  exact (proj1 (resources_bounded (H := sample_range) sample_config sample_acquire.1
                  ltac:(by vm_compute) ltac:(by vm_compute) sample_reachable)).
Defined.

(** ** Admission

    What [ensure_key_capacity] lets through, the commit does not refuse: the keys it
    counts as dead are retired, and rotations forget retired keys until the limit is
    met. *)

(** Counters that allow [n] more rotations. *)
Definition room (n : Z) (st : FakeBackendState) : Prop :=
  next_fence st + n ≤ U64_MAX ∧ epoch (key_retention st) + n ≤ U64_MAX.

Lemma forget_all_err st l e :
  forget_all st l = Err e → e = BackendUnavailable "fake exact retirement index differs".
Proof.
  revert st. induction l as [|[ep k] l IH]; intros st; cbn [forget_all forget_retired]; [done|].
  destruct (_ || _); [congruence|]. apply IH.
Qed.

Lemma rotate_room n st reason :
  store_ok st → 0 ≤ n → room (n + 1) st →
  ∃ st', rotate_keys st reason = Ok st' ∧ rotated st st' ∧ room n st' ∧ unretired st' ⊆ unretired st.
Proof.
  intros Hok Hn [Hf He]. pose proof (ok_floor _ _ Hok). pose proof (ok_retention _ _ Hok) as Hv.
  rewrite retention_valid_iff in Hv. destruct Hv as (? & ? & ? & _).
  destruct (rotate_keys_with_floor_spec st reason (async_fence_floor st) Hok ltac:(lia))
    as [E|(st' & E & Hr)]; unfold rotate_keys; rewrite E.
  - exfalso. revert E. unfold rotate_keys_with_floor, rotate. unfold U64_MAX in *.
    repeat (rewrite checked_add_ok by (unfold USIZE_MAX; lia); cbn [ok_or]).
    rewrite (proj2 (Z.ltb_ge _ _)) by lia. destruct (checked_sub _ _); [|done].
    intros E%forget_all_err. done.
  - exists st'. split; [done|]. split; [done|].
    apply rotate_keeps in E as (_ & Hu & r & m & t & Hrot & <- & <-). split; [|done].
    apply rotate_inv in Hrot as (E1 & E2 & E3 & _ & _ & _ & E4 & _). unfold room. lia.
Qed.

(** A key that holds nothing and whose fence has been allocated past. *)
Definition dead (st : FakeBackendState) (k : SessionKey) : Prop :=
  records st !! k = None ∧ leases st !! k = None ∧ scope_key k = false
  ∧ ∀ f, key_fences st !! k = Some f → f < next_fence st.

Lemma dead_settled st st' k : settled st st' → dead st k → dead st' k.
Proof.
  intros [_ (_ & Hn & _) Hr Hl Hf _ _ _] (Dr & Dl & Ds & Df). unfold dead. rewrite Hr, Hl.
  split_and!; try done. intros f Hk%Hf%Df. lia.
Qed.

(** Retiring one candidate: a dead one is not tracked unretired afterwards. *)
Lemma retire_key_room n st k :
  store_ok st → 0 ≤ n → room (n + 1) st →
  ∃ st', retire_key st k = Ok st' ∧ settled st st' ∧ room n st' ∧ unretired st' ⊆ unretired st
         ∧ (dead st k → k ∉ unretired st').
Proof.
  intros Hok Hn Hroom. pose proof (retire_key_settles st k Hok) as Hs. revert Hs.
  assert (room n st) as Hroom' by (unfold room in *; lia).
  unfold retire_key, has_key.
  destruct (bool_decide (is_Some (records st !! k)) || bool_decide (is_Some (leases st !! k))) eqn:Hlive.
  { rewrite orb_true_iff, !bool_decide_eq_true in Hlive. intros Hs.
    assert (retired_keys st !! k = None) as Hnr by (by apply live_not_retired).
    revert Hs. unfold unretire. rewrite Hnr. intros Hs. exists st. split_and!; try done.
    intros (Dr & Dl & _). rewrite Dr, Dl in Hlive. by destruct Hlive as [[]|[]]. }
  destruct (scope_key k || bool_decide (is_Some (retired_keys st !! k))) eqn:Hsc.
  { intros Hs. exists st. split_and!; try done. intros (_ & _ & Ds & _).
    rewrite Ds in Hsc. apply bool_decide_eq_true in Hsc. unfold unretired.
    rewrite elem_of_difference, !elem_of_dom. tauto. }
  destruct (key_fences st !! k) as [f|] eqn:Hf; cycle 1.
  { intros Hs. exists st. split_and!; try done. intros _. unfold unretired.
    rewrite elem_of_difference, !elem_of_dom, Hf. by intros [[] _]. }
  destruct (Z.leb_spec (next_fence st) f).
  { intros Hs. exists st. split_and!; try done. intros (_ & _ & _ & Df). specialize (Df f Hf). lia. }
  rewrite orb_false_iff, !bool_decide_eq_false, <- !eq_None_not_Some in Hlive.
  rewrite orb_false_iff, bool_decide_eq_false, <- eq_None_not_Some in Hsc.
  destruct Hlive as [Hr Hl], Hsc as [Hsc Hnr].
  pose proof (ok_retention_nonneg _ _ Hok) as (_ & _ & _ & Hc0).
  pose proof (ok_retention _ _ Hok) as Hv. rewrite retention_valid_iff in Hv.
  destruct Hv as (_ & _ & _ & Hc1 & _). unfold RETIRED_KEYS_PER_EPOCH in Hc1.
  rewrite checked_add_ok by (unfold USIZE_MAX; lia). cbn [ok_or].
  fold (retire_in st k f (retired_count (key_retention st) + 1)). cbn [retired_count].
  assert (∀ c, unretired (retire_in st k f c) = unretired st ∖ {[k]}) as Hu.
  { intros c. unfold unretired, retire_in. st_simpl. rewrite dom_insert_L. set_solver. }
  destruct (Z.eqb_spec (retired_count (key_retention st) + 1) RETIRED_KEYS_PER_EPOCH).
  - change (settles st (rotate_keys (retire_in st k f 1) Threshold) →
            ∃ st', rotate_keys (retire_in st k f 1) Threshold = Ok st' ∧ settled st st' ∧ room n st'
                   ∧ unretired st' ⊆ unretired st ∧ (dead st k → k ∉ unretired st')).
    assert (store_ok (retire_in st k f 1)) as Hok1 by (apply retire_in_ok; done || lia).
    destruct (rotate_room n (retire_in st k f 1) Threshold Hok1 Hn Hroom) as (st' & -> & _ & Hr' & Hu').
    intros Hs. rewrite Hu in Hu'. exists st'. split_and!; try done; set_solver.
  - intros Hs. exists (retire_in st k f (retired_count (key_retention st) + 1)).
    split; [done|]. split; [exact Hs|]. split; [exact Hroom'|]. rewrite Hu. set_solver.
Qed.

Lemma retire_all_room l : ∀ n st,
  store_ok st → 0 ≤ n → room (len l + n) st →
  ∃ st', retire_all st l = Ok st' ∧ settled st st' ∧ room n st'
         ∧ ∀ k, k ∈ unretired st' → k ∈ unretired st ∧ (k ∈ l → ¬ dead st k).
Proof.
  induction l as [|k l IH]; intros n st Hok Hn Hroom.
  { exists st. rewrite len_nil in Hroom. split; [done|]. split; [by apply settled_refl|].
    split; [done|]. intros k Hk. split; [done|]. by intros ?%not_elem_of_nil. }
  rewrite len_cons in Hroom. pose proof (len_nonneg l).
  destruct (retire_key_room (len l + n) st k) as (st1 & E & Hs & Hr & Hu & Hd);
    [done|lia|unfold room in *; lia|].
  destruct (IH n st1) as (st' & E' & Hs' & Hr' & Hu'); [apply Hs|done|done|].
  exists st'. cbn. rewrite E. split; [done|]. split; [by eapply settled_trans|]. split; [done|].
  intros x Hx. destruct (Hu' x Hx) as [Hx1 Hnd]. split; [set_solver|].
  intros [->|Hxl]%elem_of_cons Hdead; [by apply Hd|].
  apply Hnd; [done|]. by eapply dead_settled.
Qed.

Lemma tracked_unretired st : retired_keys st = ∅ → tracked st = Z.of_nat (size (unretired st)).
Proof.
  intros Hr. unfold tracked, unretired. rewrite Hr, dom_empty_L, difference_empty_L.
  by rewrite size_dom.
Qed.

Lemma finalize_loop_room n st maximum rotations :
  store_ok st → rotations_left n st → room (Z.of_nat n) st →
  saturating_add (Z.of_nat (size (unretired st))) (internal_key_count st) ≤ maximum →
  ∃ st' m, finalize_loop (S n) st maximum rotations = Ok (st', m).
Proof.
  revert st rotations. induction n as [|n IH]; intros st rotations Hok Hleft Hroom Hcap;
    rewrite finalize_loop_S;
    (destruct (Z.ltb_spec maximum (saturating_add (tracked st) (internal_key_count st)));
     [|by eexists _, _]); unfold saturating_add in *.
  - exfalso. cbn in Hleft. rewrite (tracked_unretired st Hleft) in *. lia.
  - case_bool_decide as Hr; [exfalso; rewrite (tracked_unretired st Hr) in *; lia|].
    destruct (rotate_room (Z.of_nat n) st Capacity) as (st1 & -> & Hrot & Hroom1 & Hu);
      [done|lia|unfold room in *; lia|].
    apply IH; [apply Hrot|by eapply rotated_left|done|].
    rewrite (rot_internal _ _ Hrot). apply subseteq_size in Hu. lia.
Qed.

(** The commit of a state whose keys, but for dead candidates, fit. *)
Lemma finalize_direct_room cfg st seq o now (K : gset SessionKey) :
  0 ≤ max_replication_entries (limits cfg) → store_ok st →
  room (len (elements (retirement_candidates st)) + 2) st →
  (∀ k, k ∈ unretired st → k ∈ K ∨ k ∈ retirement_candidates st ∧ dead st k) →
  saturating_add (Z.of_nat (size K)) (internal_key_count st) ≤ max_tracked_keys (limits cfg) →
  async_fence_floor st ≤ I64_MAX - 2 → internal_key_count st ≤ MAX_REPLICATION_INTERNAL_KEYS →
  validate_structure o = Ok () → ∃ st', finalize_direct cfg st seq o now = Ok st'.
Proof.
  intros Hmax Hok Hroom HK Hcap Hfl Hin Ho. unfold finalize_direct, retire_dead_keys.
  set (l := sort_keys (elements (retirement_candidates st))).
  assert (l ≡ₚ elements (retirement_candidates st)) as Hl by apply sort_keys_perm.
  destruct (retire_all_room l 2 (with_candidates st ∅)) as (st1 & E1 & Hs1 & Hr1 & Hu1);
    [by apply candidates_ok|done|unfold room, len in *; by rewrite Hl|].
  rewrite E1. pose proof (set_internal _ _ Hs1) as Ei. pose proof (set_floor _ _ Hs1) as Ef.
  cbn [internal_key_count async_fence_floor with_candidates] in Ei, Ef.
  destruct (finalize_loop_room 2 st1 (max_tracked_keys (limits cfg)) 0) as (st2 & m & E2);
    [apply Hs1|done|done| |].
  { assert (unretired st1 ⊆ K) as Hsub%subseteq_size by
      (intros k Hk; destruct (Hu1 k Hk) as [Hk0 Hd]; destruct (HK k Hk0) as [?|[Hc Hdd]]; [done|];
       exfalso; apply Hd; [rewrite Hl; by apply elem_of_elements|done]).
    unfold saturating_add in *. lia. }
  pose proof (finalize_key_capacity_spec st1 (max_tracked_keys (limits cfg)) (set_ok _ _ Hs1)) as [Hf Hm].
  unfold finalize_key_capacity in *. rewrite E2 in *. destruct Hf as [Hs2 _].
  specialize (Hm st2 m eq_refl).
  rewrite <- (set_floor _ _ Hs2) in Ef. rewrite <- (set_internal _ _ Hs2) in Ei.
  assert ((match seq with Some _ => validate_structure o | None => Ok () end) = Ok ()) as ->
    by (by destruct seq).
  unfold policy_validate. cbn [policy_async_fence_floor capacity_rotations policy_internal_key_count
    command recovery].
  rewrite !(proj2 (Z.ltb_ge _ _)) by lia. cbn [orb]. unfold append_direct_replication_entry.
  destruct seq as [s|]; [|by eexists].
  match goal with |- context [push_entry st2 ?e _] =>
    destruct (push_entry_total cfg Hmax st2 e) as (c & log & -> & _) end. by eexists.
Qed.

(** *** The state an acquisition stages *)

(** Leases only end or are made inactive. *)
Definition leases_shrink (st st' : FakeBackendState) : Prop :=
  ∀ k l', leases st' !! k = Some l' →
    ∃ l, leases st !! k = Some l ∧ owner l = owner l' ∧ expires_at l = expires_at l'
         ∧ (active l' = true → active l = true).

#[export] Instance leases_shrink_preorder : PreOrder leases_shrink.
Proof.
  split.
  - intros st k l Hl. by exists l.
  - intros a b c Hab Hbc k l'' Hl''. destruct (Hbc k l'' Hl'') as (l' & Hl' & ? & ? & ?).
    destruct (Hab k l' Hl') as (l & ? & ? & ? & ?). exists l. split_and!; [done|congruence..|auto].
Qed.

Lemma leases_shrink_floor k st : leases_shrink st (apply_async_floor_to_key st k).
Proof.
  intros k' l' Hl. destruct (decide (k = k')) as [<-|Hne].
  - rewrite apply_floor_lease in Hl. destruct (leases st !! k) as [l|]; [|done].
    injection Hl as <-. exists l. split_and!; [done..|]. cbn. rewrite !andb_true_iff. tauto.
  - rewrite apply_floor_lease_ne in Hl by done. by exists l'.
Qed.

Lemma leases_shrink_fold (step : FakeBackendState → SessionKey → FakeBackendState) keys st :
  (∀ st k, leases_shrink st (step st k)) → leases_shrink st (fold_left step keys st).
Proof.
  intros Hs. revert st. induction keys as [|k keys IH]; intros st; [done|]. cbn.
  etrans; [apply Hs|apply IH].
Qed.

Lemma leases_shrink_prune st now : leases_shrink st (prune_state st now).
Proof.
  unfold prune_state. cbv zeta. etrans; apply leases_shrink_fold; intros st' k.
  - apply leases_shrink_floor.
  - etrans; [apply (leases_shrink_floor k)|]. intros k' l'. unfold prune_lease, add_candidate.
    st_simpl. intros [_ Hl]%lookup_delete_Some. by exists l'.
Qed.

Lemma dom_floor k st : dom (key_fences (apply_async_floor_to_key st k)) = dom (key_fences st).
Proof.
  unfold apply_async_floor_to_key. destruct (key_fences st !! k) as [f|] eqn:Hf; cycle 1.
  { repeat case_match; done. }
  assert (dom (<[k := f `max` async_fence_floor st]> (key_fences st)) = dom (key_fences st)) as Hd
    by (by apply dom_insert_lookup_L; eexists).
  repeat case_match; exact Hd.
Qed.

Lemma dom_prune st now : dom (key_fences (prune_state st now)) = dom (key_fences st).
Proof.
  unfold prune_state. cbv zeta.
  rewrite !(fold_keeps (λ st, dom (key_fences st))); [done|..]; intros st' k; exact (dom_floor k st').
Qed.

(** The dead candidates the admission check discounts. *)
Definition pending_dead (st : FakeBackendState) : list SessionKey :=
  List.filter
    (λ k, negb (scope_key k) && negb (has_key (retired_keys st) k)
          && negb (has_key (records st) k) && negb (has_key (leases st) k)
          && fence_below_allocation st k)
    (elements (retirement_candidates st)).

Lemma has_key_false {A} (m : gmap SessionKey A) k : has_key m k = false ↔ m !! k = None.
Proof. unfold has_key. by rewrite bool_decide_eq_false, eq_None_not_Some. Qed.

Lemma elem_of_pending_dead st x :
  x ∈ pending_dead st ↔ x ∈ retirement_candidates st ∧ dead st x ∧ x ∈ unretired st.
Proof.
  unfold pending_dead. rewrite list_elem_of_In, filter_In, <- list_elem_of_In, elem_of_elements.
  rewrite !andb_true_iff, !negb_true_iff, !has_key_false.
  unfold fence_below_allocation, unretired, dead. rewrite elem_of_difference, !elem_of_dom.
  rewrite <- eq_None_not_Some. destruct (key_fences st !! x) as [f|].
  - rewrite Z.ltb_lt. split; [naive_solver|]. intros (? & (? & ? & ? & Hf) & _ & ?).
    split_and!; try done. by apply Hf.
  - split; [naive_solver|]. by intros (_ & _ & [] & _).
Qed.

(** What the admission check of an untracked key counts. *)
Lemma admission_counts st k max_keys :
  store_ok st → key_fences st !! k = None → ensure_key_capacity st k max_keys = Ok () →
  ∃ K : gset SessionKey,
    (∀ x, x ∈ unretired st → x ∈ K ∨ x ∈ retirement_candidates st ∧ dead st x)
    ∧ saturating_add (Z.of_nat (size K)) (internal_key_count st) < max_keys.
Proof.
  intros Hok Hk. unfold ensure_key_capacity. unfold has_key at 1. rewrite Hk.
  rewrite bool_decide_false by (by intros []). cbn [orb].
  destruct (_ <? max_keys) eqn:Hcap; to_prop.
  { intros _. exists (dom (key_fences st)). split; [unfold unretired; set_solver|].
    by rewrite size_dom. }
  fold (pending_dead st). set (P := pending_dead st).
  destruct (checked_sub (tracked st) _) as [c|] eqn:H1; [|done].
  destruct (checked_sub c (len P)) as [live|] eqn:H2; [|done]. cbn [ok_or].
  apply checked_sub_some in H1 as [-> H1], H2 as [-> H2].
  destruct (_ <? max_keys) eqn:Hlive; [|done]. intros _. to_prop.
  pose proof (elem_of_pending_dead st) as HP. fold P in HP.
  exists (unretired st ∖ list_to_set P). split.
  - intros x Hx. destruct (decide (x ∈ P)) as [HxP|HxP]; [right; by apply HP in HxP as (? & ? & _)|left].
    rewrite elem_of_difference, elem_of_list_to_set. done.
  - assert (size (unretired st ∖ list_to_set P) = (size (unretired st) - length P)%nat) as ->.
    { rewrite size_difference; [|intros x; rewrite elem_of_list_to_set, HP; tauto].
      rewrite size_list_to_set; [done|].
      apply NoDup_ListNoDup, List.NoDup_filter, NoDup_ListNoDup, NoDup_elements. }
    assert (size (unretired st) = (size (key_fences st) - size (retired_keys st))%nat) as ->.
    { unfold unretired. rewrite size_difference, !size_dom; [done|].
      intros x [e He]%elem_of_dom. destruct (ok_retired _ _ Hok x e ltac:(done) He)
        as (_ & _ & _ & _ & f & Hf & _). apply elem_of_dom. by exists f. }
    unfold saturating_add, tracked, len in *. lia.
Qed.

(** The state staged by an acquisition, before the commit. *)
Definition acquired (st : FakeBackendState) (k : SessionKey) (f c : Z) (l : LeaseEntry) :
  FakeBackendState :=
  set_fence (with_lease (with_counters st (saturating_add f 1) (saturating_add c 1)) k l) k f.

Lemma acquired_fields st k f c l :
  let st' := acquired st k f c l in
  key_fences st' = <[k := f]> (key_fences st) ∧ retired_keys st' = delete k (retired_keys st)
  ∧ retirement_candidates st' = {[k]} ∪ retirement_candidates st
  ∧ records st' = records st ∧ leases st' = <[k := l]> (leases st)
  ∧ key_retention st' = key_retention st ∧ next_fence st' = saturating_add f 1
  ∧ journal st' = journal st.
Proof.
  cbn. unfold acquired, set_fence, unretire, has_key, with_lease. st_simpl.
  rewrite lookup_insert_eq, (bool_decide_true (is_Some (Some l))), orb_true_r by (by eexists).
  destruct (retired_keys st !! k) as [e|] eqn:Hr; st_simpl; split_and!; try done.
  by rewrite delete_id.
Qed.

Lemma floor_untracked st k :
  store_ok st → key_fences st !! k = None → apply_async_floor_to_key st k = st.
Proof.
  intros Hok Hk. unfold apply_async_floor_to_key. rewrite Hk.
  destruct (leases st !! k) as [l|] eqn:Hl; [|done].
  destruct (ok_leases _ _ Hok k l ltac:(done) Hl) as (_ & _ & f & Hf & _). congruence.
Qed.

Lemma floor_candidates st k :
  retirement_candidates (apply_async_floor_to_key st k) = retirement_candidates st.
Proof. unfold apply_async_floor_to_key. by repeat case_match. Qed.

(** The keys of the staged state that retirement cannot remove fit the limit. *)
Lemma acquired_fits cfg p k f c l :
  store_ok p → next_fence p ≤ f → f + 1 ≤ U64_MAX →
  ensure_key_capacity (apply_async_floor_to_key p k) k (max_tracked_keys (limits cfg)) = Ok () →
  saturating_add (tracked p) (internal_key_count p) ≤ max_tracked_keys (limits cfg) →
  let st := acquired (apply_async_floor_to_key p k) k f c l in
  ∃ K : gset SessionKey,
    (∀ x, x ∈ unretired st → x ∈ K ∨ x ∈ retirement_candidates st ∧ dead st x)
    ∧ saturating_add (Z.of_nat (size K)) (internal_key_count p) ≤ max_tracked_keys (limits cfg).
Proof.
  intros Hok Hf Hu Hens Hcap st.
  destruct (acquired_fields (apply_async_floor_to_key p k) k f c l)
    as (Ek & Er & Ec & Erec & El & _ & En & _). fold st in Ek, Er, Ec, Erec, El, En.
  rewrite floor_candidates in Ec. destruct (key_fences p !! k) as [f0|] eqn:Hk.
  - exists (dom (key_fences p)). split; [|rewrite size_dom; exact Hcap]. intros x Hx. left.
    unfold unretired in Hx. rewrite Ek, dom_insert_L, dom_floor in Hx.
    apply elem_of_difference in Hx as [[->%elem_of_singleton|Hx]%elem_of_union _]; [|exact Hx].
    apply elem_of_dom. by exists f0.
  - rewrite (floor_untracked p k Hok Hk) in *.
    destruct (admission_counts p k _ Hok Hk Hens) as (K & HK & Hsize).
    exists ({[k]} ∪ K). split.
    + intros x Hx. destruct (decide (x = k)) as [->|Hne];
        [left; by apply elem_of_union_l, elem_of_singleton|].
      assert (x ∈ unretired p) as Hxp.
      { clear -Hx Hne Ek Er. unfold unretired in *.
        rewrite Ek, Er, dom_insert_L, dom_delete_L in Hx. set_solver. }
      destruct (HK x Hxp) as [?|[Hc (Dr & Dl & Ds & Df)]]; [left; by apply elem_of_union_r|right].
      split; [rewrite Ec; by apply elem_of_union_r|]. unfold dead. rewrite Erec, El, Ek, En.
      split_and!; [done|by rewrite lookup_insert_ne|done|]. intros g. rewrite lookup_insert_ne by done.
      intros Hg%Df. unfold saturating_add. lia.
    + pose proof (size_union_alt ({[k]} : gset SessionKey) K) as Hs. rewrite size_singleton in Hs.
      assert (size (K ∖ {[k]}) ≤ size K)%nat by (apply subseteq_size, subseteq_difference_l; done).
      unfold saturating_add in *. lia.
Qed.

Lemma acquired_commits cfg p k f c l seq o now :
  0 ≤ max_replication_entries (limits cfg) → store_ok p →
  store_ok (acquired (apply_async_floor_to_key p k) k f c l) → f = next_fence p →
  room (len (elements (retirement_candidates p)) + 4) p →
  ensure_key_capacity (apply_async_floor_to_key p k) k (max_tracked_keys (limits cfg)) = Ok () →
  bounded cfg p → validate_structure o = Ok () →
  ∃ st', finalize_direct cfg (acquired (apply_async_floor_to_key p k) k f c l) seq o now = Ok st'.
Proof.
  intros Hmax Hok Hok' -> Hroom Hens (Hcap & _ & Hfl & Hin) Ho.
  pose proof (len_nonneg (elements (retirement_candidates p))).
  destruct (acquired_fits cfg p k (next_fence p) c l) as (K & HK & Hsize);
    [done|lia|unfold room in *; lia|done|done|].
  destruct (acquired_fields (apply_async_floor_to_key p k) k (next_fence p) c l)
    as (_ & _ & Ec & _ & _ & Er & En & Ej). rewrite journal_floor in Ej.
  destruct (apply_floor_fields k p) as (_ & _ & _ & Er' & _).
  rewrite floor_candidates in Ec. set (st := acquired _ _ _ _ _) in *.
  assert (internal_key_count st = internal_key_count p) as Ei by exact (f_equal (λ j, j.1.2) Ej).
  assert (async_fence_floor st = async_fence_floor p) as Ef by exact (f_equal snd Ej).
  rewrite Er' in Er.
  apply (finalize_direct_room cfg st seq o now K Hmax Hok'); [|exact HK|..]; rewrite ?Ei, ?Ef;
    [|exact Hsize|exact Hfl|exact Hin|exact Ho].
  assert (len (elements (retirement_candidates st)) ≤ len (elements (retirement_candidates p)) + 1).
  { unfold len. rewrite Ec. change (length (elements ?X)) with (size X).
    pose proof (size_union_alt ({[k]} : gset SessionKey) (retirement_candidates p)) as Hs.
    rewrite size_singleton in Hs.
    assert (size (retirement_candidates p ∖ {[k]}) ≤ size (retirement_candidates p))%nat
      by (apply subseteq_size, subseteq_difference_l; done). lia. }
  unfold room in *. rewrite En, Er. unfold saturating_add. lia.
Qed.

(** ** A free key can be acquired *)

(** No one else holds an unexpired lease on the key. *)
Definition free_for (st : FakeBackendState) (k : SessionKey) (o : string) (now : Z) : Prop :=
  ∀ l, leases st !! k = Some l → active l = true → owner l = o ∨ expires_at l ≤ now.

Lemma free_staged st k o now :
  free_for st k o now →
  match leases (apply_async_floor_to_key (prune_state st now) k) !! k with
  | Some entry => active entry && negb (bool_decide (owner entry = o)) && (now <? expires_at entry)
  | None => false
  end = false.
Proof.
  intros Hfree. assert (leases_shrink st (apply_async_floor_to_key (prune_state st now) k)) as Hs
    by (etrans; [apply leases_shrink_prune|apply leases_shrink_floor]).
  destruct (leases _ !! k) as [l'|] eqn:Hl; [|done].
  destruct (Hs k l' Hl) as (l & Hl0 & Eo & Ee & Ha). destruct (active l') eqn:Hact; [|done].
  destruct (Hfree l Hl0 (Ha eq_refl)) as [Ho|He].
  - by rewrite bool_decide_true by congruence.
  - rewrite (proj2 (Z.ltb_ge now _)) by lia. apply andb_false_r.
Qed.

Lemma acquire_fence_ok st k :
  store_ok st → next_fence st < U64_MAX →
  let st0 := apply_async_floor_to_key st k in
  acquire_fence st0 k
  = Ok (with_counters st0 (saturating_add (next_fence st) 1) (saturating_add (next_credential_id st) 1),
        next_fence st, next_credential_id st).
Proof.
  intros Hok Hn st0. pose proof (apply_floor_ex k st (store_ok_open _ _ Hok)) as Hok0. fold st0 in Hok0.
  destruct (apply_floor_fields k st) as (_ & _ & _ & _ & _ & En & Ec & _). fold st0 in En, Ec.
  pose proof (current_below_next k st0 Hok0 ltac:(lia)) as Hcur. unfold acquire_fence.
  rewrite checked_add_ok by (unfold USIZE_MAX, U64_MAX in *; lia). cbn [ok_or].
  rewrite Z.max_l, En, Ec by lia. reflexivity.
Qed.

Lemma next_sequence_ok cfg st :
  pending_replay_command st = None → last_replication_sequence st < U64_MAX →
  ∃ seq, next_direct_replication_sequence cfg st = Ok seq.
Proof.
  intros Hp Hs. unfold next_direct_replication_sequence, require_complete_replay_command.
  rewrite Hp. destruct (negb _); [by eexists|]. unfold next_replication_sequence.
  rewrite checked_add_ok by (unfold USIZE_MAX, U64_MAX in *; lia). by eexists.
Qed.

Lemma bounded_prune cfg st now : bounded cfg st → bounded cfg (prune_state st now).
Proof.
  intros (Hc & Hl & Hf & Hi). pose proof (journal_prune st now) as Hj.
  assert (replication_log (prune_state st now) = replication_log st) as E1
    by exact (f_equal (λ j, j.1.1) Hj).
  assert (internal_key_count (prune_state st now) = internal_key_count st) as E2
    by exact (f_equal (λ j, j.1.2) Hj).
  assert (async_fence_floor (prune_state st now) = async_fence_floor st) as E3
    by exact (f_equal snd Hj).
  unfold bounded. rewrite E1, E2, E3. split; [|exact (conj Hl (conj Hf Hi))].
  unfold tracked in *. rewrite <- size_dom, dom_prune, size_dom. exact Hc.
Qed.

(** C23.  Leases are granted: in a reachable state, when nobody else holds an unexpired
    lease on the key, the deadline is representable, no replicated command is half
    applied, the admission check passes, and the sequence, fence and epoch counters
    have room for the rotations of one commit, an acquisition succeeds, with the next
    fence and the next credential.  In particular the commit never refuses for
    capacity what the admission check let through. *)
Theorem free_key_acquired `{TimestampRange} cfg b sampled k o ttl deadline :
  let now := (command_time b sampled).1 in
  let p := prune_state (inner b) now in
  0 ≤ max_tracked_keys (limits cfg) → 0 ≤ max_replication_entries (limits cfg) →
  reachable cfg b → checked_session_deadline now ttl = Ok deadline →
  pending_replay_command (inner b) = None → last_replication_sequence (inner b) < U64_MAX →
  free_for (inner b) k o now →
  ensure_key_capacity (apply_async_floor_to_key p k) k (max_tracked_keys (limits cfg)) = Ok () →
  room (len (elements (retirement_candidates p)) + 4) p →
  ∃ b', acquire cfg b sampled k o ttl
        = (b', Ok {| lease_key := k; lease_owner := o; lease_fence := next_fence (inner b);
                     lease_acquired_at := now; lease_expires_at := deadline;
                     lease_credential_id := next_credential_id (inner b) |}).
Proof.
  intros now p Hk He Hr Hd Hpend Hseq Hfree Hens Hroom.
  destruct (reachable_bounded cfg He Hk b Hr) as [Hok Hb]. unfold acquire.
  assert (validate_session_ttl ttl = Ok ()) as Hv.
  { unfold checked_session_deadline in Hd. by destruct (validate_session_ttl ttl) as [[]| |]. }
  destruct (command_time b sampled) as [now' b1] eqn:Ht. cbn [fst] in now. subst now.
  apply command_time_spec in Ht as (E1 & _).
  rewrite Hv, Hd. cbn [map_err]. rewrite E1. fold p.
  pose proof (proj1 (prune_state_ok (inner b) now' Hok)) as Hp. fold p in Hp.
  pose proof (frame_prune (inner b) now') as Efr. fold p in Efr.
  assert (pending_replay_command p = pending_replay_command (inner b)) as Epend
    by exact (f_equal (λ j, j.1.2) Efr).
  assert (last_replication_sequence p = last_replication_sequence (inner b)) as Elast
    by exact (f_equal snd Efr).
  pose proof (allocation_prune (inner b) now') as Eal. fold p in Eal. injection Eal as En Ec.
  destruct (next_sequence_ok cfg p) as [seq ->]; [congruence|lia|]. cbn [map_err].
  pose proof (free_staged _ _ _ _ Hfree) as Hl. fold p in Hl. rewrite Hl, Hens. cbn [map_err].
  assert (next_fence p < U64_MAX) as Hn
    by (pose proof (len_nonneg (elements (retirement_candidates p))); unfold room in Hroom; lia).
  pose proof (acquire_fence_ok p k Hp Hn) as Hf. rewrite Hf.
  set (l := {| active := true |}).
  destruct (acquire_staged p k _ _ _ l Hp Hf eq_refl eq_refl) as ((Hok' & _) & _).
  destruct (acquired_commits cfg p k (next_fence p) (next_credential_id p) l seq
    (OpAcquireLease k o (next_fence p) (next_credential_id p) ttl deadline) now')
    as [st' Hst]; [done|done|exact Hok'|done|done|done|by apply bounded_prune|done|].
  unfold commit_direct_data. unfold acquired in Hst. rewrite Hst. cbn [map_err settle].
  rewrite En, Ec. by eexists.
Qed.

Lemma free_key_acquired_witness :
  ∃ b', acquire (H := sample_range) sample_config sample_acquire.1 200 (sample_key 1) "smf-2" 100
        = (b', Ok {| lease_key := sample_key 1; lease_owner := "smf-2"; lease_fence := 2;
                     lease_acquired_at := 200; lease_expires_at := 300;
                     lease_credential_id := 2 |}).
Proof.
  apply (free_key_acquired (H := sample_range) sample_config sample_acquire.1 200 (sample_key 1)
           "smf-2" 100 300); try (by vm_compute); [apply sample_reachable|].
  intros l. vm_compute. intros [= <-] _. right. done.
Defined.

(** ** Compare-and-set *)

(** The staged state of a write under the lease of its key commits. *)
Lemma put_commits cfg p k l r seq o now :
  0 ≤ max_replication_entries (limits cfg) → store_ok p → store_ok (put_record p k r (fence l)) →
  leases p !! k = Some l → active l = true →
  room (len (elements (retirement_candidates p)) + 4) p → bounded cfg p →
  validate_structure o = Ok () →
  ∃ st', finalize_direct cfg (put_record p k r (fence l)) seq o now = Ok st'.
Proof.
  intros Hmax Hok Hok' Hl Ha Hroom (Hcap & _ & Hfl & Hin) Ho.
  pose proof (active_fence _ _ _ Hok Hl Ha) as Hk. set (st := put_record p k r (fence l)) in *.
  assert (key_fences st = <[k := fence l]> (key_fences p) ∧ key_retention st = key_retention p
          ∧ async_fence_floor st = async_fence_floor p ∧ next_fence st = next_fence p)
    as (Ek & Er & Ef & En).
  { by destruct (set_fence_fields k (fence l) (with_records p (<[k := r]> (records p))))
      as (_ & _ & ? & ? & ? & ? & _). }
  assert (journal st = journal p) as Ej
    by exact (journal_set_fence k (fence l) (with_records p (<[k := r]> (records p)))).
  assert (internal_key_count st = internal_key_count p) as Ei by exact (f_equal (λ j, j.1.2) Ej).
  assert (retirement_candidates st = {[k]} ∪ retirement_candidates p) as Ec.
  { unfold st, put_record, set_fence, unretire. repeat case_match; done. }
  apply (finalize_direct_room cfg st seq o now (dom (key_fences p)) Hmax Hok').
  - assert (size (retirement_candidates st) ≤ size (retirement_candidates p) + 1)%nat as Hs.
    { rewrite Ec, size_union_alt, size_singleton.
      assert (size (retirement_candidates p ∖ {[k]}) ≤ size (retirement_candidates p))%nat
        by (apply subseteq_size, subseteq_difference_l; done). lia. }
    unfold room, len in *. change (length (elements ?X)) with (size X) in *. rewrite En, Er. lia.
  - intros x Hx. left. unfold unretired in Hx. rewrite Ek, dom_insert_lookup_L in Hx by (by eexists).
    by apply elem_of_difference in Hx as [? _].
  - rewrite size_dom, Ei. exact Hcap.
  - by rewrite Ef.
  - by rewrite Ei.
  - done.
Qed.

(** What a call has to satisfy to be answered: the capabilities are there, the record and
    the guard are for the key and agree, the record has a permitted expiry and size, and
    the guard is live. *)
Record cas_admitted `{TimestampRange} (cfg : Config) (st : FakeBackendState) (c : CompareAndSet)
    (now : Z) : Prop := {
  adm_expiry : validate_stored_record_expiry_at (new_record c) now = Ok ();
  adm_cas : atomic_compare_and_set (caps cfg) = true;
  adm_fencing : monotonic_fencing_token (caps cfg) = true;
  adm_key : lease_key (cas_lease c) = cas_key c;
  adm_record : rec_key (new_record c) = cas_key c;
  adm_owner : rec_owner (new_record c) = lease_owner (cas_lease c);
  adm_fence : rec_fence (new_record c) = lease_fence (cas_lease c);
  adm_size : len (payload_bytes (rec_payload (new_record c))) ≤ max_value_bytes (caps cfg);
  adm_guard : validate_fenced_mutation st (cas_lease c) now = Ok (cas_key c);
}.

Lemma cas_admitted_iff `{TimestampRange} cfg st c now :
  store_ok st →
  cas_admitted cfg st c now
  ↔ ∃ st' r, compare_and_set_with_state cfg st c now = Ok (st', r).
Proof.
  intros Hok. split.
  - intros [He Hc Hf Hk Hr Ho Hfe Hs Hg]. unfold compare_and_set_with_state.
    rewrite He, Hc, Hf, (bool_decide_true _ Hk), (bool_decide_true _ Hr), (bool_decide_true _ Ho).
    rewrite Hfe, Z.eqb_refl.
    rewrite (proj2 (Z.ltb_ge _ _)) by done. cbn [negb orb]. rewrite Hg.
    apply validate_fenced_mutation_iff in Hg as [_ [l Hl]].
    pose proof (live_guard_fence _ _ _ _ Hok Hl) as Hcur. rewrite Hk in Hcur.
    rewrite Hcur, Z.ltb_irrefl. unfold ensure_key_capacity, has_key.
    destruct Hl as [Hl Ha _ _ _ _ _ _ _]. rewrite Hk in Hl.
    rewrite (active_fence _ _ _ Hok Hl Ha), (bool_decide_true (is_Some _)) by (by eexists).
    cbn [orb]. repeat case_match; by eexists _, _.
  - intros (st' & r & Hc). pose proof Hc as (l & Hl & Ek & Er & Eo & Ef & Ev & _)%compare_and_set_staged.
    revert Hc. unfold compare_and_set_with_state. rewrite Ev.
    destruct (negb (atomic_compare_and_set _)) eqn:E1; [done|].
    destruct (negb (monotonic_fencing_token _)) eqn:E2; [done|].
    rewrite (bool_decide_true _ Ek), (bool_decide_true _ Er), (bool_decide_true _ Eo).
    rewrite Ef, Z.eqb_refl. cbn [negb orb].
    destruct (Z.ltb_spec (max_value_bytes (caps cfg)) (len (payload_bytes (rec_payload (new_record c)))));
      [done|].
    intros _. apply negb_false_iff in E1, E2. split; try done.
    rewrite <- Ek. by eapply validate_fenced_mutation_live.
Qed.

(** A commit has counters left, and no replicated command is half applied. *)
Record can_commit (cfg : Config) (b : Backend) (now : Z) : Prop := {
  can_keys : 0 ≤ max_tracked_keys (limits cfg);
  can_entries : 0 ≤ max_replication_entries (limits cfg);
  can_pending : pending_replay_command (inner b) = None;
  can_sequence : last_replication_sequence (inner b) < U64_MAX;
  can_room : let p := prune_state (inner b) now in
             room (len (elements (retirement_candidates p)) + 4) p;
}.

Lemma compare_and_set_answered `{TimestampRange} cfg b sampled c :
  let now := (command_time b sampled).1 in
  reachable cfg b → can_commit cfg b now →
  cas_admitted cfg (prune_state (inner b) now) c now →
  ∃ result, (compare_and_set cfg b sampled c).2 = Ok result.
Proof.
  intros now Hr [Hk He Hpend Hseq Hroom] Hadm.
  destruct (reachable_bounded cfg He Hk b Hr) as [Hok Hb]. unfold compare_and_set.
  destruct (command_time b sampled) as [now' b1] eqn:Ht. cbn [fst] in now. subst now.
  apply command_time_spec in Ht as (E1 & _).
  pose proof (get_for_read_inner b1 (cas_key c) now') as E2.
  destruct (get_for_read b1 (cas_key c) now') as [o b2]. cbn [snd] in E2. rewrite E2, E1.
  set (p := prune_state (inner b) now') in *.
  pose proof (proj1 (prune_state_ok (inner b) now' Hok)) as Hp. fold p in Hp.
  pose proof (frame_prune (inner b) now') as Efr. fold p in Efr.
  assert (pending_replay_command p = pending_replay_command (inner b)) as Epend
    by exact (f_equal (λ j, j.1.2) Efr).
  assert (last_replication_sequence p = last_replication_sequence (inner b)) as Elast
    by exact (f_equal snd Efr).
  rewrite (adm_expiry _ _ _ _ Hadm).
  destruct (next_sequence_ok cfg p) as [seq ->]; [congruence|lia|].
  apply cas_admitted_iff in Hadm as (st' & r & Hc); [|done]. rewrite Hc.
  case_bool_decide as Hs; [|by eexists]. subst r.
  pose proof (compare_and_set_advances _ _ _ _ _ _ Hp Hc) as [Hok' _].
  apply compare_and_set_staged in Hc as (l & Hl & Ek & _ & _ & _ & _ & _ & -> & _).
  destruct Hl as [Hl Ha _ _ Hf _ _ _ _]. rewrite Ek in Hl. rewrite <- Hf in *.
  destruct (put_commits cfg p (cas_key c) l (new_record c) seq (cas_op c) now')
    as [st2 Hst]; [done..|by apply bounded_prune|done|].
  unfold commit_direct_data. rewrite Hst. by eexists.
Qed.

(** A call that is not answered leaves the data. *)
Lemma compare_and_set_failed `{TimestampRange} cfg b sampled c b' answer :
  compare_and_set cfg b sampled c = (b', answer) → is_ok answer = false → inner b' = inner b.
Proof.
  unfold compare_and_set. destruct (command_time b sampled) as [now b1] eqn:Ht.
  apply command_time_spec in Ht as (E1 & _).
  pose proof (get_for_read_inner b1 (cas_key c) now) as E2.
  destruct (get_for_read b1 (cas_key c) now) as [o b2]. cbn in E2.
  match goal with |- settle b2 ?r = _ → _ => destruct r as [[b3 a]|e|] end;
    intros [= <- <-]; [done|congruence..].
Qed.

Lemma put_record_records st k r f : records (put_record st k r f) = <[k := r]> (records st).
Proof. exact (proj1 (set_fence_fields k f (with_records st (<[k := r]> (records st))))). Qed.

(** C22.  Compare-and-set on every branch, in every reachable state.  Success means that the
    call was admitted, that the live record was the expected one (or absent, for a
    creation), with a higher generation where the state class asks for one, and that the new
    record alone replaces it and is read back until it expires, unless the very same record
    was already there and a read had seen it expired: such a record stays hidden.  A
    conflict means that the call was admitted and the live record was another, which is
    reported, and nothing changes.  An error changes nothing, and while the store can commit
    it means that the call was not admitted. *)
Theorem compare_and_set_correct `{TimestampRange} cfg b sampled c b' answer :
  reachable cfg b → compare_and_set cfg b sampled c = (b', answer) →
  let now := (command_time b sampled).1 in
  let st := prune_state (inner b) now in
  let current := get_with_state st (cas_key c) now in
  match answer with
  | Ok CasSuccess =>
      cas_admitted cfg st c now
      ∧ cas_matches (expected_generation c) current (new_record c)
      ∧ records (inner b') = <[cas_key c := new_record c]> (records st)
      ∧ ∀ later, is_expired_at (new_record c) later = false →
          (get b' (cas_key c) later).1
          = if bool_decide (records (inner b) !! cas_key c = Some (new_record c))
               && (bool_decide (cas_key c ∈ read_expiry b) || is_expired_at (new_record c) now)
            then None else Some (new_record c)
  | Ok (CasConflictResult seen) =>
      cas_admitted cfg st c now
      ∧ ¬ cas_matches (expected_generation c) current (new_record c)
      ∧ seen = current ∧ inner b' = inner b
  | _ => inner b' = inner b ∧ (can_commit cfg b now → ¬ cas_admitted cfg st c now)
  end.
Proof.
  intros Hr Hc now st current. pose proof (reachable_ok cfg b Hr) as Hok.
  assert (is_ok answer = false → inner b' = inner b
          ∧ (can_commit cfg b now → ¬ cas_admitted cfg st c now)) as Herr.
  { intros Ha. split; [by eapply compare_and_set_failed|]. intros Hcan Hadm.
    destruct (compare_and_set_answered cfg b sampled c Hr Hcan Hadm) as [r Hres].
    rewrite Hc in Hres. cbn in Hres. by subst answer. }
  destruct answer as [result|e|]; [|by apply Herr..]. clear Herr.
  destruct (compare_and_set_inv cfg b sampled c b' result Hok Hc) as (st' & Hs & Hb).
  fold now st in Hs, Hb.
  pose proof (proj1 (prune_state_ok (inner b) now Hok)) as Hp. fold st in Hp.
  assert (cas_admitted cfg st c now) as Hadm by (apply cas_admitted_iff; [done|by eexists _, _]).
  apply compare_and_set_staged in Hs as (l & _ & _ & Er & _ & _ & _ & _ & Hres).
  destruct result as [|seen]; cbn in Hres; [|naive_solver].
  destruct Hres as [-> Hm], Hb as [Erec Hmarks]. rewrite put_record_records in Erec, Hmarks.
  split_and!; [done..|]. intros later Hexp.
  unfold get, get_for_read, record_expired. rewrite Erec, lookup_insert_eq, Hexp, Er. cbn [fst].
  assert (bool_decide (cas_key c ∈ read_expiry b')
          = bool_decide (records (inner b) !! cas_key c = Some (new_record c))
            && (bool_decide (cas_key c ∈ read_expiry b) || is_expired_at (new_record c) now)) as ->; [|done].
  apply eq_bool_prop_intro. rewrite andb_True, orb_True, !bool_decide_spec, Hmarks, get_for_read_marks.
  rewrite lookup_insert_eq. split; intros [Hsame [Hin|Hex]]; split; auto; right.
  - destruct Hex as (r & Hr' & He & _). rewrite Hsame in Hr'. injection Hr' as <-. by rewrite He.
  - exists (new_record c). split; [done|]. split; [by apply Is_true_true|done].
Qed.

Lemma compare_and_set_witness :
  cas_admitted (H := sample_range) sample_config
    (prune_state (inner sample_acquire.1) 20) sample_cas 20
  ∧ (get (compare_and_set (H := sample_range) sample_config sample_acquire.1 20 sample_cas).1
       (sample_key 1) 89).1 = Some sample_record.
Proof.
  destruct (compare_and_set_correct (H := sample_range) sample_config sample_acquire.1 20 sample_cas
    (compare_and_set (H := sample_range) sample_config sample_acquire.1 20 sample_cas).1 (Ok CasSuccess)
    sample_reachable ltac:(vm_compute; reflexivity)) as (Ha & _ & _ & Hr).
  split; [exact Ha|]. refine (eq_trans (Hr 89 eq_refl) _). vm_compute. reflexivity.
Defined.
