(* ===== verification/NacmPath.v ===== *)
(** YANG paths and NACM rule patterns, [crates/opc-nacm/src/path.rs]: the registry
    of module prefixes, the parser of paths and patterns with its error messages,
    their display, and matching.  Below the definitions: a registry keeps only
    valid identifiers, parsing yields well-formed paths, and printing then parsing
    gives the path or the pattern back. *)
From S2P Require Import Prelude.
From S2P Require Import Text.

(** ** Errors, [error.rs] *)

Record NacmError := {
  err_kind : str;
  err_message : str;
}.

Definition NacmError_new (kind message : str) : NacmError :=
  {| err_kind := kind; err_message := message |}.

Definition PATH_KIND : str := lit "yang path".
Definition REGISTRY_KIND : str := lit "module registry".

(** ** Identifiers *)

Definition symbol_first (c : Z) : bool :=
  (97 <=? c) && (c <=? 122) || (65 <=? c) && (c <=? 90) || (c =? 95).

Definition symbol_rest (c : Z) : bool :=
  (97 <=? c) && (c <=? 122) || (65 <=? c) && (c <=? 90) || (48 <=? c) && (c <=? 57)
  || (c =? 45) || (c =? 95) || (c =? 46).

Definition validate_symbol (kind label value : str) : outcome NacmError str :=
  match value with
  | [] => Err (NacmError_new kind (label ++ lit " cannot be empty"))
  | first :: chars =>
      if negb (bool_decide (trim value = value)) then
        Err (NacmError_new kind
               (label ++ lit " must not contain leading or trailing whitespace"))
      else if negb (symbol_first first) then
        Err (NacmError_new kind (label ++ lit " must start with an ASCII letter or '_'"))
      else if negb (forallb symbol_rest chars) then
        Err (NacmError_new kind
               (label ++ lit " must contain only ASCII letters, digits, '-', '_', and '.'"))
      else Ok value
  end.

(** ** The module registry *)

Record ModuleRegistry := {
  prefix_to_modules : gmap str (list str);
}.

Definition ModuleRegistry_new : ModuleRegistry := {| prefix_to_modules := ∅ |}.

Definition register_module (self : ModuleRegistry) (module prefix : str) :
  outcome NacmError ModuleRegistry :=
  let? module := validate_symbol REGISTRY_KIND (lit "module") module in
  let? prefix := validate_symbol REGISTRY_KIND (lit "prefix") prefix in
  Ok {| prefix_to_modules :=
          <[prefix := set_insert module (default [] (prefix_to_modules self !! prefix))]>
            (prefix_to_modules self) |}.

Definition modules_for_prefix (self : ModuleRegistry) (prefix : str) : option (list str) :=
  prefix_to_modules self !! prefix.

Definition resolve_default_module (self : ModuleRegistry) (module : str) :
  outcome NacmError str :=
  if existsb (λ kv : str * list str, bool_decide (module ∈ kv.2)) (map_to_list (prefix_to_modules self))
  then Ok module
  else if bool_decide (is_Some (prefix_to_modules self !! module)) then
    Err (NacmError_new PATH_KIND
           (lit "default module '" ++ module
            ++ lit "' must be a canonical module name, not a prefix"))
  else Err (NacmError_new PATH_KIND (lit "unknown default module '" ++ module ++ lit "'")).

Definition resolve_prefix (self : ModuleRegistry) (prefix : str) : outcome NacmError str :=
  let? modules :=
    ok_or (prefix_to_modules self !! prefix)
      (NacmError_new PATH_KIND (lit "unknown module prefix '" ++ prefix ++ lit "'")) in
  if negb (len modules =? 1) then
    let rendered := join modules (lit ", ") in
    Err (NacmError_new PATH_KIND
           (lit "ambiguous module prefix '" ++ prefix ++ lit "' resolves to ["
            ++ rendered ++ lit "]"))
  else idx modules 0.

(** ** Names, paths and patterns *)

Record QualifiedNodeName := {
  module : str;
  name : str;
}.

#[export] Instance QualifiedNodeName_eq_dec : EqDecision QualifiedNodeName.
Proof. solve_decision. Defined.

#[export] Instance QualifiedNodeName_countable : Countable QualifiedNodeName.
Proof.
  refine (inj_countable' (λ n, (module n, name n)) (λ '(m, n), {| module := m; name := n |}) _).
  by intros [].
Defined.

Definition QualifiedNodeName_new (m n : str) : outcome NacmError QualifiedNodeName :=
  let? m := validate_symbol PATH_KIND (lit "module") m in
  let? n := validate_symbol PATH_KIND (lit "node name") n in
  Ok {| module := m; name := n |}.

Definition node_to_string (n : QualifiedNodeName) : str := module n ++ lit ":" ++ name n.

(** [YangPath] wraps its vector of segments. *)
Record YangPath := { path_segments : list QualifiedNodeName }.

#[export] Instance YangPath_eq_dec : EqDecision YangPath.
Proof. solve_decision. Defined.

#[export] Instance YangPath_countable : Countable YangPath.
Proof.
  refine (inj_countable' path_segments (λ s, {| path_segments := s |}) _). by intros [].
Defined.

Definition path_len (self : YangPath) : Z := len (path_segments self).

Definition path_to_string (self : YangPath) : str :=
  match path_segments self with
  | [] => lit "/"
  | segments => mjoin ((λ s, lit "/" ++ node_to_string s) <$> segments)
  end.

(** [YangPathPatternSegment]; [ParsedPatternSegment] has the same constructors and
    [into_pattern_segment] is the identity on them. *)
Inductive YangPathPatternSegment :=
| Exact (n : QualifiedNodeName)
| WildcardAny
| WildcardModule (m : str).

#[export] Instance YangPathPatternSegment_eq_dec : EqDecision YangPathPatternSegment.
Proof. solve_decision. Defined.

Definition exact_name (self : YangPathPatternSegment) : option QualifiedNodeName :=
  match self with
  | Exact n => Some n
  | WildcardAny | WildcardModule _ => None
  end.

Definition segment_to_string (self : YangPathPatternSegment) : str :=
  match self with
  | Exact n => node_to_string n
  | WildcardAny => lit "*"
  | WildcardModule m => m ++ lit ":*"
  end.

Record YangPathPattern := {
  segments : list YangPathPatternSegment;
  subtree : bool;
}.

Definition segment_matches (pattern : YangPathPatternSegment) (actual : QualifiedNodeName) :
  bool :=
  match pattern with
  | Exact n => bool_decide (n = actual)
  | WildcardAny => true
  | WildcardModule m => bool_decide (m = module actual)
  end.

Definition pattern_matches (self : YangPathPattern) (path : YangPath) : bool :=
  if (if subtree self then path_len path <? len (segments self)
      else negb (len (segments self) =? path_len path))
  then false
  else forallb (λ '(pattern, actual), segment_matches pattern actual)
         (zip (segments self) (path_segments path)).

Definition pattern_to_string (self : YangPathPattern) : str :=
  match segments self with
  | [] => lit "/**"
  | segs =>
      mjoin ((λ s, lit "/" ++ segment_to_string s) <$> segs)
      ++ (if subtree self then lit "/**" else [])
  end.

(** ** Parsing *)

Definition split_subtree_suffix (input : str) : str * bool :=
  if bool_decide (input = lit "/**") then (lit "/", true)
  else match strip_suffix input (lit "/**") with
       | Some base => (match base with [] => lit "/" | _ => base end, true)
       | None => (input, false)
       end.

(** One turn of the loop over the raw segments, after its first two tests: a
    qualified or a plain name.  The result carries the module context that the next
    segment sees. *)
Definition parse_name (registry : ModuleRegistry) (current_module : option str)
    (raw_segment : str) : outcome NacmError (YangPathPatternSegment * option str) :=
  if contains raw_segment STAR then
    Err (NacmError_new PATH_KIND
           (lit "wildcards are not valid in segment '" ++ raw_segment ++ lit "'"))
  else match split_once raw_segment COLON with
  | Some (prefix, nm) =>
      match prefix, nm with
      | [], _ | _, [] =>
          Err (NacmError_new PATH_KIND
                 (lit "qualified segment '" ++ raw_segment
                  ++ lit "' must include both prefix and node"))
      | _, _ =>
          let? m := resolve_prefix registry prefix in
          let? nm := validate_symbol PATH_KIND (lit "node name") nm in
          Ok (Exact {| module := m; name := nm |}, Some m)
      end
  | None =>
      let? m :=
        ok_or current_module
          (NacmError_new PATH_KIND
             (lit "segment '" ++ raw_segment
              ++ lit "' is missing a prefix and no module context is available")) in
      let? nm := validate_symbol PATH_KIND (lit "node name") raw_segment in
      Ok (Exact {| module := m; name := nm |}, current_module)
  end.

Definition parse_segment (registry : ModuleRegistry) (allow_wildcards : bool)
    (current_module : option str) (raw_segment : str) :
  outcome NacmError (YangPathPatternSegment * option str) :=
  if bool_decide (raw_segment = []) || bool_decide (raw_segment = lit ".")
     || bool_decide (raw_segment = lit "..") then
    Err (NacmError_new PATH_KIND (lit "invalid path segment '" ++ raw_segment ++ lit "'"))
  else if allow_wildcards then
    if bool_decide (raw_segment = lit "*") then Ok (WildcardAny, current_module)
    else match strip_suffix raw_segment (lit ":*") with
    | Some [] =>
        Err (NacmError_new PATH_KIND
               (lit "module-scoped wildcards must include a non-empty prefix"))
    | Some prefix =>
        let? m := resolve_prefix registry prefix in
        Ok (WildcardModule m, Some m)
    | None => parse_name registry current_module raw_segment
    end
  else parse_name registry current_module raw_segment.

Fixpoint parse_loop (registry : ModuleRegistry) (allow_wildcards : bool)
    (current_module : option str) (raw_segments : list str) :
  outcome NacmError (list YangPathPatternSegment) :=
  match raw_segments with
  | [] => Ok []
  | raw_segment :: rest =>
      let? (segment, current_module) :=
        parse_segment registry allow_wildcards current_module raw_segment in
      let? segments := parse_loop registry allow_wildcards current_module rest in
      Ok (segment :: segments)
  end.

(** The module context the first segment sees. *)
Definition default_context (registry : ModuleRegistry) (default_module : option str) :
  outcome NacmError (option str) :=
  match default_module with
  | Some m =>
      let? m := validate_symbol PATH_KIND (lit "default module") m in
      let? m := resolve_default_module registry m in
      Ok (Some m)
  | None => Ok None
  end.

Definition parse_segments (input : str) (registry : ModuleRegistry)
    (default_module : option str) (allow_wildcards : bool) :
  outcome NacmError (list YangPathPatternSegment) :=
  if bool_decide (input = []) then
    Err (NacmError_new PATH_KIND (lit "paths must not be empty"))
  else if negb (bool_decide (trim input = input)) then
    Err (NacmError_new PATH_KIND
           (lit "paths must not contain leading or trailing whitespace"))
  else if negb (starts_with input SLASH) then
    Err (NacmError_new PATH_KIND (lit "paths must start with '/'"))
  else if bool_decide (input = lit "/") then Ok []
  else if ends_with input SLASH then
    Err (NacmError_new PATH_KIND (lit "paths must not end with '/'"))
  else
    let? current_module := default_context registry default_module in
    parse_loop registry allow_wildcards current_module (split (drop 1 input) SLASH).

(** The [collect] that turns parsed segments into exact names. *)
Fixpoint exact_segments (l : list YangPathPatternSegment) :
  outcome NacmError (list QualifiedNodeName) :=
  match l with
  | [] => Ok []
  | Exact node :: rest => let? nodes := exact_segments rest in Ok (node :: nodes)
  | (WildcardAny | WildcardModule _) :: _ =>
      Err (NacmError_new PATH_KIND (lit "wildcards are only valid in NACM rule patterns"))
  end.

Definition path_parse_with_default_module (input : str) (registry : ModuleRegistry)
    (default_module : option str) : outcome NacmError YangPath :=
  let? segs := parse_segments input registry default_module false in
  match segs with
  | [] =>
      Err (NacmError_new PATH_KIND (lit "absolute paths must contain at least one segment"))
  | _ =>
      let? exact := exact_segments segs in
      Ok {| path_segments := exact |}
  end.

Definition path_parse (input : str) (registry : ModuleRegistry) : outcome NacmError YangPath :=
  path_parse_with_default_module input registry None.

Definition pattern_parse_with_default_module (input : str) (registry : ModuleRegistry)
    (default_module : option str) : outcome NacmError YangPathPattern :=
  let '(base, sub) := split_subtree_suffix input in
  let? segs := parse_segments base registry default_module true in
  if negb sub && bool_decide (segs = []) then
    Err (NacmError_new PATH_KIND (lit "exact rule patterns must contain at least one segment"))
  else Ok {| segments := segs; subtree := sub |}.

Definition pattern_parse (input : str) (registry : ModuleRegistry) :
  outcome NacmError YangPathPattern :=
  pattern_parse_with_default_module input registry None.

(** ** Identifiers *)

Definition valid_symbol (s : str) : bool :=
  match s with
  | [] => false
  | c :: r => symbol_first c && forallb symbol_rest r
  end.

Lemma symbol_first_rest c : symbol_first c = true → symbol_rest c = true.
Proof. unfold symbol_first, symbol_rest. intros. to_prop. lia. Qed.

Lemma symbol_rest_char c :
  symbol_rest c = true → is_whitespace c = false ∧ c ≠ SLASH ∧ c ≠ COLON ∧ c ≠ STAR.
Proof.
  unfold symbol_rest, is_whitespace, SLASH, COLON, STAR. intros.
  assert (45 ≤ c ≤ 57 ∧ c ≠ 47 ∨ 65 ≤ c ≤ 122) by (to_prop; lia). lia.
Qed.

Lemma valid_symbol_chars s : valid_symbol s = true → Forall (λ c, symbol_rest c = true) s.
Proof.
  destruct s as [|c s]; [done|]. cbn. rewrite andb_true_iff, forallb_forall.
  intros [Hc Hs]. constructor; [by apply symbol_first_rest|].
  apply Forall_forall. intros d Hd. by apply Hs, list_elem_of_In.
Qed.

(** No character of an identifier is white space or one the grammar reserves. *)
Lemma valid_symbol_char s c :
  valid_symbol s = true → c ∈ s → is_whitespace c = false ∧ c ≠ SLASH ∧ c ≠ COLON ∧ c ≠ STAR.
Proof.
  intros Hs Hc. apply symbol_rest_char.
  by apply valid_symbol_chars, (proj1 (Forall_forall _ _)) with (x := c) in Hs.
Qed.

Lemma valid_symbol_reserved s :
  valid_symbol s = true → s ≠ [] ∧ SLASH ∉ s ∧ COLON ∉ s ∧ STAR ∉ s.
Proof.
  intros Hs. split; [by intros ->|].
  pose proof (λ c, valid_symbol_char s c Hs) as Hc. naive_solver.
Qed.

Lemma trim_symbol s : valid_symbol s = true → trim s = s.
Proof.
  intros Hs. apply trim_id; intros c Hc; apply (valid_symbol_char s c Hs).
  - by apply head_Some_elem_of in Hc.
  - by apply last_Some_elem_of in Hc.
Qed.

Lemma validate_symbol_ok kind label s :
  valid_symbol s = true → validate_symbol kind label s = Ok s.
Proof.
  intros Hs. pose proof (trim_symbol s Hs) as Ht. destruct s as [|c r]; [done|].
  unfold validate_symbol. rewrite bool_decide_true by done.
  cbn in Hs. apply andb_true_iff in Hs as [-> ->]. done.
Qed.

Lemma validate_symbol_inv kind label s v :
  validate_symbol kind label s = Ok v → v = s ∧ valid_symbol s = true.
Proof. unfold validate_symbol. intros H. rust_cases; to_prop; by repeat split; apply andb_true_iff. Qed.

Lemma validate_symbol_returns kind label s : returns (validate_symbol kind label s).
Proof. unfold returns, validate_symbol. by rust_cases. Qed.

(** ** The registry holds only identifiers *)

(** The registries a caller can build. *)
Inductive registry_reachable : ModuleRegistry → Prop :=
| registry_start : registry_reachable ModuleRegistry_new
| registry_register r m p r' :
    registry_reachable r → register_module r m p = Ok r' → registry_reachable r'.

Definition registry_ok (r : ModuleRegistry) : Prop :=
  map_Forall (λ p ms, valid_symbol p = true ∧ ms ≠ [] ∧ Forall (λ m, valid_symbol m = true) ms)
    (prefix_to_modules r).

Lemma registry_reachable_ok r : registry_reachable r → registry_ok r.
Proof.
  induction 1 as [|r m p r' _ IH Hr]; [apply map_Forall_empty|].
  unfold register_module in Hr.
  destruct (validate_symbol _ _ m) as [m'| |] eqn:Hm; try done.
  destruct (validate_symbol _ _ p) as [p'| |] eqn:Hp; try done.
  apply validate_symbol_inv in Hm as [-> Hm]. apply validate_symbol_inv in Hp as [-> Hp].
  injection Hr as <-. apply map_Forall_insert_2; [|done]. split; [done|]. split.
  - intros Hnil. assert (m ∈ @nil str) as []%not_elem_of_nil.
    rewrite <- Hnil. apply elem_of_set_insert. by left.
  - apply Forall_forall. intros x [->|Hx]%elem_of_set_insert; [done|].
    destruct (prefix_to_modules r !! p) as [ms|] eqn:Hl; cbn in Hx; [|by apply not_elem_of_nil in Hx].
    apply IH in Hl as (_ & _ & Hl). by eapply Forall_forall in Hl.
Qed.

(** A module some prefix stands for. *)
Definition registered (r : ModuleRegistry) (m : str) : Prop :=
  ∃ p ms, prefix_to_modules r !! p = Some ms ∧ m ∈ ms.

Lemma registered_valid r m : registry_ok r → registered r m → valid_symbol m = true.
Proof.
  intros Hr (p & ms & Hp & Hm). apply Hr in Hp as (_ & _ & Hp). by eapply Forall_forall in Hp.
Qed.

Lemma resolve_prefix_inv r p m : resolve_prefix r p = Ok m → prefix_to_modules r !! p = Some [m].
Proof.
  unfold resolve_prefix. intros H. destruct (_ !! p) as [[|x [|y l]]|]; cbn in H; try done.
  - by injection H as ->.
  - destruct (_ =? 1) eqn:Hl; [|done]. to_prop. exfalso. len_lia.
Qed.

Lemma resolve_prefix_ok r p m : prefix_to_modules r !! p = Some [m] → resolve_prefix r p = Ok m.
Proof. unfold resolve_prefix. by intros ->. Qed.

Lemma resolve_prefix_returns r p : returns (resolve_prefix r p).
Proof.
  unfold returns, resolve_prefix. destruct (_ !! p) as [ms|]; [|done]. cbn [ok_or].
  destruct (len ms =? 1) eqn:Hl; [|done]. cbn [negb]. to_prop.
  by destruct (idx_ok (E := NacmError) ms 0) as [x ->]; [lia|].
Qed.

Lemma resolve_prefix_registered r p m : resolve_prefix r p = Ok m → registered r m.
Proof. intros H%resolve_prefix_inv. exists p, [m]. set_solver. Qed.

Lemma resolve_default_registered r m v :
  resolve_default_module r m = Ok v → v = m ∧ registered r m.
Proof.
  unfold resolve_default_module. intros H. destruct (existsb _ _) eqn:He; rust_cases.
  split; [done|]. apply existsb_exists in He as ([p ms] & Hin & Hm).
  apply list_elem_of_In, elem_of_map_to_list in Hin. apply bool_decide_eq_true_1 in Hm.
  by exists p, ms.
Qed.

(** ** Parsing yields well-formed paths *)

Definition node_wf (r : ModuleRegistry) (n : QualifiedNodeName) : Prop :=
  registered r (module n) ∧ valid_symbol (name n) = true.

Definition segment_wf (r : ModuleRegistry) (s : YangPathPatternSegment) : Prop :=
  match s with
  | Exact n => node_wf r n
  | WildcardAny => True
  | WildcardModule m => registered r m
  end.

Definition context_wf (r : ModuleRegistry) (c : option str) : Prop :=
  ∀ m, c = Some m → registered r m.

Lemma parse_name_wf r c raw s c' :
  context_wf r c → parse_name r c raw = Ok (s, c') →
  segment_wf r s ∧ context_wf r c' ∧ is_Some (exact_name s).
Proof.
  intros Hc. unfold parse_name. destruct (contains _ _); [done|].
  destruct (split_once _ _) as [[p n]|]; [destruct p as [|x p], n as [|y n]; try done|].
  - destruct (resolve_prefix r _) as [m| |] eqn:Hm; try done.
    destruct (validate_symbol _ _ _) as [v| |] eqn:Hv; try done. intros [= <- <-].
    apply resolve_prefix_registered in Hm. apply validate_symbol_inv in Hv as [-> Hv].
    split; [by split|]. split; [by intros ? [= <-]|done].
  - destruct c as [m|]; [|done]. unfold ok_or.
    destruct (validate_symbol _ _ _) as [v| |] eqn:Hv; try done. intros [= <- <-].
    apply validate_symbol_inv in Hv as [-> Hv]. split; [by split; [apply Hc|]|done].
Qed.

Lemma parse_segment_wf r aw c raw s c' :
  context_wf r c → parse_segment r aw c raw = Ok (s, c') →
  segment_wf r s ∧ context_wf r c' ∧ (aw = false → is_Some (exact_name s)).
Proof.
  intros Hc. unfold parse_segment. destruct (_ || _); [done|].
  destruct aw; [|intros Hp%parse_name_wf; naive_solver].
  case_bool_decide; [by intros [= <- <-]|].
  destruct (strip_suffix _ _) as [[|x p]|]; [done| |intros Hp%parse_name_wf; naive_solver].
  destruct (resolve_prefix r _) as [m| |] eqn:Hm; try done. intros [= <- <-].
  apply resolve_prefix_registered in Hm. split; [done|]. by split; [intros ? [= <-]|].
Qed.

Lemma parse_loop_wf r aw raws c l :
  context_wf r c → parse_loop r aw c raws = Ok l →
  Forall (segment_wf r) l ∧ (aw = false → Forall (λ s, is_Some (exact_name s)) l).
Proof.
  revert c l. induction raws as [|raw raws IH]; intros c l Hc; cbn; [by intros [= <-]|].
  destruct (parse_segment _ _ _ _) as [[s c']| |] eqn:Hs; try done.
  apply parse_segment_wf in Hs as (Hs & Hc' & Ha); [|done].
  destruct (parse_loop _ _ _ _) as [l'| |] eqn:Hl; try done. intros [= <-].
  apply IH in Hl as [Hl Hal]; [|done]. split; [by constructor|]. intros. constructor; auto.
Qed.

Lemma default_context_wf r dm c : default_context r dm = Ok c → context_wf r c.
Proof.
  unfold default_context. destruct dm as [m|]; [|by intros [= <-]].
  destruct (validate_symbol _ _ m) as [v| |]; try done.
  destruct (resolve_default_module r v) as [w| |] eqn:Hw; try done.
  apply resolve_default_registered in Hw as [-> Hw]. by intros [= <-] ? [= <-].
Qed.

Lemma parse_segments_wf input r dm aw l :
  parse_segments input r dm aw = Ok l →
  Forall (segment_wf r) l ∧ (aw = false → Forall (λ s, is_Some (exact_name s)) l).
Proof.
  unfold parse_segments. case_bool_decide; [done|]. case_bool_decide; [|done].
  destruct (starts_with _ _); [|done]. cbn [negb].
  case_bool_decide; [by intros [= <-]|]. destruct (ends_with _ _); [done|].
  destruct (default_context r dm) as [c| |] eqn:Hc; try done.
  apply parse_loop_wf. by eapply default_context_wf.
Qed.

Lemma exact_segments_spec l :
  Forall (λ s, is_Some (exact_name s)) l →
  ∃ ns, exact_segments l = Ok ns ∧ l = Exact <$> ns.
Proof.
  induction 1 as [|s l [n Hn] _ (ns & IH & ->)]; [by exists []|].
  destruct s as [n'| |]; try done. exists (n' :: ns). cbn. by rewrite IH.
Qed.

Lemma exact_segments_Exact ns : exact_segments (Exact <$> ns) = Ok ns.
Proof. induction ns as [|n ns IH]; cbn; [done|]. by rewrite IH. Qed.

Lemma parse_name_returns r c raw : returns (parse_name r c raw).
Proof.
  unfold returns, parse_name, ok_or. destruct (contains _ _); [done|].
  destruct (split_once _ _) as [[[|x p] [|y n]]|]; try done.
  - pose proof (resolve_prefix_returns r (x :: p)).
    pose proof (validate_symbol_returns PATH_KIND (lit "node name") (y :: n)).
    by destruct (resolve_prefix _ _), (validate_symbol _ _ _).
  - pose proof (validate_symbol_returns PATH_KIND (lit "node name") raw).
    by destruct c, (validate_symbol _ _ _).
Qed.

Lemma parse_segment_returns r aw c raw : returns (parse_segment r aw c raw).
Proof.
  pose proof (parse_name_returns r c raw). unfold parse_segment. destruct (_ || _); [done|].
  destruct aw; [|done]. case_bool_decide; [done|].
  destruct (strip_suffix _ _) as [[|x p]|]; try done.
  pose proof (resolve_prefix_returns r (x :: p)). unfold returns in *.
  by destruct (resolve_prefix _ _).
Qed.

Lemma parse_loop_returns r aw raws c : returns (parse_loop r aw c raws).
Proof.
  revert c. induction raws as [|raw raws IH]; intros c; [done|]. cbn.
  pose proof (parse_segment_returns r aw c raw) as Hs. unfold returns in *.
  destruct (parse_segment _ _ _ _) as [[s c']| |]; try done.
  specialize (IH c'). by destruct (parse_loop _ _ _ _).
Qed.

Lemma parse_segments_returns input r dm aw : returns (parse_segments input r dm aw).
Proof.
  unfold parse_segments. repeat (destruct (negb _) || case_bool_decide); try done.
  destruct (ends_with _ _); [done|].
  pose proof (λ c, parse_loop_returns r aw (split (drop 1 input) SLASH) c) as Hl.
  unfold default_context, resolve_default_module. destruct dm as [m|]; [|apply Hl].
  pose proof (validate_symbol_returns PATH_KIND (lit "default module") m) as Hm.
  unfold returns in *. destruct (validate_symbol _ _ _); try done.
  destruct (existsb _ _); [apply Hl|]. by case_bool_decide.
Qed.

Lemma path_parse_returns r input dm :
  registry_ok r → returns (path_parse_with_default_module input r dm).
Proof.
  intros Hr. unfold returns, path_parse_with_default_module.
  pose proof (parse_segments_returns input r dm false) as Hp.
  destruct (parse_segments _ _ _ _) as [l| |] eqn:Hl; try done.
  apply parse_segments_wf in Hl as [_ Hl].
  destruct (exact_segments_spec l) as (ns & Hns & ->); [auto|]. rewrite Hns. by destruct ns.
Qed.

(** Parsing a path or a pattern against any registry a caller can build always
    returns, and a path it accepts has at least one segment, every segment naming a module that the
    registry knows and a node that is a valid identifier.  Accepting a pattern gives
    the same for its named segments. *)
Theorem parse_wellformed r input dm :
  registry_reachable r →
  returns (path_parse_with_default_module input r dm) ∧
  returns (pattern_parse_with_default_module input r dm) ∧
  (∀ p, path_parse_with_default_module input r dm = Ok p →
        path_segments p ≠ [] ∧
        Forall (λ n, registered r (module n) ∧ valid_symbol (module n) = true
                     ∧ valid_symbol (name n) = true) (path_segments p)) ∧
  (∀ p, pattern_parse_with_default_module input r dm = Ok p →
        (subtree p = true ∨ segments p ≠ []) ∧ Forall (segment_wf r) (segments p)).
Proof.
  intros Hr%registry_reachable_ok. split; [|split; [|split]].
  - by apply path_parse_returns.
  - unfold returns, pattern_parse_with_default_module.
    destruct (split_subtree_suffix input) as [base sub].
    pose proof (parse_segments_returns base r dm true).
    destruct (parse_segments _ _ _ _); try done. by destruct (_ && _).
  - intros p. unfold path_parse_with_default_module.
    destruct (parse_segments _ _ _ _) as [l| |] eqn:Hl; try done.
    apply parse_segments_wf in Hl as [Hw Hl].
    destruct (exact_segments_spec l) as (ns & Hns & ->); [auto|]. rewrite Hns.
    destruct ns as [|n ns]; [done|]. intros [= <-]. split; [done|].
    rewrite Forall_fmap in Hw. eapply Forall_impl; [exact Hw|]. intros n' [Hm Hn].
    repeat split; [done|by eapply registered_valid|done].
  - intros p. unfold pattern_parse_with_default_module.
    destruct (split_subtree_suffix input) as [base sub].
    destruct (parse_segments _ _ _ _) as [l| |] eqn:Hl; try done.
    apply parse_segments_wf in Hl as [Hw _].
    destruct sub; cbn; [intros [= <-]; by split; [left|]|].
    case_bool_decide; [done|]. intros [= <-]. by split; [right|].
Qed.

(** A registry with the two prefixes of one module, for the witnesses. *)
Definition sample_registry : ModuleRegistry :=
  {| prefix_to_modules :=
       {[ lit "ietf-interfaces" := [lit "ietf-interfaces"]; lit "if" := [lit "ietf-interfaces"] ]} |}.

Lemma sample_registry_reachable : registry_reachable sample_registry.
Proof.
  apply (registry_register
           {| prefix_to_modules := {[ lit "if" := [lit "ietf-interfaces"] ]} |}
           (lit "ietf-interfaces") (lit "ietf-interfaces")); [|by vm_compute].
  by apply (registry_register ModuleRegistry_new (lit "ietf-interfaces") (lit "if"));
    [constructor|vm_compute].
Qed.

Definition sample_node (n : string) : QualifiedNodeName :=
  {| module := lit "ietf-interfaces"; name := lit n |}.

Lemma parse_wellformed_witness :
  path_parse_with_default_module (lit "/if:interfaces/interface") sample_registry None
  = Ok {| path_segments := [sample_node "interfaces"; sample_node "interface"] |}
  ∧ Forall (λ n, registered sample_registry (module n) ∧ valid_symbol (module n) = true
                 ∧ valid_symbol (name n) = true)
      [sample_node "interfaces"; sample_node "interface"].
Proof.
  split; [by vm_compute|].
  destruct (parse_wellformed sample_registry (lit "/if:interfaces/interface") None
              sample_registry_reachable) as (_ & _ & H & _).
  apply (H {| path_segments := [sample_node "interfaces"; sample_node "interface"] |}).
  by vm_compute.
Defined.

(** ** Printing and parsing *)

(** The printed form names modules; parsing it reads a module name as a prefix, so
    the registry has to map the module's name to that module alone. *)
Definition canonical_module (r : ModuleRegistry) (m : str) : Prop :=
  prefix_to_modules r !! m = Some [m] ∧ valid_symbol m = true.

Definition node_canonical (r : ModuleRegistry) (n : QualifiedNodeName) : Prop :=
  canonical_module r (module n) ∧ valid_symbol (name n) = true.

Definition segment_canonical (r : ModuleRegistry) (s : YangPathPatternSegment) : Prop :=
  match s with
  | Exact n => node_canonical r n
  | WildcardAny => True
  | WildcardModule m => canonical_module r m
  end.

(** The text of the segments, one slash before each. *)
Definition render (segs : list YangPathPatternSegment) : str :=
  mjoin ((λ s, lit "/" ++ segment_to_string s) <$> segs).

Lemma render_cons s segs : render (s :: segs) = SLASH :: segment_to_string s ++ render segs.
Proof. done. Qed.

Lemma last_symbol pre s :
  valid_symbol s = true → ∃ c, last (pre ++ s) = Some c ∧ c ∈ s.
Proof.
  intros Hs. destruct (last s) as [c|] eqn:Hl.
  - exists c. rewrite last_app, Hl. split; [done|]. by apply last_Some_elem_of.
  - apply last_None in Hl as ->. done.
Qed.

Lemma segment_text r s :
  segment_canonical r s →
  SLASH ∉ segment_to_string s ∧
  ∃ c, last (segment_to_string s) = Some c ∧ is_whitespace c = false ∧ c ≠ SLASH.
Proof.
  destruct s as [[m n]| |m]; cbn.
  - intros [[_ Hm] Hn]. apply valid_symbol_reserved in Hm as (_ & Hm & _). unfold node_to_string. cbn in *.
    split.
    + apply valid_symbol_reserved in Hn as (_ & Hn' & _). set_solver.
    + destruct (last_symbol (m ++ [COLON]) n Hn) as (c & Hl & Hc).
      rewrite <- app_assoc in Hl. exists c. split; [exact Hl|].
      apply (valid_symbol_char n c) in Hc; naive_solver.
  - intros _. split; [set_solver|]. by exists STAR.
  - intros [_ Hm]. apply valid_symbol_reserved in Hm as (_ & Hm & _). split; [set_solver|].
    exists STAR. by rewrite last_app.
Qed.

Lemma render_last r s segs :
  Forall (segment_canonical r) (s :: segs) →
  ∃ c, last (render (s :: segs)) = Some c ∧ is_whitespace c = false ∧ c ≠ SLASH.
Proof.
  revert s. induction segs as [|t segs IH]; intros s; inversion_clear 1 as [|? ? Hs Hsegs].
  - apply segment_text in Hs as (_ & c & Hl & Hc). exists c. split; [|done].
    rewrite render_cons, app_comm_cons, last_app. cbn. rewrite last_cons. by rewrite Hl.
  - destruct (IH t) as (c & Hl & Hc); [done|]. exists c. split; [|done].
    by rewrite render_cons, app_comm_cons, last_app, Hl.
Qed.

Lemma split_render r s segs :
  Forall (segment_canonical r) (s :: segs) →
  split (drop 1 (render (s :: segs))) SLASH = segment_to_string <$> s :: segs.
Proof.
  revert s. induction segs as [|t segs IH]; intros s; inversion_clear 1 as [|? ? Hs Hsegs];
    apply segment_text in Hs as [Hs _]; rewrite render_cons; cbn [drop]; rewrite drop_0.
  - rewrite app_nil_r. by apply split_single.
  - rewrite render_cons, split_app by done. cbn [fmap list_fmap]. f_equal. by apply (IH t).
Qed.

Lemma parse_name_display r c m n :
  node_canonical r {| module := m; name := n |} →
  parse_name r c (m ++ COLON :: n) = Ok (Exact {| module := m; name := n |}, Some m).
Proof.
  intros [[Hl Hm] Hn]. cbn in *.
  apply valid_symbol_reserved in Hm as (Hm0 & _ & Hmc & Hms).
  pose proof (valid_symbol_reserved n Hn) as (Hn0 & _ & Hnc & Hns).
  unfold parse_name. rewrite (proj2 (contains_false _ _)) by set_solver.
  rewrite split_once_app by done. destruct m as [|a m], n as [|b n]; try done.
  by rewrite (resolve_prefix_ok _ _ _ Hl), validate_symbol_ok by done.
Qed.

Lemma parse_segment_display r aw c s :
  segment_canonical r s → aw = true ∨ is_Some (exact_name s) →
  ∃ c', parse_segment r aw c (segment_to_string s) = Ok (s, c').
Proof.
  intros Hs Haw. destruct s as [[m n]| |m].
  - exists (Some m). rewrite <- (parse_name_display r c m n Hs).
    destruct Hs as [[_ Hm] Hn]. cbn in Hm, Hn.
    destruct (valid_symbol_reserved m Hm) as (Hm0 & _).
    assert (∀ base, m ++ COLON :: n ≠ base ++ [STAR]) as Hne.
    { intros base Heq. destruct (last_symbol (m ++ [COLON]) n Hn) as (d & Hd & Hdn).
      rewrite <- app_assoc in Hd. cbn in Hd. rewrite Heq, last_snoc in Hd.
      apply (valid_symbol_char n d) in Hdn; naive_solver. }
    unfold parse_segment. cbn [segment_to_string]. unfold node_to_string. cbn [module name].
    rewrite !bool_decide_false by (by destruct m as [|? [|? [|? m]]]). cbn [orb].
    destruct aw; [|done]. rewrite strip_suffix_none; [done|]. intros base.
    replace (base ++ lit ":*") with ((base ++ [COLON]) ++ [STAR]); [apply Hne|].
    by rewrite <- app_assoc.
  - destruct Haw as [->|[? [=]]]. by exists c.
  - destruct Haw as [->|[? [=]]]. destruct Hs as [Hl Hm].
    apply valid_symbol_reserved in Hm as (Hm0 & _). exists (Some m).
    unfold parse_segment. cbn [segment_to_string].
    rewrite !bool_decide_false by (by destruct m as [|? [|? [|? m]]]). cbn [orb].
    rewrite strip_suffix_app. destruct m as [|a m]; [done|]. by rewrite (resolve_prefix_ok _ _ _ Hl).
Qed.

Lemma parse_loop_display r aw c segs :
  Forall (segment_canonical r) segs → Forall (λ s, aw = true ∨ is_Some (exact_name s)) segs →
  parse_loop r aw c (segment_to_string <$> segs) = Ok segs.
Proof.
  intros Hs Haw. revert c. induction segs as [|s segs IH]; intros c; [done|].
  apply Forall_cons in Hs as [Hs Hsegs]. apply Forall_cons in Haw as [Has Haw].
  destruct (parse_segment_display r aw c s Hs Has) as [c' Hp].
  cbn. by rewrite Hp, IH.
Qed.

(** Parsing the text of a list of segments, under any module context. *)
Lemma parse_segments_display r aw segs :
  segs ≠ [] → Forall (segment_canonical r) segs →
  Forall (λ s, aw = true ∨ is_Some (exact_name s)) segs →
  parse_segments (render segs) r None aw = Ok segs.
Proof.
  intros Hne Hs Haw. destruct segs as [|s segs]; [done|].
  destruct (render_last r s segs Hs) as (c & Hl & Hw & Hc).
  unfold parse_segments. rewrite bool_decide_false by done.
  rewrite (bool_decide_true (trim _ = _)); cycle 1.
  { apply trim_id; [by intros ? [= <-]|]. rewrite Hl. by intros ? [= <-]. }
  replace (starts_with _ _) with true by done. cbn [negb].
  rewrite bool_decide_false; cycle 1.
  { intros Heq. rewrite Heq in Hl. by injection Hl as <-. }
  replace (ends_with _ _) with false; cycle 1.
  { symmetry. apply not_true_is_false. rewrite ends_with_last, Hl. congruence. }
  cbn [default_context]. rewrite (split_render r) by done. by apply parse_loop_display.
Qed.

Lemma render_not_subtree r s segs base :
  Forall (segment_canonical r) (s :: segs) → render (s :: segs) ≠ base ++ lit "/**".
Proof.
  replace (base ++ lit "/**") with (((base ++ [SLASH]) ++ [STAR]) ++ [STAR])
    by (by rewrite <- !app_assoc).
  enough (∀ pre, Forall (segment_canonical r) (s :: segs) →
                 pre ++ render (s :: segs) ≠ ((base ++ [SLASH]) ++ [STAR]) ++ [STAR]) as H
    by apply (H []).
  revert s. induction segs as [|t segs IH]; intros s pre Hs; cycle 1.
  { rewrite render_cons, app_comm_cons, app_assoc. apply IH. by inversion Hs. }
  inversion_clear Hs as [|? ? Hs' _]. rewrite render_cons, app_nil_r.
  destruct s as [[m n]| |m]; cbn [segment_to_string]; intros Heq.
  - destruct Hs' as [_ Hn]. destruct (last_symbol (pre ++ SLASH :: m ++ [COLON]) n Hn) as (c & Hl & Hc).
    replace ((pre ++ SLASH :: m ++ [COLON]) ++ n) with (pre ++ SLASH :: m ++ COLON :: n) in Hl
      by (by rewrite <- !app_assoc; cbn; rewrite <- app_assoc).
    change (pre ++ SLASH :: m ++ COLON :: n = ((base ++ [SLASH]) ++ [STAR]) ++ [STAR]) in Heq.
    rewrite Heq, last_snoc in Hl. apply (valid_symbol_char n c) in Hc; naive_solver.
  - change (pre ++ [SLASH] ++ [STAR] = ((base ++ [SLASH]) ++ [STAR]) ++ [STAR]) in Heq.
    rewrite app_assoc in Heq. apply app_inj_tail in Heq as [Heq _].
    by apply app_inj_tail in Heq as [_ [=]].
  - replace (pre ++ SLASH :: m ++ lit ":*") with ((pre ++ SLASH :: m ++ [COLON]) ++ [STAR]) in Heq
      by (by rewrite <- !app_assoc; cbn; rewrite <- app_assoc).
    apply app_inj_tail in Heq as [Heq _].
    rewrite app_comm_cons, app_assoc in Heq.
    by apply app_inj_tail in Heq as [_ [=]].
Qed.

Lemma path_roundtrip r p :
  path_segments p ≠ [] → Forall (node_canonical r) (path_segments p) →
  path_parse (path_to_string p) r = Ok p.
Proof.
  destruct p as [ns]. cbn. intros Hne Hns.
  unfold path_parse, path_parse_with_default_module.
  replace (path_to_string _) with (render (Exact <$> ns)); cycle 1.
  { unfold path_to_string, render. cbn. rewrite <- list_fmap_compose. by destruct ns. }
  rewrite parse_segments_display.
  - rewrite exact_segments_Exact. by destruct ns.
  - by destruct ns.
  - by apply Forall_fmap.
  - apply Forall_fmap, Forall_true. intros. right. by eexists.
Qed.

Lemma pattern_roundtrip r p :
  subtree p = true ∨ segments p ≠ [] → Forall (segment_canonical r) (segments p) →
  pattern_parse (pattern_to_string p) r = Ok p.
Proof.
  destruct p as [[|s segs] sub]; cbn [segments subtree]; intros Hp Hs.
  { destruct Hp as [->|Hp]; [by vm_compute|done]. }
  unfold pattern_parse, pattern_parse_with_default_module, split_subtree_suffix.
  change (pattern_to_string _) with (render (s :: segs) ++ if sub then lit "/**" else []).
  assert (∀ base, render (s :: segs) ≠ base ++ lit "/**") as Hnot
    by (intros base; by apply (render_not_subtree r)).
  assert (parse_segments (render (s :: segs)) r None true = Ok (s :: segs)) as Hparse
    by (apply parse_segments_display; [done..|apply Forall_true; by left]).
  destruct sub; cbn match.
  - rewrite strip_suffix_app, bool_decide_false.
    + destruct (render (s :: segs)) eqn:Hr; [done|]. by rewrite Hparse.
    + rewrite <- (app_nil_l (lit "/**")) at 2. by intros Heq%app_inv_tail.
  - rewrite app_nil_r. rewrite bool_decide_false by apply (Hnot []).
    rewrite strip_suffix_none by done. by rewrite Hparse.
Qed.

(** Printing and parsing: a path with at least one segment, and a rule pattern
    with exact names, both wildcards and the subtree suffix, are given back by
    parsing what they print as, when the registry maps each module name they hold,
    read as a prefix, to that module alone. *)
Theorem display_roundtrip r p pat :
  path_segments p ≠ [] → Forall (node_canonical r) (path_segments p) →
  subtree pat = true ∨ segments pat ≠ [] → Forall (segment_canonical r) (segments pat) →
  path_parse (path_to_string p) r = Ok p ∧ pattern_parse (pattern_to_string pat) r = Ok pat.
Proof. split; [by apply path_roundtrip|by apply pattern_roundtrip]. Qed.

Lemma display_roundtrip_witness :
  let p := {| path_segments := [sample_node "interfaces"; sample_node "interface"] |} in
  let pat := {| segments := [Exact (sample_node "interfaces"); WildcardAny;
                             WildcardModule (lit "ietf-interfaces")];
                subtree := true |} in
  path_to_string p = lit "/ietf-interfaces:interfaces/ietf-interfaces:interface"
  ∧ pattern_to_string pat = lit "/ietf-interfaces:interfaces/*/ietf-interfaces:*/**"
  ∧ path_parse (path_to_string p) sample_registry = Ok p
  ∧ pattern_parse (pattern_to_string pat) sample_registry = Ok pat.
Proof.
  split; [by vm_compute|]. split; [by vm_compute|].
  apply (display_roundtrip sample_registry); [done| |by left|]; by repeat constructor.
Defined.
