(* ===== verification/NacmRules.v ===== *)
(** NACM actions, rules and rule-lists: [crates/opc-nacm/src/action.rs] and the
    first half of [policy.rs].  The names of groups and rule-lists are validated and
    kept in the order of a [BTreeSet]. *)
From S2P Require Import Prelude.
From S2P Require Import Text.
From S2P Require Import NacmPath.

(** ** Actions, [action.rs] *)

Inductive NacmAction :=
| Read | Create | Update | Replace | Delete | Exec | Subscribe | SecurityAdmin
| Request | Approve | Activate | Revoke.

#[export] Instance NacmAction_eq_dec : EqDecision NacmAction.
Proof. solve_decision. Defined.

Definition ALL : list NacmAction :=
  [Read; Create; Update; Replace; Delete; Exec; Subscribe; SecurityAdmin; Request; Approve;
   Activate; Revoke].

Definition action_as_str (self : NacmAction) : str :=
  match self with
  | Read => lit "read"
  | Create => lit "create"
  | Update => lit "update"
  | Replace => lit "replace"
  | Delete => lit "delete"
  | Exec => lit "exec"
  | Subscribe => lit "subscribe"
  | SecurityAdmin => lit "security-admin"
  | Request => lit "request"
  | Approve => lit "approve"
  | Activate => lit "activate"
  | Revoke => lit "revoke"
  end.

Definition action_from_str (value : str) : outcome NacmError NacmAction :=
  if bool_decide (value = lit "read") then Ok Read
  else if bool_decide (value = lit "create") then Ok Create
  else if bool_decide (value = lit "update") then Ok Update
  else if bool_decide (value = lit "replace") then Ok Replace
  else if bool_decide (value = lit "delete") then Ok Delete
  else if bool_decide (value = lit "exec") then Ok Exec
  else if bool_decide (value = lit "subscribe") then Ok Subscribe
  else if bool_decide (value = lit "security-admin") then Ok SecurityAdmin
  else if bool_decide (value = lit "request") then Ok Request
  else if bool_decide (value = lit "approve") then Ok Approve
  else if bool_decide (value = lit "activate") then Ok Activate
  else if bool_decide (value = lit "revoke") then Ok Revoke
  else Err (NacmError_new (lit "nacm action") (lit "unknown action '" ++ value ++ lit "'")).

Lemma action_from_as_str a : action_from_str (action_as_str a) = Ok a.
Proof. by destruct a. Qed.

#[export] Instance NacmAction_countable : Countable NacmAction.
Proof.
  refine (inj_countable action_as_str
            (λ s, match action_from_str s with Ok a => Some a | _ => None end) _).
  intros a. by rewrite action_from_as_str.
Defined.

(** ** Rules *)

Inductive NacmEffect := Allow | Deny.

#[export] Instance NacmEffect_eq_dec : EqDecision NacmEffect.
Proof. solve_decision. Defined.

Definition effect_is_allowed (self : NacmEffect) : bool :=
  match self with
  | Allow => true
  | Deny => false
  end.

Record NacmRule := {
  rule_action : NacmAction;
  rule_effect : NacmEffect;
  rule_path : YangPathPattern;
}.

Definition rule_new (action : NacmAction) (effect : NacmEffect) (path : YangPathPattern) :
  NacmRule :=
  {| rule_action := action; rule_effect := effect; rule_path := path |}.

Definition rule_allow (action : NacmAction) (path : YangPathPattern) : NacmRule :=
  rule_new action Allow path.

Definition rule_deny (action : NacmAction) (path : YangPathPattern) : NacmRule :=
  rule_new action Deny path.

(** ** Group-scoped rule-lists *)

Definition ALL_GROUPS : str := lit "*".

Record NacmRuleList := {
  list_name : str;
  list_groups : list str;
  list_rules : list NacmRule;
}.

Definition validate_nacm_label (field value : str) : outcome NacmError str :=
  if bool_decide (value = []) then
    Err (NacmError_new (lit "nacm rule-list") (field ++ lit " must not be empty"))
  else if negb (bool_decide (trim value = value)) then
    Err (NacmError_new (lit "nacm rule-list")
           (field ++ lit " must not contain leading or trailing whitespace"))
  else if existsb is_control value then
    Err (NacmError_new (lit "nacm rule-list")
           (field ++ lit " must not contain control characters"))
  else Ok value.

Definition validate_group_name (group : str) : outcome NacmError str :=
  if bool_decide (group = ALL_GROUPS) then Ok group
  else validate_nacm_label (lit "group") group.

(** The loop of [normalize_group_names], with the set built so far. *)
Fixpoint normalize_groups_loop (normalized groups : list str) : outcome NacmError (list str) :=
  match groups with
  | [] => Ok normalized
  | group :: rest =>
      let? group := validate_group_name group in
      normalize_groups_loop (set_insert group normalized) rest
  end.

Definition normalize_group_names (groups : list str) : outcome NacmError (list str) :=
  normalize_groups_loop [] groups.

Definition normalized_principal_groups (groups : list str) : list str := set_collect groups.

Definition rule_list_new (nm : str) (groups : list str) (rules : list NacmRule) :
  outcome NacmError NacmRuleList :=
  let? nm := validate_nacm_label (lit "rule-list name") nm in
  let? groups := normalize_group_names groups in
  match groups with
  | [] =>
      Err (NacmError_new (lit "nacm rule-list") (lit "rule-list must name at least one group"))
  | _ => Ok {| list_name := nm; list_groups := groups; list_rules := rules |}
  end.

Definition rule_list_all_users (nm : str) (rules : list NacmRule) :
  outcome NacmError NacmRuleList :=
  rule_list_new nm [ALL_GROUPS] rules.

Definition matches_groups (self : NacmRuleList) (principal_groups : list str) : bool :=
  existsb (λ group,
             bool_decide (group = ALL_GROUPS)
             || existsb (λ principal_group, bool_decide (principal_group = group))
                  principal_groups)
    (list_groups self).

(** Only the set of the principal's groups matters. *)
Lemma matches_groups_ext self g g' :
  (∀ x, x ∈ g ↔ x ∈ g') → matches_groups self g = matches_groups self g'.
Proof.
  intros Hg. unfold matches_groups. induction (list_groups self) as [|group l IH]; cbn; [done|]. f_equal; [f_equal|exact IH].
  apply eq_true_iff_eq. rewrite !existsb_exists. setoid_rewrite <- list_elem_of_In.
  naive_solver.
Qed.
