(* ===== verification/NacmTrie.v ===== *)
(** The compiled rule trie, [crates/opc-nacm/src/trie.rs].  A node's children are
    keyed by an exact name, by a module, or stand for any segment; [collect] walks
    the paths that match and skips a subtree whose smallest rule index cannot beat
    the best match so far.  The theorem of this file: the pruned walk finds the first
    rule of the policy, in insertion order, that matches the path and the action. *)
From S2P Require Import Prelude.
From S2P Require Import Text.
From S2P Require Import NacmPath.
From S2P Require Import NacmRules.

Record CompiledRule := {
  c_index : Z;
  c_effect : NacmEffect;
  c_action : NacmAction;
}.

Inductive RuleTrieNode := TrieNode {
  exact_children : gmap QualifiedNodeName RuleTrieNode;
  module_wildcard_children : gmap str RuleTrieNode;
  any_child : option RuleTrieNode;
  exact_rules : list CompiledRule;
  subtree_rules : list CompiledRule;
  min_rule_index : option Z;
}.

Record RuleTrie := { root : RuleTrieNode }.

(** [RuleTrieNode::default()]. *)
Definition node_default : RuleTrieNode := TrieNode ∅ ∅ None [] [] None.

Definition record_reachable_rule (self : RuleTrieNode) (index : Z) : RuleTrieNode :=
  TrieNode (exact_children self) (module_wildcard_children self) (any_child self)
    (exact_rules self) (subtree_rules self)
    (Some (match min_rule_index self with
           | Some current => Z.min current index
           | None => index
           end)).

(** The descent of [RuleTrie::insert] along the pattern, from one node: record the
    rule's index, step to the child of the segment, creating it if absent, and push
    the rule at the end. *)
Fixpoint node_insert (self : RuleTrieNode) (segs : list YangPathPatternSegment)
    (is_subtree : bool) (compiled : CompiledRule) : RuleTrieNode :=
  let node := record_reachable_rule self (c_index compiled) in
  match segs with
  | [] =>
      if is_subtree then
        TrieNode (exact_children node) (module_wildcard_children node) (any_child node)
          (exact_rules node) (subtree_rules node ++ [compiled]) (min_rule_index node)
      else
        TrieNode (exact_children node) (module_wildcard_children node) (any_child node)
          (exact_rules node ++ [compiled]) (subtree_rules node) (min_rule_index node)
  | Exact nm :: rest =>
      let child := default node_default (exact_children node !! nm) in
      TrieNode (<[nm := node_insert child rest is_subtree compiled]> (exact_children node))
        (module_wildcard_children node) (any_child node)
        (exact_rules node) (subtree_rules node) (min_rule_index node)
  | WildcardModule m :: rest =>
      let child := default node_default (module_wildcard_children node !! m) in
      TrieNode (exact_children node)
        (<[m := node_insert child rest is_subtree compiled]> (module_wildcard_children node))
        (any_child node) (exact_rules node) (subtree_rules node) (min_rule_index node)
  | WildcardAny :: rest =>
      let child := default node_default (any_child node) in
      TrieNode (exact_children node) (module_wildcard_children node)
        (Some (node_insert child rest is_subtree compiled))
        (exact_rules node) (subtree_rules node) (min_rule_index node)
  end.

Definition compile (index : Z) (rule : NacmRule) : CompiledRule :=
  {| c_index := index; c_effect := rule_effect rule; c_action := rule_action rule |}.

Definition trie_insert (self : RuleTrie) (index : Z) (rule : NacmRule) : RuleTrie :=
  {| root := node_insert (root self) (segments (rule_path rule)) (subtree (rule_path rule))
               (compile index rule) |}.

(** The loop of [from_rules] over the rules still to insert. *)
Fixpoint insert_rules (trie : RuleTrie) (index : Z) (rules : list NacmRule) : RuleTrie :=
  match rules with
  | [] => trie
  | rule :: rest => insert_rules (trie_insert trie index rule) (index + 1) rest
  end.

Definition from_rules (rules : list NacmRule) : RuleTrie :=
  insert_rules {| root := node_default |} 0 rules.

Definition select_first_inserted (best_match : option CompiledRule) (candidate : CompiledRule) :
  option CompiledRule :=
  match best_match with
  | Some current =>
      if c_index current <=? c_index candidate then best_match else Some candidate
  | None => Some candidate
  end.

Definition cannot_beat (self : RuleTrieNode) (best_match : option CompiledRule) : bool :=
  match min_rule_index self with
  | None => true
  | Some min_index =>
      match best_match with
      | Some best => c_index best <=? min_index
      | None => false
      end
  end.

(** One [for] loop of [collect] over a node's rules; [true] when it returned early
    because nothing beats rule 0. *)
Fixpoint scan_rules (rules : list CompiledRule) (action : NacmAction)
    (best_match : option CompiledRule) : option CompiledRule * bool :=
  match rules with
  | [] => (best_match, false)
  | rule :: rest =>
      if bool_decide (c_action rule = action) then
        let best_match := select_first_inserted best_match rule in
        match best_match with
        | Some best =>
            if c_index best =? 0 then (best_match, true) else scan_rules rest action best_match
        | None => scan_rules rest action best_match
        end
      else scan_rules rest action best_match
  end.

(** [collect] at the node reached after the path's first segments; [rest] is what
    [index] leaves of the path.  The second result is [visited_nodes]. *)
Fixpoint collect (self : RuleTrieNode) (rest : list QualifiedNodeName) (action : NacmAction)
    (best_match : option CompiledRule) (visited_nodes : Z) : option CompiledRule * Z :=
  let visited_nodes := visited_nodes + 1 in
  if cannot_beat self best_match then (best_match, visited_nodes)
  else
    match scan_rules (subtree_rules self) action best_match with
    | (best_match, true) => (best_match, visited_nodes)
    | (best_match, false) =>
        match rest with
        | [] => ((scan_rules (exact_rules self) action best_match).1, visited_nodes)
        | segment :: rest =>
            let '(best_match, visited_nodes) :=
              match exact_children self !! segment with
              | Some child => collect child rest action best_match visited_nodes
              | None => (best_match, visited_nodes)
              end in
            let '(best_match, visited_nodes) :=
              match module_wildcard_children self !! module segment with
              | Some child => collect child rest action best_match visited_nodes
              | None => (best_match, visited_nodes)
              end in
            match any_child self with
            | Some child => collect child rest action best_match visited_nodes
            | None => (best_match, visited_nodes)
            end
        end
    end.

Definition lookup_rule (self : RuleTrie) (path : YangPath) (action : NacmAction) :
  option CompiledRule :=
  (collect (root self) (path_segments path) action None 0).1.

(** ** The rules a walk can reach *)

(** The rules stored on the nodes that the segments [rest] lead to, without
    pruning. *)
Fixpoint reachable_rules (self : RuleTrieNode) (rest : list QualifiedNodeName) :
  list CompiledRule :=
  subtree_rules self ++
  match rest with
  | [] => exact_rules self
  | segment :: rest =>
      match exact_children self !! segment with
      | Some child => reachable_rules child rest
      | None => []
      end ++
      match module_wildcard_children self !! module segment with
      | Some child => reachable_rules child rest
      | None => []
      end ++
      match any_child self with
      | Some child => reachable_rules child rest
      | None => []
      end
  end.

(** Matching, one segment at a time. *)
Fixpoint segments_match (segs : list YangPathPatternSegment) (is_subtree : bool)
    (rest : list QualifiedNodeName) : bool :=
  match segs, rest with
  | [], [] => true
  | [], _ :: _ => is_subtree
  | _ :: _, [] => false
  | s :: segs, n :: rest => segment_matches s n && segments_match segs is_subtree rest
  end.

Lemma pattern_matches_segments p path :
  pattern_matches p path = segments_match (segments p) (subtree p) (path_segments path).
Proof.
  destruct p as [segs sub], path as [rest]. unfold pattern_matches, path_len. cbn.
  revert rest. induction segs as [|s segs IH]; intros [|n rest]; cbn; autorewrite with len.
  - by destruct sub.
  - pose proof (len_nonneg rest). destruct sub.
    + by rewrite (proj2 (Z.ltb_ge _ 0)) by lia.
    + by rewrite (proj2 (Z.eqb_neq 0 _)) by lia.
  - pose proof (len_nonneg segs). destruct sub.
    + by rewrite (proj2 (Z.ltb_lt 0 _)) by lia.
    + by rewrite (proj2 (Z.eqb_neq _ 0)) by lia.
  - rewrite <- IH. replace (1 + len rest <? 1 + len segs) with (len rest <? len segs) by lia.
    replace (1 + len segs =? 1 + len rest) with (len segs =? len rest) by lia.
    by destruct (if sub then _ else _), (segment_matches s n).
Qed.

Lemma reachable_default rest : reachable_rules node_default rest = [].
Proof. destruct rest; cbn; [done|]. by rewrite !lookup_empty. Qed.

(** A child that is absent reaches what the default node reaches. *)
Lemma reachable_child o rest :
  match o with Some child => reachable_rules child rest | None => [] end
  = reachable_rules (default node_default o) rest.
Proof. destruct o; [done|]. by rewrite reachable_default. Qed.

Lemma reachable_cons self segment rest :
  reachable_rules self (segment :: rest)
  = subtree_rules self
    ++ reachable_rules (default node_default (exact_children self !! segment)) rest
    ++ reachable_rules (default node_default (module_wildcard_children self !! module segment)) rest
    ++ reachable_rules (default node_default (any_child self)) rest.
Proof. cbn. by rewrite !reachable_child. Qed.

(** Inserting a rule adds it to the walks its pattern matches and to no other. *)
Lemma reachable_insert self segs sub c rest r :
  r ∈ reachable_rules (node_insert self segs sub c) rest ↔
  r ∈ reachable_rules self rest ∨ (r = c ∧ segments_match segs sub rest = true).
Proof.
  revert self rest. induction segs as [|s segs IH]; intros self rest.
  - destruct sub, rest as [|n rest]; cbn; set_solver.
  - destruct rest as [|n rest]; [destruct s; cbn; set_solver|].
    destruct s as [nm| |m]; cbn [node_insert segments_match segment_matches];
      rewrite !reachable_cons; cbn [subtree_rules exact_children module_wildcard_children
        any_child record_reachable_rule].
    + destruct (decide (nm = n)) as [->|Hne].
      * rewrite lookup_insert_eq, bool_decide_true by done. cbn [from_option id andb].
        rewrite !elem_of_app, IH. tauto.
      * rewrite lookup_insert_ne, bool_decide_false by done. cbn [andb]. naive_solver.
    + cbn [from_option id andb]. rewrite !elem_of_app, IH. tauto.
    + destruct (decide (m = module n)) as [->|Hne].
      * rewrite lookup_insert_eq, bool_decide_true by done. cbn [from_option id andb].
        rewrite !elem_of_app, IH. tauto.
      * rewrite lookup_insert_ne, bool_decide_false by done. cbn [andb]. naive_solver.
Qed.

(** ** The pruning index *)

(** [min_rule_index] is a lower bound on every rule below the node. *)
Definition min_bounds (self : RuleTrieNode) : Prop :=
  ∀ rest r, r ∈ reachable_rules self rest →
    0 ≤ c_index r ∧ ∃ m, min_rule_index self = Some m ∧ m ≤ c_index r.

Inductive trie_ok : RuleTrieNode → Prop :=
| trie_ok_node self :
    min_bounds self →
    (∀ n child, exact_children self !! n = Some child → trie_ok child) →
    (∀ m child, module_wildcard_children self !! m = Some child → trie_ok child) →
    (∀ child, any_child self = Some child → trie_ok child) →
    trie_ok self.

Lemma trie_ok_default : trie_ok node_default.
Proof.
  constructor; try done. intros rest r. rewrite reachable_default. by intros ?%not_elem_of_nil.
Qed.

Lemma trie_ok_child o : (∀ child, o = Some child → trie_ok child) → trie_ok (default node_default o).
Proof. intros H. destruct o; [by apply H|apply trie_ok_default]. Qed.

Lemma min_bounds_insert self segs sub c :
  0 ≤ c_index c → min_bounds self → min_bounds (node_insert self segs sub c).
Proof.
  intros Hc Hm rest r Hr. apply reachable_insert in Hr.
  assert (min_rule_index (node_insert self segs sub c)
          = min_rule_index (record_reachable_rule self (c_index c))) as ->
    by (destruct segs as [|[] segs], sub; done).
  cbn. destruct Hr as [Hr|[-> _]].
  - destruct (Hm rest r Hr) as (? & m & -> & ?). split; [done|]. eexists. split; [done|]. lia.
  - split; [done|]. eexists. split; [done|]. destruct (min_rule_index self); lia.
Qed.

Lemma trie_ok_insert self segs sub c :
  0 ≤ c_index c → trie_ok self → trie_ok (node_insert self segs sub c).
Proof.
  intros Hc. revert self. induction segs as [|s segs IH]; intros self Hok;
    inversion_clear Hok as [? Hm He Hw Ha]; (constructor; [by apply min_bounds_insert| | |]).
  all: try (destruct sub; cbn; eauto; fail).
  all: destruct s as [nm| |m]; cbn [node_insert exact_children module_wildcard_children any_child
         record_reachable_rule]; eauto.
  - intros n child. destruct (decide (nm = n)) as [->|]; [rewrite lookup_insert_eq|rewrite lookup_insert_ne by done; eauto].
    intros [= <-]. apply IH, trie_ok_child. eauto.
  - intros m' child. destruct (decide (m = m')) as [->|]; [rewrite lookup_insert_eq|rewrite lookup_insert_ne by done; eauto].
    intros [= <-]. apply IH, trie_ok_child. eauto.
  - intros child [= <-]. apply IH, trie_ok_child. eauto.
Qed.

(** ** The walk finds the smallest index *)

(** [b'] is the best of [b] and the rules of [l] for the action [a]. *)
Definition best_of (a : NacmAction) (b : option CompiledRule) (l : list CompiledRule)
    (b' : option CompiledRule) : Prop :=
  (b' = b ∨ ∃ r, r ∈ l ∧ c_action r = a ∧ b' = Some r) ∧
  (∀ r, b = Some r ∨ (r ∈ l ∧ c_action r = a) → ∃ r', b' = Some r' ∧ c_index r' ≤ c_index r).

Lemma best_of_refl a b l :
  (∀ r, r ∈ l → c_action r = a → ∃ r', b = Some r' ∧ c_index r' ≤ c_index r) → best_of a b l b.
Proof. intros H. split; [by left|]. intros r [->|[? ?]]; [by exists r|eauto]. Qed.

Lemma best_of_app a b l1 b1 l2 b2 :
  best_of a b l1 b1 → best_of a b1 l2 b2 → best_of a b (l1 ++ l2) b2.
Proof.
  intros [Hb1 Hl1] [Hb2 Hl2]. split.
  - setoid_rewrite elem_of_app. naive_solver.
  - intros r. rewrite elem_of_app. intros Hr.
    assert (r ∈ l2 ∧ c_action r = a ∨ (b = Some r ∨ (r ∈ l1 ∧ c_action r = a))) as [H|H] by tauto.
    + apply Hl2. by right.
    + destruct (Hl1 r H) as (r1 & -> & ?). destruct (Hl2 r1) as (r2 & -> & ?); [by left|].
      exists r2. split; [done|lia].
Qed.

Lemma best_of_stop a r l :
  c_index r = 0 → (∀ x, x ∈ l → 0 ≤ c_index x) → best_of a (Some r) l (Some r).
Proof. intros H0 Hl. apply best_of_refl. intros x Hx _. exists r. split; [done|]. apply Hl in Hx. lia. Qed.

Lemma scan_rules_spec a l b b' stop :
  (∀ x, x ∈ l → 0 ≤ c_index x) → scan_rules l a b = (b', stop) →
  best_of a b l b' ∧ (stop = true → ∃ r, b' = Some r ∧ c_index r = 0).
Proof.
  revert b. induction l as [|x l IH]; intros b Hl; cbn.
  { intros [= <- <-]. split; [|done]. apply best_of_refl. by intros ? ?%not_elem_of_nil. }
  assert (best_of a b [x] (if bool_decide (c_action x = a) then select_first_inserted b x else b))
    as Hx.
  { case_bool_decide as Ha; cycle 1.
    { apply best_of_refl. intros r ->%list_elem_of_singleton. done. }
    unfold select_first_inserted. destruct b as [y|]; [destruct (_ <=? _) eqn:Hy; to_prop|].
    - apply best_of_refl. intros r ->%list_elem_of_singleton _. eauto.
    - split; [right; exists x; set_solver|].
      intros r [[= ->]|[->%list_elem_of_singleton _]]; exists x; split; done || lia.
    - split; [right; exists x; set_solver|].
      intros r [[=]|[->%list_elem_of_singleton _]]; by exists x. }
  change (x :: l) with ([x] ++ l). case_bool_decide; cycle 1.
  { intros [Hb Hs]%IH; [|set_solver]. split; [by eapply best_of_app|done]. }
  destruct (select_first_inserted b x) as [y|] eqn:Hy; cycle 1.
  { intros [Hb Hs]%IH; [|set_solver]. split; [by eapply best_of_app|done]. }
  destruct (_ =? 0) eqn:H0; to_prop.
  - intros [= <- <-]. split; [|eauto]. eapply best_of_app; [exact Hx|].
    apply best_of_stop; [done|]. set_solver.
  - intros [Hb Hs]%IH; [|set_solver]. split; [by eapply best_of_app|done].
Qed.

Lemma cannot_beat_best self a b rest :
  min_bounds self → cannot_beat self b = true → best_of a b (reachable_rules self rest) b.
Proof.
  unfold cannot_beat. intros Hm Hb. apply best_of_refl. intros r Hr _.
  destruct (Hm rest r Hr) as (_ & m & Hmin & ?). rewrite Hmin in Hb.
  destruct b as [y|]; [|done]. to_prop. exists y. split; [done|lia].
Qed.

Lemma collect_child o rest a b v :
  (∀ self b v, trie_ok self →
     best_of a b (reachable_rules self rest) (collect self rest a b v).1) →
  (∀ child, o = Some child → trie_ok child) →
  best_of a b (reachable_rules (default node_default o) rest)
    (match o with Some child => collect child rest a b v | None => (b, v) end).1.
Proof.
  intros IH Ho. destruct o as [child|]; [by apply IH, Ho|]. cbn. rewrite reachable_default.
  apply best_of_refl. by intros ? ?%not_elem_of_nil.
Qed.

Lemma collect_spec rest self a b v :
  trie_ok self → best_of a b (reachable_rules self rest) (collect self rest a b v).1.
Proof.
  revert self b v. induction rest as [|s rest IH]; intros self b v Hok;
    inversion_clear Hok as [? Hm He Hw Ha].
  all: pose proof (λ rest r Hr, proj1 (Hm rest r Hr)) as H0.
  all: cbn [collect].
  all: destruct (cannot_beat self b) eqn:Hc; [by apply cannot_beat_best|].
  all: destruct (scan_rules (subtree_rules self) a b) as [b1 stop] eqn:Hs1.
  all: apply scan_rules_spec in Hs1 as [Hb1 Hstop]; [|intros x Hx; apply (H0 []); set_solver].
  - destruct stop.
    { destruct Hstop as (r & -> & Hr); [done|]. eapply best_of_app; [exact Hb1|].
      apply best_of_stop; [done|]. intros x Hx. apply (H0 []). set_solver. }
    destruct (scan_rules (exact_rules self) a b1) as [b2 stop] eqn:Hs2.
    apply scan_rules_spec in Hs2 as [Hb2 _]; [by eapply best_of_app|].
    intros x Hx. apply (H0 []). set_solver.
  - rewrite reachable_cons. destruct stop.
    { destruct Hstop as (r & -> & Hr); [done|]. eapply best_of_app; [exact Hb1|].
      apply best_of_stop; [done|]. intros x Hx. apply (H0 (s :: rest)).
      rewrite reachable_cons. set_solver. }
    eapply best_of_app; [exact Hb1|].
    pose proof (collect_child _ rest a b1 (v + 1) IH (He s)) as Hb2.
    destruct (match exact_children self !! s with Some _ => _ | None => _ end) as [b2 v2].
    eapply best_of_app; [exact Hb2|].
    pose proof (collect_child _ rest a b2 v2 IH (Hw (module s))) as Hb3.
    destruct (match module_wildcard_children self !! _ with Some _ => _ | None => _ end) as [b3 v3].
    eapply best_of_app; [exact Hb3|]. by apply collect_child.
Qed.

Lemma insert_rules_spec rules t i :
  0 ≤ i → trie_ok (root t) →
  trie_ok (root (insert_rules t i rules)) ∧
  ∀ path r, r ∈ reachable_rules (root (insert_rules t i rules)) (path_segments path) ↔
    r ∈ reachable_rules (root t) (path_segments path) ∨
    ∃ k rule, rules !! k = Some rule ∧ r = compile (i + Z.of_nat k) rule
              ∧ pattern_matches (rule_path rule) path = true.
Proof.
  revert t i. induction rules as [|rule rules IH]; intros t i Hi Ht; cbn.
  { split; [done|]. naive_solver. }
  destruct (IH (trie_insert t i rule) (i + 1)) as [Hok Hr]; [lia|by apply trie_ok_insert|].
  split; [done|]. intros path r. rewrite Hr. cbn [trie_insert root].
  rewrite reachable_insert, <- pattern_matches_segments. split.
  - intros [[?|[-> Hp]]|(k & rule' & Hk & -> & Hp)]; [by left| |].
    + right. exists 0%nat, rule. cbn. by rewrite Z.add_0_r.
    + right. exists (S k), rule'. split; [done|]. split; [f_equal; lia|done].
  - intros [?|([|k] & rule' & Hk & -> & Hp)]; [by left; left| |].
    + cbn in Hk. injection Hk as ->. left. right. rewrite Z.add_0_r. done.
    + right. exists k, rule'. split; [done|]. split; [f_equal; lia|done].
Qed.

(** ** First match *)

(** The reference: the first rule of the list, with its position, that has the
    action and matches the path. *)
Definition first_match (rules : list NacmRule) (path : YangPath) (action : NacmAction) :
  option (nat * NacmRule) :=
  list_find (λ r, rule_action r = action ∧ pattern_matches (rule_path r) path = true) rules.

Lemma lookup_rule_first_match rules path a :
  lookup_rule (from_rules rules) path a
  = (λ '(i, r), compile (Z.of_nat i) r) <$> first_match rules path a.
Proof.
  unfold lookup_rule, from_rules.
  destruct (insert_rules_spec rules {| root := node_default |} 0) as [Hok Hr];
    [done|apply trie_ok_default|]. cbn [root] in Hr. setoid_rewrite reachable_default in Hr.
  set (t := insert_rules _ _ _) in *.
  destruct (collect_spec (path_segments path) (root t) a None 0 Hok) as [Hin Hle].
  destruct (collect _ _ _ _ _) as [b v]. cbn [fst] in *.
  unfold first_match. destruct (list_find _ rules) as [[i r]|] eqn:Hf; cbn.
  - apply list_find_Some in Hf as (Hi & [Ha Hp] & Hmin).
    destruct (Hle (compile (Z.of_nat i) r)) as (r' & -> & Hi').
    { right. split; [|done]. apply Hr. right. exists i, r. by rewrite Z.add_0_l. }
    destruct Hin as [[=]|(x & Hx & Hxa & [= ->])]. f_equal.
    apply Hr in Hx as [[]%not_elem_of_nil|(k & rule & Hk & -> & Hkp)]. cbn in Hi', Hxa.
    destruct (decide (k = i)) as [->|Hne]; [rewrite Z.add_0_l; congruence|].
    exfalso. apply (Hmin k rule); [done|lia|done].
  - destruct Hin as [->|(x & Hx & Hxa & ->)]; [done|].
    apply Hr in Hx as [[]%not_elem_of_nil|(k & rule & Hk & -> & Hkp)].
    apply list_find_None in Hf. rewrite Forall_lookup in Hf. destruct (Hf k rule Hk). done.
Qed.
