(* ===== verification/NacmPolicy.v ===== *)
(** NACM policies and the caching evaluator, the rest of
    [crates/opc-nacm/src/policy.rs].  A policy takes its cache namespace from a
    process-wide counter, an explicit argument here; the counters the evaluator
    increments are its [Metrics], and the latency histogram is left out.  The
    theorems: a decision is that of the first matching rule and a denial when there
    is none; a run of the evaluator, whatever it caches and evicts, answers as the
    policies themselves would; and its cache stays within its capacity. *)
From S2P Require Import Prelude.
From S2P Require Import Text.
From S2P Require Import NacmPath.
From S2P Require Import NacmRules.
From S2P Require Import NacmTrie.

(** ** Policies *)

Record AuthorizationDecision := {
  effect : NacmEffect;
  matched_rule_index : option Z;
  cache_hit : bool;
  policy_version : Z;
}.

Definition decision_new (e : NacmEffect) (index : option Z) (hit : bool) (v : Z) :
  AuthorizationDecision :=
  {| effect := e; matched_rule_index := index; cache_hit := hit; policy_version := v |}.

Definition decision_is_allowed (self : AuthorizationDecision) : bool :=
  effect_is_allowed (effect self).

Record NacmPolicy := {
  version : Z;
  cache_namespace : Z;
  rules : list NacmRule;
  rule_lists : list NacmRuleList;
  trie : RuleTrie;
}.

(** [next_policy_cache_namespace]: the value handed out, and the counter after
    [fetch_add], which wraps around. *)
Definition next_policy_cache_namespace (counter : Z) : Z * Z :=
  (counter, Z.modulo (counter + 1) (U64_MAX + 1)).

Record NacmPolicyBuilder := {
  b_version : Z;
  b_rules : list NacmRule;
  b_rule_lists : list NacmRuleList;
}.

Definition builder_new (v : Z) : NacmPolicyBuilder :=
  {| b_version := v; b_rules := []; b_rule_lists := [] |}.

Definition add_rule (self : NacmPolicyBuilder) (rule : NacmRule) : NacmPolicyBuilder :=
  {| b_version := b_version self; b_rules := b_rules self ++ [rule];
     b_rule_lists := b_rule_lists self |}.

Definition add_rule_list (self : NacmPolicyBuilder) (rule_list : NacmRuleList) :
  NacmPolicyBuilder :=
  {| b_version := b_version self; b_rules := b_rules self;
     b_rule_lists := b_rule_lists self ++ [rule_list] |}.

Definition build (self : NacmPolicyBuilder) (counter : Z) : NacmPolicy * Z :=
  let t := from_rules (b_rules self) in
  let '(namespace, counter) := next_policy_cache_namespace counter in
  ({| version := b_version self; cache_namespace := namespace; rules := b_rules self;
      rule_lists := b_rule_lists self; trie := t |}, counter).

Definition policy_new (v : Z) (rs : list NacmRule) (counter : Z) : NacmPolicy * Z :=
  build {| b_version := v; b_rules := rs; b_rule_lists := [] |} counter.

Definition policy_empty (v : Z) (counter : Z) : NacmPolicy * Z := policy_new v [] counter.

Definition policy_evaluate (self : NacmPolicy) (path : YangPath) (action : NacmAction) :
  AuthorizationDecision :=
  match lookup_rule (trie self) path action with
  | Some rule => decision_new (c_effect rule) (Some (c_index rule)) false (version self)
  | None => decision_new Deny None false (version self)
  end.

(** The inner loop over one list of rules, whose group test has the value
    [list_matches]; the flat rules are scanned with [true].  Without a match, the
    index after the list. *)
Fixpoint scan_list (list_matches : bool) (rs : list NacmRule) (path : YangPath)
    (action : NacmAction) (index : Z) : (Z * NacmEffect) + Z :=
  match rs with
  | [] => inr index
  | rule :: rest =>
      if list_matches && bool_decide (rule_action rule = action)
         && pattern_matches (rule_path rule) path
      then inl (index, rule_effect rule)
      else scan_list list_matches rest path action (index + 1)
  end.

(** The loop over the rule-lists. *)
Fixpoint scan_lists (lists : list NacmRuleList) (path : YangPath) (action : NacmAction)
    (principal_groups : list str) (index : Z) : option (Z * NacmEffect) :=
  match lists with
  | [] => None
  | l :: rest =>
      match scan_list (matches_groups l principal_groups) (list_rules l) path action index with
      | inl found => Some found
      | inr index => scan_lists rest path action principal_groups index
      end
  end.

Definition first_matching_rule_for_groups (self : NacmPolicy) (path : YangPath)
    (action : NacmAction) (principal_groups : list str) : option (Z * NacmEffect) :=
  match scan_list true (rules self) path action 0 with
  | inl found => Some found
  | inr index => scan_lists (rule_lists self) path action principal_groups index
  end.

Definition policy_evaluate_for_groups (self : NacmPolicy) (path : YangPath)
    (action : NacmAction) (principal_groups : list str) : AuthorizationDecision :=
  match first_matching_rule_for_groups self path action principal_groups with
  | Some (index, e) => decision_new e (Some index) false (version self)
  | None => decision_new Deny None false (version self)
  end.

(** ** The evaluator *)

Record CachedDecision := {
  cached_effect : NacmEffect;
  cached_index : option Z;
}.

Record PolicyCacheKey := {
  key_namespace : Z;
  key_version : Z;
}.

#[export] Instance PolicyCacheKey_eq_dec : EqDecision PolicyCacheKey.
Proof. solve_decision. Defined.

Definition DEFAULT_CACHE_CAPACITY : Z := 1024.

Record NacmEvaluator := {
  cached_policy : option PolicyCacheKey;
  cached_groups : option (list str);
  cache_capacity : Z;
  cache_entries : Z;
  cache : gmap NacmAction (gmap YangPath CachedDecision);
  eviction_order : list (NacmAction * YangPath);
}.

Definition with_cache_capacity (capacity : Z) : NacmEvaluator :=
  {| cached_policy := None; cached_groups := None; cache_capacity := capacity;
     cache_entries := 0; cache := ∅; eviction_order := [] |}.

Definition evaluator_new : NacmEvaluator := with_cache_capacity DEFAULT_CACHE_CAPACITY.

Definition with_cache (self : NacmEvaluator) (entries : Z)
    (c : gmap NacmAction (gmap YangPath CachedDecision))
    (order : list (NacmAction * YangPath)) : NacmEvaluator :=
  {| cached_policy := cached_policy self; cached_groups := cached_groups self;
     cache_capacity := cache_capacity self; cache_entries := entries; cache := c;
     eviction_order := order |}.

Definition clear_cache (self : NacmEvaluator) : NacmEvaluator := with_cache self 0 ∅ [].

(** [clear_cache] and the two assignments that follow it. *)
Definition rekey (self : NacmEvaluator) (key : PolicyCacheKey) (groups : option (list str)) :
  NacmEvaluator :=
  let self := clear_cache self in
  {| cached_policy := Some key; cached_groups := groups; cache_capacity := cache_capacity self;
     cache_entries := cache_entries self; cache := cache self;
     eviction_order := eviction_order self |}.

(** The loop of [evict_oldest_entry] over what is left of the queue. *)
Fixpoint evict_from (self : NacmEvaluator) (order : list (NacmAction * YangPath)) :
  NacmEvaluator :=
  match order with
  | [] => with_cache self (cache_entries self) (cache self) []
  | (action, path) :: rest =>
      match cache self !! action with
      | None => evict_from self rest
      | Some action_entries =>
          let entries :=
            match action_entries !! path with
            | Some _ => Z.max 0 (cache_entries self - 1)
            | None => cache_entries self
            end in
          let action_entries := delete path action_entries in
          let c := if bool_decide (action_entries = ∅) then delete action (cache self)
                   else <[action := action_entries]> (cache self) in
          with_cache self entries c rest
      end
  end.

Definition evict_oldest_entry (self : NacmEvaluator) : NacmEvaluator :=
  evict_from self (eviction_order self).

(** The [while] loop of [insert_cache_entry]. *)
Fixpoint evict_loop (fuel : nat) (self : NacmEvaluator) : outcome False NacmEvaluator :=
  if cache_capacity self <=? cache_entries self then
    match fuel with
    | O => Crash
    | S fuel => evict_loop fuel (evict_oldest_entry self)
    end
  else Ok self.

Definition insert_cache_entry (self : NacmEvaluator) (action : NacmAction) (path : YangPath)
    (decision : CachedDecision) : outcome False NacmEvaluator :=
  if cache_capacity self =? 0 then Ok self
  else
    let? self := evict_loop (S (Z.to_nat (cache_entries self))) self in
    let action_entries := default ∅ (cache self !! action) in
    let c := <[action := <[path := decision]> action_entries]> (cache self) in
    match action_entries !! path with
    | None => Ok (with_cache self (cache_entries self + 1) c (eviction_order self ++ [(action, path)]))
    | Some _ => Ok (with_cache self (cache_entries self) c (eviction_order self))
    end.

Definition cache_get (self : NacmEvaluator) (action : NacmAction) (path : YangPath) :
  option CachedDecision :=
  match cache self !! action with
  | Some entries => entries !! path
  | None => None
  end.

(** The counters of [opc_redaction::metrics::METRICS] that an evaluation increments. *)
Record Metrics := {
  nacm_eval_allow : Z;
  nacm_eval_deny : Z;
  nacm_default_deny : Z;
}.

Definition fetch_add_one (n : Z) : Z := Z.modulo (n + 1) (U64_MAX + 1).

Definition record_metrics (m : Metrics) (d : AuthorizationDecision) : Metrics :=
  if decision_is_allowed d then
    {| nacm_eval_allow := fetch_add_one (nacm_eval_allow m);
       nacm_eval_deny := nacm_eval_deny m; nacm_default_deny := nacm_default_deny m |}
  else
    {| nacm_eval_allow := nacm_eval_allow m;
       nacm_eval_deny := fetch_add_one (nacm_eval_deny m);
       nacm_default_deny :=
         match matched_rule_index d with
         | None => fetch_add_one (nacm_default_deny m)
         | Some _ => nacm_default_deny m
         end |}.

(** What both evaluations do once the cache is keyed: answer from the cache, or
    evaluate and insert. *)
Definition answer (self : NacmEvaluator) (policy : NacmPolicy) (path : YangPath)
    (action : NacmAction) (dec : AuthorizationDecision) :
  outcome False (NacmEvaluator * AuthorizationDecision) :=
  match cache_get self action path with
  | Some cached =>
      Ok (self, decision_new (cached_effect cached) (cached_index cached) true (version policy))
  | None =>
      let? self :=
        insert_cache_entry self action path
          {| cached_effect := effect dec; cached_index := matched_rule_index dec |} in
      Ok (self, dec)
  end.

Definition evaluator_evaluate (self : NacmEvaluator) (m : Metrics) (policy : NacmPolicy)
    (path : YangPath) (action : NacmAction) :
  outcome False (NacmEvaluator * Metrics * AuthorizationDecision) :=
  let policy_key := {| key_namespace := cache_namespace policy; key_version := version policy |} in
  let self :=
    if negb (bool_decide (cached_policy self = Some policy_key))
       || match cached_groups self with Some _ => true | None => false end
    then rekey self policy_key None
    else self in
  let? (self, decision) :=
    answer self policy path action (policy_evaluate policy path action) in
  Ok (self, record_metrics m decision, decision).

Definition evaluator_evaluate_for_groups (self : NacmEvaluator) (m : Metrics)
    (policy : NacmPolicy) (path : YangPath) (action : NacmAction) (principal_groups : list str) :
  outcome False (NacmEvaluator * Metrics * AuthorizationDecision) :=
  let policy_key := {| key_namespace := cache_namespace policy; key_version := version policy |} in
  let normalized_groups := normalized_principal_groups principal_groups in
  let self :=
    if negb (bool_decide (cached_policy self = Some policy_key))
       || negb (bool_decide (cached_groups self = Some normalized_groups))
    then rekey self policy_key (Some normalized_groups)
    else self in
  let? (self, decision) :=
    answer self policy path action
      (policy_evaluate_for_groups policy path action normalized_groups) in
  Ok (self, record_metrics m decision, decision).

(** ** First match and default deny *)

(** The decision that the first matching rule of a list, if any, stands for. *)
Definition decision_of (found : option (nat * NacmRule)) (v : Z) : AuthorizationDecision :=
  match found with
  | Some (i, rule) => decision_new (rule_effect rule) (Some (Z.of_nat i)) false v
  | None => decision_new Deny None false v
  end.

(** The rules of a policy in the order they count, each with whether it applies to
    a principal of these groups. *)
Definition scoped_rules (p : NacmPolicy) (groups : list str) : list (bool * NacmRule) :=
  ((true,.) <$> rules p)
  ++ mjoin ((λ l, (matches_groups l groups,.) <$> list_rules l) <$> rule_lists p).

Definition scoped_match (l : list (bool * NacmRule)) (path : YangPath) (action : NacmAction) :
  option (nat * NacmRule) :=
  prod_map id snd <$>
  list_find (λ br, br.1 = true ∧ rule_action br.2 = action
                   ∧ pattern_matches (rule_path br.2) path = true) l.

(** A scan in terms of the scoped rules of its list followed by [rest]. *)
Lemma scan_list_spec applies rs path a i rest :
  match scan_list applies rs path a i with
  | inl found => Some found
  | inr i' => (λ '(k, r), (i' + Z.of_nat k, rule_effect r)) <$> scoped_match rest path a
  end
  = (λ '(k, r), (i + Z.of_nat k, rule_effect r))
    <$> scoped_match (((applies,.) <$> rs) ++ rest) path a.
Proof.
  revert i. induction rs as [|r rs IH]; intros i; [done|].
  unfold scoped_match. cbn -[Z.of_nat].
  replace (applies && bool_decide (rule_action r = a) && pattern_matches (rule_path r) path)
    with (bool_decide (applies = true ∧ rule_action r = a ∧ pattern_matches (rule_path r) path = true)).
  2: { destruct applies, (pattern_matches _ _); repeat case_bool_decide; naive_solver. }
  case_bool_decide as Hm; [rewrite decide_True by done|rewrite decide_False by done].
  { cbn. by rewrite Z.add_0_r. }
  rewrite IH. unfold scoped_match.
  destruct (list_find _ _) as [[k [b r']]|]; cbn -[Z.of_nat]; [|done].
  do 2 f_equal. lia.
Qed.

Lemma scan_lists_spec lists path a groups i :
  scan_lists lists path a groups i
  = (λ '(k, r), (i + Z.of_nat k, rule_effect r))
    <$> scoped_match (mjoin ((λ l, (matches_groups l groups,.) <$> list_rules l) <$> lists)) path a.
Proof.
  revert i. induction lists as [|l lists IH]; intros i; [done|]. cbn [scan_lists fmap list_fmap].
  change (mjoin (?x :: ?y)) with (x ++ mjoin y). rewrite <- scan_list_spec. by destruct (scan_list _ _ _ _ _).
Qed.

Lemma first_matching_spec p path a groups :
  first_matching_rule_for_groups p path a groups
  = (λ '(k, r), (0 + Z.of_nat k, rule_effect r)) <$> scoped_match (scoped_rules p groups) path a.
Proof.
  unfold first_matching_rule_for_groups, scoped_rules. rewrite <- scan_list_spec.
  destruct (scan_list _ _ _ _ _); [done|]. apply scan_lists_spec.
Qed.

(** C32. A NACM decision is that of the first rule, in insertion order, that has the
    action and matches the path, whatever the trie prunes; with groups, of the first
    such rule of the flat rules and then of the rule-lists that name one of the
    principal's groups or all of them.  When no rule matches, the decision is a
    denial with no rule index. *)
Theorem policy_first_match b counter path a groups :
  let p := (build b counter).1 in
  policy_evaluate p path a = decision_of (first_match (rules p) path a) (version p)
  ∧ policy_evaluate_for_groups p path a groups
    = decision_of (scoped_match (scoped_rules p groups) path a) (version p).
Proof.
  cbn [build next_policy_cache_namespace fst]. split.
  - unfold policy_evaluate. cbn [trie rules version]. rewrite lookup_rule_first_match.
    by destruct (first_match _ _ _) as [[i r]|].
  - unfold policy_evaluate_for_groups. rewrite first_matching_spec.
    destruct (scoped_match _ _ _) as [[k r]|]; [|done]. cbn -[Z.of_nat]. by rewrite Z.add_0_l.
Qed.

(** ** The cache *)

Definition cached_pairs (e : NacmEvaluator) : Prop :=
  NoDup (eviction_order e) ∧ cache_entries e = len (eviction_order e) ∧
  ∀ a p, (a, p) ∈ eviction_order e ↔ is_Some (cache_get e a p).

Definition evaluator_ok (e : NacmEvaluator) : Prop :=
  0 ≤ cache_capacity e ∧ cache_entries e ≤ cache_capacity e ∧ cached_pairs e.

Lemma with_capacity_ok n : 0 ≤ n → evaluator_ok (with_cache_capacity n).
Proof.
  intros Hn. split; [done|]. split; [done|]. split; [constructor|]. split; [done|].
  intros a p. unfold cache_get. cbn. rewrite lookup_empty.
  split; [by intros ?%not_elem_of_nil|by intros []].
Qed.

Lemma rekey_ok e k g : 0 ≤ cache_capacity e → evaluator_ok (rekey e k g).
Proof.
  intros Hn. destruct (with_capacity_ok (cache_capacity e) Hn) as (? & ? & ? & ? & Hp).
  by repeat split; try apply Hp.
Qed.

(** Evicting the oldest pair removes it, and it alone, from the cache. *)
Lemma evict_spec e a p rest :
  cached_pairs e → eviction_order e = (a, p) :: rest →
  let e' := evict_oldest_entry e in
  cached_pairs e' ∧ eviction_order e' = rest ∧ cache_entries e' = cache_entries e - 1
  ∧ cache_capacity e' = cache_capacity e
  ∧ cached_policy e' = cached_policy e ∧ cached_groups e' = cached_groups e
  ∧ ∀ a' p', cache_get e' a' p' = if decide ((a', p') = (a, p)) then None else cache_get e a' p'.
Proof.
  intros (Hnd & Hlen & Hp) Ho. cbn. unfold evict_oldest_entry. rewrite Ho. cbn [evict_from].
  assert (is_Some (cache_get e a p)) as [d Hd] by (apply Hp; rewrite Ho; left).
  unfold cache_get in Hd. destruct (cache e !! a) as [m|] eqn:Ha; [|done]. rewrite Hd.
  set (c := if bool_decide _ then _ else _).
  assert (∀ a' p', cache_get (with_cache e (Z.max 0 (cache_entries e - 1)) c rest) a' p'
                   = if decide ((a', p') = (a, p)) then None else cache_get e a' p') as Hget.
  { intros a' p'. unfold cache_get. cbn. subst c. destruct (decide (a' = a)) as [->|Hne].
    - rewrite Ha. destruct (decide (p' = p)) as [->|Hnp].
      + rewrite decide_True by done. case_bool_decide; [by rewrite lookup_delete_eq|].
        by rewrite lookup_insert_eq, lookup_delete_eq.
      + rewrite decide_False by naive_solver. case_bool_decide as He.
        * rewrite lookup_delete_eq. rewrite <- (lookup_delete_ne m p p') by done.
          by rewrite He, lookup_empty.
        * by rewrite lookup_insert_eq, lookup_delete_ne.
    - rewrite decide_False by naive_solver.
      case_bool_decide; [by rewrite lookup_delete_ne|by rewrite lookup_insert_ne]. }
  rewrite Ho in Hnd. apply NoDup_cons in Hnd as [Hin Hnd].
  assert (Z.max 0 (cache_entries e - 1) = len rest) as Hrest by (rewrite Hlen, Ho; len_lia).
  split; [|repeat split; try done; cbn; rewrite Hrest, Hlen, Ho; len_lia].
  split; [done|]. split; [exact Hrest|]. intros a' p'. rewrite Hget. cbn.
  destruct (decide _) as [[= -> ->]|Hne]; [split; [done|by intros []]|].
  rewrite <- Hp, Ho, elem_of_cons. tauto.
Qed.

(** What eviction leaves alone, and that it only removes decisions. *)
Definition cache_shrinks (e e' : NacmEvaluator) : Prop :=
  cache_capacity e' = cache_capacity e ∧ cached_policy e' = cached_policy e
  ∧ cached_groups e' = cached_groups e
  ∧ ∀ a p d, cache_get e' a p = Some d → cache_get e a p = Some d.

Lemma evict_loop_spec fuel e :
  cached_pairs e → 0 < cache_capacity e → cache_entries e < Z.of_nat fuel →
  ∃ e', evict_loop fuel e = Ok e' ∧ cached_pairs e' ∧ cache_entries e' < cache_capacity e'
        ∧ cache_shrinks e e'.
Proof.
  revert e. induction fuel as [|fuel IH]; intros e He Hc Hf; cbn [evict_loop].
  { destruct He as (_ & Hl & _). exfalso. pose proof (len_nonneg (eviction_order e)). lia. }
  destruct (_ <=? _) eqn:Hle; to_prop; cycle 1.
  { exists e. do 3 (split; [done|]). by repeat split. }
  destruct (eviction_order e) as [|[a p] rest] eqn:Ho.
  { destruct He as (_ & Hl & _). rewrite Ho in Hl. change (len []) with 0 in Hl. lia. }
  destruct (evict_spec e a p rest He Ho) as (He' & _ & Hn & Hc' & Hp & Hg & Hget).
  destruct (IH (evict_oldest_entry e) He') as (e' & Hr & Hok & Hlt & Hc2 & Hp2 & Hg2 & Hs);
    [congruence|lia|].
  exists e'. repeat split; try congruence; try apply Hok.
  intros a' p' d Hd. apply Hs in Hd. rewrite Hget in Hd. by destruct (decide _).
Qed.

Lemma NoDup_snoc {A} (l : list A) x : x ∉ l → NoDup l → NoDup (l ++ [x]).
Proof.
  intros Hx Hl. apply NoDup_app. split; [done|]. split; [|apply NoDup_singleton].
  intros y Hy ->%list_elem_of_singleton. done.
Qed.

Lemma insert_spec e a p d :
  evaluator_ok e →
  ∃ e', insert_cache_entry e a p d = Ok e' ∧ evaluator_ok e'
        ∧ cache_capacity e' = cache_capacity e
        ∧ cached_policy e' = cached_policy e ∧ cached_groups e' = cached_groups e
        ∧ ∀ a' p' d', cache_get e' a' p' = Some d' →
            cache_get e a' p' = Some d' ∨ (a', p', d') = (a, p, d).
Proof.
  intros (Hc & Hle & Hp). unfold insert_cache_entry. destruct (_ =? 0) eqn:H0; to_prop.
  { exists e. repeat split; try done; try apply Hp. by left. }
  destruct (evict_loop_spec (S (Z.to_nat (cache_entries e))) e Hp) as
    (e1 & -> & (Hnd & Hlen & Hiff) & Hlt & Hc1 & Hp1 & Hg1 & Hs); [lia| |].
  { destruct Hp as (_ & -> & _). pose proof (len_nonneg (eviction_order e)). lia. }
  set (c := <[a := _]> (cache e1)).
  assert (∀ n o a' p', cache_get (with_cache e1 n c o) a' p'
            = if decide ((a', p') = (a, p)) then Some d else cache_get e1 a' p') as Hget.
  { intros n o a' p'. unfold cache_get. cbn. subst c. destruct (decide (a' = a)) as [->|Hne].
    - rewrite lookup_insert_eq. destruct (decide (p' = p)) as [->|Hnp].
      + by rewrite lookup_insert_eq, decide_True.
      + rewrite lookup_insert_ne, decide_False by congruence.
        destruct (cache e1 !! a); cbn; [done|by rewrite lookup_empty].
    - rewrite lookup_insert_ne by done. by rewrite decide_False by congruence. }
  assert (default ∅ (cache e1 !! a) !! p = cache_get e1 a p) as ->.
  { unfold cache_get. destruct (cache e1 !! a); cbn; [done|by rewrite lookup_empty]. }
  assert (∀ n o a' p' d', cache_get (with_cache e1 n c o) a' p' = Some d' →
            cache_get e a' p' = Some d' ∨ (a', p', d') = (a, p, d)) as Hnew.
  { intros n o a' p' d'. rewrite Hget. destruct (decide _) as [[= -> ->]|].
    - intros [= ->]. by right.
    - intros Hd. left. by apply Hs. }
  destruct (cache_get e1 a p) as [d0|] eqn:Hd0; eexists; (split; [reflexivity|]).
  - split; [|do 3 (split; [done|]); apply Hnew]. split; [cbn; lia|]. split; [cbn; lia|].
    split; [done|]. split; [done|]. intros a' p'. rewrite Hget. cbn.
    destruct (decide _) as [[= -> ->]|]; [|done]. rewrite Hiff, Hd0. by split.
  - split; [|do 3 (split; [done|]); apply Hnew]. split; [cbn; lia|]. split; [cbn; lia|].
    assert ((a, p) ∉ eviction_order e1) as Hnin by (rewrite Hiff, Hd0; by intros []).
    split; [by apply NoDup_snoc|]. split; [cbn; len_lia|].
    intros a' p'. rewrite Hget. cbn. rewrite elem_of_app, list_elem_of_singleton.
    destruct (decide _) as [[= -> ->]|]; [split; [by eexists|by right]|]. rewrite Hiff. tauto.
Qed.

(** ** Transparency *)

Definition key_of (p : NacmPolicy) : PolicyCacheKey :=
  {| key_namespace := cache_namespace p; key_version := version p |}.

(** The decision a policy itself gives, with the groups the cache is keyed by. *)
Definition fresh (p : NacmPolicy) (groups : option (list str)) (path : YangPath)
    (a : NacmAction) : AuthorizationDecision :=
  match groups with
  | None => policy_evaluate p path a
  | Some g => policy_evaluate_for_groups p path a g
  end.

(** Every decision cached for a policy is one it gives. *)
Definition sound_for (e : NacmEvaluator) (p : NacmPolicy) : Prop :=
  cached_policy e = Some (key_of p) →
  ∀ a path d, cache_get e a path = Some d →
    decision_new (cached_effect d) (cached_index d) false (version p)
    = fresh p (cached_groups e) path a.

Definition forget_hit (d : AuthorizationDecision) : AuthorizationDecision :=
  decision_new (effect d) (matched_rule_index d) false (policy_version d).

Lemma fresh_forget p g path a : forget_hit (fresh p g path a) = fresh p g path a.
Proof.
  destruct g; cbn; unfold policy_evaluate, policy_evaluate_for_groups;
    [destruct (first_matching_rule_for_groups _ _ _ _) as [[]|]|destruct (lookup_rule _ _ _)]; done.
Qed.

Lemma fresh_version p g path a : policy_version (fresh p g path a) = version p.
Proof.
  destruct g; cbn; unfold policy_evaluate, policy_evaluate_for_groups;
    [destruct (first_matching_rule_for_groups _ _ _ _) as [[]|]|destruct (lookup_rule _ _ _)]; done.
Qed.

Lemma answer_spec e p path a (ps : list NacmPolicy) :
  evaluator_ok e → cached_policy e = Some (key_of p) →
  (∀ q, q ∈ ps → key_of q = key_of p → q = p) →
  (∀ q, q ∈ ps → sound_for e q) → p ∈ ps →
  ∃ e' d, answer e p path a (fresh p (cached_groups e) path a) = Ok (e', d)
    ∧ forget_hit d = fresh p (cached_groups e) path a
    ∧ evaluator_ok e' ∧ cache_capacity e' = cache_capacity e
    ∧ cached_policy e' = cached_policy e ∧ ∀ q, q ∈ ps → sound_for e' q.
Proof.
  intros He Hk Hinj Hs Hp. unfold answer. destruct (cache_get e a path) as [d|] eqn:Hd.
  { exists e. eexists. split; [reflexivity|]. split; [by apply Hs|done]. }
  edestruct insert_spec as (e' & -> & He' & Hc & Hk' & Hg & Hnew); [done|].
  exists e'. eexists. split; [reflexivity|]. split; [apply fresh_forget|].
  do 3 (split; [done|]). intros q Hq Hkq a' path' d' Hd'.
  rewrite Hg. destruct (Hnew a' path' d' Hd') as [Hold|[= -> -> ->]].
  - apply Hs; congruence.
  - assert (q = p) as -> by (apply Hinj; congruence).
    rewrite <- (fresh_forget p (cached_groups e) path a). unfold forget_hit.
    by rewrite fresh_version.
Qed.

(** ** Runs *)

(** A process that builds policies and asks one evaluator about them. *)
Inductive NacmOp :=
| OpBuild (b : NacmPolicyBuilder)
| OpEvaluate (i : nat) (path : YangPath) (action : NacmAction)
| OpEvaluateForGroups (i : nat) (path : YangPath) (action : NacmAction) (groups : list str).

Record World := {
  counter : Z;
  policies : list NacmPolicy;
  evaluator : NacmEvaluator;
  metrics : Metrics;
}.

(** The counter of cache namespaces starts at 1. *)
Definition world_new (capacity : Z) : World :=
  {| counter := 1; policies := []; evaluator := with_cache_capacity capacity;
     metrics := {| nacm_eval_allow := 0; nacm_eval_deny := 0; nacm_default_deny := 0 |} |}.

Definition world_answer (w : World)
    (r : outcome False (NacmEvaluator * Metrics * AuthorizationDecision)) :
  outcome False (World * option AuthorizationDecision) :=
  let? (e, m, d) := r in
  Ok ({| counter := counter w; policies := policies w; evaluator := e; metrics := m |}, Some d).

Definition exec_op (w : World) (op : NacmOp) :
  outcome False (World * option AuthorizationDecision) :=
  match op with
  | OpBuild b =>
      let '(p, c) := build b (counter w) in
      Ok ({| counter := c; policies := policies w ++ [p]; evaluator := evaluator w;
             metrics := metrics w |}, None)
  | OpEvaluate i path a =>
      match policies w !! i with
      | Some p => world_answer w (evaluator_evaluate (evaluator w) (metrics w) p path a)
      | None => Ok (w, None)
      end
  | OpEvaluateForGroups i path a g =>
      match policies w !! i with
      | Some p =>
          world_answer w (evaluator_evaluate_for_groups (evaluator w) (metrics w) p path a g)
      | None => Ok (w, None)
      end
  end.

Fixpoint run (w : World) (ops : list NacmOp) :
  outcome False (World * list (option AuthorizationDecision)) :=
  match ops with
  | [] => Ok (w, [])
  | op :: ops =>
      let? (w, d) := exec_op w op in
      let? (w, ds) := run w ops in
      Ok (w, d :: ds)
  end.

(** The same operations, answered by the policies themselves. *)
Fixpoint direct (c : Z) (ps : list NacmPolicy) (ops : list NacmOp) :
  list (option AuthorizationDecision) :=
  match ops with
  | [] => []
  | OpBuild b :: ops => let '(p, c) := build b c in None :: direct c (ps ++ [p]) ops
  | OpEvaluate i path a :: ops =>
      ((λ p, policy_evaluate p path a) <$> ps !! i) :: direct c ps ops
  | OpEvaluateForGroups i path a g :: ops =>
      ((λ p, policy_evaluate_for_groups p path a g) <$> ps !! i) :: direct c ps ops
  end.

(** Normalizing the principal's groups does not change a decision. *)
Lemma evaluate_normalized p path a g :
  policy_evaluate_for_groups p path a (normalized_principal_groups g)
  = policy_evaluate_for_groups p path a g.
Proof.
  unfold policy_evaluate_for_groups. rewrite !first_matching_spec.
  assert (scoped_rules p (normalized_principal_groups g) = scoped_rules p g) as ->; [|done].
  unfold scoped_rules. f_equal. f_equal. apply list_fmap_ext. intros _ l _.
  erewrite matches_groups_ext; [done|]. intros x. apply elem_of_set_collect.
Qed.

Definition world_ok (w : World) : Prop :=
  0 < counter w ∧ evaluator_ok (evaluator w)
  ∧ (∀ p q, p ∈ policies w → q ∈ policies w → key_of p = key_of q → p = q)
  ∧ (∀ p, p ∈ policies w → 0 < cache_namespace p < counter w ∧ sound_for (evaluator w) p)
  ∧ (∀ k, cached_policy (evaluator w) = Some k → key_namespace k < counter w).

Lemma world_new_ok n : 0 ≤ n → world_ok (world_new n).
Proof.
  intros Hn. split; [done|]. split; [by apply with_capacity_ok|].
  split; [by intros ? ? ?%not_elem_of_nil|]. by split; [intros ? ?%not_elem_of_nil|].
Qed.

(** Keying the cache for a policy and its groups keeps what is known of the cache. *)
Lemma keyed_ok e p groups (stale : bool) (ps : list NacmPolicy) :
  evaluator_ok e → (∀ q, q ∈ ps → sound_for e q) →
  (stale = false → cached_policy e = Some (key_of p) ∧ cached_groups e = groups) →
  let e' := if stale then rekey e (key_of p) groups else e in
  evaluator_ok e' ∧ cached_policy e' = Some (key_of p) ∧ cached_groups e' = groups
  ∧ cache_capacity e' = cache_capacity e ∧ ∀ q, q ∈ ps → sound_for e' q.
Proof.
  intros He Hs Hst. destruct stale; cbn; cycle 1.
  { destruct Hst as [? ?]; [done|]. done. }
  split; [apply rekey_ok, He|]. do 3 (split; [done|]).
  intros q _ _ a path d. unfold cache_get. cbn. by rewrite lookup_empty.
Qed.

Lemma evaluate_spec e m p path a (ps : list NacmPolicy) groups r :
  evaluator_ok e → (∀ q, q ∈ ps → sound_for e q) →
  (∀ q, q ∈ ps → key_of q = key_of p → q = p) → p ∈ ps →
  r = match groups with
      | None => evaluator_evaluate e m p path a
      | Some g => evaluator_evaluate_for_groups e m p path a g
      end →
  ∃ e' m' d, r = Ok (e', m', d) ∧ forget_hit d = fresh p groups path a
    ∧ evaluator_ok e' ∧ cache_capacity e' = cache_capacity e
    ∧ cached_policy e' = Some (key_of p) ∧ ∀ q, q ∈ ps → sound_for e' q.
Proof.
  intros He Hs Hinj Hp ->. set (g' := normalized_principal_groups <$> groups).
  assert (fresh p groups path a = fresh p g' path a) as ->.
  { subst g'. destruct groups as [g|]; [|done]. cbn. by rewrite evaluate_normalized. }
  set (stale := match g' with
    | None => negb (bool_decide (cached_policy e = Some (key_of p)))
              || match cached_groups e with Some _ => true | None => false end
    | Some g => negb (bool_decide (cached_policy e = Some (key_of p)))
                || negb (bool_decide (cached_groups e = Some g))
    end).
  destruct (keyed_ok e p g' stale ps He Hs) as (He1 & Hk1 & Hg1 & Hc1 & Hs1).
  { subst stale. destruct g' as [g|]; intros [H1 H2]%orb_false_iff.
    - apply negb_false_iff, bool_decide_eq_true in H1, H2. done.
    - apply negb_false_iff, bool_decide_eq_true in H1. by destruct (cached_groups e). }
  set (e1 := if stale then _ else _) in *.
  destruct (answer_spec e1 p path a ps He1 Hk1 Hinj Hs1 Hp)
    as (e' & d & Ha & Hf & He' & Hc & Hk & Hs'). rewrite Hg1 in Ha, Hf.
  exists e', (record_metrics m d), d. split; [|split_and!; [done..| | |done]; congruence].
  subst g'. destruct groups as [g|]; cbn in Ha, stale; subst e1 stale;
    unfold evaluator_evaluate, evaluator_evaluate_for_groups; unfold key_of in Ha;
    cbn [fmap option_fmap option_map] in Ha; by rewrite Ha.
Qed.

Lemma world_build_ok w b :
  counter w < U64_MAX → world_ok w →
  let '(p, c) := build b (counter w) in
  world_ok {| counter := c; policies := policies w ++ [p]; evaluator := evaluator w;
              metrics := metrics w |} ∧ c = counter w + 1.
Proof.
  intros Hlt (Hc & He & Hinj & Hp & Hk). cbn [build next_policy_cache_namespace].
  rewrite Z.mod_small by (unfold U64_MAX in *; lia). split; [|done].
  assert (∀ q v rs ls t, q ∈ policies w →
    key_of q ≠ key_of {| version := v; cache_namespace := counter w; rules := rs;
                         rule_lists := ls; trie := t |}) as Hnew.
  { intros q v rs ls t Hq [= Hn _]. apply Hp in Hq as [Hq _]. lia. }
  split; [cbn; lia|]. split; [done|]. cbn. setoid_rewrite elem_of_app.
  setoid_rewrite list_elem_of_singleton. split; [|split].
  - intros p q [Hp1| ->] [Hq| ->] Heq; [by apply Hinj| | |done].
    + by apply Hnew in Heq.
    + symmetry in Heq. by apply Hnew in Heq.
  - intros p [Hp1| ->]; [split; [|by apply Hp]; apply Hp in Hp1; lia|]. cbn. split; [lia|].
    intros Hkey. apply Hk in Hkey. cbn in Hkey. lia.
  - intros k Hkey. apply Hk in Hkey. lia.
Qed.

Lemma world_answer_ok w p path a groups r :
  world_ok w → p ∈ policies w →
  r = match groups with
      | None => evaluator_evaluate (evaluator w) (metrics w) p path a
      | Some g => evaluator_evaluate_for_groups (evaluator w) (metrics w) p path a g
      end →
  ∃ w' d, world_answer w r = Ok (w', Some d) ∧ forget_hit d = fresh p groups path a
    ∧ world_ok w' ∧ counter w' = counter w ∧ policies w' = policies w
    ∧ cache_capacity (evaluator w') = cache_capacity (evaluator w).
Proof.
  intros (Hc & He & Hinj & Hp & Hk) Hin Hr.
  destruct (evaluate_spec (evaluator w) (metrics w) p path a (policies w) groups r He)
    as (e' & m' & d & -> & Hf & He' & Hcap & Hk' & Hs'); [by intros q Hq; apply Hp|auto|done..|].
  eexists _, d. split; [reflexivity|]. split; [done|]. split; [|done].
  split; [done|]. split; [done|]. split; [done|]. cbn. split.
  - intros q Hq. split; [by apply Hp|by apply Hs'].
  - rewrite Hk'. intros k [= <-]. apply Hp in Hin as [[_ Hin] _]. exact Hin.
Qed.

(** One operation: it returns, and answers as the policy would. *)
Lemma exec_op_spec w op :
  counter w < U64_MAX → world_ok w →
  ∃ w' d, exec_op w op = Ok (w', d) ∧ world_ok w' ∧ counter w' ≤ counter w + 1
    ∧ cache_capacity (evaluator w') = cache_capacity (evaluator w)
    ∧ ∀ ops, direct (counter w) (policies w) (op :: ops)
             = option_map forget_hit d :: direct (counter w') (policies w') ops.
Proof.
  intros Hlt Hw. destruct op as [b|i path a|i path a g]; cbn [exec_op direct].
  - pose proof (world_build_ok w b Hlt Hw) as Hb. destruct (build b (counter w)) as [p c].
    destruct Hb as [Hb ->]. eexists _, None. split; [reflexivity|]. cbn. by repeat split; try apply Hb.
  - destruct (policies w !! i) as [p|] eqn:Hp; cycle 1.
    { exists w, None. split; [done|]. split; [done|]. split; [lia|done]. }
    destruct (world_answer_ok w p path a None _ Hw (list_elem_of_lookup_2 _ _ _ Hp) eq_refl)
      as (w' & d & -> & Hf & Hw' & Hc & Hps & Hcap).
    exists w', (Some d). split; [done|]. split; [done|]. split; [lia|]. split; [done|].
    intros ops. cbn. by rewrite Hf, Hc, Hps.
  - destruct (policies w !! i) as [p|] eqn:Hp; cycle 1.
    { exists w, None. split; [done|]. split; [done|]. split; [lia|done]. }
    destruct (world_answer_ok w p path a (Some g) _ Hw (list_elem_of_lookup_2 _ _ _ Hp) eq_refl)
      as (w' & d & -> & Hf & Hw' & Hc & Hps & Hcap).
    exists w', (Some d). split; [done|]. split; [done|]. split; [lia|]. split; [done|].
    intros ops. cbn. by rewrite Hf, Hc, Hps.
Qed.

Lemma run_spec ops w :
  world_ok w → counter w + len ops ≤ U64_MAX →
  ∃ w' ds, run w ops = Ok (w', ds) ∧ world_ok w'
    ∧ cache_capacity (evaluator w') = cache_capacity (evaluator w)
    ∧ option_map forget_hit <$> ds = direct (counter w) (policies w) ops.
Proof.
  revert w. induction ops as [|op ops IH]; intros w Hw Hlen.
  { exists w, []. by split_and!. }
  rewrite len_cons in Hlen. pose proof (len_nonneg ops).
  destruct (exec_op_spec w op) as (w1 & d & He & Hw1 & Hc & Hcap & Hd); [lia|done|].
  destruct (IH w1) as (w2 & ds & Hr & Hw2 & Hcap2 & Hds); [done|lia|].
  exists w2, (d :: ds). cbn [run]. rewrite He, Hr. split; [done|]. split; [done|].
  split; [congruence|]. rewrite Hd, <- Hds. done.
Qed.

(** C33. The evaluator is transparent: in any run that builds policies and asks one
    evaluator about them, with and without groups, every call returns, and its
    answer is, the mark of a cache hit aside, the one the policy gives when it is
    evaluated directly with the principal's groups. *)
Theorem evaluator_transparent capacity ops :
  0 ≤ capacity → len ops < U64_MAX →
  ∃ w ds, run (world_new capacity) ops = Ok (w, ds)
          ∧ option_map forget_hit <$> ds = direct 1 [] ops.
Proof.
  intros Hcap Hlen. destruct (run_spec ops (world_new capacity)) as (w & ds & Hr & _ & _ & Hds).
  - by apply world_new_ok.
  - cbn. lia.
  - by exists w, ds.
Qed.

(** The evaluator's cache is bounded: after any run the number of entries it
    counts is the length of its eviction queue, which lists each cached decision once
    and nothing else, and does not exceed the capacity. *)
Theorem evaluator_bounded capacity ops w ds :
  0 ≤ capacity → len ops < U64_MAX → run (world_new capacity) ops = Ok (w, ds) →
  let e := evaluator w in
  cache_entries e = len (eviction_order e) ∧ cache_entries e ≤ capacity
  ∧ NoDup (eviction_order e)
  ∧ ∀ a p, (a, p) ∈ eviction_order e ↔ is_Some (cache_get e a p).
Proof.
  intros Hcap Hlen Hr. destruct (run_spec ops (world_new capacity))
    as (w' & ds' & Hr' & (_ & (_ & Hle & Hnd & Hl & Hp) & _) & Hc & _).
  - by apply world_new_ok.
  - cbn. lia.
  - rewrite Hr in Hr'. injection Hr' as <- <-. cbn in Hc. rewrite Hc in Hle. done.
Qed.

(** Two policies that answer differently, asked in turn with a cache of one entry. *)
Definition sample_ops : list NacmOp :=
  let path := {| path_segments := [sample_node "interfaces"; sample_node "interface"] |} in
  let everything := {| segments := []; subtree := true |} in
  [OpBuild (add_rule (builder_new 7) (rule_allow Read everything));
   OpBuild (add_rule (builder_new 7) (rule_deny Read everything));
   OpEvaluate 0 path Read; OpEvaluate 0 path Read; OpEvaluate 0 path Update;
   OpEvaluate 1 path Read; OpEvaluateForGroups 0 path Read [lit "ops"]].

Lemma evaluator_transparent_witness :
  (∃ w ds, run (world_new 1) sample_ops = Ok (w, ds)
           ∧ option_map forget_hit <$> ds = direct 1 [] sample_ops)
  ∧ direct 1 [] sample_ops
    = [None; None; Some (decision_new Allow (Some 0) false 7);
       Some (decision_new Allow (Some 0) false 7); Some (decision_new Deny None false 7);
       Some (decision_new Deny (Some 0) false 7); Some (decision_new Allow (Some 0) false 7)].
Proof. split; [apply (evaluator_transparent 1 sample_ops); done|by vm_compute]. Defined.

Definition sample_entries : option (Z * Z * bool) :=
  match run (world_new 1) sample_ops with
  | Ok (w, _) =>
      let e := evaluator w in
      Some (cache_entries e, len (eviction_order e), bool_decide (cache_entries e ≤ 1))
  | _ => None
  end.

Lemma evaluator_bounded_witness :
  sample_entries = Some (1, 1, true)
  ∧ ∃ w ds, run (world_new 1) sample_ops = Ok (w, ds)
            ∧ cache_entries (evaluator w) = len (eviction_order (evaluator w)).
Proof.
  split; [by vm_compute|].
  destruct (run_spec sample_ops (world_new 1) (world_new_ok 1 ltac:(done)) ltac:(done))
    as (w & ds & Hr & _). exists w, ds. split; [done|].
  by apply (evaluator_bounded 1 sample_ops w ds).
Defined.
