(* ===== verification/AlarmModel.v ===== *)
(** The alarm model, [crates/opc-alarm/src/model.rs]: the severity order, the
    taxonomy of probable causes with its printer and parser, affected objects, the
    deduplication key and the alarm record.  SHA-256, the JSON type of the details
    and the order in which a [HashMap] yields its values are the [Externals]; the
    bytes fed to the hash are modelled, so that the theorem says which alarms share a
    hash input.  Serde and the redaction for export are left out. *)
From S2P Require Import Prelude.
From S2P Require Import Text.

(** ** What the crate uses of other code

    [Value] is [serde_json::Value]; [sha256] is [sha2::Sha256] over all the bytes it
    was fed, a digest of 32 bytes; [map_values] is the order of [HashMap::values],
    which the standard library leaves open. *)
Class Externals := {
  Value : Type;
  sha256 : bytes → bytes;
  sha256_len : ∀ input, len (sha256 input) = 32;
  sha256_bytes : ∀ input, bytes_ok (sha256 input);
  map_values : ∀ {A}, gmap str A → list A;
  map_values_perm : ∀ {A} (m : gmap str A), map_values m ≡ₚ (map_to_list m).*2;
}.

(** ** Regions *)

Record RegionId := { region_str : str }.

Inductive InvalidRegionId :=
| RegionEmpty
| RegionTooLong (len max : Z).

Definition RegionId_try_new (v : str) : outcome InvalidRegionId RegionId :=
  if str_len v =? 0 then Err RegionEmpty
  else if 128 <? str_len v then Err (RegionTooLong (str_len v) 128)
  else Ok {| region_str := v |}.

(** [RegionId::new] panics where [try_new] fails. *)
Definition RegionId_new (v : str) : outcome False RegionId :=
  match RegionId_try_new v with
  | Ok r => Ok r
  | _ => Crash
  end.

#[export] Instance RegionId_eq_dec : EqDecision RegionId.
Proof. solve_decision. Defined.

(** [AlarmId] and [AlarmType] wrap a string; as keys of a map they are that string. *)
Abbreviation AlarmId := str.
Abbreviation AlarmType := str.
Abbreviation DedupKey := str.

(** ** Severity *)

Inductive Severity := SevCleared | Indeterminate | Warning | Minor | Major | Critical.

#[export] Instance Severity_eq_dec : EqDecision Severity.
Proof. solve_decision. Defined.

Definition severity_rank (s : Severity) : Z :=
  match s with
  | SevCleared => 0
  | Indeterminate => 1
  | Warning => 2
  | Minor => 3
  | Major => 4
  | Critical => 5
  end.

Definition severity_cmp (a b : Severity) : comparison := severity_rank a ?= severity_rank b.

Definition severity_to_string (s : Severity) : str :=
  match s with
  | Critical => lit "critical"
  | Major => lit "major"
  | Minor => lit "minor"
  | Warning => lit "warning"
  | Indeterminate => lit "indeterminate"
  | SevCleared => lit "cleared"
  end.

(** ** Probable causes *)

Inductive ProbableCause :=
| ConfigApplyFailed
| ConfigDriftDetected
| CertificateExpiring
| CertificateExpired
| IdentityUnavailable
| AuthorizationPolicyInvalid
| SessionStoreUnavailable
| LeaseLost
| BackendTimeout
| NrfUnreachable
| SbiOverload
| PeerUnreachable
| PacketDropThreshold
| DataplanePreflightFailed
| StorageCorruption
| AuditChainInvalid
| KeyUnavailable
| LiDeliveryFailed
| ChargingExportFailed
| PrivacyPolicyViolation
| SecurityBreakGlass
| Other (ns : str).

#[export] Instance ProbableCause_eq_dec : EqDecision ProbableCause.
Proof. solve_decision. Defined.

(** The literal arms of [from_str], in order. *)
Definition cause_names : list (string * ProbableCause) :=
  [("config-apply-failed", ConfigApplyFailed);
   ("config-drift-detected", ConfigDriftDetected);
   ("certificate-expiring", CertificateExpiring);
   ("certificate-expired", CertificateExpired);
   ("identity-unavailable", IdentityUnavailable);
   ("authorization-policy-invalid", AuthorizationPolicyInvalid);
   ("session-store-unavailable", SessionStoreUnavailable);
   ("lease-lost", LeaseLost);
   ("backend-timeout", BackendTimeout);
   ("nrf-unreachable", NrfUnreachable);
   ("sbi-overload", SbiOverload);
   ("peer-unreachable", PeerUnreachable);
   ("packet-drop-threshold", PacketDropThreshold);
   ("dataplane-preflight-failed", DataplanePreflightFailed);
   ("storage-corruption", StorageCorruption);
   ("audit-chain-invalid", AuditChainInvalid);
   ("key-unavailable", KeyUnavailable);
   ("li-delivery-failed", LiDeliveryFailed);
   ("charging-export-failed", ChargingExportFailed);
   ("privacy-policy-violation", PrivacyPolicyViolation);
   ("security-break-glass", SecurityBreakGlass)].

Definition DOT : Z := 46.

(** The checks on the segments of a namespaced cause. *)
Definition namespaced (normalized : str) : bool :=
  contains normalized DOT
  && forallb (λ segment,
       negb (bool_decide (segment = [])) && negb (existsb is_whitespace segment))
       (split normalized DOT).

(** [ParseProbableCauseError] holds the input. *)
Definition cause_from_str (s : str) : outcome str ProbableCause :=
  match find (λ entry, bool_decide (s = lit entry.1)) cause_names with
  | Some (_, cause) => Ok cause
  | None =>
      match strip_prefix s (lit "other:") with
      | Some ns =>
          let normalized := trim ns in
          if bool_decide (normalized = []) || negb (namespaced normalized) then Err s
          else Ok (Other normalized)
      | None => Err s
      end
  end.

Definition cause_to_string (c : ProbableCause) : str :=
  match c with
  | ConfigApplyFailed => lit "config-apply-failed"
  | ConfigDriftDetected => lit "config-drift-detected"
  | CertificateExpiring => lit "certificate-expiring"
  | CertificateExpired => lit "certificate-expired"
  | IdentityUnavailable => lit "identity-unavailable"
  | AuthorizationPolicyInvalid => lit "authorization-policy-invalid"
  | SessionStoreUnavailable => lit "session-store-unavailable"
  | LeaseLost => lit "lease-lost"
  | BackendTimeout => lit "backend-timeout"
  | NrfUnreachable => lit "nrf-unreachable"
  | SbiOverload => lit "sbi-overload"
  | PeerUnreachable => lit "peer-unreachable"
  | PacketDropThreshold => lit "packet-drop-threshold"
  | DataplanePreflightFailed => lit "dataplane-preflight-failed"
  | StorageCorruption => lit "storage-corruption"
  | AuditChainInvalid => lit "audit-chain-invalid"
  | KeyUnavailable => lit "key-unavailable"
  | LiDeliveryFailed => lit "li-delivery-failed"
  | ChargingExportFailed => lit "charging-export-failed"
  | PrivacyPolicyViolation => lit "privacy-policy-violation"
  | SecurityBreakGlass => lit "security-break-glass"
  | Other ns => lit "other:" ++ ns
  end.

(** ** Affected objects *)

Inductive AffectedObject :=
| NfInstance (kind instance : str)
| Interface (nf name : str)
| Peer (nf peer_id : str)
| SessionStore (nf : str) (shard : option str)
| ObjSlice (snssai : str)
| ObjTenant (tenant : str)
| Certificate (key_id : str)
| DataPlaneQueue (nf interface : str) (queue : Z).

#[export] Instance AffectedObject_eq_dec : EqDecision AffectedObject.
Proof. solve_decision. Defined.

(** [to_string] of an unsigned integer of at most 64 bits, which has at most 20
    digits. *)
Fixpoint digits (fuel : nat) (n : Z) : str :=
  match fuel with
  | O => []
  | S fuel => (if n <? 10 then [] else digits fuel (n / 10)) ++ [48 + Z.modulo n 10]
  end.

Definition decimal (n : Z) : str := digits 20 n.

Definition object_to_string (o : AffectedObject) : str :=
  match o with
  | NfInstance kind instance => lit "nf:" ++ kind ++ lit ":" ++ instance
  | Interface nf name => lit "interface:" ++ nf ++ lit ":" ++ name
  | Peer nf peer_id => lit "peer:" ++ nf ++ lit ":" ++ peer_id
  | SessionStore nf (Some s) => lit "session-store:" ++ nf ++ lit ":shard=" ++ s
  | SessionStore nf None => lit "session-store:" ++ nf
  | ObjSlice snssai => lit "slice:" ++ snssai
  | ObjTenant tenant => lit "tenant:" ++ tenant
  | Certificate key_id => lit "certificate:" ++ key_id
  | DataPlaneQueue nf interface queue =>
      lit "dp-queue:" ++ nf ++ lit ":" ++ interface ++ lit ":q" ++ decimal queue
  end.

(** ** The deduplication key

    A hasher is the list of the bytes it was fed. *)

(** [feed] and [feed_field]: the length, cast to 32 bits, then the bytes. *)
Definition feed (hasher : bytes) (field : str) : bytes :=
  hasher ++ u32_to_be_bytes (Z.modulo (str_len field) 4294967296) ++ as_bytes field.

Definition feed_opt (hasher : bytes) (opt : option str) : bytes :=
  match opt with
  | Some v => feed (hasher ++ [1]) v
  | None => hasher ++ [0]
  end.

Definition feed_variant_and_fields (hasher : bytes) (tag : str) (fields : list str) : bytes :=
  foldl feed (feed hasher tag) fields.

Definition feed_to_hasher (o : AffectedObject) (hasher : bytes) : bytes :=
  match o with
  | NfInstance kind instance =>
      feed_variant_and_fields hasher (lit "NfInstance") [kind; instance]
  | Interface nf name => feed_variant_and_fields hasher (lit "Interface") [nf; name]
  | Peer nf peer_id => feed_variant_and_fields hasher (lit "Peer") [nf; peer_id]
  | SessionStore nf shard =>
      feed_opt (feed_variant_and_fields hasher (lit "SessionStore") [nf]) shard
  | ObjSlice snssai => feed_variant_and_fields hasher (lit "Slice") [snssai]
  | ObjTenant tenant => feed_variant_and_fields hasher (lit "Tenant") [tenant]
  | Certificate key_id => feed_variant_and_fields hasher (lit "Certificate") [key_id]
  | DataPlaneQueue nf interface queue =>
      feed_variant_and_fields hasher (lit "DataPlaneQueue") [nf; interface; decimal queue]
  end.

(** What [DedupKey::compute] hashes. *)
Definition dedup_input (alarm_type : AlarmType) (probable_cause : ProbableCause)
    (affected_object : AffectedObject) (tenant slice region : option str) : bytes :=
  let hasher := feed [] alarm_type in
  let hasher := feed hasher (cause_to_string probable_cause) in
  let hasher := feed_to_hasher affected_object hasher in
  let hasher := feed_opt hasher tenant in
  let hasher := feed_opt hasher slice in
  feed_opt hasher region.

Definition HEX : str := lit "0123456789abcdef".

(** [HEX[n]]; the table has 16 entries and [n] is half an octet ([hex_in_range]). *)
Definition hex_char (n : Z) : Z := nth (Z.to_nat n) HEX 0.

(** [hex::encode]. *)
Definition hex_encode (l : bytes) : str :=
  foldl (λ acc b, acc ++ [hex_char (Z.shiftr b 4); hex_char (Z.land b 0xf)]) [] l.

(** ** Alarms *)

Inductive AlarmState := Raised | Updated | Acknowledged | Suppressed | Cleared | Expired.

#[export] Instance AlarmState_eq_dec : EqDecision AlarmState.
Proof. solve_decision. Defined.

Definition is_active (s : AlarmState) : bool :=
  match s with
  | Raised | Updated | Acknowledged | Suppressed => true
  | Cleared | Expired => false
  end.

Definition state_to_string (s : AlarmState) : str :=
  match s with
  | Raised => lit "raised"
  | Updated => lit "updated"
  | Acknowledged => lit "acknowledged"
  | Suppressed => lit "suppressed"
  | Cleared => lit "cleared"
  | Expired => lit "expired"
  end.

Inductive ReadinessImpact := ForceNotReady | DegradedOnly | NoImpact.

Section Model.
Context {externals : Externals}.

Definition dedup_compute (alarm_type : AlarmType) (probable_cause : ProbableCause)
    (affected_object : AffectedObject) (tenant slice region : option str) :
  DedupKey :=
  let hash :=
    sha256 (dedup_input alarm_type probable_cause affected_object tenant slice region) in
  hex_encode (take 16 hash).

Definition AlarmDetails : Type := option Value.
Definition details_empty : AlarmDetails := None.
Definition details_with_value (v : Value) : AlarmDetails := Some v.

(** An [OffsetDateTime] is the number of nanoseconds since the epoch, a [Uuid] its
    128-bit value. *)
Record Alarm := {
  alarm_id : AlarmId;
  alarm_type : AlarmType;
  severity : Severity;
  probable_cause : ProbableCause;
  affected_object : AffectedObject;
  tenant : option str;
  slice : option str;
  region : option RegionId;
  text : str;
  details : AlarmDetails;
  state : AlarmState;
  raised_at : Z;
  updated_at : Z;
  cleared_at : option Z;
  correlation_id : option Z;
}.

Definition dedup_key (self : Alarm) : DedupKey :=
  dedup_compute (alarm_type self) (probable_cause self) (affected_object self)
    (tenant self) (slice self) (region_str <$> region self).

Definition readiness_impact (self : Alarm) : ReadinessImpact :=
  if negb (is_active (state self)) then NoImpact
  else
    match severity self with
    | Critical => ForceNotReady
    | Major => DegradedOnly
    | Minor | Warning | Indeterminate | SevCleared => NoImpact
    end.
End Model.

(** ** The hash input is an encoding

    Each feed appends a code of its argument of which no other is a prefix, so the
    input of the hash determines everything that was fed. *)

(** The strings that are fed: their lengths fit in the 32 bits of the prefix. *)
Definition fed (s : str) : Prop := chars_ok s ∧ str_len s < 4294967296.
Definition fed_opt (o : option str) : Prop := ∀ s, o = Some s → fed s.

Definition fed_object (o : AffectedObject) : Prop :=
  match o with
  | NfInstance a b | Interface a b | Peer a b => fed a ∧ fed b
  | SessionStore a shard => fed a ∧ fed_opt shard
  | ObjSlice a | ObjTenant a | Certificate a => fed a
  | DataPlaneQueue a b queue => fed a ∧ fed b ∧ u16 queue
  end.

Definition fed_cause (c : ProbableCause) : Prop :=
  match c with
  | Other ns => chars_ok ns ∧ str_len ns + 6 < 4294967296
  | _ => True
  end.

Definition code (s : str) : bytes := u32_to_be_bytes (str_len s) ++ as_bytes s.
Definition code_opt (o : option str) : bytes :=
  match o with Some s => 1 :: code s | None => [0] end.

Lemma feed_code h s : fed s → feed h s = h ++ code s.
Proof.
  intros [_ Hs]. unfold feed, code. rewrite Z.mod_small; [done|].
  pose proof (len_nonneg (as_bytes s)). unfold str_len in *. lia.
Qed.

Lemma feed_opt_code h o : fed_opt o → feed_opt h o = h ++ code_opt o.
Proof.
  intros Ho. destruct o as [s|]; cbn; [|done]. rewrite feed_code by by apply Ho.
  by rewrite <- app_assoc.
Qed.

Lemma code_inj s t r r' : fed s → fed t → code s ++ r = code t ++ r' → s = t ∧ r = r'.
Proof.
  intros [Hs Ls] [Ht Lt]. unfold code. rewrite <- !app_assoc. intros He.
  apply app_inj_1 in He as [Hlen He]; [|done].
  assert (str_len s = str_len t) as Heq.
  { pose proof (len_nonneg (as_bytes s)). pose proof (len_nonneg (as_bytes t)).
    unfold u32_to_be_bytes in Hlen. injection Hlen as H1 H2 H3 H4. unfold str_len in *.
    Z.div_mod_to_equations; lia. }
  apply app_inj_1 in He as [He ->]; [|unfold str_len, len in Heq; lia].
  split; [by apply as_bytes_inj|done].
Qed.

Lemma code_opt_inj o p r r' :
  fed_opt o → fed_opt p → code_opt o ++ r = code_opt p ++ r' → o = p ∧ r = r'.
Proof.
  intros Ho Hp. destruct o as [s|], p as [t|]; cbn; intros He; try discriminate He.
  - apply (f_equal tail) in He. apply (code_inj s t) in He as [-> ->];
      [done|by apply Ho|by apply Hp].
  - by injection He as ->.
Qed.

Lemma fed_lit s : bool_decide (str_len (lit s) < 4294967296) = true → fed (lit s).
Proof. intros H%bool_decide_eq_true. split; [apply lit_chars_ok|done]. Qed.

#[export] Hint Extern 1 (fed (lit _)) => (apply fed_lit; vm_compute; reflexivity) : rust.

Lemma digits_ascii fuel n : 0 ≤ n → Forall (λ c, 48 ≤ c < 58) (digits fuel n).
Proof.
  revert n. induction fuel as [|fuel IH]; intros n Hn; cbn; [done|].
  apply Forall_app. split; [|constructor; [Z.div_mod_to_equations; lia|done]].
  destruct (n <? 10); [done|]. apply IH. Z.div_mod_to_equations; lia.
Qed.

Lemma digits_length fuel n : (length (digits fuel n) ≤ fuel)%nat.
Proof.
  revert n. induction fuel as [|fuel IH]; intros n; cbn; [lia|]. rewrite List.length_app. cbn.
  destruct (n <? 10); cbn; [lia|]. specialize (IH (n / 10)). lia.
Qed.

Lemma digits_inj fuel m n :
  0 ≤ m < 10 ^ Z.of_nat fuel → 0 ≤ n < 10 ^ Z.of_nat fuel → digits fuel m = digits fuel n → m = n.
Proof.
  revert m n. induction fuel as [|fuel IH]; intros m n Hm Hn; cbn [digits]; [cbn in *; lia|].
  intros [He [= Hd]]%app_inj_tail. rewrite Nat2Z.inj_succ, Z.pow_succ_r in * by lia.
  assert (∀ k, 10 ≤ k → digits fuel (k / 10) = [] → k < 10 * 10 ^ Z.of_nat fuel → False) as Hnil.
  { intros k Hk Hz Hlt. destruct fuel; cbn [digits] in Hz; [cbn in Hlt; lia|].
    by apply app_eq_nil in Hz as [_ ?]. }
  assert (m / 10 = n / 10 → m = n) as Hq by (Z.div_mod_to_equations; lia).
  destruct (Z.ltb_spec m 10), (Z.ltb_spec n 10).
  - Z.div_mod_to_equations; lia.
  - symmetry in He. exfalso. by eapply Hnil; [| |apply Hn].
  - exfalso. by eapply Hnil; [| |apply Hm].
  - apply Hq, IH; [| |done]; Z.div_mod_to_equations; lia.
Qed.

Lemma as_bytes_ascii s : Forall (λ c, 0 ≤ c < 128) s → as_bytes s = s.
Proof.
  induction 1 as [|c s Hc _ IH]; [done|].
  change (as_bytes (c :: s)) with (char_utf8 c ++ as_bytes s). rewrite IH. unfold char_utf8. by rewrite (proj2 (Z.ltb_lt c 128)) by lia.
Qed.

Lemma fed_decimal n : u16 n → fed (decimal n).
Proof.
  intros Hn. pose proof (digits_ascii 20 n ltac:(unfold u16 in *; lia)) as Ha. split.
  - eapply Forall_impl; [exact Ha|]. cbn. lia.
  - unfold str_len, decimal. rewrite as_bytes_ascii by (eapply Forall_impl; [exact Ha|]; cbn; lia).
    pose proof (digits_length 20 n). unfold len. lia.
Qed.

Lemma decimal_inj m n : u16 m → u16 n → decimal m = decimal n → m = n.
Proof. unfold u16. intros Hm Hn. apply digits_inj; cbn; lia. Qed.

Lemma str_len_app s t : str_len (s ++ t) = str_len s + str_len t.
Proof. unfold str_len, as_bytes. by rewrite fmap_app, join_app, len_app. Qed.

Lemma fed_cause_string c : fed_cause c → fed (cause_to_string c).
Proof.
  destruct c as [| | | | | | | | | | | | | | | | | | | | |ns];
    cbn [cause_to_string]; auto with rust.
  intros [Hns Hl]. split; [apply Forall_app; split; [apply lit_chars_ok|done]|].
  rewrite str_len_app. change (str_len (lit "other:")) with 6. lia.
Qed.

Lemma cause_to_string_inj c d : cause_to_string c = cause_to_string d → c = d.
Proof.
  destruct c, d; cbn [cause_to_string]; intros H; try done; try (by vm_compute in H).
  by apply app_inv_head in H as ->.
Qed.

(** The fields of an object, as they are fed after its tag. *)
Definition object_code (o : AffectedObject) : bytes :=
  match o with
  | NfInstance a b => code (lit "NfInstance") ++ code a ++ code b
  | Interface a b => code (lit "Interface") ++ code a ++ code b
  | Peer a b => code (lit "Peer") ++ code a ++ code b
  | SessionStore a shard => code (lit "SessionStore") ++ code a ++ code_opt shard
  | ObjSlice a => code (lit "Slice") ++ code a
  | ObjTenant a => code (lit "Tenant") ++ code a
  | Certificate a => code (lit "Certificate") ++ code a
  | DataPlaneQueue a b queue =>
      code (lit "DataPlaneQueue") ++ code a ++ code b ++ code (decimal queue)
  end.

Lemma feed_object_code o h : fed_object o → feed_to_hasher o h = h ++ object_code o.
Proof.
  destruct o; cbn [fed_object feed_to_hasher object_code]; intros Ho;
    unfold feed_variant_and_fields; cbn [foldl]; destruct_and?;
    rewrite ?feed_opt_code, !feed_code by auto using fed_decimal with rust;
    by rewrite <- ?app_assoc.
Qed.

Lemma object_code_inj o p r r' :
  fed_object o → fed_object p → object_code o ++ r = object_code p ++ r' → o = p ∧ r = r'.
Proof.
  destruct o, p; cbn [fed_object object_code]; rewrite <- ?app_assoc; intros Ho Hp He;
    destruct_and?; apply code_inj in He as [Htag He]; auto with rust;
    try (by vm_compute in Htag); clear Htag;
    repeat match goal with
    | H : code (decimal _) ++ _ = _ |- _ =>
        apply code_inj in H as [?%decimal_inj H]; auto using fed_decimal
    | H : code _ ++ _ = _ |- _ => apply code_inj in H as [-> H]; [|done..]
    | H : code_opt _ ++ _ = _ |- _ => apply code_opt_inj in H as [-> H]; [|done..]
    end; by subst.
Qed.

(** What identifies an alarm: the six fields that are fed. *)
Definition Identity : Type :=
  AlarmType * ProbableCause * AffectedObject * option str * option str * option str.

Definition identity_input (i : Identity) : bytes :=
  let '(ty, cause, object, te, sl, re) := i in dedup_input ty cause object te sl re.

Definition identity_fed (i : Identity) : Prop :=
  let '(ty, cause, object, te, sl, re) := i in
  fed ty ∧ fed_cause cause ∧ fed_object object ∧ fed_opt te ∧ fed_opt sl ∧ fed_opt re.

Lemma identity_input_code ty cause object te sl re :
  identity_fed (ty, cause, object, te, sl, re) →
  dedup_input ty cause object te sl re
  = code ty ++ code (cause_to_string cause) ++ object_code object
    ++ code_opt te ++ code_opt sl ++ code_opt re ++ [].
Proof.
  intros (? & ? & ? & ? & ? & ?). unfold dedup_input.
  rewrite !feed_opt_code, feed_object_code, !feed_code by auto using fed_cause_string.
  cbn [app]. by rewrite <- !app_assoc, app_nil_r.
Qed.

Lemma identity_input_inj i j :
  identity_fed i → identity_fed j → identity_input i = identity_input j → i = j.
Proof.
  destruct i as [[[[[ty c] o] te] sl] re], j as [[[[[ty' c'] o'] te'] sl'] re']. intros Hi Hj.
  cbn [identity_input]. rewrite !identity_input_code by done.
  destruct Hi as (? & ? & ? & ? & ? & ?), Hj as (? & ? & ? & ? & ? & ?). intros He.
  apply code_inj in He as [-> He]; [|done..].
  apply code_inj in He as [->%cause_to_string_inj He]; [|by apply fed_cause_string..].
  apply object_code_inj in He as [-> He]; [|done..].
  do 3 (apply code_opt_inj in He as [-> He]; [|done..]). done.
Qed.

(** Half an octet is an index of the table of digits. *)
Lemma hex_in_range b : u8 b → 0 ≤ Z.shiftr b 4 < len HEX ∧ 0 ≤ Z.land b 0xf < len HEX.
Proof. revert b. unfold u8. by_enum 256%nat. Qed.

Lemma hex_char_inj :
  ∀ a, 0 ≤ a < 256 →
    (λ a, forallb (λ k, let b := Z.of_nat k in
      negb (bool_decide ([hex_char (Z.shiftr a 4); hex_char (Z.land a 0xf)]
            = [hex_char (Z.shiftr b 4); hex_char (Z.land b 0xf)]))
      || bool_decide (a = b)) (seq 0 256) = true) a.
Proof. by_enum 256%nat. Qed.

Lemma hex_encode_app l acc :
  foldl (λ acc b, acc ++ [hex_char (Z.shiftr b 4); hex_char (Z.land b 0xf)]) acc l
  = acc ++ hex_encode l.
Proof.
  unfold hex_encode. revert acc. induction l as [|b l IH]; intros acc; cbn [foldl];
    [by rewrite app_nil_r|]. rewrite IH, (IH ([] ++ _)). by rewrite app_assoc.
Qed.

Lemma hex_encode_cons b l :
  hex_encode (b :: l) = hex_char (Z.shiftr b 4) :: hex_char (Z.land b 0xf) :: hex_encode l.
Proof. unfold hex_encode at 1. cbn [foldl]. by rewrite hex_encode_app. Qed.

Lemma hex_encode_len l : len (hex_encode l) = 2 * len l.
Proof. induction l as [|b l IH]; [done|]. rewrite hex_encode_cons. len_lia. Qed.

Lemma hex_encode_inj l k : bytes_ok l → bytes_ok k → hex_encode l = hex_encode k → l = k.
Proof.
  revert k. induction l as [|a l IH]; intros [|b k] Hl Hk; rewrite ?hex_encode_cons; try done.
  apply Forall_cons in Hl as [Ha Hl], Hk as [Hb Hk]. intros [= H1 H2 He].
  f_equal; [|by apply IH]. pose proof (hex_char_inj a Ha) as Hd. cbn beta in Hd.
  rewrite forallb_forall in Hd. unfold u8 in *. specialize (Hd (Z.to_nat b)).
  rewrite Z2Nat.id in Hd by lia. cbn zeta in Hd. rewrite H1, H2 in Hd.
  rewrite (bool_decide_true (_ = _)) in Hd by done.
  eapply bool_decide_eq_true_1, Hd, in_seq. lia.
Qed.

Section Keys.
Context {externals : Externals}.

Definition identity_key (i : Identity) : DedupKey :=
  let '(ty, cause, object, te, sl, re) := i in dedup_compute ty cause object te sl re.

Lemma identity_key_hash i : identity_key i = hex_encode (take 16 (sha256 (identity_input i))).
Proof. by destruct i as [[[[[ty c] o] te] sl] re]. Qed.

(** The deduplication key identifies the fault: it is 32 characters long, two
    alarms are given the same hash input exactly when they agree in type, cause,
    affected object, tenant, slice and region, whatever separators these hold, and
    two keys are equal exactly when the first 128 bits of the two digests are. *)
Theorem dedup_key_identity (i j : Identity) :
  identity_fed i → identity_fed j →
  (identity_input i = identity_input j ↔ i = j)
  ∧ (identity_key i = identity_key j
     ↔ take 16 (sha256 (identity_input i)) = take 16 (sha256 (identity_input j)))
  ∧ len (identity_key i) = 32.
Proof.
  intros Hi Hj. split; [split; [by apply identity_input_inj|by intros ->]|].
  rewrite !identity_key_hash. split.
  - split; [|by intros ->].
    apply hex_encode_inj; apply Forall_take, sha256_bytes.
  - rewrite hex_encode_len. pose proof (sha256_len (identity_input i)). unfold len in *.
    rewrite length_take. lia.
Qed.
End Keys.

(** A stand-in for the code outside, with a polynomial in place of the digest. *)
Definition sample_digest (input : bytes) : bytes :=
  let h := foldl (λ h b, Z.modulo (h * 257 + b + 1) (2 ^ 256)) 0 input in
  (λ i, Z.modulo (h / 256 ^ Z.of_nat i) 256) <$> seq 0 32.

#[local] Instance sample_externals : Externals.
Proof.
  refine {| Value := unit; sha256 := sample_digest; map_values A m := (map_to_list m).*2 |}.
  - intros input. unfold sample_digest, len. by rewrite length_fmap.
  - intros input. apply Forall_fmap, Forall_forall. intros b _. unfold u8. cbn.
    apply Z.mod_pos_bound. lia.
  - done.
Defined.

Definition sample_identity (kind instance : string) : Identity :=
  (lit "upf.down", PeerUnreachable, NfInstance (lit kind) (lit instance), None, None,
   Some (lit "east")).

Lemma sample_identity_fed k i :
  bool_decide (str_len (lit k) < 4294967296) = true →
  bool_decide (str_len (lit i) < 4294967296) = true → identity_fed (sample_identity k i).
Proof.
  intros Hk Hi. split; [auto with rust|]. split; [done|].
  split; [by split; apply fed_lit|]. split; [done|]. split; [done|].
  intros s [= <-]. auto with rust.
Qed.

Lemma dedup_key_identity_witness :
  identity_input (sample_identity "a:b" "c") ≠ identity_input (sample_identity "a" "b:c")
  ∧ len (identity_key (sample_identity "a:b" "c")) = 32.
Proof.
  destruct (dedup_key_identity (sample_identity "a:b" "c") (sample_identity "a" "b:c"))
    as (Hi & _ & Hl); [apply sample_identity_fed; reflexivity..|].
  split; [|exact Hl]. intros He%Hi. discriminate He.
Defined.

(** ** The taxonomy's names *)

(** A namespaced cause: at least two segments, none empty or with white space. *)
Definition segment_ok (segment : str) : Prop :=
  segment ≠ [] ∧ Forall (λ c, is_whitespace c = false) segment ∧ DOT ∉ segment.

Definition cause_ok (c : ProbableCause) : Prop :=
  match c with
  | Other ns =>
      ∃ parts, 2 ≤ len parts ∧ Forall segment_ok parts ∧ ns = join parts (lit ".")
  | _ => True
  end.

Lemma not_whitespace s :
  existsb is_whitespace s = false ↔ Forall (λ c, is_whitespace c = false) s.
Proof.
  induction s as [|c s IH]; cbn; [by split|]. rewrite orb_false_iff, IH. by rewrite Forall_cons.
Qed.

Lemma contains_split s c : contains s c = true ↔ 2 ≤ len (split s c).
Proof.
  unfold contains. induction s as [|d s IH]; cbn; [by split|].
  destruct (split_cons s c) as (p & ps & Hp). rewrite Hp in *. rewrite orb_true_iff, IH, Z.eqb_eq.
  destruct (Z.eqb_spec d c) as [->|Hne]; rewrite !len_cons; pose proof (len_nonneg ps);
    [split; [lia|by left]|naive_solver lia].
Qed.

Lemma namespaced_ok ns : namespaced ns = true ↔ cause_ok (Other ns).
Proof.
  unfold namespaced. rewrite andb_true_iff, contains_split, forallb_forall. cbn [cause_ok].
  change (lit ".") with [DOT]. split.
  - intros [Hlen Hall]. exists (split ns DOT). split; [done|]. rewrite split_join. split; [|done].
    apply Forall_forall. intros p Hp. pose proof (split_parts ns DOT) as Hd.
    rewrite Forall_forall in Hd. specialize (Hd p Hp).
    specialize (Hall p (proj1 (list_elem_of_In _ _) Hp)). to_prop.
    split; [by case_bool_decide|]. split; [by apply not_whitespace|done].
  - intros (parts & Hlen & Hp & ->). rewrite join_split; cycle 1.
    { by intros ->. }
    { eapply Forall_impl; [exact Hp|]. by intros s (_ & _ & ?). }
    split; [done|]. intros s Hs%list_elem_of_In. rewrite Forall_forall in Hp.
    destruct (Hp s Hs) as (Hne & Hw & _). rewrite bool_decide_false by done.
    by rewrite (proj2 (not_whitespace s)).
Qed.

(** A namespaced cause begins and ends with a character of a segment. *)
Lemma namespaced_trim ns : cause_ok (Other ns) → trim ns = ns ∧ ns ≠ [].
Proof.
  intros (parts & Hlen & Hp & ->). change (lit ".") with [DOT].
  assert (∀ parts, parts ≠ [] → Forall segment_ok parts →
    Forall (λ c, is_whitespace c = false) (join parts [DOT]) ∧ join parts [DOT] ≠ []) as Hj.
  { clear. intros parts Hne Hp. induction Hp as [|p parts (Hn & Hw & _) Hp IH]; [done|].
    destruct parts as [|q parts]; [done|]. destruct IH as [IHw _]; [done|].
    change (join (p :: q :: parts) [DOT]) with (p ++ DOT :: join (q :: parts) [DOT]).
    split; [|by destruct p]. apply Forall_app. split; [done|]. by constructor. }
  destruct (Hj parts) as [Hw Hn]; [by intros ->|done|]. split; [|done].
  rewrite Forall_forall in Hw.
  apply trim_id; intros c Hc; apply Hw; [by apply head_Some_elem_of|by apply last_Some_elem_of].
Qed.

(** The literal arms print back, and none has the prefix of the namespaced ones. *)
Lemma cause_names_print :
  Forall (λ e, cause_to_string e.2 = lit e.1 ∧ cause_ok e.2
               ∧ take 6 (lit e.1) ≠ lit "other:") cause_names.
Proof.
  repeat (apply Forall_cons; split; [split; [reflexivity|]; split; [exact I|by vm_compute]|]).
  constructor.
Qed.

Lemma find_name s n c :
  find (λ entry, bool_decide (s = lit entry.1)) cause_names = Some (n, c) →
  s = cause_to_string c ∧ cause_ok c.
Proof.
  intros [Hin Hs]%find_some. apply bool_decide_eq_true in Hs as ->.
  pose proof cause_names_print as Hp. rewrite Forall_forall in Hp.
  by destruct (Hp _ (proj2 (list_elem_of_In _ _) Hin)) as (<- & ? & _).
Qed.

Lemma find_other ns :
  find (λ entry, bool_decide (lit "other:" ++ ns = lit entry.1)) cause_names = None.
Proof.
  destruct (find _ _) as [[n c]|] eqn:Hf; [|done]. apply find_some in Hf as [Hin Hs].
  apply bool_decide_eq_true in Hs. pose proof cause_names_print as Hp.
  rewrite Forall_forall in Hp.
  destruct (Hp _ (proj2 (list_elem_of_In _ _) Hin)) as (_ & _ & Hn). by rewrite <- Hs in Hn.
Qed.

Lemma cause_from_other ns :
  cause_from_str (lit "other:" ++ ns)
  = if namespaced (trim ns) then Ok (Other (trim ns)) else Err (lit "other:" ++ ns).
Proof.
  unfold cause_from_str. rewrite find_other, (proj2 (strip_prefix_some _ _ ns)) by done.
  cbn zeta. destruct (namespaced (trim ns)) eqn:Hn; cbn [negb]; [|by rewrite orb_true_r].
  apply namespaced_ok, namespaced_trim in Hn as [_ Hn]. by rewrite bool_decide_false.
Qed.

(** The taxonomy's text form: parsing accepts exactly the canonical name of a
    well-formed cause, or a namespaced one with white space around it, so printing
    and parsing again gives the cause back exactly when it is well formed; every
    other text is an error that carries it. *)
Theorem cause_text_roundtrip :
  (∀ c, cause_from_str (cause_to_string c) = Ok c ↔ cause_ok c)
  ∧ (∀ s c, cause_from_str s = Ok c
      ↔ cause_ok c ∧ (s = cause_to_string c
                      ∨ ∃ ns, c = Other (trim ns) ∧ s = lit "other:" ++ ns))
  ∧ ∀ s, (∃ c, cause_from_str s = Ok c) ∨ cause_from_str s = Err s.
Proof.
  assert (∀ c, cause_ok c → cause_from_str (cause_to_string c) = Ok c) as Hprint.
  { intros c Hc. destruct c as [| | | | | | | | | | | | | | | | | | | | |ns];
      try reflexivity. cbn [cause_to_string]. rewrite cause_from_other.
    rewrite (proj1 (namespaced_trim ns Hc)). by rewrite (proj2 (namespaced_ok ns) Hc). }
  assert (∀ s c, cause_from_str s = Ok c → cause_ok c ∧ (s = cause_to_string c
    ∨ ∃ ns, c = Other (trim ns) ∧ s = lit "other:" ++ ns)) as Hparse.
  { intros s c. destruct (strip_prefix s (lit "other:")) as [ns|] eqn:Hs.
    - apply strip_prefix_some in Hs as ->. rewrite cause_from_other.
      destruct (namespaced _) eqn:Hn; [|done]. intros [= <-].
      apply namespaced_ok in Hn. split; [done|]. right. by exists ns.
    - unfold cause_from_str. destruct (find _ _) as [[n d]|] eqn:Hf; [|by rewrite Hs].
      intros [= <-]. apply find_name in Hf as [-> ?]. split; [done|by left]. }
  split; [|split].
  - intros c. split; [intros [H _]%Hparse; exact H|apply Hprint].
  - intros s c. split; [apply Hparse|]. intros [Hc [->|(ns & -> & ->)]]; [by apply Hprint|].
    rewrite cause_from_other. by rewrite (proj2 (namespaced_ok _) Hc).
  - intros s. unfold cause_from_str. repeat case_match; eauto.
Qed.
