(* ===== verification/AlarmStore.v ===== *)
(** The alarm store of [crates/opc-alarm/src/manager/state.rs]: the trait
    [AlarmStore] as a class of operations, what its documentation promises as the
    class [AlarmStoreLaws] over the map from deduplication keys to active alarms, and
    the bounded [InMemoryStore], which is shown to keep the promises.  A failed
    [debug_assert!] is a [Crash]. *)
From S2P Require Import Prelude.
From S2P Require Import Text.
From S2P Require Import AlarmModel.

Definition DEFAULT_HISTORY_LIMIT : Z := 4096.
Definition DEFAULT_ACTIVE_LIMIT : Z := 4096.

Section Store.
Context {externals : Externals}.

(** ** The trait *)

Class AlarmStore (S : Type) := {
  store_insert : S → Alarm → S;
  store_update : S → Alarm → outcome False S;
  store_get_by_id : S → AlarmId → option Alarm;
  store_get_by_dedup_key : S → DedupKey → option Alarm;
  store_active_alarms : S → list Alarm;
  store_all : S → list Alarm;
  store_history_by_scope : S → option str → option str → list Alarm;
  store_active_count : S → Z;
  store_active_limit : S → option Z;
  store_expire_before : S → Z → outcome False (S * Z);
}.

(** [alarm_matches_scope]: an absent filter matches everything. *)
Definition alarm_matches_scope (alarm : Alarm) (te sl : option str) : bool :=
  let tenant_matches :=
    match te with None => true | Some expected => bool_decide (tenant alarm = Some expected) end in
  let slice_matches :=
    match sl with None => true | Some expected => bool_decide (slice alarm = Some expected) end in
  tenant_matches && slice_matches.

(** ** The store in memory *)

Record InMemoryStore := {
  by_id : gmap AlarmId Alarm;
  by_dedup_key : gmap DedupKey AlarmId;
  history : list Alarm;
  history_limit : Z;
  active_limit : Z;
}.

Definition new_with_limits (hl al : Z) : outcome False InMemoryStore :=
  if negb (0 <? hl) then Crash
  else if negb (0 <? al) then Crash
  else Ok {| by_id := ∅; by_dedup_key := ∅; history := []; history_limit := hl;
             active_limit := al |}.

Definition new_with_history_limit (hl : Z) : outcome False InMemoryStore :=
  new_with_limits hl DEFAULT_ACTIVE_LIMIT.

Definition InMemoryStore_new : outcome False InMemoryStore :=
  new_with_limits DEFAULT_HISTORY_LIMIT DEFAULT_ACTIVE_LIMIT.

Definition with_by_id (self : InMemoryStore) (m : gmap AlarmId Alarm) : InMemoryStore :=
  {| by_id := m; by_dedup_key := by_dedup_key self; history := history self;
     history_limit := history_limit self; active_limit := active_limit self |}.

Definition with_by_dedup_key (self : InMemoryStore) (m : gmap DedupKey AlarmId) :
  InMemoryStore :=
  {| by_id := by_id self; by_dedup_key := m; history := history self;
     history_limit := history_limit self; active_limit := active_limit self |}.

Definition with_history (self : InMemoryStore) (h : list Alarm) : InMemoryStore :=
  {| by_id := by_id self; by_dedup_key := by_dedup_key self; history := h;
     history_limit := history_limit self; active_limit := active_limit self |}.

Definition reindex (self : InMemoryStore) (alarm : Alarm) : InMemoryStore :=
  with_by_dedup_key self (<[dedup_key alarm := alarm_id alarm]> (by_dedup_key self)).

Definition same_history_identity (left right : Alarm) : bool :=
  bool_decide (alarm_id left = alarm_id right)
  && bool_decide (alarm_type left = alarm_type right)
  && bool_decide (severity left = severity right)
  && bool_decide (probable_cause left = probable_cause right)
  && bool_decide (affected_object left = affected_object right)
  && bool_decide (tenant left = tenant right)
  && bool_decide (slice left = slice right)
  && bool_decide (region left = region right)
  && bool_decide (state left = state right).

(** The last record is replaced when it has the same identity; else the oldest is
    evicted from a full ring. *)
Definition record_history (self : InMemoryStore) (alarm : Alarm) : InMemoryStore :=
  let h := history self in
  if match last h with Some l => same_history_identity l alarm | None => false end
  then with_history self (take (length h - 1) h ++ [alarm])
  else
    let h := if len h =? history_limit self then tail h else h in
    with_history self (h ++ [alarm]).

Definition insert (self : InMemoryStore) (alarm : Alarm) : InMemoryStore :=
  let self :=
    if is_active (state alarm) then
      let self := reindex self alarm in
      with_by_id self (<[alarm_id alarm := alarm]> (by_id self))
    else self in
  record_history self alarm.

Definition update (self : InMemoryStore) (alarm : Alarm) : outcome False InMemoryStore :=
  let key := dedup_key alarm in
  let known := by_id self !! alarm_id alarm in
  if is_active (state alarm) then
    let self := with_by_id self (<[alarm_id alarm := alarm]> (by_id self)) in
    if negb (bool_decide (is_Some known)) then Crash
    else
      let self := with_by_dedup_key self (<[key := alarm_id alarm]> (by_dedup_key self)) in
      Ok (record_history self alarm)
  else
    let self := with_by_id self (delete (alarm_id alarm) (by_id self)) in
    if negb (bool_decide (is_Some known)) then Crash
    else
      let self := with_by_dedup_key self (delete key (by_dedup_key self)) in
      Ok (record_history self alarm).

Definition get_by_id (self : InMemoryStore) (id : AlarmId) : option Alarm := by_id self !! id.

Definition get_by_dedup_key (self : InMemoryStore) (key : DedupKey) : option Alarm :=
  by_dedup_key self !! key ≫= λ id, by_id self !! id.

Definition active_alarms (self : InMemoryStore) : list Alarm := map_values (by_id self).

Definition all (self : InMemoryStore) : list Alarm := history self.

Definition history_by_scope (self : InMemoryStore) (te sl : option str) : list Alarm :=
  List.filter (λ alarm, alarm_matches_scope alarm te sl) (history self).

Definition active_count (self : InMemoryStore) : Z := Z.of_nat (size (by_id self)).

(** The record of an alarm that has expired. *)
Definition expired (alarm : Alarm) (cutoff : Z) : Alarm :=
  {| alarm_id := alarm_id alarm; alarm_type := alarm_type alarm; severity := severity alarm;
     probable_cause := probable_cause alarm; affected_object := affected_object alarm;
     tenant := tenant alarm; slice := slice alarm; region := region alarm; text := text alarm;
     details := details alarm; state := Expired; raised_at := raised_at alarm;
     updated_at := cutoff; cleared_at := Some cutoff;
     correlation_id := correlation_id alarm |}.

Fixpoint expire_all (self : InMemoryStore) (to_expire : list Alarm) (cutoff : Z) :
  outcome False InMemoryStore :=
  match to_expire with
  | [] => Ok self
  | alarm :: rest =>
      let? self := update self (expired alarm cutoff) in
      expire_all self rest cutoff
  end.

Definition expire_before (self : InMemoryStore) (cutoff : Z) :
  outcome False (InMemoryStore * Z) :=
  let to_expire := List.filter (λ alarm, updated_at alarm <? cutoff) (map_values (by_id self)) in
  let? self := expire_all self to_expire cutoff in
  Ok (self, len to_expire).

#[export] Instance InMemoryStore_store : AlarmStore InMemoryStore := {|
  store_insert := insert;
  store_update := update;
  store_get_by_id := get_by_id;
  store_get_by_dedup_key := get_by_dedup_key;
  store_active_alarms := active_alarms;
  store_all := all;
  store_history_by_scope := history_by_scope;
  store_active_count := active_count;
  store_active_limit self := Some (active_limit self);
  store_expire_before := expire_before;
|}.

(** ** What a store promises

    [view] is the active alarms by deduplication key.  Recording a record in the
    history puts it last and adds no other. *)

Definition recorded (h : list Alarm) (a : Alarm) (h' : list Alarm) : Prop :=
  last h' = Some a ∧ ∀ b, b ∈ h' → b = a ∨ b ∈ h.

Class AlarmStoreLaws (S : Type) `{!AlarmStore S} := {
  store_ok : S → Prop;
  view : S → gmap DedupKey Alarm;
  view_wf s k a :
    store_ok s → view s !! k = Some a → dedup_key a = k ∧ is_active (state a) = true;
  view_ids s k k' a a' :
    store_ok s → view s !! k = Some a → view s !! k' = Some a' →
    alarm_id a = alarm_id a' → k = k';
  law_get_by_dedup_key s k : store_ok s → store_get_by_dedup_key s k = view s !! k;
  law_get_by_id s i a :
    store_ok s →
    store_get_by_id s i = Some a ↔ ∃ k, view s !! k = Some a ∧ alarm_id a = i;
  law_active_alarms s :
    store_ok s → store_active_alarms s ≡ₚ (map_to_list (view s)).*2;
  law_active_count s : store_ok s → store_active_count s = Z.of_nat (size (view s));
  law_history_by_scope s te sl :
    store_history_by_scope s te sl
    = List.filter (λ a, alarm_matches_scope a te sl) (store_all s);
  law_insert s a :
    store_ok s → is_active (state a) = true → view s !! dedup_key a = None →
    (∀ k b, view s !! k = Some b → alarm_id b ≠ alarm_id a) →
    let s' := store_insert s a in
    store_ok s' ∧ view s' = <[dedup_key a := a]> (view s)
    ∧ recorded (store_all s) a (store_all s')
    ∧ store_active_limit s' = store_active_limit s;
  law_update s a old :
    store_ok s → view s !! dedup_key a = Some old → alarm_id old = alarm_id a →
    ∃ s', store_update s a = Ok s' ∧ store_ok s'
      ∧ view s' = (if is_active (state a) then <[dedup_key a := a]> (view s)
                   else delete (dedup_key a) (view s))
      ∧ recorded (store_all s) a (store_all s')
      ∧ store_active_limit s' = store_active_limit s;
  law_expire_before s cutoff :
    store_ok s →
    ∃ s', store_expire_before s cutoff
          = Ok (s', Z.of_nat (size (view s)) - Z.of_nat (size (view s')))
      ∧ store_ok s' ∧ view s' = filter (λ p, cutoff ≤ updated_at p.2) (view s)
      ∧ (∀ b, b ∈ store_all s' → b ∈ store_all s
           ∨ ∃ k a, view s !! k = Some a ∧ updated_at a < cutoff ∧ b = expired a cutoff)
      ∧ store_active_limit s' = store_active_limit s;
}.

(** ** The store in memory keeps them *)

Definition memory_ok (s : InMemoryStore) : Prop :=
  0 < history_limit s ∧ len (history s) ≤ history_limit s
  ∧ (∀ i a, by_id s !! i = Some a →
       alarm_id a = i ∧ is_active (state a) = true ∧ by_dedup_key s !! dedup_key a = Some i)
  ∧ (∀ k i, by_dedup_key s !! k = Some i → ∃ a, by_id s !! i = Some a ∧ dedup_key a = k).

Definition memory_view (s : InMemoryStore) : gmap DedupKey Alarm :=
  omap (λ i, by_id s !! i) (by_dedup_key s).

Lemma memory_view_lookup s k : memory_view s !! k = get_by_dedup_key s k.
Proof. apply lookup_omap. Qed.

Lemma memory_view_some s k a :
  memory_ok s → memory_view s !! k = Some a ↔ by_id s !! alarm_id a = Some a ∧ dedup_key a = k.
Proof.
  intros (_ & _ & Hid & Hkey). rewrite memory_view_lookup. unfold get_by_dedup_key. split.
  - intros (i & Hk & Hi)%bind_Some. destruct (Hkey _ _ Hk) as (b & Hb & <-).
    rewrite Hi in Hb. injection Hb as <-. by destruct (Hid _ _ Hi) as (-> & _).
  - intros [Hi <-]. destruct (Hid _ _ Hi) as (_ & _ & ->). exact Hi.
Qed.

(** Values that determine their keys appear once. *)
Lemma map_values_nodup {A} (m : gmap str A) :
  (∀ k k' a, m !! k = Some a → m !! k' = Some a → k = k') → NoDup (map_to_list m).*2.
Proof.
  intros Hinj. apply NoDup_fmap_2_strong; [|apply NoDup_map_to_list].
  intros [k a] [k' a'] Hk%elem_of_map_to_list Hk'%elem_of_map_to_list. cbn. intros ->.
  by rewrite (Hinj k k' a').
Qed.

Lemma elem_of_values {A} (m : gmap str A) a : a ∈ (map_to_list m).*2 ↔ ∃ k, m !! k = Some a.
Proof.
  rewrite list_elem_of_fmap. split.
  - intros ([k b] & -> & Hk%elem_of_map_to_list). by exists k.
  - intros [k Hk%elem_of_map_to_list]. by exists (k, a).
Qed.

Lemma memory_values s :
  memory_ok s → (map_to_list (memory_view s)).*2 ≡ₚ (map_to_list (by_id s)).*2.
Proof.
  intros Hs. pose proof Hs as (_ & _ & Hid & _). apply NoDup_Permutation.
  - apply map_values_nodup. intros k k' a [_ Hk]%memory_view_some [_ Hk']%memory_view_some;
      [congruence|done..].
  - apply map_values_nodup. intros k k' a [Hk _]%Hid [Hk' _]%Hid. congruence.
  - intros a. rewrite !elem_of_values. split.
    + intros [k [Hk _]%memory_view_some]; [by exists (alarm_id a)|done].
    + intros [i Hi]. exists (dedup_key a). apply memory_view_some; [done|].
      by destruct (Hid _ _ Hi) as (-> & _).
Qed.

Lemma memory_size s : memory_ok s → size (memory_view s) = size (by_id s).
Proof.
  intros Hs%memory_values. apply Permutation_length in Hs. rewrite !length_fmap in Hs.
  by rewrite !length_map_to_list in Hs.
Qed.

(** Recording a record changes the ring alone, keeps it within its limit and puts the
    record last. *)
Lemma record_history_spec s a :
  0 < history_limit s → len (history s) ≤ history_limit s →
  ∃ h, record_history s a = with_history s h ∧ len h ≤ history_limit s
       ∧ recorded (history s) a h.
Proof.
  intros Hpos Hlen. unfold record_history. destruct (last (history s)) as [l|] eqn:Hl.
  - assert (0 < length (history s))%nat by (destruct (history s); [done|cbn; lia]).
    destruct (same_history_identity l a).
    + eexists. split; [reflexivity|]. split.
      * unfold len in *. rewrite List.length_app, length_take. cbn. lia.
      * split; [apply last_snoc|]. intros b [Hb|Hb]%elem_of_app; [|set_solver]. right.
        rewrite <- (take_drop (length (history s) - 1) (history s)). apply elem_of_app. by left.
    + eexists. split; [reflexivity|]. split.
      * unfold len in *. rewrite List.length_app. cbn.
        destruct (Z.eqb_spec (Z.of_nat (length (history s))) (history_limit s)); [|lia].
        destruct (history s); cbn in *; lia.
      * split; [apply last_snoc|]. intros b [Hb|Hb]%elem_of_app; [|set_solver]. right.
        destruct (_ =? _); [|done]. destruct (history s); [done|by right].
  - apply last_None in Hl as ->. eexists. split; [reflexivity|]. split.
    + rewrite len_app. destruct (_ =? _); unfold len; cbn; lia.
    + split; [apply last_snoc|]. intros b. destruct (_ =? _); set_solver.
Qed.

(** Indexing an alarm whose key and id are both new, or both its own. *)
Lemma memory_index_ok s a h :
  memory_ok s → is_active (state a) = true → len h ≤ history_limit s →
  (∀ b, by_id s !! alarm_id a = Some b → dedup_key b = dedup_key a) →
  (∀ i, by_dedup_key s !! dedup_key a = Some i → i = alarm_id a) →
  let s' := with_history
    (with_by_id (with_by_dedup_key s (<[dedup_key a := alarm_id a]> (by_dedup_key s)))
       (<[alarm_id a := a]> (by_id s))) h in
  memory_ok s' ∧ memory_view s' = <[dedup_key a := a]> (memory_view s).
Proof.
  intros (Hp & _ & Hid & Hkey) Ha Hh Hown Hfree s'. split.
  - split; [done|]. split; [done|]. cbn. split.
    + intros i b. destruct (decide (i = alarm_id a)) as [->|Hi].
      * rewrite lookup_insert_eq. intros [= <-]. by rewrite lookup_insert_eq.
      * rewrite lookup_insert_ne by done. intros Hb. destruct (Hid _ _ Hb) as (Hbi & ? & Hbk).
        split; [done|]. split; [done|]. rewrite lookup_insert_ne; [done|].
        intros Heq. rewrite <- Heq in Hbk. by apply Hfree in Hbk.
    + intros k i. destruct (decide (k = dedup_key a)) as [->|Hk].
      * rewrite lookup_insert_eq. intros [= <-]. exists a. by rewrite lookup_insert_eq.
      * rewrite lookup_insert_ne by done. intros Hi. destruct (Hkey _ _ Hi) as (b & Hb & <-).
        exists b. rewrite lookup_insert_ne; [done|]. intros <-. by apply Hown in Hb.
  - apply map_eq. intros k. rewrite memory_view_lookup. unfold get_by_dedup_key, s'. cbn.
    destruct (decide (k = dedup_key a)) as [->|Hk]; [by rewrite !lookup_insert_eq; cbn; rewrite lookup_insert_eq|].
    rewrite !lookup_insert_ne by done. rewrite memory_view_lookup. unfold get_by_dedup_key.
    destruct (by_dedup_key s !! k) as [i|] eqn:Hi; [|done]. cbn. rewrite lookup_insert_ne; [done|].
    intros <-. destruct (Hkey _ _ Hi) as (b & Hb & <-). by apply Hown in Hb.
Qed.

Lemma memory_unindex_ok s a old h :
  memory_ok s → by_id s !! alarm_id a = Some old → dedup_key old = dedup_key a →
  len h ≤ history_limit s →
  let s' := with_history
    (with_by_dedup_key (with_by_id s (delete (alarm_id a) (by_id s)))
       (delete (dedup_key a) (by_dedup_key s))) h in
  memory_ok s' ∧ memory_view s' = delete (dedup_key a) (memory_view s).
Proof.
  intros (Hp & _ & Hid & Hkey) Hold Hk Hh s'.
  assert (by_dedup_key s !! dedup_key a = Some (alarm_id a)) as Hak
    by (rewrite <- Hk; by apply Hid).
  assert (∀ k i, k ≠ dedup_key a → by_dedup_key s !! k = Some i → i ≠ alarm_id a) as Hne.
  { intros k i Hne Hi ->. destruct (Hkey _ _ Hi) as (b & Hb & <-). congruence. }
  split.
  - split; [done|]. split; [done|]. cbn. split.
    + intros i b [Hi Hb]%lookup_delete_Some. destruct (Hid _ _ Hb) as (Hbi & ? & Hbk).
      split; [done|]. split; [done|]. apply lookup_delete_Some. split; [|done].
      intros Heq. rewrite Heq, Hbk in Hak. by injection Hak.
    + intros k i [Hkn Hi]%lookup_delete_Some. destruct (Hkey _ _ Hi) as (b & Hb & <-).
      exists b. split; [|done]. apply lookup_delete_Some. split; [|done].
      intros Heq. symmetry in Heq. by eapply Hne in Heq; [|symmetry|].
  - apply map_eq. intros k. rewrite memory_view_lookup. unfold get_by_dedup_key, s'. cbn.
    destruct (decide (k = dedup_key a)) as [->|Hkn]; [by rewrite !lookup_delete_eq|].
    rewrite !lookup_delete_ne by done. rewrite memory_view_lookup. unfold get_by_dedup_key.
    destruct (by_dedup_key s !! k) as [i|] eqn:Hi; [|done]. cbn.
    rewrite lookup_delete_ne; [done|]. intros Heq. symmetry in Heq. by eapply Hne in Heq.
Qed.

Lemma memory_insert s a :
  memory_ok s → is_active (state a) = true → memory_view s !! dedup_key a = None →
  (∀ k b, memory_view s !! k = Some b → alarm_id b ≠ alarm_id a) →
  let s' := insert s a in
  memory_ok s' ∧ memory_view s' = <[dedup_key a := a]> (memory_view s)
  ∧ recorded (all s) a (all s') ∧ active_limit s' = active_limit s
  ∧ history_limit s' = history_limit s.
Proof.
  intros Hs Ha Hk Hi s'. subst s'. unfold insert, reindex. rewrite Ha.
  edestruct (record_history_spec) as (h & -> & Hh & Hr); [by apply Hs..|].
  pose proof Hs as (_ & _ & Hid & Hkey).
  destruct (memory_index_ok s a h Hs Ha Hh) as [Hok Hv].
  - intros b Hb. exfalso. destruct (Hid _ _ Hb) as (Hbi & _). eapply (Hi (dedup_key b) b); [|done].
    apply memory_view_some; [done|]. by rewrite Hbi.
  - intros i Hki. exfalso. destruct (Hkey _ _ Hki) as (b & Hb & Hbk).
    assert (memory_view s !! dedup_key a = Some b) as Hn; [|by rewrite Hk in Hn].
    apply memory_view_some; [done|]. by destruct (Hid _ _ Hb) as (-> & _).
  - split; [exact Hok|]. split; [exact Hv|]. by split.
Qed.

Lemma memory_update s a old :
  memory_ok s → memory_view s !! dedup_key a = Some old → alarm_id old = alarm_id a →
  ∃ s', update s a = Ok s' ∧ memory_ok s'
    ∧ memory_view s' = (if is_active (state a) then <[dedup_key a := a]> (memory_view s)
                        else delete (dedup_key a) (memory_view s))
    ∧ recorded (all s) a (all s') ∧ active_limit s' = active_limit s
  ∧ history_limit s' = history_limit s.
Proof.
  intros Hs [Hold Hkey]%memory_view_some Hid; [|done]. rewrite Hid in Hold. unfold update.
  rewrite Hold. rewrite bool_decide_true by eauto. cbn [negb].
  pose proof Hs as (_ & _ & Hi & Hk). destruct (is_active (state a)) eqn:Ha.
  - edestruct (record_history_spec) as (h & -> & Hh & Hr); [by apply Hs..|].
    eexists. split; [reflexivity|].
    destruct (memory_index_ok s a h Hs Ha Hh) as [Hok Hv].
    + intros b Hb. congruence.
    + intros i Hki. rewrite <- Hkey in Hki. destruct (Hi _ _ Hold) as (_ & _ & Hki').
      rewrite Hki in Hki'. by injection Hki'.
    + split; [exact Hok|]. split; [exact Hv|]. by split.
  - edestruct (record_history_spec) as (h & -> & Hh & Hr); [by apply Hs..|].
    eexists. split; [reflexivity|].
    destruct (memory_unindex_ok s a old h Hs Hold Hkey Hh) as [Hok Hv].
    split; [exact Hok|]. split; [exact Hv|]. by split.
Qed.

(** Expiring a list of active alarms, each listed once, removes them alone. *)
Lemma memory_expire_all l cutoff s :
  memory_ok s → NoDup (alarm_id <$> l) → (∀ a, a ∈ l → by_id s !! alarm_id a = Some a) →
  ∃ s', expire_all s l cutoff = Ok s' ∧ memory_ok s'
    ∧ (active_limit s' = active_limit s ∧ history_limit s' = history_limit s)
    ∧ (∀ k a, memory_view s' !! k = Some a
              ↔ memory_view s !! k = Some a ∧ alarm_id a ∉ alarm_id <$> l)
    ∧ (∀ b, b ∈ all s' → b ∈ all s ∨ ∃ a, a ∈ l ∧ b = expired a cutoff).
Proof.
  revert s. induction l as [|a l IH]; intros s Hs Hnd Hin; cbn [expire_all].
  { exists s. split; [done|]. split; [done|]. split; [done|].
    split; [intros k a; cbn; set_solver|by left]. }
  cbn in Hnd. apply NoDup_cons in Hnd as [Hal Hnd].
  assert (memory_view s !! dedup_key a = Some a) as Hva
    by (apply memory_view_some; [done|]; split; [apply Hin; left|done]).
  destruct (memory_update s (expired a cutoff) a Hs Hva eq_refl)
    as (s1 & -> & Hs1 & Hv1 & [_ Hr1] & Hl1 & Hh1). cbn in Hv1.
  change (dedup_key (expired a cutoff)) with (dedup_key a) in Hv1.
  destruct (IH s1 Hs1 Hnd) as (s' & -> & Hs' & [Hl' Hh'] & Hv' & Hr').
  { intros b Hb. apply (memory_view_some s1 (dedup_key b)); [done|]. rewrite Hv1.
    assert (memory_view s !! dedup_key b = Some b) as Hvb
      by (apply memory_view_some; [done|]; split; [apply Hin; by right|done]).
    apply lookup_delete_Some. split; [|done]. intros Heq. rewrite <- Heq, Hva in Hvb.
    injection Hvb as ->. apply Hal, list_elem_of_fmap. eauto. }
  exists s'. split; [done|]. split; [done|]. split; [split; congruence|]. split; cycle 1.
  { intros b [Hb|(c & Hc & ->)]%Hr'; [|right; exists c; split; [by right|done]].
    apply Hr1 in Hb as [->|Hb]; [right; exists a; split; [left|done]|by left]. }
  intros k b. rewrite Hv', Hv1, lookup_delete_Some. cbn. rewrite not_elem_of_cons. split.
  - intros [[Hk Hb] Hbl]. split; [done|]. split; [|done]. intros Heq. apply Hk.
    apply memory_view_some in Hb as [Hb <-]; [|done]. rewrite Heq, (Hin a) in Hb by left.
    by injection Hb as ->.
  - intros (Hb & Hne & Hbl). split; [|done]. split; [|done]. intros <-.
    rewrite Hva in Hb. by injection Hb as ->.
Qed.

Lemma memory_nodup s : memory_ok s → NoDup (map_values (by_id s)).
Proof.
  intros (_ & _ & Hid & _). rewrite map_values_perm. apply map_values_nodup.
  intros k k' a [Hk _]%Hid [Hk' _]%Hid. congruence.
Qed.

Lemma nodup_filter {A} (f : A → bool) l : NoDup l → NoDup (List.filter f l).
Proof. intros. by apply NoDup_ListNoDup, List.NoDup_filter, NoDup_ListNoDup. Qed.

Lemma elem_of_active s (f : Alarm → bool) a :
  memory_ok s →
  a ∈ List.filter f (map_values (by_id s)) ↔ by_id s !! alarm_id a = Some a ∧ f a = true.
Proof.
  intros (_ & _ & Hid & _). rewrite list_elem_of_In, filter_In, <- list_elem_of_In.
  rewrite map_values_perm, elem_of_values. split; [|by intros [? ?]; eauto].
  intros [[i Hi] ?]. by destruct (Hid _ _ Hi) as (-> & _).
Qed.

(** The alarms that are not expired are the rest. *)
Lemma memory_expire_size s s' (f : Alarm → bool) :
  memory_ok s → memory_ok s' →
  (∀ k a, memory_view s' !! k = Some a ↔ memory_view s !! k = Some a ∧ f a = false) →
  (size (memory_view s') + length (List.filter f (map_values (by_id s)))
   = size (memory_view s))%nat.
Proof.
  intros Hs Hs' Hv.
  assert ((map_to_list (memory_view s')).*2
          ≡ₚ List.filter (λ a, negb (f a)) (map_values (by_id s))) as Hperm.
  { apply NoDup_Permutation.
    - rewrite memory_values, <- map_values_perm by done. by apply memory_nodup.
    - by apply nodup_filter, memory_nodup.
    - intros a. rewrite elem_of_active, elem_of_values, negb_true_iff by done.
      setoid_rewrite Hv. setoid_rewrite memory_view_some; [|done]. naive_solver. }
  apply Permutation_length in Hperm. rewrite length_fmap, length_map_to_list in Hperm.
  rewrite Hperm, memory_size, <- length_map_to_list by done.
  rewrite <- (length_fmap snd (map_to_list (by_id s))), <- map_values_perm.
  rewrite <- (filter_length f (map_values (by_id s))). lia.
Qed.

Lemma memory_expire s cutoff :
  memory_ok s →
  ∃ s', expire_before s cutoff
        = Ok (s', Z.of_nat (size (memory_view s)) - Z.of_nat (size (memory_view s')))
    ∧ memory_ok s' ∧ memory_view s' = filter (λ p, cutoff ≤ updated_at p.2) (memory_view s)
    ∧ (∀ b, b ∈ all s' → b ∈ all s
         ∨ ∃ k a, memory_view s !! k = Some a ∧ updated_at a < cutoff ∧ b = expired a cutoff)
    ∧ active_limit s' = active_limit s
  ∧ history_limit s' = history_limit s.
Proof.
  intros Hs. unfold expire_before.
  set (l := List.filter (λ alarm, updated_at alarm <? cutoff) (map_values (by_id s))).
  assert (∀ a, a ∈ l ↔ by_id s !! alarm_id a = Some a ∧ updated_at a < cutoff) as Hl
    by (intros a; unfold l; by rewrite elem_of_active, Z.ltb_lt).
  destruct (memory_expire_all l cutoff s Hs) as (s' & -> & Hs' & Hlim & Hv' & Hr').
  { apply NoDup_fmap_2_strong; [|by apply nodup_filter, memory_nodup].
    intros a b [Ha _]%Hl [Hb _]%Hl Heq. congruence. }
  { by intros a [Ha _]%Hl. }
  assert (∀ a, by_id s !! alarm_id a = Some a →
    (alarm_id a ∉ alarm_id <$> l ↔ cutoff ≤ updated_at a)) as Hkeep.
  { intros a Ha. rewrite list_elem_of_fmap. split.
    - intros Hn. destruct (Z.ltb_spec (updated_at a) cutoff); [|done]. exfalso. apply Hn.
      exists a. by rewrite Hl.
    - intros Hc (b & Heq & [Hb Hlt]%Hl). rewrite <- Heq, Ha in Hb. injection Hb as ->. lia. }
  assert (memory_view s' = filter (λ p, cutoff ≤ updated_at p.2) (memory_view s)) as Hv.
  { apply map_eq. intros k. apply option_eq. intros a. rewrite Hv', map_lookup_filter_Some. cbn.
    split; intros [Hk ?]; pose proof Hk as [Ha _]%memory_view_some; try done;
      by split; [|apply Hkeep]. }
  exists s'. split; cycle 1.
  { split; [done|]. split; [done|]. split; [|done].
    intros b [Hb|(a & [Ha Hlt]%Hl & ->)]%Hr'; [by left|]. right.
    exists (dedup_key a), a. split; [by apply memory_view_some|done]. }
  pose proof (memory_expire_size s s' (λ a, updated_at a <? cutoff) Hs Hs') as Hsize.
  do 2 f_equal. fold l in Hsize. unfold len. enough (size (memory_view s') + length l
    = size (memory_view s))%nat by lia. apply Hsize. intros k a. rewrite Hv, Z.ltb_ge.
  apply map_lookup_filter_Some.
Qed.

(** The promises of a store with this bound on its history. *)
Definition memory_laws (hl : Z) : AlarmStoreLaws InMemoryStore.
Proof.
  refine {| store_ok s := memory_ok s ∧ history_limit s = hl; view := memory_view |}.
  - intros s k a [Hs _] [Ha <-]%memory_view_some; [|done]. split; [done|].
    by apply Hs in Ha as (_ & ? & _).
  - intros s k k' a b [Hs _] [Ha <-]%memory_view_some [Hb <-]%memory_view_some Hab;
      [congruence|done..].
  - intros s k _. symmetry. apply memory_view_lookup.
  - intros s i a [Hs _]. cbn. unfold get_by_id. split.
    + intros Hi. exists (dedup_key a). pose proof Hs as (_ & _ & Hid & _).
      destruct (Hid _ _ Hi) as (Ha & _). split; [|done]. apply memory_view_some; [done|].
      by rewrite Ha.
    + by intros (k & [Ha _]%memory_view_some & <-).
  - intros s [Hs _]. cbn. unfold active_alarms. rewrite map_values_perm. symmetry.
    by apply memory_values.
  - intros s [Hs _]. cbn. unfold active_count. by rewrite memory_size.
  - done.
  - intros s a [Hs Hhl] Ha Hk Hi.
    destruct (memory_insert s a Hs Ha Hk Hi) as (? & ? & ? & Hl & Hh). cbn. by rewrite Hl, Hh.
  - intros s a old [Hs Hhl] Hk Hi.
    destruct (memory_update s a old Hs Hk Hi) as (s' & ? & ? & ? & ? & Hl & Hh). exists s'.
    cbn. by rewrite Hl, Hh.
  - intros s cutoff [Hs Hhl].
    destruct (memory_expire s cutoff Hs) as (s' & ? & ? & ? & ? & Hl & Hh). exists s'.
    cbn. by rewrite Hl, Hh.
Defined.

Lemma new_with_limits_ok hl al s :
  new_with_limits hl al = Ok s →
  memory_ok s ∧ memory_view s = ∅ ∧ all s = [] ∧ history_limit s = hl ∧ active_limit s = al
  ∧ 0 < al.
Proof.
  unfold new_with_limits. destruct (Z.ltb_spec 0 hl); [|done].
  destruct (Z.ltb_spec 0 al); [|done]. intros [= <-].
  split; [|by split_and!]. split; [done|]. split; [unfold len; cbn; lia|].
  cbn.
  split; intros ? ?; by rewrite lookup_empty.
Qed.
End Store.
