(* ===== verification/AlarmManager.v ===== *)
(** The alarm manager, [crates/opc-alarm/src/manager/{state,admin,audit,security,metrics,
    mod}.rs]: raise, clear, acknowledge, suppress, the two policy paths and expiry over
    any [AlarmStore], with the counters of the process.  The readings of the clock and
    the fresh identifier are arguments, in the order the code takes them.  The shared
    manager runs each operation under a mutex whose poisoning it ignores, so its
    operations are these, one after the other. *)
From S2P Require Import Prelude.
From S2P Require Import Text.
From S2P Require Import AlarmModel.
From S2P Require Import AlarmStore.

(** ** Administrative actions *)

Inductive AlarmAction := Acknowledge | Suppress.

#[export] Instance AlarmAction_eq_dec : EqDecision AlarmAction.
Proof. solve_decision. Defined.

Inductive AlarmActionScope :=
| ScopeAlarm (alarm_id : AlarmId)
| ScopeTenant (tenant : str)
| ScopeGlobal.

Record SuppressionAuth := {
  authorized : bool;
  auth_reason : option str;
}.

Record AlarmActionContext := {
  principal : str;
  ctx_tenant : option str;
  reason : str;
  scope : AlarmActionScope;
  expires_at : option Z;
  ctx_correlation_id : option str;
}.

Definition context_new (p r : str) (s : AlarmActionScope) : AlarmActionContext :=
  {| principal := p; ctx_tenant := None; reason := r; scope := s; expires_at := None;
     ctx_correlation_id := None |}.

Definition with_tenant (self : AlarmActionContext) (t : str) : AlarmActionContext :=
  {| principal := principal self; ctx_tenant := Some t; reason := reason self;
     scope := scope self; expires_at := expires_at self;
     ctx_correlation_id := ctx_correlation_id self |}.

Definition with_expiry (self : AlarmActionContext) (t : Z) : AlarmActionContext :=
  {| principal := principal self; ctx_tenant := ctx_tenant self; reason := reason self;
     scope := scope self; expires_at := Some t;
     ctx_correlation_id := ctx_correlation_id self |}.

Definition with_correlation_id (self : AlarmActionContext) (c : str) : AlarmActionContext :=
  {| principal := principal self; ctx_tenant := ctx_tenant self; reason := reason self;
     scope := scope self; expires_at := expires_at self; ctx_correlation_id := Some c |}.

Record AlarmActionDenied := { message : str }.

Inductive AlarmAuditOutcome := Authorized | Denied.

(** ** The counters of the process

    The gauge of active alarms by severity and cause, and the audit counters, of
    [opc_redaction::metrics::METRICS]. *)
Record AlarmMetrics := {
  alarm_active_count : gmap (str * str) Z;
  alarm_audit_success : Z;
  alarm_audit_failure : Z;
}.

(** [fetch_add(1)] on a [u64] wraps around. *)
Definition audit_fetch_add (n : Z) : Z := Z.modulo (n + 1) (U64_MAX + 1).

Definition record_audit_success (m : AlarmMetrics) : AlarmMetrics :=
  {| alarm_active_count := alarm_active_count m;
     alarm_audit_success := audit_fetch_add (alarm_audit_success m);
     alarm_audit_failure := alarm_audit_failure m |}.

Definition record_audit_failure (m : AlarmMetrics) : AlarmMetrics :=
  {| alarm_active_count := alarm_active_count m;
     alarm_audit_success := alarm_audit_success m;
     alarm_audit_failure := audit_fetch_add (alarm_audit_failure m) |}.

Section Manager.
Context {externals : Externals}.

Definition gauge_key (alarm : Alarm) : str * str :=
  (severity_to_string (severity alarm), cause_to_string (probable_cause alarm)).

(** [rebuild_alarm_active_count]: the map is cleared and counted again. *)
Definition rebuild_alarm_active_count (active : list Alarm) : gmap (str * str) Z :=
  foldl (λ count_map alarm,
           let entry := default 0 (count_map !! gauge_key alarm) in
           <[gauge_key alarm := entry + 1]> count_map) ∅ active.

Definition update_global_metrics (m : AlarmMetrics) (active : list Alarm) : AlarmMetrics :=
  {| alarm_active_count := rebuild_alarm_active_count active;
     alarm_audit_success := alarm_audit_success m;
     alarm_audit_failure := alarm_audit_failure m |}.

(** ** Authorization and audit *)

Class AlarmActionAuthorizer (A : Type) := {
  authorize_alarm_action :
    A → AlarmAction → Alarm → AlarmActionContext → A * outcome AlarmActionDenied unit;
  allow_security_critical_suppression :
    A → Alarm → AlarmActionContext → A * outcome False bool;
}.

Definition alarm_requires_explicit_suppression_policy (alarm : Alarm) : bool :=
  bool_decide (severity alarm = Critical)
  || match probable_cause alarm with
     | AuthorizationPolicyInvalid | IdentityUnavailable | CertificateExpired | KeyUnavailable
     | StorageCorruption | AuditChainInvalid | LiDeliveryFailed | PrivacyPolicyViolation
     | SecurityBreakGlass => true
     | _ => false
     end.

Record AlarmAuditEvent := {
  ev_action : AlarmAction;
  ev_outcome : AlarmAuditOutcome;
  ev_alarm_id : AlarmId;
  ev_alarm_type : AlarmType;
  ev_probable_cause : ProbableCause;
  ev_principal : str;
  ev_tenant : option str;
  ev_reason : str;
  ev_scope : AlarmActionScope;
  ev_correlation_id : option str;
  ev_occurred_at : Z;
}.

(** [now] is the reading of the clock. *)
Definition from_action (now : Z) (action : AlarmAction) (outcome : AlarmAuditOutcome)
    (alarm : Alarm) (context : AlarmActionContext) : AlarmAuditEvent :=
  {| ev_action := action; ev_outcome := outcome; ev_alarm_id := alarm_id alarm;
     ev_alarm_type := alarm_type alarm; ev_probable_cause := probable_cause alarm;
     ev_principal := principal context; ev_tenant := ctx_tenant context;
     ev_reason := reason context; ev_scope := scope context;
     ev_correlation_id := ctx_correlation_id context;
     ev_occurred_at := Z.max now (raised_at alarm) |}.

Class AlarmAuditSink (T : Type) := {
  record_alarm_action : T → AlarmAuditEvent → T * outcome str unit;
}.

(** ** Results *)

Inductive AlarmOpResult :=
| ResRaised (alarm : Alarm)
| ResUpdated (alarm : Alarm)
| ResCleared (alarm_id : AlarmId)
| ResClearWithoutActive (dedup_key : DedupKey) (cause : ProbableCause)
| ResActiveLimitExceeded (max_active_alarms : Z) (dedup_key : DedupKey)
| ResSuppressed (alarm : Alarm)
| ResAcknowledged (alarm : Alarm)
| ResUnauthorized (message : str)
| ResAuditFailed (message : str)
| ResNotFound (alarm_id : AlarmId).

(** ** Changes to a record *)

Definition lifecycle_timestamp_after (now raised : Z) : Z := Z.max now raised.

Definition new_alarm (uuid : str) (ty : AlarmType) (sev : Severity) (cause : ProbableCause)
    (object : AffectedObject) (te sl : option str) (re : option RegionId) (txt : str)
    (det : AlarmDetails) (now : Z) : Alarm :=
  {| alarm_id := uuid; alarm_type := ty; severity := sev; probable_cause := cause;
     affected_object := object; tenant := te; slice := sl; region := re; text := txt;
     details := det; state := Raised; raised_at := now; updated_at := now;
     cleared_at := None; correlation_id := None |}.

(** The record an active alarm is replaced by when it is raised again. *)
Definition refreshed (existing : Alarm) (sev : Severity) (txt : str) (det : AlarmDetails)
    (at_ : Z) (st : AlarmState) : Alarm :=
  {| alarm_id := alarm_id existing; alarm_type := alarm_type existing; severity := sev;
     probable_cause := probable_cause existing; affected_object := affected_object existing;
     tenant := tenant existing; slice := slice existing; region := region existing;
     text := txt; details := det; state := st; raised_at := raised_at existing;
     updated_at := at_; cleared_at := cleared_at existing;
     correlation_id := correlation_id existing |}.

Definition cleared (alarm : Alarm) (now : Z) : Alarm :=
  {| alarm_id := alarm_id alarm; alarm_type := alarm_type alarm; severity := SevCleared;
     probable_cause := probable_cause alarm; affected_object := affected_object alarm;
     tenant := tenant alarm; slice := slice alarm; region := region alarm; text := text alarm;
     details := details alarm; state := Cleared; raised_at := raised_at alarm;
     updated_at := now; cleared_at := Some now; correlation_id := correlation_id alarm |}.

Definition with_state (alarm : Alarm) (st : AlarmState) (at_ : Z) : Alarm :=
  refreshed alarm (severity alarm) (text alarm) (details alarm) at_ st.

(** ** The manager *)

Context {S : Type} `{!AlarmStore S}.

Definition active_limit_exceeded (self : S) (key : DedupKey) : option AlarmOpResult :=
  match store_active_limit self with
  | None => None
  | Some max_active_alarms =>
      if max_active_alarms <=? store_active_count self
      then Some (ResActiveLimitExceeded max_active_alarms key)
      else None
  end.

(** A new alarm, unless the limit is reached; shared by the two branches of [raise]
    that create one. *)
Definition raise_new (self : S) (m : AlarmMetrics) (key : DedupKey) (alarm : Alarm) :
  outcome False (AlarmOpResult * S * AlarmMetrics) :=
  match active_limit_exceeded self key with
  | Some res => Ok (res, self, m)
  | None =>
      let self := store_insert self alarm in
      Ok (ResRaised alarm, self, update_global_metrics m (store_active_alarms self))
  end.

Definition raise (self : S) (m : AlarmMetrics) (uuid : str) (now later : Z)
    (ty : AlarmType) (sev : Severity) (cause : ProbableCause) (object : AffectedObject)
    (te sl : option str) (re : option RegionId) (txt : str) (det : AlarmDetails) :
  outcome False (AlarmOpResult * S * AlarmMetrics) :=
  let key := dedup_compute ty cause object te sl (region_str <$> re) in
  match store_get_by_dedup_key self key with
  | Some existing =>
      if negb (is_active (state existing)) then
        raise_new self m key (new_alarm uuid ty sev cause object te sl re txt det now)
      else
        let updated_at := lifecycle_timestamp_after later (raised_at existing) in
        let? st :=
          match state existing with
          | Acknowledged => Ok Acknowledged
          | Suppressed => Ok Suppressed
          | Raised | Updated => Ok Updated
          | Cleared | Expired => Crash
          end in
        let updated := refreshed existing sev txt det updated_at st in
        let? self := store_update self updated in
        Ok (ResUpdated updated, self, update_global_metrics m (store_active_alarms self))
  | None => raise_new self m key (new_alarm uuid ty sev cause object te sl re txt det now)
  end.

Definition clear (self : S) (m : AlarmMetrics) (now : Z) (ty : AlarmType)
    (cause : ProbableCause) (object : AffectedObject) (te sl re : option str) :
  outcome False (AlarmOpResult * S * AlarmMetrics) :=
  let key := dedup_compute ty cause object te sl re in
  let? (res, self) :=
    match store_get_by_dedup_key self key with
    | Some alarm =>
        if negb (is_active (state alarm)) then Ok (ResClearWithoutActive key cause, self)
        else
          let alarm := cleared alarm (lifecycle_timestamp_after now (raised_at alarm)) in
          let? self := store_update self alarm in
          Ok (ResCleared (alarm_id alarm), self)
    | None => Ok (ResClearWithoutActive key cause, self)
    end in
  Ok (res, self, update_global_metrics m (store_active_alarms self)).

Definition acknowledge (self : S) (now : Z) (id : AlarmId) (auth : SuppressionAuth) :
  outcome False (AlarmOpResult * S) :=
  if negb (authorized auth) then
    Ok (ResUnauthorized (lit "acknowledge not authorized"), self)
  else
    match store_get_by_id self id with
    | Some alarm =>
        if negb (is_active (state alarm)) then Ok (ResNotFound id, self)
        else
          let alarm :=
            with_state alarm Acknowledged (lifecycle_timestamp_after now (raised_at alarm)) in
          let? self := store_update self alarm in
          Ok (ResAcknowledged alarm, self)
    | None => Ok (ResNotFound id, self)
    end.

Definition suppress (self : S) (now : Z) (id : AlarmId) (auth : SuppressionAuth) :
  outcome False (AlarmOpResult * S) :=
  if negb (authorized auth) then
    Ok (ResUnauthorized (lit "suppress not authorized"), self)
  else
    match store_get_by_id self id with
    | Some alarm =>
        if negb (is_active (state alarm)) then Ok (ResNotFound id, self)
        else
          let alarm :=
            with_state alarm Suppressed (lifecycle_timestamp_after now (raised_at alarm)) in
          let? self := store_update self alarm in
          Ok (ResSuppressed alarm, self)
    | None => Ok (ResNotFound id, self)
    end.

Section Policy.
Context {A T : Type} `{!AlarmActionAuthorizer A, !AlarmAuditSink T}.

(** A denial is recorded, and counted by whether that succeeded. *)
Definition audit_denial (now : Z) (self : S) (m : AlarmMetrics) (authorizer : A) (sink : T)
    (action : AlarmAction) (alarm : Alarm) (context : AlarmActionContext) (msg : str) :
  outcome False (AlarmOpResult * S * AlarmMetrics * A * T) :=
  let '(sink, res) := record_alarm_action sink (from_action now action Denied alarm context) in
  match res with
  | Crash => Crash
  | Ok _ => Ok (ResUnauthorized msg, self, record_audit_success m, authorizer, sink)
  | Err _ => Ok (ResUnauthorized msg, self, record_audit_failure m, authorizer, sink)
  end.

(** The override that suppressing a security-critical alarm needs. *)
Definition suppression_allowed (authorizer : A) (action : AlarmAction) (alarm : Alarm)
    (context : AlarmActionContext) : A * outcome False bool :=
  if bool_decide (action = Suppress) && alarm_requires_explicit_suppression_policy alarm
  then allow_security_critical_suppression authorizer alarm context
  else (authorizer, Ok true).

Definition action_state (action : AlarmAction) : AlarmState :=
  match action with
  | Acknowledge => Acknowledged
  | Suppress => Suppressed
  end.

Definition action_result (action : AlarmAction) (alarm : Alarm) : AlarmOpResult :=
  match action with
  | Acknowledge => ResAcknowledged alarm
  | Suppress => ResSuppressed alarm
  end.

(** The record of an authorized action, then the change. *)
Definition apply_authorized (now later : Z) (self : S) (m : AlarmMetrics) (authorizer : A)
    (sink : T) (action : AlarmAction) (alarm : Alarm) (context : AlarmActionContext) :
  outcome False (AlarmOpResult * S * AlarmMetrics * A * T) :=
  let '(sink, res) :=
    record_alarm_action sink (from_action now action Authorized alarm context) in
  match res with
  | Crash => Crash
  | Err msg => Ok (ResAuditFailed msg, self, record_audit_failure m, authorizer, sink)
  | Ok _ =>
      let m := record_audit_success m in
      let alarm :=
        with_state alarm (action_state action)
          (lifecycle_timestamp_after later (raised_at alarm)) in
      let? self := store_update self alarm in
      let m := update_global_metrics m (store_active_alarms self) in
      Ok (action_result action alarm, self, m, authorizer, sink)
  end.

Definition apply_admin_action (self : S) (m : AlarmMetrics) (authorizer : A) (sink : T)
    (now later : Z) (id : AlarmId) (action : AlarmAction) (context : AlarmActionContext) :
  outcome False (AlarmOpResult * S * AlarmMetrics * A * T) :=
  match store_get_by_id self id with
  | None => Ok (ResNotFound id, self, m, authorizer, sink)
  | Some alarm =>
      if negb (is_active (state alarm)) then Ok (ResNotFound id, self, m, authorizer, sink)
      else
        let '(authorizer, allowed) := suppression_allowed authorizer action alarm context in
        match allowed with
        | Ok true =>
            let '(authorizer, decision) :=
              authorize_alarm_action authorizer action alarm context in
            match decision with
            | Ok _ => apply_authorized now later self m authorizer sink action alarm context
            | Err denied =>
                audit_denial now self m authorizer sink action alarm context (message denied)
            | Crash => Crash
            end
        | Ok false =>
            audit_denial now self m authorizer sink action alarm context
              (lit "security-critical alarm suppression requires explicit policy override")
        | _ => Crash
        end
  end.

Definition acknowledge_with_policy (self : S) (m : AlarmMetrics) (authorizer : A) (sink : T)
    (now later : Z) (id : AlarmId) (context : AlarmActionContext) :=
  apply_admin_action self m authorizer sink now later id Acknowledge context.

Definition suppress_with_policy (self : S) (m : AlarmMetrics) (authorizer : A) (sink : T)
    (now later : Z) (id : AlarmId) (context : AlarmActionContext) :=
  apply_admin_action self m authorizer sink now later id Suppress context.
End Policy.

Definition active_by_severity (self : S) (sev : Severity) : list Alarm :=
  List.filter (λ a, bool_decide (severity a = sev)) (store_active_alarms self).

Definition manager_expire_before (self : S) (m : AlarmMetrics) (cutoff : Z) :
  outcome False (Z * S * AlarmMetrics) :=
  let? (self, n) := store_expire_before self cutoff in
  let m := if 0 <? n then update_global_metrics m (store_active_alarms self) else m in
  Ok (n, self, m).
End Manager.
