(* ===== verification/AlarmRuns.v ===== *)
(** Runs of the alarm manager over the store in memory: an operation at a time, with the
    invariant they keep, and the theorems on the manager with their witnesses. *)
From S2P Require Import Prelude.
From S2P Require Import Text.
From S2P Require Import AlarmModel.
From S2P Require Import AlarmStore.
From S2P Require Import AlarmManager.
From S2P Require Import AlarmLifecycle.

(** ** The gauge *)

Section Gauge.
Context {externals : Externals}.

(** How many alarms of a list have this severity and cause, if any has. *)
Definition gauge_count (l : list Alarm) (key : str * str) : option Z :=
  let n := len (filter (λ a, gauge_key a = key) l) in
  if n =? 0 then None else Some n.

Lemma rebuild_gauge l key : rebuild_alarm_active_count l !! key = gauge_count l key.
Proof.
  unfold rebuild_alarm_active_count, gauge_count.
  induction l as [|a l IH] using rev_ind; [done|].
  rewrite foldl_app. cbn [foldl]. rewrite filter_app, len_app.
  set (g := foldl _ _ _) in *. pose proof (len_nonneg (filter (λ a, gauge_key a = key) l)).
  destruct (decide (gauge_key a = key)) as [<-|Hne].
  - rewrite lookup_insert_eq, IH, filter_cons_True, filter_nil by done.
    change (len [a]) with 1. set (n := len _) in *. cbn zeta.
    rewrite (proj2 (Z.eqb_neq (n + 1) 0)) by lia. by destruct (Z.eqb_spec n 0) as [->|].
  - rewrite lookup_insert_ne, IH, filter_cons_False, filter_nil by done.
    change (len []) with 0. by rewrite Z.add_0_r.
Qed.

Lemma gauge_count_perm l k key : l ≡ₚ k → gauge_count l key = gauge_count k key.
Proof.
  intros Hp. assert (filter (λ a, gauge_key a = key) l ≡ₚ filter (λ a, gauge_key a = key) k)
    as Hf%Permutation_length by by rewrite Hp.
  unfold gauge_count, len. by rewrite Hf.
Qed.

Lemma gauge_count_cons a b l key :
  gauge_key a = gauge_key b → gauge_count (a :: l) key = gauge_count (b :: l) key.
Proof.
  intros He. unfold gauge_count. rewrite !filter_cons, He. by destruct (decide _).
Qed.

(** Replacing an alarm by one of the same severity and cause leaves the counts. *)
Lemma gauge_count_insert (v : gmap DedupKey Alarm) k a b key :
  v !! k = Some a → gauge_key a = gauge_key b →
  gauge_count (map_to_list (<[k := b]> v)).*2 key = gauge_count (map_to_list v).*2 key.
Proof.
  intros Hk He. rewrite <- insert_delete_eq.
  rewrite (gauge_count_perm _ (b :: (map_to_list (delete k v)).*2)).
  - rewrite <- (gauge_count_cons a b) by done. apply gauge_count_perm.
    by rewrite <- (map_to_list_delete v k a).
  - by rewrite map_to_list_insert by apply lookup_delete_eq.
Qed.

(** Timestamps of a record: it was raised no later than it last changed, and it has
    the time of its end exactly when it has ended. *)
Definition record_ok (a : Alarm) : Prop :=
  raised_at a ≤ updated_at a
  ∧ cleared_at a = if is_active (state a) then None else Some (updated_at a).
End Gauge.

(** ** Operations *)

Section Runs.
Context {externals : Externals} {S A T : Type}.
Context `{!AlarmStore S, !AlarmStoreLaws S, !AlarmActionAuthorizer A, !AlarmAuditSink T}.

Inductive AlarmOp :=
| OpRaise (uuid : str) (now later : Z) (ty : AlarmType) (sev : Severity)
    (cause : ProbableCause) (object : AffectedObject) (te sl : option str)
    (re : option RegionId) (txt : str) (det : AlarmDetails)
| OpClear (now : Z) (ty : AlarmType) (cause : ProbableCause) (object : AffectedObject)
    (te sl re : option str)
| OpAcknowledge (now : Z) (id : AlarmId) (auth : SuppressionAuth)
| OpSuppress (now : Z) (id : AlarmId) (auth : SuppressionAuth)
| OpAdmin (now later : Z) (id : AlarmId) (action : AlarmAction) (ctx : AlarmActionContext)
| OpExpire (cutoff : Z).

Record AlarmWorld := {
  w_store : S;
  w_metrics : AlarmMetrics;
  w_authorizer : A;
  w_sink : T;
}.

Definition exec_alarm_op (w : AlarmWorld) (op : AlarmOp) : outcome False AlarmWorld :=
  let s := w_store w in
  let m := w_metrics w in
  let x := w_authorizer w in
  let t := w_sink w in
  match op with
  | OpRaise uuid now later ty sev cause object te sl re txt det =>
      let? (_, s, m) := raise s m uuid now later ty sev cause object te sl re txt det in
      Ok {| w_store := s; w_metrics := m; w_authorizer := x; w_sink := t |}
  | OpClear now ty cause object te sl re =>
      let? (_, s, m) := clear s m now ty cause object te sl re in
      Ok {| w_store := s; w_metrics := m; w_authorizer := x; w_sink := t |}
  | OpAcknowledge now id auth =>
      let? (_, s) := acknowledge s now id auth in
      Ok {| w_store := s; w_metrics := m; w_authorizer := x; w_sink := t |}
  | OpSuppress now id auth =>
      let? (_, s) := suppress s now id auth in
      Ok {| w_store := s; w_metrics := m; w_authorizer := x; w_sink := t |}
  | OpAdmin now later id action ctx =>
      let? (_, s, m, x, t) := apply_admin_action s m x t now later id action ctx in
      Ok {| w_store := s; w_metrics := m; w_authorizer := x; w_sink := t |}
  | OpExpire cutoff =>
      let? (_, s, m) := manager_expire_before s m cutoff in
      Ok {| w_store := s; w_metrics := m; w_authorizer := x; w_sink := t |}
  end.

Fixpoint run_alarm_ops (w : AlarmWorld) (ops : list AlarmOp) : outcome False AlarmWorld :=
  match ops with
  | [] => Ok w
  | op :: ops =>
      let? w := exec_alarm_op w op in
      run_alarm_ops w ops
  end.

(** The identifiers drawn in a run. *)
Definition op_ids (op : AlarmOp) : list str :=
  match op with
  | OpRaise uuid _ _ _ _ _ _ _ _ _ _ _ => [uuid]
  | _ => []
  end.

(** ** What every operation keeps *)

(** The part of the invariant that is about the store alone; [used] are the identifiers
    drawn so far. *)
Definition lifecycle_ok (s : S) (used : list str) : Prop :=
  store_ok s
  ∧ (∀ limit, store_active_limit s = Some limit → Z.of_nat (size (view s)) ≤ limit)
  ∧ (∀ k a, view s !! k = Some a → alarm_id a ∈ used ∧ record_ok a)
  ∧ ∀ a, a ∈ store_all s → record_ok a.

Definition gauge_ok (s : S) (m : AlarmMetrics) : Prop :=
  ∀ key, alarm_active_count m !! key = gauge_count (map_to_list (view s)).*2 key.

Lemma lifecycle_used s used used' :
  (∀ i, i ∈ used → i ∈ used') → lifecycle_ok s used → lifecycle_ok s used'.
Proof.
  intros Hsub (Hs & Hl & Hv & Hh). split; [done|]. split; [done|]. split; [|done].
  intros k a Hk. destruct (Hv k a Hk). auto.
Qed.

Lemma lifecycle_stored s used a s' :
  lifecycle_ok s used → stored s a s' → record_ok a → alarm_id a ∈ used →
  (is_active (state a) = true → is_Some (view s !! dedup_key a) ∨ ∀ limit, ¬ full s limit) →
  lifecycle_ok s' used.
Proof.
  intros (Hs & Hl & Hv & Hh) (Hs' & Hv' & [_ Hr] & Hlim) Ha Hid Hroom.
  split; [done|]. rewrite Hlim, Hv'. split; [|split].
  - intros limit Hlimit. specialize (Hl limit Hlimit). destruct (is_active (state a)).
    + destruct (Hroom eq_refl) as [Hold|Hfull].
      * destruct Hold as [old Hold]. rewrite map_size_insert, Hold. done.
      * assert (¬ limit ≤ Z.of_nat (size (view s))) by (intros ?; by apply (Hfull limit)).
        rewrite map_size_insert. destruct (view s !! _); cbn; lia.
    + rewrite map_size_delete. destruct (view s !! _); cbn; lia.
  - intros k b. destruct (is_active (state a)).
    + intros [[<- <-]|[_ Hb]]%lookup_insert_Some; [done|by apply Hv in Hb].
    + intros [_ Hb]%lookup_delete_Some. by apply Hv in Hb.
  - intros b [->|Hb]%Hr; auto.
Qed.

Lemma record_ok_refreshed old sev txt det now st :
  record_ok old → is_active (state old) = true → is_active st = true →
  record_ok (refreshed old sev txt det (Z.max now (raised_at old)) st).
Proof.
  intros [_ Hc] Ha Hst. split; cbn; [lia|]. by rewrite Hst, Hc, Ha.
Qed.

Lemma record_ok_cleared old now : record_ok (cleared old (Z.max now (raised_at old))).
Proof. split; cbn; [lia|done]. Qed.

Lemma gauge_rebuilt s m' :
  store_ok s → alarm_active_count m' = rebuild_alarm_active_count (store_active_alarms s) →
  gauge_ok s m'.
Proof.
  intros Hs Hm key. rewrite Hm, rebuild_gauge. by apply gauge_count_perm, law_active_alarms.
Qed.

(** An active alarm replaced by a record of the same key and identifier. *)
Lemma lifecycle_replace s used k old a s' :
  lifecycle_ok s used → view s !! k = Some old → dedup_key a = k → alarm_id a = alarm_id old →
  stored s a s' → (is_active (state old) = true → record_ok old → record_ok a) →
  lifecycle_ok s' used.
Proof.
  intros Hs Hk Hak Hid Hst Ha. pose proof Hs as (Hok & _ & Hv & _).
  destruct (Hv k old Hk) as [Hu Hr]. destruct (view_wf s k old Hok Hk) as [_ Hact].
  eapply lifecycle_stored; [done..| | |]; [by apply Ha|by rewrite Hid|].
  intros _. left. rewrite Hak. by eexists.
Qed.

Lemma raise_ok s m used uuid now later ty sev cause object te sl re txt det :
  lifecycle_ok s used → gauge_ok s m → uuid ∉ used →
  ∃ res s' m', raise s m uuid now later ty sev cause object te sl re txt det = Ok (res, s', m')
    ∧ lifecycle_ok s' (uuid :: used) ∧ gauge_ok s' m'
    ∧ store_active_limit s' = store_active_limit s.
Proof.
  intros Hs Hg Hu. pose proof Hs as (Hok & Hl & Hv & Hh).
  assert (lifecycle_ok s (uuid :: used)) as Hs1 by (eapply lifecycle_used, Hs; by right).
  pose proof (raise_outcome s m uuid now later ty sev cause object te sl re txt det Hok) as Ho.
  cbn zeta in Ho. destruct (view s !! _) as [old|] eqn:Hk.
  - destruct Ho as (s' & -> & Hst); [intros k b Hb <-; by apply Hv in Hb as [? _]|].
    do 3 eexists. split; [reflexivity|]. split; [|split; [eapply gauge_rebuilt; [apply Hst|done]|apply Hst]].
    destruct (view_wf s _ old Hok Hk) as [Hkey Hact].
    eapply (lifecycle_replace _ _ _ _ _ _ Hs1 Hk); [| |exact Hst|]; [exact Hkey|done|].
    intros Hact' Hr. apply record_ok_refreshed; [done..|]. by destruct (state old).
  - destruct Ho as [(limit & Hf & ->)|(Hf & s' & -> & Hst)];
      [intros k b Hb <-; by apply Hv in Hb as [? _]| |].
    + do 3 eexists. split; [reflexivity|]. by split_and!.
    + do 3 eexists. split; [reflexivity|].
      split; [|split; [eapply gauge_rebuilt; [apply Hst|done]|apply Hst]].
      eapply lifecycle_stored; [exact Hs1|exact Hst| |left|]; [|by right].
      split; cbn; [lia|done].
Qed.

Lemma clear_ok s m used now ty cause object te sl re :
  lifecycle_ok s used →
  ∃ res s' m', clear s m now ty cause object te sl re = Ok (res, s', m')
    ∧ lifecycle_ok s' used ∧ gauge_ok s' m' ∧ store_active_limit s' = store_active_limit s.
Proof.
  intros Hs. pose proof Hs as (Hok & _).
  pose proof (clear_outcome s m now ty cause object te sl re Hok) as Ho. cbn zeta in Ho.
  destruct (view s !! _) as [old|] eqn:Hk.
  - destruct Ho as (s' & -> & Hst). do 3 eexists. split; [reflexivity|].
    split; [|split; [eapply gauge_rebuilt; [apply Hst|done]|apply Hst]].
    destruct (view_wf s _ old Hok Hk) as [Hkey _].
    eapply (lifecycle_replace _ _ _ _ _ _ Hs Hk); [| |exact Hst|]; [exact Hkey|done|].
    intros _ _. apply record_ok_cleared.
  - rewrite Ho. do 3 eexists. split; [reflexivity|]. split; [done|].
    split; [by eapply gauge_rebuilt|done].
Qed.

(** A change of state by an administrator keeps the severity and the cause. *)
Lemma with_state_ok s m used a st now s' :
  lifecycle_ok s used → gauge_ok s m → view s !! dedup_key a = Some a →
  is_active st = true → stored s (with_state a st (Z.max now (raised_at a))) s' →
  lifecycle_ok s' used ∧ gauge_ok s' m ∧ store_active_limit s' = store_active_limit s.
Proof.
  intros Hs Hg Hk Hst Hstored. split; [|split; [|apply Hstored]].
  - eapply (lifecycle_replace _ _ _ _ _ _ Hs Hk); [| |exact Hstored|]; [done..|].
    intros Ha Hr. by apply record_ok_refreshed.
  - intros key. destruct Hstored as (_ & -> & _). cbn [with_state refreshed state].
    rewrite Hst. rewrite Hg. symmetry. by apply (gauge_count_insert (view s) _ a).
Qed.

Lemma admin_ok (good : A → Prop) s m x t used now later id action ctx :
  policy_total (T := T) good → good x → lifecycle_ok s used → gauge_ok s m →
  ∃ res s' m' x' t',
    apply_admin_action s m x t now later id action ctx = Ok (res, s', m', x', t') ∧ good x'
    ∧ lifecycle_ok s' used ∧ gauge_ok s' m' ∧ store_active_limit s' = store_active_limit s.
Proof.
  intros Htot Hx Hs Hg. pose proof Hs as (Hok & _).
  destruct (admin_outcome good Htot s m x t now later id action ctx Hok Hx)
    as (res & s' & m' & x' & t' & He & Hc & Hgauge & Hx').
  exists res, s', m', x', t'. split; [exact He|]. split; [exact Hx'|].
  assert (lifecycle_ok s' used ∧ store_active_limit s' = store_active_limit s) as [Hs' Hl].
  { destruct res; cbn [admin_contract] in Hc; try done;
      [| |by destruct Hc as [-> _]..|by destruct Hc as (_ & -> & _)];
      destruct Hc as (a & [Hk _] & -> & _ & _ & _ & _ & Hst);
      (eapply with_state_ok in Hst as (? & _ & ?); [done|done|done|exact Hk|by destruct action]). }
  split; [done|]. split; [|done]. destruct Hgauge as [[-> Hm]|Hm].
  - intros key. by rewrite Hm.
  - eapply gauge_rebuilt; [apply Hs'|done].
Qed.

Lemma expire_ok s m used cutoff :
  lifecycle_ok s used → gauge_ok s m →
  ∃ n s' m', manager_expire_before s m cutoff = Ok (n, s', m')
    ∧ lifecycle_ok s' used ∧ gauge_ok s' m' ∧ store_active_limit s' = store_active_limit s.
Proof.
  intros Hs Hg. pose proof Hs as (Hok & Hl & Hv & Hh). unfold manager_expire_before.
  destruct (law_expire_before s cutoff Hok) as (s' & -> & Hok' & Hv' & Hh' & Hlim).
  do 3 eexists. split; [reflexivity|]. split; [|split; [|done]].
  - split; [done|]. rewrite Hlim, Hv'. split; [|split].
    + intros limit Hlimit. etransitivity; [|by apply Hl]. apply Nat2Z.inj_le, map_subseteq_size, map_filter_subseteq.
    + intros k a [Hk _]%map_lookup_filter_Some. by apply Hv in Hk.
    + intros b [Hb|(k & a & Hk & Hlt & ->)]%Hh'; [by apply Hh|].
      apply Hv in Hk as [_ [Hr _]]. split; cbn; [lia|done].
  - destruct (Z.ltb_spec 0 (Z.of_nat (size (view s)) - Z.of_nat (size (view s')))) as [_|Hn];
      [by eapply gauge_rebuilt|].
    assert (view s' = view s) as Heq; [|intros key; rewrite Heq; apply Hg].
    apply map_subseteq_size_eq; [rewrite Hv'; apply map_filter_subseteq|]. lia.
Qed.

Definition world_ok (good : A → Prop) (w : AlarmWorld) (used : list str) : Prop :=
  good (w_authorizer w) ∧ lifecycle_ok (w_store w) used ∧ gauge_ok (w_store w) (w_metrics w).

Lemma exec_alarm_op_ok good w used op :
  policy_total (T := T) good → world_ok good w used → (∀ i, i ∈ op_ids op → i ∉ used) →
  ∃ w', exec_alarm_op w op = Ok w' ∧ world_ok good w' (op_ids op ++ used)
    ∧ store_active_limit (w_store w') = store_active_limit (w_store w).
Proof.
  intros Htot (Hx & Hs & Hg) Hid. unfold world_ok.
  destruct op as [uuid now later ty sev cause object te sl re txt det|now ty cause object te sl re
    |now id auth|now id auth|now later id action ctx|cutoff]; cbn [exec_alarm_op op_ids app].
  - edestruct (raise_ok (w_store w) (w_metrics w) used uuid now later ty sev cause object te sl re txt det)
      as (res & s' & m' & -> & ? & ? & ?); [done|done|apply Hid; left|]. eexists. by split.
  - edestruct (clear_ok (w_store w) (w_metrics w) used now ty cause object te sl re)
      as (res & s' & m' & -> & ? & ? & ?); [done|]. eexists. by split.
  - destruct (acknowledge_outcome (w_store w) now id auth (proj1 Hs))
      as [[res ->]|(a & s' & -> & Hst & Hk & _)]; eexists; (split; [reflexivity|]); [done|].
    eapply (with_state_ok (w_store w) (w_metrics w) used a) in Hst as (? & ? & ?); [|done..].
    by split; [split; [|split]|].
  - destruct (suppress_outcome (w_store w) now id auth (proj1 Hs))
      as [[res ->]|(a & s' & -> & Hst & Hk & _)]; eexists; (split; [reflexivity|]); [done|].
    eapply (with_state_ok (w_store w) (w_metrics w) used a) in Hst as (? & ? & ?); [|done..].
    by split; [split; [|split]|].
  - edestruct (admin_ok good (w_store w) (w_metrics w) (w_authorizer w) (w_sink w) used now
      later id action ctx) as (res & s' & m' & x' & t' & -> & ? & ? & ? & ?); [done..|]. eexists. by split.
  - edestruct (expire_ok (w_store w) (w_metrics w) used cutoff)
      as (n & s' & m' & -> & ? & ? & ?); [done..|]. eexists. by split.
Qed.

Lemma run_alarm_ops_ok good ops w used :
  policy_total (T := T) good → world_ok good w used → NoDup (mjoin (op_ids <$> ops)) →
  (∀ i, i ∈ mjoin (op_ids <$> ops) → i ∉ used) →
  ∃ w' used', run_alarm_ops w ops = Ok w' ∧ world_ok good w' used'
    ∧ store_active_limit (w_store w') = store_active_limit (w_store w).
Proof.
  intros Htot. revert w used. induction ops as [|op ops IH]; intros w used Hw Hnd Hfresh.
  { exists w, used. by split. }
  cbn in Hnd, Hfresh. apply NoDup_app in Hnd as (Hnd1 & Hdis & Hnd2).
  destruct (exec_alarm_op_ok good w used op Htot Hw) as (w1 & He & Hw1 & Hl1).
  { intros i Hi. apply Hfresh, elem_of_app. by left. }
  destruct (IH w1 (op_ids op ++ used) Hw1 Hnd2) as (w' & used' & Hr & Hw' & Hl').
  { intros i Hi [Hin|Hin]%elem_of_app; [by apply (Hdis i)|].
    eapply (Hfresh i); [apply elem_of_app; by right|done]. }
  exists w', used'. cbn [run_alarm_ops]. rewrite He. split; [done|]. split; [done|]. congruence.
Qed.
End Runs.

(** ** The theorems *)

(** Raising an alarm is deduplicated, over any store that keeps its promises: when
    an active alarm has the key, that alarm, with its identifier, its first time and an
    acknowledgement or suppression kept, takes the new severity, text and details; when
    none has, a new alarm is stored, unless the limit is reached, and then nothing is.
    Either way the active alarms change at that key alone. *)
Theorem raise_dedup `{Externals} {S : Type} `{!AlarmStore S, !AlarmStoreLaws S}
    (s : S) (m : AlarmMetrics) uuid now later ty sev cause object te sl re txt det :
  store_ok s → (∀ k b, view s !! k = Some b → alarm_id b ≠ uuid) →
  let key := dedup_compute ty cause object te sl (region_str <$> re) in
  let new := new_alarm uuid ty sev cause object te sl re txt det now in
  ∃ res s' m',
    raise s m uuid now later ty sev cause object te sl re txt det = Ok (res, s', m')
    ∧ store_ok s' ∧ store_active_limit s' = store_active_limit s
    ∧ match view s !! key with
      | Some old =>
          let a := refreshed old sev txt det (Z.max later (raised_at old))
                     (reraised (state old)) in
          res = ResUpdated a ∧ view s' = <[key := a]> (view s)
      | None =>
          (∃ limit, full s limit ∧ res = ResActiveLimitExceeded limit key ∧ s' = s ∧ m' = m)
          ∨ (∀ limit, ¬ full s limit) ∧ res = ResRaised new
            ∧ view s' = <[key := new]> (view s)
      end.
Proof.
  intros Hs Hfresh key new.
  pose proof (raise_outcome s m uuid now later ty sev cause object te sl re txt det Hs Hfresh) as Ho.
  cbn zeta in Ho. fold key in Ho. destruct (view s !! key) as [old|] eqn:Hk.
  - destruct (view_wf s key old Hs Hk) as [Hkey Ha].
    destruct Ho as (s' & -> & Hs' & Hv & _ & Hl). do 3 eexists. split; [reflexivity|].
    split; [done|]. split; [done|]. split; [done|]. rewrite Hv.
    change (dedup_key (refreshed _ _ _ _ _ _)) with (dedup_key old). rewrite Hkey.
    by destruct (state old).
  - destruct Ho as [(limit & Hf & ->)|(Hf & s' & -> & Hs' & Hv & _ & Hl)];
      (do 3 eexists; split; [reflexivity|]).
    + split; [done|]. split; [done|]. left. by exists limit.
    + split; [done|]. split; [done|]. by right.
Qed.

(** C25. The policy paths fail closed, over any authorizer and any audit sink that do
    not panic: an alarm is acknowledged or suppressed only after the authorizer allowed
    it, after the explicit override when it is security critical, and after the audit
    sink accepted the record of it; a denial is passed to the sink too; and whenever
    the result is anything else the store is as it was. *)
Theorem admin_fail_closed `{Externals} {S A T : Type} `{!AlarmStore S, !AlarmStoreLaws S}
    `{!AlarmActionAuthorizer A, !AlarmAuditSink T} (s : S) (m : AlarmMetrics) (x : A) (t : T)
    (good : A → Prop) now later id action ctx :
  policy_total (T := T) good → good x → store_ok s →
  ∃ res s' m' x' t',
    apply_admin_action s m x t now later id action ctx = Ok (res, s', m', x', t')
    ∧ admin_contract s x t now later id action ctx res s' t'.
Proof.
  intros Htot Hx Hs. destruct (admin_outcome good Htot s m x t now later id action ctx Hs Hx)
    as (res & s' & m' & x' & t' & He & Hc & _). by exists res, s', m', x', t'.
Qed.

(** The counters before anything was raised. *)
Definition metrics_new : AlarmMetrics :=
  {| alarm_active_count := ∅; alarm_audit_success := 0; alarm_audit_failure := 0 |}.

(** C24. No run of the manager over the store in memory breaks it: whatever is raised
    with fresh identifiers, cleared, acknowledged, suppressed or expired, every
    operation returns; there are never more active alarms than the limit, nor more
    records in the history than its; the two indexes stay inverse to each other, so a
    key has one active alarm; every record's times are in order; and the gauge counts
    the active alarms exactly. *)
Theorem alarm_manager_safe `{Externals} {A T : Type}
    `{!AlarmActionAuthorizer A, !AlarmAuditSink T} (good : A → Prop) (x : A) (t : T)
    hl al s0 ops :
  policy_total (T := T) good → good x → new_with_limits hl al = Ok s0 →
  NoDup (mjoin (op_ids <$> ops)) →
  ∃ w, run_alarm_ops {| w_store := s0; w_metrics := metrics_new; w_authorizer := x;
                        w_sink := t |} ops = Ok w
    ∧ let s := w_store w in
      active_count s ≤ al ∧ len (history s) ≤ hl
      ∧ (∀ i a, by_id s !! i = Some a →
           alarm_id a = i ∧ is_active (state a) = true
           ∧ by_dedup_key s !! dedup_key a = Some i ∧ record_ok a)
      ∧ (∀ k i, by_dedup_key s !! k = Some i →
           ∃ a, by_id s !! i = Some a ∧ dedup_key a = k)
      ∧ (∀ a, a ∈ history s → record_ok a)
      ∧ ∀ key, alarm_active_count (w_metrics w) !! key = gauge_count (active_alarms s) key.
Proof.
  intros Htot Hx (Hok & Hv & Hh & Hhl & Hal & Hpos)%new_with_limits_ok Hnd.
  destruct (run_alarm_ops_ok (S := InMemoryStore) (AlarmStoreLaws0 := memory_laws hl)
    good ops
    {| w_store := s0; w_metrics := metrics_new; w_authorizer := x; w_sink := t |} [] Htot)
    as (w & used & Hr & (_ & (Hs & Hl & Hrec & Hhist) & Hg) & Hlim); [|done|set_solver|].
  { split; [done|]. split; [|intros key; cbn; by rewrite Hv].
    split; [exact (conj Hok Hhl)|]. cbn. rewrite Hv, Hh. split; [intros limit [= <-]; rewrite map_size_empty; lia|].
    split; [by intros k a; rewrite lookup_empty|set_solver]. }
  exists w. split; [exact Hr|]. cbn in Hs, Hl, Hrec, Hhist, Hg, Hlim. injection Hlim as Hlim.
  destruct Hs as [Hs Hhl']. pose proof Hs as (_ & Hlen & Hid & Hkey). cbn zeta. split.
  { unfold active_count. rewrite <- memory_size by done. apply Hl. congruence. }
  split; [by rewrite <- Hhl'|]. split.
  { intros i a Hi. destruct (Hid i a Hi) as (Hai & Ha & Hk). do 3 (split; [done|]).
    apply (Hrec (dedup_key a)), memory_view_some; [done|]. by rewrite Hai. }
  split; [done|]. split; [done|]. intros key. rewrite Hg. apply gauge_count_perm.
  unfold active_alarms. rewrite map_values_perm. by apply memory_values.
Qed.

(** ** Witnesses *)

#[local] Existing Instance sample_externals.

(** An authorizer that admits one principal, and a sink that keeps what it is given
    up to two records. *)
#[local] Instance sample_authorizer : AlarmActionAuthorizer unit := {|
  authorize_alarm_action x _ _ ctx :=
    (x, if bool_decide (principal ctx = lit "ops") then Ok tt
        else Err {| message := lit "denied" |});
  allow_security_critical_suppression x _ _ := (x, Ok false);
|}.

#[local] Instance sample_sink : AlarmAuditSink (list AlarmAuditEvent) := {|
  record_alarm_action t e := if len t <? 2 then (t ++ [e], Ok tt) else (t, Err (lit "full"));
|}.

Lemma sample_policy_total : policy_total (T := list AlarmAuditEvent) (λ _ : unit, True).
Proof.
  split; [|split]; [|done|].
  - intros x act a ctx _. cbn. by case_bool_decide.
  - intros t e. cbn. by destruct (len t <? 2).
Qed.

Definition sample_raise (uuid : string) (t : Z) (ty : string) (sev : Severity) : AlarmOp :=
  OpRaise (lit uuid) t t (lit ty) sev PeerUnreachable (ObjTenant (lit "a")) None None None
    (lit "down") details_empty.

Definition sample_context (p : string) : AlarmActionContext :=
  context_new (lit p) (lit "window") ScopeGlobal.

Definition sample_alarm_ops : list AlarmOp :=
  [sample_raise "u1" 10 "link" Critical; sample_raise "u2" 20 "link" Critical;
   sample_raise "u3" 30 "disk" Minor;
   OpAdmin 40 41 (lit "u1") Suppress (sample_context "ops");
   OpAdmin 50 51 (lit "u1") Acknowledge (sample_context "ops");
   OpClear 60 (lit "link") PeerUnreachable (ObjTenant (lit "a")) None None None;
   sample_raise "u4" 70 "disk" Major].

Definition sample_store (hl al : Z) : InMemoryStore :=
  {| by_id := ∅; by_dedup_key := ∅; history := []; history_limit := hl; active_limit := al |}.

Definition sample_world : AlarmWorld :=
  {| w_store := sample_store 2 1; w_metrics := metrics_new; w_authorizer := tt;
     w_sink := ([] : list AlarmAuditEvent) |}.

(** The end of the run: the identifiers and states of the history, and the audit trail. *)
Definition sample_end : option (list (str * AlarmState) * list AlarmAuditOutcome * Z) :=
  match run_alarm_ops sample_world sample_alarm_ops with
  | Ok w => Some ((λ a, (alarm_id a, state a)) <$> history (w_store w),
                  ev_outcome <$> w_sink w, active_count (w_store w))
  | _ => None
  end.

Lemma alarm_manager_safe_witness :
  sample_end = Some ([(lit "u1", Cleared); (lit "u4", Raised)], [Denied; Authorized], 1)
  ∧ ∃ w, run_alarm_ops sample_world sample_alarm_ops = Ok w ∧ active_count (w_store w) ≤ 1.
Proof.
  split; [vm_compute; reflexivity|].
  destruct (alarm_manager_safe (λ _, True) tt ([] : list AlarmAuditEvent) 2 1 (sample_store 2 1)
    sample_alarm_ops sample_policy_total I eq_refl) as (w & Hr & Hc & _).
  - apply (bool_decide_unpack _). vm_compute. exact I.
  - exists w. split; [exact Hr|exact Hc].
Defined.

(** The first alarm of that run, in the store it was raised into. *)
Definition sample_alarm : Alarm :=
  new_alarm (lit "u1") (lit "link") Critical PeerUnreachable (ObjTenant (lit "a")) None None None
    (lit "down") details_empty 10.

Lemma sample_store_ok : memory_ok (sample_store 2 1) ∧ history_limit (sample_store 2 1) = 2.
Proof. split; [|done]. by apply (new_with_limits_ok 2 1). Qed.

Lemma sample_insert :
  let s := insert (sample_store 2 1) sample_alarm in
  memory_ok s ∧ history_limit s = 2
  ∧ memory_view s = <[dedup_key sample_alarm := sample_alarm]> ∅.
Proof.
  destruct sample_store_ok as [Hs _].
  assert (memory_view (sample_store 2 1) = ∅) as Hv by by apply (new_with_limits_ok 2 1).
  destruct (memory_insert (sample_store 2 1) sample_alarm Hs eq_refl) as (Hok & Hins & _ & _ & Hh).
  - rewrite Hv. apply lookup_empty.
  - intros k b. rewrite Hv, lookup_empty. discriminate.
  - cbn zeta. split; [exact Hok|]. split; [exact Hh|]. rewrite <- Hv. exact Hins.
Qed.

Lemma raise_dedup_witness :
  ∃ res s' m',
    raise (insert (sample_store 2 1) sample_alarm) metrics_new (lit "u2") 20 21 (lit "link")
      Minor PeerUnreachable (ObjTenant (lit "a")) None None None (lit "flap") details_empty
    = Ok (res, s', m')
    ∧ memory_view s'
      = <[dedup_key sample_alarm
            := refreshed sample_alarm Minor (lit "flap") details_empty 21 Updated]>
          (memory_view (insert (sample_store 2 1) sample_alarm)).
Proof.
  destruct sample_insert as (Hs & Hh & Hv).
  destruct (@raise_dedup _ _ _ (memory_laws 2) (insert (sample_store 2 1) sample_alarm)
    metrics_new (lit "u2") 20 21 (lit "link") Minor PeerUnreachable (ObjTenant (lit "a"))
    None None None (lit "flap") details_empty) as (res & s' & m' & He & _ & _ & Hm).
  - exact (conj Hs Hh).
  - cbn [view memory_laws]. rewrite Hv. intros k b [[_ <-]|[_ Hb]]%lookup_insert_Some; done.
  - exists res, s', m'. split; [exact He|]. cbn [view memory_laws] in Hm. rewrite Hv in Hm.
    change (dedup_compute (lit "link") PeerUnreachable (ObjTenant (lit "a")) None None
      (region_str <$> None)) with (dedup_key sample_alarm) in Hm.
    rewrite lookup_insert_eq in Hm. destruct Hm as [_ Hm]. rewrite Hm, Hv. done.
Defined.

Definition sample_denial :=
  apply_admin_action (insert (sample_store 2 1) sample_alarm) metrics_new tt
    ([] : list AlarmAuditEvent) 40 41 (lit "u1") Suppress (sample_context "ops").

Definition sample_message : str :=
  lit "security-critical alarm suppression requires explicit policy override".

Lemma sample_denial_result :
  match sample_denial with
  | Ok (ResUnauthorized msg, _, _, _, t) => (msg, ev_outcome <$> t)
  | _ => ([], [])
  end = (sample_message, [Denied]).
Proof. vm_compute. reflexivity. Qed.

Lemma admin_fail_closed_witness :
  ∃ s' m' x' t', sample_denial = Ok (ResUnauthorized sample_message, s', m', x', t')
    ∧ ev_outcome <$> t' = [Denied] ∧ s' = insert (sample_store 2 1) sample_alarm.
Proof.
  destruct sample_insert as (Hs & Hh & _).
  destruct (@admin_fail_closed _ _ _ _ _ (memory_laws 2) _ _
    (insert (sample_store 2 1) sample_alarm) metrics_new tt ([] : list AlarmAuditEvent)
    (λ _, True) 40 41 (lit "u1") Suppress (sample_context "ops") sample_policy_total I
    (conj Hs Hh)) as (res & s' & m' & x' & t' & He & Hc).
  pose proof sample_denial_result as Hd. fold sample_denial in He. rewrite He in Hd.
  destruct res as [| | | | | | |msg| |]; try discriminate Hd. injection Hd as -> Ht.
  exists s', m', x', t'. split; [exact He|]. split; [exact Ht|]. exact (proj1 Hc).
Defined.
