(* ===== verification/AlarmNacm.v ===== *)
(** The NACM authorizer of alarm actions, [crates/opc-alarm/src/nacm_adapter.rs], on top
    of the caching evaluator of [NacmPolicy], and what an action through it means: the
    principal is one of those admitted, the asserted scope and tenant cover the alarm,
    and the first rule of the policy for the action's path is an allow. *)
From S2P Require Import Prelude.
From S2P Require Import Text.
From S2P Require Import NacmPath.
From S2P Require Import NacmRules.
From S2P Require Import NacmTrie.
From S2P Require Import NacmPolicy.
From S2P Require Import AlarmModel.
From S2P Require Import AlarmStore.
From S2P Require Import AlarmManager.
From S2P Require Import AlarmLifecycle.
From S2P Require Import AlarmRuns.

(** The evaluator is behind a mutex, poisoned once a holder panicked; the counters it
    increments are the process's. *)
Record NacmAlarmAuthorizer := {
  a_policy : NacmPolicy;
  a_registry : ModuleRegistry;
  allowed_principals : list str;
  a_evaluator : NacmEvaluator;
  a_poisoned : bool;
  a_metrics : Metrics;
}.

Definition with_allowed_principals (policy : NacmPolicy) (registry : ModuleRegistry)
    (principals : list str) (m : Metrics) : NacmAlarmAuthorizer :=
  let registry :=
    match modules_for_prefix registry (lit "ietf-alarms") with
    | None =>
        match register_module registry (lit "ietf-alarms") (lit "ietf-alarms") with
        | Ok registry => registry
        | _ => registry
        end
    | Some _ => registry
    end in
  {| a_policy := policy; a_registry := registry;
     allowed_principals :=
       set_collect (List.filter (λ p, negb (bool_decide (p = []))) (trim <$> principals));
     a_evaluator := evaluator_new; a_poisoned := false; a_metrics := m |}.

Definition authorizer_new (policy : NacmPolicy) (registry : ModuleRegistry) (m : Metrics) :
  NacmAlarmAuthorizer := with_allowed_principals policy registry [] m.

Definition principal_allowed (self : NacmAlarmAuthorizer) (context : AlarmActionContext) : bool :=
  bool_decide (trim (principal context) ∈ allowed_principals self).

Definition denied {A} (self : A) (msg : str) : A * outcome AlarmActionDenied unit :=
  (self, Err {| message := msg |}).

Definition LOCK_DENIED : str := lit "NACM evaluator unavailable after prior panic".

Definition lock_evaluator (self : NacmAlarmAuthorizer) : outcome AlarmActionDenied NacmEvaluator :=
  if a_poisoned self then Err {| message := LOCK_DENIED |} else Ok (a_evaluator self).

(** The evaluator and the counters after an evaluation. *)
Definition with_evaluation (self : NacmAlarmAuthorizer) (e : NacmEvaluator) (m : Metrics) :
  NacmAlarmAuthorizer :=
  {| a_policy := a_policy self; a_registry := a_registry self;
     allowed_principals := allowed_principals self; a_evaluator := e;
     a_poisoned := a_poisoned self; a_metrics := m |}.

Definition nacm_error_to_string (e : NacmError) : str := err_kind e ++ lit ": " ++ err_message e.

Definition action_path (action : AlarmAction) : str :=
  match action with
  | Acknowledge => lit "/ietf-alarms:alarms/alarm-list/alarm/acknowledge-alarm"
  | Suppress => lit "/ietf-alarms:alarms/alarm-list/alarm/suppress-alarm"
  end.

(** [{:?}] of an [AlarmAction]. *)
Definition action_debug (action : AlarmAction) : str :=
  match action with
  | Acknowledge => lit "Acknowledge"
  | Suppress => lit "Suppress"
  end.

Definition override_path : str :=
  lit "/ietf-alarms:alarms/alarm-list/alarm/security-critical-suppression".

(** [debug_tenant] is [{:?}] of an optional string, used in one message. *)
Section Authorizer.
Context {externals : Externals} (debug_tenant : option str → str).

(** The check of the asserted scope: the message of a denial. *)
Definition scope_denial (alarm : Alarm) (context : AlarmActionContext) : option str :=
  match scope context with
  | ScopeAlarm id =>
      if negb (bool_decide (id = alarm_id alarm)) then
        Some (lit "Scope alarm_id '" ++ id ++ lit "' does not match target alarm_id '"
              ++ alarm_id alarm ++ lit "'")
      else None
  | ScopeTenant t =>
      if negb (bool_decide (tenant alarm = Some t)) then
        Some (lit "Scope tenant '" ++ t ++ lit "' does not match target alarm tenant '"
              ++ debug_tenant (tenant alarm) ++ lit "'")
      else None
  | ScopeGlobal => None
  end.

(** The check of the tenants. *)
Definition tenant_denial (alarm : Alarm) (context : AlarmActionContext) : option str :=
  match ctx_tenant context, tenant alarm with
  | Some c, Some t =>
      if negb (bool_decide (c = t)) then
        Some (lit "Tenant mismatch: context tenant '" ++ c
              ++ lit "' does not match alarm tenant '" ++ t ++ lit "'")
      else None
  | Some c, None =>
      Some (lit "Tenant mismatch: tenant-scoped context '" ++ c
            ++ lit "' cannot touch global alarm")
  | None, _ => None
  end.

Definition nacm_authorize (self : NacmAlarmAuthorizer) (action : AlarmAction) (alarm : Alarm)
    (context : AlarmActionContext) : NacmAlarmAuthorizer * outcome AlarmActionDenied unit :=
  if bool_decide (trim (principal context) = []) then
    denied self (lit "principal identity cannot be empty")
  else if negb (principal_allowed self context) then
    denied self (lit "principal '" ++ principal context
                 ++ lit "' is not allowed to administer alarms")
  else
    match scope_denial alarm context with
    | Some msg => denied self msg
    | None =>
        match tenant_denial alarm context with
        | Some msg => denied self msg
        | None =>
            match path_parse (action_path action) (a_registry self) with
            | Err e =>
                denied self (lit "Failed to parse action path: " ++ nacm_error_to_string e)
            | Crash => (self, Crash)
            | Ok path =>
                match lock_evaluator self with
                | Err d => (self, Err d)
                | Crash => (self, Crash)
                | Ok eval =>
                    match evaluator_evaluate eval (a_metrics self) (a_policy self) path Exec with
                    | Ok (eval, m, decision) =>
                        let self := with_evaluation self eval m in
                        if decision_is_allowed decision then (self, Ok tt)
                        else
                          denied self
                            (lit "Authorization denied for principal '" ++ principal context
                             ++ lit "': no matching allow rule for action '"
                             ++ action_debug action ++ lit "'")
                    | _ => (self, Crash)
                    end
                end
            end
        end
    end.

Definition nacm_allow_override (self : NacmAlarmAuthorizer) (alarm : Alarm)
    (context : AlarmActionContext) : NacmAlarmAuthorizer * outcome False bool :=
  if bool_decide (trim (principal context) = []) || negb (principal_allowed self context)
  then (self, Ok false)
  else
    match path_parse override_path (a_registry self) with
    | Err _ => (self, Ok false)
    | Crash => (self, Crash)
    | Ok path =>
        match lock_evaluator self with
        | Err _ => (self, Ok false)
        | Crash => (self, Crash)
        | Ok eval =>
            match evaluator_evaluate eval (a_metrics self) (a_policy self) path Exec with
            | Ok (eval, m, decision) =>
                (with_evaluation self eval m, Ok (decision_is_allowed decision))
            | _ => (self, Crash)
            end
        end
    end.

Definition nacm_authorizer : AlarmActionAuthorizer NacmAlarmAuthorizer := {|
  authorize_alarm_action := nacm_authorize;
  allow_security_critical_suppression := nacm_allow_override;
|}.

(** ** What an authorization means *)

(** The authorizer of a built policy, with a cache that holds its decisions alone. *)
Definition authorizer_ok (x : NacmAlarmAuthorizer) : Prop :=
  registry_ok (a_registry x) ∧ trie (a_policy x) = from_rules (rules (a_policy x))
  ∧ evaluator_ok (a_evaluator x) ∧ sound_for (a_evaluator x) (a_policy x).

(** The first rule of the policy that has the [exec] action and matches the path this
    text stands for allows it. *)
Definition rule_allows (x : NacmAlarmAuthorizer) (text : str) : Prop :=
  ∃ path i rule, path_parse text (a_registry x) = Ok path
    ∧ first_match (rules (a_policy x)) path Exec = Some (i, rule) ∧ rule_effect rule = Allow.

Definition admitted (x : NacmAlarmAuthorizer) (context : AlarmActionContext) : Prop :=
  trim (principal context) ≠ [] ∧ trim (principal context) ∈ allowed_principals x.

Definition scope_covers (alarm : Alarm) (context : AlarmActionContext) : Prop :=
  match scope context with
  | ScopeAlarm id => id = alarm_id alarm
  | ScopeTenant t => tenant alarm = Some t
  | ScopeGlobal => True
  end.

Definition tenant_aligned (alarm : Alarm) (context : AlarmActionContext) : Prop :=
  ∀ c, ctx_tenant context = Some c → tenant alarm = Some c.

(** What an action leaves of the authorizer. *)
Definition same_authority (x x' : NacmAlarmAuthorizer) : Prop :=
  a_policy x' = a_policy x ∧ a_registry x' = a_registry x
  ∧ allowed_principals x' = allowed_principals x ∧ a_poisoned x' = a_poisoned x.

Lemma scope_denial_none a ctx : scope_denial a ctx = None ↔ scope_covers a ctx.
Proof.
  unfold scope_denial, scope_covers. destruct (scope ctx) as [id|t|]; [| |done];
    case_bool_decide; cbn [negb]; by split.
Qed.

Lemma tenant_denial_none a ctx : tenant_denial a ctx = None ↔ tenant_aligned a ctx.
Proof.
  unfold tenant_denial, tenant_aligned.
  destruct (ctx_tenant ctx) as [c|], (tenant a) as [t|]; try (by split; intros; simplify_eq).
  - case_bool_decide as Hc; cbn [negb]; [subst; by split; [intros _ ? [= <-]|]|].
    split; [done|]. intros H. exfalso. apply Hc. by injection (H c eq_refl).
  - split; [done|]. intros H. by specialize (H c eq_refl).
Qed.

(** One evaluation: it returns, and allows exactly when the first rule does. *)
Lemma authorizer_evaluate x path :
  authorizer_ok x →
  ∃ e m d, evaluator_evaluate (a_evaluator x) (a_metrics x) (a_policy x) path Exec = Ok (e, m, d)
    ∧ authorizer_ok (with_evaluation x e m) ∧ same_authority x (with_evaluation x e m)
    ∧ (decision_is_allowed d = true
       ↔ ∃ i rule, first_match (rules (a_policy x)) path Exec = Some (i, rule)
                   ∧ rule_effect rule = Allow).
Proof.
  intros (Hr & Ht & He & Hs).
  destruct (evaluate_spec (a_evaluator x) (a_metrics x) (a_policy x) path Exec [a_policy x] None
    (evaluator_evaluate (a_evaluator x) (a_metrics x) (a_policy x) path Exec) He) as (e & m & d & Heq & Hf & He' & _ & _ & Hs'); [|set_solver|set_solver|reflexivity|].
  { intros q ->%list_elem_of_singleton. done. }
  exists e, m, d. split; [exact Heq|]. split.
  { split; [done|]. split; [done|]. split; [done|]. apply Hs'. by left. }
  split; [done|]. change (decision_is_allowed d) with (effect_is_allowed (effect d)).
  change (effect d) with (effect (forget_hit d)). rewrite Hf. cbn [fresh].
  unfold policy_evaluate. rewrite Ht, lookup_rule_first_match.
  destruct (first_match _ _ _) as [[i rule]|]; cbn; [|split; [done|by intros (? & ? & ? & _)]].
  split; [intros Ha; exists i, rule; split; [done|by destruct (rule_effect rule)]|].
  intros (i' & rule' & [= <- <-] & ->). done.
Qed.

Lemma path_parses x input : authorizer_ok x → returns (path_parse input (a_registry x)).
Proof. intros [Hr _]. by apply path_parse_returns. Qed.

Lemma nacm_authorize_spec x action a ctx :
  authorizer_ok x →
  let r := nacm_authorize x action a ctx in
  returns r.2 ∧ authorizer_ok r.1 ∧ same_authority x r.1
  ∧ (r.2 = Ok tt ↔ admitted x ctx ∧ scope_covers a ctx ∧ tenant_aligned a ctx
                   ∧ a_poisoned x = false ∧ rule_allows x (action_path action)).
Proof.
  intros Hx. unfold nacm_authorize, admitted, principal_allowed, rule_allows, lock_evaluator.
  case_bool_decide as Hp; [by split_and!; try done; naive_solver|].
  case_bool_decide as Hin; cbn [negb]; [|by split_and!; try done; naive_solver].
  rewrite <- scope_denial_none, <- tenant_denial_none.
  destruct (scope_denial a ctx); [by split_and!; try done; naive_solver|].
  destruct (tenant_denial a ctx); [by split_and!; try done; naive_solver|].
  pose proof (path_parses x (action_path action) Hx) as Hret.
  destruct (path_parse _ _) as [path|e|]; [|by split_and!; try done; naive_solver|done].
  destruct (a_poisoned x) eqn:Hpo; [by split_and!; try done; naive_solver|].
  destruct (authorizer_evaluate x path Hx) as (e & m & d & -> & Hx' & Hsame & Hd).
  destruct (decision_is_allowed d); cbn [denied fst snd];
    (split; [done|]; split; [exact Hx'|]; split; [exact Hsame|]).
  - split; [intros _|done]. destruct Hd as [(i & rule & Hm & Ha) _]; [done|].
    do 4 (split; [done|]). by exists path, i, rule.
  - split; [done|]. intros (_ & _ & _ & _ & path' & i & rule & [= <-] & Hm & Ha).
    by discriminate (proj2 Hd (ex_intro _ i (ex_intro _ rule (conj Hm Ha)))).
Qed.

Lemma nacm_override_spec x a ctx :
  authorizer_ok x →
  let r := nacm_allow_override x a ctx in
  returns r.2 ∧ authorizer_ok r.1 ∧ same_authority x r.1
  ∧ (r.2 = Ok true ↔ admitted x ctx ∧ a_poisoned x = false ∧ rule_allows x override_path).
Proof.
  intros Hx. unfold nacm_allow_override, admitted, principal_allowed, rule_allows, lock_evaluator.
  case_bool_decide as Hp; cbn [orb]; [by split_and!; try done; naive_solver|].
  case_bool_decide as Hin; cbn [negb]; [|by split_and!; try done; naive_solver].
  pose proof (path_parses x override_path Hx) as Hret.
  destruct (path_parse _ _) as [path|e|]; [|by split_and!; try done; naive_solver|done].
  destruct (a_poisoned x) eqn:Hpo; [by split_and!; try done; naive_solver|].
  destruct (authorizer_evaluate x path Hx) as (e & m & d & -> & Hx' & Hsame & Hd).
  cbn [fst snd]. split; [done|]. split; [exact Hx'|]. split; [exact Hsame|].
  destruct (decision_is_allowed d).
  - split; [intros _|done]. destruct Hd as [(i & rule & Hm & Ha) _]; [done|].
    do 2 (split; [done|]). by exists path, i, rule.
  - split; [done|]. intros (_ & _ & path' & i & rule & [= <-] & Hm & Ha).
    by discriminate (proj2 Hd (ex_intro _ i (ex_intro _ rule (conj Hm Ha)))).
Qed.

#[local] Existing Instance nacm_authorizer.

Lemma nacm_policy_total {T} `{!AlarmAuditSink T} :
  (∀ (t : T) e, returns (record_alarm_action t e).2) → policy_total (T := T) authorizer_ok.
Proof.
  intros Ht. split; [|split; [|done]].
  - intros x act a ctx Hx. by destruct (nacm_authorize_spec x act a ctx Hx) as (? & ? & _).
  - intros x a ctx Hx. by destruct (nacm_override_spec x a ctx Hx) as (? & ? & _).
Qed.

(** The authority an action through this authorizer needs. *)
Definition entitled (x : NacmAlarmAuthorizer) (action : AlarmAction) (a : Alarm)
    (ctx : AlarmActionContext) : Prop :=
  admitted x ctx ∧ scope_covers a ctx ∧ tenant_aligned a ctx ∧ a_poisoned x = false
  ∧ rule_allows x (action_path action)
  ∧ (action = Suppress → alarm_requires_explicit_suppression_policy a = true →
     rule_allows x override_path).

Lemma same_authority_allows x x' text : same_authority x x' → rule_allows x' text → rule_allows x text.
Proof. intros (Hp & Hr & _ & _). unfold rule_allows. by rewrite Hp, Hr. Qed.

Lemma suppression_allowed_spec x action a ctx :
  authorizer_ok x →
  let r := suppression_allowed x action a ctx in
  authorizer_ok r.1 ∧ same_authority x r.1.
Proof.
  intros Hx. unfold suppression_allowed. destruct (_ && _); [|done].
  by destruct (nacm_override_spec x a ctx Hx) as (_ & ? & ? & _).
Qed.

(** C26. An alarm is acknowledged or suppressed through NACM only with authority, over
    any store that keeps its promises and any audit sink that does not panic: the
    principal is one of those admitted, the asserted scope and tenant cover the alarm,
    the first rule of the policy for the action's path allows it, and so does the first
    for the override's path when a security-critical alarm is suppressed, however the
    evaluator caches its decisions.  Otherwise the store is as it was. *)
Theorem nacm_alarm_authority {S T : Type} `{!AlarmStore S, !AlarmStoreLaws S, !AlarmAuditSink T}
    (s : S) m (x : NacmAlarmAuthorizer) (t : T) now later id action ctx :
  store_ok s → authorizer_ok x → (∀ (t : T) e, returns (record_alarm_action t e).2) →
  ∃ res s' m' x' t',
    apply_admin_action s m x t now later id action ctx = Ok (res, s', m', x', t')
    ∧ match res with
      | ResAcknowledged _ | ResSuppressed _ => ∃ a, target s id a ∧ entitled x action a ctx
      | _ => s' = s
      end.
Proof.
  intros Hs Hx Ht.
  destruct (admin_outcome authorizer_ok (nacm_policy_total Ht) s m x t now later id action ctx Hs Hx)
    as (res & s' & m' & x' & t' & He & Hc & _ & _). exists res, s', m', x', t'. split; [exact He|].
  assert (∀ a, target s id a →
    (action = Suppress → alarm_requires_explicit_suppression_policy a = true →
     (allow_security_critical_suppression x a ctx).2 = Ok true) →
    (authorize_alarm_action (suppression_allowed x action a ctx).1 action a ctx).2 = Ok tt →
    ∃ a, target s id a ∧ entitled x action a ctx) as Hent.
  { intros a Ha Hover Hauth. exists a. split; [done|].
    destruct (suppression_allowed_spec x action a ctx Hx) as [Hx1 Hsame].
    destruct (nacm_authorize_spec _ action a ctx Hx1) as (_ & _ & _ & Hiff).
    apply Hiff in Hauth as ([? Hin] & ? & ? & Hpo & Hrule).
    pose proof Hsame as (_ & _ & Hall & Hpois). rewrite Hall in Hin. rewrite Hpois in Hpo.
    do 4 (split; [done|]). split; [by eapply same_authority_allows|]. intros Hsup Hreq.
    destruct (nacm_override_spec x a ctx Hx) as (_ & _ & _ & Hiff').
    by apply Hiff' in Hover as (_ & _ & ?). }
  destruct res; cbn [admin_contract] in Hc; try done;
    [| |by destruct Hc as [-> _]..|by destruct Hc as (_ & -> & _)];
    destruct Hc as (a & Ha & _ & _ & Hover & Hauth & _); by eapply Hent.
Qed.
End Authorizer.

(** ** The authorizers a caller builds *)

Lemma set_collect_filter (x : str) (l : list str) :
  x ∈ set_collect (List.filter (λ p, negb (bool_decide (p = []))) (trim <$> l))
  ↔ x ≠ [] ∧ ∃ p, p ∈ l ∧ trim p = x.
Proof.
  rewrite elem_of_set_collect, list_elem_of_In, filter_In, <- list_elem_of_In.
  rewrite list_elem_of_fmap, negb_true_iff, bool_decide_eq_false. naive_solver.
Qed.

Lemma with_allowed_principals_ok b counter registry principals m :
  registry_reachable registry →
  let x := with_allowed_principals (build b counter).1 registry principals m in
  authorizer_ok x
  ∧ ∀ p, p ∈ allowed_principals x ↔ p ≠ [] ∧ ∃ q, q ∈ principals ∧ trim q = p.
Proof.
  intros Hr. cbn zeta. split; [|intros p; apply set_collect_filter]. split; [|split; [done|split]].
  - unfold with_allowed_principals. cbn [a_registry]. apply registry_reachable_ok.
    destruct (modules_for_prefix _ _); [done|].
    destruct (register_module _ _ _) as [r| |] eqn:He; [|done..]. by eapply registry_register.
  - cbn [a_evaluator with_allowed_principals]. apply with_capacity_ok.
    unfold DEFAULT_CACHE_CAPACITY. lia.
  - intros Hk. discriminate Hk.
Qed.

#[local] Existing Instance sample_externals.

Definition sample_nacm : NacmAlarmAuthorizer :=
  with_allowed_principals
    (build (add_rule (builder_new 1) (rule_allow Exec {| segments := []; subtree := true |})) 1).1
    ModuleRegistry_new [lit " ops "]
    {| nacm_eval_allow := 0; nacm_eval_deny := 0; nacm_default_deny := 0 |}.

#[local] Instance sample_log : AlarmAuditSink (list AlarmAuditEvent) := {|
  record_alarm_action t e := (t ++ [e], Ok tt);
|}.

#[local] Instance sample_nacm_authorizer : AlarmActionAuthorizer NacmAlarmAuthorizer :=
  nacm_authorizer (λ _, []).

Definition sample_suppression (p : string) :=
  apply_admin_action (insert (sample_store 2 1) sample_alarm) metrics_new sample_nacm
    ([] : list AlarmAuditEvent) 40 41 (lit "u1") Suppress (sample_context p).

Definition is_suppressed {A B C D} (r : outcome False (AlarmOpResult * A * B * C * D)) : bool :=
  match r with
  | Ok (ResSuppressed _, _, _, _, _) => true
  | _ => false
  end.

Lemma nacm_alarm_authority_witness :
  is_suppressed (sample_suppression "ops") = true
  ∧ is_suppressed (sample_suppression "guest") = false
  ∧ ∃ a, target (AlarmStoreLaws0 := memory_laws 2) (insert (sample_store 2 1) sample_alarm)
           (lit "u1") a
         ∧ entitled sample_nacm Suppress a (sample_context "ops").
Proof.
  assert (is_suppressed (sample_suppression "ops") = true) as Hsup
    by (vm_compute; reflexivity).
  split; [exact Hsup|]. split; [vm_compute; reflexivity|].
  destruct sample_insert as (Hs & Hh & _).
  assert (authorizer_ok sample_nacm) as Hx
    by (apply with_allowed_principals_ok; constructor).
  destruct (@nacm_alarm_authority _ (λ _, []) _ _ _ (memory_laws 2) _
    (insert (sample_store 2 1) sample_alarm) metrics_new sample_nacm
    ([] : list AlarmAuditEvent) 40 41 (lit "u1") Suppress (sample_context "ops")
    (conj Hs Hh) Hx) as (res & s' & m' & x' & t' & He & Hc); [intros t e; discriminate|].
  change (sample_suppression "ops" = Ok (res, s', m', x', t')) in He. rewrite He in Hsup.
  destruct res; try discriminate Hsup. exact Hc.
Defined.
