(* ===== verification/AlarmSink.v ===== *)
(** The bounded alarm sink, [crates/opc-alarm/src/sink.rs]: callers that enqueue without
    blocking, a worker that delivers with a budget of retries, and the status and error
    they share.  Once [new] has returned, every read and write of shared state is a step of
    its own, and the steps of callers and worker interleave freely; the worker may fail to
    start, and may be cancelled with its runtime or by a panic of the inner sink wherever it
    waits.  The channel between them is tokio's, a class with the promises of its
    documentation; what the inner sink answers is up to the environment; [redact_text]
    stands for the redaction of messages. *)
From S2P Require Import Prelude.
From S2P Require Import Text.
From S2P Require Import AlarmModel.

Inductive AlarmSinkError :=
| QueueFull
| DeliveryFailed (msg : str)
| ShutdownError
| RetryExhausted (msg : str).

Inductive SinkStatus := StatusOk | StatusFailed | StatusShutdown.

#[export] Instance SinkStatus_eq_dec : EqDecision SinkStatus.
Proof. solve_decision. Defined.

Inductive TrySendError := Full | Closed.

Section Sink.
Context {externals : Externals} (redact_text : str → str).

(** ** The channel

    [tokio::sync::mpsc::channel] of a capacity: messages come out in the order they
    went in, sending without waiting fails when the queue is full or the receiver is
    gone, and dropping the receiver drains the unread messages and drops them. *)
Class Channel (C : Type) := {
  channel : Z → C;
  try_send : C → Alarm → C * (unit + TrySendError);
  recv : C → option (Alarm * C);
  drop_receiver : C → C;
  items : C → list Alarm;
  room : C → Z;
  receiving : C → bool;
  channel_new n : items (channel n) = [] ∧ room (channel n) = n ∧ receiving (channel n) = true;
  try_send_closed c a : receiving c = false → try_send c a = (c, inr Closed);
  try_send_full c a :
    receiving c = true → room c ≤ len (items c) → try_send c a = (c, inr Full);
  try_send_ok c a :
    receiving c = true → len (items c) < room c →
    ∃ c', try_send c a = (c', inl tt) ∧ items c' = items c ++ [a] ∧ room c' = room c
          ∧ receiving c' = true;
  recv_empty c : items c = [] → recv c = None;
  recv_some c a l :
    items c = a :: l →
    ∃ c', recv c = Some (a, c') ∧ items c' = l ∧ room c' = room c
          ∧ receiving c' = receiving c;
  drop_receiver_spec c :
    items (drop_receiver c) = [] ∧ room (drop_receiver c) = room c
    ∧ receiving (drop_receiver c) = false;
}.

(** ** Messages *)

Definition sanitize_sink_message (raw : str) : str :=
  let trimmed := trim (redact_text raw) in
  if bool_decide (trimmed = []) then lit "<redacted>" else trimmed.

Definition sink_error_to_string (e : AlarmSinkError) : str :=
  match e with
  | QueueFull => lit "Sink queue is full"
  | DeliveryFailed msg => lit "Sink delivery failed: " ++ sanitize_sink_message msg
  | ShutdownError => lit "Sink has shutdown"
  | RetryExhausted msg => lit "Retry exhaustion: " ++ sanitize_sink_message msg
  end.

Definition sanitize_sink_error (e : AlarmSinkError) : str :=
  sanitize_sink_message (sink_error_to_string e).

(** ** The sink *)

Context {C : Type} `{!Channel C}.

(** Where the worker is: [new] is about to spawn it, it is about to start, it waits for an
    alarm, it is sending one after [retries] failed attempts, it has recorded the error of
    an alarm it gives up and is about to count it, it has recorded the error of a failed
    start and is about to mark the sink, it has seen the channel closed and is about to mark
    the sink, it is about to drop its receiver, or it is gone. *)
Inductive Worker :=
| Spawning
| Starting
| Waiting
| Sending (alarm : Alarm) (retries : Z)
| Dropping (alarm : Alarm) (retries : Z)
| Failing
| Stopping
| Closing
| Gone.

(** [senders] says whether the sink, which holds the sender, is still alive. *)
Record BoundedAlarmSink := {
  tx : C;
  senders : bool;
  status : SinkStatus;
  last_error : option str;
  dropped : Z;
  worker : Worker;
  max_retries : Z;
}.

Definition with_tx (s : BoundedAlarmSink) (c : C) : BoundedAlarmSink :=
  {| tx := c; senders := senders s; status := status s; last_error := last_error s;
     dropped := dropped s; worker := worker s; max_retries := max_retries s |}.

Definition with_senders (s : BoundedAlarmSink) (b : bool) : BoundedAlarmSink :=
  {| tx := tx s; senders := b; status := status s; last_error := last_error s;
     dropped := dropped s; worker := worker s; max_retries := max_retries s |}.

Definition with_worker (s : BoundedAlarmSink) (w : Worker) : BoundedAlarmSink :=
  {| tx := tx s; senders := senders s; status := status s; last_error := last_error s;
     dropped := dropped s; worker := w; max_retries := max_retries s |}.

Definition with_status (s : BoundedAlarmSink) (st : SinkStatus) : BoundedAlarmSink :=
  {| tx := tx s; senders := senders s; status := st; last_error := last_error s;
     dropped := dropped s; worker := worker s; max_retries := max_retries s |}.

Definition with_error (s : BoundedAlarmSink) (msg : str) : BoundedAlarmSink :=
  {| tx := tx s; senders := senders s; status := status s; last_error := Some msg;
     dropped := dropped s; worker := worker s; max_retries := max_retries s |}.

Definition with_dropped (s : BoundedAlarmSink) (n : Z) : BoundedAlarmSink :=
  {| tx := tx s; senders := senders s; status := status s; last_error := last_error s;
     dropped := n; worker := worker s; max_retries := max_retries s |}.

(** The sink as [new] builds it, before it spawns the worker. *)
Definition sink_new (capacity retries : Z) : BoundedAlarmSink :=
  {| tx := channel (Z.max capacity 1); senders := true; status := StatusOk;
     last_error := None; dropped := 0; worker := Spawning; max_retries := retries |}.

(** The two writes of [record_failure], the second under the lock of the status. *)
Definition record_failure_error (s : BoundedAlarmSink) (msg : str) : BoundedAlarmSink :=
  with_error s (sanitize_sink_message msg).

Definition record_failure_status (s : BoundedAlarmSink) : BoundedAlarmSink :=
  if negb (bool_decide (status s = StatusShutdown)) then with_status s StatusFailed else s.

(** The two writes of [record_drop]. *)
Definition record_drop_error (s : BoundedAlarmSink) (msg : str) : BoundedAlarmSink :=
  with_error s (sanitize_sink_message msg).

Definition record_drop_count (s : BoundedAlarmSink) : BoundedAlarmSink :=
  with_dropped s (Z.modulo (dropped s + 1) (U64_MAX + 1)).

Definition shutdown (s : BoundedAlarmSink) : BoundedAlarmSink :=
  if bool_decide (status s = StatusOk) then with_status s StatusShutdown else s.

(** The thread that cannot be spawned: its closure is dropped, the receiver with it, and
    [new] records the failure, all before anyone else has the sink. *)
Definition spawn_failed (s : BoundedAlarmSink) (msg : str) : BoundedAlarmSink :=
  let s := with_worker (with_tx s (drop_receiver (tx s))) Gone in
  record_failure_status (record_failure_error s msg).

(** The thread whose runtime cannot be built records the error, then the status, and drops
    the receiver when it returns. *)
Definition runtime_failed (s : BoundedAlarmSink) (msg : str) : BoundedAlarmSink :=
  with_worker (record_failure_error s msg) Failing.

Definition worker_fail (s : BoundedAlarmSink) : BoundedAlarmSink :=
  with_worker (record_failure_status s) Closing.

(** The end of the loop, when the channel is closed and empty: the status, then the
    receiver. *)
Definition worker_stop (s : BoundedAlarmSink) : BoundedAlarmSink :=
  with_worker
    (if bool_decide (status s = StatusOk) then with_status s StatusShutdown else s) Closing.

Definition worker_close (s : BoundedAlarmSink) : BoundedAlarmSink :=
  with_worker (with_tx s (drop_receiver (tx s))) Gone.

(** A turn of the worker that waits: it takes an alarm, or leaves the loop when there is
    none and the sink is gone, or goes on waiting. *)
Definition worker_recv (s : BoundedAlarmSink) : BoundedAlarmSink :=
  match recv (tx s) with
  | Some (alarm, c) => with_worker (with_tx s c) (Sending alarm 0)
  | None => if senders s then s else with_worker s Stopping
  end.

(** The answer of the inner sink to an attempt; an alarm out of retries is given up, the
    error first and the count in a step of its own. *)
Definition worker_answer (s : BoundedAlarmSink) (alarm : Alarm) (retries : Z)
    (answer : unit + AlarmSinkError) : BoundedAlarmSink :=
  match answer with
  | inl _ => with_worker s Waiting
  | inr e =>
      let err_msg := sanitize_sink_error e in
      if max_retries s <=? retries
      then with_worker (record_drop_error s err_msg) (Dropping alarm retries)
      else with_worker s (Sending alarm (retries + 1))
  end.

Definition worker_count (s : BoundedAlarmSink) : BoundedAlarmSink :=
  with_worker (record_drop_count s) Waiting.

(** ** Callers of [send]

    Where a call is: about to read the status, about to enqueue, about to read the
    status again after enqueueing or after finding the channel closed, about to read the
    error, or done. *)
Inductive Caller :=
| Start (alarm : Alarm)
| Checked (alarm : Alarm)
| Queued
| SawClosed
| ReadError
| Returned (result : unit + AlarmSinkError).

Definition caller_step (s : BoundedAlarmSink) (c : Caller) : BoundedAlarmSink * Caller :=
  match c with
  | Start alarm =>
      match status s with
      | StatusFailed => (s, ReadError)
      | StatusShutdown => (s, Returned (inr ShutdownError))
      | StatusOk => (s, Checked alarm)
      end
  | Checked alarm =>
      let '(c, res) := try_send (tx s) alarm in
      let s := with_tx s c in
      match res with
      | inl _ => (s, Queued)
      | inr Full => (s, Returned (inr QueueFull))
      | inr Closed => (s, SawClosed)
      end
  | Queued =>
      match status s with
      | StatusOk => (s, Returned (inl tt))
      | StatusFailed => (s, ReadError)
      | StatusShutdown => (s, Returned (inr ShutdownError))
      end
  | SawClosed =>
      if bool_decide (status s = StatusFailed) then (s, ReadError)
      else (s, Returned (inr ShutdownError))
  | ReadError => (s, Returned (inr (RetryExhausted (default [] (last_error s)))))
  | Returned _ => (s, c)
  end.

(** ** Interleavings *)

Inductive SinkEvent :=
| EvAccepted (id : nat) (alarm : Alarm)
| EvDelivered (alarm : Alarm) (attempts : Z)
| EvDropped (alarm : Alarm) (attempts : Z)
| EvLost (alarms : list Alarm)
| EvStartFailed
| EvCancelled.

Record System := {
  sink : BoundedAlarmSink;
  callers : gmap nat Caller;
}.

Definition caller_event (id : nat) (before after : Caller) : list SinkEvent :=
  match before, after with
  | Checked alarm, Queued => [EvAccepted id alarm]
  | _, _ => []
  end.

(** A success ends the alarm; giving up ends it when it is counted. *)
Definition answer_event (alarm : Alarm) (retries : Z) (answer : unit + AlarmSinkError)
    : list SinkEvent :=
  match answer with inl _ => [EvDelivered alarm (retries + 1)] | inr _ => [] end.

(** The alarm the worker has in its hands. *)
Definition in_flight (w : Worker) : list Alarm :=
  match w with Sending a _ | Dropping a _ => [a] | _ => [] end.

(** Where the worker waits, and so where its task can be dropped. *)
Definition suspended (w : Worker) : bool :=
  match w with Starting | Waiting | Sending _ _ => true | _ => false end.

Definition returned (c : Caller) : Prop := match c with Returned _ => True | _ => False end.

(** The sink can be used: [new] has returned it, and it is not dropped. *)
Definition alive (s : BoundedAlarmSink) : Prop := senders s = true ∧ worker s ≠ Spawning.

Inductive sink_step : System → list SinkEvent → System → Prop :=
| step_call sys id alarm :
    callers sys !! id = None → alive (sink sys) →
    sink_step sys [] {| sink := sink sys; callers := <[id := Start alarm]> (callers sys) |}
| step_caller sys id c s c' :
    callers sys !! id = Some c → caller_step (sink sys) c = (s, c') →
    sink_step sys (caller_event id c c') {| sink := s; callers := <[id := c']> (callers sys) |}
| step_spawned sys :
    worker (sink sys) = Spawning →
    sink_step sys [] {| sink := with_worker (sink sys) Starting; callers := callers sys |}
| step_spawn_failed sys msg :
    worker (sink sys) = Spawning →
    sink_step sys [EvStartFailed]
      {| sink := spawn_failed (sink sys) msg; callers := callers sys |}
| step_started sys :
    worker (sink sys) = Starting →
    sink_step sys [] {| sink := with_worker (sink sys) Waiting; callers := callers sys |}
| step_runtime_failed sys msg :
    worker (sink sys) = Starting →
    sink_step sys [EvStartFailed]
      {| sink := runtime_failed (sink sys) msg; callers := callers sys |}
| step_fail sys :
    worker (sink sys) = Failing →
    sink_step sys [] {| sink := worker_fail (sink sys); callers := callers sys |}
| step_recv sys :
    worker (sink sys) = Waiting →
    sink_step sys [] {| sink := worker_recv (sink sys); callers := callers sys |}
| step_answer sys alarm retries answer :
    worker (sink sys) = Sending alarm retries →
    sink_step sys (answer_event alarm retries answer)
      {| sink := worker_answer (sink sys) alarm retries answer; callers := callers sys |}
| step_count sys alarm retries :
    worker (sink sys) = Dropping alarm retries →
    sink_step sys [EvDropped alarm (retries + 1)]
      {| sink := worker_count (sink sys); callers := callers sys |}
| step_stop sys :
    worker (sink sys) = Stopping →
    sink_step sys [] {| sink := worker_stop (sink sys); callers := callers sys |}
| step_close sys :
    worker (sink sys) = Closing →
    sink_step sys [EvLost (items (tx (sink sys)))]
      {| sink := worker_close (sink sys); callers := callers sys |}
| step_cancel sys :
    suspended (worker (sink sys)) = true →
    sink_step sys [EvCancelled; EvLost (in_flight (worker (sink sys)) ++ items (tx (sink sys)))]
      {| sink := worker_close (sink sys); callers := callers sys |}
| step_shutdown sys :
    alive (sink sys) →
    sink_step sys [] {| sink := shutdown (sink sys); callers := callers sys |}
| step_drop sys :
    alive (sink sys) → map_Forall (λ _, returned) (callers sys) →
    sink_step sys [] {| sink := with_senders (sink sys) false; callers := callers sys |}.

Inductive sink_run (start : System) : list SinkEvent → System → Prop :=
| run_nil : sink_run start [] start
| run_snoc tr sys ev sys' :
    sink_run start tr sys → sink_step sys ev sys' → sink_run start (tr ++ ev) sys'.

Definition system_new (capacity retries : Z) : System :=
  {| sink := sink_new capacity retries; callers := ∅ |}.

(** ** Accounts of a trace *)

Definition accepted (tr : list SinkEvent) : list Alarm :=
  omap (λ e, match e with EvAccepted _ a => Some a | _ => None end) tr.

(** The alarms that have met their fate: delivered, dropped and counted, or lost. *)
Definition settled_alarms (tr : list SinkEvent) : list Alarm :=
  flat_map (λ e, match e with
                 | EvDelivered a _ | EvDropped a _ => [a]
                 | EvLost l => l
                 | _ => []
                 end) tr.

Definition lost (tr : list SinkEvent) : list Alarm :=
  flat_map (λ e, match e with EvLost l => l | _ => [] end) tr.

Definition drops (tr : list SinkEvent) : Z :=
  len (omap (λ e, match e with EvDropped a _ => Some a | _ => None end) tr).

Definition accepts (tr : list SinkEvent) (id : nat) : Prop := ∃ a, EvAccepted id a ∈ tr.

(** What a call has done to the queue, by where it is. *)
Definition caller_ok (tr : list SinkEvent) (id : nat) (c : Caller) : Prop :=
  match c with
  | Start _ | Checked _ | SawClosed | Returned (inr QueueFull) => ¬ accepts tr id
  | Queued | Returned (inl _) => accepts tr id
  | ReadError | Returned (inr _) => True
  end.

Definition attempts_ok (retries : Z) (e : SinkEvent) : Prop :=
  match e with
  | EvDelivered _ n => 1 ≤ n ≤ retries + 1
  | EvDropped _ n => n = retries + 1
  | _ => True
  end.

(** No one can enqueue any more and nothing is queued. *)
Definition drained (s : BoundedAlarmSink) : Prop := senders s = false ∧ items (tx s) = [].

Definition worker_ok (s : BoundedAlarmSink) (tr : list SinkEvent) : Prop :=
  match worker s with
  | Sending _ r => 0 ≤ r ≤ max_retries s
  | Dropping _ r => r = max_retries s
  | Failing => EvStartFailed ∈ tr
  | Stopping => drained s
  | Closing => EvStartFailed ∈ tr ∨ drained s
  | Gone => receiving (tx s) = false ∧ items (tx s) = []
  | Spawning => items (tx s) = []
  | Starting | Waiting => True
  end.

(** The worker did not start or was cut off. *)
Definition broken (tr : list SinkEvent) : Prop := EvStartFailed ∈ tr ∨ EvCancelled ∈ tr.

(** The sink: the alarms accepted are, in order, those settled, the one in flight and those
    queued; the queue is within its capacity; the drops are counted; no alarm is tried more
    often than the budget; none is lost, and the sink does not fail, without a cause. *)
Record queue_inv (capacity retries : Z) (s : BoundedAlarmSink) (tr : list SinkEvent) : Prop := {
  qi_retries : max_retries s = retries;
  qi_room : room (tx s) = Z.max capacity 1;
  qi_len : len (items (tx s)) ≤ room (tx s);
  qi_accepted : accepted tr = settled_alarms tr ++ in_flight (worker s) ++ items (tx s);
  qi_dropped : dropped s = Z.modulo (drops tr) (U64_MAX + 1);
  qi_attempts : Forall (attempts_ok retries) tr;
  qi_worker : worker_ok s tr;
  qi_lost : lost tr = [] ∨ broken tr;
  qi_failed : status s = StatusFailed → EvStartFailed ∈ tr;
}.

Definition callers_inv (s : BoundedAlarmSink) (cs : gmap nat Caller) (tr : list SinkEvent) : Prop :=
  map_Forall (caller_ok tr) cs ∧ (∀ id, accepts tr id → is_Some (cs !! id))
  ∧ (senders s = false ∨ worker s = Spawning → map_Forall (λ _, returned) cs).

(** ** Every step keeps the accounts *)

Lemma accepted_app tr ev : accepted (tr ++ ev) = accepted tr ++ accepted ev.
Proof. apply omap_app. Qed.

Lemma settled_alarms_app tr ev :
  settled_alarms (tr ++ ev) = settled_alarms tr ++ settled_alarms ev.
Proof. apply flat_map_app. Qed.

Lemma lost_app tr ev : lost (tr ++ ev) = lost tr ++ lost ev.
Proof. apply flat_map_app. Qed.

Lemma drops_app tr ev : drops (tr ++ ev) = drops tr + drops ev.
Proof. unfold drops. by rewrite omap_app, len_app. Qed.

Lemma accepts_app tr ev id : accepts (tr ++ ev) id ↔ accepts tr id ∨ accepts ev id.
Proof. unfold accepts. setoid_rewrite elem_of_app. naive_solver. Qed.

Lemma broken_app tr ev : broken tr ∨ broken ev → broken (tr ++ ev).
Proof. unfold broken. rewrite !elem_of_app. tauto. Qed.

(** A step of the worker, or of the status: what it does to the accounts, given the events
    it emits. *)
Lemma queue_step capacity retries s s' tr ev :
  queue_inv capacity retries s tr → accepted ev = [] →
  in_flight (worker s) ++ items (tx s)
    = settled_alarms ev ++ in_flight (worker s') ++ items (tx s') →
  room (tx s') = room (tx s) → len (items (tx s')) ≤ len (items (tx s)) →
  dropped s' = Z.modulo (dropped s + drops ev) (U64_MAX + 1) → max_retries s' = max_retries s →
  Forall (attempts_ok retries) ev → worker_ok s' (tr ++ ev) →
  lost ev = [] ∨ broken (tr ++ ev) →
  (status s' = StatusFailed → status s = StatusFailed ∨ EvStartFailed ∈ tr ++ ev) →
  queue_inv capacity retries s' (tr ++ ev).
Proof.
  intros [Hm Hr Hl Ha Hd Hat _ Hlo Hf] Hacc Hfl Hroom Hlen Hdr Hmr Hev Hw Hls Hst. split.
  - congruence.
  - congruence.
  - lia.
  - rewrite accepted_app, settled_alarms_app, Hacc, Ha, Hfl. by rewrite app_nil_r, <- app_assoc.
  - rewrite Hdr, Hd, drops_app. unfold U64_MAX. by rewrite Zplus_mod_idemp_l.
  - by apply Forall_app.
  - done.
  - rewrite lost_app. destruct Hlo as [->|Hlo]; [|right; apply broken_app; by left].
    by destruct Hls as [->|Hls]; [left|right].
  - intros [?%Hf|?]%Hst; [apply elem_of_app; by left|done].
Qed.

Lemma counter_kept capacity retries s tr ev :
  queue_inv capacity retries s tr → drops ev = 0 →
  dropped s = Z.modulo (dropped s + drops ev) (U64_MAX + 1).
Proof.
  intros Hq ->. rewrite (qi_dropped _ _ _ _ Hq). by rewrite Z.add_0_r, Z.mod_mod by done.
Qed.

(** A step without an event that leaves the queue and the counter. *)
Lemma queue_quiet capacity retries s s' tr :
  queue_inv capacity retries s tr → tx s' = tx s → in_flight (worker s') = in_flight (worker s) →
  dropped s' = dropped s → max_retries s' = max_retries s → worker_ok s' tr →
  (status s' = StatusFailed → status s = StatusFailed ∨ EvStartFailed ∈ tr) →
  queue_inv capacity retries s' tr.
Proof.
  intros Hq Htx Hfl Hdr Hmr Hw Hst. rewrite <- (app_nil_r tr) in Hw, Hst.
  rewrite <- (app_nil_r tr). eapply queue_step; try done; rewrite ?Htx; try done.
  - by rewrite Hfl.
  - rewrite Hdr. by eapply counter_kept.
  - by left.
Qed.

Lemma shutdown_inv capacity retries s tr :
  queue_inv capacity retries s tr → queue_inv capacity retries (shutdown s) tr.
Proof.
  intros Hq. unfold shutdown. case_bool_decide; [|done].
  eapply queue_quiet; try done. exact (qi_worker _ _ _ _ Hq).
Qed.

Lemma worker_recv_inv capacity retries s tr :
  0 ≤ retries → queue_inv capacity retries s tr → worker s = Waiting →
  queue_inv capacity retries (worker_recv s) tr.
Proof.
  intros Hpos Hq Hw. unfold worker_recv. destruct (items (tx s)) as [|a l] eqn:Hit.
  - rewrite recv_empty by done. destruct (senders s) eqn:Hs; [done|].
    eapply queue_quiet; try done; [by rewrite Hw|by left].
  - destruct (recv_some (tx s) a l Hit) as (c & -> & Hc & Hroom & _). rewrite <- (app_nil_r tr).
    eapply queue_step; try done; cbn; rewrite ?Hw, ?Hit, ?Hc; try done.
    + rewrite len_cons. lia.
    + by eapply counter_kept.
    + unfold worker_ok. cbn. rewrite (qi_retries _ _ _ _ Hq). lia.
    + by left.
    + by left.
Qed.

Lemma worker_answer_inv capacity retries s tr a r answer :
  queue_inv capacity retries s tr → worker s = Sending a r →
  queue_inv capacity retries (worker_answer s a r answer) (tr ++ answer_event a r answer).
Proof.
  intros Hq Hw. pose proof (qi_worker _ _ _ _ Hq) as Hwk. unfold worker_ok in Hwk. rewrite Hw in Hwk.
  pose proof (qi_retries _ _ _ _ Hq) as Hm. unfold worker_answer, answer_event.
  destruct answer as [[]|e].
  - eapply queue_step; try done; cbn; rewrite ?Hw; try done.
    + by eapply counter_kept.
    + constructor; [cbn; lia|done].
    + by left.
    + by left.
  - rewrite app_nil_r. destruct (Z.leb_spec (max_retries s) r);
      (eapply queue_quiet; try done; cbn; rewrite ?Hw; try done); cbn; lia || by left.
Qed.

Lemma worker_count_inv capacity retries s tr a r :
  queue_inv capacity retries s tr → worker s = Dropping a r →
  queue_inv capacity retries (worker_count s) (tr ++ [EvDropped a (r + 1)]).
Proof.
  intros Hq Hw. pose proof (qi_worker _ _ _ _ Hq) as Hwk. unfold worker_ok in Hwk. rewrite Hw in Hwk.
  pose proof (qi_retries _ _ _ _ Hq) as Hm.
  eapply queue_step; try done; cbn; rewrite ?Hw; try done; [|by left..].
  constructor; [cbn; lia|done].
Qed.

(** The receiver is dropped: what the worker held and what was queued is lost. *)
Lemma worker_close_inv capacity retries s tr ev :
  queue_inv capacity retries s tr → accepted ev = [] → drops ev = 0 →
  Forall (attempts_ok retries) ev → settled_alarms ev = in_flight (worker s) ++ items (tx s) →
  lost ev = [] ∨ broken (tr ++ ev) → queue_inv capacity retries (worker_close s) (tr ++ ev).
Proof.
  intros Hq Hacc Hdr Hat Hset Hlo. destruct (drop_receiver_spec (tx s)) as (Hi & Hro & Hre).
  eapply queue_step; try done; cbn; rewrite ?Hi; try done.
  - by rewrite Hset, app_nil_r.
  - apply len_nonneg.
  - by eapply counter_kept.
  - by left.
Qed.

Lemma spawn_failed_inv capacity retries s tr msg :
  queue_inv capacity retries s tr → worker s = Spawning →
  queue_inv capacity retries (spawn_failed s msg) (tr ++ [EvStartFailed]).
Proof.
  intros Hq Hw. pose proof (qi_worker _ _ _ _ Hq) as Hwk. unfold worker_ok in Hwk. rewrite Hw in Hwk.
  assert (EvStartFailed ∈ tr ++ [EvStartFailed]) as Hin by set_solver.
  destruct (worker_close_inv capacity retries s tr [EvStartFailed]) as [? ? ? ? ? ? ? ? _];
    try done; [by repeat constructor|by rewrite Hw, Hwk|by left|].
  unfold spawn_failed, record_failure_status, record_failure_error.
  case_bool_decide; by split.
Qed.

Lemma runtime_failed_inv capacity retries s tr msg :
  queue_inv capacity retries s tr → worker s = Starting →
  queue_inv capacity retries (runtime_failed s msg) (tr ++ [EvStartFailed]).
Proof.
  intros Hq Hw. eapply queue_step; try done; cbn; rewrite ?Hw; try done.
  - by eapply counter_kept.
  - by repeat constructor.
  - unfold worker_ok. cbn. set_solver.
  - by left.
  - by left.
Qed.

Lemma worker_fail_inv capacity retries s tr :
  queue_inv capacity retries s tr → worker s = Failing →
  queue_inv capacity retries (worker_fail s) tr.
Proof.
  intros Hq Hw. pose proof (qi_worker _ _ _ _ Hq) as Hwk. unfold worker_ok in Hwk. rewrite Hw in Hwk.
  unfold worker_fail, record_failure_status.
  destruct (negb _); (eapply queue_quiet; try done; cbn; rewrite ?Hw; try done; [by left|]); auto.
Qed.

Lemma worker_stop_inv capacity retries s tr :
  queue_inv capacity retries s tr → worker s = Stopping →
  queue_inv capacity retries (worker_stop s) tr.
Proof.
  intros Hq Hw. pose proof (qi_worker _ _ _ _ Hq) as Hwk. unfold worker_ok in Hwk. rewrite Hw in Hwk.
  unfold worker_stop.
  case_bool_decide; (eapply queue_quiet; try done; cbn; rewrite ?Hw; try done); first [by right|by auto].
Qed.

Lemma closing_inv capacity retries s tr :
  queue_inv capacity retries s tr → worker s = Closing →
  queue_inv capacity retries (worker_close s) (tr ++ [EvLost (items (tx s))]).
Proof.
  intros Hq Hw. pose proof (qi_worker _ _ _ _ Hq) as Hwk. unfold worker_ok in Hwk. rewrite Hw in Hwk.
  apply worker_close_inv; [done|done|done|by repeat constructor| |].
  { rewrite Hw. cbn. by rewrite app_nil_r. }
  destruct Hwk as [Hf|[_ Hi]]; [right; apply broken_app; by left; left|left; cbn; by rewrite Hi].
Qed.

Lemma cancel_inv capacity retries s tr :
  queue_inv capacity retries s tr →
  queue_inv capacity retries (worker_close s)
    (tr ++ [EvCancelled; EvLost (in_flight (worker s) ++ items (tx s))]).
Proof.
  intros Hq. apply worker_close_inv; [done|done|done|by repeat constructor| |].
  { cbn. by rewrite app_nil_r. }
  right. apply broken_app. right. right. by left.
Qed.

(** A message enters the queue; a worker about to stop or gone does not let it. *)
Lemma queue_send capacity retries s tr id a c :
  queue_inv capacity retries s tr → items c = items (tx s) ++ [a] → room c = room (tx s) →
  len (items (tx s)) < room (tx s) → senders s = true → worker s ≠ Spawning →
  receiving (tx s) = true → queue_inv capacity retries (with_tx s c) (tr ++ [EvAccepted id a]).
Proof.
  intros [Hm Hr Hl Ha Hd Hat Hw Hlo Hf] Hc Hroom Hlt Hsend Hsp Hrec. split; cbn; try done.
  - congruence.
  - rewrite Hc, Hroom. len_lia.
  - rewrite accepted_app, settled_alarms_app, Ha, Hc. cbn. by rewrite app_nil_r, <- !app_assoc.
  - rewrite drops_app. change (drops [EvAccepted id a]) with 0. by rewrite Z.add_0_r.
  - apply Forall_app. by repeat constructor.
  - unfold worker_ok, drained in *. cbn. destruct (worker s); rewrite ?elem_of_app; try done; try tauto.
    + destruct Hw. congruence.
    + destruct Hw as [?|[? _]]; [by left; left|congruence].
    + destruct Hw. congruence.
  - rewrite lost_app. cbn. rewrite app_nil_r. destruct Hlo; [by left|right; apply broken_app; by left].
  - intros ?%Hf. apply elem_of_app. by left.
Qed.

Lemma caller_ok_quiet tr ev id c :
  ¬ accepts ev id → caller_ok tr id c → caller_ok (tr ++ ev) id c.
Proof.
  intros Hev Hc. unfold caller_ok in *.
  destruct c as [| | | | |[|[]]]; rewrite ?accepts_app; tauto.
Qed.

(** A step of the worker, of the status or of the owner. *)
Lemma callers_quiet s s' cs tr ev :
  (∀ id, ¬ accepts ev id) → callers_inv s cs tr →
  (senders s' = false ∨ worker s' = Spawning → map_Forall (λ _, returned) cs) →
  callers_inv s' cs (tr ++ ev).
Proof.
  intros Hev (Hcs & Hid & _) Hret. split; [|split].
  - intros id c Hc. by apply caller_ok_quiet, Hcs.
  - intros id [Ha|Ha]%accepts_app; [by apply Hid|by apply Hev in Ha].
  - done.
Qed.

Lemma callers_insert s s' cs tr ev id c :
  callers_inv s cs tr → (∀ i, accepts ev i → i = id) → caller_ok (tr ++ ev) id c →
  (senders s' = false ∨ worker s' = Spawning → map_Forall (λ _, returned) cs ∧ returned c) →
  callers_inv s' (<[id := c]> cs) (tr ++ ev).
Proof.
  intros (Hcs & Hid & _) Hev Hc Hret. split; [|split].
  - intros i d [[<- <-]|[Hne Hd]]%lookup_insert_Some; [done|].
    apply caller_ok_quiet, Hcs, Hd. by intros ->%Hev.
  - intros i [Ha|Ha]%accepts_app; [|apply Hev in Ha as ->; by rewrite lookup_insert_eq].
    destruct (decide (i = id)) as [->|Hne]; [by rewrite lookup_insert_eq|].
    rewrite lookup_insert_ne by done. by apply Hid.
  - intros [Hall Hr]%Hret. by apply map_Forall_insert_2.
Qed.

Lemma with_tx_same s : with_tx s (tx s) = s.
Proof. by destruct s. Qed.

(** A step of a call: what it does to the sink, and what it then knows. *)
Lemma caller_step_inv capacity retries s tr id c s' c' :
  queue_inv capacity retries s tr → caller_ok tr id c → caller_step s c = (s', c') →
  (¬ returned c → senders s = true ∧ worker s ≠ Spawning) →
  let ev := caller_event id c c' in
  queue_inv capacity retries s' (tr ++ ev) ∧ caller_ok (tr ++ ev) id c'
  ∧ (∀ i, accepts ev i → i = id) ∧ senders s' = senders s ∧ worker s' = worker s
  ∧ (returned c → returned c').
Proof.
  intros Hi Hc Hs Halive.
  assert (∀ d, (s, d) = (s', c') → caller_ok tr id d → caller_event id c d = [] →
    (returned c → returned d) →
    let ev := caller_event id c c' in
    queue_inv capacity retries s' (tr ++ ev) ∧ caller_ok (tr ++ ev) id c'
    ∧ (∀ i, accepts ev i → i = id) ∧ senders s' = senders s ∧ worker s' = worker s
    ∧ (returned c → returned c')) as Hquiet.
  { intros d [= <- <-] Hd Hev Hr. cbn zeta. rewrite Hev, app_nil_r. split_and!; try done.
    intros i [b Hb]. by apply elem_of_nil in Hb. }
  destruct c as [a|a| | | |r]; cbn [caller_step] in Hs.
  - destruct (status s); by eapply Hquiet.
  - destruct (Halive (λ f, f)) as [Hsend Hsp]. destruct (receiving (tx s)) eqn:Hrec; cycle 1.
    { rewrite try_send_closed, with_tx_same in Hs by done. by eapply Hquiet. }
    destruct (Z.leb_spec (room (tx s)) (len (items (tx s)))) as [Hfull|Hroom].
    { rewrite try_send_full, with_tx_same in Hs by done. by eapply Hquiet. }
    destruct (try_send_ok (tx s) a Hrec Hroom) as (ch & Heq & Hit & Hro & _).
    rewrite Heq in Hs. injection Hs as <- <-. cbn [caller_event]. cbn zeta.
    split_and!; try done; [by apply queue_send|apply accepts_app; right; exists a; by left|].
    intros i (b & Hb). apply list_elem_of_singleton in Hb. by injection Hb.
  - destruct (status s); by eapply Hquiet.
  - case_bool_decide; by eapply Hquiet.
  - by eapply Hquiet.
  - by eapply Hquiet.
Qed.

Lemma answer_accepts_nothing a r answer id : ¬ accepts (answer_event a r answer) id.
Proof. intros [b Hb]. destruct answer; set_solver. Qed.

Lemma callers_same s s' cs tr ev :
  (∀ id, ¬ accepts ev id) → senders s' = senders s → (worker s' = Spawning → worker s = Spawning) →
  callers_inv s cs tr → callers_inv s' cs (tr ++ ev).
Proof.
  intros Hev Hs Hw Hc. eapply callers_quiet; [done|done|]. destruct Hc as (_ & _ & Hret).
  rewrite Hs. intros [?|?]; apply Hret; auto.
Qed.

Lemma sink_step_inv capacity retries sys tr ev sys' :
  0 ≤ retries → queue_inv capacity retries (sink sys) tr →
  callers_inv (sink sys) (callers sys) tr → sink_step sys ev sys' →
  queue_inv capacity retries (sink sys') (tr ++ ev)
  ∧ callers_inv (sink sys') (callers sys') (tr ++ ev).
Proof.
  intros Hpos Hq Hc Hstep.
  assert (∀ e, (∀ i a, e ≠ EvAccepted i a) → ∀ id, ¬ accepts [e] id) as Hone
    by (intros e He id [b Hb%list_elem_of_singleton]; by apply (He id b)).
  assert (∀ id, ¬ accepts [] id) as Hnone by (intros i [b Hb]; by apply elem_of_nil in Hb).
  destruct Hstep as [sys id a Hid [Hs Hw]|sys id c s c' Hid Hs|sys Hw|sys msg Hw|sys Hw
    |sys msg Hw|sys Hw|sys Hw|sys a r answer Hw|sys a r Hw|sys Hw|sys Hw|sys Hw|sys Ha
    |sys Ha Hret]; cbn [sink callers].
  - split; [by rewrite app_nil_r|]. apply (callers_insert (sink sys)); [done|by intros i ?%Hnone| |].
    + cbn. rewrite app_nil_r. intros Ha. apply Hc in Ha. rewrite Hid in Ha. by destruct Ha.
    + intros [?|?]; congruence.
  - destruct (caller_step_inv capacity retries (sink sys) tr id c s c' Hq (proj1 Hc id c Hid) Hs)
      as (? & ? & ? & Es & Ew & Hr).
    { intros Hn. destruct (senders (sink sys)) eqn:E.
      - split; [done|]. intros Hsp. apply Hn. by apply (proj2 (proj2 Hc) (or_intror Hsp) id).
      - destruct Hn. by apply (proj2 (proj2 Hc) (or_introl E) id). }
    split; [done|]. eapply callers_insert; [done..|]. rewrite Es, Ew. intros Hd.
    pose proof (proj2 (proj2 Hc) Hd) as Hall. split; [done|]. by apply Hr, (Hall id).
  - rewrite app_nil_r at 1. split; [|by eapply (callers_same (sink sys))].
    eapply queue_quiet; try done; [by rewrite Hw|by left].
  - split; [by apply spawn_failed_inv|]. eapply (callers_same (sink sys)); try done; [by apply Hone|].
    unfold spawn_failed, record_failure_status. by case_bool_decide.
  - rewrite app_nil_r at 1. split; [|by eapply (callers_same (sink sys))].
    eapply queue_quiet; try done; [by rewrite Hw|by left].
  - split; [by apply runtime_failed_inv|]. eapply (callers_same (sink sys)); try done. by apply Hone.
  - rewrite app_nil_r at 1. split; [by apply worker_fail_inv|]. eapply (callers_same (sink sys)); try done.
    unfold worker_fail, record_failure_status. by case_bool_decide.
  - rewrite app_nil_r at 1. split; [by apply worker_recv_inv|].
    eapply (callers_same (sink sys)); try done; unfold worker_recv; repeat case_match; try done; congruence.
  - split; [by apply worker_answer_inv|].
    eapply (callers_same (sink sys)); try done; [apply answer_accepts_nothing|..];
      unfold worker_answer; repeat case_match; done.
  - split; [by apply worker_count_inv|]. eapply (callers_same (sink sys)); try done. by apply Hone.
  - rewrite app_nil_r at 1. split; [by apply worker_stop_inv|].
    eapply (callers_same (sink sys)); try done. unfold worker_stop. by case_bool_decide.
  - split; [by apply closing_inv|]. eapply (callers_same (sink sys)); try done. by apply Hone.
  - split; [by apply cancel_inv|]. eapply (callers_same (sink sys)); try done.
    intros id [b Hb]. set_solver.
  - rewrite app_nil_r at 1. split; [by apply shutdown_inv|].
    eapply (callers_same (sink sys)); try done; unfold shutdown; by case_bool_decide.
  - rewrite app_nil_r at 1. split; [|by eapply callers_quiet].
    pose proof (qi_worker _ _ _ _ Hq) as Hwk.
    eapply queue_quiet; try done; [|by left].
    unfold worker_ok, drained in *. cbn. destruct (worker (sink sys)); tauto.
Qed.


(** ** The worker empties its queue *)

(** The turns that are left, in the worst case: an alarm takes one to receive, one for each
    attempt and one to count it. *)
Definition turns_left (s : BoundedAlarmSink) : Z :=
  match worker s with
  | Starting | Dropping _ _ => 1
  | Sending _ r => max_retries s - r + 2
  | _ => 0
  end + len (items (tx s)) * (max_retries s + 3).

(** A worker that runs, of a sink that is alive. *)
Definition working (s : BoundedAlarmSink) : Prop :=
  0 ≤ max_retries s ∧ senders s = true
  ∧ match worker s with
    | Sending _ r => 0 ≤ r ≤ max_retries s
    | Starting | Waiting | Dropping _ _ => True
    | Spawning | Failing | Stopping | Closing | Gone => False
    end.

Definition worker_turn (answer : unit + AlarmSinkError) (s : BoundedAlarmSink) :
  BoundedAlarmSink :=
  match worker s with
  | Waiting => worker_recv s
  | Sending alarm retries => worker_answer s alarm retries answer
  | Dropping _ _ => worker_count s
  | Starting => with_worker s Waiting
  | Failing => worker_fail s
  | Stopping => worker_stop s
  | Closing => worker_close s
  | Spawning | Gone => s
  end.

(** Turns of the worker alone; [answers] is what the inner sink answers in turn. *)
Fixpoint worker_turns (n : nat) (answers : nat → unit + AlarmSinkError) (s : BoundedAlarmSink) :
  BoundedAlarmSink :=
  match n with
  | O => s
  | Datatypes.S n => worker_turns n answers (worker_turn (answers n) s)
  end.

Lemma working_idle s :
  working s → turns_left s ≤ 0 → items (tx s) = [] ∧ worker s = Waiting.
Proof.
  intros (Hpos & _ & Hw) Hle. unfold turns_left in Hle.
  pose proof (len_nonneg (items (tx s))).
  destruct (worker s) as [| | |a r|a r| | | |]; try done; try nia. split; [|done].
  apply len_0_inv. nia.
Qed.

Lemma worker_turn_left s answer :
  working s →
  let s' := worker_turn answer s in
  working s' ∧ turns_left s' ≤ Z.max 0 (turns_left s - 1).
Proof.
  intros Hs. pose proof Hs as (Hpos & Hsend & Hw). unfold worker_turn, working, turns_left in *.
  destruct (worker s) as [| | |a r|a r| | | |] eqn:Hwk; try done.
  - cbn. split; [done|]. lia.
  - unfold worker_recv. destruct (items (tx s)) as [|a l] eqn:Hi.
    { rewrite recv_empty, Hsend by done. rewrite Hwk, Hi. split; [done|]. unfold len. cbn. lia. }
    destruct (recv_some (tx s) a l Hi) as (c & -> & Hc & _ & _). cbn. rewrite Hc, len_cons.
    split; [|nia]. split; [done|]. split; [done|]. lia.
  - unfold worker_answer. destruct answer as [|e]; [cbn; split; [done|lia]|].
    destruct (Z.leb_spec (max_retries s) r); cbn; (split; [|lia]); [done|].
    split; [done|]. split; [done|]. lia.
  - cbn. split; [done|]. lia.
Qed.

(** Left alone, and whatever the inner sink answers, the worker finishes with every
    alarm in the queue within [turns_left] turns. *)
Theorem worker_drains answers s n :
  working s → turns_left s ≤ Z.of_nat n →
  let s' := worker_turns n answers s in items (tx s') = [] ∧ worker s' = Waiting.
Proof.
  revert s. induction n as [|n IH]; intros s Hs Hle; cbn [worker_turns].
  { by apply working_idle. }
  destruct (worker_turn_left s (answers n) Hs) as [Hs' Hl]. apply IH; [done|lia].
Qed.
End Sink.

(** ** A run *)

#[local] Existing Instance sample_externals.

(** A channel as a list of messages. *)
Record ListChannel := { l_items : list Alarm; l_room : Z; l_receiving : bool }.

Definition list_try_send (c : ListChannel) (a : Alarm) : ListChannel * (unit + TrySendError) :=
  if negb (l_receiving c) then (c, inr Closed)
  else if l_room c <=? len (l_items c) then (c, inr Full)
  else ({| l_items := l_items c ++ [a]; l_room := l_room c; l_receiving := true |}, inl tt).

Definition list_recv (c : ListChannel) : option (Alarm * ListChannel) :=
  match l_items c with
  | [] => None
  | a :: l => Some (a, {| l_items := l; l_room := l_room c; l_receiving := l_receiving c |})
  end.

#[local] Instance list_channel : Channel ListChannel.
Proof.
  refine {| channel n := {| l_items := []; l_room := n; l_receiving := true |};
            try_send := list_try_send; recv := list_recv;
            drop_receiver c :=
              {| l_items := []; l_room := l_room c; l_receiving := false |};
            items := l_items; room := l_room; receiving := l_receiving |}; unfold list_try_send.
  - done.
  - by intros c a ->.
  - intros c a -> H. by rewrite (proj2 (Z.leb_le _ _) H).
  - intros c a -> H. rewrite (proj2 (Z.leb_gt _ _) H). by eexists.
  - intros c H. unfold list_recv. by rewrite H.
  - intros c a l H. unfold list_recv. rewrite H. by eexists.
  - done.
Defined.

Definition sample_sent : Alarm :=
  {| alarm_id := lit "u1"; alarm_type := lit "link"; severity := Major;
     probable_cause := PeerUnreachable; affected_object := ObjTenant (lit "a");
     tenant := None; slice := None; region := None; text := []; details := details_empty;
     state := Raised; raised_at := 1; updated_at := 1; cleared_at := None;
     correlation_id := None |}.

(** A call enqueues an alarm, the only attempt to deliver it fails and it is dropped; the
    call then returns success, and the status is still the good one. *)
Lemma sample_run :
  ∃ sys, sink_run id (system_new (C := ListChannel) 0 0)
           [EvAccepted 7 sample_sent; EvDropped sample_sent 1] sys
    ∧ callers sys !! 7%nat = Some (Returned (inl tt)) ∧ status (sink sys) = StatusOk
    ∧ dropped (sink sys) = 1
    ∧ last_error (sink sys) = Some (lit "Sink delivery failed: down").
Proof.
  pose proof (run_nil id (system_new (C := ListChannel) 0 0)) as R.
  eapply run_snoc in R; [|eapply (step_spawned id _); reflexivity].
  eapply run_snoc in R; [|eapply (step_call id _ 7 sample_sent); [reflexivity|by split]].
  eapply run_snoc in R; [|eapply (step_caller id _ 7 (Start sample_sent) _ _); reflexivity].
  eapply run_snoc in R; [|eapply (step_caller id _ 7 (Checked sample_sent) _ _); reflexivity].
  eapply run_snoc in R; [|eapply (step_started id _); reflexivity].
  eapply run_snoc in R; [|eapply (step_recv id _); reflexivity].
  eapply run_snoc in R;
    [|eapply (step_answer id _ sample_sent 0 (inr (DeliveryFailed (lit "down")))); reflexivity].
  eapply run_snoc in R; [|eapply (step_count id _ sample_sent 0); reflexivity].
  eapply run_snoc in R; [|eapply (step_caller id _ 7 Queued _ _); reflexivity].
  eexists. split; [exact R|]. split; [reflexivity|]. split; [reflexivity|].
  split; reflexivity.
Qed.

(** A call enqueues an alarm and returns success; the runtime of the worker then fails to
    start, and the alarm is lost with the receiver, uncounted. *)
Lemma sample_lost_run :
  ∃ sys, sink_run id (system_new (C := ListChannel) 0 0)
           [EvAccepted 7 sample_sent; EvStartFailed; EvLost [sample_sent]] sys
    ∧ callers sys !! 7%nat = Some (Returned (inl tt)) ∧ status (sink sys) = StatusFailed
    ∧ dropped (sink sys) = 0 ∧ worker (sink sys) = Gone.
Proof.
  pose proof (run_nil id (system_new (C := ListChannel) 0 0)) as R.
  eapply run_snoc in R; [|eapply (step_spawned id _); reflexivity].
  eapply run_snoc in R; [|eapply (step_call id _ 7 sample_sent); [reflexivity|by split]].
  eapply run_snoc in R; [|eapply (step_caller id _ 7 (Start sample_sent) _ _); reflexivity].
  eapply run_snoc in R; [|eapply (step_caller id _ 7 (Checked sample_sent) _ _); reflexivity].
  eapply run_snoc in R; [|eapply (step_caller id _ 7 Queued _ _); reflexivity].
  eapply run_snoc in R; [|eapply (step_runtime_failed id _ (lit "no runtime")); reflexivity].
  eapply run_snoc in R; [|eapply (step_fail id _); reflexivity].
  eapply run_snoc in R; [|eapply (step_close id _); reflexivity].
  eexists. split; [exact R|]. split; [reflexivity|]. split; [reflexivity|].
  split; reflexivity.
Qed.

