(* ===== verification/FenceAbi.v ===== *)
(** The shared map and command formats of the lease-bound egress fence
    ([opc-egress-fence-common/src/lib.rs]): endpoints, configurations, current tokens,
    the mutation barrier, commands, cookie entries, inspections, and the decision on
    one packet.  A fixed-size array of octets is a list of that length; every index the
    code uses is a constant within it.  [FenceCodec] proves the encodings exact. *)

From S2P Require Import Prelude.

(** ** Octets of little-endian numbers *)

Fixpoint to_le_bytes (n : nat) (v : Z) : bytes :=
  match n with
  | O => []
  | S n => v mod 256 :: to_le_bytes n (v / 256)
  end.
Fixpoint from_le_bytes (l : bytes) : Z :=
  match l with
  | [] => 0
  | b :: l => b + 256 * from_le_bytes l
  end.

(** [a[i]] of an array. *)
Definition at_ (a : bytes) (i : nat) : Z := nth i a 0.

(** [a[i] = b] and the copying loops [while index < b.len() { a[i + index] = b[index] }]. *)
Definition set_ (a : bytes) (i : nat) (b : Z) : bytes := list_inserts i [b] a.
Definition copy_at (a : bytes) (i : nat) (b : bytes) : bytes := list_inserts i b a.

(** The copying loops [while index < n { b[index] = a[i + index] }]. *)
Definition copy_from (a : bytes) (i n : nat) : bytes := at_ a <$> seq i n.

Definition put_u32 (encoded : bytes) (offset : nat) (value : Z) : bytes :=
  copy_at encoded offset (to_le_bytes 4 value).

Definition put_u64 (encoded : bytes) (offset : nat) (value : Z) : bytes :=
  copy_at encoded offset (to_le_bytes 8 value).

Definition get_u32 (encoded : bytes) (offset : nat) : Z :=
  from_le_bytes (copy_from encoded offset 4).

Definition get_u64 (encoded : bytes) (offset : nat) : Z :=
  from_le_bytes (copy_from encoded offset 8).

(** ** Constants *)

Definition EGRESS_FENCE_ABI_VERSION : Z := 5.
Definition EGRESS_FENCE_MAX_COOKIE_ENTRIES : Z := 4096.
Definition EGRESS_FENCE_MAX_GATE_LIFETIME_NS : Z := 300000000000.

Definition COUNTER_ALLOWED : Z := 0.
Definition COUNTER_COOKIE_ZERO : Z := 2.
Definition COUNTER_COOKIE_MISSING : Z := 3.
Definition COUNTER_CLOSED : Z := 4.
Definition COUNTER_EXPIRED : Z := 5.
Definition COUNTER_MALFORMED : Z := 6.
Definition COUNTER_STALE_TOKEN : Z := 7.

(** [b"OEF1"], [b"OEC1"] and [b"OEI1"]. *)
Definition CONFIG_MAGIC : bytes := [79; 69; 70; 49].
Definition CONTROL_MAGIC : bytes := [79; 69; 67; 49].
Definition INSPECTION_MAGIC : bytes := [79; 69; 73; 49].

Definition FAMILY_IPV4 : Z := 4.
Definition FAMILY_IPV6 : Z := 6.

Definition COOKIE_CONTROL_INITIAL_CLOSED : Z := 0x4f450101.
Definition COOKIE_CONTROL_ACTIVE : Z := 0x4f450102.
Definition COOKIE_CONTROL_TERMINAL_CLOSED : Z := 0x4f450103.
Definition COOKIE_CONTROL_RECLAIMING : Z := 0x4f4501ff.
Definition CURRENT_LIFECYCLE_OPEN_CONTROL : Z := 0x4f450201.
Definition CURRENT_RETIREMENT_CLOSED_CONTROL : Z := 0x4f450202.
Definition EGRESS_FENCE_INITIAL_COOKIE_EPOCH : Z := 1.

(** The result codes of the control program. *)
Definition CONTROL_RESULT_APPLIED : Z := 0.
Definition CONTROL_RESULT_INVALID : Z := 1.
Definition CONTROL_RESULT_STALE_TOKEN : Z := 2.
Definition CONTROL_RESULT_COOKIE_MISSING : Z := 3.
Definition CONTROL_RESULT_EPOCH_MISMATCH : Z := 4.
Definition CONTROL_RESULT_TERMINAL : Z := 5.
Definition CONTROL_RESULT_DEADLINE_ELAPSED : Z := 6.
Definition CONTROL_RESULT_STATE_MISMATCH : Z := 7.
Definition CONTROL_RESULT_MAP_ERROR : Z := 8.
Definition CONTROL_RESULT_NOT_RECLAIMABLE : Z := 9.

(** ** Refresh deadlines *)

Inductive RefreshDeadlineDecision : Type :=
  | Apply
  | PriorExpired
  | RequestedDeadlineInvalid
  | DeadlineRegressed.

Definition evaluate_refresh_deadlines
    (observed_at_boot_ns prior_deadline_boot_ns requested_deadline_boot_ns : Z)
    : RefreshDeadlineDecision :=
  if prior_deadline_boot_ns <=? observed_at_boot_ns then PriorExpired
  else if (requested_deadline_boot_ns <=? observed_at_boot_ns)
       || (EGRESS_FENCE_MAX_GATE_LIFETIME_NS
             <? requested_deadline_boot_ns - observed_at_boot_ns)
  then RequestedDeadlineInvalid
  else if requested_deadline_boot_ns <? prior_deadline_boot_ns then DeadlineRegressed
  else Apply.

(** ** Protected endpoints *)

Inductive ProtectedEndpoint : Type :=
  | Ipv4 (address : bytes) (port : Z)
  | Ipv6 (address : bytes) (port : Z).
#[export] Instance ProtectedEndpoint_eq_dec : EqDecision ProtectedEndpoint.
Proof. solve_decision. Defined.

Definition endpoint_ipv4 (address : bytes) (port : Z) : option ProtectedEndpoint :=
  if (port =? 0)
     || (at_ address 0 =? 0) && (at_ address 1 =? 0) && (at_ address 2 =? 0)
        && (at_ address 3 =? 0)
     || (224 <=? at_ address 0)
  then None else Some (Ipv4 address port).

(** The prefix [0:0:0:0:0:ffff] of an IPv4-mapped address. *)
Definition ipv4_mapped (address : bytes) : bool :=
  (at_ address 0 =? 0) && (at_ address 1 =? 0) && (at_ address 2 =? 0)
  && (at_ address 3 =? 0) && (at_ address 4 =? 0) && (at_ address 5 =? 0)
  && (at_ address 6 =? 0) && (at_ address 7 =? 0) && (at_ address 8 =? 0)
  && (at_ address 9 =? 0) && (at_ address 10 =? 0xff) && (at_ address 11 =? 0xff).

Definition link_local (address : bytes) : bool :=
  (at_ address 0 =? 0xfe) && (Z.land (at_ address 1) 0xc0 =? 0x80).

Definition endpoint_ipv6 (address : bytes) (port : Z) : option ProtectedEndpoint :=
  let nonzero := existsb (λ b, negb (b =? 0)) address in
  if (port =? 0) || negb nonzero || (at_ address 0 =? 0xff) || ipv4_mapped address
     || link_local address
  then None else Some (Ipv6 address port).

Definition endpoint_port (e : ProtectedEndpoint) : Z :=
  match e with Ipv4 _ port | Ipv6 _ port => port end.

(** ** Configuration *)

Record FenceConfig : Type := mkFenceConfig {
  fc_endpoint : ProtectedEndpoint;
  fc_root_cgroup_id : Z;
  fc_capacity : Z;
}.

Definition FenceConfig_new (endpoint : ProtectedEndpoint) (root_cgroup_id capacity : Z)
    : option FenceConfig :=
  if (root_cgroup_id =? 0) || negb (capacity =? EGRESS_FENCE_MAX_COOKIE_ENTRIES)
  then None else Some (mkFenceConfig endpoint root_cgroup_id capacity).

Definition zeroes (n : nat) : bytes := replicate n 0.

Definition FenceConfig_encode (c : FenceConfig) : bytes :=
  let encoded := zeroes 40 in
  let encoded := copy_at encoded 0 CONFIG_MAGIC in
  let encoded := copy_at encoded 4 (to_le_bytes 2 EGRESS_FENCE_ABI_VERSION) in
  let encoded := copy_at encoded 8 (u16_to_be_bytes (endpoint_port (fc_endpoint c))) in
  let encoded := put_u32 encoded 12 (fc_capacity c) in
  let encoded := put_u64 encoded 16 (fc_root_cgroup_id c) in
  match fc_endpoint c with
  | Ipv4 address _ =>
      let encoded := set_ encoded 6 FAMILY_IPV4 in
      copy_at encoded 24
        [at_ address 0; at_ address 1; at_ address 2; at_ address 3]
  | Ipv6 address _ =>
      let encoded := set_ encoded 6 FAMILY_IPV6 in
      copy_at encoded 24 address
  end.

Definition has_magic (encoded magic : bytes) : bool :=
  (at_ encoded 0 =? at_ magic 0) && (at_ encoded 1 =? at_ magic 1)
  && (at_ encoded 2 =? at_ magic 2) && (at_ encoded 3 =? at_ magic 3)
  && (from_le_bytes [at_ encoded 4; at_ encoded 5] =? EGRESS_FENCE_ABI_VERSION).

Definition FenceConfig_decode (encoded : bytes) : option FenceConfig :=
  if negb (has_magic encoded CONFIG_MAGIC) || negb (at_ encoded 7 =? 0)
     || negb (at_ encoded 10 =? 0) || negb (at_ encoded 11 =? 0)
  then None
  else
  let port := u16_from_be_bytes (at_ encoded 8) (at_ encoded 9) in
  let capacity := get_u32 encoded 12 in
  let root_cgroup_id := get_u64 encoded 16 in
  let endpoint :=
    if at_ encoded 6 =? FAMILY_IPV4 then
      if existsb (λ b, negb (b =? 0)) (copy_from encoded 28 12) then None
      else endpoint_ipv4
             [at_ encoded 24; at_ encoded 25; at_ encoded 26; at_ encoded 27] port
    else if at_ encoded 6 =? FAMILY_IPV6 then
      endpoint_ipv6 (copy_from encoded 24 16) port
    else None in
  match endpoint with
  | None => None
  | Some endpoint => FenceConfig_new endpoint root_cgroup_id capacity
  end.

(** ** The current token *)

Record CurrentFenceToken : Type := mkCurrentFenceToken {
  ct_durable_fence_token : Z;
  ct_registered_socket_cookie : Z;
  ct_retirement_closed : bool;
}.
#[export] Instance CurrentFenceToken_eq_dec : EqDecision CurrentFenceToken.
Proof. solve_decision. Defined.

Definition CurrentFenceToken_initial : CurrentFenceToken :=
  mkCurrentFenceToken 0 0 false.

Definition lifecycle_open (durable_fence_token : Z) : option CurrentFenceToken :=
  if (durable_fence_token =? 0) || (Z.land durable_fence_token 1 =? 0) then None
  else Some (mkCurrentFenceToken durable_fence_token 0 false).

Definition retirement_closed (durable_fence_token : Z) : option CurrentFenceToken :=
  if (durable_fence_token =? 0) || negb (Z.land durable_fence_token 1 =? 0) then None
  else Some (mkCurrentFenceToken durable_fence_token 0 true).

Definition registered_current (durable_fence_token registered_socket_cookie : Z)
    : option CurrentFenceToken :=
  if (durable_fence_token =? 0) || (Z.land durable_fence_token 1 =? 0)
     || (registered_socket_cookie =? 0)
  then None
  else Some (mkCurrentFenceToken durable_fence_token registered_socket_cookie false).

Definition is_lifecycle_open (c : CurrentFenceToken) : bool :=
  negb (ct_durable_fence_token c =? 0) && negb (ct_retirement_closed c).

Definition is_retirement_closed (c : CurrentFenceToken) : bool :=
  negb (ct_durable_fence_token c =? 0) && ct_retirement_closed c.

Definition CurrentFenceToken_encode (c : CurrentFenceToken) : bytes :=
  let encoded := zeroes 24 in
  if ct_durable_fence_token c =? 0 then encoded
  else
  let control := if ct_retirement_closed c then CURRENT_RETIREMENT_CLOSED_CONTROL
                 else CURRENT_LIFECYCLE_OPEN_CONTROL in
  let encoded := put_u32 encoded 4 control in
  let encoded := put_u64 encoded 8 (ct_durable_fence_token c) in
  put_u64 encoded 16 (ct_registered_socket_cookie c).

Definition CurrentFenceToken_decode (encoded : bytes) : option CurrentFenceToken :=
  if forallb (λ b, b =? 0) encoded then Some CurrentFenceToken_initial
  else if negb (at_ encoded 0 =? 0) || negb (at_ encoded 1 =? 0)
          || negb (at_ encoded 2 =? 0) || negb (at_ encoded 3 =? 0)
  then None
  else
  let control := get_u32 encoded 4 in
  let token := get_u64 encoded 8 in
  let cookie := get_u64 encoded 16 in
  if (control =? CURRENT_LIFECYCLE_OPEN_CONTROL) && (cookie =? 0) then
    lifecycle_open token
  else if control =? CURRENT_LIFECYCLE_OPEN_CONTROL then registered_current token cookie
  else if (control =? CURRENT_RETIREMENT_CLOSED_CONTROL) && (cookie =? 0) then
    retirement_closed token
  else None.

(** ** The structural-mutation barrier *)

Record FenceMutationAuthority : Type := mkFenceMutationAuthority {
  ma_generation : Z;
  ma_in_flight_claim : Z;
}.

Definition FenceMutationAuthority_new (generation in_flight_claim : Z)
    : option FenceMutationAuthority :=
  if (in_flight_claim =? 0)
     || negb (generation =? U64_MAX) && (in_flight_claim =? generation + 1)
  then Some (mkFenceMutationAuthority generation in_flight_claim) else None.

Definition FenceMutationAuthority_encode (m : FenceMutationAuthority) : bytes :=
  put_u64 (put_u64 (zeroes 16) 0 (ma_generation m)) 8 (ma_in_flight_claim m).

Definition FenceMutationAuthority_decode (encoded : bytes)
    : option FenceMutationAuthority :=
  FenceMutationAuthority_new (get_u64 encoded 0) (get_u64 encoded 8).

(** ** Control commands *)

Inductive ControlOperation : Type :=
  | PublishLifecycle
  | Register
  | Activate
  | Refresh
  | Close
  | Reclaim
  | Inspect
  | PublishRetirement.
#[export] Instance ControlOperation_eq_dec : EqDecision ControlOperation.
Proof. solve_decision. Defined.

(** [self.operation as u8]. *)
Definition control_code (o : ControlOperation) : Z :=
  match o with
  | PublishLifecycle => 1
  | Register => 2
  | Activate => 3
  | Refresh => 4
  | Close => 5
  | Reclaim => 6
  | Inspect => 7
  | PublishRetirement => 8
  end.

Definition ControlOperation_decode (value : Z) : option ControlOperation :=
  match value with
  | 1 => Some PublishLifecycle
  | 2 => Some Register
  | 3 => Some Activate
  | 4 => Some Refresh
  | 5 => Some Close
  | 6 => Some Reclaim
  | 7 => Some Inspect
  | 8 => Some PublishRetirement
  | _ => None
  end.

Record ControlCommand : Type := mkControlCommand {
  cc_operation : ControlOperation;
  cc_root_cgroup_id : Z;
  cc_socket_cookie : Z;
  cc_durable_fence_token : Z;
  cc_deadline_boot_ns : Z;
  cc_expected_epoch : Z;
}.

Definition fields_are_canonical (operation : ControlOperation)
    (socket_cookie durable_fence_token deadline_boot_ns expected_epoch : Z) : bool :=
  match operation with
  | PublishLifecycle =>
      (socket_cookie =? 0) && negb (durable_fence_token =? 0)
      && (Z.land durable_fence_token 1 =? 1) && (deadline_boot_ns =? 0)
      && (expected_epoch =? 0)
  | PublishRetirement =>
      (socket_cookie =? 0) && negb (durable_fence_token =? 0)
      && (Z.land durable_fence_token 1 =? 0) && (deadline_boot_ns =? 0)
      && (expected_epoch =? 0)
  | Register =>
      negb (socket_cookie =? 0) && negb (durable_fence_token =? 0)
      && (deadline_boot_ns =? 0) && (expected_epoch =? 0)
  | Activate | Refresh =>
      negb (socket_cookie =? 0) && negb (durable_fence_token =? 0)
      && negb (deadline_boot_ns =? 0) && negb (expected_epoch =? 0)
  | Close | Reclaim =>
      negb (socket_cookie =? 0) && negb (durable_fence_token =? 0)
      && (deadline_boot_ns =? 0) && negb (expected_epoch =? 0)
  | Inspect =>
      ((socket_cookie =? 0) && (durable_fence_token =? 0)
       || negb (socket_cookie =? 0) && negb (durable_fence_token =? 0))
      && (deadline_boot_ns =? 0) && (expected_epoch =? 0)
  end.

Definition ControlCommand_new (operation : ControlOperation)
    (root_cgroup_id socket_cookie durable_fence_token deadline_boot_ns
       expected_epoch : Z) : option ControlCommand :=
  if (root_cgroup_id =? 0)
     || negb (fields_are_canonical operation socket_cookie durable_fence_token
                deadline_boot_ns expected_epoch)
  then None
  else Some (mkControlCommand operation root_cgroup_id socket_cookie durable_fence_token
               deadline_boot_ns expected_epoch).

Definition ControlCommand_encode (c : ControlCommand) : bytes :=
  let encoded := zeroes 48 in
  let encoded := copy_at encoded 0 CONTROL_MAGIC in
  let encoded := copy_at encoded 4 (to_le_bytes 2 EGRESS_FENCE_ABI_VERSION) in
  let encoded := set_ encoded 6 (control_code (cc_operation c)) in
  let encoded := put_u64 encoded 8 (cc_root_cgroup_id c) in
  let encoded := put_u64 encoded 16 (cc_socket_cookie c) in
  let encoded := put_u64 encoded 24 (cc_durable_fence_token c) in
  let encoded := put_u64 encoded 32 (cc_deadline_boot_ns c) in
  put_u64 encoded 40 (cc_expected_epoch c).

Definition encode_inspect_request (c : ControlCommand) : option bytes :=
  if negb (bool_decide (cc_operation c = Inspect)) then None
  else Some (copy_at (zeroes 128) 0 (ControlCommand_encode c)).

Definition ControlCommand_decode (encoded : bytes) : option ControlCommand :=
  if negb (has_magic encoded CONTROL_MAGIC) || negb (at_ encoded 7 =? 0) then None
  else
  match ControlOperation_decode (at_ encoded 6) with
  | None => None
  | Some operation =>
      ControlCommand_new operation (get_u64 encoded 8) (get_u64 encoded 16)
        (get_u64 encoded 24) (get_u64 encoded 32) (get_u64 encoded 40)
  end.

(** ** Cookie keys and entries *)

Record FenceCookieKey : Type := mkFenceCookieKey {
  ck_socket_cookie : Z;
  ck_durable_fence_token : Z;
}.
#[export] Instance FenceCookieKey_eq_dec : EqDecision FenceCookieKey.
Proof. solve_decision. Defined.

Definition FenceCookieKey_new (socket_cookie durable_fence_token : Z)
    : option FenceCookieKey :=
  if (socket_cookie =? 0) || (durable_fence_token =? 0) then None
  else Some (mkFenceCookieKey socket_cookie durable_fence_token).

Definition FenceCookieKey_encode (k : FenceCookieKey) : bytes :=
  put_u64 (put_u64 (zeroes 16) 0 (ck_socket_cookie k)) 8 (ck_durable_fence_token k).

Definition FenceCookieKey_decode (encoded : bytes) : option FenceCookieKey :=
  FenceCookieKey_new (get_u64 encoded 0) (get_u64 encoded 8).

Inductive FenceEntryState : Type :=
  | InitialClosed
  | Active
  | TerminalClosed
  | Reclaiming.
#[export] Instance FenceEntryState_eq_dec : EqDecision FenceEntryState.
Proof. solve_decision. Defined.

Record FenceEntry : Type := mkFenceEntry {
  fe_state : FenceEntryState;
  fe_durable_fence_token : Z;
  fe_deadline_boot_ns : Z;
  fe_control_epoch : Z;
}.
#[export] Instance FenceEntry_eq_dec : EqDecision FenceEntry.
Proof. solve_decision. Defined.

(** [durable_fence_token == 0 || durable_fence_token & 1 == 0]. *)
Definition no_lifecycle (durable_fence_token : Z) : bool :=
  (durable_fence_token =? 0) || (Z.land durable_fence_token 1 =? 0).

Definition initial_closed (durable_fence_token : Z) : option FenceEntry :=
  if no_lifecycle durable_fence_token then None
  else Some (mkFenceEntry InitialClosed durable_fence_token 0
               EGRESS_FENCE_INITIAL_COOKIE_EPOCH).

Definition active (durable_fence_token deadline_boot_ns control_epoch : Z)
    : option FenceEntry :=
  if no_lifecycle durable_fence_token || (deadline_boot_ns =? 0) || (control_epoch =? 0)
  then None
  else Some (mkFenceEntry Active durable_fence_token deadline_boot_ns control_epoch).

Definition terminal_closed (durable_fence_token control_epoch : Z) : option FenceEntry :=
  if no_lifecycle durable_fence_token || (control_epoch =? 0) then None
  else Some (mkFenceEntry TerminalClosed durable_fence_token 0 control_epoch).

Definition reclaiming (durable_fence_token control_epoch : Z) : option FenceEntry :=
  if no_lifecycle durable_fence_token || (control_epoch =? 0) then None
  else Some (mkFenceEntry Reclaiming durable_fence_token 0 control_epoch).

Definition state_control (s : FenceEntryState) : Z :=
  match s with
  | InitialClosed => COOKIE_CONTROL_INITIAL_CLOSED
  | Active => COOKIE_CONTROL_ACTIVE
  | TerminalClosed => COOKIE_CONTROL_TERMINAL_CLOSED
  | Reclaiming => COOKIE_CONTROL_RECLAIMING
  end.

Definition FenceEntry_encode (e : FenceEntry) : bytes :=
  let encoded := zeroes 32 in
  let encoded := put_u32 encoded 4 (state_control (fe_state e)) in
  let encoded := put_u64 encoded 8 (fe_durable_fence_token e) in
  let encoded := put_u64 encoded 16 (fe_deadline_boot_ns e) in
  put_u64 encoded 24 (fe_control_epoch e).

Definition FenceEntry_decode (encoded : bytes) : option FenceEntry :=
  if negb (at_ encoded 0 =? 0) || negb (at_ encoded 1 =? 0)
     || negb (at_ encoded 2 =? 0) || negb (at_ encoded 3 =? 0)
  then None
  else
  let control := get_u32 encoded 4 in
  let token := get_u64 encoded 8 in
  let deadline := get_u64 encoded 16 in
  let epoch := get_u64 encoded 24 in
  if (control =? COOKIE_CONTROL_INITIAL_CLOSED) && (negb (token =? 0) && (deadline =? 0))
  then if epoch =? EGRESS_FENCE_INITIAL_COOKIE_EPOCH then initial_closed token else None
  else if control =? COOKIE_CONTROL_ACTIVE then active token deadline epoch
  else if (control =? COOKIE_CONTROL_TERMINAL_CLOSED) && (deadline =? 0) then
    terminal_closed token epoch
  else if (control =? COOKIE_CONTROL_RECLAIMING) && (deadline =? 0) then
    reclaiming token epoch
  else None.

Record FenceCookieValue : Type := mkFenceCookieValue {
  cv_key : FenceCookieKey;
  cv_entry : FenceEntry;
}.

Definition FenceCookieValue_new (key : FenceCookieKey) (entry : FenceEntry)
    : option FenceCookieValue :=
  if ck_durable_fence_token key =? fe_durable_fence_token entry
  then Some (mkFenceCookieValue key entry) else None.

Definition FenceCookieValue_encode (v : FenceCookieValue) : bytes :=
  let encoded := zeroes 40 in
  let state := FenceEntry_encode (cv_entry v) in
  let encoded := put_u32 encoded 4 (get_u32 state 4) in
  let encoded := put_u64 encoded 8 (ck_socket_cookie (cv_key v)) in
  let encoded := put_u64 encoded 16 (ck_durable_fence_token (cv_key v)) in
  let encoded := put_u64 encoded 24 (fe_deadline_boot_ns (cv_entry v)) in
  put_u64 encoded 32 (fe_control_epoch (cv_entry v)).

Definition FenceCookieValue_decode (encoded : bytes) : option FenceCookieValue :=
  if negb (get_u32 encoded 0 =? 0) then None
  else
  match FenceCookieKey_new (get_u64 encoded 8) (get_u64 encoded 16) with
  | None => None
  | Some key =>
      let state := zeroes 32 in
      let state := put_u32 state 4 (get_u32 encoded 4) in
      let state := put_u64 state 8 (get_u64 encoded 16) in
      let state := put_u64 state 16 (get_u64 encoded 24) in
      let state := put_u64 state 24 (get_u64 encoded 32) in
      match FenceEntry_decode state with
      | None => None
      | Some entry => FenceCookieValue_new key entry
      end
  end.

(** ** Inspections *)

Record FenceInspection : Type := mkFenceInspection {
  fi_current : CurrentFenceToken;
  fi_mutation : FenceMutationAuthority;
  fi_entry : option FenceCookieValue;
}.

Definition FenceInspection_encode (i : FenceInspection) : bytes :=
  let encoded := zeroes 128 in
  let encoded := copy_at encoded 0 INSPECTION_MAGIC in
  let encoded := copy_at encoded 4 (to_le_bytes 2 EGRESS_FENCE_ABI_VERSION) in
  let encoded := set_ encoded 6 (if fi_entry i then 1 else 0) in
  let encoded := copy_at encoded 8 (CurrentFenceToken_encode (fi_current i)) in
  let encoded := copy_at encoded 32 (FenceMutationAuthority_encode (fi_mutation i)) in
  match fi_entry i with
  | Some entry => copy_at encoded 48 (FenceCookieValue_encode entry)
  | None => encoded
  end.

Definition FenceInspection_decode (encoded : bytes) : option FenceInspection :=
  if negb (has_magic encoded INSPECTION_MAGIC) || (1 <? at_ encoded 6)
     || negb (at_ encoded 7 =? 0)
  then None
  else
  match CurrentFenceToken_decode (copy_from encoded 8 24) with
  | None => None
  | Some current =>
  match FenceMutationAuthority_decode (copy_from encoded 32 16) with
  | None => None
  | Some mutation =>
      let entry := copy_from encoded 48 40 in
      let decoded :=
        if at_ encoded 6 =? 0 then
          if existsb (λ b, negb (b =? 0)) entry then None else Some None
        else
          match FenceCookieValue_decode entry with
          | Some entry => Some (Some entry)
          | None => None
          end in
      match decoded with
      | None => None
      | Some entry =>
          if existsb (λ b, negb (b =? 0)) (copy_from encoded 88 40) then None
          else Some (mkFenceInspection current mutation entry)
      end
  end
  end.

(** ** The decision on one packet *)

Inductive FenceVerdict : Type :=
  | PassUnrelated
  | Allow
  | DropCookieZero
  | DropMissing
  | DropClosed
  | DropExpired
  | DropStaleToken
  | DropMalformed.
#[export] Instance FenceVerdict_eq_dec : EqDecision FenceVerdict.
Proof. solve_decision. Defined.

Definition counter_slot (v : FenceVerdict) : option Z :=
  match v with
  | PassUnrelated => None
  | Allow => Some COUNTER_ALLOWED
  | DropCookieZero => Some COUNTER_COOKIE_ZERO
  | DropMissing => Some COUNTER_COOKIE_MISSING
  | DropClosed => Some COUNTER_CLOSED
  | DropExpired => Some COUNTER_EXPIRED
  | DropMalformed => Some COUNTER_MALFORMED
  | DropStaleToken => Some COUNTER_STALE_TOKEN
  end.

Definition must_drop (v : FenceVerdict) : bool :=
  match v with PassUnrelated | Allow => false | _ => true end.

Inductive PacketEndpointDisposition : Type :=
  | Protected
  | Unrelated
  | Indeterminate.
#[export] Instance PacketEndpointDisposition_eq_dec :
  EqDecision PacketEndpointDisposition.
Proof. solve_decision. Defined.

Record PacketFenceContext : Type := mkPacketFenceContext {
  pc_attachment_identity_valid : bool;
  pc_socket_endpoint_matches : bool;
  pc_endpoint_disposition : PacketEndpointDisposition;
  pc_socket_cookie : Z;
}.

Record FenceAuthoritySnapshot : Type := mkFenceAuthoritySnapshot {
  as_entry : option FenceEntry;
  as_current_durable_fence_token : Z;
  as_current_registered_socket_cookie : Z;
  as_now_boot_ns : Z;
}.

Definition decide_authority (packet : PacketFenceContext)
    (authority : FenceAuthoritySnapshot) : FenceVerdict :=
  if pc_socket_cookie packet =? 0 then DropCookieZero
  else
  match as_entry authority with
  | None => DropMissing
  | Some entry =>
      if (as_current_durable_fence_token authority =? 0)
         || (as_current_registered_socket_cookie authority =? 0)
         || negb (pc_socket_cookie packet
                    =? as_current_registered_socket_cookie authority)
         || negb (fe_durable_fence_token entry
                    =? as_current_durable_fence_token authority)
      then DropStaleToken
      else if negb (bool_decide (fe_state entry = Active)) then DropClosed
      else if fe_deadline_boot_ns entry <=? as_now_boot_ns authority then DropExpired
      else Allow
  end.

Definition decide_egress (packet : PacketFenceContext)
    (authority : FenceAuthoritySnapshot) : FenceVerdict :=
  if negb (pc_attachment_identity_valid packet) then DropMalformed
  else if negb (pc_socket_endpoint_matches packet) then
    match pc_endpoint_disposition packet with
    | Unrelated => PassUnrelated
    | Indeterminate => DropMalformed
    | Protected => decide_authority packet authority
    end
  else decide_authority packet authority.
