(* ===== verification/FenceCodec.v ===== *)
(** The formats of the egress fence are exact ([opc-egress-fence-common/src/lib.rs]):
    decoding accepts an array exactly when it is the encoding of a canonical value,
    which it returns. *)

From S2P Require Import Prelude.
From S2P Require Import FenceAbi.

(** ** Octets *)

Lemma len_to_le n v : length (to_le_bytes n v) = n.
Proof. revert v; induction n as [|n IH]; intros v; cbn; [done|by rewrite IH]. Qed.

Lemma to_le_ok n v : bytes_ok (to_le_bytes n v).
Proof.
  revert v; induction n as [|n IH]; intros v; cbn; [constructor|].
  apply bytes_ok_cons; split; [|apply IH]. unfold u8. pose proof (Z.mod_pos_bound v 256). lia.
Qed.

Lemma from_to_le n v : 0 ≤ v < 256 ^ Z.of_nat n → from_le_bytes (to_le_bytes n v) = v.
Proof.
  revert v; induction n as [|n IH]; intros v Hv.
  - change (256 ^ Z.of_nat 0) with 1 in Hv. cbn. lia.
  - rewrite Nat2Z.inj_succ, Z.pow_succ_r in Hv by lia. cbn [to_le_bytes from_le_bytes].
    rewrite IH; [pose proof (Z.div_mod v 256); lia|].
    split; [apply Z.div_pos; lia|apply Z.div_lt_upper_bound; lia].
Qed.

Lemma to_from_le l : bytes_ok l → to_le_bytes (length l) (from_le_bytes l) = l.
Proof.
  induction l as [|b l IH]; [done|]. rewrite bytes_ok_cons. intros [Hb Hl]. unfold u8 in Hb.
  cbn [length to_le_bytes from_le_bytes].
  replace (b + 256 * from_le_bytes l) with (b + from_le_bytes l * 256) by lia.
  rewrite Z.mod_add, Z.div_add, Z.mod_small, Z.div_small, Z.add_0_l, IH by (done || lia).
  done.
Qed.

Lemma from_le_range l :
  bytes_ok l → 0 ≤ from_le_bytes l < 256 ^ Z.of_nat (length l).
Proof.
  induction l as [|b l IH]; [cbn; lia|]. rewrite bytes_ok_cons. intros [Hb Hl]. unfold u8 in Hb.
  cbn [length from_le_bytes]. rewrite Nat2Z.inj_succ, Z.pow_succ_r by lia.
  specialize (IH Hl). lia.
Qed.

Lemma from_to_u64 v : u64 v → from_le_bytes (to_le_bytes 8 v) = v.
Proof. intros [? ?]. apply from_to_le. change (256 ^ Z.of_nat 8) with 18446744073709551616.
  unfold U64_MAX in *. lia. Qed.

Lemma from_to_u32 v : u32 v → from_le_bytes (to_le_bytes 4 v) = v.
Proof. intros [? ?]. apply from_to_le. change (256 ^ Z.of_nat 4) with 4294967296. lia. Qed.

Lemma to_from_u64 l : bytes_ok l → length l = 8%nat → to_le_bytes 8 (from_le_bytes l) = l.
Proof. intros Hl E. rewrite <-E. by apply to_from_le. Qed.

Lemma to_from_u32 l : bytes_ok l → length l = 4%nat → to_le_bytes 4 (from_le_bytes l) = l.
Proof. intros Hl E. rewrite <-E. by apply to_from_le. Qed.

Lemma from_le_u64 l : bytes_ok l → length l = 8%nat → u64 (from_le_bytes l).
Proof.
  intros Hl E. apply from_le_range in Hl. rewrite E in Hl.
  change (256 ^ Z.of_nat 8) with 18446744073709551616 in Hl. unfold u64, U64_MAX. lia.
Qed.

Lemma from_le_u32 l : bytes_ok l → length l = 4%nat → u32 (from_le_bytes l).
Proof.
  intros Hl E. apply from_le_range in Hl. rewrite E in Hl.
  change (256 ^ Z.of_nat 4) with 4294967296 in Hl. unfold u32. lia.
Qed.

(** ** Pieces of an array *)

Lemma at_app_r pre post i : at_ (pre ++ post) (length pre + i) = at_ post i.
Proof. unfold at_. rewrite app_nth2 by lia. f_equal. lia. Qed.

Lemma copy_from_pre pre post i n :
  copy_from (pre ++ post) (length pre + i) n = copy_from post i n.
Proof.
  unfold copy_from. revert i; induction n as [|n IH]; intros i; [done|].
  cbn [seq fmap list_fmap]. rewrite at_app_r. f_equal. rewrite <-Nat.add_succ_r. apply IH.
Qed.

Lemma copy_from_whole l post : copy_from (l ++ post) 0 (length l) = l.
Proof.
  induction l as [|b l IH]; [done|]. cbn [length]. unfold copy_from in *.
  cbn [seq fmap list_fmap]. f_equal. rewrite <-fmap_S_seq, <-list_fmap_compose.
  etrans; [|exact IH]. by apply list_fmap_ext.
Qed.

(** Reading the piece [mid], which starts at [i]. *)
Lemma copy_from_mid pre mid post i n :
  length pre = i → length mid = n → copy_from (pre ++ mid ++ post) i n = mid.
Proof.
  intros <- <-. rewrite <-(Nat.add_0_r (length pre)), copy_from_pre. apply copy_from_whole.
Qed.

Lemma copy_from_length l i n : length (copy_from l i n) = n.
Proof. unfold copy_from. by rewrite length_fmap, length_seq. Qed.

Lemma split_len (b : bytes) n m :
  length b = (n + m)%nat → ∃ p q, b = p ++ q ∧ length p = n ∧ length q = m.
Proof.
  intros E. exists (take n b), (drop n b). rewrite take_drop, length_take, length_drop.
  split_and!; [done|lia..].
Qed.

(** A copy of length [n] at offset [i] has the given neighbours. *)
Lemma copy_at_mid pre old post new i :
  length pre = i → length old = length new →
  copy_at (pre ++ old ++ post) i new = pre ++ new ++ post.
Proof.
  intros <- E. unfold copy_at. rewrite <-(Nat.add_0_r (length pre)), list_inserts_app_r.
  by rewrite list_inserts_0_r.
Qed.

Lemma all_zero l n :
  length l = n → existsb (λ b, negb (b =? 0)) l = false → l = replicate n 0.
Proof.
  intros <-. induction l as [|b l IH]; [done|]. cbn. intros [Hb Hl]%orb_false_iff.
  apply negb_false_iff, Z.eqb_eq in Hb. rewrite Hb. f_equal. by apply IH.
Qed.

Lemma zero_copy n : existsb (λ b, negb (b =? 0)) (replicate n 0) = false.
Proof. by induction n. Qed.

(** ** Exact formats *)

(** [decode] accepts the arrays of [n] octets that encode a canonical value, and no
    other. *)
Definition exact_codec {A} (n : nat) (ok : A → Prop) (encode : A → bytes)
    (decode : bytes → option A) : Prop :=
  ∀ x b, ok x ∧ encode x = b ↔ length b = n ∧ bytes_ok b ∧ decode b = Some x.

Lemma exact_codec_intro {A} n (ok : A → Prop) encode decode :
  (∀ x, ok x → length (encode x) = n ∧ bytes_ok (encode x) ∧ decode (encode x) = Some x) →
  (∀ x b, length b = n → bytes_ok b → decode b = Some x → ok x ∧ encode x = b) →
  exact_codec n ok encode decode.
Proof. intros H1 H2 x b. split; [intros [Hx <-]; by apply H1|intros (?&?&?); by apply H2]. Qed.

Definition mutation_ok (m : FenceMutationAuthority) : Prop :=
  u64 (ma_generation m) ∧ u64 (ma_in_flight_claim m)
  ∧ FenceMutationAuthority_new (ma_generation m) (ma_in_flight_claim m) = Some m.

Definition cookie_key_ok (k : FenceCookieKey) : Prop :=
  u64 (ck_socket_cookie k) ∧ u64 (ck_durable_fence_token k)
  ∧ FenceCookieKey_new (ck_socket_cookie k) (ck_durable_fence_token k) = Some k.

Definition command_ok (c : ControlCommand) : Prop :=
  u64 (cc_root_cgroup_id c) ∧ u64 (cc_socket_cookie c) ∧ u64 (cc_durable_fence_token c)
  ∧ u64 (cc_deadline_boot_ns c) ∧ u64 (cc_expected_epoch c)
  ∧ ControlCommand_new (cc_operation c) (cc_root_cgroup_id c) (cc_socket_cookie c)
      (cc_durable_fence_token c) (cc_deadline_boot_ns c) (cc_expected_epoch c) = Some c.

Definition current_ok (c : CurrentFenceToken) : Prop :=
  u64 (ct_durable_fence_token c) ∧ u64 (ct_registered_socket_cookie c)
  ∧ (c = CurrentFenceToken_initial
     ∨ lifecycle_open (ct_durable_fence_token c) = Some c
     ∨ registered_current (ct_durable_fence_token c) (ct_registered_socket_cookie c) = Some c
     ∨ retirement_closed (ct_durable_fence_token c) = Some c).

Definition entry_ok (e : FenceEntry) : Prop :=
  u64 (fe_durable_fence_token e) ∧ u64 (fe_deadline_boot_ns e) ∧ u64 (fe_control_epoch e)
  ∧ match fe_state e with
    | InitialClosed => initial_closed (fe_durable_fence_token e)
    | Active => active (fe_durable_fence_token e) (fe_deadline_boot_ns e)
                  (fe_control_epoch e)
    | TerminalClosed => terminal_closed (fe_durable_fence_token e) (fe_control_epoch e)
    | Reclaiming => reclaiming (fe_durable_fence_token e) (fe_control_epoch e)
    end = Some e.

Definition cookie_value_ok (v : FenceCookieValue) : Prop :=
  cookie_key_ok (cv_key v) ∧ entry_ok (cv_entry v)
  ∧ FenceCookieValue_new (cv_key v) (cv_entry v) = Some v.

Definition inspection_ok (i : FenceInspection) : Prop :=
  current_ok (fi_current i) ∧ mutation_ok (fi_mutation i)
  ∧ ∀ v, fi_entry i = Some v → cookie_value_ok v.

Definition endpoint_ok (e : ProtectedEndpoint) : Prop :=
  match e with
  | Ipv4 address port =>
      length address = 4%nat ∧ bytes_ok address ∧ u16 port
      ∧ endpoint_ipv4 address port = Some e
  | Ipv6 address port =>
      length address = 16%nat ∧ bytes_ok address ∧ u16 port
      ∧ endpoint_ipv6 address port = Some e
  end.

Definition config_ok (c : FenceConfig) : Prop :=
  endpoint_ok (fc_endpoint c) ∧ u64 (fc_root_cgroup_id c)
  ∧ FenceConfig_new (fc_endpoint c) (fc_root_cgroup_id c) (fc_capacity c) = Some c.

Lemma app_ok (l k : bytes) : bytes_ok l → bytes_ok k → bytes_ok (l ++ k).
Proof. intros. by apply bytes_ok_app. Qed.

Create HintDb fence.
#[export] Hint Resolve to_le_ok app_ok : fence.

(** Every format is a header followed by little-endian words of 64 bits. *)
Definition words (ws : list Z) : bytes := concat (to_le_bytes 8 <$> ws).

Lemma words_length ws : length (words ws) = (8 * length ws)%nat.
Proof.
  induction ws as [|w ws IH]; [done|]. unfold words in *.
  cbn [fmap list_fmap concat length]. rewrite length_app, len_to_le, IH. lia.
Qed.

Lemma words_ok ws : bytes_ok (words ws).
Proof.
  unfold words. induction ws; cbn [fmap list_fmap concat]; [constructor|].
  apply app_ok; [apply to_le_ok|done].
Qed.
#[export] Hint Resolve words_ok : fence.

Lemma get_word pre ws post i w :
  ws !! i = Some w → u64 w →
  get_u64 (pre ++ words ws ++ post) (length pre + 8 * i) = w.
Proof.
  revert pre i; induction ws as [|v ws IH]; intros pre i Hi Hw; [done|].
  destruct i as [|i]; [injection Hi as ->|].
  - change (words (w :: ws)) with (to_le_bytes 8 w ++ words ws). rewrite <-app_assoc.
    unfold get_u64. rewrite copy_from_mid by (lia || apply len_to_le). by apply from_to_u64.
  - change (words (v :: ws)) with (to_le_bytes 8 v ++ words ws).
    rewrite <-app_assoc, (app_assoc pre).
    etrans; [|exact (IH (pre ++ to_le_bytes 8 v) i Hi Hw)]. f_equal.
    rewrite length_app, len_to_le. lia.
Qed.

Lemma words_of b n :
  length b = (8 * n)%nat → bytes_ok b →
  ∃ ws, b = words ws ∧ length ws = n ∧ Forall u64 ws.
Proof.
  revert b; induction n as [|n IH]; intros b Hl Hb.
  - exists []. split_and!; [|done|constructor]. by destruct b.
  - destruct (split_len b 8 (8 * n)) as (p & q & -> & Hp & Hq); [lia|].
    apply bytes_ok_app in Hb as [Hbp Hbq].
    destruct (IH q Hq Hbq) as (ws & -> & Hn & Hws).
    exists (from_le_bytes p :: ws). split_and!; [|cbn; lia|constructor; [|done]].
    + unfold words. cbn [fmap list_fmap concat]. by rewrite to_from_u64.
    + by apply from_le_u64.
Qed.

(** A value with a header of [h] octets and [n] words. *)
Lemma header_words b h n :
  length b = (h + 8 * n)%nat → bytes_ok b →
  ∃ p ws, b = p ++ words ws ∧ length p = h ∧ bytes_ok p ∧ length ws = n ∧ Forall u64 ws.
Proof.
  intros Hl Hb. destruct (split_len b h (8 * n) Hl) as (p & q & -> & Hp & Hq).
  apply bytes_ok_app in Hb as [Hbp Hbq].
  destruct (words_of q n Hq Hbq) as (ws & -> & ? & ?). by exists p, ws.
Qed.

(** Read the words of an array in the goal: [get_words pre] where [pre] is its header. *)
Ltac get_words pre :=
  repeat match goal with
  | |- context [get_u64 (pre ++ words ?ws) ?i] =>
      let k := eval cbn in (i - length pre)%nat in
      let j := eval cbn in (Nat.div k 8) in
      let w := eval cbn in (ws !! j) in
      match w with
      | Some ?w =>
          replace (get_u64 (pre ++ words ws) i) with w
            by (symmetry; rewrite <-(app_nil_r (words ws));
                apply (get_word pre ws [] j w); [reflexivity|done])
      end
  end.

(** *** The mutation barrier and cookie keys: two words *)

Lemma two_words a b : put_u64 (put_u64 (zeroes 16) 0 a) 8 b = words [a; b].
Proof. reflexivity. Qed.

Lemma two_words_read a b :
  u64 a → u64 b → get_u64 (words [a; b]) 0 = a ∧ get_u64 (words [a; b]) 8 = b.
Proof.
  intros. change (words [a; b]) with ([] ++ words [a; b]). by get_words (@nil Z).
Qed.

Lemma mutation_new_inv g c m :
  FenceMutationAuthority_new g c = Some m → m = mkFenceMutationAuthority g c.
Proof. unfold FenceMutationAuthority_new. by case_match; intros; simplify_eq. Qed.

Lemma cookie_key_new_inv c t k :
  FenceCookieKey_new c t = Some k → k = mkFenceCookieKey c t.
Proof. unfold FenceCookieKey_new. by case_match; intros; simplify_eq. Qed.

Lemma mutation_codec :
  exact_codec 16 mutation_ok FenceMutationAuthority_encode FenceMutationAuthority_decode.
Proof.
  apply exact_codec_intro; unfold FenceMutationAuthority_decode.
  - intros m (Hg & Hc & Hn). unfold FenceMutationAuthority_encode. rewrite two_words.
    destruct (two_words_read _ _ Hg Hc) as [-> ->]. split_and!; [done|apply words_ok|exact Hn].
  - intros m b Hl Hb. destruct (header_words b 0 2 Hl Hb) as (p & ws & -> & Hp & _ & Hn & Hw).
    destruct p; [|done]. destruct ws as [|g [|c [|]]]; try done. decompose_Forall_hyps.
    cbn [app] in *. destruct (two_words_read g c) as [-> ->]; [done..|]. intros Hm. pose proof (mutation_new_inv _ _ _ Hm). subst m.
    split; [|apply two_words]. split; [|split]; assumption.
Qed.

Lemma cookie_key_codec :
  exact_codec 16 cookie_key_ok FenceCookieKey_encode FenceCookieKey_decode.
Proof.
  apply exact_codec_intro; unfold FenceCookieKey_decode.
  - intros m (Hg & Hc & Hn). unfold FenceCookieKey_encode. rewrite two_words.
    destruct (two_words_read _ _ Hg Hc) as [-> ->]. split_and!; [done|apply words_ok|exact Hn].
  - intros m b Hl Hb. destruct (header_words b 0 2 Hl Hb) as (p & ws & -> & Hp & _ & Hn & Hw).
    destruct p; [|done]. destruct ws as [|g [|c [|]]]; try done. decompose_Forall_hyps.
    cbn [app] in *. destruct (two_words_read g c) as [-> ->]; [done..|]. intros Hm. pose proof (cookie_key_new_inv _ _ _ Hm). subst m.
    split; [|apply two_words]. split; [|split]; assumption.
Qed.

(** *** Commands *)

Lemma command_new_inv o r c t d e x :
  ControlCommand_new o r c t d e = Some x → x = mkControlCommand o r c t d e.
Proof. unfold ControlCommand_new. by case_match; intros; simplify_eq. Qed.

Lemma control_decode_code o : ControlOperation_decode (control_code o) = Some o.
Proof. by destruct o. Qed.

Lemma operation_decode_inv v o : ControlOperation_decode v = Some o → v = control_code o.
Proof. unfold ControlOperation_decode. intros H. by repeat case_match; simplify_eq. Qed.

Lemma control_code_u8 o : u8 (control_code o).
Proof. unfold u8. destruct o; cbn; lia. Qed.

(** The first octets of a format: the magic and the version. *)
Definition magic_header (magic : bytes) : bytes := magic ++ [5; 0].

Lemma has_magic_inv h0 h1 h2 h3 h4 h5 l m0 m1 m2 m3 :
  u8 h4 → u8 h5 →
  has_magic (h0 :: h1 :: h2 :: h3 :: h4 :: h5 :: l) [m0; m1; m2; m3] = true →
  h0 :: h1 :: h2 :: h3 :: h4 :: h5 :: l = magic_header [m0; m1; m2; m3] ++ l.
Proof.
  unfold has_magic, u8, at_, EGRESS_FENCE_ABI_VERSION; cbn [nth from_le_bytes].
  intros Ha Hb H. to_prop. subst. assert (h4 = 5 ∧ h5 = 0) as [-> ->] by lia. done.
Qed.

Lemma has_magic_header m0 m1 m2 m3 l :
  has_magic (magic_header [m0; m1; m2; m3] ++ l) [m0; m1; m2; m3] = true.
Proof. unfold has_magic, at_; cbn. by rewrite !Z.eqb_refl. Qed.

(** Octets written out are octets. *)
Ltac octets :=
  cbn; repeat first
    [ apply bytes_ok_cons; split | apply Forall_nil_2 | apply control_code_u8
    | assumption | unfold u8; lia ].

Definition command_header (o : ControlOperation) : bytes :=
  magic_header CONTROL_MAGIC ++ [control_code o; 0].

Lemma command_layout o r c t d e :
  ControlCommand_encode (mkControlCommand o r c t d e)
  = command_header o ++ words [r; c; t; d; e].
Proof. reflexivity. Qed.

Lemma command_read o r c t d e :
  u64 r → u64 c → u64 t → u64 d → u64 e →
  ControlCommand_decode (command_header o ++ words [r; c; t; d; e])
  = ControlCommand_new o r c t d e.
Proof.
  intros. unfold ControlCommand_decode. get_words (command_header o).
  unfold command_header at 1. rewrite <-app_assoc. unfold CONTROL_MAGIC at 1 2.
  rewrite has_magic_header. cbn [negb orb at_ nth command_header magic_header app CONTROL_MAGIC].
  change (at_ (command_header o ++ words [r; c; t; d; e]) 7) with 0.
  change (at_ (command_header o ++ words [r; c; t; d; e]) 6) with (control_code o).
  by rewrite control_decode_code.
Qed.

Lemma command_header_inv p l x :
  length p = 8%nat → bytes_ok p → ControlCommand_decode (p ++ l) = Some x →
  ∃ o, p = command_header o.
Proof.
  intros Hp Hb. destruct p as [|h0 [|h1 [|h2 [|h3 [|h4 [|h5 [|h6 [|h7 [|]]]]]]]]]; try done.
  rewrite !bytes_ok_cons in Hb. unfold ControlCommand_decode. cbn [app].
  destruct (_ || _) eqn:Hh; [done|]. apply orb_false_iff in Hh as [Hh H7].
  apply negb_false_iff in Hh, H7.
  destruct (ControlOperation_decode _) as [o|] eqn:Ho; [|done]. intros _. exists o.
  apply has_magic_inv in Hh; [|tauto..]. apply operation_decode_inv in Ho.
  apply Z.eqb_eq in H7. cbn in Ho, H7, Hh. by simplify_eq.
Qed.

Lemma command_codec :
  exact_codec 48 command_ok ControlCommand_encode ControlCommand_decode.
Proof.
  apply exact_codec_intro.
  - intros [o r c t d e] (Hr & Hc & Ht & Hd & He & Hn). cbn in Hr, Hc, Ht, Hd, He, Hn.
    rewrite command_layout, command_read by done. split_and!; [done| |done].
    apply app_ok; [|apply words_ok]. by octets.
  - intros m b Hl Hb. destruct (header_words b 8 5 Hl Hb) as (p & ws & -> & Hp & Hbp & Hn & Hw).
    destruct ws as [|r [|c [|t [|d [|e [|]]]]]]; try done. decompose_Forall_hyps.
    intros Hm. destruct (command_header_inv _ _ _ Hp Hbp Hm) as [o E].
    rewrite E in Hm |- *. rewrite command_read in Hm by done.
    pose proof (command_new_inv _ _ _ _ _ _ _ Hm). subst m.
    split; [|apply command_layout]. do 5 (split; [assumption|]). exact Hm.
Qed.

(** *** Entries and cookie values *)

(** The value a control word and three fields stand for. *)
Definition entry_of (control token deadline epoch : Z) : option FenceEntry :=
  if (control =? COOKIE_CONTROL_INITIAL_CLOSED) && (negb (token =? 0) && (deadline =? 0))
  then if epoch =? EGRESS_FENCE_INITIAL_COOKIE_EPOCH then initial_closed token else None
  else if control =? COOKIE_CONTROL_ACTIVE then active token deadline epoch
  else if (control =? COOKIE_CONTROL_TERMINAL_CLOSED) && (deadline =? 0) then
    terminal_closed token epoch
  else if (control =? COOKIE_CONTROL_RECLAIMING) && (deadline =? 0) then
    reclaiming token epoch
  else None.

Lemma entry_of_inv control token deadline epoch e :
  entry_of control token deadline epoch = Some e →
  control = state_control (fe_state e) ∧ e = mkFenceEntry (fe_state e) token deadline epoch.
Proof.
  unfold entry_of, initial_closed, active, terminal_closed, reclaiming.
  intros H. rust_cases; to_prop; subst; done.
Qed.

Lemma entry_of_ok e :
  entry_ok e →
  entry_of (state_control (fe_state e)) (fe_durable_fence_token e) (fe_deadline_boot_ns e)
    (fe_control_epoch e) = Some e.
Proof.
  destruct e as [s t d ep]. intros (_ & _ & _ & H). cbn [fe_state fe_durable_fence_token
    fe_deadline_boot_ns fe_control_epoch] in *.
  destruct s; unfold entry_of; cbn [state_control].
  - unfold initial_closed in *. destruct (no_lifecycle t) eqn:Hz; [done|].
    injection H as <- <-. apply orb_false_iff in Hz as [Hz _]. by rewrite Hz.
  - exact H.
  - assert (d = 0) as -> by (unfold terminal_closed in H; by case_match; simplify_eq).
    exact H.
  - assert (d = 0) as -> by (unfold reclaiming in H; by case_match; simplify_eq). exact H.
Qed.

Lemma entry_ok_of control token deadline epoch e :
  u64 token → u64 deadline → u64 epoch →
  entry_of control token deadline epoch = Some e → entry_ok e.
Proof.
  intros Ht Hd He H. pose proof (entry_of_inv _ _ _ _ _ H) as [Hc E].
  rewrite E in H |- *. cbn [fe_state] in *. destruct (fe_state e); subst control;
    (split; [exact Ht|split; [exact Hd|split; [exact He|]]]); cbn;
    unfold entry_of in H; rust_cases; try done; by simplify_eq.
Qed.

(** Four reserved octets and a control word. *)
Definition control_header (control : Z) : bytes := zeroes 4 ++ to_le_bytes 4 control.

Lemma control_header_ok c : bytes_ok (control_header c).
Proof. apply app_ok; [octets|apply to_le_ok]. Qed.

Lemma control_header_of p :
  length p = 8%nat → bytes_ok p → at_ p 0 = 0 → at_ p 1 = 0 → at_ p 2 = 0 → at_ p 3 = 0 →
  ∃ c, p = control_header c ∧ u32 c.
Proof.
  intros Hl Hb H0 H1 H2 H3.
  destruct p as [|h0 [|h1 [|h2 [|h3 q]]]]; try done. cbn in Hl, H0, H1, H2, H3. subst.
  rewrite !bytes_ok_cons in Hb. exists (from_le_bytes q). unfold control_header.
  rewrite to_from_u32 by (tauto || lia). split; [done|]. apply from_le_u32; [tauto|lia].
Qed.

Lemma get_control c l : u32 c → get_u32 (control_header c ++ l) 4 = c.
Proof.
  intros. change (get_u32 (control_header c ++ l) 4) with (from_le_bytes (to_le_bytes 4 c)).
  by apply from_to_u32.
Qed.

Lemma state_control_u32 s : u32 (state_control s).
Proof. unfold u32. by destruct s. Qed.

Lemma entry_layout s t d e :
  FenceEntry_encode (mkFenceEntry s t d e) = control_header (state_control s) ++ words [t; d; e].
Proof. reflexivity. Qed.

Lemma entry_read c t d e :
  u32 c → u64 t → u64 d → u64 e →
  FenceEntry_decode (control_header c ++ words [t; d; e]) = entry_of c t d e.
Proof.
  intros. unfold FenceEntry_decode. get_words (control_header c). by rewrite get_control.
Qed.

Lemma reserved_zero (encoded : bytes) :
  negb (at_ encoded 0 =? 0) || negb (at_ encoded 1 =? 0) || negb (at_ encoded 2 =? 0)
  || negb (at_ encoded 3 =? 0) = false →
  at_ encoded 0 = 0 ∧ at_ encoded 1 = 0 ∧ at_ encoded 2 = 0 ∧ at_ encoded 3 = 0.
Proof. intros H. to_prop. done. Qed.

Lemma entry_codec : exact_codec 32 entry_ok FenceEntry_encode FenceEntry_decode.
Proof.
  apply exact_codec_intro.
  - intros [s t d e] Hok. pose proof Hok as (Ht & Hd & He & _). cbn in Ht, Hd, He.
    rewrite entry_layout, entry_read by (done || apply state_control_u32).
    split_and!; [done| |by apply (entry_of_ok (mkFenceEntry s t d e))].
    apply app_ok; [apply control_header_ok|apply words_ok].
  - intros x b Hl Hb Hm.
    destruct (header_words b 8 3 Hl Hb) as (p & ws & -> & Hp & Hbp & Hn & Hw).
    destruct ws as [|t [|d [|e [|]]]]; try done. decompose_Forall_hyps.
    assert (∃ c, p = control_header c ∧ u32 c) as (c & -> & Hc).
    { unfold FenceEntry_decode in Hm. destruct (_ || _) eqn:Hz; [done|].
      apply reserved_zero in Hz as (?&?&?&?). unfold at_ in *.
      rewrite !app_nth1 in * by lia. by apply control_header_of. }
    rewrite entry_read in Hm by done. split; [by apply (entry_ok_of c t d e)|].
    apply entry_of_inv in Hm as [-> ->]. apply entry_layout.
Qed.

(** The value of a cookie-map slot from its control word and fields. *)
Definition cookie_value_of (control cookie token deadline epoch : Z)
    : option FenceCookieValue :=
  match FenceCookieKey_new cookie token with
  | None => None
  | Some key =>
      match entry_of control token deadline epoch with
      | None => None
      | Some entry => FenceCookieValue_new key entry
      end
  end.

Lemma cookie_value_layout c t s d e :
  FenceCookieValue_encode (mkFenceCookieValue (mkFenceCookieKey c t) (mkFenceEntry s t d e))
  = control_header (state_control s) ++ words [c; t; d; e].
Proof.
  unfold FenceCookieValue_encode. cbn [cv_entry cv_key].
  rewrite entry_layout, get_control by apply state_control_u32. reflexivity.
Qed.

Lemma cookie_value_read ctl c t d e :
  u32 ctl → u64 c → u64 t → u64 d → u64 e →
  FenceCookieValue_decode (control_header ctl ++ words [c; t; d; e])
  = cookie_value_of ctl c t d e.
Proof.
  intros. unfold FenceCookieValue_decode. get_words (control_header ctl).
  rewrite get_control by done.
  change (get_u32 (control_header ctl ++ words [c; t; d; e]) 0) with 0. cbn [negb Z.eqb].
  unfold cookie_value_of. destruct (FenceCookieKey_new c t); [|done].
  change (put_u64 _ 24 e) with (control_header ctl ++ words [t; d; e]). by rewrite entry_read.
Qed.

Lemma to_le_zero n : to_le_bytes n 0 = zeroes n.
Proof. induction n as [|n IH]; [done|]. cbn. by f_equal. Qed.

Lemma from_le_zero l : bytes_ok l → from_le_bytes l = 0 → l = zeroes (length l).
Proof. intros Hl E. rewrite <-(to_from_le l Hl) at 1. rewrite E. apply to_le_zero. Qed.

Lemma cookie_value_of_inv ctl c t d e v :
  cookie_value_of ctl c t d e = Some v →
  FenceCookieKey_new c t = Some (cv_key v) ∧ entry_of ctl t d e = Some (cv_entry v)
  ∧ FenceCookieValue_new (cv_key v) (cv_entry v) = Some v.
Proof.
  unfold cookie_value_of. destruct (FenceCookieKey_new c t) as [k|]; [|done].
  destruct (entry_of ctl t d e) as [x|]; [|done]. intros H. pose proof H as H'.
  unfold FenceCookieValue_new in H'. case_match; simplify_eq. done.
Qed.

Lemma cookie_value_codec :
  exact_codec 40 cookie_value_ok FenceCookieValue_encode FenceCookieValue_decode.
Proof.
  apply exact_codec_intro.
  - intros [[c t] x] (Hk & Hx & Hv). pose proof Hk as (Hc & Ht & Hkn).
    pose proof Hx as (_ & Hd & He & _). cbn [cv_key cv_entry ck_socket_cookie
      ck_durable_fence_token] in *.
    assert (t = fe_durable_fence_token x) as E.
    { unfold FenceCookieValue_new in Hv. case_match eqn:Hq; [|done]. by apply Z.eqb_eq in Hq. }
    destruct x as [s t' d e]; cbn in E, Hd, He; subst t'.
    rewrite cookie_value_layout, cookie_value_read by (done || apply state_control_u32).
    split_and!; [done|apply app_ok; [apply control_header_ok|apply words_ok]|].
    unfold cookie_value_of. rewrite Hkn.
    pose proof (entry_of_ok _ Hx) as E. cbn in E. by rewrite E.
  - intros v b Hl Hb Hm.
    destruct (header_words b 8 4 Hl Hb) as (p & ws & -> & Hp & Hbp & Hn & Hw).
    destruct ws as [|c [|t [|d [|e [|]]]]]; try done. decompose_Forall_hyps.
    assert (∃ c, p = control_header c ∧ u32 c) as (ctl & -> & Hctl).
    { destruct p as [|h0 [|h1 [|h2 [|h3 [|h4 [|h5 [|h6 [|h7 [|]]]]]]]]]; try done.
      unfold FenceCookieValue_decode in Hm. destruct (negb _) eqn:Hz; [done|].
      apply negb_false_iff, Z.eqb_eq in Hz.
      change (from_le_bytes [h0; h1; h2; h3] = 0) in Hz.
      pose proof Hbp as Hbp'. rewrite !bytes_ok_cons in Hbp'.
      apply from_le_zero in Hz; [|rewrite !bytes_ok_cons; repeat split; try apply Hbp'; constructor].
      injection Hz as -> -> -> ->. by apply control_header_of. }
    rewrite cookie_value_read in Hm by done.
    apply cookie_value_of_inv in Hm as (Hk & Hx & Hv).
    pose proof (cookie_key_new_inv _ _ _ Hk) as Ek.
    pose proof (entry_of_inv _ _ _ _ _ Hx) as [Ec Ex].
    destruct v as [k x]. cbn [cv_key cv_entry] in *. split.
    + split; [|split; [by apply (entry_ok_of ctl t d e)|exact Hv]]. rewrite Ek in Hk |- *.
      by split; [|split].
    + rewrite Ek, Ex, Ec. apply cookie_value_layout.
Qed.

(** *** The current token *)

Definition current_of (control token cookie : Z) : option CurrentFenceToken :=
  if (control =? 0) && (token =? 0) && (cookie =? 0) then Some CurrentFenceToken_initial
  else if (control =? CURRENT_LIFECYCLE_OPEN_CONTROL) && (cookie =? 0) then
    lifecycle_open token
  else if control =? CURRENT_LIFECYCLE_OPEN_CONTROL then registered_current token cookie
  else if (control =? CURRENT_RETIREMENT_CLOSED_CONTROL) && (cookie =? 0) then
    retirement_closed token
  else None.

Definition current_control (c : CurrentFenceToken) : Z :=
  if ct_durable_fence_token c =? 0 then 0
  else if ct_retirement_closed c then CURRENT_RETIREMENT_CLOSED_CONTROL
  else CURRENT_LIFECYCLE_OPEN_CONTROL.

Lemma current_control_u32 c : u32 (current_control c).
Proof. unfold u32, current_control. by repeat case_match. Qed.

Lemma current_of_inv control token cookie c :
  current_of control token cookie = Some c →
  control = current_control c ∧ token = ct_durable_fence_token c
  ∧ cookie = ct_registered_socket_cookie c.
Proof.
  unfold current_of, lifecycle_open, registered_current, retirement_closed, current_control.
  intros H. rust_cases; to_prop; subst; try done; naive_solver.
Qed.

Lemma current_of_ok c :
  current_ok c →
  current_of (current_control c) (ct_durable_fence_token c) (ct_registered_socket_cookie c)
  = Some c.
Proof.
  intros (_ & _ & [->|[H|[H|H]]]); [done|..]; destruct c as [t k r]; cbn in H;
    pose proof H as H'; unfold lifecycle_open, registered_current, retirement_closed in H';
    case_match eqn:E; simplify_eq; to_prop;
    unfold current_of, current_control; cbn;
    rewrite (proj2 (Z.eqb_neq t 0)) by done; cbn; try done.
  by rewrite (proj2 (Z.eqb_neq k 0)).
Qed.

Lemma current_ok_of control token cookie c :
  u64 token → u64 cookie → current_of control token cookie = Some c → current_ok c.
Proof.
  intros Ht Hk H. pose proof (current_of_inv _ _ _ _ H) as (_ & E1 & E2). subst.
  split; [done|split; [done|]]. unfold current_of in H. rust_cases; tauto.
Qed.

Lemma current_layout c :
  current_ok c →
  CurrentFenceToken_encode c
  = control_header (current_control c)
    ++ words [ct_durable_fence_token c; ct_registered_socket_cookie c].
Proof.
  intros Hok. unfold CurrentFenceToken_encode, current_control.
  destruct (ct_durable_fence_token c =? 0) eqn:E; [|done].
  assert (c = CurrentFenceToken_initial) as ->; [|done].
  destruct Hok as (_ & _ & [?|[H|[H|H]]]); [done|..];
    unfold lifecycle_open, registered_current, retirement_closed in H; by rewrite E in H.
Qed.

Lemma zero_octets n v :
  0 ≤ v < 256 ^ Z.of_nat n → forallb (λ b, b =? 0) (to_le_bytes n v) = (v =? 0).
Proof.
  intros Hv. destruct (v =? 0) eqn:E.
  - apply Z.eqb_eq in E as ->. rewrite to_le_zero. clear Hv. by induction n.
  - apply not_true_iff_false. intros H. apply Z.eqb_neq in E. apply E.
    rewrite <-(from_to_le n v Hv). clear Hv E. induction (to_le_bytes n v) as [|b l IH]; [done|].
    cbn in H |- *. apply andb_true_iff in H as [->%Z.eqb_eq H]. rewrite IH by done. lia.
Qed.

Lemma current_read c t k :
  u32 c → u64 t → u64 k →
  CurrentFenceToken_decode (control_header c ++ words [t; k]) = current_of c t k.
Proof.
  intros Hc Ht Hk. unfold CurrentFenceToken_decode. get_words (control_header c).
  rewrite get_control by done. unfold current_of.
  replace (forallb (λ b, b =? 0) (control_header c ++ words [t; k]))
    with ((c =? 0) && (t =? 0) && (k =? 0)); [done|].
  unfold control_header, words. rewrite !forallb_app. cbn [fmap list_fmap concat].
  rewrite !forallb_app, !zero_octets; [by rewrite andb_true_r, !andb_assoc|..].
  - unfold u64, U64_MAX in Hk. change (256 ^ Z.of_nat 8) with 18446744073709551616. lia.
  - unfold u64, U64_MAX in Ht. change (256 ^ Z.of_nat 8) with 18446744073709551616. lia.
  - unfold u32 in Hc. change (256 ^ Z.of_nat 4) with 4294967296. lia.
Qed.

Lemma current_codec :
  exact_codec 24 current_ok CurrentFenceToken_encode CurrentFenceToken_decode.
Proof.
  apply exact_codec_intro.
  - intros x Hok. pose proof Hok as (Ht & Hk & _). rewrite current_layout by done.
    rewrite current_read by (done || apply current_control_u32).
    split_and!; [done|apply app_ok; [apply control_header_ok|apply words_ok]|].
    by apply current_of_ok.
  - intros x b Hl Hb Hm.
    destruct (header_words b 8 2 Hl Hb) as (p & ws & -> & Hp & Hbp & Hn & Hw).
    destruct ws as [|t [|k [|]]]; try done. decompose_Forall_hyps.
    assert (∃ c, p = control_header c ∧ u32 c) as (c & -> & Hc).
    { destruct p as [|h0 [|h1 [|h2 [|h3 [|h4 [|h5 [|h6 [|h7 [|]]]]]]]]]; try done.
      unfold CurrentFenceToken_decode in Hm.
      apply control_header_of; [done..| | | |]; cbn;
        (destruct (forallb _ _) eqn:Hz;
         [cbn in Hz; to_prop; done|]; destruct (_ || _) eqn:Hr in Hm; [done|];
         apply reserved_zero in Hr; cbn in Hr; tauto). }
    rewrite current_read in Hm by done. pose proof (current_of_inv _ _ _ _ Hm) as (-> & -> & ->).
    eapply current_ok_of in Hm; [|done..]. split; [done|]. by apply current_layout.
Qed.

(** *** Inspections *)

Definition inspection_header (present : Z) : bytes :=
  magic_header INSPECTION_MAGIC ++ [present; 0].

Definition entry_octets (o : option FenceCookieValue) : bytes :=
  match o with Some v => FenceCookieValue_encode v | None => zeroes 40 end.

Lemma codec_length {A n ok encode decode} (x : A) :
  exact_codec n ok encode decode → ok x →
  length (encode x) = n ∧ bytes_ok (encode x) ∧ decode (encode x) = Some x.
Proof. intros H Hx. by apply H. Qed.

Lemma inspection_layout i :
  inspection_ok i →
  FenceInspection_encode i
  = inspection_header (if fi_entry i then 1 else 0) ++ CurrentFenceToken_encode (fi_current i)
    ++ FenceMutationAuthority_encode (fi_mutation i) ++ entry_octets (fi_entry i) ++ zeroes 40.
Proof.
  intros (Hc & Hm & He). unfold FenceInspection_encode.
  pose proof (codec_length _ current_codec Hc) as [Lc _].
  pose proof (codec_length _ mutation_codec Hm) as [Lm _].
  change (set_ _ 6 _) with (inspection_header (if fi_entry i then 1 else 0)
    ++ zeroes 24 ++ (zeroes 16 ++ zeroes 40 ++ zeroes 40)).
  rewrite copy_at_mid by done.
  rewrite (app_assoc (inspection_header _)), copy_at_mid
    by (rewrite ?length_app, ?Lc, ?Lm; done).
  rewrite <-app_assoc. destruct (fi_entry i) as [v|]; [|done].
  pose proof (codec_length _ cookie_value_codec (He v eq_refl)) as [Lv _].
  rewrite !(app_assoc (inspection_header _)), (app_assoc (_ ++ _)).
  rewrite copy_at_mid by (rewrite ?length_app, ?Lc, ?Lm, ?Lv; done). by rewrite <-!app_assoc.
Qed.

(** The pieces of an inspection. *)
Lemma inspection_pieces h c m e t :
  length h = 8%nat → length c = 24%nat → length m = 16%nat → length e = 40%nat →
  length t = 40%nat →
  copy_from (h ++ c ++ m ++ e ++ t) 8 24 = c
  ∧ copy_from (h ++ c ++ m ++ e ++ t) 32 16 = m
  ∧ copy_from (h ++ c ++ m ++ e ++ t) 48 40 = e
  ∧ copy_from (h ++ c ++ m ++ e ++ t) 88 40 = t.
Proof.
  intros Hh Hc Hm He Ht. split_and!.
  - by apply copy_from_mid.
  - rewrite app_assoc. apply copy_from_mid; rewrite ?length_app; lia.
  - rewrite !app_assoc, <-!(app_assoc _ e). apply copy_from_mid; rewrite ?length_app; lia.
  - rewrite <-(app_nil_r t) at 1. rewrite !app_assoc, <-(app_assoc _ t).
    apply copy_from_mid; rewrite ?length_app; lia.
Qed.

Lemma inspection_encode_decode i :
  inspection_ok i →
  length (FenceInspection_encode i) = 128%nat ∧ bytes_ok (FenceInspection_encode i)
  ∧ FenceInspection_decode (FenceInspection_encode i) = Some i.
Proof.
  intros Hok. pose proof Hok as (Hc & Hm & He). rewrite inspection_layout by done.
  destruct (codec_length _ current_codec Hc) as (Lc & Bc & Dc).
  destruct (codec_length _ mutation_codec Hm) as (Lm & Bm & Dm).
  assert (length (entry_octets (fi_entry i)) = 40%nat ∧ bytes_ok (entry_octets (fi_entry i)))
    as [Le Be].
  { destruct (fi_entry i) as [v|]; [|split; [done|octets]].
    by destruct (codec_length _ cookie_value_codec (He v eq_refl)) as (? & ? & _). }
  split_and!; [by rewrite !length_app, Lc, Lm, Le| |].
  { apply app_ok; [by destruct (fi_entry i); octets|].
    do 3 (apply app_ok; [done|]). octets. }
  unfold FenceInspection_decode.
  destruct (inspection_pieces (inspection_header (if fi_entry i then 1 else 0))
    _ _ _ (zeroes 40) eq_refl Lc Lm Le eq_refl) as (-> & -> & -> & ->).
  rewrite Dc, Dm. unfold inspection_header, INSPECTION_MAGIC.
  rewrite <-(app_assoc (magic_header _)), has_magic_header.
  destruct i as [c m [v|]]; cbn [fi_entry entry_octets] in *; [|reflexivity].
  destruct (codec_length _ cookie_value_codec (He v eq_refl)) as (_ & _ & ->). reflexivity.
Qed.

Lemma inspection_header_inv h l x :
  length h = 8%nat → bytes_ok h → FenceInspection_decode (h ++ l) = Some x →
  h = inspection_header (at_ h 6) ∧ (at_ h 6 = 0 ∨ at_ h 6 = 1).
Proof.
  intros Hl Hb. destruct h as [|h0 [|h1 [|h2 [|h3 [|h4 [|h5 [|h6 [|h7 [|]]]]]]]]]; try done.
  rewrite !bytes_ok_cons in Hb. unfold FenceInspection_decode. cbn [app].
  destruct (_ || _) eqn:Hh; [done|]. apply orb_false_iff in Hh as [Hh H7].
  apply orb_false_iff in Hh as [Hh H6]. apply negb_false_iff in Hh, H7. intros _.
  apply has_magic_inv in Hh; [|tauto..]. apply Z.eqb_eq in H7. apply Z.ltb_ge in H6.
  cbn in H6, H7, Hh |- *. simplify_eq. split; [done|]. unfold u8 in Hb. lia.
Qed.

Lemma inspection_codec :
  exact_codec 128 inspection_ok FenceInspection_encode FenceInspection_decode.
Proof.
  apply exact_codec_intro; [apply inspection_encode_decode|]. intros x b Hl Hb Hd.
  destruct (split_len b 8 120 Hl) as (h & q & -> & Hh & Hq).
  destruct (split_len q 24 96 Hq) as (c & q' & -> & Hc & Hq').
  destruct (split_len q' 16 80 Hq') as (m & q'' & -> & Hm & Hq'').
  destruct (split_len q'' 40 40 Hq'') as (e & t & -> & He & Ht).
  rewrite !bytes_ok_app in Hb. destruct Hb as (Bh & Bc & Bm & Be & Bt).
  destruct (inspection_header_inv _ _ _ Hh Bh Hd) as [Eh H6]. unfold FenceInspection_decode in Hd.
  destruct (inspection_pieces h c m e t Hh Hc Hm He Ht) as (Ec & Em & Ee & Et).
  rewrite Ec, Em, Ee, Et in Hd. destruct (_ || _); [done|].
  assert (at_ (h ++ c ++ m ++ e ++ t) 6 = at_ h 6) as E6 by (unfold at_; by rewrite app_nth1 by lia).
  rewrite E6 in Hd. destruct (CurrentFenceToken_decode c) as [cur|] eqn:Dc; [|done].
  destruct (FenceMutationAuthority_decode m) as [mut|] eqn:Dm; [|done].
  destruct (proj2 (current_codec cur c) (conj Hc (conj Bc Dc))) as [Oc <-].
  destruct (proj2 (mutation_codec mut m) (conj Hm (conj Bm Dm))) as [Om <-].
  destruct (at_ h 6 =? 0) eqn:Ez.
  - destruct (existsb _ e) eqn:Ze; [done|]. destruct (existsb _ t) eqn:Zt; [done|].
    injection Hd as <-. apply Z.eqb_eq in Ez. rewrite Ez in Eh.
    assert (inspection_ok (mkFenceInspection cur mut None)) as Oi by (by split; [|split]).
    split; [done|]. rewrite inspection_layout by done. cbn [fi_entry fi_current fi_mutation].
    rewrite (all_zero _ _ He Ze), (all_zero _ _ Ht Zt). by rewrite Eh.
  - destruct (FenceCookieValue_decode e) as [v|] eqn:De; [|done].
    destruct (existsb _ t) eqn:Zt; [done|]. injection Hd as <-.
    destruct (proj2 (cookie_value_codec v e) (conj He (conj Be De))) as [Ov <-].
    assert (inspection_ok (mkFenceInspection cur mut (Some v))) as Oi.
    { split; [done|split; [done|]]. intros ? [= <-]. done. }
    split; [done|]. rewrite inspection_layout by done. cbn [fi_entry fi_current fi_mutation].
    apply Z.eqb_neq in Ez. destruct H6 as [?|E1]; [done|]. rewrite E1 in Eh.
    rewrite (all_zero _ _ Ht Zt). by rewrite Eh.
Qed.

(** *** Configurations *)

Definition endpoint_family (e : ProtectedEndpoint) : Z :=
  match e with Ipv4 _ _ => FAMILY_IPV4 | Ipv6 _ _ => FAMILY_IPV6 end.

Definition endpoint_octets (e : ProtectedEndpoint) : bytes :=
  match e with Ipv4 a _ => a ++ zeroes 12 | Ipv6 a _ => a end.

Definition config_header (family port capacity : Z) : bytes :=
  magic_header CONFIG_MAGIC ++ [family; 0] ++ u16_to_be_bytes port ++ [0; 0]
  ++ to_le_bytes 4 capacity.

(** The endpoint of the family, address field and port. *)
Definition endpoint_of (family : Z) (address : bytes) (port : Z) : option ProtectedEndpoint :=
  if family =? FAMILY_IPV4 then
    if existsb (λ b, negb (b =? 0)) (drop 4 address) then None
    else endpoint_ipv4 (take 4 address) port
  else if family =? FAMILY_IPV6 then endpoint_ipv6 address port
  else None.

Lemma endpoint_of_inv family address port e :
  length address = 16%nat → endpoint_of family address port = Some e →
  family = endpoint_family e ∧ address = endpoint_octets e ∧ port = endpoint_port e.
Proof.
  intros Hl. unfold endpoint_of. destruct (family =? FAMILY_IPV4) eqn:E4.
  - destruct (existsb _ _) eqn:Ez; [done|]. unfold endpoint_ipv4. case_match; [done|].
    intros [= <-]. apply Z.eqb_eq in E4. split; [done|]. split; [|done]. cbn [endpoint_octets].
    rewrite <-(take_drop 4 address) at 1. f_equal. apply all_zero; [|done].
    rewrite length_drop. lia.
  - destruct (family =? FAMILY_IPV6) eqn:E6; [|done]. unfold endpoint_ipv6.
    case_match; [done|]. intros [= <-]. by apply Z.eqb_eq in E6.
Qed.

Lemma endpoint_of_ok e :
  endpoint_ok e → endpoint_of (endpoint_family e) (endpoint_octets e) (endpoint_port e) = Some e.
Proof.
  destruct e as [a p|a p]; intros (Hl & Hb & Hp & H); [|done].
  unfold endpoint_of; cbn [endpoint_family endpoint_octets endpoint_port].
  rewrite drop_app_length', take_app_length' by done. exact H.
Qed.

Lemma endpoint_ok_of family address port e :
  length address = 16%nat → bytes_ok address → u16 port →
  endpoint_of family address port = Some e → endpoint_ok e.
Proof.
  intros Hl Hb Hp H. pose proof (endpoint_of_inv _ _ _ _ Hl H) as (-> & -> & ->).
  unfold endpoint_of in H.
  destruct e as [a p|a p]; cbn [endpoint_family endpoint_octets endpoint_port] in *; [|done].
  rewrite length_app in Hl. cbn in Hl. assert (length a = 4%nat) as La by lia.
  rewrite drop_app_length', take_app_length' in H by done.
  apply bytes_ok_app in Hb as [Ha _]. done.
Qed.

Lemma config_layout e r c :
  endpoint_ok e →
  FenceConfig_encode (mkFenceConfig e r c)
  = config_header (endpoint_family e) (endpoint_port e) c ++ words [r] ++ endpoint_octets e.
Proof.
  destruct e as [a p|a p]; intros (Hl & _); do 4 (destruct a as [|? a]; [done|]).
  - by destruct a.
  - do 12 (destruct a as [|? a]; [done|]). by destruct a.
Qed.

Lemma config_read f p c r a :
  u16 p → u32 c → u64 r → length a = 16%nat →
  FenceConfig_decode (config_header f p c ++ words [r] ++ a)
  = match endpoint_of f a p with
    | None => None
    | Some e => FenceConfig_new e r c
    end.
Proof.
  intros Hp Hc Hr Ha. unfold FenceConfig_decode.
  replace (get_u64 (config_header f p c ++ words [r] ++ a) 16) with r
    by (symmetry; by apply (get_word (config_header f p c) [r] a 0)).
  change (get_u32 (config_header f p c ++ words [r] ++ a) 12)
    with (from_le_bytes (to_le_bytes 4 c)). rewrite from_to_u32 by done.
  destruct (u16_bytes p Hp) as (p0 & p1 & E & _ & _ & Ep). unfold config_header. rewrite E.
  cbn -[words endpoint_ipv4 endpoint_ipv6 FenceConfig_new FAMILY_IPV4 FAMILY_IPV6
    u16_from_be_bytes to_le_bytes endpoint_of].
  rewrite Ep. do 16 (destruct a as [|? a]; [done|]). destruct a; [|done]. reflexivity.
Qed.

Lemma config_header_inv h l x :
  length h = 16%nat → bytes_ok h → FenceConfig_decode (h ++ l) = Some x →
  ∃ f p c, h = config_header f p c ∧ u16 p ∧ u32 c.
Proof.
  intros Hl Hb. destruct (split_len h 12 4 Hl) as (k & q & -> & Hk & Hq).
  destruct k as [|h0 [|h1 [|h2 [|h3 [|h4 [|h5 [|h6 [|h7 [|h8 [|h9 [|h10 [|h11 [|]]]]]]]]]]]]];
    try done.
  apply bytes_ok_app in Hb as [Hb Hbq]. rewrite !bytes_ok_cons in Hb.
  unfold FenceConfig_decode. cbn [app].
  destruct (_ || _) eqn:Hh; [done|]. apply orb_false_iff in Hh as [Hh H11].
  apply orb_false_iff in Hh as [Hh H10]. apply orb_false_iff in Hh as [Hh H7].
  apply negb_false_iff in Hh, H7, H10, H11. intros _.
  apply has_magic_inv in Hh; [|tauto..]. apply Z.eqb_eq in H7, H10, H11.
  cbn in H7, H10, H11, Hh. simplify_eq.
  exists h6, (u16_from_be_bytes h8 h9), (from_le_bytes q). unfold config_header.
  rewrite u16_to_from, to_from_u32 by (tauto || done). split; [done|].
  split; [|by apply from_le_u32]. destruct Hb as (_&_&_&_&_&_&_&_&H8&H9&_).
  unfold u8, u16, u16_from_be_bytes in *. lia.
Qed.

Lemma endpoint_port_u16 e : endpoint_ok e → u16 (endpoint_port e).
Proof. by destruct e; intros (_ & _ & ? & _). Qed.

Lemma endpoint_octets_ok e :
  endpoint_ok e → length (endpoint_octets e) = 16%nat ∧ bytes_ok (endpoint_octets e).
Proof.
  destruct e as [a p|a p]; intros (Hl & Hb & _); [|done]. cbn [endpoint_octets].
  rewrite length_app, Hl. split; [done|]. apply app_ok; [done|octets].
Qed.

Lemma config_new_inv e r c x :
  FenceConfig_new e r c = Some x → x = mkFenceConfig e r c ∧ c = 4096.
Proof.
  unfold FenceConfig_new. case_match eqn:E; [done|]. intros [= <-]. to_prop. done.
Qed.

Lemma config_codec : exact_codec 40 config_ok FenceConfig_encode FenceConfig_decode.
Proof.
  apply exact_codec_intro.
  - intros [e r c] (He & Hr & Hn). cbn [fc_endpoint fc_root_cgroup_id fc_capacity] in *.
    destruct (endpoint_octets_ok e He) as [Lo Bo]. pose proof (endpoint_port_u16 e He) as Hp.
    destruct (config_new_inv _ _ _ _ Hn) as [_ ->].
    rewrite config_layout, config_read, endpoint_of_ok by (done || (unfold u32; lia)).
    split_and!; [by rewrite !length_app, Lo| |exact Hn].
    apply app_ok; [|apply app_ok; [apply words_ok|done]].
    destruct (u16_bytes _ Hp) as (p0 & p1 & E & ? & ? & _). unfold config_header. rewrite E.
    do 4 (apply app_ok; [by destruct e; octets|]). apply to_le_ok.
  - intros x b Hl Hb Hd. destruct (split_len b 16 24 Hl) as (h & q & -> & Hh & Hq).
    destruct (split_len q 8 16 Hq) as (w & a & -> & Hw & Ha).
    rewrite !bytes_ok_app in Hb. destruct Hb as (Bh & Bw & Ba).
    destruct (words_of w 1 Hw Bw) as (ws & -> & Hn & Hws).
    destruct ws as [|r [|]]; try done. apply Forall_cons in Hws as [Hr _].
    destruct (config_header_inv _ _ _ Hh Bh Hd) as (f & p & c & -> & Hp & Hc).
    rewrite config_read in Hd by done.
    destruct (endpoint_of f a p) as [e|] eqn:Ee; [|done].
    pose proof (endpoint_ok_of _ _ _ _ Ha Ba Hp Ee) as He.
    destruct (config_new_inv _ _ _ _ Hd) as [-> _].
    apply endpoint_of_inv in Ee as (-> & -> & ->); [|done].
    split; [done|]. by apply config_layout.
Qed.

(** ** Summary *)

(** C29. The formats shared by the userspace loader and the kernel programs are exact:
    for configurations, current tokens, the mutation barrier, commands, cookie keys,
    entries, cookie values and inspections, decoding accepts an array of octets exactly
    when it is the encoding of a canonical value, and returns that value. *)
Theorem fence_formats_exact :
  exact_codec 40 config_ok FenceConfig_encode FenceConfig_decode
  ∧ exact_codec 24 current_ok CurrentFenceToken_encode CurrentFenceToken_decode
  ∧ exact_codec 16 mutation_ok FenceMutationAuthority_encode FenceMutationAuthority_decode
  ∧ exact_codec 48 command_ok ControlCommand_encode ControlCommand_decode
  ∧ exact_codec 16 cookie_key_ok FenceCookieKey_encode FenceCookieKey_decode
  ∧ exact_codec 32 entry_ok FenceEntry_encode FenceEntry_decode
  ∧ exact_codec 40 cookie_value_ok FenceCookieValue_encode FenceCookieValue_decode
  ∧ exact_codec 128 inspection_ok FenceInspection_encode FenceInspection_decode.
Proof.
  auto 10 using config_codec, current_codec, mutation_codec, command_codec,
    cookie_key_codec, entry_codec, cookie_value_codec, inspection_codec.
Qed.
