(* ===== verification/FencePacket.v ===== *)
(** The two packet parsers of the egress fence: the reference one
    ([opc-egress-fence-common/src/packet.rs]) over a slice, which panics out of range,
    and the one of the kernel program ([opc-egress-fence-ebpf/src/main.rs]) over loads
    that can fail.  The first is exact for a declarative meaning of a packet's UDP
    source, and the second agrees with it. *)

From S2P Require Import Prelude.
From S2P Require Import FenceAbi.
From S2P Require Import FenceCodec.

Definition IPV4_MIN_HEADER_LEN : Z := 20.
Definition IPV4_PROTOCOL_UDP : Z := 17.
Definition IPV4_AMBIGUOUS_FRAGMENT_MASK : Z := 0xbfff.
Definition IPV6_HEADER_LEN : Z := 40.
Definition IPV6_NEXT_HEADER_HOP_BY_HOP : Z := 0.
Definition IPV6_NEXT_HEADER_TCP : Z := 6.
Definition IPV6_NEXT_HEADER_UDP : Z := 17.
Definition IPV6_NEXT_HEADER_ROUTING : Z := 43.
Definition IPV6_NEXT_HEADER_FRAGMENT : Z := 44.
Definition IPV6_NEXT_HEADER_ESP : Z := 50.
Definition IPV6_NEXT_HEADER_AUTHENTICATION : Z := 51.
Definition IPV6_NEXT_HEADER_ICMPV6 : Z := 58.
Definition IPV6_NEXT_HEADER_NONE : Z := 59.
Definition IPV6_NEXT_HEADER_DESTINATION : Z := 60.
Definition MAX_IPV6_EXTENSION_HEADERS : Z := 4.
Definition UDP_HEADER_LEN : Z := 8.

(** ** The reference parser *)

(** [slice::get]. *)
Definition slice_get (l : bytes) (i : Z) : option Z := l !! Z.to_nat i.

Definition read_u16_be (bytes : bytes) (offset : Z) : option Z :=
  match slice_get bytes offset with
  | None => None
  | Some a =>
      match slice_get bytes (offset + 1) with
      | None => None
      | Some b => Some (u16_from_be_bytes a b)
      end
  end.

Definition compare_port (port : option Z) (protected_port : Z)
    : PacketEndpointDisposition :=
  match port with
  | Some port => if port =? protected_port then Protected else Unrelated
  | None => Indeterminate
  end.

Definition classify_ipv4 (packet : bytes) (endpoint : ProtectedEndpoint) : outcome Empty_set PacketEndpointDisposition :=
  match endpoint with
  | Ipv6 _ _ => Ok Unrelated
  | Ipv4 protected_address protected_port =>
      if len packet <? IPV4_MIN_HEADER_LEN then Ok Indeterminate
      else
      let? version_ihl := idx packet 0 in
      let header_len := Z.land version_ihl 0x0f * 4 in
      if negb (Z.shiftr version_ihl 4 =? 4) || (header_len <? IPV4_MIN_HEADER_LEN)
      then Ok Indeterminate
      else
      let? s0 := idx packet 12 in
      let? s1 := idx packet 13 in
      let? s2 := idx packet 14 in
      let? s3 := idx packet 15 in
      if negb (bool_decide ([s0; s1; s2; s3] = protected_address)) then Ok Unrelated
      else
      match read_u16_be packet 2 with
      | None => Ok Indeterminate
      | Some total_len =>
          if (total_len <? header_len) || (len packet <? total_len) then Ok Indeterminate
          else
          let? protocol := idx packet 9 in
          if negb (protocol =? IPV4_PROTOCOL_UDP) then Ok Unrelated
          else
          match read_u16_be packet 6 with
          | None => Ok Indeterminate
          | Some fragment =>
              if negb (Z.land fragment IPV4_AMBIGUOUS_FRAGMENT_MASK =? 0)
              then Ok Indeterminate
              else if total_len <? saturating_add header_len UDP_HEADER_LEN
              then Ok Indeterminate
              else Ok (compare_port (read_u16_be packet header_len) protected_port)
          end
      end
  end.

(** The loop over extension headers; each turn returns or counts one more header. *)
Fixpoint extension_loop (fuel : nat) (packet : bytes) (packet_end protected_port : Z)
    (next_header cursor extension_count : Z) : outcome Empty_set PacketEndpointDisposition :=
  match fuel with
  | O => Crash
  | S fuel =>
      if next_header =? IPV6_NEXT_HEADER_UDP then
        if packet_end <? saturating_add cursor UDP_HEADER_LEN then Ok Indeterminate
        else Ok (compare_port (read_u16_be packet cursor) protected_port)
      else if (next_header =? IPV6_NEXT_HEADER_TCP)
              || (next_header =? IPV6_NEXT_HEADER_ICMPV6)
              || (next_header =? IPV6_NEXT_HEADER_NONE)
              || (next_header =? IPV6_NEXT_HEADER_ESP)
      then Ok Unrelated
      else if (next_header =? IPV6_NEXT_HEADER_HOP_BY_HOP)
              || (next_header =? IPV6_NEXT_HEADER_ROUTING)
              || (next_header =? IPV6_NEXT_HEADER_DESTINATION)
      then
        if (MAX_IPV6_EXTENSION_HEADERS <=? extension_count)
           || (packet_end <? saturating_add cursor 2)
        then Ok Indeterminate
        else
        let? next_header := idx packet cursor in
        let? units := idx packet (cursor + 1) in
        let header_len := (units + 1) * 8 in
        if (header_len <? 8) || (packet_end <? saturating_add cursor header_len)
        then Ok Indeterminate
        else extension_loop fuel packet packet_end protected_port next_header
               (cursor + header_len) (extension_count + 1)
      else if next_header =? IPV6_NEXT_HEADER_FRAGMENT then
        if (MAX_IPV6_EXTENSION_HEADERS <=? extension_count)
           || (packet_end <? saturating_add cursor 8)
        then Ok Indeterminate
        else
        let? next_header := idx packet cursor in
        match read_u16_be packet (cursor + 2) with
        | None => Ok Indeterminate
        | Some fragment =>
            if negb (fragment =? 0) then Ok Indeterminate
            else extension_loop fuel packet packet_end protected_port next_header
                   (cursor + 8) (extension_count + 1)
        end
      else if next_header =? IPV6_NEXT_HEADER_AUTHENTICATION then
        if (MAX_IPV6_EXTENSION_HEADERS <=? extension_count)
           || (packet_end <? saturating_add cursor 2)
        then Ok Indeterminate
        else
        let? next_header := idx packet cursor in
        let? units := idx packet (cursor + 1) in
        let header_len := (units + 2) * 4 in
        if (header_len <? 8) || (packet_end <? saturating_add cursor header_len)
        then Ok Indeterminate
        else extension_loop fuel packet packet_end protected_port next_header
               (cursor + header_len) (extension_count + 1)
      else Ok Indeterminate
  end.

(** One turn for each of the four extension headers and one for what follows. *)
Definition loop_turns : nat := 5.

Definition classify_ipv6 (packet : bytes) (endpoint : ProtectedEndpoint) : outcome Empty_set PacketEndpointDisposition :=
  match endpoint with
  | Ipv4 _ _ => Ok Unrelated
  | Ipv6 protected_address protected_port =>
      if len packet <? IPV6_HEADER_LEN then Ok Indeterminate
      else
      let? first := idx packet 0 in
      if negb (Z.shiftr first 4 =? 6) then Ok Indeterminate
      else
      let? source := slice packet 8 24 in
      if negb (bool_decide (source = protected_address)) then Ok Unrelated
      else
      match read_u16_be packet 4 with
      | None => Ok Indeterminate
      | Some payload_len =>
          if payload_len =? 0 then Ok Indeterminate
          else
          match checked_add IPV6_HEADER_LEN payload_len with
          | None => Ok Indeterminate
          | Some packet_end =>
              if len packet <? packet_end then Ok Indeterminate
              else
              let? next_header := idx packet 6 in
              extension_loop loop_turns packet packet_end protected_port next_header
                IPV6_HEADER_LEN 0
          end
      end
  end.

Definition classify_l3_udp_source (packet : bytes) (endpoint : ProtectedEndpoint)
    : outcome Empty_set PacketEndpointDisposition :=
  match slice_get packet 0 with
  | None => Ok Indeterminate
  | Some first =>
      if Z.shiftr first 4 =? 4 then classify_ipv4 packet endpoint
      else if Z.shiftr first 4 =? 6 then classify_ipv6 packet endpoint
      else Ok Indeterminate
  end.

(** ** The parser of the kernel program *)

(** A socket buffer: its length, and loads of [n] octets at an offset, which fail when
    they reach past the end ([bpf_skb_load_bytes]). *)
Class SkBuff (Ctx : Type) : Type := {
  ctx_octets : Ctx → bytes;
  ctx_len : Ctx → Z;
  ctx_load : Ctx → Z → Z → option bytes;
}.

Class SkBuffLaws (Ctx : Type) `{SkBuff Ctx} : Prop := {
  ctx_len_octets (c : Ctx) : ctx_len c = len (ctx_octets c);
  ctx_load_within (c : Ctx) o n :
    0 ≤ o → 0 ≤ n → o + n ≤ len (ctx_octets c) →
    ctx_load c o n = Some (take (Z.to_nat n) (drop (Z.to_nat o) (ctx_octets c)));
  ctx_load_beyond (c : Ctx) o n :
    0 ≤ o → 0 ≤ n → len (ctx_octets c) < o + n → ctx_load c o n = None;
}.

Record KernelEndpoint : Type := mkKernelEndpoint {
  ke_family : Z;
  ke_address : bytes;
  ke_port : Z;
}.

Section Kernel.
Context {Ctx : Type} `{SkBuff Ctx}.

Definition load_be_u16 (ctx : Ctx) (offset : Z) : option Z :=
  match ctx_load ctx offset 2 with
  | Some b => Some (u16_from_be_bytes (at_ b 0) (at_ b 1))
  | None => None
  end.

Definition kernel_classify_ipv4 (ctx : Ctx) (offset : Z) (endpoint : KernelEndpoint)
    : PacketEndpointDisposition :=
  if negb (ke_family endpoint =? 4) then Unrelated
  else
  let address := ke_address endpoint in
  let protected_address := [at_ address 0; at_ address 1; at_ address 2; at_ address 3] in
  match ctx_load ctx offset IPV4_MIN_HEADER_LEN with
  | None => Indeterminate
  | Some header =>
      let version_ihl := at_ header 0 in
      let header_len := Z.land version_ihl 0x0f * 4 in
      if negb (Z.shiftr version_ihl 4 =? 4) || (header_len <? IPV4_MIN_HEADER_LEN)
      then Indeterminate
      else if negb (bool_decide ([at_ header 12; at_ header 13; at_ header 14;
                                  at_ header 15] = protected_address))
      then Unrelated
      else
      let total_len := u16_from_be_bytes (at_ header 2) (at_ header 3) in
      match checked_add offset total_len with
      | None => Indeterminate
      | Some packet_end =>
          if (total_len <? header_len) || (ctx_len ctx <? packet_end) then Indeterminate
          else if negb (at_ header 9 =? IPV4_PROTOCOL_UDP) then Unrelated
          else
          let fragment := u16_from_be_bytes (at_ header 6) (at_ header 7) in
          if negb (Z.land fragment IPV4_AMBIGUOUS_FRAGMENT_MASK =? 0) then Indeterminate
          else
          match checked_add offset header_len with
          | None => Indeterminate
          | Some udp_offset =>
              if packet_end <? saturating_add udp_offset UDP_HEADER_LEN
              then Indeterminate
              else compare_port (load_be_u16 ctx udp_offset) (ke_port endpoint)
          end
      end
  end.

Fixpoint kernel_extension_loop (fuel : nat) (ctx : Ctx) (packet_end protected_port : Z)
    (next_header cursor extension_count : Z) : option PacketEndpointDisposition :=
  match fuel with
  | O => None
  | S fuel =>
      if next_header =? IPV6_NEXT_HEADER_UDP then
        if packet_end <? saturating_add cursor UDP_HEADER_LEN then Some Indeterminate
        else Some (compare_port (load_be_u16 ctx cursor) protected_port)
      else if (next_header =? IPV6_NEXT_HEADER_NONE) || (next_header =? IPV6_NEXT_HEADER_ESP)
      then Some Unrelated
      else if (next_header =? IPV6_NEXT_HEADER_TCP)
              || (next_header =? IPV6_NEXT_HEADER_ICMPV6)
      then Some Unrelated
      else if (next_header =? IPV6_NEXT_HEADER_HOP_BY_HOP)
              || (next_header =? IPV6_NEXT_HEADER_ROUTING)
              || (next_header =? IPV6_NEXT_HEADER_DESTINATION)
      then
        if (MAX_IPV6_EXTENSION_HEADERS <=? extension_count)
           || (packet_end <? saturating_add cursor 2)
        then Some Indeterminate
        else
        match ctx_load ctx cursor 2 with
        | None => Some Indeterminate
        | Some prefix =>
            let header_len := (at_ prefix 1 + 1) * 8 in
            if (header_len <? 8) || (packet_end <? saturating_add cursor header_len)
            then Some Indeterminate
            else kernel_extension_loop fuel ctx packet_end protected_port (at_ prefix 0)
                   (cursor + header_len) (extension_count + 1)
        end
      else if next_header =? IPV6_NEXT_HEADER_FRAGMENT then
        if (MAX_IPV6_EXTENSION_HEADERS <=? extension_count)
           || (packet_end <? saturating_add cursor 8)
        then Some Indeterminate
        else
        match ctx_load ctx cursor 4 with
        | None => Some Indeterminate
        | Some fragment =>
            if negb (u16_from_be_bytes (at_ fragment 2) (at_ fragment 3) =? 0)
            then Some Indeterminate
            else kernel_extension_loop fuel ctx packet_end protected_port (at_ fragment 0)
                   (cursor + 8) (extension_count + 1)
        end
      else if next_header =? IPV6_NEXT_HEADER_AUTHENTICATION then
        if (MAX_IPV6_EXTENSION_HEADERS <=? extension_count)
           || (packet_end <? saturating_add cursor 2)
        then Some Indeterminate
        else
        match ctx_load ctx cursor 2 with
        | None => Some Indeterminate
        | Some prefix =>
            let header_len := (at_ prefix 1 + 2) * 4 in
            if (header_len <? 8) || (packet_end <? saturating_add cursor header_len)
            then Some Indeterminate
            else kernel_extension_loop fuel ctx packet_end protected_port (at_ prefix 0)
                   (cursor + header_len) (extension_count + 1)
        end
      else Some Indeterminate
  end.

Definition kernel_classify_ipv6 (ctx : Ctx) (offset : Z) (endpoint : KernelEndpoint)
    : option PacketEndpointDisposition :=
  if negb (ke_family endpoint =? 6) then Some Unrelated
  else
  match ctx_load ctx offset IPV6_HEADER_LEN with
  | None => Some Indeterminate
  | Some header =>
      if negb (Z.shiftr (at_ header 0) 4 =? 6) then Some Indeterminate
      else
      let source := copy_from header 8 16 in
      if negb (bool_decide (source = ke_address endpoint)) then Some Unrelated
      else
      let payload_len := u16_from_be_bytes (at_ header 4) (at_ header 5) in
      if payload_len =? 0 then Some Indeterminate
      else
      let packet_end :=
        match checked_add offset IPV6_HEADER_LEN with
        | Some base => checked_add base payload_len
        | None => None
        end in
      match packet_end with
      | None => Some Indeterminate
      | Some packet_end =>
          if ctx_len ctx <? packet_end then Some Indeterminate
          else kernel_extension_loop loop_turns ctx packet_end (ke_port endpoint)
                 (at_ header 6) (offset + IPV6_HEADER_LEN) 0
      end
  end.

(** [None] when the fuel of the loop is used up. *)
Definition classify_endpoint (ctx : Ctx) (endpoint : KernelEndpoint)
    : option PacketEndpointDisposition :=
  match ctx_load ctx 0 1 with
  | None => Some Indeterminate
  | Some first =>
      let version := Z.shiftr (at_ first 0) 4 in
      if version =? 4 then Some (kernel_classify_ipv4 ctx 0 endpoint)
      else if version =? 6 then kernel_classify_ipv6 ctx 0 endpoint
      else Some Indeterminate
  end.

End Kernel.

(** ** Octets in range *)

Definition byte (p : bytes) (i : Z) : Z := nth (Z.to_nat i) p 0.
Definition half (p : bytes) (i : Z) : Z := u16_from_be_bytes (byte p i) (byte p (i + 1)).

Lemma byte_u8 p i : bytes_ok p → u8 (byte p i).
Proof.
  intros Hp. unfold byte. destruct (nth_in_or_default (Z.to_nat i) p 0) as [Hi| ->].
  - by eapply Forall_forall, list_elem_of_In, Hi.
  - unfold u8. lia.
Qed.

Lemma half_u16 p i : bytes_ok p → u16 (half p i).
Proof.
  intros Hp. pose proof (byte_u8 p i Hp). pose proof (byte_u8 p (i + 1) Hp).
  unfold u8, u16, half, u16_from_be_bytes in *. lia.
Qed.

Lemma get_byte p i : 0 ≤ i < len p → slice_get p i = Some (byte p i).
Proof.
  intros Hi. unfold slice_get, byte, len in *.
  rewrite nth_lookup. destruct (lookup_lt_is_Some_2 p (Z.to_nat i)) as [x ->]; [lia|done].
Qed.

Lemma idx_byte {E} p i : 0 ≤ i < len p → idx (E := E) p i = Ok (byte p i).
Proof.
  intros Hi. unfold idx. rewrite (proj2 (Z.ltb_ge i 0)) by lia.
  pose proof (get_byte p i Hi) as H. unfold slice_get in H. by rewrite H.
Qed.

Lemma read_half p i : 0 ≤ i → i + 1 < len p → read_u16_be p i = Some (half p i).
Proof. intros ? ?. unfold read_u16_be. by rewrite !get_byte by lia. Qed.

Lemma copy_slice {E} (p h : bytes) :
  24 ≤ len p → (∀ k : nat, (8 ≤ k < 24)%nat → at_ h k = byte p (Z.of_nat k)) →
  slice (E := E) p 8 24 = Ok (copy_from h 8 16).
Proof.
  intros Hl Hh. unfold slice. rewrite (proj2 (Z.leb_le 24 _)) by lia. cbn [andb Z.leb Z.compare].
  f_equal. change (Z.to_nat (24 - 8)) with 16%nat. change (Z.to_nat 8) with 8%nat.
  unfold copy_from, len in *. apply list_eq_same_length with 16%nat.
  - by rewrite length_fmap, length_seq.
  - rewrite length_take, length_drop. lia.
  - intros i x y Hi. rewrite list_lookup_fmap, lookup_take_lt, lookup_drop, lookup_seq_lt by lia.
    cbn. intros Hx [= <-]. rewrite Hh by lia. unfold byte. rewrite Nat2Z.id, nth_lookup.
    by rewrite Hx.
Qed.

Lemma saturating_small a b : a + b ≤ 100000 → saturating_add a b = a + b.
Proof. unfold saturating_add, U64_MAX. lia. Qed.

(** Compute the constant offsets of the goal. *)
Ltac offsets :=
  repeat match goal with
  | |- context [0 + Z.of_nat ?n] =>
      let z := eval vm_compute in (0 + Z.of_nat n) in change (0 + Z.of_nat n) with z
  end.

(** The endpoint as the kernel program holds it. *)
Definition kernel_endpoint (e : ProtectedEndpoint) : KernelEndpoint :=
  mkKernelEndpoint (endpoint_family e) (endpoint_octets e) (endpoint_port e).

Section Loads.
Context {Ctx : Type} `{SkBuffLaws Ctx}.

Lemma load_byte (c : Ctx) o n :
  0 ≤ o → 0 ≤ n → o + n ≤ len (ctx_octets c) →
  ∃ b, ctx_load c o n = Some b ∧ length b = Z.to_nat n
       ∧ ∀ k : nat, Z.of_nat k < n → at_ b k = byte (ctx_octets c) (o + Z.of_nat k).
Proof.
  intros Ho Hn Hl. rewrite ctx_load_within by done. eexists; split; [done|]. unfold len in Hl.
  split; [rewrite length_take, length_drop; lia|]. intros k Hk. unfold at_, byte.
  rewrite !nth_lookup, lookup_take_lt, lookup_drop by lia. do 2 f_equal. lia.
Qed.

Lemma load_half (c : Ctx) o :
  0 ≤ o → o + 2 ≤ len (ctx_octets c) → load_be_u16 c o = Some (half (ctx_octets c) o).
Proof.
  intros Ho Hl. unfold load_be_u16, half. destruct (load_byte c o 2) as (b & -> & _ & Hb); [lia..|].
  rewrite !Hb by done. do 2 f_equal; f_equal; lia.
Qed.

(** ** The kernel parser agrees with the reference *)

Lemma loop_agree fuel (c : Ctx) pend port nh cursor count :
  bytes_ok (ctx_octets c) → 0 ≤ cursor ≤ pend → pend ≤ len (ctx_octets c) → pend ≤ 70000 →
  extension_loop fuel (ctx_octets c) pend port nh cursor count
  = match kernel_extension_loop fuel c pend port nh cursor count with
    | Some d => Ok d
    | None => Crash
    end.
Proof.
  intros Hok. revert nh cursor count.
  induction fuel as [|fuel IH]; intros nh cursor count Hc Hl Hs; [done|].
  cbn [extension_loop kernel_extension_loop].
  destruct (nh =? IPV6_NEXT_HEADER_UDP).
  { rewrite saturating_small by (unfold UDP_HEADER_LEN; lia). case_match eqn:E; [done|].
    apply Z.ltb_ge in E. unfold UDP_HEADER_LEN in E.
    by rewrite load_half, read_half by lia. }
  rewrite <-orb_assoc, (orb_comm (_ || _)%bool).
  destruct ((nh =? IPV6_NEXT_HEADER_NONE) || (nh =? IPV6_NEXT_HEADER_ESP)); [done|].
  cbn [orb]. destruct ((nh =? IPV6_NEXT_HEADER_TCP) || (nh =? IPV6_NEXT_HEADER_ICMPV6)); [done|].
  pose proof (byte_u8 (ctx_octets c) (cursor + 1) Hok) as Hu. unfold u8 in Hu.
  rewrite !(saturating_small cursor 2), !(saturating_small cursor 8) by lia.
  destruct (_ || _ || _).
  - case_match eqn:E; [done|]. to_prop.
    rewrite !idx_byte by lia. destruct (load_byte c cursor 2) as (b & -> & _ & Hb); [lia..|].
    rewrite !Hb by done. change (Z.of_nat 0) with 0. change (Z.of_nat 1) with 1.
    rewrite Z.add_0_r. rewrite saturating_small by lia.
    destruct (_ || _) eqn:E2; [done|]. to_prop. apply IH; lia.
  - destruct (nh =? IPV6_NEXT_HEADER_FRAGMENT).
    + case_match eqn:E; [done|]. to_prop.
      rewrite !idx_byte, read_half by lia.
      destruct (load_byte c cursor 4) as (b & -> & _ & Hb); [lia..|].
      rewrite !Hb by done. unfold half. rewrite <-Z.add_assoc.
      change (Z.of_nat 0) with 0. rewrite Z.add_0_r.
      change (Z.of_nat 2) with 2. change (Z.of_nat 3) with (2 + 1).
      destruct (negb _); [done|]. apply IH; lia.
    + destruct (nh =? IPV6_NEXT_HEADER_AUTHENTICATION); [|done].
      case_match eqn:E; [done|]. to_prop.
      rewrite !idx_byte by lia. destruct (load_byte c cursor 2) as (b & -> & _ & Hb); [lia..|].
      rewrite !Hb by done. change (Z.of_nat 0) with 0. change (Z.of_nat 1) with 1.
      rewrite Z.add_0_r. rewrite saturating_small by lia.
      destruct (_ || _) eqn:E2; [done|]. to_prop. apply IH; lia.
Qed.

Lemma ipv4_agree (c : Ctx) e :
  bytes_ok (ctx_octets c) → endpoint_ok e →
  classify_ipv4 (ctx_octets c) e = Ok (kernel_classify_ipv4 c 0 (kernel_endpoint e)).
Proof.
  intros Hok He. unfold classify_ipv4, kernel_classify_ipv4.
  destruct e as [a p|a p]; [|done]. cbn [kernel_endpoint ke_family ke_address ke_port
    endpoint_family endpoint_octets endpoint_port].
  destruct He as (Ha & _). destruct a as [|a0 [|a1 [|a2 [|a3 [|]]]]]; try done.
  cbn [negb Z.eqb FAMILY_IPV4 Pos.eqb].
  destruct (len (ctx_octets c) <? IPV4_MIN_HEADER_LEN) eqn:E20.
  { apply Z.ltb_lt in E20. by rewrite ctx_load_beyond. }
  apply Z.ltb_ge in E20. destruct (load_byte c 0 IPV4_MIN_HEADER_LEN) as (h & -> & _ & Hh);
    [done..|]. unfold IPV4_MIN_HEADER_LEN in *.
  rewrite !Hh by done. rewrite !idx_byte by lia. rewrite !read_half by lia.
  offsets. change (half (ctx_octets c) 2)
    with (u16_from_be_bytes (byte (ctx_octets c) 2) (byte (ctx_octets c) 3)).
  change (half (ctx_octets c) 6)
    with (u16_from_be_bytes (byte (ctx_octets c) 6) (byte (ctx_octets c) 7)).
  change [at_ _ 0; at_ _ 1; at_ _ 2; at_ _ 3] with [a0; a1; a2; a3].
  pose proof (half_u16 (ctx_octets c) 2 Hok) as Ht. unfold half, u16 in Ht.
  change (2 + 1) with 3 in Ht.
  destruct (_ || _) eqn:Ev; [done|]. to_prop. case_bool_decide; cbn [negb]; [|done].
  assert (Z.land (byte (ctx_octets c) 0) 15 * 4 ≤ 60) as Hland.
  { pose proof (Z.land_nonneg (byte (ctx_octets c) 0) 15).
    change 15 with (Z.ones 4). rewrite Z.land_ones by done.
    pose proof (Z.mod_pos_bound (byte (ctx_octets c) 0) (2 ^ 4)). lia. }
  rewrite !checked_add_ok by (unfold USIZE_MAX; lia). rewrite !Z.add_0_l, ctx_len_octets.
  destruct (_ || _) eqn:El; [done|]. to_prop.
  destruct (negb (byte _ 9 =? _)); [done|].
  destruct (negb (Z.land _ IPV4_AMBIGUOUS_FRAGMENT_MASK =? 0)); [done|].
  rewrite saturating_small by (unfold UDP_HEADER_LEN; lia).
  destruct (_ <? _) eqn:Eu; [done|]. apply Z.ltb_ge in Eu. unfold UDP_HEADER_LEN in *.
  rewrite read_half, load_half by lia. done.
Qed.

Lemma ipv6_agree (c : Ctx) e :
  bytes_ok (ctx_octets c) → endpoint_ok e →
  classify_ipv6 (ctx_octets c) e
  = match kernel_classify_ipv6 c 0 (kernel_endpoint e) with
    | Some d => Ok d
    | None => Crash
    end.
Proof.
  intros Hok He. unfold classify_ipv6, kernel_classify_ipv6.
  destruct e as [a p|a p]; [done|]. cbn [kernel_endpoint ke_family ke_address ke_port
    endpoint_family endpoint_octets endpoint_port negb Z.eqb FAMILY_IPV6 Pos.eqb].
  destruct (len (ctx_octets c) <? IPV6_HEADER_LEN) eqn:E40.
  { apply Z.ltb_lt in E40. by rewrite ctx_load_beyond. }
  apply Z.ltb_ge in E40. destruct (load_byte c 0 IPV6_HEADER_LEN) as (h & -> & Hl & Hh);
    [done..|]. unfold IPV6_HEADER_LEN in *.
  assert (slice (E := Empty_set) (ctx_octets c) 8 24 = Ok (copy_from h 8 16)) as ->.
  { apply copy_slice; [lia|]. intros k Hk. rewrite Hh by lia. f_equal. }
  rewrite !Hh by done. rewrite !idx_byte by lia. rewrite !read_half by lia. offsets.
  change (half (ctx_octets c) 4)
    with (u16_from_be_bytes (byte (ctx_octets c) 4) (byte (ctx_octets c) 5)).
  pose proof (half_u16 (ctx_octets c) 4 Hok) as Ht. unfold half, u16 in Ht.
  change (4 + 1) with 5 in Ht.
  destruct (negb _); [done|]. destruct (negb _); [done|]. destruct (_ =? 0); [done|].
  rewrite (checked_add_ok 0) by done. rewrite Z.add_0_l.
  rewrite !checked_add_ok by (unfold USIZE_MAX; lia). rewrite ctx_len_octets.
  destruct (_ <? _) eqn:El; [done|]. apply Z.ltb_ge in El. apply loop_agree; (done || lia).
Qed.

Lemma endpoint_agree (c : Ctx) e :
  bytes_ok (ctx_octets c) → endpoint_ok e →
  classify_l3_udp_source (ctx_octets c) e
  = match classify_endpoint c (kernel_endpoint e) with
    | Some d => Ok d
    | None => Crash
    end.
Proof.
  intros Hok He. unfold classify_l3_udp_source, classify_endpoint.
  destruct (decide (len (ctx_octets c) < 1)) as [Hs|Hs].
  - rewrite ctx_load_beyond by lia. pose proof (len_nonneg (ctx_octets c)).
    rewrite (len_0_inv (ctx_octets c)) by lia. done.
  - rewrite get_byte by lia. destruct (load_byte c 0 1) as (h & -> & _ & Hh); [lia..|].
    rewrite Hh by done. offsets.
    destruct (_ =? 4); [by apply ipv4_agree|]. destruct (_ =? 6); [by apply ipv6_agree|done].
Qed.

End Loads.

(** ** What a packet's UDP source is *)

Definition options_header (nh : Z) : Prop :=
  nh = IPV6_NEXT_HEADER_HOP_BY_HOP ∨ nh = IPV6_NEXT_HEADER_ROUTING
  ∨ nh = IPV6_NEXT_HEADER_DESTINATION.

(** From header type [nh] at [c], a chain of [n] extension headers within [pend] leads to
    a UDP header at [o]: hop-by-hop, routing and destination headers, atomic fragments
    (RFC 6946), and authentication headers. *)
Inductive udp_at (p : bytes) (pend : Z) : nat → Z → Z → Z → Prop :=
  | udp_here c : c + UDP_HEADER_LEN ≤ pend → udp_at p pend 0 IPV6_NEXT_HEADER_UDP c c
  | udp_options n nh c o :
      options_header nh → c + (byte p (c + 1) + 1) * 8 ≤ pend →
      udp_at p pend n (byte p c) (c + (byte p (c + 1) + 1) * 8) o →
      udp_at p pend (S n) nh c o
  | udp_atomic n c o :
      c + 8 ≤ pend → half p (c + 2) = 0 → udp_at p pend n (byte p c) (c + 8) o →
      udp_at p pend (S n) IPV6_NEXT_HEADER_FRAGMENT c o
  | udp_authentication n c o :
      c + (byte p (c + 1) + 2) * 4 ≤ pend →
      udp_at p pend n (byte p c) (c + (byte p (c + 1) + 2) * 4) o →
      udp_at p pend (S n) IPV6_NEXT_HEADER_AUTHENTICATION c o.

(** The source address and port of a complete, unfragmented UDP packet with [n]
    extension headers. *)
Inductive udp_source (p : bytes) : nat → bytes → Z → Prop :=
  | source_ipv4 :
      IPV4_MIN_HEADER_LEN ≤ len p → Z.shiftr (byte p 0) 4 = 4 →
      IPV4_MIN_HEADER_LEN ≤ Z.land (byte p 0) 0x0f * 4 →
      Z.land (byte p 0) 0x0f * 4 + UDP_HEADER_LEN ≤ half p 2 → half p 2 ≤ len p →
      byte p 9 = IPV4_PROTOCOL_UDP →
      Z.land (half p 6) IPV4_AMBIGUOUS_FRAGMENT_MASK = 0 →
      udp_source p 0 [byte p 12; byte p 13; byte p 14; byte p 15]
        (half p (Z.land (byte p 0) 0x0f * 4))
  | source_ipv6 n o :
      IPV6_HEADER_LEN ≤ len p → Z.shiftr (byte p 0) 4 = 6 → half p 4 ≠ 0 →
      IPV6_HEADER_LEN + half p 4 ≤ len p →
      udp_at p (IPV6_HEADER_LEN + half p 4) n (byte p 6) IPV6_HEADER_LEN o →
      udp_source p n (copy_from p 8 16) (half p o).

Definition endpoint_address (e : ProtectedEndpoint) : bytes :=
  match e with Ipv4 a _ | Ipv6 a _ => a end.

(** What the loop must answer from a position, [count] extension headers in. *)
Definition loop_exact (p : bytes) (pend port nh c count : Z)
    (d : PacketEndpointDisposition) : Prop :=
  (∀ n o, udp_at p pend n nh c o → count + Z.of_nat n ≤ MAX_IPV6_EXTENSION_HEADERS →
     d = if half p o =? port then Protected else Unrelated)
  ∧ (d = Protected → ∃ n o, count + Z.of_nat n ≤ MAX_IPV6_EXTENSION_HEADERS
       ∧ udp_at p pend n nh c o ∧ half p o = port)
  ∧ (d = Unrelated → ∀ n o, udp_at p pend n nh c o → half p o ≠ port).

(** Header types by value. *)
Ltac header_types :=
  unfold options_header, IPV6_NEXT_HEADER_HOP_BY_HOP, IPV6_NEXT_HEADER_TCP,
    IPV6_NEXT_HEADER_UDP, IPV6_NEXT_HEADER_ROUTING, IPV6_NEXT_HEADER_FRAGMENT,
    IPV6_NEXT_HEADER_ESP, IPV6_NEXT_HEADER_AUTHENTICATION, IPV6_NEXT_HEADER_ICMPV6,
    IPV6_NEXT_HEADER_NONE, IPV6_NEXT_HEADER_DESTINATION in *.

Lemma udp_at_count p pend n nh c o :
  udp_at p pend n nh c o → nh ≠ IPV6_NEXT_HEADER_UDP → (1 ≤ n)%nat.
Proof. destruct 1; intros; [done|lia..]. Qed.

(** No chain continues from here. *)
Lemma loop_exact_none p pend port nh c count d :
  (∀ n o, ¬ udp_at p pend n nh c o) → d ≠ Protected → loop_exact p pend port nh c count d.
Proof. intros Hn Hd. split_and!; [|done|]; intros; exfalso; naive_solver. Qed.

(** Too many headers already. *)
Lemma loop_exact_limit p pend port nh c count :
  nh ≠ IPV6_NEXT_HEADER_UDP → MAX_IPV6_EXTENSION_HEADERS ≤ count →
  loop_exact p pend port nh c count Indeterminate.
Proof.
  intros Hn Hc. split_and!; [|done..]. intros n o Ho Hl. apply udp_at_count in Ho; [|done].
  exfalso. lia.
Qed.

(** One more header, after which the loop is exact. *)
Lemma loop_exact_step p pend port nh c count nh' c' d :
  (∀ n o, udp_at p pend n nh c o ↔ ∃ m, n = S m ∧ udp_at p pend m nh' c' o) →
  loop_exact p pend port nh' c' (count + 1) d → loop_exact p pend port nh c count d.
Proof.
  intros Hiff (H1 & H2 & H3). split_and!.
  - intros n o (m & -> & Ho)%Hiff Hl. apply (H1 m o Ho). lia.
  - intros Hd. destruct (H2 Hd) as (m & o & Hl & Ho & E). exists (S m), o.
    split_and!; [lia|apply Hiff; eauto|done].
  - intros Hd n o (m & -> & Ho)%Hiff. eauto.
Qed.

Lemma udp_at_options p pend nh c n o :
  options_header nh →
  udp_at p pend n nh c o ↔
  c + (byte p (c + 1) + 1) * 8 ≤ pend
  ∧ ∃ m, n = S m ∧ udp_at p pend m (byte p c) (c + (byte p (c + 1) + 1) * 8) o.
Proof.
  intros Hn. split.
  - inversion 1; subst; try (by eauto); header_types; lia.
  - intros [Hl (m & -> & Ho)]. by apply udp_options.
Qed.

Lemma udp_at_atomic p pend c n o :
  udp_at p pend n IPV6_NEXT_HEADER_FRAGMENT c o ↔
  (c + 8 ≤ pend ∧ half p (c + 2) = 0)
  ∧ ∃ m, n = S m ∧ udp_at p pend m (byte p c) (c + 8) o.
Proof.
  split.
  - inversion 1; subst; try (by eauto); header_types; lia.
  - intros [[Hl Hf] (m & -> & Ho)]. by apply udp_atomic.
Qed.

Lemma udp_at_authentication p pend c n o :
  udp_at p pend n IPV6_NEXT_HEADER_AUTHENTICATION c o ↔
  c + (byte p (c + 1) + 2) * 4 ≤ pend
  ∧ ∃ m, n = S m ∧ udp_at p pend m (byte p c) (c + (byte p (c + 1) + 2) * 4) o.
Proof.
  split.
  - inversion 1; subst; try (by eauto); header_types; lia.
  - intros [Hl (m & -> & Ho)]. by apply udp_authentication.
Qed.

Lemma udp_at_other p pend nh c n o :
  nh ≠ IPV6_NEXT_HEADER_UDP → ¬ options_header nh → nh ≠ IPV6_NEXT_HEADER_FRAGMENT →
  nh ≠ IPV6_NEXT_HEADER_AUTHENTICATION → ¬ udp_at p pend n nh c o.
Proof. intros H1 H2 H3 H4. by destruct 1. Qed.

Lemma loop_exact_udp p pend port c count :
  0 ≤ c → pend ≤ len p → 0 ≤ count ≤ MAX_IPV6_EXTENSION_HEADERS →
  c + UDP_HEADER_LEN ≤ pend →
  loop_exact p pend port IPV6_NEXT_HEADER_UDP c count
    (compare_port (read_u16_be p c) port).
Proof.
  intros Hc Hp Hn Hl. unfold UDP_HEADER_LEN in Hl. rewrite read_half by lia. cbn [compare_port].
  assert (∀ n o, udp_at p pend n IPV6_NEXT_HEADER_UDP c o → o = c) as Ho.
  { inversion 1; subst; [done|header_types; lia]. }
  split_and!.
  - intros n o ->%Ho _. done.
  - intros Hd. exists 0%nat, c. case_match eqn:E; [|done]. apply Z.eqb_eq in E.
    split_and!; [lia|by constructor|done].
  - intros Hd n o ->%Ho. case_match eqn:E; [done|]. by apply Z.eqb_neq in E.
Qed.

(** A header whose length [size] gives from its second octet. *)
Lemma loop_sized p pend port nh c count (size : Z → Z) k :
  bytes_ok p → 0 ≤ c ≤ pend → pend ≤ len p → pend ≤ 70000 →
  (∀ u, u8 u → 8 ≤ size u ≤ 3000) → nh ≠ IPV6_NEXT_HEADER_UDP →
  (∀ n o, udp_at p pend n nh c o ↔ c + size (byte p (c + 1)) ≤ pend
     ∧ ∃ m, n = S m ∧ udp_at p pend m (byte p c) (c + size (byte p (c + 1))) o) →
  (count < MAX_IPV6_EXTENSION_HEADERS → c + size (byte p (c + 1)) ≤ pend →
     ∃ d, k (byte p c) (c + size (byte p (c + 1))) = Ok d
          ∧ loop_exact p pend port (byte p c) (c + size (byte p (c + 1))) (count + 1) d) →
  ∃ d,
    (if (MAX_IPV6_EXTENSION_HEADERS <=? count) || (pend <? saturating_add c 2)
     then Ok Indeterminate
     else
     let? next := idx p c in
     let? units := idx p (c + 1) in
     if (size units <? 8) || (pend <? saturating_add c (size units)) then Ok Indeterminate
     else k next (c + size units)) = Ok (E := Empty_set) d
    ∧ loop_exact p pend port nh c count d.
Proof.
  intros Hok Hc Hl Hs Hsize Hn Hiff Hk. pose proof (Hsize _ (byte_u8 p (c + 1) Hok)) as Hu.
  rewrite (saturating_small c 2) by lia. destruct (_ || _) eqn:E.
  - eexists; split; [done|]. to_prop. destruct E as [E|E]; to_prop.
    + by apply loop_exact_limit.
    + apply loop_exact_none; [|done]. intros n o (? & _)%Hiff. lia.
  - to_prop. rewrite !idx_byte by lia. rewrite saturating_small by lia.
    destruct (_ || _) eqn:E2; to_prop.
    + eexists; split; [done|]. apply loop_exact_none; [|done]. intros n o (? & _)%Hiff.
      destruct E2; to_prop; lia.
    + destruct Hk as (d & -> & Hd); [lia..|]. exists d; split; [done|].
      eapply loop_exact_step; [|exact Hd]. intros n o. rewrite Hiff. naive_solver lia.
Qed.

(** A fragment header. *)
Lemma loop_fragment p pend port c count k :
  0 ≤ c ≤ pend → pend ≤ len p → pend ≤ 70000 →
  (count < MAX_IPV6_EXTENSION_HEADERS → c + 8 ≤ pend →
     ∃ d, k (byte p c) (c + 8) = Ok d
          ∧ loop_exact p pend port (byte p c) (c + 8) (count + 1) d) →
  ∃ d,
    (if (MAX_IPV6_EXTENSION_HEADERS <=? count) || (pend <? saturating_add c 8)
     then Ok Indeterminate
     else
     let? next := idx p c in
     match read_u16_be p (c + 2) with
     | None => Ok Indeterminate
     | Some fragment =>
         if negb (fragment =? 0) then Ok Indeterminate else k next (c + 8)
     end) = Ok (E := Empty_set) d
    ∧ loop_exact p pend port IPV6_NEXT_HEADER_FRAGMENT c count d.
Proof.
  intros Hc Hl Hs Hk. rewrite (saturating_small c 8) by lia. destruct (_ || _) eqn:E.
  - eexists; split; [done|]. to_prop. destruct E as [E|E]; to_prop.
    + by apply loop_exact_limit.
    + apply loop_exact_none; [|done]. intros n o ([? _] & _)%udp_at_atomic. lia.
  - to_prop. rewrite idx_byte, read_half by lia. destruct (negb _) eqn:Ef; to_prop.
    + eexists; split; [done|]. apply loop_exact_none; [|done].
      intros n o ([_ ?] & _)%udp_at_atomic. done.
    + destruct Hk as (d & -> & Hd); [lia..|]. exists d; split; [done|].
      eapply loop_exact_step; [|exact Hd]. intros n o. rewrite udp_at_atomic. naive_solver lia.
Qed.

Lemma loop_spec fuel p pend port nh c count :
  bytes_ok p → 0 ≤ c ≤ pend → pend ≤ len p → pend ≤ 70000 →
  0 ≤ count ≤ MAX_IPV6_EXTENSION_HEADERS → Z.of_nat fuel = 5 - count →
  ∃ d, extension_loop fuel p pend port nh c count = Ok d
       ∧ loop_exact p pend port nh c count d.
Proof.
  intros Hok. unfold MAX_IPV6_EXTENSION_HEADERS. revert nh c count.
  induction fuel as [|fuel IH]; intros nh c count Hc Hl Hs Hn Hf; [lia|].
  cbn [extension_loop]. destruct (nh =? IPV6_NEXT_HEADER_UDP) eqn:Eudp.
  { apply Z.eqb_eq in Eudp as ->. rewrite saturating_small by (unfold UDP_HEADER_LEN; lia).
    case_match eqn:E; (eexists; split; [done|]).
    - apply Z.ltb_lt in E. apply loop_exact_none; [|done]. intros n o.
      inversion 1; subst; [lia|header_types; lia].
    - apply Z.ltb_ge in E. apply loop_exact_udp; unfold MAX_IPV6_EXTENSION_HEADERS; lia. }
  apply Z.eqb_neq in Eudp. destruct (_ || _ || _ || _) eqn:Eterm.
  { eexists; split; [done|]. apply loop_exact_none; [|done]. intros n o.
    to_prop. apply udp_at_other; header_types; lia. }
  clear Eterm. destruct (_ || _ || _) eqn:Eopt.
  { assert (options_header nh) as Ho by (to_prop; header_types; lia).
    apply (loop_sized p pend port nh c count (λ u, (u + 1) * 8)
      (λ next cur, extension_loop fuel p pend port next cur (count + 1))); try done.
    - unfold u8; lia.
    - intros n o. by apply udp_at_options.
    - unfold MAX_IPV6_EXTENSION_HEADERS. intros ? ?. pose proof (byte_u8 p (c + 1) Hok) as Hu.
      unfold u8 in Hu. apply IH; lia. }
  to_prop. destruct (nh =? IPV6_NEXT_HEADER_FRAGMENT) eqn:Efrag.
  { apply Z.eqb_eq in Efrag as ->. apply (loop_fragment p pend port c count
      (λ next cur, extension_loop fuel p pend port next cur (count + 1))); try done.
    unfold MAX_IPV6_EXTENSION_HEADERS. intros ? ?. apply IH; lia. }
  apply Z.eqb_neq in Efrag. destruct (nh =? IPV6_NEXT_HEADER_AUTHENTICATION) eqn:Eah.
  { apply Z.eqb_eq in Eah as ->. apply (loop_sized p pend port _ c count (λ u, (u + 2) * 4)
      (λ next cur, extension_loop fuel p pend port next cur (count + 1))); try done.
    - unfold u8; lia.
    - intros n o. apply udp_at_authentication.
    - unfold MAX_IPV6_EXTENSION_HEADERS. intros ? ?. pose proof (byte_u8 p (c + 1) Hok) as Hu.
      unfold u8 in Hu. apply IH; lia. }
  apply Z.eqb_neq in Eah. eexists; split; [done|]. apply loop_exact_none; [|done]. intros n o.
  apply udp_at_other; header_types; lia.
Qed.

(** ** The parsers are exact *)

(** What a parser must answer about a packet: [Protected] or [Unrelated] for every UDP
    packet with at most four extension headers, by its source; [Protected] for no other;
    and [Unrelated] never for the endpoint's own. *)
Definition source_exact (p : bytes) (e : ProtectedEndpoint) (d : PacketEndpointDisposition)
    : Prop :=
  (∀ n a q, Z.of_nat n ≤ MAX_IPV6_EXTENSION_HEADERS → udp_source p n a q →
     d = if bool_decide (a = endpoint_address e ∧ q = endpoint_port e)
         then Protected else Unrelated)
  ∧ (d = Protected → ∃ n, Z.of_nat n ≤ MAX_IPV6_EXTENSION_HEADERS
       ∧ udp_source p n (endpoint_address e) (endpoint_port e))
  ∧ (d = Unrelated → ∀ n, ¬ udp_source p n (endpoint_address e) (endpoint_port e)).

(** The packet has no UDP source. *)
Lemma source_exact_none p e d :
  (∀ n a q, ¬ udp_source p n a q) → d ≠ Protected → source_exact p e d.
Proof.
  intros Hn Hd. split_and!; [|done|].
  - intros n a q _ Hs. by destruct (Hn _ _ _ Hs).
  - intros _ n Hs. by destruct (Hn _ _ _ Hs).
Qed.

(** Its UDP source is not the endpoint's. *)
Lemma source_exact_other p e :
  (∀ n a q, udp_source p n a q → a ≠ endpoint_address e) → source_exact p e Unrelated.
Proof.
  intros Hn. split_and!; [|done|].
  - intros n a q _ Hs. rewrite bool_decide_false; [done|]. naive_solver.
  - intros _ n Hs. naive_solver.
Qed.

(** Its UDP source has the endpoint's address and the port [q]. *)
Lemma source_exact_port p e n q :
  Z.of_nat n ≤ MAX_IPV6_EXTENSION_HEADERS → udp_source p n (endpoint_address e) q →
  (∀ n' a' q', udp_source p n' a' q' → a' = endpoint_address e ∧ q' = q) →
  source_exact p e (if q =? endpoint_port e then Protected else Unrelated).
Proof.
  intros Hn Hs Hu. destruct (q =? endpoint_port e) eqn:E; to_prop; split_and!; try done.
  - intros n' a' q' _ [-> ->]%Hu. by rewrite bool_decide_true.
  - intros _. exists n. by rewrite <-E.
  - intros n' a' q' _ [-> ->]%Hu. rewrite bool_decide_false; naive_solver.
  - intros _ n' [_ ?]%Hu. done.
Qed.

Lemma classify_ipv4_spec p e :
  bytes_ok p → endpoint_ok e → Z.shiftr (byte p 0) 4 = 4 →
  ∃ d, classify_ipv4 p e = Ok d ∧ source_exact p e d.
Proof.
  intros Hok He Hv. unfold classify_ipv4. destruct e as [pa pp|pa pp].
  2: { eexists; split; [done|]. apply source_exact_other. intros n a q Hs.
       destruct Hs as [|n o _ Hv' _ _ _]; [|rewrite Hv in Hv'; lia].
       destruct He as [Ha _]. cbn. intros E. subst pa. done. }
  unfold IPV4_MIN_HEADER_LEN. destruct (len p <? 20) eqn:E20.
  { apply Z.ltb_lt in E20. eexists; split; [done|]. apply source_exact_none; [|done].
    intros n a q Hs. destruct Hs; unfold IPV4_MIN_HEADER_LEN, IPV6_HEADER_LEN in *; lia. }
  apply Z.ltb_ge in E20. rewrite !idx_byte, !read_half by lia.
  assert (∀ n a q, udp_source p n a q →
    a = [byte p 12; byte p 13; byte p 14; byte p 15]
    ∧ q = half p (Z.land (byte p 0) 15 * 4) ∧ 20 ≤ Z.land (byte p 0) 15 * 4
    ∧ Z.land (byte p 0) 15 * 4 + 8 ≤ half p 2 ∧ half p 2 ≤ len p ∧ byte p 9 = 17
    ∧ Z.land (half p 6) IPV4_AMBIGUOUS_FRAGMENT_MASK = 0) as Hinv.
  { intros n a q Hs. destruct Hs as [|n o _ Hv' _ _ _]; [done|rewrite Hv in Hv'; lia]. }
  destruct (_ || _) eqn:Eh; to_prop.
  { eexists; split; [done|]. apply source_exact_none; [|done]. intros n a q Hs%Hinv.
    destruct Eh; to_prop; [done|lia]. }
  case_bool_decide as Ha; cbn [negb].
  2: { eexists; split; [done|]. apply source_exact_other. intros n a q (-> & _)%Hinv. done. }
  destruct (_ || _) eqn:El; to_prop.
  { eexists; split; [done|]. apply source_exact_none; [|done]. intros n a q Hs%Hinv.
    destruct El; to_prop; lia. }
  destruct (negb _) eqn:Ep; to_prop.
  { eexists; split; [done|]. apply source_exact_none; [|done]. intros n a q Hs%Hinv. tauto. }
  destruct (negb _) eqn:Ef; to_prop.
  { eexists; split; [done|]. apply source_exact_none; [|done]. intros n a q Hs%Hinv. tauto. }
  pose proof (half_u16 p 2 Hok) as Ht. unfold u16 in Ht.
  rewrite saturating_small by (unfold UDP_HEADER_LEN; lia).
  unfold UDP_HEADER_LEN. destruct (_ <? _) eqn:Eu; to_prop.
  { eexists; split; [done|]. apply source_exact_none; [|done]. intros n a q Hs%Hinv. lia. }
  rewrite read_half by lia. eexists; split; [done|]. cbn [compare_port].
  apply (source_exact_port p (Ipv4 pa pp) 0); [done| |].
  - cbn [endpoint_address]. rewrite <-Ha. by apply source_ipv4.
  - intros n a q Hs%Hinv. rewrite <-Ha. tauto.
Qed.

Lemma at_byte (p : bytes) k : at_ p k = byte p (Z.of_nat k).
Proof. unfold at_, byte. by rewrite Nat2Z.id. Qed.

(** The loop's answer is the packet's. *)
Lemma source_exact_loop p e d :
  Z.shiftr (byte p 0) 4 = 6 → IPV6_HEADER_LEN ≤ len p → half p 4 ≠ 0 →
  IPV6_HEADER_LEN + half p 4 ≤ len p → copy_from p 8 16 = endpoint_address e →
  loop_exact p (IPV6_HEADER_LEN + half p 4) (endpoint_port e) (byte p 6) IPV6_HEADER_LEN 0 d →
  source_exact p e d.
Proof.
  intros Hv Hl Hz Hend Ha (H1 & H2 & H3). split_and!.
  - intros n a q Hn Hs. destruct Hs as [_ Hv'|n o _ _ _ _ Ho]; [rewrite Hv in Hv'; lia|].
    rewrite (H1 n o Ho) by lia. destruct (half p o =? endpoint_port e) eqn:E; to_prop.
    + by rewrite bool_decide_true.
    + rewrite bool_decide_false; naive_solver.
  - intros Hd. destruct (H2 Hd) as (n & o & Hn & Ho & <-). exists n. split; [lia|].
    rewrite <-Ha. by constructor.
  - intros Hd n Hs. inversion Hs as [? Hv'|n' o ? ? ? ? Ho Hn Ha' Hq].
    + rewrite Hv in Hv'. lia.
    + by apply (H3 Hd n o).
Qed.

Lemma classify_ipv6_spec p e :
  bytes_ok p → endpoint_ok e → Z.shiftr (byte p 0) 4 = 6 →
  ∃ d, classify_ipv6 p e = Ok d ∧ source_exact p e d.
Proof.
  intros Hok He Hv. unfold classify_ipv6.
  assert (∀ n a q, udp_source p n a q → a = copy_from p 8 16 ∧ IPV6_HEADER_LEN ≤ len p
    ∧ half p 4 ≠ 0 ∧ IPV6_HEADER_LEN + half p 4 ≤ len p) as Hinv.
  { intros n a q Hs. destruct Hs as [_ Hv'|]; [rewrite Hv in Hv'; lia|done]. }
  destruct e as [pa pp|pa pp].
  { eexists; split; [done|]. apply source_exact_other. intros n a q (-> & _)%Hinv.
    destruct He as [Ha _]. cbn. intros E. subst pa. done. }
  destruct (len p <? IPV6_HEADER_LEN) eqn:E40; to_prop.
  { eexists; split; [done|]. apply source_exact_none; [|done]. intros n a q Hs%Hinv. lia. }
  unfold IPV6_HEADER_LEN in E40 |- *. rewrite !idx_byte, !read_half by lia.
  rewrite (copy_slice p p) by (lia || (intros; apply at_byte)).
  rewrite Hv. cbn [negb Z.eqb Pos.eqb].
  case_bool_decide as Ha; cbn [negb].
  2: { eexists; split; [done|]. apply source_exact_other. by intros n a q (-> & _)%Hinv. }
  destruct (half p 4 =? 0) eqn:Ez; to_prop.
  { eexists; split; [done|]. apply source_exact_none; [|done]. intros n a q Hs%Hinv. tauto. }
  pose proof (half_u16 p 4 Hok) as Ht. unfold u16 in Ht.
  rewrite checked_add_ok by (unfold USIZE_MAX; lia).
  destruct (len p <? 40 + half p 4) eqn:El; to_prop.
  { eexists; split; [done|]. apply source_exact_none; [|done]. intros n a q Hs%Hinv.
    unfold IPV6_HEADER_LEN in Hs. lia. }
  destruct (loop_spec loop_turns p (40 + half p 4) pp (byte p 6) 40 0) as (d & -> & Hd);
    [done|lia..|done|done|]. exists d. split; [done|]. by apply source_exact_loop.
Qed.

Lemma classify_spec p e :
  bytes_ok p → endpoint_ok e → ∃ d, classify_l3_udp_source p e = Ok d ∧ source_exact p e d.
Proof.
  intros Hok He. unfold classify_l3_udp_source. destruct (slice_get p 0) as [b|] eqn:Eb.
  - assert (b = byte p 0) as ->.
    { unfold slice_get in Eb. unfold byte. by erewrite nth_lookup_Some. }
    destruct (_ =? 4) eqn:E4; to_prop; [by apply classify_ipv4_spec|].
    destruct (_ =? 6) eqn:E6; to_prop; [by apply classify_ipv6_spec|].
    eexists; split; [done|]. apply source_exact_none; [|done]. intros n a q Hs. by destruct Hs.
  - eexists; split; [done|]. apply source_exact_none; [|done]. intros n a q Hs.
    apply lookup_ge_None in Eb.
    destruct Hs; unfold IPV4_MIN_HEADER_LEN, IPV6_HEADER_LEN, len in *; lia.
Qed.

(** C27. Both packet parsers are total, agree, and are exact: on every packet the
    reference parser returns without a panic, the kernel program's parser over a socket
    buffer with the same octets gives the same answer, and that answer is
    protected or unrelated by the source of every complete unfragmented UDP packet with
    at most four IPv6 extension headers, never protected for another packet, and never
    unrelated for one sent from the protected endpoint. *)
Theorem packet_parsers_exact {Ctx} `{SkBuffLaws Ctx} (c : Ctx) (e : ProtectedEndpoint) :
  bytes_ok (ctx_octets c) → endpoint_ok e →
  ∃ d, classify_l3_udp_source (ctx_octets c) e = Ok d
       ∧ classify_endpoint c (kernel_endpoint e) = Some d
       ∧ source_exact (ctx_octets c) e d.
Proof.
  intros Hok He. destruct (classify_spec _ e Hok He) as (d & Hd & Hs). exists d.
  pose proof (endpoint_agree c e Hok He) as Ha. rewrite Hd in Ha.
  destruct (classify_endpoint c (kernel_endpoint e)); by simplify_eq.
Qed.

(** A socket buffer that is just its octets. *)
#[export] Instance linear_skb : SkBuff bytes := {|
  ctx_octets l := l;
  ctx_len l := len l;
  ctx_load l o n :=
    if o + n <=? len l then Some (take (Z.to_nat n) (drop (Z.to_nat o) l)) else None;
|}.

#[export] Instance linear_skb_laws : SkBuffLaws bytes.
Proof.
  split; cbn; [done|..]; intros c o n Ho Hn Hl.
  - by rewrite (proj2 (Z.leb_le _ _)).
  - by rewrite (proj2 (Z.leb_gt _ _)).
Qed.

(** UDP from 192.0.2.37 port 4661, with a four-octet option. *)
Definition sample_packet : bytes :=
  [0x46; 0; 0; 32; 0; 0; 0x40; 0; 64; 17; 0; 0; 192; 0; 2; 37; 198; 51; 100; 1;
   1; 1; 1; 0; 0x12; 0x35; 0x08; 0x4b; 0; 8; 0; 0].
Definition sample_endpoint : ProtectedEndpoint := Ipv4 [192; 0; 2; 37] 0x1235.

Lemma sample_packet_ok : bytes_ok sample_packet.
Proof. apply (bool_decide_unpack _). by vm_compute. Qed.

Lemma sample_endpoint_ok : endpoint_ok sample_endpoint.
Proof.
  split; [done|]. split; [apply (bool_decide_unpack _); by vm_compute|]. by split.
Qed.

Lemma packet_parsers_exact_witness :
  classify_endpoint sample_packet (kernel_endpoint sample_endpoint) = Some Protected
  ∧ ∃ d, classify_l3_udp_source (ctx_octets sample_packet) sample_endpoint = Ok d
         ∧ classify_endpoint sample_packet (kernel_endpoint sample_endpoint) = Some d
         ∧ source_exact (ctx_octets sample_packet) sample_endpoint d.
Proof.
  split; [reflexivity|].
  exact (packet_parsers_exact sample_packet sample_endpoint sample_packet_ok sample_endpoint_ok).
Defined.
