(* ===== verification/FenceKernel.v ===== *)
(** The kernel programs of the egress fence ([opc-egress-fence-ebpf/src/main.rs]): the
    values of their maps, the transitions they make inside a critical section of the
    shared spin lock, and the reading of commands and configurations.  Definitions only;
    [FenceSystem] composes them into programs that run concurrently. *)

From S2P Require Import Prelude.
From S2P Require Import FenceAbi.
From S2P Require Import FencePacket.

Definition LAST_REFRESHABLE_EPOCH : Z := U64_MAX - 2.

(** ** Map values *)

Record CurrentMapValue : Type := mkCurrentMapValue {
  cm_reserved : Z;
  cm_control : Z;
  cm_durable_fence_token : Z;
  cm_registered_socket_cookie : Z;
}.
#[export] Instance CurrentMapValue_eq_dec : EqDecision CurrentMapValue.
Proof. solve_decision. Defined.

Record MutationMapValue : Type := mkMutationMapValue {
  mm_generation : Z;
  mm_in_flight_claim : Z;
}.
#[export] Instance MutationMapValue_eq_dec : EqDecision MutationMapValue.
Proof. solve_decision. Defined.

Record ConfigMapValue : Type := mkConfigMapValue {
  cf_magic : Z;
  cf_version : Z;
  cf_family : Z;
  cf_reserved0 : Z;
  cf_port_be : bytes;
  cf_reserved1 : bytes;
  cf_capacity : Z;
  cf_root_cgroup_id : Z;
  cf_address : bytes;
}.

Record KernelConfig : Type := mkKernelConfig {
  kc_endpoint : KernelEndpoint;
  kc_root_cgroup_id : Z;
}.

Record CookieMapValue : Type := mkCookieMapValue {
  cw_reserved : Z;
  cw_control : Z;
  cw_socket_cookie : Z;
  cw_durable_fence_token : Z;
  cw_deadline_boot_ns : Z;
  cw_control_epoch : Z;
}.
#[export] Instance CookieMapValue_eq_dec : EqDecision CookieMapValue.
Proof. solve_decision. Defined.

Record CookieMapKey : Type := mkCookieMapKey {
  mk_socket_cookie : Z;
  mk_durable_fence_token : Z;
}.
#[export] Instance CookieMapKey_eq_dec : EqDecision CookieMapKey.
Proof. solve_decision. Defined.
#[export] Program Instance CookieMapKey_countable : Countable CookieMapKey :=
  inj_countable' (λ k, (mk_socket_cookie k, mk_durable_fence_token k))
    (λ p, mkCookieMapKey p.1 p.2) _.
Solve All Obligations with by intros [].

Definition cookie_key (socket_cookie durable_fence_token : Z) : CookieMapKey :=
  mkCookieMapKey socket_cookie durable_fence_token.

(** The fields of the full socket the program reads ([bpf_sock]). *)
Record FullSocketView : Type := mkFullSocketView {
  sv_family : Z;
  sv_socket_type : Z;
  sv_protocol : Z;
  sv_src_ip4 : Z;
  sv_src_ip6_0 : Z;
  sv_src_ip6_1 : Z;
  sv_src_ip6_2 : Z;
  sv_src_ip6_3 : Z;
  sv_src_port : Z;
}.

Record InspectionOutput : Type := mkInspectionOutput {
  io_magic : Z;
  io_version : Z;
  io_entry_present : Z;
  io_reserved : Z;
  io_current : CurrentMapValue;
  io_mutation : MutationMapValue;
  io_entry : CookieMapValue;
  io_trailing_reserved : bytes;
}.

(** ** Decoding *)

Definition decode_current (value : CurrentMapValue) : option CurrentFenceToken :=
  if negb (cm_reserved value =? 0) then None
  else if (cm_control value =? 0) && (cm_durable_fence_token value =? 0)
          && (cm_registered_socket_cookie value =? 0)
  then Some CurrentFenceToken_initial
  else if (cm_control value =? CURRENT_LIFECYCLE_OPEN_CONTROL)
          && (cm_registered_socket_cookie value =? 0)
  then lifecycle_open (cm_durable_fence_token value)
  else if cm_control value =? CURRENT_LIFECYCLE_OPEN_CONTROL
  then registered_current (cm_durable_fence_token value) (cm_registered_socket_cookie value)
  else if (cm_control value =? CURRENT_RETIREMENT_CLOSED_CONTROL)
          && (cm_registered_socket_cookie value =? 0)
  then retirement_closed (cm_durable_fence_token value)
  else None.

Definition decode_entry (value : CookieMapValue) (expected_key : CookieMapKey)
    : option FenceEntry :=
  if negb (cw_socket_cookie value =? mk_socket_cookie expected_key)
     || negb (cw_durable_fence_token value =? mk_durable_fence_token expected_key)
  then None
  else if negb (cw_reserved value =? 0) then None
  else if (cw_control value =? COOKIE_CONTROL_INITIAL_CLOSED)
          && ((cw_deadline_boot_ns value =? 0)
              && (cw_control_epoch value =? EGRESS_FENCE_INITIAL_COOKIE_EPOCH))
  then initial_closed (cw_durable_fence_token value)
  else if cw_control value =? COOKIE_CONTROL_ACTIVE
  then active (cw_durable_fence_token value) (cw_deadline_boot_ns value)
         (cw_control_epoch value)
  else if (cw_control value =? COOKIE_CONTROL_TERMINAL_CLOSED)
          && (cw_deadline_boot_ns value =? 0)
  then terminal_closed (cw_durable_fence_token value) (cw_control_epoch value)
  else if (cw_control value =? COOKIE_CONTROL_RECLAIMING)
          && (cw_deadline_boot_ns value =? 0)
  then reclaiming (cw_durable_fence_token value) (cw_control_epoch value)
  else None.

Definition load_config (value : ConfigMapValue) : option KernelConfig :=
  if negb (cf_magic value =? from_le_bytes CONFIG_MAGIC)
     || negb (cf_version value =? EGRESS_FENCE_ABI_VERSION)
     || negb (cf_reserved0 value =? 0)
     || negb (bool_decide (cf_reserved1 value = [0; 0]))
     || (cf_root_cgroup_id value =? 0)
     || negb (cf_capacity value =? EGRESS_FENCE_MAX_COOKIE_ENTRIES)
  then None
  else
  let port := u16_from_be_bytes (at_ (cf_port_be value) 0) (at_ (cf_port_be value) 1) in
  if port =? 0 then None
  else
  let address := cf_address value in
  let refused :=
    if cf_family value =? 4 then
      (at_ address 0 =? 0) && (at_ address 1 =? 0) && (at_ address 2 =? 0)
      && (at_ address 3 =? 0)
      || (224 <=? at_ address 0) || negb (at_ address 4 =? 0)
      || negb (at_ address 5 =? 0) || negb (at_ address 6 =? 0)
      || negb (at_ address 7 =? 0) || negb (at_ address 8 =? 0)
      || negb (at_ address 9 =? 0) || negb (at_ address 10 =? 0)
      || negb (at_ address 11 =? 0) || negb (at_ address 12 =? 0)
      || negb (at_ address 13 =? 0) || negb (at_ address 14 =? 0)
      || negb (at_ address 15 =? 0)
    else if cf_family value =? 6 then
      let address_is_zero :=
        (at_ address 0 =? 0) && (at_ address 1 =? 0) && (at_ address 2 =? 0)
        && (at_ address 3 =? 0) && (at_ address 4 =? 0) && (at_ address 5 =? 0)
        && (at_ address 6 =? 0) && (at_ address 7 =? 0) && (at_ address 8 =? 0)
        && (at_ address 9 =? 0) && (at_ address 10 =? 0) && (at_ address 11 =? 0)
        && (at_ address 12 =? 0) && (at_ address 13 =? 0) && (at_ address 14 =? 0)
        && (at_ address 15 =? 0) in
      address_is_zero || (at_ address 0 =? 0xff) || ipv4_mapped address
      || link_local address
    else true in
  if refused then None
  else Some (mkKernelConfig (mkKernelEndpoint (cf_family value) address port)
               (cf_root_cgroup_id value)).

(** [u32::from_ne_bytes] on the little-endian target. *)
Definition network_order_word (b : bytes) : Z := from_le_bytes b.

Definition AF_INET : Z := 2.
Definition AF_INET6 : Z := 10.
Definition SOCK_DGRAM : Z := 2.
Definition IPPROTO_UDP : Z := 17.

(** [None] is a packet without a full socket. *)
Definition socket_endpoint_matches (socket : option FullSocketView)
    (endpoint : KernelEndpoint) : bool :=
  match socket with
  | None => false
  | Some socket =>
      if negb (sv_socket_type socket =? SOCK_DGRAM)
         || negb (sv_protocol socket =? IPPROTO_UDP)
         || negb (sv_src_port socket =? ke_port endpoint)
      then false
      else
      let word i := network_order_word (copy_from (ke_address endpoint) i 4) in
      if ke_family endpoint =? 4 then
        (sv_family socket =? AF_INET) && (sv_src_ip4 socket =? word 0%nat)
      else if ke_family endpoint =? 6 then
        (sv_family socket =? AF_INET6) && (sv_src_ip6_0 socket =? word 0%nat)
        && (sv_src_ip6_1 socket =? word 4%nat) && (sv_src_ip6_2 socket =? word 8%nat)
        && (sv_src_ip6_3 socket =? word 12%nat)
      else false
  end.

(** ** Commands *)

Definition CONTROL_HEADER_FIXED_MASK : Z := 0xff00ffffffffffff.
Definition CONTROL_HEADER_FIXED : Z :=
  Z.lor (from_le_bytes CONTROL_MAGIC) (Z.shiftl EGRESS_FENCE_ABI_VERSION 32).

Section Commands.
Context {Ctx : Type} `{SkBuff Ctx}.

(** [ctx.load::<u64>(offset)]. *)
Definition load_u64 (ctx : Ctx) (offset : Z) : option Z :=
  match ctx_load ctx offset 8 with
  | Some b => Some (from_le_bytes b)
  | None => None
  end.

(** [ctx.load::<u64>(o).ok()? != 0] for offsets tested in order: [None] when a load
    fails, otherwise whether one is not zero. *)
Fixpoint any_nonzero (ctx : Ctx) (offsets : list Z) : option bool :=
  match offsets with
  | [] => Some false
  | o :: offsets =>
      match load_u64 ctx o with
      | None => None
      | Some w => if negb (w =? 0) then Some true else any_nonzero ctx offsets
      end
  end.

Definition load_command (ctx : Ctx) (operation : ControlOperation)
    : option ControlCommand :=
  match load_u64 ctx 8, load_u64 ctx 16, load_u64 ctx 24, load_u64 ctx 32,
        load_u64 ctx 40 with
  | Some root, Some cookie, Some token, Some deadline, Some epoch =>
      ControlCommand_new operation root cookie token deadline epoch
  | _, _, _, _, _ => None
  end.

Definition load_control_command (ctx : Ctx) (expect_inspect : bool)
    : option ControlCommand :=
  let input_len := ctx_len ctx in
  if negb (input_len =? 48) && negb (input_len =? 128) then None
  else
  match load_u64 ctx 0 with
  | None => None
  | Some header =>
      if negb (Z.land header CONTROL_HEADER_FIXED_MASK =? CONTROL_HEADER_FIXED) then None
      else
      match ControlOperation_decode (Z.land (Z.shiftr header 48) 0xff) with
      | None => None
      | Some operation =>
          if negb (Bool.eqb (bool_decide (operation = Inspect)) expect_inspect) then None
          else if bool_decide (operation = Inspect) then
            if negb (input_len =? 128) then None
            else
            match any_nonzero ctx [48; 56; 64; 72; 80; 88; 96; 104; 112; 120] with
            | Some false => load_command ctx operation
            | _ => None
            end
          else if negb (input_len =? 48) then None
          else load_command ctx operation
      end
  end.

End Commands.

(** ** The mutation claim *)

Definition mutation_generation_matches (value : MutationMapValue) (generation : Z) : bool :=
  (mm_generation value =? generation) && (mm_in_flight_claim value =? 0).

Definition mutation_claim_matches (value : MutationMapValue) (generation claim : Z) : bool :=
  negb (generation =? U64_MAX) && (claim =? generation + 1)
  && (mm_generation value =? generation) && (mm_in_flight_claim value =? claim).

Definition commit_mutation_locked (claim : Z) : MutationMapValue :=
  mkMutationMapValue claim 0.

(** [(result, generation, claim)] and the new value. *)
Definition reserve_mutation_locked (value : MutationMapValue)
    : MutationMapValue * (Z * Z * Z) :=
  let generation := mm_generation value in
  if (generation =? U64_MAX) || negb (mm_in_flight_claim value =? 0) then
    (value, (CONTROL_RESULT_MAP_ERROR, 0, 0))
  else
  let claim := generation + 1 in
  (mkMutationMapValue generation claim, (CONTROL_RESULT_APPLIED, generation, claim)).

Definition reserve_register_locked (current_value : CurrentMapValue)
    (mutation : MutationMapValue) (command : ControlCommand)
    : MutationMapValue * (Z * Z * Z) :=
  match decode_current current_value with
  | None => (mutation, (CONTROL_RESULT_INVALID, 0, 0))
  | Some current =>
      if negb (is_lifecycle_open current)
         || negb (cc_durable_fence_token command =? ct_durable_fence_token current)
      then (mutation, (CONTROL_RESULT_STALE_TOKEN, 0, 0))
      else if negb (ct_registered_socket_cookie current =? 0)
              && negb (ct_registered_socket_cookie current =? cc_socket_cookie command)
      then (mutation, (CONTROL_RESULT_STATE_MISMATCH, 0, 0))
      else reserve_mutation_locked mutation
  end.

Definition reserve_reclaim_locked (current_value : CurrentMapValue)
    (mutation : MutationMapValue) (command : ControlCommand)
    : MutationMapValue * (Z * Z * Z) :=
  match decode_current current_value with
  | None => (mutation, (CONTROL_RESULT_INVALID, 0, 0))
  | Some current =>
      if ct_durable_fence_token current <=? cc_durable_fence_token command
      then (mutation, (CONTROL_RESULT_NOT_RECLAIMABLE, 0, 0))
      else reserve_mutation_locked mutation
  end.

(** [!current.is_lifecycle_open() || current.registered_socket_cookie() !=
    command.socket_cookie() || command.durable_fence_token() !=
    current.durable_fence_token()]. *)
Definition not_current (current : CurrentFenceToken) (command : ControlCommand) : bool :=
  negb (is_lifecycle_open current)
  || negb (ct_registered_socket_cookie current =? cc_socket_cookie command)
  || negb (cc_durable_fence_token command =? ct_durable_fence_token current).

Definition reserve_refresh_locked (current_value : CurrentMapValue)
    (mutation : MutationMapValue) (command : ControlCommand)
    : MutationMapValue * (Z * Z * Z) :=
  match decode_current current_value with
  | None => (mutation, (CONTROL_RESULT_INVALID, 0, 0))
  | Some current =>
      if not_current current command then (mutation, (CONTROL_RESULT_STALE_TOKEN, 0, 0))
      else reserve_mutation_locked mutation
  end.

(** ** Entry transitions *)

Definition write_active (socket_cookie token deadline epoch : Z) : CookieMapValue :=
  mkCookieMapValue 0 COOKIE_CONTROL_ACTIVE socket_cookie token deadline epoch.

Definition write_terminal (socket_cookie token epoch : Z) : CookieMapValue :=
  mkCookieMapValue 0 COOKIE_CONTROL_TERMINAL_CLOSED socket_cookie token 0 epoch.

Definition write_current_retirement (token : Z) : CurrentMapValue :=
  mkCurrentMapValue 0 CURRENT_RETIREMENT_CLOSED_CONTROL token 0.

Definition deadline_within_gate_lifetime (now_boot_ns deadline_boot_ns : Z) : bool :=
  (now_boot_ns <? deadline_boot_ns)
  && (deadline_boot_ns - now_boot_ns <=? EGRESS_FENCE_MAX_GATE_LIFETIME_NS).

Definition command_key (command : ControlCommand) : CookieMapKey :=
  cookie_key (cc_socket_cookie command) (cc_durable_fence_token command).

(** [TerminalClosed | Reclaiming]. *)
Definition finished (s : FenceEntryState) : bool :=
  match s with TerminalClosed | Reclaiming => true | _ => false end.

Definition activate_locked (entry : CookieMapValue) (current : CurrentFenceToken)
    (command : ControlCommand) (now_boot_ns : Z) : CookieMapValue * Z :=
  match decode_entry entry (command_key command) with
  | None => (entry, CONTROL_RESULT_INVALID)
  | Some decoded =>
      if negb (fe_control_epoch decoded =? cc_expected_epoch command)
      then (entry, CONTROL_RESULT_EPOCH_MISMATCH)
      else if not_current current command
              || negb (fe_durable_fence_token decoded =? ct_durable_fence_token current)
      then (entry, CONTROL_RESULT_STALE_TOKEN)
      else if finished (fe_state decoded) then (entry, CONTROL_RESULT_TERMINAL)
      else if negb (bool_decide (fe_state decoded = InitialClosed))
      then (entry, CONTROL_RESULT_STATE_MISMATCH)
      else if negb (deadline_within_gate_lifetime now_boot_ns (cc_deadline_boot_ns command))
      then (entry, CONTROL_RESULT_DEADLINE_ELAPSED)
      else if LAST_REFRESHABLE_EPOCH <? fe_control_epoch decoded
      then (entry, CONTROL_RESULT_INVALID)
      else
      let next_epoch := fe_control_epoch decoded + 1 in
      (write_active (cc_socket_cookie command) (cc_durable_fence_token command)
         (cc_deadline_boot_ns command) next_epoch, CONTROL_RESULT_APPLIED)
  end.

(** The result and the prior deadline. *)
Definition prepare_refresh_locked (entry : CookieMapValue) (command : ControlCommand)
    : CookieMapValue * (Z * Z) :=
  match decode_entry entry (command_key command) with
  | None => (entry, (CONTROL_RESULT_INVALID, 0))
  | Some decoded =>
      if negb (fe_control_epoch decoded =? cc_expected_epoch command)
      then (entry, (CONTROL_RESULT_EPOCH_MISMATCH, 0))
      else if finished (fe_state decoded) then (entry, (CONTROL_RESULT_TERMINAL, 0))
      else if negb (bool_decide (fe_state decoded = Active))
      then (entry, (CONTROL_RESULT_STATE_MISMATCH, 0))
      else if LAST_REFRESHABLE_EPOCH <? fe_control_epoch decoded
      then (entry, (CONTROL_RESULT_INVALID, 0))
      else
      (mkCookieMapValue (cw_reserved entry) COOKIE_CONTROL_RECLAIMING
         (cw_socket_cookie entry) (cw_durable_fence_token entry) 0
         (cw_control_epoch entry),
       (CONTROL_RESULT_APPLIED, fe_deadline_boot_ns decoded))
  end.

(** The entry is not the exact one a refresh has prepared. *)
Definition not_prepared (entry : CookieMapValue) (command : ControlCommand) : bool :=
  negb (cw_reserved entry =? 0)
  || negb (cw_control entry =? COOKIE_CONTROL_RECLAIMING)
  || negb (cw_socket_cookie entry =? cc_socket_cookie command)
  || negb (cw_durable_fence_token entry =? cc_durable_fence_token command)
  || negb (cw_deadline_boot_ns entry =? 0)
  || negb (cw_control_epoch entry =? cc_expected_epoch command).

Definition complete_refresh_locked (current_value : CurrentMapValue)
    (entry : CookieMapValue) (command : ControlCommand) (prior_deadline observed_at : Z)
    : CookieMapValue * Z :=
  match decode_current current_value with
  | None => (entry, CONTROL_RESULT_INVALID)
  | Some current =>
      if not_current current command || not_prepared entry command
      then (entry, CONTROL_RESULT_MAP_ERROR)
      else
      let next_epoch := cc_expected_epoch command + 1 in
      match evaluate_refresh_deadlines observed_at prior_deadline
              (cc_deadline_boot_ns command) with
      | Apply => (entry, CONTROL_RESULT_APPLIED)
      | PriorExpired =>
          (write_terminal (cc_socket_cookie command) (cc_durable_fence_token command)
             next_epoch, CONTROL_RESULT_DEADLINE_ELAPSED)
      | RequestedDeadlineInvalid =>
          (write_active (cc_socket_cookie command) (cc_durable_fence_token command)
             prior_deadline (cc_expected_epoch command), CONTROL_RESULT_DEADLINE_ELAPSED)
      | DeadlineRegressed =>
          (write_active (cc_socket_cookie command) (cc_durable_fence_token command)
             prior_deadline (cc_expected_epoch command), CONTROL_RESULT_STATE_MISMATCH)
      end
  end.

Definition finalize_refresh_locked (current_value : CurrentMapValue)
    (entry : option CookieMapValue) (command : ControlCommand)
    (prior_deadline completed_at : Z) : option CookieMapValue * Z :=
  match decode_current current_value with
  | None => (entry, CONTROL_RESULT_INVALID)
  | Some current =>
      if not_current current command then (entry, CONTROL_RESULT_MAP_ERROR)
      else
      match entry with
      | None => (None, CONTROL_RESULT_COOKIE_MISSING)
      | Some value =>
          if not_prepared value command then (entry, CONTROL_RESULT_MAP_ERROR)
          else
          match checked_add (cc_expected_epoch command) 1 with
          | None => (entry, CONTROL_RESULT_INVALID)
          | Some next_epoch =>
              if (prior_deadline <=? completed_at)
                 || (cc_deadline_boot_ns command <=? completed_at)
              then (Some (write_terminal (cc_socket_cookie command)
                            (cc_durable_fence_token command) next_epoch),
                    CONTROL_RESULT_DEADLINE_ELAPSED)
              else (Some (write_active (cc_socket_cookie command)
                            (cc_durable_fence_token command)
                            (cc_deadline_boot_ns command) next_epoch),
                    CONTROL_RESULT_APPLIED)
          end
      end
  end.

Definition close_locked (entry : CookieMapValue) (command : ControlCommand)
    : CookieMapValue * Z :=
  match decode_entry entry (command_key command) with
  | None => (entry, CONTROL_RESULT_INVALID)
  | Some decoded =>
      if negb (fe_control_epoch decoded =? cc_expected_epoch command)
      then (entry, CONTROL_RESULT_EPOCH_MISMATCH)
      else if (cc_durable_fence_token command =? 0)
              || negb (cc_durable_fence_token command =? fe_durable_fence_token decoded)
      then (entry, CONTROL_RESULT_STALE_TOKEN)
      else if finished (fe_state decoded) then (entry, CONTROL_RESULT_TERMINAL)
      else
      match checked_add (fe_control_epoch decoded) 1 with
      | None => (entry, CONTROL_RESULT_INVALID)
      | Some next_epoch =>
          (write_terminal (cc_socket_cookie command) (fe_durable_fence_token decoded)
             next_epoch, CONTROL_RESULT_APPLIED)
      end
  end.

Definition reclaim_locked (entry : CookieMapValue) (current : CurrentFenceToken)
    (command : ControlCommand) : CookieMapValue * Z :=
  match decode_entry entry (command_key command) with
  | None => (entry, CONTROL_RESULT_INVALID)
  | Some decoded =>
      if negb (fe_control_epoch decoded =? cc_expected_epoch command)
      then (entry, CONTROL_RESULT_EPOCH_MISMATCH)
      else if negb (cc_durable_fence_token command =? fe_durable_fence_token decoded)
      then (entry, CONTROL_RESULT_STALE_TOKEN)
      else if ct_durable_fence_token current <=? cc_durable_fence_token command
      then (entry, CONTROL_RESULT_NOT_RECLAIMABLE)
      else
      (mkCookieMapValue 0 COOKIE_CONTROL_RECLAIMING (cc_socket_cookie command)
         (cc_durable_fence_token command) 0 (cc_expected_epoch command),
       CONTROL_RESULT_APPLIED)
  end.

Definition terminalize_exact_active (current_value : CurrentMapValue)
    (entry : CookieMapValue) (command : ControlCommand) : CookieMapValue :=
  match decode_current current_value with
  | None => entry
  | Some current =>
      if negb (is_lifecycle_open current)
         || negb (ct_durable_fence_token current =? cc_durable_fence_token command)
         || negb (ct_registered_socket_cookie current =? cc_socket_cookie command)
      then entry
      else
      match decode_entry entry (command_key command) with
      | None => entry
      | Some decoded =>
          if negb (bool_decide (fe_state decoded = Active))
             || negb (fe_durable_fence_token decoded =? cc_durable_fence_token command)
             || negb (fe_deadline_boot_ns decoded =? cc_deadline_boot_ns command)
             || negb (fe_control_epoch decoded =? cc_expected_epoch command + 1)
          then entry
          else
          match checked_add (fe_control_epoch decoded) 1 with
          | None => entry
          | Some terminal_epoch =>
              write_terminal (cc_socket_cookie command) (fe_durable_fence_token decoded)
                terminal_epoch
          end
      end
  end.

Definition initial_matches (entry : CookieMapValue) (command : ControlCommand) : bool :=
  (cw_reserved entry =? 0) && (cw_control entry =? COOKIE_CONTROL_INITIAL_CLOSED)
  && (cw_socket_cookie entry =? cc_socket_cookie command)
  && (cw_durable_fence_token entry =? cc_durable_fence_token command)
  && (cw_deadline_boot_ns entry =? 0)
  && (cw_control_epoch entry =? EGRESS_FENCE_INITIAL_COOKIE_EPOCH).

(** The new current value, the new entry and the result. *)
Definition register_phase2_locked (current_value : CurrentMapValue)
    (entry : option CookieMapValue) (command : ControlCommand) (insert_status : Z)
    : CurrentMapValue * option CookieMapValue * Z :=
  match decode_current current_value with
  | None => (current_value, entry, CONTROL_RESULT_INVALID)
  | Some current =>
      if negb (is_lifecycle_open current)
         || negb (cc_durable_fence_token command =? ct_durable_fence_token current)
      then (current_value, entry, CONTROL_RESULT_STALE_TOKEN)
      else if insert_status =? 2 then (current_value, entry, CONTROL_RESULT_MAP_ERROR)
      else
      match entry with
      | None => (current_value, entry, CONTROL_RESULT_MAP_ERROR)
      | Some value =>
          if negb (initial_matches value command) then
            (current_value, entry,
             if ct_registered_socket_cookie current =? cc_socket_cookie command
             then CONTROL_RESULT_TERMINAL else CONTROL_RESULT_STATE_MISMATCH)
          else if (insert_status =? 0)
                  && (ct_registered_socket_cookie current =? cc_socket_cookie command)
          then
            (current_value,
             Some (write_terminal (cc_socket_cookie command)
                     (cc_durable_fence_token command) EGRESS_FENCE_INITIAL_COOKIE_EPOCH),
             CONTROL_RESULT_TERMINAL)
          else if ct_registered_socket_cookie current =? 0 then
            (mkCurrentMapValue (cm_reserved current_value) (cm_control current_value)
               (cm_durable_fence_token current_value) (cc_socket_cookie command),
             entry, CONTROL_RESULT_APPLIED)
          else if (insert_status =? 1)
                  && (ct_registered_socket_cookie current =? cc_socket_cookie command)
          then (current_value, entry, CONTROL_RESULT_APPLIED)
          else (current_value, entry, CONTROL_RESULT_STATE_MISMATCH)
      end
  end.

(** [apply_control_locked] for [PublishLifecycle]. *)
Definition publish_lifecycle_locked (current_value : CurrentMapValue)
    (mutation : MutationMapValue) (command : ControlCommand) : CurrentMapValue * Z :=
  match decode_current current_value with
  | None => (current_value, CONTROL_RESULT_INVALID)
  | Some current =>
      if negb (mm_in_flight_claim mutation =? 0)
      then (current_value, CONTROL_RESULT_MAP_ERROR)
      else if cc_durable_fence_token command <? ct_durable_fence_token current
      then (current_value, CONTROL_RESULT_STALE_TOKEN)
      else if cc_durable_fence_token command =? ct_durable_fence_token current
      then (current_value,
            if is_lifecycle_open current then CONTROL_RESULT_APPLIED
            else CONTROL_RESULT_STATE_MISMATCH)
      else (mkCurrentMapValue 0 CURRENT_LIFECYCLE_OPEN_CONTROL
              (cc_durable_fence_token command) 0, CONTROL_RESULT_APPLIED)
  end.

(** [apply_control_locked] for the operations on an entry; the others are refused. *)
Definition apply_entry_locked (current_value : CurrentMapValue) (entry : CookieMapValue)
    (command : ControlCommand) (now_boot_ns : Z) : CookieMapValue * Z :=
  match decode_current current_value with
  | None => (entry, CONTROL_RESULT_INVALID)
  | Some current =>
      match cc_operation command with
      | Activate => activate_locked entry current command now_boot_ns
      | Close => close_locked entry command
      | _ => (entry, CONTROL_RESULT_INVALID)
      end
  end.
