(* ===== verification/FenceSystem.v ===== *)
(** The kernel programs of the egress fence as concurrent invocations
    ([opc-egress-fence-ebpf/src/main.rs]).

    An invocation runs in atomic steps: a critical section of the shared spin lock, in
    which the code calls no helper; or one helper call outside it, a hash-map lookup,
    insertion or removal, a clock reading, or the writing of a response.  Steps of any
    number of invocations interleave.  A hash-map element that is linked to no key, being
    free or about to be reused, may be overwritten with anything at any time, although an
    invocation that looked it up before still holds its pointer. *)

From stdpp Require Import functions.
From S2P Require Import Prelude.
From S2P Require Import FenceAbi.
From S2P Require Import FencePacket.
From S2P Require Import FenceKernel.

(** ** The maps *)

Record FenceMaps : Type := mkFenceMaps {
  fm_config : ConfigMapValue;
  fm_current : CurrentMapValue;
  fm_mutation : MutationMapValue;
  fm_cookies : gmap CookieMapKey nat;
  fm_slots : nat → CookieMapValue;
  fm_counters : gmap (Z * Z) Z;
  fm_clock : Z;
}.

Definition set_current (v : CurrentMapValue) (m : FenceMaps) : FenceMaps :=
  mkFenceMaps (fm_config m) v (fm_mutation m) (fm_cookies m) (fm_slots m)
    (fm_counters m) (fm_clock m).
Definition set_mutation (v : MutationMapValue) (m : FenceMaps) : FenceMaps :=
  mkFenceMaps (fm_config m) (fm_current m) v (fm_cookies m) (fm_slots m)
    (fm_counters m) (fm_clock m).
Definition set_cookies (v : gmap CookieMapKey nat) (m : FenceMaps) : FenceMaps :=
  mkFenceMaps (fm_config m) (fm_current m) (fm_mutation m) v (fm_slots m)
    (fm_counters m) (fm_clock m).
Definition set_slot (a : nat) (v : CookieMapValue) (m : FenceMaps) : FenceMaps :=
  mkFenceMaps (fm_config m) (fm_current m) (fm_mutation m) (fm_cookies m)
    (<[a := v]> (fm_slots m)) (fm_counters m) (fm_clock m).
Definition set_clock (v : Z) (m : FenceMaps) : FenceMaps :=
  mkFenceMaps (fm_config m) (fm_current m) (fm_mutation m) (fm_cookies m) (fm_slots m)
    (fm_counters m) v.

(** [*entry_ptr] and writing through it. *)
Definition entry_at (m : FenceMaps) (slot : option nat) : option CookieMapValue :=
  match slot with Some a => Some (fm_slots m a) | None => None end.
Definition put_entry (slot : option nat) (v : option CookieMapValue) (m : FenceMaps)
    : FenceMaps :=
  match slot, v with Some a, Some v => set_slot a v m | _, _ => m end.

(** Counters are per processor and wrap around. *)
Definition count (cpu slot : Z) (m : FenceMaps) : FenceMaps :=
  let value := default 0 (fm_counters m !! (cpu, slot)) in
  mkFenceMaps (fm_config m) (fm_current m) (fm_mutation m) (fm_cookies m) (fm_slots m)
    (<[(cpu, slot) := (value + 1) mod 18446744073709551616]> (fm_counters m)) (fm_clock m).

Definition count_verdict (cpu : Z) (v : FenceVerdict) (m : FenceMaps) : FenceMaps :=
  match counter_slot v with
  | Some slot => count cpu slot m
  | None => m
  end.

(** ** Invocations *)

Definition CGROUP_DROP : Z := 0.
Definition CGROUP_ALLOW : Z := 1.

(** What an invocation of the classifier has found out about its packet. *)
Record GatePacket : Type := mkGatePacket {
  gp_cpu : Z;
  gp_socket_matches : bool;
  gp_disposition : PacketEndpointDisposition;
  gp_cookie : Z;
}.

(** Where an invocation stands, with the locals it still needs.  A phase is named after
    the step it takes next. *)
Inductive Phase : Type :=
  (* [classify] *)
  | GateLookup (g : GatePacket) (current : CurrentFenceToken)
  | GateEntry (g : GatePacket) (current : CurrentFenceToken) (slot : nat)
  | GateClock (g : GatePacket) (current : CurrentFenceToken) (entry : option FenceEntry)
  | GateDone (g : option GatePacket) (result : Z)
  (* [publish_retirement] *)
  | RetireLookup (c : ControlCommand) (current : CurrentFenceToken) (generation : Z)
  | RetireEntry (c : ControlCommand) (current : CurrentFenceToken) (generation : Z)
      (slot : nat)
  (* [register] *)
  | RegisterInsert (c : ControlCommand) (generation claim : Z)
  | RegisterLookup (c : ControlCommand) (generation claim insert_status : Z)
  | RegisterCommit (c : ControlCommand) (generation claim insert_status : Z)
      (slot : option nat)
  (* [refresh] *)
  | RefreshLookup (c : ControlCommand) (generation claim : Z)
  | RefreshPrepare (c : ControlCommand) (generation claim : Z) (slot : option nat)
  | RefreshObserve (c : ControlCommand) (generation claim : Z) (slot : option nat)
      (prior : Z)
  | RefreshComplete (c : ControlCommand) (generation claim : Z) (slot : option nat)
      (prior observed_at : Z)
  | RefreshObserveAgain (c : ControlCommand) (generation claim : Z) (slot : option nat)
      (prior : Z)
  | RefreshFinalize (c : ControlCommand) (generation claim : Z) (slot : option nat)
      (prior completed_at : Z)
  (* [reclaim] *)
  | ReclaimLookup (c : ControlCommand) (generation claim : Z)
  | ReclaimMark (c : ControlCommand) (generation claim : Z) (slot : option nat)
  | ReclaimRemove (c : ControlCommand) (generation claim result : Z)
  | ReclaimFinish (c : ControlCommand) (generation claim result : Z) (removed : bool)
  (* [control] for [Activate] and [Close] *)
  | ApplyLookup (c : ControlCommand) (generation : Z)
  | ApplyClock (c : ControlCommand) (generation : Z) (slot : nat)
  | ApplyEntry (c : ControlCommand) (generation : Z) (slot : nat) (now : Z)
  | ActivateClock (c : ControlCommand) (generation : Z) (slot : nat)
  | ActivateExpire (c : ControlCommand) (generation : Z) (slot : nat)
  (* [inspect] *)
  | ViewLookup (c : ControlCommand) (generation : Z)
  | ViewEntry (c : ControlCommand) (generation : Z) (slot : option nat)
  | ViewStore (output : InspectionOutput)
  | ViewDone (result : Z) (response : option InspectionOutput)
  | ControlDone (result : Z).

(** What a helper answers where the kernel may choose: an insertion takes a free element,
    or an insertion, a removal or a store fails. *)
Inductive Choice : Type :=
  | Proceed
  | InsertInto (slot : nat)
  | HelperFails.

(** ** The classifier *)

Definition gate_drop (cpu slot : Z) (g : option GatePacket) (m : FenceMaps)
    : FenceMaps * Phase := (count cpu slot m, GateDone g CGROUP_DROP).

Section Programs.
Context {Ctx : Type} `{SkBuff Ctx}.

(** The parser's loop always ends within its fuel ([classify_endpoint_total]). *)
Definition disposition (ctx : Ctx) (endpoint : KernelEndpoint)
    : PacketEndpointDisposition :=
  default Indeterminate (classify_endpoint ctx endpoint).

(** [classify] up to the first critical section. *)
Definition gate_start (cpu : Z) (ctx : Ctx) (socket : option FullSocketView)
    (socket_cookie : Z) (m : FenceMaps) : FenceMaps * Phase :=
  match load_config (fm_config m) with
  | None => gate_drop cpu COUNTER_MALFORMED None m
  | Some config =>
      let matches := socket_endpoint_matches socket (kc_endpoint config) in
      let d := disposition ctx (kc_endpoint config) in
      let g := mkGatePacket cpu matches d socket_cookie in
      if bool_decide (d = Unrelated) && negb matches then
        (m, GateDone (Some g) CGROUP_ALLOW)
      else if bool_decide (d = Indeterminate) && negb matches then
        gate_drop cpu COUNTER_MALFORMED (Some g) m
      else if socket_cookie =? 0 then gate_drop cpu COUNTER_COOKIE_ZERO (Some g) m
      else
      match decode_current (fm_current m) with
      | None => gate_drop cpu COUNTER_MALFORMED (Some g) m
      | Some current =>
          if negb (is_lifecycle_open current)
             || (ct_registered_socket_cookie current =? 0)
             || negb (socket_cookie =? ct_registered_socket_cookie current)
          then gate_drop cpu COUNTER_STALE_TOKEN (Some g) m
          else (m, GateLookup g current)
      end
  end.

Definition gate_key (g : GatePacket) (current : CurrentFenceToken) : CookieMapKey :=
  cookie_key (gp_cookie g) (ct_durable_fence_token current).

Definition gate_lookup (g : GatePacket) (current : CurrentFenceToken) (m : FenceMaps)
    : FenceMaps * Phase :=
  match fm_cookies m !! gate_key g current with
  | None => gate_drop (gp_cpu g) COUNTER_COOKIE_MISSING (Some g) m
  | Some slot => (m, GateEntry g current slot)
  end.

Definition gate_entry (g : GatePacket) (current : CurrentFenceToken) (slot : nat)
    (m : FenceMaps) : FenceMaps * Phase :=
  if bool_decide (decode_current (fm_current m) = Some current) then
    (m, GateClock g current (decode_entry (fm_slots m slot) (gate_key g current)))
  else gate_drop (gp_cpu g) COUNTER_STALE_TOKEN (Some g) m.

Definition gate_clock (g : GatePacket) (current : CurrentFenceToken)
    (entry : option FenceEntry) (m : FenceMaps) : FenceMaps * Phase :=
  let verdict :=
    decide_egress
      (mkPacketFenceContext true (gp_socket_matches g) (gp_disposition g) (gp_cookie g))
      (mkFenceAuthoritySnapshot entry (ct_durable_fence_token current)
         (ct_registered_socket_cookie current) (fm_clock m)) in
  (count_verdict (gp_cpu g) verdict m,
   GateDone (Some g)
     (match verdict with Allow | PassUnrelated => CGROUP_ALLOW | _ => CGROUP_DROP end)).

(** ** Retirement *)

Definition retire_start (c : ControlCommand) (m : FenceMaps) : FenceMaps * Phase :=
  match decode_current (fm_current m) with
  | None => (m, ControlDone CONTROL_RESULT_INVALID)
  | Some current =>
      if negb (mm_in_flight_claim (fm_mutation m) =? 0)
      then (m, ControlDone CONTROL_RESULT_MAP_ERROR)
      else if is_retirement_closed current then
        (m, ControlDone (if ct_durable_fence_token current =? cc_durable_fence_token c
                         then CONTROL_RESULT_APPLIED else CONTROL_RESULT_STATE_MISMATCH))
      else if negb (is_lifecycle_open current)
              || negb (bool_decide (checked_add (ct_durable_fence_token current) 1
                                    = Some (cc_durable_fence_token c)))
      then (m, ControlDone CONTROL_RESULT_STATE_MISMATCH)
      else if ct_registered_socket_cookie current =? 0 then
        (set_current (write_current_retirement (cc_durable_fence_token c)) m,
         ControlDone CONTROL_RESULT_APPLIED)
      else (m, RetireLookup c current (mm_generation (fm_mutation m)))
  end.

Definition current_key (current : CurrentFenceToken) : CookieMapKey :=
  cookie_key (ct_registered_socket_cookie current) (ct_durable_fence_token current).

Definition retire_lookup (c : ControlCommand) (current : CurrentFenceToken)
    (generation : Z) (m : FenceMaps) : FenceMaps * Phase :=
  match fm_cookies m !! current_key current with
  | None => (m, ControlDone CONTROL_RESULT_COOKIE_MISSING)
  | Some slot => (m, RetireEntry c current generation slot)
  end.

Definition retire_entry (c : ControlCommand) (current : CurrentFenceToken)
    (generation : Z) (slot : nat) (m : FenceMaps) : FenceMaps * Phase :=
  if negb (bool_decide (decode_current (fm_current m) = Some current))
     || negb (mutation_generation_matches (fm_mutation m) generation)
  then (m, ControlDone CONTROL_RESULT_MAP_ERROR)
  else
  match decode_entry (fm_slots m slot) (current_key current) with
  | None => (m, ControlDone CONTROL_RESULT_INVALID)
  | Some entry =>
      if bool_decide (fe_state entry = TerminalClosed) then
        (set_current (write_current_retirement (cc_durable_fence_token c)) m,
         ControlDone CONTROL_RESULT_APPLIED)
      else (m, ControlDone CONTROL_RESULT_STATE_MISMATCH)
  end.

(** ** Registration *)

(** A reservation and what follows it when it is granted. *)
Definition reserved (r : MutationMapValue * (Z * Z * Z)) (next : Z → Z → Phase)
    (m : FenceMaps) : FenceMaps * Phase :=
  let '(mutation, (precheck, generation, claim)) := r in
  (set_mutation mutation m,
   if negb (precheck =? CONTROL_RESULT_APPLIED) then ControlDone precheck
   else next generation claim).

Definition register_start (c : ControlCommand) (m : FenceMaps) : FenceMaps * Phase :=
  reserved (reserve_register_locked (fm_current m) (fm_mutation m) c) (RegisterInsert c) m.

Definition initial_value (c : ControlCommand) : CookieMapValue :=
  mkCookieMapValue 0 COOKIE_CONTROL_INITIAL_CLOSED (cc_socket_cookie c)
    (cc_durable_fence_token c) 0 EGRESS_FENCE_INITIAL_COOKIE_EPOCH.

(** An element no key is linked to. *)
Definition free_slot (m : FenceMaps) (a : nat) : bool :=
  bool_decide (map_Forall (λ _ b, b ≠ a) (fm_cookies m)).

(** [OPC_FENCE_CKS.insert(key, initial, BPF_NOEXIST)] and its status: inserted, already
    there, or another error. *)
Definition register_insert (c : ControlCommand) (generation claim : Z) (ch : Choice)
    (m : FenceMaps) : option (FenceMaps * Phase) :=
  match ch with
  | HelperFails => Some (m, RegisterLookup c generation claim 2)
  | Proceed =>
      if bool_decide (is_Some (fm_cookies m !! command_key c))
      then Some (m, RegisterLookup c generation claim 1) else None
  | InsertInto a =>
      if bool_decide (fm_cookies m !! command_key c = None) && free_slot m a
      then Some (set_cookies (<[command_key c := a]> (fm_cookies m))
                   (set_slot a (initial_value c) m),
                 RegisterLookup c generation claim 0)
      else None
  end.

Definition register_lookup (c : ControlCommand) (generation claim insert_status : Z)
    (m : FenceMaps) : FenceMaps * Phase :=
  (m, RegisterCommit c generation claim insert_status (fm_cookies m !! command_key c)).

Definition register_commit (c : ControlCommand) (generation claim insert_status : Z)
    (slot : option nat) (m : FenceMaps) : FenceMaps * Phase :=
  if mutation_claim_matches (fm_mutation m) generation claim then
    let '(current, entry, result) :=
      register_phase2_locked (fm_current m) (entry_at m slot) c insert_status in
    (set_mutation (commit_mutation_locked claim)
       (set_current current (put_entry slot entry m)), ControlDone result)
  else (m, ControlDone CONTROL_RESULT_MAP_ERROR).

(** ** Refresh *)

Definition refresh_start (c : ControlCommand) (m : FenceMaps) : FenceMaps * Phase :=
  reserved (reserve_refresh_locked (fm_current m) (fm_mutation m) c) (RefreshLookup c) m.

Definition refresh_lookup (c : ControlCommand) (generation claim : Z) (m : FenceMaps)
    : FenceMaps * Phase :=
  (m, RefreshPrepare c generation claim (fm_cookies m !! command_key c)).

(** Committing the claim when the invocation ends here. *)
Definition commit_unless_applied (result claim : Z) (m : FenceMaps) : FenceMaps :=
  if negb (result =? CONTROL_RESULT_APPLIED)
  then set_mutation (commit_mutation_locked claim) m else m.

Definition refresh_prepare (c : ControlCommand) (generation claim : Z)
    (slot : option nat) (m : FenceMaps) : FenceMaps * Phase :=
  if negb (mutation_claim_matches (fm_mutation m) generation claim)
  then (m, ControlDone CONTROL_RESULT_MAP_ERROR)
  else
  let '(entry, (result, deadline)) :=
    match entry_at m slot with
    | Some value => let '(v, r) := prepare_refresh_locked value c in (Some v, r)
    | None => (None, (CONTROL_RESULT_COOKIE_MISSING, 0))
    end in
  (commit_unless_applied result claim (put_entry slot entry m),
   if negb (result =? CONTROL_RESULT_APPLIED) then ControlDone result
   else RefreshObserve c generation claim slot deadline).

Definition refresh_observe (c : ControlCommand) (generation claim : Z)
    (slot : option nat) (prior : Z) (m : FenceMaps) : FenceMaps * Phase :=
  (m, RefreshComplete c generation claim slot prior (fm_clock m)).

Definition refresh_complete (c : ControlCommand) (generation claim : Z)
    (slot : option nat) (prior observed_at : Z) (m : FenceMaps) : FenceMaps * Phase :=
  if negb (mutation_claim_matches (fm_mutation m) generation claim)
  then (m, ControlDone CONTROL_RESULT_MAP_ERROR)
  else
  let '(entry, result) :=
    match entry_at m slot with
    | Some value =>
        let '(v, r) := complete_refresh_locked (fm_current m) value c prior observed_at in
        (Some v, r)
    | None => (None, CONTROL_RESULT_COOKIE_MISSING)
    end in
  (commit_unless_applied result claim (put_entry slot entry m),
   if negb (result =? CONTROL_RESULT_APPLIED) then ControlDone result
   else RefreshObserveAgain c generation claim slot prior).

Definition refresh_observe_again (c : ControlCommand) (generation claim : Z)
    (slot : option nat) (prior : Z) (m : FenceMaps) : FenceMaps * Phase :=
  (m, RefreshFinalize c generation claim slot prior (fm_clock m)).

Definition refresh_finalize (c : ControlCommand) (generation claim : Z)
    (slot : option nat) (prior completed_at : Z) (m : FenceMaps) : FenceMaps * Phase :=
  if negb (mutation_claim_matches (fm_mutation m) generation claim)
  then (m, ControlDone CONTROL_RESULT_MAP_ERROR)
  else
  let '(entry, result) :=
    finalize_refresh_locked (fm_current m) (entry_at m slot) c prior completed_at in
  (set_mutation (commit_mutation_locked claim) (put_entry slot entry m),
   ControlDone result).

(** ** Reclamation *)

Definition reclaim_start (c : ControlCommand) (m : FenceMaps) : FenceMaps * Phase :=
  reserved (reserve_reclaim_locked (fm_current m) (fm_mutation m) c) (ReclaimLookup c) m.

Definition reclaim_lookup (c : ControlCommand) (generation claim : Z) (m : FenceMaps)
    : FenceMaps * Phase :=
  (m, ReclaimMark c generation claim (fm_cookies m !! command_key c)).

Definition reclaim_mark (c : ControlCommand) (generation claim : Z) (slot : option nat)
    (m : FenceMaps) : FenceMaps * Phase :=
  if negb (mutation_claim_matches (fm_mutation m) generation claim)
  then (m, ReclaimRemove c generation claim CONTROL_RESULT_MAP_ERROR)
  else
  match decode_current (fm_current m) with
  | None => (m, ReclaimRemove c generation claim CONTROL_RESULT_INVALID)
  | Some current =>
      match entry_at m slot with
      | None => (m, ReclaimRemove c generation claim CONTROL_RESULT_COOKIE_MISSING)
      | Some value =>
          let '(v, result) := reclaim_locked value current c in
          (put_entry slot (Some v) m, ReclaimRemove c generation claim result)
      end
  end.

(** [remove_cookie], called only after a result of [CONTROL_RESULT_APPLIED]. *)
Definition reclaim_remove (c : ControlCommand) (generation claim result : Z) (ch : Choice)
    (m : FenceMaps) : option (FenceMaps * Phase) :=
  if negb (result =? CONTROL_RESULT_APPLIED)
  then Some (m, ReclaimFinish c generation claim result true)
  else
  match ch with
  | HelperFails => Some (m, ReclaimFinish c generation claim result false)
  | Proceed =>
      match fm_cookies m !! command_key c with
      | Some _ => Some (set_cookies (delete (command_key c) (fm_cookies m)) m,
                        ReclaimFinish c generation claim result true)
      | None => Some (m, ReclaimFinish c generation claim result false)
      end
  | InsertInto _ => None
  end.

(** [finish_mutation] and the result. *)
Definition reclaim_finish (c : ControlCommand) (generation claim result : Z)
    (removed : bool) (m : FenceMaps) : FenceMaps * Phase :=
  let valid := mutation_claim_matches (fm_mutation m) generation claim in
  (if valid then set_mutation (commit_mutation_locked claim) m else m,
   ControlDone (if negb valid || negb removed then CONTROL_RESULT_MAP_ERROR else result)).

(** ** Activation and closing *)

(** [snapshot_mutation_generation]. *)
Definition snapshot_mutation_generation (m : FenceMaps) : option Z :=
  if mm_in_flight_claim (fm_mutation m) =? 0 then Some (mm_generation (fm_mutation m))
  else None.

Definition apply_start (c : ControlCommand) (m : FenceMaps) : FenceMaps * Phase :=
  match snapshot_mutation_generation m with
  | None => (m, ControlDone CONTROL_RESULT_MAP_ERROR)
  | Some generation => (m, ApplyLookup c generation)
  end.

Definition apply_lookup (c : ControlCommand) (generation : Z) (m : FenceMaps)
    : FenceMaps * Phase :=
  match fm_cookies m !! command_key c with
  | None => (m, ControlDone CONTROL_RESULT_COOKIE_MISSING)
  | Some slot => (m, ApplyClock c generation slot)
  end.

Definition apply_clock (c : ControlCommand) (generation : Z) (slot : nat) (m : FenceMaps)
    : FenceMaps * Phase :=
  (m, ApplyEntry c generation slot
        (if bool_decide (cc_operation c = Activate) then fm_clock m else 0)).

Definition apply_entry (c : ControlCommand) (generation : Z) (slot : nat) (now : Z)
    (m : FenceMaps) : FenceMaps * Phase :=
  if negb (mutation_generation_matches (fm_mutation m) generation)
  then (m, ControlDone CONTROL_RESULT_MAP_ERROR)
  else
  let '(v, result) := apply_entry_locked (fm_current m) (fm_slots m slot) c now in
  (set_slot slot v m,
   if negb (result =? CONTROL_RESULT_APPLIED) then ControlDone result
   else if bool_decide (cc_operation c = Activate) then ActivateClock c generation slot
   else ControlDone CONTROL_RESULT_APPLIED).

Definition activate_clock (c : ControlCommand) (generation : Z) (slot : nat)
    (m : FenceMaps) : FenceMaps * Phase :=
  (m, if cc_deadline_boot_ns c <=? fm_clock m then ActivateExpire c generation slot
      else ControlDone CONTROL_RESULT_APPLIED).

Definition activate_expire (c : ControlCommand) (generation : Z) (slot : nat)
    (m : FenceMaps) : FenceMaps * Phase :=
  (if mutation_generation_matches (fm_mutation m) generation
   then set_slot slot (terminalize_exact_active (fm_current m) (fm_slots m slot) c) m
   else m,
   ControlDone CONTROL_RESULT_DEADLINE_ELAPSED).

(** ** Inspection *)

Definition view_start (c : ControlCommand) (m : FenceMaps) : FenceMaps * Phase :=
  if mm_in_flight_claim (fm_mutation m) =? 0
  then (m, ViewLookup c (mm_generation (fm_mutation m)))
  else (m, ViewDone CONTROL_RESULT_MAP_ERROR None).

Definition view_lookup (c : ControlCommand) (generation : Z) (m : FenceMaps)
    : FenceMaps * Phase :=
  (m, ViewEntry c generation
        (if cc_socket_cookie c =? 0 then None else fm_cookies m !! command_key c)).

Definition view_output (current : CurrentMapValue) (mutation : MutationMapValue)
    (entry : option CookieMapValue) : InspectionOutput :=
  mkInspectionOutput (from_le_bytes INSPECTION_MAGIC) EGRESS_FENCE_ABI_VERSION
    (match entry with Some _ => 1 | None => 0 end) 0 current mutation
    (match entry with Some v => v | None => mkCookieMapValue 0 0 0 0 0 0 end)
    (zeroes 40).

Definition view_entry (c : ControlCommand) (generation : Z) (slot : option nat)
    (m : FenceMaps) : FenceMaps * Phase :=
  if negb (mutation_generation_matches (fm_mutation m) generation)
  then (m, ViewDone CONTROL_RESULT_MAP_ERROR None)
  else
  match entry_at m slot with
  | None => (m, ViewStore (view_output (fm_current m) (fm_mutation m) None))
  | Some v =>
      match decode_entry v (command_key c) with
      | Some _ => (m, ViewStore (view_output (fm_current m) (fm_mutation m) (Some v)))
      | None => (m, ViewDone CONTROL_RESULT_INVALID None)
      end
  end.

Definition view_store (output : InspectionOutput) (ch : Choice) (m : FenceMaps)
    : FenceMaps * Phase :=
  match ch with
  | HelperFails => (m, ViewDone CONTROL_RESULT_MAP_ERROR None)
  | _ => (m, ViewDone CONTROL_RESULT_APPLIED (Some output))
  end.

(** ** Dispatch *)

(** A command for this attachment. *)
Definition admitted_command (ctx : Ctx) (expect_inspect : bool) (m : FenceMaps)
    : option ControlCommand :=
  match load_control_command ctx expect_inspect with
  | None => None
  | Some command =>
      match load_config (fm_config m) with
      | None => None
      | Some config =>
          if negb (cc_root_cgroup_id command =? kc_root_cgroup_id config) then None
          else Some command
      end
  end.

(** [opc_fence_ctl] up to its first critical section. *)
Definition control_start (ctx : Ctx) (m : FenceMaps) : FenceMaps * Phase :=
  match admitted_command ctx false m with
  | None => (m, ControlDone CONTROL_RESULT_INVALID)
  | Some c =>
      match cc_operation c with
      | Register => register_start c m
      | Reclaim => reclaim_start c m
      | PublishRetirement => retire_start c m
      | PublishLifecycle =>
          let '(current, result) :=
            publish_lifecycle_locked (fm_current m) (fm_mutation m) c in
          (set_current current m, ControlDone result)
      | Refresh => refresh_start c m
      | Activate | Close | Inspect => apply_start c m
      end
  end.

(** [opc_fence_view] up to its first critical section. *)
Definition inspect_start (ctx : Ctx) (m : FenceMaps) : FenceMaps * Phase :=
  match admitted_command ctx true m with
  | None => (m, ViewDone CONTROL_RESULT_INVALID None)
  | Some c => view_start c m
  end.

Inductive Invocation : Type :=
  | Gate (cpu : Z) (ctx : Ctx) (socket : option FullSocketView) (socket_cookie : Z)
  | Control (ctx : Ctx)
  | View (ctx : Ctx).

Definition start (i : Invocation) (m : FenceMaps) : FenceMaps * Phase :=
  match i with
  | Gate cpu ctx socket cookie => gate_start cpu ctx socket cookie m
  | Control ctx => control_start ctx m
  | View ctx => inspect_start ctx m
  end.

(** The next step of an invocation; [None] when it is over or the choice does not
    apply. *)
Definition advance (p : Phase) (ch : Choice) (m : FenceMaps)
    : option (FenceMaps * Phase) :=
  match p with
  | GateLookup g current => Some (gate_lookup g current m)
  | GateEntry g current slot => Some (gate_entry g current slot m)
  | GateClock g current entry => Some (gate_clock g current entry m)
  | RetireLookup c current generation => Some (retire_lookup c current generation m)
  | RetireEntry c current generation slot => Some (retire_entry c current generation slot m)
  | RegisterInsert c generation claim => register_insert c generation claim ch m
  | RegisterLookup c generation claim status =>
      Some (register_lookup c generation claim status m)
  | RegisterCommit c generation claim status slot =>
      Some (register_commit c generation claim status slot m)
  | RefreshLookup c generation claim => Some (refresh_lookup c generation claim m)
  | RefreshPrepare c generation claim slot =>
      Some (refresh_prepare c generation claim slot m)
  | RefreshObserve c generation claim slot prior =>
      Some (refresh_observe c generation claim slot prior m)
  | RefreshComplete c generation claim slot prior observed_at =>
      Some (refresh_complete c generation claim slot prior observed_at m)
  | RefreshObserveAgain c generation claim slot prior =>
      Some (refresh_observe_again c generation claim slot prior m)
  | RefreshFinalize c generation claim slot prior completed_at =>
      Some (refresh_finalize c generation claim slot prior completed_at m)
  | ReclaimLookup c generation claim => Some (reclaim_lookup c generation claim m)
  | ReclaimMark c generation claim slot => Some (reclaim_mark c generation claim slot m)
  | ReclaimRemove c generation claim result =>
      reclaim_remove c generation claim result ch m
  | ReclaimFinish c generation claim result removed =>
      Some (reclaim_finish c generation claim result removed m)
  | ApplyLookup c generation => Some (apply_lookup c generation m)
  | ApplyClock c generation slot => Some (apply_clock c generation slot m)
  | ApplyEntry c generation slot now => Some (apply_entry c generation slot now m)
  | ActivateClock c generation slot => Some (activate_clock c generation slot m)
  | ActivateExpire c generation slot => Some (activate_expire c generation slot m)
  | ViewLookup c generation => Some (view_lookup c generation m)
  | ViewEntry c generation slot => Some (view_entry c generation slot m)
  | ViewStore output => Some (view_store output ch m)
  | GateDone _ _ | ViewDone _ _ | ControlDone _ => None
  end.

(** ** The system *)

Record FenceSystem : Type := mkFenceSystem {
  fs_maps : FenceMaps;
  fs_running : gmap nat Phase;
}.

Inductive Event : Type :=
  | Start (t : nat) (i : Invocation)
  | Step (t : nat) (ch : Choice)
  | Tick (elapsed : Z)
  | Overwrite (slot : nat) (v : CookieMapValue).

Definition exec (s : FenceSystem) (e : Event) : option FenceSystem :=
  let m := fs_maps s in
  match e with
  | Start t i =>
      match fs_running s !! t with
      | Some _ => None
      | None =>
          let '(m', p) := start i m in Some (mkFenceSystem m' (<[t := p]> (fs_running s)))
      end
  | Step t ch =>
      match fs_running s !! t with
      | None => None
      | Some p =>
          match advance p ch m with
          | None => None
          | Some (m', p') => Some (mkFenceSystem m' (<[t := p']> (fs_running s)))
          end
      end
  | Tick elapsed =>
      if (0 <=? elapsed) && (fm_clock m + elapsed <=? U64_MAX)
      then Some (mkFenceSystem (set_clock (fm_clock m + elapsed) m) (fs_running s))
      else None
  | Overwrite slot v =>
      if free_slot m slot
      then Some (mkFenceSystem (set_slot slot v m) (fs_running s)) else None
  end.

Fixpoint run (s : FenceSystem) (es : list Event) : option FenceSystem :=
  match es with
  | [] => Some s
  | e :: es => match exec s e with Some s' => run s' es | None => None end
  end.

(** The maps as created: all zero, no cookie, nothing running. *)
Definition initial_system (config : ConfigMapValue) (slots : nat → CookieMapValue)
    (clock : Z) : FenceSystem :=
  mkFenceSystem
    (mkFenceMaps config (mkCurrentMapValue 0 0 0 0) (mkMutationMapValue 0 0) ∅ slots ∅
       clock) ∅.

End Programs.

Arguments Invocation : clear implicits.
Arguments Event : clear implicits.
