(* ===== verification/FenceInvariant.v ===== *)
(** The invariant of the concurrent egress fence: what holds of the maps between any two
    atomic steps, what each invocation may rely on at each of its phases, and that every
    step of every invocation keeps both. *)

From stdpp Require Import functions.
From S2P Require Import Prelude.
From S2P Require Import FenceAbi.
From S2P Require Import FenceCodec.
From S2P Require Import FencePacket.
From S2P Require Import FenceKernel.
From S2P Require Import FenceSystem.

(** ** Map values and what they stand for *)

(** The slot of the cookie map that holds entry [e] under key [k]. *)
Definition entry_value (k : CookieMapKey) (e : FenceEntry) : CookieMapValue :=
  mkCookieMapValue 0 (state_control (fe_state e)) (mk_socket_cookie k)
    (mk_durable_fence_token k) (fe_deadline_boot_ns e) (fe_control_epoch e).

Definition current_value (c : CurrentFenceToken) : CurrentMapValue :=
  mkCurrentMapValue 0 (current_control c) (ct_durable_fence_token c)
    (ct_registered_socket_cookie c).

(** The kernel's decoders are those of the shared formats. *)
Lemma decode_entry_of v k :
  decode_entry v k
  = if negb (cw_socket_cookie v =? mk_socket_cookie k)
       || negb (cw_durable_fence_token v =? mk_durable_fence_token k)
       || negb (cw_reserved v =? 0)
    then None
    else entry_of (cw_control v) (cw_durable_fence_token v) (cw_deadline_boot_ns v)
           (cw_control_epoch v).
Proof.
  unfold decode_entry, entry_of. destruct (_ || _); [done|]. cbn [orb].
  destruct (negb _); [done|].
  destruct (cw_control v =? COOKIE_CONTROL_INITIAL_CLOSED) eqn:E; cbn [andb]; [|done].
  apply Z.eqb_eq in E. rewrite E. unfold initial_closed, no_lifecycle.
  destruct (cw_deadline_boot_ns v =? 0), (cw_control_epoch v =? _),
    (cw_durable_fence_token v =? 0) eqn:Et; done.
Qed.

Lemma decode_current_of v :
  decode_current v
  = if negb (cm_reserved v =? 0) then None
    else current_of (cm_control v) (cm_durable_fence_token v)
           (cm_registered_socket_cookie v).
Proof. done. Qed.

Lemma decode_entry_inv v k e :
  decode_entry v k = Some e →
  v = entry_value k e ∧ fe_durable_fence_token e = mk_durable_fence_token k.
Proof.
  rewrite decode_entry_of. destruct (_ || _) eqn:Hi; [done|]. intros H.
  apply entry_of_inv in H as [Hc He]. to_prop. destruct v as [r ct sc t d ep].
  cbn in *. subst. rewrite He. done.
Qed.

Lemma decode_entry_value k e :
  entry_ok e → fe_durable_fence_token e = mk_durable_fence_token k →
  decode_entry (entry_value k e) k = Some e.
Proof.
  intros He Ht. rewrite decode_entry_of. cbn. rewrite !Z.eqb_refl. cbn [negb orb].
  rewrite <-Ht. by apply entry_of_ok.
Qed.

Lemma decode_current_inv v c : decode_current v = Some c → v = current_value c.
Proof.
  rewrite decode_current_of. destruct (negb _) eqn:Hr; [done|]. intros H.
  apply current_of_inv in H as (Hc & Ht & Hk). to_prop. destruct v. cbn in *. by subst.
Qed.

Lemma decode_current_value c : current_ok c → decode_current (current_value c) = Some c.
Proof. intros Hc. rewrite decode_current_of. cbn. by apply current_of_ok. Qed.

(** ** The maps *)

(** An entry as the invariant keeps it: canonical, within its width, and authorized for
    no longer than the gate's lifetime from now. *)
Definition entry_kept (clock : Z) (k : CookieMapKey) (e : FenceEntry) : Prop :=
  entry_ok e ∧ fe_durable_fence_token e = mk_durable_fence_token k
  ∧ 1 ≤ fe_control_epoch e
  ∧ (fe_state e = Active →
     fe_deadline_boot_ns e ≤ clock + EGRESS_FENCE_MAX_GATE_LIFETIME_NS).

Definition slot_kept (clock : Z) (k : CookieMapKey) (v : CookieMapValue) : Prop :=
  ∃ e, v = entry_value k e ∧ entry_kept clock k e.

Definition cookie_ok (k : CookieMapKey) : Prop :=
  u64 (mk_socket_cookie k) ∧ mk_socket_cookie k ≠ 0.

Definition idle (m : FenceMaps) : Prop := mm_in_flight_claim (fm_mutation m) = 0.

Record maps_ok (c : CurrentFenceToken) (m : FenceMaps) : Prop := {
  mo_current : fm_current m = current_value c;
  mo_current_ok : current_ok c;
  mo_clock : 0 ≤ fm_clock m;
  mo_generation : 0 ≤ mm_generation (fm_mutation m) ≤ U64_MAX;
  mo_claim : idle m ∨ mm_in_flight_claim (fm_mutation m) = mm_generation (fm_mutation m) + 1
             ∧ mm_generation (fm_mutation m) ≠ U64_MAX;
  mo_slots k a :
    fm_cookies m !! k = Some a →
    slot_kept (fm_clock m) k (fm_slots m a) ∧ cookie_ok k
    ∧ mk_durable_fence_token k ≤ ct_durable_fence_token c;
  mo_injective k k' a :
    fm_cookies m !! k = Some a → fm_cookies m !! k' = Some a → k = k';
  mo_registered :
    is_lifecycle_open c = true → ct_registered_socket_cookie c ≠ 0 →
    is_Some (fm_cookies m !! current_key c);
  mo_unique k :
    is_Some (fm_cookies m !! k) → mk_durable_fence_token k = ct_durable_fence_token c →
    k = current_key c ∨ ct_registered_socket_cookie c = 0 ∧ ¬ idle m;
}.

(** No key of the current lifecycle is linked before its cookie is registered. *)
Definition settled (c : CurrentFenceToken) (m : FenceMaps) : Prop :=
  ∀ k, is_Some (fm_cookies m !! k) → mk_durable_fence_token k = ct_durable_fence_token c →
    k = current_key c.

Lemma idle_settled c m : maps_ok c m → idle m → settled c m.
Proof. intros Hm Hi k Hk Ht. by destruct (mo_unique c m Hm k Hk Ht) as [|[_ ?]]. Qed.

(** ** What an invocation knows at each phase *)

Definition owned (m : FenceMaps) (generation claim : Z) : Prop :=
  mutation_claim_matches (fm_mutation m) generation claim = true.

(** A retained pointer is that of the live entry while the generation has not moved. *)
Definition pinned (m : FenceMaps) (generation : Z) (k : CookieMapKey) (slot : option nat)
    : Prop :=
  generation ≤ mm_generation (fm_mutation m)
  ∧ (mutation_generation_matches (fm_mutation m) generation = true →
     fm_cookies m !! k = slot).

(** The current token a classifier saw is current or superseded for good. *)
Definition seen (c current : CurrentFenceToken) : Prop :=
  c = current ∨ ct_durable_fence_token current < ct_durable_fence_token c.

Definition gate_related (g : GatePacket) : Prop :=
  gp_socket_matches g = true ∨ gp_disposition g = Protected.

Definition gate_ok (c : CurrentFenceToken) (g : GatePacket) (current : CurrentFenceToken)
    : Prop :=
  gate_related g ∧ gp_cookie g ≠ 0 ∧ is_lifecycle_open current = true
  ∧ ct_registered_socket_cookie current = gp_cookie g ∧ seen c current.

Definition retire_ok (cmd : ControlCommand) (current : CurrentFenceToken) : Prop :=
  command_ok cmd ∧ cc_operation cmd = PublishRetirement
  ∧ is_lifecycle_open current = true ∧ ct_registered_socket_cookie current ≠ 0
  ∧ checked_add (ct_durable_fence_token current) 1 = Some (cc_durable_fence_token cmd).

Definition register_ok (c : CurrentFenceToken) (m : FenceMaps) (cmd : ControlCommand)
    (generation claim : Z) : Prop :=
  owned m generation claim ∧ command_ok cmd ∧ cc_operation cmd = Register
  ∧ is_lifecycle_open c = true ∧ ct_durable_fence_token c = cc_durable_fence_token cmd
  ∧ (ct_registered_socket_cookie c = 0
     ∨ ct_registered_socket_cookie c = cc_socket_cookie cmd).

(** After the insertion: a fresh entry is the only one of an unregistered lifecycle; an
    entry already there is the registered one. *)
Definition inserted (c : CurrentFenceToken) (m : FenceMaps) (cmd : ControlCommand)
    (status : Z) : Prop :=
  (status = 0 ∧ ct_registered_socket_cookie c = 0
   ∧ (∃ a, fm_cookies m !! command_key cmd = Some a ∧ fm_slots m a = initial_value cmd)
   ∧ ∀ k, is_Some (fm_cookies m !! k) →
       mk_durable_fence_token k = ct_durable_fence_token c → k = command_key cmd)
  ∨ (status = 1 ∧ ct_registered_socket_cookie c = cc_socket_cookie cmd ∧ settled c m)
  ∨ (status = 2 ∧ settled c m).

Definition refresh_ok (c : CurrentFenceToken) (m : FenceMaps) (cmd : ControlCommand)
    (generation claim : Z) : Prop :=
  owned m generation claim ∧ command_ok cmd ∧ cc_operation cmd = Refresh
  ∧ not_current c cmd = false.

(** The entry a refresh has closed while it reads the clock. *)
Definition prepared (m : FenceMaps) (cmd : ControlCommand) (slot : option nat) (prior : Z)
    : Prop :=
  fm_cookies m !! command_key cmd = slot
  ∧ (∃ a, slot = Some a
     ∧ fm_slots m a = entry_value (command_key cmd)
         (mkFenceEntry Reclaiming (cc_durable_fence_token cmd) 0 (cc_expected_epoch cmd)))
  ∧ 1 ≤ cc_expected_epoch cmd ≤ LAST_REFRESHABLE_EPOCH
  ∧ u64 prior ∧ prior ≠ 0 ∧ prior ≤ fm_clock m + EGRESS_FENCE_MAX_GATE_LIFETIME_NS.

Definition within_lifetime (m : FenceMaps) (cmd : ControlCommand) : Prop :=
  cc_deadline_boot_ns cmd ≤ fm_clock m + EGRESS_FENCE_MAX_GATE_LIFETIME_NS.

Definition reclaim_ok (c : CurrentFenceToken) (m : FenceMaps) (cmd : ControlCommand)
    (generation claim : Z) : Prop :=
  owned m generation claim ∧ command_ok cmd ∧ settled c m
  ∧ cc_durable_fence_token cmd < ct_durable_fence_token c.

Definition apply_ok (cmd : ControlCommand) : Prop := command_ok cmd.

Definition view_slot (m : FenceMaps) (cmd : ControlCommand) (generation : Z)
    (slot : option nat) : Prop :=
  if cc_socket_cookie cmd =? 0 then slot = None
  else pinned m generation (command_key cmd) slot.

Definition phase_ok (c : CurrentFenceToken) (m : FenceMaps) (p : Phase) : Prop :=
  match p with
  | GateLookup g current | GateClock g current _ => gate_ok c g current
  | GateEntry g current slot =>
      gate_ok c g current
      ∧ (c = current → fm_cookies m !! gate_key g current = Some slot)
  | RetireLookup cmd current generation =>
      retire_ok cmd current ∧ generation ≤ mm_generation (fm_mutation m)
  | RetireEntry cmd current generation slot =>
      retire_ok cmd current ∧ pinned m generation (current_key current) (Some slot)
  | RegisterInsert cmd generation claim =>
      register_ok c m cmd generation claim ∧ settled c m
  | RegisterLookup cmd generation claim status =>
      register_ok c m cmd generation claim ∧ inserted c m cmd status
  | RegisterCommit cmd generation claim status slot =>
      register_ok c m cmd generation claim ∧ inserted c m cmd status
      ∧ fm_cookies m !! command_key cmd = slot
  | RefreshLookup cmd generation claim => refresh_ok c m cmd generation claim
  | RefreshPrepare cmd generation claim slot =>
      refresh_ok c m cmd generation claim ∧ fm_cookies m !! command_key cmd = slot
  | RefreshObserve cmd generation claim slot prior =>
      refresh_ok c m cmd generation claim ∧ prepared m cmd slot prior
  | RefreshComplete cmd generation claim slot prior observed_at =>
      refresh_ok c m cmd generation claim ∧ prepared m cmd slot prior
      ∧ 0 ≤ observed_at ≤ fm_clock m
  | RefreshObserveAgain cmd generation claim slot prior =>
      refresh_ok c m cmd generation claim ∧ prepared m cmd slot prior
      ∧ within_lifetime m cmd
  | RefreshFinalize cmd generation claim slot prior completed_at =>
      refresh_ok c m cmd generation claim ∧ prepared m cmd slot prior
      ∧ within_lifetime m cmd ∧ 0 ≤ completed_at ≤ fm_clock m
  | ReclaimLookup cmd generation claim | ReclaimRemove cmd generation claim _
  | ReclaimFinish cmd generation claim _ _ => reclaim_ok c m cmd generation claim
  | ReclaimMark cmd generation claim slot =>
      reclaim_ok c m cmd generation claim ∧ fm_cookies m !! command_key cmd = slot
  | ApplyLookup cmd generation =>
      apply_ok cmd ∧ generation ≤ mm_generation (fm_mutation m)
  | ApplyClock cmd generation slot | ActivateClock cmd generation slot
  | ActivateExpire cmd generation slot =>
      apply_ok cmd ∧ pinned m generation (command_key cmd) (Some slot)
  | ApplyEntry cmd generation slot now =>
      apply_ok cmd ∧ pinned m generation (command_key cmd) (Some slot)
      ∧ 0 ≤ now ≤ fm_clock m
  | ViewLookup cmd generation => generation ≤ mm_generation (fm_mutation m)
  | ViewEntry cmd generation slot => view_slot m cmd generation slot
  | ViewStore _ | GateDone _ _ | ViewDone _ _ | ControlDone _ => True
  end.

(** The invocation holds the mutation claim. *)
Definition owns (p : Phase) : bool :=
  match p with
  | RegisterInsert _ _ _ | RegisterLookup _ _ _ _ | RegisterCommit _ _ _ _ _
  | RefreshLookup _ _ _ | RefreshPrepare _ _ _ _ | RefreshObserve _ _ _ _ _
  | RefreshComplete _ _ _ _ _ _ | RefreshObserveAgain _ _ _ _ _
  | RefreshFinalize _ _ _ _ _ _ | ReclaimLookup _ _ _ | ReclaimMark _ _ _ _
  | ReclaimRemove _ _ _ _ | ReclaimFinish _ _ _ _ _ => true
  | _ => false
  end.

(** ** Interference *)

(** How an entry moves while its lifecycle is not superseded: its epoch never goes back
    and a terminal entry stays as it is. *)
Definition entry_moves (v v' : CookieMapValue) : Prop :=
  cw_control_epoch v ≤ cw_control_epoch v'
  ∧ (cw_control v = state_control TerminalClosed → v' = v).

Lemma entry_moves_refl v : entry_moves v v.
Proof. split; [apply Z.le_refl|done]. Qed.

Lemma entry_moves_same v v' : v' = v → entry_moves v v'.
Proof. intros ->. apply entry_moves_refl. Qed.

Lemma entry_moves_trans v1 v2 v3 : entry_moves v1 v2 → entry_moves v2 v3 → entry_moves v1 v3.
Proof.
  intros [He1 Ht1] [He2 Ht2]. split; [lia|]. intros E. pose proof (Ht1 E) as ->. by apply Ht2.
Qed.

Lemma entry_moves_open k e e' :
  fe_state e ≠ TerminalClosed → fe_control_epoch e ≤ fe_control_epoch e' →
  entry_moves (entry_value k e) (entry_value k e').
Proof. intros Hs He. split; [done|]. by destruct (fe_state e) eqn:E; cbn; rewrite E. Qed.

(** What any step of another invocation, or of the environment, may do. *)
Record interferes (c : CurrentFenceToken) (m : FenceMaps) (c' : CurrentFenceToken)
    (m' : FenceMaps) : Prop := {
  if_generation : mm_generation (fm_mutation m) ≤ mm_generation (fm_mutation m');
  if_idle :
    mm_generation (fm_mutation m') = mm_generation (fm_mutation m) → idle m' →
    idle m ∧ fm_cookies m' = fm_cookies m;
  if_current :
    c' = c ∨ ct_durable_fence_token c < ct_durable_fence_token c'
    ∨ ct_durable_fence_token c' = ct_durable_fence_token c
      ∧ ct_registered_socket_cookie c = 0;
  if_live k a :
    fm_cookies m !! k = Some a → ct_durable_fence_token c' ≤ mk_durable_fence_token k →
    fm_cookies m' !! k = Some a;
  if_entry k a :
    fm_cookies m !! k = Some a → ct_durable_fence_token c' ≤ mk_durable_fence_token k →
    entry_moves (fm_slots m a) (fm_slots m' a);
  if_clock : fm_clock m ≤ fm_clock m';
}.

(** What they may do while a claim is held: nothing to what it protects. *)
Record quiet (c : CurrentFenceToken) (m : FenceMaps) (c' : CurrentFenceToken)
    (m' : FenceMaps) : Prop := {
  qt_current : c' = c;
  qt_mutation : fm_mutation m' = fm_mutation m;
  qt_cookies : fm_cookies m' = fm_cookies m;
  qt_slots k a : fm_cookies m !! k = Some a → fm_slots m' a = fm_slots m a;
  qt_clock : fm_clock m ≤ fm_clock m';
}.

Lemma quiet_interferes c m c' m' : quiet c m c' m' → interferes c m c' m'.
Proof.
  intros [-> Hm Hk Hs Ht]. split; rewrite ?Hm, ?Hk; try done; [|by left|].
  - intros _ Hi. unfold idle in *. by rewrite Hm in Hi.
  - intros k a Ha _. rewrite (Hs k a Ha). apply entry_moves_refl.
Qed.

Lemma pinned_stable c m c' m' generation k slot :
  interferes c m c' m' → pinned m generation k slot → pinned m' generation k slot.
Proof.
  intros Hi [Hg Hp]. pose proof (if_generation _ _ _ _ Hi). split; [lia|].
  unfold mutation_generation_matches. intros [E1%Z.eqb_eq E2%Z.eqb_eq]%andb_true_iff.
  destruct (if_idle _ _ _ _ Hi) as [Hz ->]; [lia|done|]. apply Hp.
  unfold mutation_generation_matches. unfold idle in Hz. rewrite Hz.
  replace (mm_generation (fm_mutation m)) with generation by lia. by rewrite Z.eqb_refl.
Qed.

Lemma gate_ok_stable c m c' m' g current :
  interferes c m c' m' → gate_ok c g current → gate_ok c' g current.
Proof.
  intros Hi (Hr & Hz & Ho & Hk & Hs). split_and!; try done.
  destruct Hs as [->|Hs], (if_current _ _ _ _ Hi) as [->|[?|[? ?]]];
    [by left|by right|congruence|by right|right; lia|right; lia].
Qed.

(** A phase that holds no claim is stable under interference. *)
Lemma phase_stable c m c' m' p :
  interferes c m c' m' → owns p = false → phase_ok c m p → phase_ok c' m' p.
Proof.
  intros Hi Hp. pose proof (if_generation _ _ _ _ Hi). pose proof (if_clock _ _ _ _ Hi).
  destruct p; try done; cbn [phase_ok]; intros Hok;
    try (destruct Hok as [Hok Hpin]); try (by eapply gate_ok_stable);
    try (split; [done|first [lia|by eapply pinned_stable]]); try lia.
  - split; [by eapply gate_ok_stable|]. intros ->. destruct Hok as (_ & _ & _ & Hk & Hs).
    assert (c = current) as ->.
    { destruct Hs as [|Hs]; [done|].
      destruct (if_current _ _ _ _ Hi) as [|[|[]]]; [congruence|lia..]. }
    apply (if_live _ _ _ _ Hi); [by apply Hpin|done].
  - destruct Hpin as [Hpin ?]. split_and!; [done|by eapply pinned_stable|lia..].
  - unfold view_slot in *. destruct (_ =? 0); [done|]. by eapply pinned_stable.
Qed.

Lemma settled_quiet c m c' m' : quiet c m c' m' → settled c m → settled c' m'.
Proof. intros [-> _ Hk _ _] Hs k. rewrite Hk. apply Hs. Qed.

Lemma owned_quiet c m c' m' g cl : quiet c m c' m' → owned m g cl → owned m' g cl.
Proof. intros [_ Hm _ _ _]. unfold owned. by rewrite Hm. Qed.

Lemma inserted_quiet c m c' m' cmd st :
  quiet c m c' m' → inserted c m cmd st → inserted c' m' cmd st.
Proof.
  intros Hq. pose proof Hq as [-> _ Hk Hs _].
  intros [(-> & Hz & (a & Ha & Hv) & Hu)|[(-> & Hz & Hst)|(-> & Hst)]].
  - left. rewrite Hk. split_and!; [done|done| |done]. exists a. by rewrite (Hs _ _ Ha).
  - right; left. by eauto using settled_quiet.
  - right; right. by eauto using settled_quiet.
Qed.

Lemma prepared_quiet c m c' m' cmd slot prior :
  quiet c m c' m' → prepared m cmd slot prior → prepared m' cmd slot prior.
Proof.
  intros [-> _ Hk Hs Ht] (Hc & (a & -> & Hv) & He & Hu & Hz & Hl). unfold prepared.
  rewrite Hk. split; [done|]. split; [exists a; by rewrite (Hs _ _ Hc)|].
  split; [done|]. split; [done|]. split; [done|lia].
Qed.

(** A phase that holds the claim is stable while the others are quiet. *)
Lemma phase_quiet c m c' m' p :
  quiet c m c' m' → owns p = true → phase_ok c m p → phase_ok c' m' p.
Proof.
  intros Hq Hp. pose proof (qt_current _ _ _ _ Hq). pose proof (qt_cookies _ _ _ _ Hq) as Hk.
  pose proof (qt_clock _ _ _ _ Hq). subst c'.
  assert (∀ g cl, owned m g cl → owned m' g cl) as Ho by (intros; by eapply owned_quiet).
  pose proof (λ cmd st, inserted_quiet _ _ _ _ cmd st Hq) as Hi.
  pose proof (λ cmd sl pr, prepared_quiet _ _ _ _ cmd sl pr Hq) as Hpr.
  pose proof (settled_quiet _ _ _ _ Hq) as Hst.
  destruct p; try done; cbn [phase_ok];
    unfold register_ok, refresh_ok, reclaim_ok, within_lifetime; rewrite ?Hk;
    naive_solver lia.
Qed.

(** ** Changes of the maps *)

Lemma owned_value m g cl :
  owned m g cl ↔ fm_mutation m = mkMutationMapValue g cl ∧ cl = g + 1 ∧ g ≠ U64_MAX.
Proof.
  unfold owned, mutation_claim_matches. destruct (fm_mutation m) as [g' cl']. cbn.
  rewrite !andb_true_iff, negb_true_iff, Z.eqb_neq, !Z.eqb_eq. naive_solver.
Qed.

Lemma owned_busy c m g cl : maps_ok c m → owned m g cl → ¬ idle m.
Proof.
  intros Hm (E & -> & _)%owned_value. unfold idle. pose proof (mo_generation c m Hm) as Hg.
  rewrite E in *. cbn in *. lia.
Qed.

Lemma matches_idle m g :
  mutation_generation_matches (fm_mutation m) g = true →
  mm_generation (fm_mutation m) = g ∧ idle m.
Proof.
  unfold mutation_generation_matches, idle. by intros [?%Z.eqb_eq ?%Z.eqb_eq]%andb_true_iff.
Qed.

(** Counters do not matter. *)
Definition same_maps (m m' : FenceMaps) : Prop :=
  fm_current m' = fm_current m ∧ fm_mutation m' = fm_mutation m
  ∧ fm_cookies m' = fm_cookies m ∧ (∀ a, fm_slots m' a = fm_slots m a)
  ∧ fm_clock m' = fm_clock m.

Lemma same_refl m : same_maps m m.
Proof. done. Qed.

Lemma same_count m cpu slot : same_maps m (count cpu slot m).
Proof. done. Qed.

Lemma same_count_verdict m cpu v : same_maps m (count_verdict cpu v m).
Proof. unfold count_verdict. by case_match. Qed.
#[export] Hint Resolve same_refl same_count same_count_verdict : fence.

Lemma same_maps_ok c m m' : same_maps m m' → maps_ok c m → maps_ok c m'.
Proof.
  intros (E1 & E2 & E3 & E4 & E5) []. unfold idle in *.
  split; unfold idle in *; rewrite ?E1, ?E2, ?E3, ?E5; try done.
  intros k a. rewrite E4. apply mo_slots0.
Qed.

Lemma same_quiet c m m' : same_maps m m' → quiet c m c m'.
Proof. intros (E1 & E2 & E3 & E4 & E5). split; rewrite ?E2, ?E3, ?E5; done. Qed.

(** Writing back what is there. *)
Lemma same_put m slot : same_maps m (put_entry slot (entry_at m slot) m).
Proof.
  destruct slot as [a|]; [|done]. repeat split; try done. intros b. cbn.
  unfold insert, fn_insert. by case_decide; subst.
Qed.
#[export] Hint Resolve same_put : fence.

Lemma same_maps_current m m' : same_maps m m' → same_maps m (set_current (fm_current m) m').
Proof. by intros (? & ? & ? & ? & ?). Qed.

Lemma set_slot_same a v m : fm_slots (set_slot a v m) a = v.
Proof. cbn. by rewrite fn_lookup_insert. Qed.

Lemma set_slot_other a b v m : a ≠ b → fm_slots (set_slot a v m) b = fm_slots m b.
Proof. intros. cbn. by rewrite fn_lookup_insert_ne. Qed.

(** A linked slot gets another kept entry. *)
Lemma maps_ok_slot c m k a e :
  maps_ok c m → fm_cookies m !! k = Some a → entry_kept (fm_clock m) k e →
  maps_ok c (set_slot a (entry_value k e) m).
Proof.
  intros Hm Ha He. destruct Hm. split; try done.
  intros k' a' Hk'. destruct (decide (a' = a)) as [->|Hne].
  - rewrite set_slot_same. assert (k' = k) as -> by (by eapply mo_injective0).
    destruct (mo_slots0 k a Ha) as [_ ?]. split; [|done]. exists e. done.
  - rewrite set_slot_other by done. by apply mo_slots0.
Qed.

Lemma free_slot_unlinked m k a : free_slot m a = true → fm_cookies m !! k = Some a → False.
Proof. intros Hf%bool_decide_eq_true Hk. by apply (Hf k a Hk). Qed.

(** Time passes. *)
Lemma maps_ok_clock c m n : maps_ok c m → fm_clock m ≤ n → maps_ok c (set_clock n m).
Proof.
  intros Hm Hn. destruct Hm. split; try done; cbn; [lia|]. intros k a Hk.
  destruct (mo_slots0 k a Hk) as ((e & Hv & Hok & Ht & He & Hl) & Hr). split; [|done].
  exists e. split; [done|]. split; [done|]. split; [done|]. split; [done|].
  intros E. specialize (Hl E). lia.
Qed.

(** A free slot gets anything. *)
Lemma maps_ok_free c m a v :
  maps_ok c m → free_slot m a = true → maps_ok c (set_slot a v m).
Proof.
  intros Hm Hf. destruct Hm. split; try done.
  intros k' a' Hk'. rewrite set_slot_other; [by apply mo_slots0|]. intros <-.
  by eapply free_slot_unlinked.
Qed.

Lemma maps_ok_mutation c m v :
  maps_ok c m → 0 ≤ mm_generation v ≤ U64_MAX →
  (mm_in_flight_claim v = 0 ∧ settled c m
   ∨ mm_in_flight_claim v = mm_generation v + 1 ∧ mm_generation v ≠ U64_MAX) →
  maps_ok c (set_mutation v m).
Proof.
  intros Hm Hg Hv. destruct Hm. split; try done; unfold idle; cbn.
  - destruct Hv as [[? _]|?]; [by left|by right].
  - intros k Hk Ht. destruct Hv as [[_ Hs]|[Hc _]]; [left; by apply Hs|].
    destruct (mo_unique0 k Hk Ht) as [->|[? _]]; [by left|]. right. split; [done|]. lia.
Qed.

(** Publication of a higher token. *)
Lemma maps_ok_publish c c' m :
  maps_ok c m → current_ok c' → ct_durable_fence_token c < ct_durable_fence_token c' →
  ct_registered_socket_cookie c' = 0 →
  maps_ok c' (set_current (current_value c') m).
Proof.
  intros Hm Hc Ht Hk. destruct Hm. split; try done; cbn.
  - intros k a Ha. destruct (mo_slots0 k a Ha) as (? & ? & ?). split; [done|].
    split; [done|lia].
  - intros k [a Ha] E. destruct (mo_slots0 k a Ha) as (_ & _ & ?). lia.
Qed.

(** Insertion of a fresh key of the unregistered current lifecycle. *)
Lemma maps_ok_insert c m k a e :
  maps_ok c m → ¬ idle m → fm_cookies m !! k = None → free_slot m a = true →
  entry_kept (fm_clock m) k e → cookie_ok k →
  mk_durable_fence_token k = ct_durable_fence_token c →
  ct_registered_socket_cookie c = 0 →
  maps_ok c (set_cookies (<[k := a]> (fm_cookies m)) (set_slot a (entry_value k e) m)).
Proof.
  intros Hm Hi Hk Hf%bool_decide_eq_true He Hu Ht Hz. destruct Hm. split; try done; cbn.
  - intros k' a' [[<- <-]|[Hne Hk']]%lookup_insert_Some.
    + rewrite fn_lookup_insert. split; [by exists e|]. split; [done|lia].
    + rewrite fn_lookup_insert_ne by (intros ->; by apply (Hf _ _ Hk')). by apply mo_slots0.
  - intros k1 k2 b [[<- <-]|[? H1]]%lookup_insert_Some [[<- E]|[? H2]]%lookup_insert_Some;
      try done.
    + by destruct (Hf _ _ H2).
    + subst b. by destruct (Hf _ _ H1).
    + by eapply mo_injective0.
  - intros k' _ Ht'. by right.
Qed.

(** Removal of a superseded key. *)
Lemma maps_ok_delete c m k :
  maps_ok c m → mk_durable_fence_token k < ct_durable_fence_token c →
  maps_ok c (set_cookies (delete k (fm_cookies m)) m).
Proof.
  intros Hm Ht. destruct Hm. split; try done; cbn.
  - intros k' a [_ Hk]%lookup_delete_Some. by apply mo_slots0.
  - intros k1 k2 a [_ H1]%lookup_delete_Some [_ H2]%lookup_delete_Some.
    by eapply mo_injective0.
  - intros Ho Hz. rewrite lookup_delete_ne; [by apply mo_registered0|].
    intros ->. cbn in Ht. lia.
  - intros k' [a [_ Hk]%lookup_delete_Some] E. by apply mo_unique0; [exists a|].
Qed.

(** An open lifecycle has an odd token. *)
Lemma open_lifecycle c :
  current_ok c → is_lifecycle_open c = true → no_lifecycle (ct_durable_fence_token c) = false.
Proof.
  intros (_ & _ & Hc) Ho. unfold is_lifecycle_open in Ho. apply andb_true_iff in Ho as [Ho1 Ho2].
  destruct Hc as [->|[H|[H|H]]]; [done|..];
    unfold lifecycle_open, registered_current, retirement_closed, no_lifecycle in *.
  - by case_match.
  - case_match eqn:E; [done|]. by apply orb_false_iff in E as [-> _].
  - case_match; [done|]. by destruct c; simplify_eq.
Qed.

(** The cookie of the current lifecycle is registered. *)
Lemma maps_ok_register c m k :
  maps_ok c m → is_lifecycle_open c = true → ct_registered_socket_cookie c = 0 →
  mk_durable_fence_token k = ct_durable_fence_token c → cookie_ok k →
  is_Some (fm_cookies m !! k) →
  (∀ k', is_Some (fm_cookies m !! k') →
     mk_durable_fence_token k' = ct_durable_fence_token c → k' = k) →
  let c' := mkCurrentFenceToken (ct_durable_fence_token c) (mk_socket_cookie k) false in
  maps_ok c' (set_current (current_value c') m)
  ∧ current_value c'
    = mkCurrentMapValue (cm_reserved (fm_current m)) (cm_control (fm_current m))
        (cm_durable_fence_token (fm_current m)) (mk_socket_cookie k)
  ∧ settled c' (set_current (current_value c') m).
Proof.
  intros Hm Ho Hz Ht [Hu Hk] Hl Hun c'.
  assert (k = current_key c') as Ek.
  { destruct k as [kc kt]. cbn in Ht. unfold current_key, cookie_key, c'. cbn. by rewrite Ht. }
  assert (settled c' (set_current (current_value c') m)) as Hs.
  { intros k' Hk' E. rewrite <-Ek. by apply Hun. }
  split_and!; [|rewrite (mo_current c m Hm)|done].
  - pose proof (mo_current_ok c m Hm) as Hc. pose proof Hc as (Hut & _). destruct Hm.
    split; try done; cbn.
    + split; [done|split; [done|]]. right; right; left. unfold registered_current. cbn.
      pose proof (open_lifecycle c Hc Ho) as Hn.
      unfold no_lifecycle in Hn. rewrite Hn. by rewrite (proj2 (Z.eqb_neq _ 0)).
    + intros _ _. by rewrite <-Ek.
    + intros k' Hk' E. left. by apply Hs.
  - unfold current_value, current_control. cbn.
    unfold is_lifecycle_open in Ho. apply andb_true_iff in Ho as [Ho1 Ho2].
    apply negb_true_iff in Ho1, Ho2. by rewrite Ho1, Ho2.
Qed.
