(* ===== verification/FenceSteps.v ===== *)
(** Every step of an invocation of the egress fence keeps the invariant: its own phase is
    right, it interferes with the others only as they expect, and it leaves what the
    holder of the mutation claim protects alone. *)

From stdpp Require Import functions.
From S2P Require Import Prelude.
From S2P Require Import FenceAbi.
From S2P Require Import FenceCodec.
From S2P Require Import FencePacket.
From S2P Require Import FenceKernel.
From S2P Require Import FenceSystem.
From S2P Require Import FenceInvariant.

Definition step_ok (c : CurrentFenceToken) (m : FenceMaps) (p : Phase) (m' : FenceMaps)
    (p' : Phase) : Prop :=
  ∃ c', maps_ok c' m' ∧ phase_ok c' m' p' ∧ interferes c m c' m'
    ∧ (owns p = false → ¬ idle m → quiet c m c' m')
    ∧ (¬ idle m' → owns p' = true ∨ owns p = false ∧ ¬ idle m)
    ∧ (owns p' = true → owns p = true ∨ idle m).

Lemma phase_same c m m' p : same_maps m m' → phase_ok c m p → phase_ok c m' p.
Proof.
  intros Hs. apply same_quiet with (c := c) in Hs. destruct (owns p) eqn:E.
  - by eapply phase_quiet.
  - eapply phase_stable; [|done]. by apply quiet_interferes.
Qed.

(** A step that changes nothing shared. *)
Lemma step_reads c m p m' p' :
  maps_ok c m → same_maps m m' → phase_ok c m p' → owns p' = owns p →
  (owns p = true → ¬ idle m) → step_ok c m p m' p'.
Proof.
  intros Hm Hs Hp Ho Hi. exists c. pose proof (same_quiet c _ _ Hs) as Hq.
  split_and!; [by eapply same_maps_ok|by eapply phase_same|by apply quiet_interferes| | |].
  - done.
  - rewrite Ho. unfold idle. rewrite (qt_mutation _ _ _ _ Hq). destruct (owns p); [by left|].
    by right.
  - rewrite Ho. by left.
Qed.

(** A step of the holder of the claim, or of anyone while there is none. *)
Lemma step_acts c m p c' m' p' :
  (owns p = true ∨ idle m) → maps_ok c' m' → phase_ok c' m' p' → interferes c m c' m' →
  (owns p' = true ∨ idle m') → step_ok c m p m' p'.
Proof.
  intros Ho Hm Hp Hi Hd. exists c'. split_and!; try done.
  - intros E Hn. destruct Ho; [congruence|done].
  - intros Hn. destruct Hd; [by left|done].
Qed.

Lemma interferes_same c m m' :
  fm_mutation m' = fm_mutation m → fm_cookies m' = fm_cookies m → fm_clock m' = fm_clock m →
  (∀ k a, fm_cookies m !! k = Some a →
     ct_durable_fence_token c ≤ mk_durable_fence_token k →
     entry_moves (fm_slots m a) (fm_slots m' a)) →
  interferes c m c m'.
Proof.
  intros E1 E2 E3 E4. split; rewrite ?E1, ?E2, ?E3; try done; [|by left].
  unfold idle. by rewrite E1.
Qed.

Lemma interferes_refl c m : interferes c m c m.
Proof. apply interferes_same; [done..|]. intros. apply entry_moves_refl. Qed.

(** An entry is changed that may move, or whose lifecycle is superseded. *)
Lemma interferes_slot c m k a v :
  maps_ok c m → fm_cookies m !! k = Some a →
  entry_moves (fm_slots m a) v ∨ mk_durable_fence_token k < ct_durable_fence_token c →
  interferes c m c (set_slot a v m).
Proof.
  intros Hm Ha Hv. apply interferes_same; [done..|]. intros k' b Hb Hle. cbn.
  destruct (decide (b = a)) as [->|Hne].
  - rewrite fn_lookup_insert. pose proof (mo_injective c m Hm _ _ _ Ha Hb) as ->.
    destruct Hv; [done|lia].
  - rewrite fn_lookup_insert_ne by done. apply entry_moves_refl.
Qed.

Lemma interferes_current c c' m v :
  (ct_durable_fence_token c < ct_durable_fence_token c'
   ∨ ct_durable_fence_token c' = ct_durable_fence_token c
     ∧ ct_registered_socket_cookie c = 0) →
  interferes c m c' (set_current v m).
Proof. intros Hc. split; try done. by right. Qed.

(** A change of the claim: a reservation keeps the generation, a commit moves it. *)
Lemma interferes_mutation c m c' m' g cl :
  interferes c m c' m' → fm_mutation m' = fm_mutation m →
  (g = mm_generation (fm_mutation m) ∧ cl ≠ 0 ∨ mm_generation (fm_mutation m) < g) →
  interferes c m c' (set_mutation (mkMutationMapValue g cl) m').
Proof.
  intros [] Hm Hg. split; cbn; try done; [lia|]. unfold idle. cbn. intros E Hi. lia.
Qed.

(** ** The classifier *)

Lemma lifecycle_key c : is_lifecycle_open c = true → ct_durable_fence_token c ≠ 0.
Proof. unfold is_lifecycle_open. intros [H%negb_true_iff _]%andb_true_iff. by apply Z.eqb_neq. Qed.

Ltac reads := apply step_reads; [done|auto with fence|try done..].

Lemma gate_lookup_ok c m g current :
  maps_ok c m → phase_ok c m (GateLookup g current) →
  let '(m', p') := gate_lookup g current m in step_ok c m (GateLookup g current) m' p'.
Proof. intros Hm Hp. unfold gate_lookup, gate_drop. destruct (_ !! _) eqn:E; by reads. Qed.

Lemma gate_entry_ok c m g current slot :
  maps_ok c m → phase_ok c m (GateEntry g current slot) →
  let '(m', p') := gate_entry g current slot m in
  step_ok c m (GateEntry g current slot) m' p'.
Proof. intros Hm [Hp _]. unfold gate_entry, gate_drop. case_bool_decide; by reads. Qed.

Lemma gate_clock_ok c m g current entry :
  maps_ok c m → phase_ok c m (GateClock g current entry) →
  let '(m', p') := gate_clock g current entry m in
  step_ok c m (GateClock g current entry) m' p'.
Proof. intros Hm Hp. unfold gate_clock. by reads. Qed.

Lemma current_decodes c m : maps_ok c m → decode_current (fm_current m) = Some c.
Proof. intros []. rewrite mo_current. by apply decode_current_value. Qed.

(** ** Publication *)

Lemma command_canonical cmd :
  command_ok cmd →
  fields_are_canonical (cc_operation cmd) (cc_socket_cookie cmd) (cc_durable_fence_token cmd)
    (cc_deadline_boot_ns cmd) (cc_expected_epoch cmd) = true.
Proof.
  intros (_ & _ & _ & _ & _ & H). unfold ControlCommand_new in H. case_match eqn:E; [done|].
  apply orb_false_iff in E as [_ E]. by apply negb_false_iff in E.
Qed.

Lemma retirement_current cmd :
  command_ok cmd → cc_operation cmd = PublishRetirement →
  current_ok (mkCurrentFenceToken (cc_durable_fence_token cmd) 0 true)
  ∧ write_current_retirement (cc_durable_fence_token cmd)
    = current_value (mkCurrentFenceToken (cc_durable_fence_token cmd) 0 true).
Proof.
  intros Hc Ho. pose proof (command_canonical cmd Hc) as H. rewrite Ho in H. cbn in H.
  assert (cc_durable_fence_token cmd ≠ 0 ∧ Z.land (cc_durable_fence_token cmd) 1 = 0)
    as [Hz Hl] by (to_prop; done). clear H.
  destruct Hc as (_ & _ & Hu & _). split.
  - split; [done|]. split; [by split|]. right; right; right. unfold retirement_closed. cbn.
    rewrite (proj2 (Z.eqb_neq _ 0)) by done. by rewrite Hl.
  - unfold write_current_retirement, current_value, current_control. cbn.
    by rewrite (proj2 (Z.eqb_neq _ 0)).
Qed.

Lemma lifecycle_current cmd :
  command_ok cmd → cc_operation cmd = PublishLifecycle →
  current_ok (mkCurrentFenceToken (cc_durable_fence_token cmd) 0 false)
  ∧ mkCurrentMapValue 0 CURRENT_LIFECYCLE_OPEN_CONTROL (cc_durable_fence_token cmd) 0
    = current_value (mkCurrentFenceToken (cc_durable_fence_token cmd) 0 false).
Proof.
  intros Hc Ho. pose proof (command_canonical cmd Hc) as H. rewrite Ho in H. cbn in H.
  assert (cc_durable_fence_token cmd ≠ 0 ∧ Z.land (cc_durable_fence_token cmd) 1 = 1)
    as [Hz Hl] by (to_prop; done). clear H.
  destruct Hc as (_ & _ & Hu & _). split.
  - split; [done|]. split; [by split|]. right; left. unfold lifecycle_open. cbn.
    rewrite (proj2 (Z.eqb_neq _ 0)) by done. by rewrite Hl.
  - unfold current_value, current_control. cbn. by rewrite (proj2 (Z.eqb_neq _ 0)).
Qed.

(** Replacing the current token by a higher one with no cookie. *)
Lemma step_publish c m p c' r :
  maps_ok c m → owns p = false → idle m → current_ok c' →
  ct_durable_fence_token c < ct_durable_fence_token c' →
  ct_registered_socket_cookie c' = 0 →
  step_ok c m p (set_current (current_value c') m) (ControlDone r).
Proof.
  intros Hm Hp Hi Hc Ht Hk. eapply step_acts with (c' := c'); [by right| |done| |by right].
  - by eapply maps_ok_publish.
  - apply interferes_current. by left.
Qed.

Lemma publish_ok c m p cmd :
  maps_ok c m → owns p = false → command_ok cmd → cc_operation cmd = PublishLifecycle →
  let '(v, r) := publish_lifecycle_locked (fm_current m) (fm_mutation m) cmd in
  step_ok c m p (set_current v m) (ControlDone r).
Proof.
  intros Hm Hp Hc Ho. unfold publish_lifecycle_locked. rewrite (current_decodes c m Hm).
  assert (∀ r, step_ok c m p (set_current (fm_current m) m) (ControlDone r)) as Hsame.
  { intros r. apply step_reads; try done. by rewrite Hp. }
  destruct (negb _) eqn:Ei; [apply Hsame|]. destruct (_ <? _) eqn:El; [apply Hsame|].
  destruct (_ =? _) eqn:Ee in |- *; [apply Hsame|]. to_prop.
  destruct (lifecycle_current cmd Hc Ho) as [Hok ->]. apply step_publish; try done.
  cbn. lia.
Qed.

Lemma retire_start_ok c m p cmd :
  maps_ok c m → owns p = false → command_ok cmd → cc_operation cmd = PublishRetirement →
  let '(m', p') := retire_start cmd m in step_ok c m p m' p'.
Proof.
  intros Hm Hp Hc Ho. unfold retire_start. rewrite (current_decodes c m Hm).
  assert (∀ p', owns p' = false → phase_ok c m p' → step_ok c m p m p') as Hsame.
  { intros p' Hp' Hok. apply step_reads; try done; by rewrite Hp. }
  destruct (negb _) eqn:Ei; [by apply Hsame|]. destruct (is_retirement_closed c); [by apply Hsame|].
  destruct (_ || _) eqn:Eo; [by apply Hsame|]. to_prop. case_bool_decide as Et; [|done].
  destruct (_ =? 0) eqn:Ek; to_prop.
  - destruct (retirement_current cmd Hc Ho) as [Hok ->]. apply step_publish; try done.
    apply checked_add_some in Et as [-> _]. cbn. lia.
  - apply Hsame; [done|]. cbn. by split_and!.
Qed.

Lemma retire_lookup_ok c m cmd current g :
  maps_ok c m → phase_ok c m (RetireLookup cmd current g) →
  let '(m', p') := retire_lookup cmd current g m in
  step_ok c m (RetireLookup cmd current g) m' p'.
Proof.
  intros Hm [Hp Hg]. unfold retire_lookup. by destruct (_ !! _) eqn:E; reads.
Qed.

Lemma retire_entry_ok c m cmd current g slot :
  maps_ok c m → phase_ok c m (RetireEntry cmd current g slot) →
  let '(m', p') := retire_entry cmd current g slot m in
  step_ok c m (RetireEntry cmd current g slot) m' p'.
Proof.
  intros Hm [(Hc & Ho & Hl & Hk & Ht) Hpin]. unfold retire_entry.
  destruct (_ || _) eqn:E; [by reads|]. to_prop. apply bool_decide_eq_true in H.
  rewrite (current_decodes c m Hm) in H. simplify_eq. apply matches_idle in H0 as [_ Hi].
  destruct (decode_entry _ _); [|by reads]. case_bool_decide; [|by reads].
  destruct (retirement_current cmd Hc Ho) as [Hok ->]. apply step_publish; try done.
  apply checked_add_some in Ht as [-> _]. cbn. lia.
Qed.

(** ** Reserving the claim *)

Lemma reserve_refused c m p code next :
  maps_ok c m → owns p = false → code ≠ CONTROL_RESULT_APPLIED →
  let '(m', p') := reserved (fm_mutation m, (code, 0, 0)) next m in step_ok c m p m' p'.
Proof.
  intros Hm Hp Hc. cbn. rewrite (proj2 (Z.eqb_neq _ _)) by done. cbn.
  apply step_reads; try done. by rewrite Hp.
Qed.

Lemma reserve_granted c m p next :
  maps_ok c m → owns p = false → (∀ g cl, owns (next g cl) = true) →
  (∀ g cl, idle m → owned (set_mutation (mkMutationMapValue g cl) m) g cl →
     phase_ok c (set_mutation (mkMutationMapValue g cl) m) (next g cl)) →
  let '(m', p') := reserved (reserve_mutation_locked (fm_mutation m)) next m in
  step_ok c m p m' p'.
Proof.
  intros Hm Hp Ho Hn. unfold reserve_mutation_locked.
  destruct (_ || _) eqn:E; [by apply reserve_refused|]. to_prop.
  pose proof (mo_generation c m Hm) as Hg. cbn.
  assert (owned (set_mutation (mkMutationMapValue (mm_generation (fm_mutation m))
    (mm_generation (fm_mutation m) + 1)) m) (mm_generation (fm_mutation m))
    (mm_generation (fm_mutation m) + 1)) as How by (by apply owned_value).
  apply step_acts with c; [by right| |by apply Hn| |left; apply Ho].
  - apply maps_ok_mutation; cbn; [done|done|]. by right.
  - apply interferes_mutation; [apply interferes_refl|done|]. left. split; [done|lia].
Qed.

(** The cookies of a map with another claim. *)
Lemma settled_mutation c m v : settled c (set_mutation v m) ↔ settled c m.
Proof. done. Qed.

Lemma not_current_false c cmd :
  not_current c cmd = false ↔
  is_lifecycle_open c = true ∧ ct_registered_socket_cookie c = cc_socket_cookie cmd
  ∧ cc_durable_fence_token cmd = ct_durable_fence_token c.
Proof.
  unfold not_current. rewrite !orb_false_iff, !negb_false_iff, !Z.eqb_eq. tauto.
Qed.

Lemma register_start_ok c m p cmd :
  maps_ok c m → owns p = false → command_ok cmd → cc_operation cmd = Register →
  let '(m', p') := register_start cmd m in step_ok c m p m' p'.
Proof.
  intros Hm Hp Hc Ho. unfold register_start, reserve_register_locked.
  rewrite (current_decodes c m Hm).
  destruct (_ || _) eqn:E; [by apply reserve_refused|].
  destruct (_ && _) eqn:E2; [by apply reserve_refused|]. apply reserve_granted; try done.
  intros g cl Hi How. to_prop. split; [|by apply settled_mutation, idle_settled].
  split_and!; try done. destruct E2; to_prop; [by left|by right].
Qed.

Lemma refresh_start_ok c m p cmd :
  maps_ok c m → owns p = false → command_ok cmd → cc_operation cmd = Refresh →
  let '(m', p') := refresh_start cmd m in step_ok c m p m' p'.
Proof.
  intros Hm Hp Hc Ho. unfold refresh_start, reserve_refresh_locked.
  rewrite (current_decodes c m Hm).
  destruct (not_current c cmd) eqn:E; [by apply reserve_refused|].
  apply reserve_granted; try done.
Qed.

Lemma reclaim_start_ok c m p cmd :
  maps_ok c m → owns p = false → command_ok cmd →
  let '(m', p') := reclaim_start cmd m in step_ok c m p m' p'.
Proof.
  intros Hm Hp Hc. unfold reclaim_start, reserve_reclaim_locked.
  rewrite (current_decodes c m Hm).
  destruct (_ <=? _) eqn:E; [by apply reserve_refused|]. apply reserve_granted; try done.
  intros g cl Hi How. to_prop. split_and!; try done. by apply settled_mutation, idle_settled.
Qed.

(** ** Registration *)

Lemma initial_entry clock c cmd :
  current_ok c → is_lifecycle_open c = true →
  ct_durable_fence_token c = cc_durable_fence_token cmd →
  let e := mkFenceEntry InitialClosed (cc_durable_fence_token cmd) 0 1 in
  initial_value cmd = entry_value (command_key cmd) e
  ∧ entry_kept clock (command_key cmd) e.
Proof.
  intros Hc Ho Ht e. split; [done|]. pose proof (open_lifecycle c Hc Ho) as Hn.
  destruct Hc as (Hu & _). rewrite Ht in Hn, Hu. split; [|by split_and!].
  split; [done|]. split; [by split|]. split; [by split|]. cbn. unfold initial_closed.
  by rewrite Hn.
Qed.

Lemma command_cookie cmd :
  command_ok cmd → (cc_operation cmd = Register ∨ cc_operation cmd = Refresh) →
  cookie_ok (command_key cmd).
Proof.
  intros Hc Hop. split; [by destruct Hc as (_ & ? & _)|]. cbn.
  pose proof (command_canonical cmd Hc) as H. destruct Hop as [E|E];
    rewrite E in H; cbn in H; by to_prop.
Qed.

(** The entry of a registered lifecycle is there. *)
Lemma registered_linked c m cmd :
  maps_ok c m → command_ok cmd → (cc_operation cmd = Register ∨ cc_operation cmd = Refresh) →
  is_lifecycle_open c = true → ct_durable_fence_token c = cc_durable_fence_token cmd →
  ct_registered_socket_cookie c = cc_socket_cookie cmd →
  cc_socket_cookie cmd ≠ 0 ∧ current_key c = command_key cmd
  ∧ is_Some (fm_cookies m !! command_key cmd).
Proof.
  intros Hm Hc Hop Ho Ht Hk.
  pose proof (command_cookie cmd Hc Hop) as [_ Hz].
  assert (current_key c = command_key cmd) as Ek
    by (unfold current_key, command_key; by rewrite Hk, Ht).
  split_and!; [done|done|]. rewrite <-Ek. apply (mo_registered c m Hm); [done|by rewrite Hk].
Qed.

Lemma register_insert_ok c m cmd g cl ch m' p' :
  maps_ok c m → phase_ok c m (RegisterInsert cmd g cl) →
  register_insert cmd g cl ch m = Some (m', p') →
  step_ok c m (RegisterInsert cmd g cl) m' p'.
Proof.
  intros Hm [Hr Hs] H. pose proof Hr as (How & Hc & Hop & Ho & Ht & Hk).
  pose proof (owned_busy c m g cl Hm How) as Hb. unfold register_insert in H. destruct ch.
  - case_bool_decide as Hl; [|done]. injection H as <- <-. apply step_reads; try done.
    split; [done|]. right; left. split_and!; [done| |done].
    destruct Hk as [Hk|Hk]; [|done]. pose proof (Hs _ Hl (eq_sym Ht)) as E.
    unfold command_key, current_key, cookie_key in E. by injection E.
  - destruct (_ && _) eqn:E; [|done]. injection H as <- <-. apply andb_true_iff in E as [E Hf].
    apply bool_decide_eq_true in E.
    destruct Hk as [Hk|Hk].
    2: { destruct (registered_linked c m cmd) as (_ & _ & [? ?]); try done; [|congruence].
         by left. }
    destruct (initial_entry (fm_clock m) c cmd (mo_current_ok c m Hm) Ho Ht) as [-> He].
    apply step_acts with c; [by left| | | |by left].
    + apply maps_ok_insert; try done. apply command_cookie; [done|by left].
    + split; [done|]. left. split_and!; [done|done| |].
      * exists slot. cbn. by rewrite lookup_insert_eq, fn_lookup_insert.
      * cbn. intros k [a [[<- _]|[Hne Ha]]%lookup_insert_Some] E'; [done|].
        pose proof (Hs k (mk_is_Some _ _ Ha) E') as ->.
        by destruct (mo_slots c m Hm _ _ Ha) as (_ & [_ ?] & _).
    + split; cbn; [done| |by left| | |done].
      * intros _ Hi. by destruct Hb.
      * intros k a Ha _. rewrite lookup_insert_ne; [done|]. intros <-. congruence.
      * intros k a Ha _. rewrite fn_lookup_insert_ne; [apply entry_moves_refl|].
        intros <-. by eapply free_slot_unlinked.
  - injection H as <- <-. apply step_reads; try done. split; [done|]. right; by right.
Qed.

Lemma register_lookup_ok c m cmd g cl st :
  maps_ok c m → phase_ok c m (RegisterLookup cmd g cl st) →
  let '(m', p') := register_lookup cmd g cl st m in
  step_ok c m (RegisterLookup cmd g cl st) m' p'.
Proof.
  intros Hm [Hr Hi]. cbn. apply step_reads; try done. intros _.
  destruct Hr as [? _]. by eapply owned_busy.
Qed.

(** The holder of the claim ends with a commit. *)
Lemma step_commit c m p c' m1 r g cl :
  maps_ok c m → owned m g cl → owns p = true → maps_ok c' m1 → interferes c m c' m1 →
  fm_mutation m1 = fm_mutation m → settled c' m1 →
  step_ok c m p (set_mutation (commit_mutation_locked cl) m1) (ControlDone r).
Proof.
  intros Hm0 (Hv & -> & Hg)%owned_value Hp Hm Hi Hsame Hs.
  pose proof (mo_generation c m Hm0) as Hr. rewrite Hv in Hr. cbn in Hr.
  apply step_acts with c'; [by left| |done| |by right].
  - apply maps_ok_mutation; cbn; [done|lia|by left].
  - apply interferes_mutation; [done|done|]. right. rewrite Hv. cbn. lia.
Qed.

Lemma register_phase2_inserted c m cmd a st :
  maps_ok c m → command_ok cmd → cc_operation cmd = Register → is_lifecycle_open c = true →
  ct_durable_fence_token c = cc_durable_fence_token cmd →
  ct_registered_socket_cookie c = 0 → st = 0 → fm_slots m a = initial_value cmd →
  register_phase2_locked (fm_current m) (entry_at m (Some a)) cmd st
  = (mkCurrentMapValue (cm_reserved (fm_current m)) (cm_control (fm_current m))
       (cm_durable_fence_token (fm_current m)) (cc_socket_cookie cmd),
     entry_at m (Some a), CONTROL_RESULT_APPLIED).
Proof.
  intros Hm Hc Hop Ho Ht Hk -> Hv. unfold register_phase2_locked.
  rewrite (current_decodes c m Hm), Ho, Ht, Z.eqb_refl, Hk. cbn [negb orb].
  pose proof (command_cookie cmd Hc (or_introl Hop)) as [_ Hz]. cbn in Hz.
  cbn [entry_at]. rewrite Hv. unfold initial_matches. cbn -[Z.eqb].
  rewrite !Z.eqb_refl. cbn [negb andb].
  by rewrite (proj2 (Z.eqb_neq 0 (cc_socket_cookie cmd))) by done.
Qed.

(** In every other case registration only answers. *)
Lemma register_phase2_other c m cmd slot st :
  maps_ok c m → command_ok cmd → cc_operation cmd = Register →
  (st = 2 ∨ st = 1 ∧ ct_registered_socket_cookie c = cc_socket_cookie cmd) →
  ∃ r, register_phase2_locked (fm_current m) (entry_at m slot) cmd st
       = (fm_current m, entry_at m slot, r).
Proof.
  intros Hm Hc Hop Hst. unfold register_phase2_locked. rewrite (current_decodes c m Hm).
  pose proof (command_cookie cmd Hc (or_introl Hop)) as [_ Hz]. cbn in Hz.
  destruct (_ || _); [by eexists|]. destruct Hst as [->|[-> Hk]]; [by eexists|].
  cbn [Z.eqb Pos.eqb andb]. destruct (entry_at m slot); [|by eexists].
  destruct (negb _); [by eexists|]. rewrite Hk, (proj2 (Z.eqb_neq _ 0)), Z.eqb_refl by done.
  by eexists.
Qed.

Lemma register_commit_ok c m cmd g cl st slot :
  maps_ok c m → phase_ok c m (RegisterCommit cmd g cl st slot) →
  let '(m', p') := register_commit cmd g cl st slot m in
  step_ok c m (RegisterCommit cmd g cl st slot) m' p'.
Proof.
  intros Hm (Hr & Hi & Hl). pose proof Hr as (How & Hc & Hop & Ho & Ht & Hk).
  unfold register_commit. unfold owned in How. rewrite How.
  destruct Hi as [(Hst & Hz & (a & Ha & Hv) & Hu)|Hi].
  - rewrite Ha in Hl. subst slot. rewrite (register_phase2_inserted c) by done.
    assert (maps_ok c (put_entry (Some a) (entry_at m (Some a)) m)) as Hm1
      by (eapply same_maps_ok; [apply same_put|done]).
    destruct (maps_ok_register c _ (command_key cmd) Hm1) as (Hm2 & Ev & Hs); try done.
    { apply command_cookie; [done|by left]. }
    rewrite <-(Ev : _ = mkCurrentMapValue (cm_reserved (fm_current m))
      (cm_control (fm_current m)) (cm_durable_fence_token (fm_current m))
      (cc_socket_cookie cmd)).
    eapply step_commit; [done|exact How|done|exact Hm2| |done|exact Hs].
    split; cbn; [done| |by right; right|done| |done].
    + intros _ Hi. by destruct (owned_busy c m g cl Hm How).
    + intros k b Hb _. apply entry_moves_same. by apply (same_put m (Some a)).
  - assert (settled c m) as Hs by (destruct Hi as [(_ & _ & ?)|[_ ?]]; done).
    destruct (register_phase2_other c m cmd slot st) as [r ->]; try done.
    { destruct Hi as [(? & ? & _)|[? _]]; [by right|by left]. }
    eapply step_commit; [done|exact How|done| | |by destruct slot|].
    + eapply same_maps_ok; [|done]. by apply same_maps_current, same_put.
    + apply quiet_interferes, same_quiet. by apply same_maps_current, same_put.
    + by destruct slot.
Qed.

(** ** Entries that may be written *)

Definition lifecycle_token (t : Z) : Prop := u64 t ∧ no_lifecycle t = false.

Lemma kept_terminal clock k ep :
  lifecycle_token (mk_durable_fence_token k) → 1 ≤ ep ≤ U64_MAX →
  entry_kept clock k (mkFenceEntry TerminalClosed (mk_durable_fence_token k) 0 ep).
Proof.
  intros [Ht Hn] He. split; [|split; [done|split; [cbn; lia|done]]].
  split; [done|]. split; [by split|]. split; [unfold u64; cbn; lia|]. cbn.
  unfold terminal_closed. by rewrite Hn, (proj2 (Z.eqb_neq ep 0)) by lia.
Qed.

Lemma kept_reclaiming clock k ep :
  lifecycle_token (mk_durable_fence_token k) → 1 ≤ ep ≤ U64_MAX →
  entry_kept clock k (mkFenceEntry Reclaiming (mk_durable_fence_token k) 0 ep).
Proof.
  intros [Ht Hn] He. split; [|split; [done|split; [cbn; lia|done]]].
  split; [done|]. split; [by split|]. split; [unfold u64; cbn; lia|]. cbn.
  unfold reclaiming. by rewrite Hn, (proj2 (Z.eqb_neq ep 0)) by lia.
Qed.

Lemma kept_active clock k d ep :
  lifecycle_token (mk_durable_fence_token k) → 1 ≤ ep ≤ U64_MAX → u64 d → d ≠ 0 →
  d ≤ clock + EGRESS_FENCE_MAX_GATE_LIFETIME_NS →
  entry_kept clock k (mkFenceEntry Active (mk_durable_fence_token k) d ep).
Proof.
  intros [Ht Hn] He Hd Hz Hl. split; [|split; [done|split; [cbn; lia|done]]].
  split; [done|]. split; [done|]. split; [unfold u64; cbn; lia|]. cbn.
  unfold active. rewrite Hn, (proj2 (Z.eqb_neq d 0)), (proj2 (Z.eqb_neq ep 0)) by lia. done.
Qed.

Lemma entry_token e : entry_ok e → lifecycle_token (fe_durable_fence_token e).
Proof.
  intros (Ht & _ & _ & H). split; [done|].
  unfold initial_closed, active, terminal_closed, reclaiming in H.
  destruct (no_lifecycle _); [|done]. by destruct (fe_state e).
Qed.

Lemma entry_active e :
  entry_ok e → fe_state e = Active → fe_deadline_boot_ns e ≠ 0 ∧ u64 (fe_deadline_boot_ns e).
Proof.
  intros (_ & Hd & _ & H) E. split; [|done]. rewrite E in H. unfold active in H.
  destruct (_ || _) eqn:Ez; [done|]. by to_prop.
Qed.

Lemma entry_initial e :
  entry_ok e → fe_state e = InitialClosed → fe_control_epoch e = 1.
Proof.
  intros (_ & _ & _ & H) E. rewrite E in H. unfold initial_closed in H. case_match; [done|].
  destruct e. by simplify_eq/=.
Qed.

Lemma entry_epoch clock k e : entry_kept clock k e → 1 ≤ fe_control_epoch e ≤ U64_MAX.
Proof. intros ((_ & _ & [_ He] & _) & _ & He' & _). done. Qed.

(** The live entry of a key. *)
Lemma live_entry c m k a :
  maps_ok c m → fm_cookies m !! k = Some a →
  ∃ e, fm_slots m a = entry_value k e ∧ entry_kept (fm_clock m) k e
       ∧ decode_entry (fm_slots m a) k = Some e
       ∧ lifecycle_token (mk_durable_fence_token k).
Proof.
  intros Hm Ha. destruct (mo_slots c m Hm k a Ha) as ((e & Hv & He) & _). exists e.
  pose proof He as (Hok & Ht & _). rewrite Hv, decode_entry_value by done.
  split_and!; try done. rewrite <-Ht. by apply entry_token.
Qed.

(** The holder of the claim changes an entry and keeps the claim, or commits. *)
Lemma step_owner_entry c m p k a e p' :
  maps_ok c m → owns p = true → owns p' = true → fm_cookies m !! k = Some a →
  entry_kept (fm_clock m) k e →
  entry_moves (fm_slots m a) (entry_value k e)
  ∨ mk_durable_fence_token k < ct_durable_fence_token c →
  phase_ok c (set_slot a (entry_value k e) m) p' →
  step_ok c m p (set_slot a (entry_value k e) m) p'.
Proof.
  intros Hm Hp Hp' Ha He Hv Hok.
  apply step_acts with c; [by left|by apply maps_ok_slot|done| |by left].
  by eapply interferes_slot.
Qed.

Lemma step_commit_entry c m p k a e r g cl :
  maps_ok c m → owned m g cl → owns p = true → fm_cookies m !! k = Some a →
  entry_kept (fm_clock m) k e →
  entry_moves (fm_slots m a) (entry_value k e)
  ∨ mk_durable_fence_token k < ct_durable_fence_token c →
  settled c m →
  step_ok c m p (set_mutation (commit_mutation_locked cl) (set_slot a (entry_value k e) m))
    (ControlDone r).
Proof.
  intros Hm How Hp Ha He Hv Hs.
  eapply step_commit; [done|exact How|done|by apply maps_ok_slot| |done|done].
  by eapply interferes_slot.
Qed.

Lemma step_commit_same c m p slot r g cl :
  maps_ok c m → owned m g cl → owns p = true → settled c m →
  step_ok c m p
    (set_mutation (commit_mutation_locked cl) (put_entry slot (entry_at m slot) m))
    (ControlDone r).
Proof.
  intros Hm How Hp Hs. eapply step_commit; [done|exact How|done| | |by destruct slot|].
  - eapply same_maps_ok; [apply same_put|done].
  - apply quiet_interferes, same_quiet, same_put.
  - by destruct slot.
Qed.

(** ** Refresh *)

Lemma refresh_current c m cmd g cl :
  maps_ok c m → refresh_ok c m cmd g cl →
  ∃ a, fm_cookies m !! command_key cmd = Some a ∧ settled c m
       ∧ lifecycle_token (cc_durable_fence_token cmd).
Proof.
  intros Hm (How & Hc & Hop & (Ho & Hk & Ht)%not_current_false).
  destruct (registered_linked c m cmd Hm Hc (or_intror Hop) Ho (eq_sym Ht) Hk)
    as (Hz & Ek & [a Ha]). exists a. split_and!; [done| |].
  - intros k Hl E. destruct (mo_unique c m Hm k Hl E) as [|[? _]]; [done|congruence].
  - rewrite Ht. split; [by destruct (mo_current_ok c m Hm)|].
    by apply open_lifecycle; [apply (mo_current_ok c m Hm)|].
Qed.

(** A prepared entry may become any of the same or a later epoch. *)
Lemma prepared_moves c m cmd a prior e :
  prepared m cmd (Some a) prior → cc_expected_epoch cmd ≤ fe_control_epoch e →
  entry_moves (fm_slots m a) (entry_value (command_key cmd) e)
  ∨ mk_durable_fence_token (command_key cmd) < ct_durable_fence_token c.
Proof. intros (_ & (b & [= ->] & ->) & _) He. left. by apply entry_moves_open. Qed.

Lemma refresh_lookup_ok c m cmd g cl :
  maps_ok c m → phase_ok c m (RefreshLookup cmd g cl) →
  let '(m', p') := refresh_lookup cmd g cl m in step_ok c m (RefreshLookup cmd g cl) m' p'.
Proof.
  intros Hm Hr. cbn. apply step_reads; try done. intros _. destruct Hr as [? _].
  by eapply owned_busy.
Qed.

(** The left case: an answer that is not [CONTROL_RESULT_APPLIED]. *)
Ltac refused := left; eexists; split; [|reflexivity]; done.

(** A preparation answers, or closes an active entry of the expected epoch. *)
Lemma prepare_refresh_cases v cmd e :
  decode_entry v (command_key cmd) = Some e →
  (∃ r, r ≠ CONTROL_RESULT_APPLIED ∧ prepare_refresh_locked v cmd = (v, (r, 0)))
  ∨ (fe_state e = Active ∧ fe_control_epoch e = cc_expected_epoch cmd
     ∧ cc_expected_epoch cmd ≤ LAST_REFRESHABLE_EPOCH
     ∧ prepare_refresh_locked v cmd
       = (entry_value (command_key cmd)
            (mkFenceEntry Reclaiming (cc_durable_fence_token cmd) 0 (cc_expected_epoch cmd)),
          (CONTROL_RESULT_APPLIED, fe_deadline_boot_ns e))).
Proof.
  intros Hd. unfold prepare_refresh_locked. rewrite Hd.
  destruct (negb _) eqn:E1; [refused|].
  destruct (finished _); [refused|].
  destruct (negb (bool_decide _)) eqn:E2; [refused|].
  destruct (_ <? _) eqn:E3; [refused|]. right. to_prop.
  apply bool_decide_eq_true in E2. split_and!; [done|done|lia|].
  apply decode_entry_inv in Hd as [-> Ht]. unfold entry_value. cbn. by rewrite E1.
Qed.

Lemma refresh_prepare_ok c m cmd g cl slot :
  maps_ok c m → phase_ok c m (RefreshPrepare cmd g cl slot) →
  let '(m', p') := refresh_prepare cmd g cl slot m in
  step_ok c m (RefreshPrepare cmd g cl slot) m' p'.
Proof.
  intros Hm [Hr Hl]. pose proof Hr as (How & _ & _ & _).
  destruct (refresh_current c m cmd g cl Hm Hr) as (a & Ha & Hs & Htok).
  rewrite Ha in Hl. subst slot. unfold refresh_prepare. unfold owned in How. rewrite How.
  destruct (live_entry c m _ a Hm Ha) as (e & Hv & He & Hd & _).
  cbn [negb entry_at]. destruct (prepare_refresh_cases _ cmd e Hd)
    as [(r & Hr0 & ->)|(Hact & Hep & Hlast & ->)].
  - unfold commit_unless_applied. rewrite (proj2 (Z.eqb_neq r _)) by done. cbn [negb].
    by apply (step_commit_same c m _ (Some a) r g cl).
  - cbn. pose proof (entry_epoch _ _ _ He) as Hb. rewrite Hep in Hb.
    apply step_owner_entry;
      [exact Hm|reflexivity|reflexivity|exact Ha|by apply (kept_reclaiming _ (command_key cmd))| |].
    { left. rewrite Hv. apply entry_moves_open; [by rewrite Hact|]. cbn. lia. }
    pose proof He as (Hok & _ & _ & Hlife). destruct (entry_active e Hok Hact) as [Hz Hu].
    split; [done|]. split; [done|].
    split; [exists a; split; [done|apply set_slot_same]|].
    split; [split; [apply Hb|exact Hlast]|]. split; [exact Hu|]. split; [exact Hz|].
    exact (Hlife Hact).
Qed.

Lemma refresh_observe_ok c m cmd g cl slot prior :
  maps_ok c m → phase_ok c m (RefreshObserve cmd g cl slot prior) →
  let '(m', p') := refresh_observe cmd g cl slot prior m in
  step_ok c m (RefreshObserve cmd g cl slot prior) m' p'.
Proof.
  intros Hm [Hr Hp]. cbn. apply step_reads; [done|apply same_refl| |done|].
  - split; [done|]. split; [done|]. pose proof (mo_clock c m Hm). lia.
  - intros _. destruct Hr as [? _]. by eapply owned_busy.
Qed.

Lemma refresh_observe_again_ok c m cmd g cl slot prior :
  maps_ok c m → phase_ok c m (RefreshObserveAgain cmd g cl slot prior) →
  let '(m', p') := refresh_observe_again cmd g cl slot prior m in
  step_ok c m (RefreshObserveAgain cmd g cl slot prior) m' p'.
Proof.
  intros Hm (Hr & Hp & Hw). cbn. apply step_reads; [done|apply same_refl| |done|].
  - split; [done|]. split; [done|]. split; [done|]. pose proof (mo_clock c m Hm). lia.
  - intros _. destruct Hr as [? _]. by eapply owned_busy.
Qed.

Lemma not_prepared_false m cmd a prior :
  prepared m cmd (Some a) prior → not_prepared (fm_slots m a) cmd = false.
Proof.
  intros (_ & (b & [= <-] & ->) & _). unfold not_prepared. cbn. by rewrite !Z.eqb_refl.
Qed.

(** The completion of a refresh keeps the entry closed, restores it with the prior
    deadline, or closes it for good. *)
Lemma complete_refresh_cases c m cmd a prior observed :
  maps_ok c m → not_current c cmd = false → prepared m cmd (Some a) prior →
  let v := fm_slots m a in let k := command_key cmd in
  let t := cc_durable_fence_token cmd in
  (complete_refresh_locked (fm_current m) v cmd prior observed = (v, CONTROL_RESULT_APPLIED)
   ∧ evaluate_refresh_deadlines observed prior (cc_deadline_boot_ns cmd) = Apply)
  ∨ (∃ r, r ≠ CONTROL_RESULT_APPLIED
       ∧ complete_refresh_locked (fm_current m) v cmd prior observed
         = (entry_value k (mkFenceEntry TerminalClosed t 0 (cc_expected_epoch cmd + 1)), r))
  ∨ (∃ r, r ≠ CONTROL_RESULT_APPLIED
       ∧ complete_refresh_locked (fm_current m) v cmd prior observed
         = (entry_value k (mkFenceEntry Active t prior (cc_expected_epoch cmd)), r)).
Proof.
  intros Hm Hn Hp. unfold complete_refresh_locked. cbn zeta.
  rewrite (current_decodes c m Hm), Hn, (not_prepared_false _ _ _ _ Hp). cbn [orb].
  destruct (evaluate_refresh_deadlines _ _ _); [by left|right; left|right; right..];
    (eexists; split; [|reflexivity]; done).
Qed.

Lemma evaluate_apply observed prior requested :
  evaluate_refresh_deadlines observed prior requested = Apply →
  observed < prior ∧ observed < requested ≤ observed + EGRESS_FENCE_MAX_GATE_LIFETIME_NS
  ∧ prior ≤ requested.
Proof.
  unfold evaluate_refresh_deadlines. destruct (_ <=? _) eqn:E1; [done|].
  destruct (_ || _) eqn:E2; [done|]. destruct (_ <? _) eqn:E3 in |- *; [done|]. to_prop. lia.
Qed.

Lemma refresh_complete_ok c m cmd g cl slot prior observed :
  maps_ok c m → phase_ok c m (RefreshComplete cmd g cl slot prior observed) →
  let '(m', p') := refresh_complete cmd g cl slot prior observed m in
  step_ok c m (RefreshComplete cmd g cl slot prior observed) m' p'.
Proof.
  intros Hm (Hr & Hp & Hobs). pose proof Hr as (How & _ & _ & Hn).
  destruct (refresh_current c m cmd g cl Hm Hr) as (a & Ha & Hs & Htok).
  pose proof Hp as (Hl & (b & -> & Hv) & Hep & Hu & Hz & Hlife).
  assert (b = a) as -> by congruence.
  unfold refresh_complete. unfold owned in How. rewrite How. cbn [negb entry_at].
  destruct (complete_refresh_cases c m cmd a prior observed Hm Hn Hp)
    as [[-> Hap]|[(r & Hr0 & ->)|(r & Hr0 & ->)]].
  - cbn. apply step_reads; [done|apply (same_put m (Some a))| |done|].
    + split; [done|]. split; [done|]. apply evaluate_apply in Hap. unfold within_lifetime. lia.
    + intros _. by eapply owned_busy.
  - unfold commit_unless_applied. rewrite (proj2 (Z.eqb_neq r _)) by done. cbn [negb put_entry].
    apply step_commit_entry with (g := g);
      [exact Hm|exact How|reflexivity|exact Ha| |by eapply prepared_moves; [..|cbn; lia]|exact Hs].
    apply (kept_terminal _ (command_key cmd)); [exact Htok|]. unfold LAST_REFRESHABLE_EPOCH in Hep. lia.
  - unfold commit_unless_applied. rewrite (proj2 (Z.eqb_neq r _)) by done. cbn [negb put_entry].
    apply step_commit_entry with (g := g);
      [exact Hm|exact How|reflexivity|exact Ha| |by eapply prepared_moves; [..|cbn; lia]|exact Hs].
    apply (kept_active _ (command_key cmd));
      [exact Htok| |exact Hu|exact Hz|exact Hlife]. unfold LAST_REFRESHABLE_EPOCH in Hep. lia.
Qed.

Lemma finalize_refresh_cases c m cmd a prior completed :
  maps_ok c m → not_current c cmd = false → prepared m cmd (Some a) prior →
  let k := command_key cmd in let t := cc_durable_fence_token cmd in
  let ep := cc_expected_epoch cmd + 1 in
  (finalize_refresh_locked (fm_current m) (entry_at m (Some a)) cmd prior completed
   = (Some (entry_value k (mkFenceEntry TerminalClosed t 0 ep)),
      CONTROL_RESULT_DEADLINE_ELAPSED)
   ∧ (prior ≤ completed ∨ cc_deadline_boot_ns cmd ≤ completed))
  ∨ (finalize_refresh_locked (fm_current m) (entry_at m (Some a)) cmd prior completed
     = (Some (entry_value k (mkFenceEntry Active t (cc_deadline_boot_ns cmd) ep)),
        CONTROL_RESULT_APPLIED)
     ∧ completed < prior ∧ completed < cc_deadline_boot_ns cmd).
Proof.
  intros Hm Hn Hp. pose proof Hp as (_ & _ & Hep & _). unfold finalize_refresh_locked. cbn zeta.
  rewrite (current_decodes c m Hm), Hn. cbn [entry_at].
  rewrite (not_prepared_false _ _ _ _ Hp).
  rewrite checked_add_ok
    by (change USIZE_MAX with U64_MAX; unfold LAST_REFRESHABLE_EPOCH in Hep; lia).
  destruct (_ || _) eqn:E; [left|right]; to_prop; (split; [done|]).
  - destruct E; to_prop; [by left|by right].
  - lia.
Qed.

Lemma refresh_finalize_ok c m cmd g cl slot prior completed :
  maps_ok c m → phase_ok c m (RefreshFinalize cmd g cl slot prior completed) →
  let '(m', p') := refresh_finalize cmd g cl slot prior completed m in
  step_ok c m (RefreshFinalize cmd g cl slot prior completed) m' p'.
Proof.
  intros Hm (Hr & Hp & Hw & Hobs). pose proof Hr as (How & Hc & _ & Hn).
  destruct (refresh_current c m cmd g cl Hm Hr) as (a & Ha & Hs & Htok).
  pose proof Hp as (Hl & (b & -> & Hv) & Hep & _). assert (b = a) as -> by congruence.
  unfold refresh_finalize. unfold owned in How. rewrite How. cbn [negb].
  destruct (finalize_refresh_cases c m cmd a prior completed Hm Hn Hp) as [[-> _]|[-> Hlt]].
  - cbn [put_entry]. apply step_commit_entry with (g := g);
      [exact Hm|exact How|reflexivity|exact Ha| |by eapply prepared_moves; [..|cbn; lia]|exact Hs].
    apply (kept_terminal _ (command_key cmd)); [exact Htok|]. unfold LAST_REFRESHABLE_EPOCH in Hep. lia.
  - cbn [put_entry]. apply step_commit_entry with (g := g);
      [exact Hm|exact How|reflexivity|exact Ha| |by eapply prepared_moves; [..|cbn; lia]|exact Hs].
    apply (kept_active _ (command_key cmd)); [exact Htok| | | |exact Hw].
    + unfold LAST_REFRESHABLE_EPOCH in Hep. lia.
    + exact (proj1 (proj2 (proj2 (proj2 Hc)))).
    + lia.
Qed.

(** ** Reclamation *)

Lemma reclaim_busy c m cmd g cl : maps_ok c m → reclaim_ok c m cmd g cl → ¬ idle m.
Proof. intros Hm [How _]. by eapply owned_busy. Qed.

Lemma reclaim_lookup_ok c m cmd g cl :
  maps_ok c m → phase_ok c m (ReclaimLookup cmd g cl) →
  let '(m', p') := reclaim_lookup cmd g cl m in step_ok c m (ReclaimLookup cmd g cl) m' p'.
Proof.
  intros Hm Hr. cbn. apply step_reads; [done|apply same_refl|by split|done|].
  intros _. by eapply reclaim_busy.
Qed.

Lemma reclaim_cases v current cmd e :
  decode_entry v (command_key cmd) = Some e →
  (∃ r, r ≠ CONTROL_RESULT_APPLIED ∧ reclaim_locked v current cmd = (v, r))
  ∨ (fe_control_epoch e = cc_expected_epoch cmd
     ∧ reclaim_locked v current cmd
       = (entry_value (command_key cmd)
            (mkFenceEntry Reclaiming (cc_durable_fence_token cmd) 0 (cc_expected_epoch cmd)),
          CONTROL_RESULT_APPLIED)).
Proof.
  intros Hd. unfold reclaim_locked. rewrite Hd. destruct (negb _) eqn:E1; [refused|].
  destruct (negb _) eqn:E2 in |- *; [refused|]. destruct (_ <=? _); [refused|].
  right. to_prop. done.
Qed.

Lemma reclaim_mark_ok c m cmd g cl slot :
  maps_ok c m → phase_ok c m (ReclaimMark cmd g cl slot) →
  let '(m', p') := reclaim_mark cmd g cl slot m in
  step_ok c m (ReclaimMark cmd g cl slot) m' p'.
Proof.
  intros Hm [Hr Hl]. pose proof Hr as (How & Hc & Hs & Ht). pose proof (reclaim_busy _ _ _ _ _ Hm Hr).
  unfold reclaim_mark. unfold owned in How. rewrite How, (current_decodes c m Hm). cbn [negb].
  destruct slot as [a|]; cbn [entry_at].
  2: { by apply step_reads. }
  destruct (live_entry c m _ a Hm Hl) as (e & Hv & He & Hd & Htok).
  destruct (reclaim_cases _ c cmd e Hd) as [(r & _ & ->)|(Hep & ->)].
  - apply step_reads; [done|apply (same_put m (Some a))|done|done|done].
  - cbn [put_entry]. pose proof (entry_epoch _ _ _ He) as Hb. rewrite Hep in Hb.
    apply step_owner_entry; [exact Hm|reflexivity|reflexivity|exact Hl| |by right|].
    + by apply (kept_reclaiming _ (command_key cmd)).
    + split; [exact How|]. split; [exact Hc|]. split; [exact Hs|exact Ht].
Qed.

Lemma reclaim_remove_ok c m cmd g cl r ch m' p' :
  maps_ok c m → phase_ok c m (ReclaimRemove cmd g cl r) →
  reclaim_remove cmd g cl r ch m = Some (m', p') →
  step_ok c m (ReclaimRemove cmd g cl r) m' p'.
Proof.
  intros Hm Hr H. pose proof (reclaim_busy _ _ _ _ _ Hm Hr) as Hb. unfold reclaim_remove in H.
  assert (∀ b, step_ok c m (ReclaimRemove cmd g cl r) m (ReclaimFinish cmd g cl r b)) as Hsame
    by (intros b; by apply step_reads).
  destruct (negb _); [injection H as <- <-; apply Hsame|].
  destruct ch; [|done|injection H as <- <-; apply Hsame].
  destruct (fm_cookies m !! command_key cmd) as [a|] eqn:Ha; injection H as <- <-;
    [|apply Hsame].
  destruct Hr as (How & Hc & Hs & Ht). apply step_acts with c; [by left| | | |by left].
  - by apply maps_ok_delete.
  - split; [done|]. split; [done|]. split; [|done].
    intros k [b Hk] E. cbn in Hk. apply lookup_delete_Some in Hk as [_ Hk]. apply Hs; [by exists b|done].
  - split; cbn; [done| |by left| |by intros; apply entry_moves_refl|done].
    + intros _ Hi. by destruct Hb.
    + intros k b Hk Hle. rewrite lookup_delete_ne; [done|]. intros <-. cbn in Hle. lia.
Qed.

Lemma reclaim_finish_ok c m cmd g cl r b :
  maps_ok c m → phase_ok c m (ReclaimFinish cmd g cl r b) →
  let '(m', p') := reclaim_finish cmd g cl r b m in
  step_ok c m (ReclaimFinish cmd g cl r b) m' p'.
Proof.
  intros Hm (How & _ & Hs & _). unfold reclaim_finish. pose proof How as Hmat.
  unfold owned in Hmat. rewrite Hmat.
  eapply step_commit; [done|exact How|done|done|apply interferes_refl|done|done].
Qed.

(** ** Activation and closing *)

Lemma apply_start_ok c m p cmd :
  maps_ok c m → owns p = false → command_ok cmd →
  let '(m', p') := apply_start cmd m in step_ok c m p m' p'.
Proof.
  intros Hm Hp Hc. unfold apply_start, snapshot_mutation_generation.
  destruct (_ =? 0); (apply step_reads; [done|apply same_refl| |done|by rewrite Hp]); by split.
Qed.

Lemma apply_lookup_ok c m cmd g :
  maps_ok c m → phase_ok c m (ApplyLookup cmd g) →
  let '(m', p') := apply_lookup cmd g m in step_ok c m (ApplyLookup cmd g) m' p'.
Proof.
  intros Hm [Hc Hg]. unfold apply_lookup. destruct (_ !! _) eqn:E; by apply step_reads.
Qed.

Lemma apply_clock_ok c m cmd g slot :
  maps_ok c m → phase_ok c m (ApplyClock cmd g slot) →
  let '(m', p') := apply_clock cmd g slot m in step_ok c m (ApplyClock cmd g slot) m' p'.
Proof.
  intros Hm [Hc Hp]. cbn. apply step_reads; [done|apply same_refl| |done|done].
  split; [done|]. split; [done|]. pose proof (mo_clock c m Hm). case_bool_decide; lia.
Qed.

(** Activation opens an initial entry of the current lifecycle. *)
Lemma activate_cases v c cmd now e :
  decode_entry v (command_key cmd) = Some e →
  (∃ r, r ≠ CONTROL_RESULT_APPLIED ∧ activate_locked v c cmd now = (v, r))
  ∨ (fe_state e = InitialClosed ∧ fe_control_epoch e = cc_expected_epoch cmd
     ∧ not_current c cmd = false
     ∧ now < cc_deadline_boot_ns cmd ≤ now + EGRESS_FENCE_MAX_GATE_LIFETIME_NS
     ∧ fe_control_epoch e ≤ LAST_REFRESHABLE_EPOCH
     ∧ activate_locked v c cmd now
       = (entry_value (command_key cmd)
            (mkFenceEntry Active (cc_durable_fence_token cmd) (cc_deadline_boot_ns cmd)
               (cc_expected_epoch cmd + 1)), CONTROL_RESULT_APPLIED)).
Proof.
  intros Hd. unfold activate_locked. rewrite Hd. destruct (negb _) eqn:E1; [refused|].
  apply negb_false_iff, Z.eqb_eq in E1.
  destruct (not_current c cmd || _) eqn:E2; [refused|].
  destruct (finished _); [refused|]. destruct (negb (bool_decide _)) eqn:E3; [refused|].
  destruct (negb (deadline_within_gate_lifetime _ _)) eqn:E4; [refused|].
  destruct (_ <? _) eqn:E5; [refused|]. right.
  apply orb_false_iff in E2 as [E2 _]. apply negb_false_iff in E3, E4.
  apply bool_decide_eq_true in E3. unfold deadline_within_gate_lifetime in E4. to_prop.
  split_and!; try done; [lia|]. unfold write_active, entry_value. cbn. by rewrite E1.
Qed.

(** Closing ends an entry that is not finished. *)
Lemma close_cases v cmd e :
  decode_entry v (command_key cmd) = Some e →
  (∃ r, r ≠ CONTROL_RESULT_APPLIED ∧ close_locked v cmd = (v, r))
  ∨ (finished (fe_state e) = false ∧ fe_control_epoch e = cc_expected_epoch cmd
     ∧ fe_control_epoch e + 1 ≤ U64_MAX
     ∧ close_locked v cmd
       = (entry_value (command_key cmd)
            (mkFenceEntry TerminalClosed (cc_durable_fence_token cmd) 0
               (cc_expected_epoch cmd + 1)), CONTROL_RESULT_APPLIED)).
Proof.
  intros Hd. unfold close_locked. rewrite Hd. destruct (negb _) eqn:E1; [refused|].
  apply negb_false_iff, Z.eqb_eq in E1. destruct (_ || _) eqn:E2; [refused|].
  destruct (finished _) eqn:E3; [refused|].
  destruct (checked_add _ _) as [n|] eqn:E4; [|refused]. right.
  apply checked_add_some in E4 as [-> E4]. change USIZE_MAX with U64_MAX in E4.
  apply orb_false_iff in E2 as [_ E2]. apply negb_false_iff, Z.eqb_eq in E2.
  split_and!; try done. unfold write_terminal, entry_value. cbn. by rewrite E1, <-E2.
Qed.

(** Without a claim, an entry is changed. *)
Lemma step_idle_entry c m p k a e p' :
  maps_ok c m → owns p = false → owns p' = false → idle m → fm_cookies m !! k = Some a →
  entry_kept (fm_clock m) k e →
  entry_moves (fm_slots m a) (entry_value k e)
  ∨ mk_durable_fence_token k < ct_durable_fence_token c →
  phase_ok c (set_slot a (entry_value k e) m) p' →
  step_ok c m p (set_slot a (entry_value k e) m) p'.
Proof.
  intros Hm Hp Hp' Hi Ha He Hv Hok. apply step_acts with c;
    [by right|by apply maps_ok_slot|done|by eapply interferes_slot|by right].
Qed.

Lemma pinned_slot m a v g k slot : pinned m g k slot → pinned (set_slot a v m) g k slot.
Proof. done. Qed.

Lemma apply_entry_ok c m cmd g slot now :
  maps_ok c m → phase_ok c m (ApplyEntry cmd g slot now) →
  let '(m', p') := apply_entry cmd g slot now m in
  step_ok c m (ApplyEntry cmd g slot now) m' p'.
Proof.
  intros Hm (Hc & Hpin & Hnow). unfold apply_entry.
  destruct (mutation_generation_matches (fm_mutation m) g) eqn:Hmat; cbn [negb];
    [|by apply step_reads].
  pose proof (matches_idle m g Hmat) as [_ Hi]. pose proof (proj2 Hpin Hmat) as Ha.
  destruct (live_entry c m _ slot Hm Ha) as (e & Hv & He & Hd & Htok).
  pose proof (entry_epoch _ _ _ He) as Hb.
  assert (∀ p', owns p' = false → phase_ok c m p' →
    step_ok c m (ApplyEntry cmd g slot now) (set_slot slot (fm_slots m slot) m) p') as Hsame.
  { intros p' Hp' Hok. apply step_reads; [done|apply (same_put m (Some slot))|done|done|done]. }
  unfold apply_entry_locked. rewrite (current_decodes c m Hm).
  destruct (cc_operation cmd); try (by apply Hsame).
  - destruct (activate_cases _ c cmd now e Hd) as [(r & Hr & ->)|(Hst & Hep & Hn & Hdl & Hl & ->)].
    + rewrite (proj2 (Z.eqb_neq r _)) by done. by apply Hsame.
    + cbn. rewrite Hep in *.
      apply step_idle_entry; [exact Hm|reflexivity|reflexivity|exact Hi|exact Ha| | |].
      * apply (kept_active _ (command_key cmd)); [exact Htok| | | |lia].
        -- unfold LAST_REFRESHABLE_EPOCH in Hl. lia.
        -- exact (proj1 (proj2 (proj2 (proj2 Hc)))).
        -- lia.
      * left. rewrite Hv. apply entry_moves_open; [by rewrite Hst|cbn; lia].
      * split; [exact Hc|]. exact Hpin.
  - destruct (close_cases _ cmd e Hd) as [(r & Hr & ->)|(Hst & Hep & Hl & ->)].
    + rewrite (proj2 (Z.eqb_neq r _)) by done. by apply Hsame.
    + cbn. rewrite Hep in *.
      apply step_idle_entry; [exact Hm|reflexivity|reflexivity|exact Hi|exact Ha| | |exact I].
      * apply (kept_terminal _ (command_key cmd)); [exact Htok|lia].
      * left. rewrite Hv. apply entry_moves_open; [|cbn; lia]. by intros E; rewrite E in Hst.
Qed.

Lemma activate_clock_ok c m cmd g slot :
  maps_ok c m → phase_ok c m (ActivateClock cmd g slot) →
  let '(m', p') := activate_clock cmd g slot m in
  step_ok c m (ActivateClock cmd g slot) m' p'.
Proof. intros Hm Hp. unfold activate_clock. destruct (_ <=? _); by apply step_reads. Qed.

(** The late activation's own entry is closed, or nothing happens. *)
Lemma terminalize_cases c m v cmd e :
  maps_ok c m → decode_entry v (command_key cmd) = Some e →
  terminalize_exact_active (fm_current m) v cmd = v
  ∨ (fe_state e = Active ∧ fe_control_epoch e + 1 ≤ U64_MAX
     ∧ terminalize_exact_active (fm_current m) v cmd
       = entry_value (command_key cmd)
           (mkFenceEntry TerminalClosed (cc_durable_fence_token cmd) 0
              (fe_control_epoch e + 1))).
Proof.
  intros Hm Hd. unfold terminalize_exact_active. rewrite (current_decodes c m Hm), Hd.
  destruct (_ || _); [by left|]. destruct (_ || _) eqn:E; [by left|].
  destruct (checked_add _ _) as [n|] eqn:E4; [|by left]. right.
  apply checked_add_some in E4 as [-> E4]. change USIZE_MAX with U64_MAX in E4.
  apply decode_entry_inv in Hd as [_ Ht]. rewrite Ht.
  rewrite !orb_false_iff in E. destruct E as [[[E _] _] _].
  apply negb_false_iff, bool_decide_eq_true in E. done.
Qed.

Lemma activate_expire_ok c m cmd g slot :
  maps_ok c m → phase_ok c m (ActivateExpire cmd g slot) →
  let '(m', p') := activate_expire cmd g slot m in
  step_ok c m (ActivateExpire cmd g slot) m' p'.
Proof.
  intros Hm [Hc Hpin]. unfold activate_expire.
  destruct (mutation_generation_matches (fm_mutation m) g) eqn:Hmat; [|by apply step_reads].
  pose proof (matches_idle m g Hmat) as [_ Hi]. pose proof (proj2 Hpin Hmat) as Ha.
  destruct (live_entry c m _ slot Hm Ha) as (e & Hv & He & Hd & Htok).
  destruct (terminalize_cases c m _ cmd e Hm Hd) as [->|(Hst & Hl & ->)].
  - apply step_reads; [done|apply (same_put m (Some slot))|done|done|done].
  - pose proof (entry_epoch _ _ _ He) as Hb.
    apply step_idle_entry; [exact Hm|reflexivity|reflexivity|exact Hi|exact Ha| | |exact I].
    + apply (kept_terminal _ (command_key cmd)); [exact Htok|lia].
    + left. rewrite Hv. apply entry_moves_open; [by rewrite Hst|cbn; lia].
Qed.

(** ** Inspection *)

Lemma view_start_ok c m p cmd :
  maps_ok c m → owns p = false → let '(m', p') := view_start cmd m in step_ok c m p m' p'.
Proof.
  intros Hm Hp. unfold view_start. destruct (_ =? 0);
    (apply step_reads; [done|apply same_refl| |done|by rewrite Hp]); [apply Z.le_refl|done].
Qed.

Lemma view_lookup_ok c m cmd g :
  maps_ok c m → phase_ok c m (ViewLookup cmd g) →
  let '(m', p') := view_lookup cmd g m in step_ok c m (ViewLookup cmd g) m' p'.
Proof.
  intros Hm Hg. cbn. apply step_reads; [done|apply same_refl| |done|done].
  cbn. unfold view_slot. by destruct (_ =? 0).
Qed.

Lemma view_entry_ok c m cmd g slot :
  maps_ok c m → phase_ok c m (ViewEntry cmd g slot) →
  let '(m', p') := view_entry cmd g slot m in step_ok c m (ViewEntry cmd g slot) m' p'.
Proof.
  intros Hm Hs. unfold view_entry. destruct (negb _); [by apply step_reads|].
  destruct (entry_at m slot); [|by apply step_reads].
  destruct (decode_entry _ _); by apply step_reads.
Qed.

Lemma view_store_ok c m o ch :
  maps_ok c m → let '(m', p') := view_store o ch m in step_ok c m (ViewStore o) m' p'.
Proof. intros Hm. unfold view_store. destruct ch; by apply step_reads. Qed.

(** ** Every step *)

Lemma advance_step_ok c m p ch m' p' :
  maps_ok c m → phase_ok c m p → advance p ch m = Some (m', p') → step_ok c m p m' p'.
Proof.
  intros Hm Hp H. destruct p; cbn [advance] in H; try done;
    try (apply Some_inj in H);
    first
    [ by pose proof (gate_lookup_ok _ _ _ _ Hm Hp) as Hs; rewrite H in Hs
    | by pose proof (gate_entry_ok _ _ _ _ _ Hm Hp) as Hs; rewrite H in Hs
    | by pose proof (gate_clock_ok _ _ _ _ _ Hm Hp) as Hs; rewrite H in Hs
    | by pose proof (retire_lookup_ok _ _ _ _ _ Hm Hp) as Hs; rewrite H in Hs
    | by pose proof (retire_entry_ok _ _ _ _ _ _ Hm Hp) as Hs; rewrite H in Hs
    | by pose proof (register_lookup_ok _ _ _ _ _ _ Hm Hp) as Hs; rewrite H in Hs
    | by pose proof (register_commit_ok _ _ _ _ _ _ _ Hm Hp) as Hs; rewrite H in Hs
    | by pose proof (refresh_lookup_ok _ _ _ _ _ Hm Hp) as Hs; rewrite H in Hs
    | by pose proof (refresh_prepare_ok _ _ _ _ _ _ Hm Hp) as Hs; rewrite H in Hs
    | by pose proof (refresh_observe_ok _ _ _ _ _ _ _ Hm Hp) as Hs; rewrite H in Hs
    | by pose proof (refresh_complete_ok _ _ _ _ _ _ _ _ Hm Hp) as Hs; rewrite H in Hs
    | by pose proof (refresh_observe_again_ok _ _ _ _ _ _ _ Hm Hp) as Hs; rewrite H in Hs
    | by pose proof (refresh_finalize_ok _ _ _ _ _ _ _ _ Hm Hp) as Hs; rewrite H in Hs
    | by pose proof (reclaim_lookup_ok _ _ _ _ _ Hm Hp) as Hs; rewrite H in Hs
    | by pose proof (reclaim_mark_ok _ _ _ _ _ _ Hm Hp) as Hs; rewrite H in Hs
    | by pose proof (reclaim_finish_ok _ _ _ _ _ _ _ Hm Hp) as Hs; rewrite H in Hs
    | by pose proof (apply_lookup_ok _ _ _ _ Hm Hp) as Hs; rewrite H in Hs
    | by pose proof (apply_clock_ok _ _ _ _ _ Hm Hp) as Hs; rewrite H in Hs
    | by pose proof (apply_entry_ok _ _ _ _ _ _ Hm Hp) as Hs; rewrite H in Hs
    | by pose proof (activate_clock_ok _ _ _ _ _ Hm Hp) as Hs; rewrite H in Hs
    | by pose proof (activate_expire_ok _ _ _ _ _ Hm Hp) as Hs; rewrite H in Hs
    | by pose proof (view_lookup_ok _ _ _ _ Hm Hp) as Hs; rewrite H in Hs
    | by pose proof (view_entry_ok _ _ _ _ _ Hm Hp) as Hs; rewrite H in Hs
    | idtac ].
  - by eapply register_insert_ok.
  - by eapply reclaim_remove_ok.
  - pose proof (view_store_ok c m output ch Hm) as Hs. by rewrite H in Hs.
Qed.
