(* ===== verification/FenceReach.v ===== *)
(** The invariant of the whole egress fence: every invocation starts right, and the
    invariant of the maps and of all invocations holds after every event of a run. *)

From stdpp Require Import functions.
From S2P Require Import Prelude.
From S2P Require Import FenceAbi.
From S2P Require Import FenceCodec.
From S2P Require Import FencePacket.
From S2P Require Import FenceKernel.
From S2P Require Import FenceSystem.
From S2P Require Import FenceInvariant.
From S2P Require Import FenceSteps.

Section Reach.
Context {Ctx : Type} `{SkBuffLaws Ctx}.

(** ** Starting an invocation *)

Lemma extension_loop_total fuel (ctx : Ctx) pend port nh cursor n :
  n ≤ MAX_IPV6_EXTENSION_HEADERS < n + Z.of_nat fuel →
  is_Some (kernel_extension_loop fuel ctx pend port nh cursor n).
Proof.
  revert nh cursor n. induction fuel as [|fuel IH]; intros nh cursor n Hn; [lia|].
  cbn [kernel_extension_loop].
  assert (∀ nh' cursor', MAX_IPV6_EXTENSION_HEADERS <=? n = false →
    is_Some (kernel_extension_loop fuel ctx pend port nh' cursor' (n + 1))) as Hnext.
  { intros nh' cursor' Hl%Z.leb_gt. apply IH. lia. }
  repeat (match goal with
    |- context [if ?b then _ else _] => destruct b eqn:?
  | |- context [match ctx_load ?c ?o ?l with _ => _ end] => destruct (ctx_load c o l)
  end; try (by eexists)).
  all: apply Hnext;
    match goal with E : (MAX_IPV6_EXTENSION_HEADERS <=? _) || _ = false |- _ =>
      by apply orb_false_iff in E as [? _] end.
Qed.

(** The classifier's loop ends within its fuel on every buffer. *)
Lemma classify_endpoint_total (ctx : Ctx) e : is_Some (classify_endpoint ctx e).
Proof.
  unfold classify_endpoint, kernel_classify_ipv6.
  repeat lazymatch goal with
    |- is_Some (Some _) => by eexists
  | |- is_Some (kernel_extension_loop _ _ _ _ _ _ _) => by apply extension_loop_total
  | _ => case_match
  end.
Qed.

(** A load within octets yields a 64-bit value. *)
Lemma load_u64_range (ctx : Ctx) o w :
  bytes_ok (ctx_octets ctx) → 0 ≤ o → load_u64 ctx o = Some w → u64 w.
Proof.
  intros Hb Ho. unfold load_u64. destruct (ctx_load ctx o 8) as [b|] eqn:E; [|done].
  intros [= <-]. destruct (decide (o + 8 ≤ len (ctx_octets ctx))) as [Hl|Hl].
  - rewrite ctx_load_within in E by lia. injection E as <-. apply from_le_u64.
    + by apply Forall_take, Forall_drop.
    + rewrite length_take, length_drop. unfold len in Hl. lia.
  - rewrite ctx_load_beyond in E by lia. done.
Qed.

Lemma load_command_ok (ctx : Ctx) op cmd :
  bytes_ok (ctx_octets ctx) → load_command ctx op = Some cmd → command_ok cmd.
Proof.
  intros Hb. unfold load_command.
  destruct (load_u64 ctx 8) eqn:E1, (load_u64 ctx 16) eqn:E2, (load_u64 ctx 24) eqn:E3,
    (load_u64 ctx 32) eqn:E4, (load_u64 ctx 40) eqn:E5; try done.
  apply load_u64_range in E1, E2, E3, E4, E5; try done. intros Hc. pose proof Hc as Hn.
  unfold ControlCommand_new in Hc. case_match; [done|]. injection Hc as <-.
  split_and!; done.
Qed.

Lemma admitted_ok (ctx : Ctx) b m cmd :
  bytes_ok (ctx_octets ctx) → admitted_command ctx b m = Some cmd → command_ok cmd.
Proof.
  intros Hb. unfold admitted_command, load_control_command.
  destruct (negb _ && _); [done|]. destruct (load_u64 ctx 0); [|done].
  destruct (negb _); [done|]. destruct (ControlOperation_decode _) as [op|]; [|done].
  intros Hc. repeat (case_match; try done); simplify_eq; by eapply load_command_ok.
Qed.

Definition event_ok (e : Event Ctx) : Prop :=
  match e with
  | Start _ (Control ctx) | Start _ (View ctx) => bytes_ok (ctx_octets ctx)
  | _ => True
  end.

Lemma gate_start_ok c m p cpu (ctx : Ctx) socket cookie :
  maps_ok c m → owns p = false →
  let '(m', p') := gate_start cpu ctx socket cookie m in step_ok c m p m' p'.
Proof.
  intros Hm Hp. assert (∀ n g, step_ok c m p (count cpu n m) (GateDone g CGROUP_DROP)) as Hd.
  { intros n g. apply step_reads; [done|apply same_count|done|done|by rewrite Hp]. }
  unfold gate_start, gate_drop. destruct (load_config _) as [config|]; [|apply Hd].
  set (d := disposition _ _). set (s := socket_endpoint_matches _ _). cbn zeta.
  destruct (bool_decide (d = Unrelated) && negb s) eqn:E1.
  { apply step_reads; [done|apply same_refl|done|done|by rewrite Hp]. }
  destruct (bool_decide (d = Indeterminate) && negb s) eqn:E2; [apply Hd|].
  destruct (cookie =? 0) eqn:E3; [apply Hd|]. rewrite (current_decodes c m Hm).
  destruct (_ || _) eqn:E4; [apply Hd|].
  apply step_reads; [done|apply same_refl| |by rewrite Hp|by rewrite Hp].
  rewrite !orb_false_iff in E4. destruct E4 as [[E4 E5] E6].
  apply negb_false_iff in E4, E6. apply Z.eqb_neq in E3, E5. apply Z.eqb_eq in E6.
  split; [|split; [done|split; [done|split; [done|by left]]]].
  unfold gate_related. cbn. destruct s; [by left|]. right. rewrite !andb_true_r in E1, E2.
  apply bool_decide_eq_false in E1, E2. by destruct d.
Qed.

Lemma control_start_ok c m p (ctx : Ctx) :
  maps_ok c m → owns p = false → bytes_ok (ctx_octets ctx) →
  let '(m', p') := control_start ctx m in step_ok c m p m' p'.
Proof.
  intros Hm Hp Hb. unfold control_start. destruct (admitted_command ctx false m) as [cmd|] eqn:E.
  - apply admitted_ok in E; [|done]. destruct (cc_operation cmd) eqn:Eo;
      first [ by apply retire_start_ok | by apply register_start_ok | by apply apply_start_ok
            | by apply refresh_start_ok | by apply reclaim_start_ok | idtac ].
    pose proof (publish_ok c m p cmd Hm Hp E Eo) as Hs.
    by destruct (publish_lifecycle_locked _ _ _).
  - apply step_reads; [done|apply same_refl|done|done|by rewrite Hp].
Qed.

Lemma start_ok c m p t (i : Invocation Ctx) :
  maps_ok c m → owns p = false → event_ok (Start t i) →
  let '(m', p') := start i m in step_ok c m p m' p'.
Proof.
  intros Hm Hp He. destruct i; cbn [start].
  - by apply gate_start_ok.
  - by apply control_start_ok.
  - unfold inspect_start. destruct (admitted_command _ _ _) as [cmd|]; [by apply view_start_ok|].
    apply step_reads; [done|apply same_refl|done|done|by rewrite Hp].
Qed.

(** ** The invariant of the system *)

Record system_ok (c : CurrentFenceToken) (s : FenceSystem) : Prop := {
  so_maps : maps_ok c (fs_maps s);
  so_phase t p : fs_running s !! t = Some p → phase_ok c (fs_maps s) p;
  so_owner t t' p p' :
    fs_running s !! t = Some p → fs_running s !! t' = Some p' →
    owns p = true → owns p' = true → t = t';
  so_claim :
    ¬ idle (fs_maps s) → ∃ t p, fs_running s !! t = Some p ∧ owns p = true;
}.

Lemma owner_busy c m p : maps_ok c m → phase_ok c m p → owns p = true → ¬ idle m.
Proof.
  intros Hm Hp Ho. destruct p; try done; cbn in Hp;
    unfold register_ok, refresh_ok, reclaim_ok in Hp; destruct_and?; by eapply owned_busy.
Qed.

(** A step of invocation [t], at phase [p] before it. *)
Lemma system_step c s t p m' p' :
  system_ok c s → (fs_running s !! t = Some p ∨ fs_running s !! t = None ∧ owns p = false) →
  step_ok c (fs_maps s) p m' p' →
  ∃ c', system_ok c' (mkFenceSystem m' (<[t := p']> (fs_running s)))
        ∧ interferes c (fs_maps s) c' m'.
Proof.
  intros Hs Ht (c' & Hm & Hp & Hi & Hq & Hidle & Hnew). exists c'. split; [|done].
  pose proof (so_maps c s Hs) as Hm0.
  assert (∀ t' q, t' ≠ t → fs_running s !! t' = Some q → owns q = true → owns p = false) as Hex.
  { intros t' q Hne Hq' Ho. destruct (owns p) eqn:Ep; [|done]. destruct Ht as [Ht|[_ ?]]; [|done].
    by destruct Hne; eapply (so_owner c s Hs). }
  assert (∀ t' q, fs_running s !! t' = Some q → owns q = true → ¬ idle (fs_maps s)) as Hbusy.
  { intros t' q Hq'. apply (owner_busy c); [done|]. by eapply so_phase. }
  split; cbn [fs_maps fs_running]; [done| | |].
  - intros t' q [[<- <-]|[Hne Hr]]%lookup_insert_Some; [done|].
    pose proof (so_phase c s Hs _ _ Hr) as Hok. destruct (owns q) eqn:Eq.
    + eapply phase_quiet; [apply Hq; eauto|done|done].
    + by eapply phase_stable.
  - assert (∀ t' q, t' ≠ t → fs_running s !! t' = Some q → owns q = true → owns p' = true →
      False) as Hone.
    { intros t' q Hne Hr Ho Ho'. destruct (Hnew Ho') as [E|E].
      - by rewrite (Hex t' q) in E.
      - by eapply Hbusy. }
    intros t1 t2 p1 p2 H1 H2 O1 O2.
    apply lookup_insert_Some in H1 as [[<- <-]|[N1 H1]], H2 as [[<- <-]|[N2 H2]]; [done| | |].
    + by destruct (Hone t2 p2).
    + by destruct (Hone t1 p1).
    + by eapply (so_owner c s Hs).
  - intros Hn. destruct (Hidle Hn) as [Ho|[Ho Hb]].
    + exists t, p'. by rewrite lookup_insert_eq.
    + destruct (so_claim c s Hs Hb) as (t' & q & Hr & Ho'). exists t', q.
      rewrite lookup_insert_ne; [done|]. intros <-. destruct Ht as [?|[? _]]; congruence.
Qed.

Lemma system_quiet c s m' :
  system_ok c s → maps_ok c m' → quiet c (fs_maps s) c m' →
  system_ok c (mkFenceSystem m' (fs_running s)) ∧ interferes c (fs_maps s) c m'.
Proof.
  intros Hs Hm Hq. split; [|by apply quiet_interferes]. destruct Hs as [Hm0 Hp Ho Hc].
  split; cbn [fs_maps fs_running]; [done| |done|].
  - intros t p Hr. specialize (Hp t p Hr). destruct (owns p) eqn:E; [by eapply phase_quiet|].
    eapply phase_stable; [by apply quiet_interferes|done|done].
  - unfold idle. rewrite (qt_mutation _ _ _ _ Hq). done.
Qed.

Lemma exec_ok c s e s' :
  system_ok c s → event_ok e → exec s e = Some s' →
  ∃ c', system_ok c' s' ∧ interferes c (fs_maps s) c' (fs_maps s').
Proof.
  intros Hs He H1. pose proof (so_maps c s Hs) as Hm. destruct e as [t i|t ch|n|a v]; cbn in H1.
  - destruct (fs_running s !! t) eqn:Et; [done|].
    pose proof (start_ok c (fs_maps s) (ControlDone 0) t i Hm eq_refl He) as Hok.
    destruct (start i (fs_maps s)) as [m' p]. injection H1 as <-.
    eapply system_step; [done| |done]. by right.
  - destruct (fs_running s !! t) as [p|] eqn:Et; [|done].
    destruct (advance p ch (fs_maps s)) as [[m' p']|] eqn:Ea; [|done]. injection H1 as <-.
    eapply system_step; [done|by left|]. eapply advance_step_ok; [done| |done].
    by eapply so_phase.
  - destruct (_ && _) eqn:E; [|done]. injection H1 as <-. to_prop. exists c.
    apply system_quiet; [done|apply maps_ok_clock; [done|lia]|by split; cbn; try lia].
  - destruct (free_slot (fs_maps s) a) eqn:E; [|done]. injection H1 as <-. exists c.
    apply system_quiet; [done|by apply maps_ok_free|]. split; cbn; try done.
    intros k b Hb. apply fn_lookup_insert_ne. intros <-. by eapply free_slot_unlinked.
Qed.

(** ** Runs *)

Lemma interferes_trans c1 m1 c2 m2 c3 m3 :
  interferes c1 m1 c2 m2 → interferes c2 m2 c3 m3 → interferes c1 m1 c3 m3.
Proof.
  intros H1 H2. pose proof (if_generation _ _ _ _ H1). pose proof (if_generation _ _ _ _ H2).
  assert (ct_durable_fence_token c2 ≤ ct_durable_fence_token c3) as Hle
    by (destruct (if_current _ _ _ _ H2) as [->|[?|[? _]]]; lia).
  split.
  - lia.
  - intros E Hi. destruct (if_idle _ _ _ _ H2) as [Hi2 ->]; [lia|done|].
    apply (if_idle _ _ _ _ H1); [lia|done].
  - destruct (if_current _ _ _ _ H1) as [->|[?|[E1 ?]]]; [by apply (if_current _ _ _ _ H2)| |].
    + right; left. lia.
    + destruct (if_current _ _ _ _ H2) as [->|[?|[E2 _]]]; right; [by right|left; lia|].
      right. split; [lia|done].
  - intros k a Ha Hk. apply (if_live _ _ _ _ H2); [|done].
    apply (if_live _ _ _ _ H1); [done|lia].
  - intros k a Ha Hk. eapply entry_moves_trans; [apply (if_entry _ _ _ _ H1 k); [done|lia]|].
    apply (if_entry _ _ _ _ H2 k); [|done]. apply (if_live _ _ _ _ H1); [done|lia].
  - pose proof (if_clock _ _ _ _ H1). pose proof (if_clock _ _ _ _ H2). lia.
Qed.

Lemma run_ok c s (es : list (Event Ctx)) s' :
  system_ok c s → Forall event_ok es → run s es = Some s' →
  ∃ c', system_ok c' s' ∧ interferes c (fs_maps s) c' (fs_maps s').
Proof.
  revert c s. induction es as [|e es IH]; intros c s Hs He Hr.
  - injection Hr as <-. exists c. split; [done|apply interferes_refl].
  - apply Forall_cons in He as [He Hes]. cbn in Hr. destruct (exec s e) as [s1|] eqn:E; [|done].
    destruct (exec_ok c s e s1 Hs He E) as (c1 & Hs1 & Hi1).
    destruct (IH c1 s1 Hs1 Hes Hr) as (c2 & Hs2 & Hi2).
    exists c2. split; [done|]. by eapply interferes_trans.
Qed.

Lemma run_app (s : FenceSystem) (es1 es2 : list (Event Ctx)) :
  run s (es1 ++ es2) = match run s es1 with Some s1 => run s1 es2 | None => None end.
Proof. revert s. induction es1 as [|e es1 IH]; intros s; [done|]. cbn. by destruct (exec s e). Qed.

Lemma initial_ok config slots clock :
  0 ≤ clock → system_ok CurrentFenceToken_initial (initial_system config slots clock).
Proof.
  intros Hc. split; [|done|done|by intros []]. split; try done; cbn.
  - split; [done|]. split; [done|]. by left.
  - by left.
  - by intros k [].
Qed.

Definition reaches (s : FenceSystem) : Prop :=
  ∃ config slots clock es, 0 ≤ clock ∧ Forall event_ok es
    ∧ run (initial_system config slots clock) es = Some s.

Lemma reaches_ok s : reaches s → ∃ c, system_ok c s.
Proof.
  intros (config & slots & clock & es & Hc & He & Hr).
  destruct (run_ok _ _ _ _ (initial_ok config slots clock Hc) He Hr) as (c & Hs & _). by exists c.
Qed.

End Reach.
