(* ===== verification/FenceSafety.v ===== *)
(** What the egress fence promises of every interleaving of its programs: when a packet
    may leave, that superseded and closed lifecycles stay shut, that authority runs out by
    itself, and that the mutation claim is always given back. *)

From stdpp Require Import functions.
From S2P Require Import Prelude.
From S2P Require Import FenceAbi.
From S2P Require Import FenceCodec.
From S2P Require Import FencePacket.
From S2P Require Import FenceKernel.
From S2P Require Import FenceSystem.
From S2P Require Import FenceInvariant.
From S2P Require Import FenceSteps.
From S2P Require Import FenceReach.

(** The gate is open: the current lifecycle is open for this socket, whose live entry is
    active until the deadline. *)
Definition gate_open (m : FenceMaps) (cookie token deadline : Z) : Prop :=
  ∃ current slot epoch,
    decode_current (fm_current m) = Some current ∧ is_lifecycle_open current = true
    ∧ ct_durable_fence_token current = token ∧ ct_registered_socket_cookie current = cookie
    ∧ fm_cookies m !! cookie_key cookie token = Some slot
    ∧ decode_entry (fm_slots m slot) (cookie_key cookie token)
      = Some (mkFenceEntry Active token deadline epoch).

(** The invocation is one of [opc_fence_ctl] and not over. *)
Definition controls (p : Phase) : bool :=
  match p with
  | GateLookup _ _ | GateEntry _ _ _ | GateClock _ _ _ | GateDone _ _
  | ViewLookup _ _ | ViewEntry _ _ _ | ViewStore _ | ViewDone _ _ | ControlDone _ => false
  | _ => true
  end.

Definition starts_control {Ctx} (e : Event Ctx) : bool :=
  match e with Start _ (Control _) => true | _ => false end.

(** How many more steps the holder of a claim takes at most. *)
Definition claim_turns (p : Phase) : nat :=
  match p with
  | RegisterCommit _ _ _ _ _ | RefreshFinalize _ _ _ _ _ _ | ReclaimFinish _ _ _ _ _ => 1
  | RegisterLookup _ _ _ _ | RefreshObserveAgain _ _ _ _ _ | ReclaimRemove _ _ _ _ => 2
  | RegisterInsert _ _ _ | RefreshComplete _ _ _ _ _ _ | ReclaimMark _ _ _ _ => 3
  | RefreshObserve _ _ _ _ _ | ReclaimLookup _ _ _ => 4
  | RefreshPrepare _ _ _ _ => 5
  | RefreshLookup _ _ _ => 6
  | _ => 0
  end.

(** The steps an invocation takes in a schedule. *)
Fixpoint steps_of {Ctx} (t : nat) (es : list (Event Ctx)) : nat :=
  match es with
  | [] => 0
  | Step t' _ :: es => (if bool_decide (t' = t) then 1 else 0) + steps_of t es
  | _ :: es => steps_of t es
  end.

(** An open and a retired current value never share a token. *)
Lemma open_same_token c c' :
  current_ok c → current_ok c' → is_lifecycle_open c' = true →
  ct_durable_fence_token c = ct_durable_fence_token c' → is_lifecycle_open c = true.
Proof.
  intros Hc Hc' Ho Ht. pose proof (open_lifecycle c' Hc' Ho) as Hn. rewrite <-Ht in Hn.
  unfold is_lifecycle_open in *. destruct Hc as (_ & _ & Hc).
  unfold lifecycle_open, registered_current, retirement_closed, no_lifecycle in *.
  apply orb_false_iff in Hn as [Hz Hl]. rewrite Hz, Hl in Hc. rewrite Hz. cbn in *.
  destruct Hc as [->|[[= <-]|[Hc|Hc]]]; [done|done| |done].
  destruct (ct_registered_socket_cookie c =? 0); [done|]. by injection Hc as <-.
Qed.

(** ** What classification and inspection leave alone *)

Lemma advance_observes p ch m m' p' :
  controls p = false → advance p ch m = Some (m', p') →
  same_maps m m' ∧ controls p' = false.
Proof.
  intros Hc Ha. destruct p; try done; cbn [advance] in Ha; apply Some_inj in Ha.
  - unfold gate_lookup, gate_drop in Ha. destruct (_ !! _); injection Ha as <- <-; auto with fence.
  - unfold gate_entry, gate_drop in Ha. case_bool_decide; injection Ha as <- <-; auto with fence.
  - unfold gate_clock in Ha. injection Ha as <- <-. auto with fence.
  - unfold view_lookup in Ha. injection Ha as <- <-. auto with fence.
  - unfold view_entry in Ha. repeat case_match; injection Ha as <- <-; auto with fence.
  - unfold view_store in Ha. destruct ch; injection Ha as <- <-; auto with fence.
Qed.

Lemma quiet_refl c m : quiet c m c m.
Proof. by split. Qed.

Lemma quiet_trans c1 m1 c2 m2 c3 m3 :
  quiet c1 m1 c2 m2 → quiet c2 m2 c3 m3 → quiet c1 m1 c3 m3.
Proof.
  intros [-> A1 B1 C1 D1] [-> A2 B2 C2 D2]. split; [done|congruence|congruence| |lia].
  intros k a Ha. rewrite (C2 k), (C1 k) by (by rewrite ?B1). done.
Qed.

(** ** The holder of a claim *)

Lemma owner_advances p m : owns p = true → is_Some (advance p HelperFails m).
Proof.
  intros Ho. destruct p; try done; cbn [advance]; try (by eexists).
  unfold reclaim_remove. destruct (negb _); by eexists.
Qed.

Lemma claim_descends p ch m m' p' :
  owns p = true → advance p ch m = Some (m', p') → (claim_turns p' < claim_turns p)%nat.
Proof.
  intros Ho Ha. destruct p; try done; cbn [advance] in Ha; try apply Some_inj in Ha.
  all: unfold register_insert, register_lookup, register_commit, refresh_lookup,
    refresh_prepare, refresh_observe, refresh_complete, refresh_observe_again,
    refresh_finalize, reclaim_lookup, reclaim_mark, reclaim_remove, reclaim_finish,
    commit_unless_applied in Ha.
  all: repeat case_match; simplify_eq; cbn; lia.
Qed.

Section Safety.
Context {Ctx : Type} `{SkBuffLaws Ctx}.

(** What a current value shuts out, in every later state. *)
Lemma superseded_shut c1 s1 (es : list (Event Ctx)) s2 cookie token deadline :
  system_ok c1 s1 → Forall event_ok es → run s1 es = Some s2 →
  gate_open (fs_maps s2) cookie token deadline →
  ct_durable_fence_token c1 ≤ token
  ∧ (ct_durable_fence_token c1 = token →
     is_lifecycle_open c1 = true
     ∧ (ct_registered_socket_cookie c1 = 0 ∨ ct_registered_socket_cookie c1 = cookie)).
Proof.
  intros Hs1 He Hr (c & slot & ep & Hd & Ho & <- & <- & _).
  destruct (run_ok c1 s1 es s2 Hs1 He Hr) as (c2 & Hs2 & Hi).
  pose proof (so_maps _ _ Hs1) as Hm1. pose proof (so_maps _ _ Hs2) as Hm2.
  rewrite (current_decodes c2 _ Hm2) in Hd. injection Hd as ->.
  destruct (if_current _ _ _ _ Hi) as [->|[Hlt|[Ht Hz]]].
  - split; [done|]. intros _. split; [done|by right].
  - split; [lia|]. intros ?. lia.
  - split; [lia|]. intros E. split; [|by left].
    by eapply open_same_token; [apply (mo_current_ok _ _ Hm1)|apply (mo_current_ok _ _ Hm2)|..].
Qed.

(** What a terminal entry shuts out. *)
Lemma closed_shut c1 s1 (es : list (Event Ctx)) s2 cookie token slot e deadline :
  system_ok c1 s1 → Forall event_ok es → run s1 es = Some s2 →
  fm_cookies (fs_maps s1) !! cookie_key cookie token = Some slot →
  decode_entry (fm_slots (fs_maps s1) slot) (cookie_key cookie token) = Some e →
  fe_state e = TerminalClosed →
  ¬ gate_open (fs_maps s2) cookie token deadline.
Proof.
  intros Hs1 He Hr Hk [Hv _]%decode_entry_inv Hst
    (c & slot' & ep & Hd & Ho & Ht & _ & Hk' & Hd').
  destruct (run_ok c1 s1 es s2 Hs1 He Hr) as (c2 & Hs2 & Hi).
  pose proof (so_maps _ _ Hs2) as Hm2. rewrite (current_decodes c2 _ Hm2) in Hd.
  injection Hd as ->.
  assert (ct_durable_fence_token c ≤ mk_durable_fence_token (cookie_key cookie token)) as Hle
    by (cbn; lia).
  pose proof (if_live _ _ _ _ Hi _ _ Hk Hle) as Hk2. rewrite Hk' in Hk2. injection Hk2 as ->.
  destruct (if_entry _ _ _ _ Hi _ _ Hk Hle) as [_ Hm].
  rewrite Hv in Hm. cbn in Hm. rewrite Hst in Hm. specialize (Hm eq_refl).
  apply decode_entry_inv in Hd' as [Hd' _]. rewrite Hm in Hd'. unfold entry_value in Hd'.
  rewrite Hst in Hd'. cbn in Hd'. by injection Hd'.
Qed.

(** C13. Fencing is for good: once a token is current, no older token opens the gate in any
    later state of any run, a retired token never does, and a registered one only for the
    socket registered. *)
Theorem superseded_stays_shut s1 (es : list (Event Ctx)) s2 current cookie token deadline :
  reaches (Ctx := Ctx) s1 → Forall event_ok es → run s1 es = Some s2 →
  decode_current (fm_current (fs_maps s1)) = Some current →
  gate_open (fs_maps s2) cookie token deadline →
  ct_durable_fence_token current ≤ token
  ∧ (ct_durable_fence_token current = token →
     is_lifecycle_open current = true
     ∧ (ct_registered_socket_cookie current = 0
        ∨ ct_registered_socket_cookie current = cookie)).
Proof.
  intros [c1 Hs1]%reaches_ok He Hr Hc. rewrite (current_decodes c1 _ (so_maps _ _ Hs1)) in Hc.
  injection Hc as <-. by apply (superseded_shut c1 s1 es).
Qed.

(** C14. A socket whose entry was closed in its lifecycle is shut out for good: the entry
    stays terminal until the lifecycle is superseded, and never opens the gate again. *)
Theorem closed_stays_shut s1 (es : list (Event Ctx)) s2 cookie token slot e deadline :
  reaches (Ctx := Ctx) s1 → Forall event_ok es → run s1 es = Some s2 →
  fm_cookies (fs_maps s1) !! cookie_key cookie token = Some slot →
  decode_entry (fm_slots (fs_maps s1) slot) (cookie_key cookie token) = Some e →
  fe_state e = TerminalClosed →
  ¬ gate_open (fs_maps s2) cookie token deadline.
Proof. intros [c1 Hs1]%reaches_ok. by apply (closed_shut c1). Qed.

Definition observing (s : FenceSystem) : Prop :=
  ∀ t p, fs_running s !! t = Some p → controls p = false.

Lemma start_observes (i : Invocation Ctx) m m' p t :
  starts_control (Start t i) = false → start i m = (m', p) →
  same_maps m m' ∧ controls p = false.
Proof.
  intros Hi Hs. destruct i; [|done|]; cbn [start] in Hs.
  - unfold gate_start, gate_drop in Hs. cbn zeta in Hs.
    repeat case_match; injection Hs as <- <-; auto with fence.
  - unfold inspect_start, view_start in Hs.
    repeat case_match; injection Hs as <- <-; auto with fence.
Qed.

Lemma exec_observes c s (e : Event Ctx) s' :
  fm_current (fs_maps s) = current_value c → observing s → starts_control e = false →
  exec s e = Some s' →
  fm_current (fs_maps s') = current_value c ∧ observing s'
  ∧ quiet c (fs_maps s) c (fs_maps s').
Proof.
  assert (∀ m' t p', fm_current (fs_maps s) = current_value c → observing s →
    same_maps (fs_maps s) m' ∧ controls p' = false →
    fm_current m' = current_value c ∧ observing (mkFenceSystem m' (<[t:=p']> (fs_running s)))
    ∧ quiet c (fs_maps s) c m') as Hgo.
  { intros m' t p' Hc Ho [Hs Hp]. split_and!; [by destruct Hs as [-> _]| |by apply same_quiet].
    intros t' q. cbn. intros [[<- <-]|[_ Hq]]%lookup_insert_Some; [done|by eapply Ho]. }
  intros Hc Ho He H1. destruct e as [t i|t ch|n|a v]; cbn in H1.
  - destruct (fs_running s !! t); [done|]. destruct (start i (fs_maps s)) as [m' p] eqn:E.
    injection H1 as <-. apply Hgo; [done|done|]. by eapply (start_observes i _ _ _ t).
  - destruct (fs_running s !! t) as [p|] eqn:Et; [|done].
    destruct (advance p ch (fs_maps s)) as [[m' p']|] eqn:Ea; [|done]. injection H1 as <-.
    apply Hgo; [done|done|]. eapply advance_observes; [|done]. by eapply Ho.
  - destruct (_ && _) eqn:E; [|done]. injection H1 as <-. to_prop.
    split_and!; [done|done|]. split; cbn; try done. lia.
  - destruct (free_slot (fs_maps s) a) eqn:E; [|done]. injection H1 as <-.
    split_and!; [done|done|]. split; cbn; try done.
    intros k b Hb. apply fn_lookup_insert_ne. intros <-. by eapply free_slot_unlinked.
Qed.

Lemma run_observes c s (es : list (Event Ctx)) s' :
  fm_current (fs_maps s) = current_value c → observing s →
  Forall (λ e, starts_control e = false) es → run s es = Some s' →
  fm_current (fs_maps s') = current_value c ∧ quiet c (fs_maps s) c (fs_maps s').
Proof.
  revert s. induction es as [|e es IH]; intros s Hc Ho Hes Hr.
  - injection Hr as <-. split; [done|apply quiet_refl].
  - apply Forall_cons in Hes as [He Hes]. cbn in Hr. destruct (exec s e) as [s1|] eqn:E; [|done].
    destruct (exec_observes c s e s1) as (Hc1 & Ho1 & Hq1); try done.
    destruct (IH s1 Hc1 Ho1 Hes Hr) as [Hc2 Hq2]. split; [done|]. by eapply quiet_trans.
Qed.

(** Authority runs out by itself: when no control invocation runs any more, whatever
    packets and inspections follow, the gate is open for nothing but what was open before,
    and for no longer than the gate's lifetime of 300 seconds after that moment. *)
Theorem authority_lapses s1 (es : list (Event Ctx)) s2 cookie token deadline :
  reaches (Ctx := Ctx) s1 → observing s1 → Forall (λ e, starts_control e = false) es →
  run s1 es = Some s2 → gate_open (fs_maps s2) cookie token deadline →
  gate_open (fs_maps s1) cookie token deadline
  ∧ deadline ≤ fm_clock (fs_maps s1) + EGRESS_FENCE_MAX_GATE_LIFETIME_NS.
Proof.
  intros [c Hs]%reaches_ok Ho He Hr (cur & slot & ep & Hd & Hop & Ht & Hk & Hl & Hde).
  pose proof (so_maps _ _ Hs) as Hm.
  destruct (run_observes c s1 es s2 (mo_current _ _ Hm) Ho He Hr) as [Hc Hq].
  rewrite (qt_cookies _ _ _ _ Hq) in Hl. rewrite (qt_slots _ _ _ _ Hq _ _ Hl) in Hde.
  split.
  - exists cur, slot, ep. rewrite (mo_current _ _ Hm), <-Hc. done.
  - destruct (mo_slots _ _ Hm _ _ Hl) as ((e & Hv & Hok & Het & _ & Hlife) & _).
    rewrite Hv, (decode_entry_value _ _ Hok Het) in Hde. injection Hde as ->. by apply Hlife.
Qed.

(** ** The claim is given back *)

Lemma busy_claim c m :
  maps_ok c m → ¬ idle m →
  mm_in_flight_claim (fm_mutation m) = mm_generation (fm_mutation m) + 1.
Proof. intros Hm Hb. by destruct (mo_claim c m Hm) as [|[? _]]. Qed.

(** One event while [t] holds the claim: it still does, or its claim is committed. *)
Lemma exec_claim c s (e : Event Ctx) s1 t p :
  system_ok c s → event_ok e → exec s e = Some s1 → fs_running s !! t = Some p →
  owns p = true →
  ∃ c1, system_ok c1 s1
    ∧ ((∃ p1, fs_running s1 !! t = Some p1 ∧ owns p1 = true
         ∧ (claim_turns p1 + steps_of t [e] ≤ claim_turns p)%nat
         ∧ mm_in_flight_claim (fm_mutation (fs_maps s))
           ≤ mm_in_flight_claim (fm_mutation (fs_maps s1)))
       ∨ mm_in_flight_claim (fm_mutation (fs_maps s))
         ≤ mm_generation (fm_mutation (fs_maps s1))).
Proof.
  intros Hs He Hx Ht Ho. destruct (exec_ok c s e s1 Hs He Hx) as (c1 & Hs1 & Hi).
  exists c1. split; [done|].
  pose proof (so_maps _ _ Hs) as Hm. pose proof (so_maps _ _ Hs1) as Hm1.
  assert (¬ idle (fs_maps s)) as Hb
    by (eapply owner_busy; [done|by apply (so_phase _ _ Hs t)|done]).
  pose proof (busy_claim c _ Hm Hb) as Hcl. pose proof (if_generation _ _ _ _ Hi) as Hg.
  assert (∀ p1, fs_running s1 !! t = Some p1 → owns p1 = true →
    mm_in_flight_claim (fm_mutation (fs_maps s))
    ≤ mm_in_flight_claim (fm_mutation (fs_maps s1))) as Hle.
  { intros p1 Ht1 Ho1. rewrite Hcl, (busy_claim c1 _ Hm1); [lia|].
    eapply owner_busy; [done|by apply (so_phase _ _ Hs1 t)|done]. }
  destruct e as [t' i|t' ch|n|a v]; cbn in Hx.
  - destruct (fs_running s !! t') eqn:Et; [done|]. destruct (start i (fs_maps s)).
    injection Hx as <-. left. exists p. cbn in Hle |- *.
    rewrite lookup_insert_ne in Hle |- * by congruence. split_and!; [done|done|lia|eauto].
  - destruct (fs_running s !! t') as [q|] eqn:Et; [|done].
    destruct (advance q ch (fs_maps s)) as [[m' q']|] eqn:Ea; [|done]. injection Hx as <-.
    cbn in *. destruct (decide (t' = t)) as [->|Hne].
    + rewrite lookup_insert_eq in Hle |- *. rewrite Ht in Et. injection Et as <-.
      pose proof (claim_descends _ _ _ _ _ Ho Ea) as Hd. rewrite bool_decide_true by done.
      destruct (owns q') eqn:Eo; [left; exists q'; split_and!; [done|done|lia|eauto]|].
      right. destruct (decide (idle m')) as [Hid|Hid].
      * destruct (decide (mm_generation (fm_mutation m') = mm_generation (fm_mutation (fs_maps s))))
          as [E|E]; [|lia]. by destruct (if_idle _ _ _ _ Hi E Hid).
      * destruct (so_claim _ _ Hs1 Hid) as (t' & q & Hq & Hoq). cbn in Hq.
        apply lookup_insert_Some in Hq as [[<- <-]|[Hne Hq]]; [congruence|].
        by destruct Hne; eapply (so_owner _ _ Hs).
    + left. exists p. rewrite lookup_insert_ne in Hle |- * by done.
      rewrite bool_decide_false by done. split_and!; [done|done|lia|eauto].
  - destruct (_ && _); [|done]. injection Hx as <-. left. exists p. cbn.
    split_and!; [done|done|lia|lia].
  - destruct (free_slot _ _); [|done]. injection Hx as <-. left. exists p. cbn.
    split_and!; [done|done|lia|lia].
Qed.

Lemma steps_of_cons t (e : Event Ctx) es :
  steps_of t (e :: es) = (steps_of t [e] + steps_of t es)%nat.
Proof. destruct e; cbn; lia. Qed.

Lemma run_claim c s (es : list (Event Ctx)) s' t p cl :
  system_ok c s → Forall event_ok es → run s es = Some s' → fs_running s !! t = Some p →
  owns p = true → cl ≤ mm_in_flight_claim (fm_mutation (fs_maps s)) →
  (claim_turns p ≤ steps_of t es)%nat → cl ≤ mm_generation (fm_mutation (fs_maps s')).
Proof.
  revert c s p. induction es as [|e es IH]; intros c s p Hs He Hr Ht Ho Hc Hn.
  - cbn in Hn. destruct p; try done; cbn in Hn; lia.
  - apply Forall_cons in He as [He Hes]. cbn [run] in Hr.
    destruct (exec s e) as [s1|] eqn:Ex; [|done].
    destruct (exec_claim c s e s1 t p Hs He Ex Ht Ho) as (c1 & Hs1 & [(p1 & Ht1 & Ho1 & Hd & Hm)|Hm]).
    + eapply IH; [done|done|done|done|done|lia|]. rewrite steps_of_cons in Hn. lia.
    + destruct (run_ok c1 s1 es s' Hs1 Hes Hr) as (c2 & _ & Hi).
      pose proof (if_generation _ _ _ _ Hi). lia.
Qed.

(** C15. The mutation claim never leaks: one invocation holds it, it can always take its
    next step, and after at most six of its own steps the claim is committed, whatever
    the other invocations do in between and whichever helper fails. *)
Theorem claim_given_back (s : FenceSystem) :
  reaches (Ctx := Ctx) s → mm_in_flight_claim (fm_mutation (fs_maps s)) ≠ 0 →
  ∃ t, is_Some (exec s (Step (Ctx := Ctx) t HelperFails))
    ∧ ∀ (es : list (Event Ctx)) s', Forall event_ok es → run s es = Some s' →
        (6 ≤ steps_of t es)%nat →
        mm_in_flight_claim (fm_mutation (fs_maps s)) ≤ mm_generation (fm_mutation (fs_maps s')).
Proof.
  intros [c Hs]%reaches_ok Hb. destruct (so_claim c s Hs Hb) as (t & p & Ht & Ho).
  exists t. split.
  - cbn. rewrite Ht. destruct (owner_advances p (fs_maps s) Ho) as [[m' p'] ->]. by eexists.
  - intros es s' He Hr Hn. eapply run_claim; [done|done|done|exact Ht|done|done|].
    assert (claim_turns p ≤ 6)%nat by (destruct p; cbn; lia). lia.
Qed.

End Safety.
