(* ===== verification/FenceTrace.v ===== *)
(** What a finished invocation of the egress fence tells about the run it was part of:
    every packet let through was unrelated or authorized, and every inspection reports one
    moment of the maps. *)

From stdpp Require Import functions.
From S2P Require Import Prelude.
From S2P Require Import FenceAbi.
From S2P Require Import FenceCodec.
From S2P Require Import FencePacket.
From S2P Require Import FenceKernel.
From S2P Require Import FenceSystem.
From S2P Require Import FenceInvariant.
From S2P Require Import FenceSteps.
From S2P Require Import FenceReach.
From S2P Require Import FenceSafety.

(** ** The configuration never changes *)

Lemma put_config slot v m : fm_config (put_entry slot v m) = fm_config m.
Proof. by destruct slot, v. Qed.

Lemma advance_config p ch m m' p' :
  advance p ch m = Some (m', p') → fm_config m' = fm_config m.
Proof.
  intros Ha. destruct p; try done; cbn [advance] in Ha; try apply Some_inj in Ha.
  all: unfold gate_lookup, gate_entry, gate_clock, gate_drop, retire_lookup, retire_entry,
    register_insert, register_lookup, register_commit, refresh_lookup, refresh_prepare,
    refresh_observe, refresh_complete, refresh_observe_again, refresh_finalize,
    reclaim_lookup, reclaim_mark, reclaim_remove, reclaim_finish, apply_lookup, apply_clock,
    apply_entry, activate_clock, activate_expire, view_lookup, view_entry, view_store,
    commit_unless_applied, count_verdict in Ha.
  all: repeat case_match; simplify_eq; cbn; by rewrite ?put_config.
Qed.

(** ** Which program an invocation runs *)

Inductive Program : Type := Classify | Manage | Report.

Definition program_of (p : Phase) : Program :=
  match p with
  | GateLookup _ _ | GateEntry _ _ _ | GateClock _ _ _ | GateDone _ _ => Classify
  | ViewLookup _ _ | ViewEntry _ _ _ | ViewStore _ | ViewDone _ _ => Report
  | _ => Manage
  end.

Lemma advance_program p ch m m' p' :
  advance p ch m = Some (m', p') → program_of p' = program_of p.
Proof.
  intros Ha. destruct p; try done; cbn [advance] in Ha; try apply Some_inj in Ha.
  all: unfold gate_lookup, gate_entry, gate_clock, gate_drop, retire_lookup, retire_entry,
    register_insert, register_lookup, register_commit, refresh_lookup, refresh_prepare,
    refresh_observe, refresh_complete, refresh_observe_again, refresh_finalize,
    reclaim_lookup, reclaim_mark, reclaim_remove, reclaim_finish, apply_lookup, apply_clock,
    apply_entry, activate_clock, activate_expire, view_lookup, view_entry, view_store,
    count_verdict in Ha.
  all: repeat case_match; by simplify_eq.
Qed.

Section Trace.
Context {Ctx : Type} `{SkBuffLaws Ctx}.

Lemma start_config (i : Invocation Ctx) m m' p :
  start i m = (m', p) → fm_config m' = fm_config m.
Proof.
  intros Hs. destruct i; cbn [start] in Hs.
  - unfold gate_start, gate_drop in Hs. cbn zeta in Hs. repeat case_match; by simplify_eq.
  - unfold control_start, register_start, reclaim_start, retire_start, refresh_start,
      apply_start, reserved in Hs. repeat case_match; by simplify_eq.
  - unfold inspect_start, view_start in Hs. repeat case_match; by simplify_eq.
Qed.

Lemma start_program (i : Invocation Ctx) m m' p :
  start i m = (m', p) →
  program_of p = match i with Gate _ _ _ _ => Classify | Control _ => Manage | View _ => Report end.
Proof.
  intros Hs. destruct i; cbn [start] in Hs.
  - unfold gate_start, gate_drop in Hs. cbn zeta in Hs. repeat case_match; by simplify_eq.
  - unfold control_start, register_start, reclaim_start, retire_start, refresh_start,
      apply_start, reserved in Hs. repeat case_match; by simplify_eq.
  - unfold inspect_start, view_start in Hs. repeat case_match; by simplify_eq.
Qed.

Lemma exec_config s (e : Event Ctx) s' :
  exec s e = Some s' → fm_config (fs_maps s') = fm_config (fs_maps s).
Proof.
  intros Hx. destruct e as [t i|t ch|n|a v]; cbn in Hx.
  - destruct (fs_running s !! t); [done|]. destruct (start i (fs_maps s)) eqn:E.
    injection Hx as <-. by eapply start_config.
  - destruct (fs_running s !! t) as [p|]; [|done].
    destruct (advance p ch (fs_maps s)) as [[m' p']|] eqn:Ea; [|done]. injection Hx as <-.
    by eapply advance_config.
  - destruct (_ && _); by simplify_eq.
  - destruct (free_slot _ _); by simplify_eq.
Qed.

Lemma run_config s (es : list (Event Ctx)) s' :
  run s es = Some s' → fm_config (fs_maps s') = fm_config (fs_maps s).
Proof.
  revert s. induction es as [|e es IH]; intros s Hr; [by injection Hr as <-|].
  cbn in Hr. destruct (exec s e) as [s1|] eqn:E; [|done].
  rewrite (IH s1 Hr). by eapply exec_config.
Qed.

(** ** The past of a run *)

Section Past.
Context (s0 : FenceSystem).

(** [s1] is a state of the run; [s1] and then [s2] are. *)
Definition passed (es : list (Event Ctx)) (s1 : FenceSystem) : Prop :=
  ∃ es1 es2, es = es1 ++ es2 ∧ run s0 es1 = Some s1.

Definition passed_both (es : list (Event Ctx)) (s1 s2 : FenceSystem) : Prop :=
  ∃ es1 es2 es3, es = es1 ++ es2 ++ es3 ∧ run s0 es1 = Some s1 ∧ run s1 es2 = Some s2.

Lemma passed_app es e s1 : passed es s1 → passed (es ++ [e]) s1.
Proof. intros (es1 & es2 & -> & Hr). exists es1, (es2 ++ [e]). by rewrite app_assoc. Qed.

Lemma passed_both_app es e s1 s2 : passed_both es s1 s2 → passed_both (es ++ [e]) s1 s2.
Proof.
  intros (es1 & es2 & es3 & -> & Hr). exists es1, es2, (es3 ++ [e]). by rewrite <-!app_assoc.
Qed.

Lemma passed_now es s e : run s0 es = Some s → passed (es ++ [e]) s.
Proof. intros Hr. by exists es, [e]. Qed.

Lemma passed_both_now es s e s1 :
  run s0 es = Some s → passed es s1 → passed_both (es ++ [e]) s1 s.
Proof.
  intros Hr (es1 & es2 & -> & Hr1). exists es1, es2, [e]. split; [by rewrite app_assoc|].
  rewrite run_app, Hr1 in Hr. done.
Qed.

(** What holds of every phase a run reaches, from how invocations start and advance. *)
Lemma run_traced (P : list (Event Ctx) → nat → Phase → Prop) c0 es s :
  system_ok c0 s0 → fs_running s0 = ∅ →
  (∀ es e t p, P es t p → P (es ++ [e]) t p) →
  (∀ es s t i m' p,
     run s0 es = Some s → start i (fs_maps s) = (m', p) → P (es ++ [Start t i]) t p) →
  (∀ c es s t p ch m' p',
     system_ok c s → run s0 es = Some s → fs_running s !! t = Some p → P es t p →
     advance p ch (fs_maps s) = Some (m', p') → P (es ++ [Step t ch]) t p') →
  Forall event_ok es → run s0 es = Some s → ∀ t p, fs_running s !! t = Some p → P es t p.
Proof.
  intros Hs0 Hempty Happ Hstart Hstep. revert s.
  induction es as [|e es IH] using rev_ind; intros s Hok Hr.
  { injection Hr as <-. intros t p. by rewrite Hempty. }
  apply Forall_app in Hok as [Hok [He _]%Forall_cons]. rewrite run_app in Hr.
  destruct (run s0 es) as [s1|] eqn:E; [|done]. cbn in Hr.
  destruct (exec s1 e) as [s2|] eqn:Ex; [|done]. injection Hr as <-.
  specialize (IH s1 Hok eq_refl). destruct (run_ok c0 s0 es s1 Hs0 Hok E) as (c1 & Hs1 & _).
  destruct e as [t i|t ch|n|a v]; cbn in Ex.
  - destruct (fs_running s1 !! t) eqn:Et; [done|].
    destruct (start i (fs_maps s1)) as [m' p] eqn:Es. injection Ex as <-. intros t' q. cbn.
    intros [[<- <-]|[_ Hq]]%lookup_insert_Some; [by eapply Hstart|by apply Happ, IH].
  - destruct (fs_running s1 !! t) as [p|] eqn:Et; [|done].
    destruct (advance p ch (fs_maps s1)) as [[m' p']|] eqn:Ea; [|done]. injection Ex as <-.
    intros t' q. cbn.
    intros [[<- <-]|[_ Hq]]%lookup_insert_Some; [|by apply Happ, IH].
    eapply Hstep; [done|done|done|by apply IH|done].
  - destruct (_ && _); [|done]. injection Ex as <-. intros t p Hp. by apply Happ, IH.
  - destruct (free_slot _ _); [|done]. injection Ex as <-. intros t p Hp. by apply Happ, IH.
Qed.

(** The packet of invocation [t] is one the classifier was started with. *)
Definition started (es : list (Event Ctx)) (t : nat) (g : GatePacket) : Prop :=
  ∃ cpu ctx socket cookie config,
    Start t (Gate cpu ctx socket cookie) ∈ es
    ∧ load_config (fm_config (fs_maps s0)) = Some config
    ∧ g = mkGatePacket cpu (socket_endpoint_matches socket (kc_endpoint config))
            (disposition ctx (kc_endpoint config)) cookie.

(** The packet's socket was let through by an open gate, and in time: the gate was open at
    one step of the invocation, and the clock it read later was before the deadline. *)
Definition authorized (es : list (Event Ctx)) (t : nat) (cookie : Z) : Prop :=
  ∃ s1 s2 token deadline,
    passed_both es s1 s2
    ∧ (∃ g current slot, fs_running s1 !! t = Some (GateEntry g current slot))
    ∧ (∃ g current e, fs_running s2 !! t = Some (GateClock g current e))
    ∧ gate_open (fs_maps s1) cookie token deadline ∧ fm_clock (fs_maps s2) < deadline.

Definition snapshot (es : list (Event Ctx)) (t : nat) (g : GatePacket)
    (current : CurrentFenceToken) (e : FenceEntry) : Prop :=
  ∃ s1 slot,
    passed es s1 ∧ fs_running s1 !! t = Some (GateEntry g current slot)
    ∧ decode_current (fm_current (fs_maps s1)) = Some current
    ∧ fm_cookies (fs_maps s1) !! gate_key g current = Some slot
    ∧ decode_entry (fm_slots (fs_maps s1) slot) (gate_key g current) = Some e.

Definition gate_traced (es : list (Event Ctx)) (t : nat) (p : Phase) : Prop :=
  match p with
  | GateLookup g _ | GateEntry g _ _ => started es t g
  | GateClock g current entry =>
      started es t g ∧ ∀ e, entry = Some e → snapshot es t g current e
  | GateDone (Some g) r =>
      started es t g
      ∧ (r = CGROUP_ALLOW →
         gp_socket_matches g = false ∧ gp_disposition g = Unrelated
         ∨ authorized es t (gp_cookie g))
  | GateDone None r => r = CGROUP_DROP
  | _ => True
  end.

Lemma gate_traced_app es e t p : gate_traced es t p → gate_traced (es ++ [e]) t p.
Proof.
  assert (∀ g, started es t g → started (es ++ [e]) t g) as Hst.
  { intros g (cpu & ctx & so & ck & cf & Hin & Hr). exists cpu, ctx, so, ck, cf.
    split; [|done]. apply elem_of_app. by left. }
  destruct p as [| | |[g|] r| | | | | | | | | | | | | | | | | | | | | | | | |]; cbn; auto.
  - intros [Hs Hn]. split; [auto|]. intros e' E.
    destruct (Hn e' E) as (s1 & slot & Hp & Hr). exists s1, slot.
    split; [by apply passed_app|done].
  - intros [Hs Hn]. split; [auto|]. intros E. destruct (Hn E) as [?|Ha]; [by left|right].
    destruct Ha as (s1 & s2 & tk & d & Hp & Hr). exists s1, s2, tk, d.
    split; [by apply passed_both_app|done].
Qed.

(** ** The classifier's steps keep its past *)

Lemma gate_start_traced es s cpu (ctx : Ctx) socket cookie t m' p :
  run s0 es = Some s → gate_start cpu ctx socket cookie (fs_maps s) = (m', p) →
  gate_traced (es ++ [Start t (Gate cpu ctx socket cookie)]) t p.
Proof.
  intros Hr Hg. unfold gate_start, gate_drop in Hg.
  rewrite (run_config _ _ _ Hr) in Hg.
  destruct (load_config (fm_config (fs_maps s0))) as [config|] eqn:Ec; [|by simplify_eq].
  cbn zeta in Hg. set (g := mkGatePacket _ _ _ _) in Hg.
  assert (started (es ++ [Start t (Gate cpu ctx socket cookie)]) t g) as Hst.
  { exists cpu, ctx, socket, cookie, config. split; [|done]. apply elem_of_app. right.
    by apply list_elem_of_singleton. }
  destruct (_ && _) eqn:E1 in Hg.
  { injection Hg as <- <-. split; [done|]. intros _. left.
    apply andb_true_iff in E1 as [E1%bool_decide_eq_true E2%negb_true_iff]. done. }
  repeat case_match; injection Hg as <- <-; done.
Qed.

Lemma allow_authorized g current entry now :
  gate_related g →
  (match decide_egress
     (mkPacketFenceContext true (gp_socket_matches g) (gp_disposition g) (gp_cookie g))
     (mkFenceAuthoritySnapshot entry (ct_durable_fence_token current)
        (ct_registered_socket_cookie current) now)
   with Allow | PassUnrelated => CGROUP_ALLOW | _ => CGROUP_DROP end) = CGROUP_ALLOW →
  ∃ e, entry = Some e ∧ fe_state e = Active
    ∧ fe_durable_fence_token e = ct_durable_fence_token current
    ∧ now < fe_deadline_boot_ns e.
Proof.
  intros Hrel Ha. unfold decide_egress in Ha. cbn in Ha.
  assert (∀ v, match v with Allow | PassUnrelated => CGROUP_ALLOW | _ => CGROUP_DROP end
    = CGROUP_ALLOW → v = Allow ∨ v = PassUnrelated) as Hv by (intros [] E; first [done|by left|by right]).
  apply Hv in Ha.
  assert (∀ pc a, decide_authority pc a ≠ PassUnrelated) as Hnp.
  { intros pc a. unfold decide_authority. repeat case_match; done. }
  assert (decide_authority
    (mkPacketFenceContext true (gp_socket_matches g) (gp_disposition g) (gp_cookie g))
    (mkFenceAuthoritySnapshot entry (ct_durable_fence_token current)
        (ct_registered_socket_cookie current) now) = Allow) as Hd.
  { destruct Hrel as [Hr|Hr]; rewrite Hr in Ha |- *; cbn in Ha.
    - destruct Ha as [|Ha]; [done|]. by apply Hnp in Ha.
    - destruct (negb _); destruct Ha as [|Ha]; try done; by apply Hnp in Ha. }
  unfold decide_authority in Hd. cbn in Hd. destruct (_ =? 0) in Hd; [done|].
  destruct entry as [e|]; [|done]. destruct (_ || _) eqn:E in Hd; [done|].
  destruct (negb (bool_decide _)) eqn:Es in Hd; [done|]. destruct (_ <=? _) eqn:El; [done|].
  exists e. apply negb_false_iff, bool_decide_eq_true in Es. to_prop. done.
Qed.

Lemma gate_advance_traced c es s t p ch m' p' e :
  system_ok c s → run s0 es = Some s → fs_running s !! t = Some p → gate_traced es t p →
  advance p ch (fs_maps s) = Some (m', p') → gate_traced (es ++ [e]) t p'.
Proof.
  intros Hs Hr Ht Hp0 Ha. pose proof (gate_traced_app _ e _ _ Hp0) as Hp. pose proof (so_phase c s Hs _ _ Ht) as Hok.
  pose proof (so_maps c s Hs) as Hm.
  destruct (program_of p) eqn:Ep.
  2,3: pose proof (advance_program _ _ _ _ _ Ha) as Hq; rewrite Ep in Hq; by destruct p'.
  destruct p as [g cur|g cur slot|g cur entry|g r| | | | | | | | | | | | | | | | | | | | | | | | |];
    try done; cbn [advance] in Ha; apply Some_inj in Ha.
  - unfold gate_lookup, gate_drop in Ha.
    destruct (fm_cookies _ !! _); injection Ha as <- <-; done.
  - unfold gate_entry, gate_drop in Ha. case_bool_decide as Hd; injection Ha as <- <-; [|done].
    split; [done|]. intros e' E. exists s, slot. destruct Hok as [_ Hok].
    rewrite (current_decodes c _ Hm) in Hd. injection Hd as <-.
    split_and!; [by eapply passed_now|done|by apply current_decodes|by apply Hok|done].
  - unfold gate_clock in Ha. injection Ha as <- <-. destruct Hp as [Hst Hsn]. split; [done|].
    intros Hal. right. destruct Hok as (Hrel & Hz & Hop & Hck & _).
    destruct (allow_authorized g cur entry (fm_clock (fs_maps s)) Hrel Hal)
      as (e' & -> & Hact & Htok & Hlt).
    destruct (proj2 Hp0 e' eq_refl) as (s1 & slot & Hps & Ht1 & Hc1 & Hk1 & He1).
    exists s1, s, (ct_durable_fence_token cur), (fe_deadline_boot_ns e').
    split_and!; [by eapply passed_both_now|by eauto|by eauto| |done].
    exists cur, slot, (fe_control_epoch e'). split_and!; [done..|exact Hk1|].
    etransitivity; [exact He1|]. destruct e'; cbn in Hact, Htok; subst. done.
Qed.

Lemma gate_run_traced c0 es s t p :
  system_ok c0 s0 → fs_running s0 = ∅ → Forall event_ok es → run s0 es = Some s →
  fs_running s !! t = Some p → gate_traced es t p.
Proof.
  intros Hs0 He Hes Hr. eapply run_traced; try done.
  - apply gate_traced_app.
  - intros es' s' t' i m' q Hr' Hi. destruct i; [by eapply gate_start_traced|..];
      pose proof (start_program _ _ _ _ Hi) as Hp; by destruct q.
  - intros c es' s' t' q ch m' q' Hs Hr' Hq Ht Ha. by eapply gate_advance_traced.
Qed.

End Past.

(** What let a packet through. *)
Lemma allowed_past s0 c0 (es : list (Event Ctx)) s t o :
  system_ok c0 s0 → fs_running s0 = ∅ → Forall event_ok es → run s0 es = Some s →
  fs_running s !! t = Some (GateDone o CGROUP_ALLOW) →
  ∃ cpu ctx socket cookie kc,
    Start t (Gate cpu ctx socket cookie) ∈ es ∧ load_config (fm_config (fs_maps s0)) = Some kc
    ∧ (socket_endpoint_matches socket (kc_endpoint kc) = false
       ∧ classify_endpoint ctx (kc_endpoint kc) = Some Unrelated
       ∨ authorized s0 es t cookie).
Proof.
  intros Hs0 Hn He Hr Ht. pose proof (gate_run_traced _ _ es s t _ Hs0 Hn He Hr Ht) as Htr.
  destruct o as [g|]; [|done]. destruct Htr as [(cpu & ctx & so & ck & kc & Hin & Hl & ->) Ha].
  exists cpu, ctx, so, ck, kc. split; [done|]. split; [done|].
  destruct (Ha eq_refl) as [[Hm Hd]|]; [left|by right]. split; [done|]. cbn in Hd.
  unfold disposition in Hd. destruct (classify_endpoint_total ctx (kc_endpoint kc)) as [d Ed].
  by rewrite Ed in Hd |- *; cbn in Hd; subst.
Qed.

(** C12. Whatever runs beside it, a packet the classifier lets through either belongs
    neither by its socket nor by its headers to the protected endpoint, or its socket was
    authorized: at one step of this invocation the gate was open for the socket's cookie
    under the current token, and the clock it read after that was before the deadline. *)
Theorem allowed_packet_authorized config slots clock (es : list (Event Ctx)) s t o :
  0 ≤ clock → Forall event_ok es → run (initial_system config slots clock) es = Some s →
  fs_running s !! t = Some (GateDone o CGROUP_ALLOW) →
  ∃ cpu ctx socket cookie kc,
    Start t (Gate cpu ctx socket cookie) ∈ es ∧ load_config config = Some kc
    ∧ (socket_endpoint_matches socket (kc_endpoint kc) = false
       ∧ classify_endpoint ctx (kc_endpoint kc) = Some Unrelated
       ∨ authorized (initial_system config slots clock) es t cookie).
Proof.
  intros Hc He Hr Ht.
  by apply (allowed_past _ _ es s t o (initial_ok config slots clock Hc) eq_refl He Hr Ht).
Qed.

End Trace.
