(* ===== verification/FenceLayout.v ===== *)
(** The kernel programs' map values and commands are the shared formats
    ([opc-egress-fence-ebpf/src/main.rs]): laid out in memory, the kernel reads from them
    exactly what the formats of [opc-egress-fence-common] say. *)

From S2P Require Import Prelude.
From S2P Require Import FenceAbi.
From S2P Require Import FenceCodec.
From S2P Require Import FencePacket.
From S2P Require Import FenceKernel.
From S2P Require Import FenceSystem.
From S2P Require Import FenceInvariant.
From S2P Require Import FenceSteps.

(** ** The structures in memory

    Every structure is [repr(C)] without padding, on a little-endian target. *)

Definition current_octets (v : CurrentMapValue) : bytes :=
  to_le_bytes 4 (cm_reserved v) ++ to_le_bytes 4 (cm_control v)
  ++ words [cm_durable_fence_token v; cm_registered_socket_cookie v].

Definition mutation_octets (v : MutationMapValue) : bytes :=
  words [mm_generation v; mm_in_flight_claim v].

Definition cookie_octets (v : CookieMapValue) : bytes :=
  to_le_bytes 4 (cw_reserved v) ++ to_le_bytes 4 (cw_control v)
  ++ words [cw_socket_cookie v; cw_durable_fence_token v; cw_deadline_boot_ns v;
            cw_control_epoch v].

Definition config_octets (v : ConfigMapValue) : bytes :=
  to_le_bytes 4 (cf_magic v) ++ to_le_bytes 2 (cf_version v)
  ++ [cf_family v; cf_reserved0 v] ++ cf_port_be v ++ cf_reserved1 v
  ++ to_le_bytes 4 (cf_capacity v) ++ words [cf_root_cgroup_id v] ++ cf_address v.

Definition output_octets (o : InspectionOutput) : bytes :=
  to_le_bytes 4 (io_magic o) ++ to_le_bytes 2 (io_version o)
  ++ [io_entry_present o; io_reserved o] ++ current_octets (io_current o)
  ++ mutation_octets (io_mutation o) ++ cookie_octets (io_entry o)
  ++ io_trailing_reserved o.

(** Fields within their widths. *)
Definition current_words (v : CurrentMapValue) : Prop :=
  u32 (cm_reserved v) ∧ u32 (cm_control v) ∧ u64 (cm_durable_fence_token v)
  ∧ u64 (cm_registered_socket_cookie v).

Definition cookie_words (v : CookieMapValue) : Prop :=
  u32 (cw_reserved v) ∧ u32 (cw_control v) ∧ u64 (cw_socket_cookie v)
  ∧ u64 (cw_durable_fence_token v) ∧ u64 (cw_deadline_boot_ns v) ∧ u64 (cw_control_epoch v).

Definition config_words (v : ConfigMapValue) : Prop :=
  u32 (cf_magic v) ∧ u16 (cf_version v) ∧ u8 (cf_family v) ∧ u8 (cf_reserved0 v)
  ∧ length (cf_port_be v) = 2%nat ∧ bytes_ok (cf_port_be v)
  ∧ length (cf_reserved1 v) = 2%nat ∧ bytes_ok (cf_reserved1 v)
  ∧ u32 (cf_capacity v) ∧ u64 (cf_root_cgroup_id v)
  ∧ length (cf_address v) = 16%nat ∧ bytes_ok (cf_address v).

(** ** Current values and entries *)

Lemma get_reserved r l : u32 r → get_u32 (to_le_bytes 4 r ++ l) 0 = r.
Proof.
  intros. change (get_u32 (to_le_bytes 4 r ++ l) 0) with (from_le_bytes (to_le_bytes 4 r)).
  by apply from_to_u32.
Qed.

Lemma nonzero_octet r l :
  u32 r → r ≠ 0 →
  negb (at_ (to_le_bytes 4 r ++ l) 0 =? 0) || negb (at_ (to_le_bytes 4 r ++ l) 1 =? 0)
  || negb (at_ (to_le_bytes 4 r ++ l) 2 =? 0) || negb (at_ (to_le_bytes 4 r ++ l) 3 =? 0)
  = true.
Proof.
  intros Hr Hz. pose proof (from_to_u32 r Hr) as E. destruct (to_le_bytes 4 r) as [|a [|b [|c [|d [|]]]]] eqn:El;
    try (pose proof (len_to_le 4 r) as Hl; rewrite El in Hl; cbn in Hl; lia).
  cbn in E |- *. destruct (a =? 0) eqn:E0, (b =? 0) eqn:E1, (c =? 0) eqn:E2, (d =? 0) eqn:E3;
    try done. to_prop. lia.
Qed.

Lemma current_exact v :
  current_words v → CurrentFenceToken_decode (current_octets v) = decode_current v.
Proof.
  intros (Hr & Hc & Ht & Hk). rewrite decode_current_of. unfold current_octets.
  destruct (cm_reserved v =? 0) eqn:E.
  - apply Z.eqb_eq in E. rewrite E.
    change (to_le_bytes 4 0 ++ to_le_bytes 4 (cm_control v) ++
      words [cm_durable_fence_token v; cm_registered_socket_cookie v])
      with (control_header (cm_control v)
            ++ words [cm_durable_fence_token v; cm_registered_socket_cookie v]).
    by apply current_read.
  - apply Z.eqb_neq in E. unfold CurrentFenceToken_decode.
    rewrite nonzero_octet by done. rewrite forallb_app, zero_octets.
    + by rewrite (proj2 (Z.eqb_neq _ _) E).
    + unfold u32 in Hr. change (256 ^ Z.of_nat 4) with 4294967296. lia.
Qed.

Lemma cookie_exact v :
  cookie_words v →
  FenceCookieValue_decode (cookie_octets v)
  = if cw_socket_cookie v =? 0 then None
    else match decode_entry v (cookie_key (cw_socket_cookie v) (cw_durable_fence_token v)) with
         | Some e => Some (mkFenceCookieValue
                             (mkFenceCookieKey (cw_socket_cookie v) (cw_durable_fence_token v)) e)
         | None => None
         end.
Proof.
  intros (Hr & Hc & Hk & Ht & Hd & He). rewrite decode_entry_of. cbn [mk_socket_cookie
    mk_durable_fence_token cookie_key]. rewrite !Z.eqb_refl. cbn [negb orb]. unfold cookie_octets.
  destruct (cw_reserved v =? 0) eqn:E; cbn [negb].
  - apply Z.eqb_eq in E. rewrite E.
    change (to_le_bytes 4 0 ++ to_le_bytes 4 (cw_control v) ++ ?l)
      with (control_header (cw_control v) ++ l).
    rewrite cookie_value_read by done. unfold cookie_value_of, FenceCookieKey_new.
    destruct (cw_socket_cookie v =? 0); [done|]. cbn [orb].
    destruct (entry_of _ _ _ _) as [e|] eqn:Ee; [|by destruct (_ =? 0)].
    pose proof (entry_token e (entry_ok_of _ _ _ _ _ Ht Hd He Ee)) as [_ Hn].
    apply entry_of_inv in Ee as [_ Ee]. rewrite Ee in Hn |- *. cbn in Hn.
    apply orb_false_iff in Hn as [-> _]. unfold FenceCookieValue_new. cbn. by rewrite Z.eqb_refl.
  - unfold FenceCookieValue_decode. rewrite get_reserved, E by done. by destruct (cw_socket_cookie v =? 0).
Qed.

(** An entry read under a key is the cookie value of that key. *)
Lemma cookie_exact_iff v k e :
  cookie_words v → mk_socket_cookie k ≠ 0 →
  decode_entry v k = Some e
  ↔ FenceCookieValue_decode (cookie_octets v)
    = Some (mkFenceCookieValue
              (mkFenceCookieKey (mk_socket_cookie k) (mk_durable_fence_token k)) e).
Proof.
  intros Hv Hk. rewrite cookie_exact by done. split.
  - intros He. pose proof He as [Ev _]%decode_entry_inv. rewrite Ev.
    cbn [cw_socket_cookie cw_durable_fence_token entry_value].
    rewrite (proj2 (Z.eqb_neq (mk_socket_cookie k) 0)) by done.
    replace (cookie_key (mk_socket_cookie k) (mk_durable_fence_token k)) with k by (by destruct k).
    by rewrite <-Ev, He.
  - destruct (_ =? 0); [done|]. destruct (decode_entry _ _) as [e'|] eqn:E in |- *; [|done].
    intros [= Ec Et ->]. rewrite Ec, Et in E. by destruct k.
Qed.

(** ** The configuration *)

(** Octets are equal when the words they make are. *)
Lemma le_eqb a b :
  bytes_ok a → bytes_ok b → length a = length b →
  (from_le_bytes a =? from_le_bytes b) = bool_decide (a = b).
Proof.
  intros Ha Hb Hl. case_bool_decide as E; [subst; apply Z.eqb_refl|]. apply Z.eqb_neq.
  intros Ew. apply E. rewrite <-(to_from_le a Ha), <-(to_from_le b Hb), Ew, Hl. done.
Qed.

Definition refused_address (family : Z) (address : bytes) : bool :=
  if family =? 4 then
    (at_ address 0 =? 0) && (at_ address 1 =? 0) && (at_ address 2 =? 0)
    && (at_ address 3 =? 0)
    || (224 <=? at_ address 0) || existsb (λ b, negb (b =? 0)) (drop 4 address)
  else if family =? 6 then
    forallb (λ b, b =? 0) address || (at_ address 0 =? 0xff) || ipv4_mapped address
    || link_local address
  else true.

Lemma load_config_of v :
  config_words v →
  load_config v
  = if negb (cf_magic v =? from_le_bytes CONFIG_MAGIC)
       || negb (cf_version v =? EGRESS_FENCE_ABI_VERSION)
       || negb (cf_reserved0 v =? 0) || negb (bool_decide (cf_reserved1 v = [0; 0]))
       || (cf_root_cgroup_id v =? 0)
       || negb (cf_capacity v =? EGRESS_FENCE_MAX_COOKIE_ENTRIES)
    then None
    else
    let port := u16_from_be_bytes (at_ (cf_port_be v) 0) (at_ (cf_port_be v) 1) in
    if port =? 0 then None
    else if refused_address (cf_family v) (cf_address v) then None
    else Some (mkKernelConfig (mkKernelEndpoint (cf_family v) (cf_address v) port)
                 (cf_root_cgroup_id v)).
Proof.
  intros (_ & _ & _ & _ & _ & _ & _ & _ & _ & _ & Ha & _). unfold load_config, refused_address.
  destruct (_ || _); [done|]. cbn zeta. destruct (_ =? 0); [done|].
  destruct (cf_address v) as [|a0 [|a1 [|a2 [|a3 [|a4 [|a5 [|a6 [|a7 [|a8 [|a9 [|a10 [|a11
    [|a12 [|a13 [|a14 [|a15 [|]]]]]]]]]]]]]]]]]; try done. clear Ha.
  destruct (cf_family v =? 4); [|destruct (cf_family v =? 6); [|done]].
  - cbn -[Z.eqb Z.leb]. rewrite !orb_assoc, orb_false_r. done.
  - cbn -[Z.eqb Z.leb ipv4_mapped link_local]. rewrite !andb_assoc, andb_true_r. done.
Qed.

Lemma existsb_zero l : existsb (λ b, negb (b =? 0)) l = negb (forallb (λ b, b =? 0) l).
Proof. induction l as [|b l IH]; [done|]. cbn. by rewrite IH, negb_andb. Qed.

Lemma endpoint_of_refused f a p :
  length a = 16%nat →
  (if endpoint_of f a p then false else true) = (p =? 0) || refused_address f a.
Proof.
  assert (∀ (b : bool) (e : ProtectedEndpoint),
    (if if b then None else Some e then false else true) = b) as Hb by (by intros []).
  intros Ha. do 4 (destruct a as [|? a]; [done|]).
  unfold endpoint_of, refused_address, endpoint_ipv4, endpoint_ipv6.
  change FAMILY_IPV4 with 4. change FAMILY_IPV6 with 6.
  destruct (f =? 4); [|destruct (f =? 6)].
  - destruct (existsb (λ b, negb (b =? 0)) (drop 4 _)); [by rewrite !orb_true_r|].
    rewrite Hb, orb_false_r, orb_assoc. done.
  - cbn zeta. rewrite Hb, existsb_zero, negb_involutive, !orb_assoc. done.
  - by rewrite orb_true_r.
Qed.

Lemma to_le_4 w : ∃ a b c d, to_le_bytes 4 w = [a; b; c; d].
Proof. cbn. eauto. Qed.

Lemma magic_of m0 m1 m2 m3 v0 v1 magic l :
  length magic = 4%nat →
  has_magic ([m0; m1; m2; m3] ++ [v0; v1] ++ l) magic
  = bool_decide ([m0; m1; m2; m3] = magic)
    && (from_le_bytes [v0; v1] =? EGRESS_FENCE_ABI_VERSION).
Proof.
  intros Hl. destruct magic as [|n0 [|n1 [|n2 [|n3 [|]]]]]; try done. unfold has_magic.
  f_equal. apply eq_true_iff_eq. cbn -[Z.eqb].
  rewrite !andb_true_iff, !Z.eqb_eq, bool_decide_eq_true. naive_solver.
Qed.

Lemma config_decode_of v :
  config_words v →
  FenceConfig_decode (config_octets v)
  = if negb (cf_magic v =? from_le_bytes CONFIG_MAGIC)
       || negb (cf_version v =? EGRESS_FENCE_ABI_VERSION)
       || negb (cf_reserved0 v =? 0) || negb (bool_decide (cf_reserved1 v = [0; 0]))
    then None
    else match endpoint_of (cf_family v) (cf_address v)
                 (u16_from_be_bytes (at_ (cf_port_be v) 0) (at_ (cf_port_be v) 1)) with
         | None => None
         | Some e => FenceConfig_new e (cf_root_cgroup_id v) (cf_capacity v)
         end.
Proof.
  intros (Hm & Hv & _ & _ & Lp & _ & Lr & _ & Hc & Hr & La & _).
  destruct v as [mg vs f r0 pb r1 cap root addr]. unfold config_octets.
  cbn [cf_magic cf_version cf_family cf_reserved0 cf_port_be cf_reserved1 cf_capacity
    cf_root_cgroup_id cf_address] in *.
  destruct pb as [|p0 [|p1 [|]]]; try done. destruct r1 as [|q0 [|q1 [|]]]; try done.
  assert ((mg =? from_le_bytes CONFIG_MAGIC) = bool_decide (to_le_bytes 4 mg = CONFIG_MAGIC))
    as -> by (rewrite <-(from_to_u32 mg Hm) at 1; apply le_eqb; [apply to_le_ok|octets|done]).
  destruct (to_le_4 mg) as (m0 & m1 & m2 & m3 & Em). rewrite Em.
  assert (∃ v0 v1, to_le_bytes 2 vs = [v0; v1] ∧ from_le_bytes [v0; v1] = vs)
    as (v0 & v1 & Ev & Hvs).
  { exists (vs mod 256), (vs / 256 mod 256). split; [done|].
    rewrite <-(from_to_le 2 vs) at 3; [done|]. change (256 ^ Z.of_nat 2) with 65536.
    unfold u16 in Hv. lia. }
  rewrite Ev, <-Hvs. unfold FenceConfig_decode. rewrite magic_of by done.
  set (e := [m0; m1; m2; m3] ++ _).
  assert (get_u64 e 16 = root) as ->
    by (by apply (get_word ([m0; m1; m2; m3; v0; v1; f; r0; p0; p1; q0; q1]
                            ++ to_le_bytes 4 cap) [root] addr 0)).
  change (get_u32 e 12) with (from_le_bytes (to_le_bytes 4 cap)). rewrite from_to_u32 by done.
  change (at_ e 6) with f. change (at_ e 7) with r0. change (at_ e 8) with p0.
  change (at_ e 9) with p1. change (at_ e 10) with q0. change (at_ e 11) with q1.
  rewrite negb_andb, <-!orb_assoc.
  replace (negb (bool_decide ([q0; q1] = [0; 0]))) with (negb (q0 =? 0) || negb (q1 =? 0)).
  - do 16 (destruct addr as [|? addr]; [done|]). destruct addr; [|done]. reflexivity.
  - rewrite <-negb_andb. f_equal. apply eq_true_iff_eq.
    rewrite andb_true_iff, !Z.eqb_eq, bool_decide_eq_true. naive_solver.
Qed.

(** The kernel and the loader agree on every configuration. *)
Lemma config_exact v :
  config_words v →
  load_config v
  = match FenceConfig_decode (config_octets v) with
    | Some c => Some (mkKernelConfig (kernel_endpoint (fc_endpoint c)) (fc_root_cgroup_id c))
    | None => None
    end.
Proof.
  intros Hv. rewrite load_config_of, config_decode_of by done.
  destruct (negb (cf_magic v =? _) || _ || _ || _); [done|]. cbn [orb] in *. cbn zeta.
  set (port := u16_from_be_bytes _ _).
  destruct Hv as (_ & _ & _ & _ & _ & _ & _ & _ & _ & _ & La & _).
  pose proof (endpoint_of_refused (cf_family v) (cf_address v) port La) as Hr.
  destruct (endpoint_of _ _ _) as [e|] eqn:Ee.
  - symmetry in Hr. apply orb_false_iff in Hr as [-> ->].
    apply endpoint_of_inv in Ee as (Ef & Ea & Ep); [|done]. unfold FenceConfig_new.
    destruct (_ || _); [done|]. cbn. unfold kernel_endpoint. by rewrite <-Ef, <-Ea, <-Ep.
  - destruct (_ || _) in |- *; [done|]. symmetry in Hr. apply orb_true_iff in Hr as [->| ->]; [done|].
    by destruct (port =? 0).
Qed.

(** ** Commands *)

Lemma land_shifted x b k :
  0 ≤ k → Z.land x (Z.shiftl b k) = Z.shiftl (Z.land (Z.shiftr x k) b) k.
Proof.
  intros Hk. apply Z.bits_inj'. intros n Hn. rewrite Z.land_spec, !Z.shiftl_spec by done.
  destruct (decide (n < k)).
  - by rewrite !(Z.testbit_neg_r _ (n - k)), andb_false_r by lia.
  - rewrite Z.land_spec, Z.shiftr_spec by lia. by replace (n - k + k) with n by lia.
Qed.

(** A word of eight octets, the low six apart from the two high ones. *)
Lemma header_word lo h6 h7 :
  0 ≤ lo < 2 ^ 48 → u8 h6 → u8 h7 →
  let w := lo + 2 ^ 48 * (h6 + 256 * h7) in
  Z.land (Z.shiftr w 48) 0xff = h6
  ∧ (Z.land w CONTROL_HEADER_FIXED_MASK =? CONTROL_HEADER_FIXED)
    = (lo =? CONTROL_HEADER_FIXED) && (h7 =? 0).
Proof.
  intros Hlo H6 H7. cbn zeta. unfold u8 in *. set (w := lo + _).
  assert (Z.shiftr w 48 = h6 + 256 * h7) as Hhi.
  { rewrite Z.shiftr_div_pow2 by lia. unfold w. rewrite Z.mul_comm, Z.div_add by lia.
    rewrite Z.div_small by lia. lia. }
  assert (Z.shiftr w 56 = h7) as Htop.
  { replace 56 with (48 + 8) by lia. rewrite <-Z.shiftr_shiftr, Hhi by lia.
    rewrite Z.shiftr_div_pow2 by lia. change (2 ^ 8) with 256. rewrite Z.mul_comm, Z.div_add by lia.
    rewrite Z.div_small by lia. lia. }
  assert (w mod 2 ^ 48 = lo) as Hmod.
  { unfold w. rewrite Z.mul_comm, Z.mod_add by lia. by apply Z.mod_small. }
  split.
  - rewrite Hhi. change 0xff with (Z.ones 8). rewrite Z.land_ones by lia.
    change (2 ^ 8) with 256. rewrite Z.mul_comm, Z.mod_add by lia. apply Z.mod_small. lia.
  - change CONTROL_HEADER_FIXED_MASK with (Z.lor (Z.ones 48) (Z.shiftl (Z.ones 8) 56)).
    rewrite Z.land_lor_distr_r, Z.land_ones, land_shifted, Htop, Hmod by lia.
    rewrite Z.land_ones by lia. rewrite (Z.mod_small h7) by (change (2 ^ 8) with 256; lia).
    apply eq_true_iff_eq. rewrite andb_true_iff, !Z.eqb_eq. split.
    + intros E. assert (h7 = 0) as ->.
      { apply (f_equal (λ x, Z.shiftr x 56)) in E.
        rewrite Z.shiftr_lor, Z.shiftr_shiftl_l in E by lia. change (56 - 56) with 0 in E.
        rewrite Z.shiftl_0_r, (Z.shiftr_div_pow2 lo), Z.div_small in E by lia.
        rewrite Z.lor_0_l in E. exact E. }
      rewrite Z.shiftl_0_l, Z.lor_0_r in E. done.
    + intros [-> ->]. by rewrite Z.shiftl_0_l, Z.lor_0_r.
Qed.

Lemma copy_from_sub (l : bytes) i n :
  (i + n ≤ length l)%nat → copy_from l i n = take n (drop i l).
Proof.
  intros Hl. destruct (split_len l i (length l - i)) as (p & q & -> & Hp & Hq); [lia|].
  rewrite length_app in Hl. destruct (split_len q n (length q - n)) as (r & t & -> & Hr & _);
    [lia|].
  rewrite copy_from_mid by done. rewrite drop_app_length' by done. by rewrite take_app_length'.
Qed.

Lemma get_u64_prefix p q i : (i + 8 ≤ length p)%nat → get_u64 (p ++ q) i = get_u64 p i.
Proof.
  intros Hl. unfold get_u64. rewrite !copy_from_sub by (rewrite ?length_app; lia).
  by rewrite drop_app_le, take_app_le by (rewrite ?length_drop; lia).
Qed.

Lemma command_prefix p q :
  length p = 48%nat → ControlCommand_decode (p ++ q) = ControlCommand_decode p.
Proof.
  intros Hl. unfold ControlCommand_decode, has_magic, at_.
  rewrite !app_nth1, !get_u64_prefix by lia. done.
Qed.

Lemma list_words l ws (at_word : nat → nat) :
  (∀ i, (i < length ws)%nat → ∃ w, ws !! i = Some w ∧ get_u64 l (at_word i) = w) →
  existsb (λ o, negb (get_u64 l (Z.to_nat o) =? 0))
    ((λ i, Z.of_nat (at_word i)) <$> seq 0 (length ws))
  = existsb (λ w, negb (w =? 0)) ws.
Proof.
  revert at_word. induction ws as [|w ws IH]; intros f Hf; [done|]. cbn [length seq].
  rewrite fmap_cons, <-fmap_S_seq, <-list_fmap_compose. cbn [existsb]. rewrite Nat2Z.id.
  destruct (Hf 0%nat) as (w' & [= <-] & ->); [cbn; lia|]. f_equal.
  apply (IH (f ∘ S)). intros i Hi. apply (Hf (S i)). cbn. lia.
Qed.

Lemma inspect_layout c :
  command_ok c → cc_operation c = Inspect →
  encode_inspect_request c = Some (ControlCommand_encode c ++ zeroes 80).
Proof.
  intros Hc Ho. unfold encode_inspect_request. rewrite bool_decide_true by done. cbn [negb].
  change (zeroes 128) with ([] ++ zeroes 48 ++ zeroes 80).
  destruct (codec_length _ command_codec Hc) as (Lc & _). by rewrite copy_at_mid.
Qed.

Lemma zero_list l : forallb (λ b, b =? 0) l = true → l = zeroes (length l).
Proof.
  induction l as [|b l IH]; [done|]. cbn. intros [Hb%Z.eqb_eq Hl]%andb_true_iff. subst.
  f_equal. by apply IH.
Qed.

(** Ten words are zero when all their octets are. *)
Lemma words_zero l :
  length l = 128%nat → bytes_ok l →
  existsb (λ o, negb (get_u64 l (Z.to_nat o) =? 0)) [48; 56; 64; 72; 80; 88; 96; 104; 112; 120]
  = negb (forallb (λ b, b =? 0) (drop 48 l)).
Proof.
  intros Hl Hb. destruct (header_words l 48 10 Hl Hb) as (p & ws & -> & Hp & _ & Hn & Hw).
  rewrite drop_app_length' by done.
  assert (forallb (λ b, b =? 0) (words ws) = forallb (λ w, w =? 0) ws) as ->.
  { clear Hn Hl Hb. induction Hw as [|w ws Hw _ IH]; [done|].
    change (words (w :: ws)) with (to_le_bytes 8 w ++ words ws).
    rewrite forallb_app, IH, zero_octets; [done|]. destruct Hw as [? Hw]. unfold U64_MAX in Hw.
    change (256 ^ Z.of_nat 8) with 18446744073709551616. lia. }
  rewrite <-existsb_zero.
  assert (∀ i, (i < 10)%nat → ∃ w, ws !! i = Some w ∧ get_u64 (p ++ words ws) (48 + 8 * i) = w)
    as Hg.
  { intros i Hi. destruct (lookup_lt_is_Some_2 ws i) as [w Ew]; [lia|]. exists w.
    split; [done|]. rewrite <-(app_nil_r (words ws)), <-Hp. apply get_word; [done|].
    by eapply Forall_lookup_1 in Hw. }
  etransitivity; [|apply (list_words (p ++ words ws) ws (λ i, 48 + 8 * i)%nat)].
  - by rewrite Hn.
  - rewrite Hn. exact Hg.
Qed.

Section Loads.
Context {Ctx : Type} `{SkBuffLaws Ctx}.

Lemma load_u64_get (ctx : Ctx) o :
  0 ≤ o → o + 8 ≤ len (ctx_octets ctx) →
  load_u64 ctx o = Some (get_u64 (ctx_octets ctx) (Z.to_nat o)).
Proof.
  intros Ho Hl. unfold load_u64, get_u64. rewrite ctx_load_within by lia.
  rewrite copy_from_sub; [done|]. unfold len in Hl. lia.
Qed.

Lemma header_load (ctx : Ctx) :
  bytes_ok (ctx_octets ctx) → 48 ≤ len (ctx_octets ctx) →
  ∃ w, load_u64 ctx 0 = Some w
    ∧ Z.land (Z.shiftr w 48) 0xff = at_ (ctx_octets ctx) 6
    ∧ negb (Z.land w CONTROL_HEADER_FIXED_MASK =? CONTROL_HEADER_FIXED)
      = negb (has_magic (ctx_octets ctx) CONTROL_MAGIC) || negb (at_ (ctx_octets ctx) 7 =? 0).
Proof.
  intros Hb Hl. rewrite load_u64_get by lia. eexists. split; [done|].
  revert Hb Hl. generalize (ctx_octets ctx). intros l Hb Hl.
  do 8 (destruct l as [|? l]; [unfold len in Hl; cbn in Hl; lia|]).
  rewrite !bytes_ok_cons in Hb. destruct Hb as (? & ? & ? & ? & ? & ? & ? & ? & _).
  change (get_u64 _ _) with (from_le_bytes [z; z0; z1; z2; z3; z4; z5; z6]).
  assert (bytes_ok [z; z0; z1; z2; z3; z4]) as Hok
    by (repeat (apply bytes_ok_cons; split; [assumption|]); constructor).
  pose proof (from_le_range _ Hok) as Hr. change (256 ^ Z.of_nat (length _)) with (2 ^ 48) in Hr.
  replace (from_le_bytes [z; z0; z1; z2; z3; z4; z5; z6])
    with (from_le_bytes [z; z0; z1; z2; z3; z4] + 2 ^ 48 * (z5 + 256 * z6))
    by (change (2 ^ 48) with 281474976710656; cbn [from_le_bytes]; lia).
  destruct (header_word _ z5 z6 Hr) as [E1 E2]; [done..|]. split; [exact E1|].
  rewrite E2, negb_andb. f_equal. f_equal.
  change (z :: z0 :: z1 :: z2 :: z3 :: z4 :: z5 :: z6 :: l)
    with ([z; z0; z1; z2] ++ [z3; z4] ++ z5 :: z6 :: l). rewrite magic_of by done.
  change CONTROL_HEADER_FIXED with (from_le_bytes (CONTROL_MAGIC ++ to_le_bytes 2 EGRESS_FENCE_ABI_VERSION)).
  rewrite le_eqb; [|exact Hok|apply app_ok; [octets|apply to_le_ok]|done].
  change (from_le_bytes [z3; z4] =? EGRESS_FENCE_ABI_VERSION) with
    (from_le_bytes [z3; z4] =? from_le_bytes (to_le_bytes 2 EGRESS_FENCE_ABI_VERSION)).
  rewrite le_eqb;
    [|repeat (apply bytes_ok_cons; split; [assumption|]); constructor|apply to_le_ok|done].
  apply eq_true_iff_eq. rewrite andb_true_iff, !bool_decide_eq_true. cbn [app].
  split; [intros E; by injection E as -> -> -> -> -> ->|].
  intros [E E']; injection E as -> -> -> ->; by injection E' as -> ->.
Qed.

Lemma load_command_get (ctx : Ctx) op :
  48 ≤ len (ctx_octets ctx) →
  load_command ctx op
  = ControlCommand_new op (get_u64 (ctx_octets ctx) 8) (get_u64 (ctx_octets ctx) 16)
      (get_u64 (ctx_octets ctx) 24) (get_u64 (ctx_octets ctx) 32) (get_u64 (ctx_octets ctx) 40).
Proof. intros Hl. unfold load_command. rewrite !load_u64_get by lia. done. Qed.

Lemma any_nonzero_get (ctx : Ctx) offsets :
  Forall (λ o, 0 ≤ o ∧ o + 8 ≤ len (ctx_octets ctx)) offsets →
  any_nonzero ctx offsets
  = Some (existsb (λ o, negb (get_u64 (ctx_octets ctx) (Z.to_nat o) =? 0)) offsets).
Proof.
  induction 1 as [|o os [Ho Hl] _ IH]; [done|]. cbn. rewrite load_u64_get by done.
  destruct (_ =? 0); [exact IH|done].
Qed.

(** Commands other than inspections are those of the format. *)
Lemma control_exact (ctx : Ctx) :
  bytes_ok (ctx_octets ctx) →
  load_control_command ctx false
  = if len (ctx_octets ctx) =? 48 then
      match ControlCommand_decode (ctx_octets ctx) with
      | Some c => if bool_decide (cc_operation c = Inspect) then None else Some c
      | None => None
      end
    else None.
Proof.
  intros Hb. unfold load_control_command. rewrite ctx_len_octets.
  destruct (len (ctx_octets ctx) =? 48) eqn:El; [|destruct (len (ctx_octets ctx) =? 128) eqn:El';
    [|done]].
  - apply Z.eqb_eq in El. destruct (header_load ctx Hb) as (w & -> & -> & ->); [lia|].
    rewrite El. unfold ControlCommand_decode. cbn [negb andb].
    destruct (_ || _); [done|]. destruct (ControlOperation_decode _) as [op|]; [|done].
    rewrite load_command_get by lia. unfold ControlCommand_new.
    destruct (bool_decide (op = Inspect)) eqn:Eo; cbn [negb eqb].
    + destruct (_ || _); [done|]. cbn. by rewrite Eo.
    + destruct (_ || _); [done|]. cbn. by rewrite Eo.
  - apply Z.eqb_eq in El'. destruct (header_load ctx Hb) as (w & -> & -> & ->); [lia|].
    cbn [negb andb]. destruct (_ || _); [done|].
    destruct (ControlOperation_decode _) as [op|]; [|done]. by destruct (bool_decide _).
Qed.

(** An inspection is one in a buffer that is zero behind it. *)
Lemma inspect_command_exact (ctx : Ctx) :
  bytes_ok (ctx_octets ctx) →
  load_control_command ctx true
  = if (len (ctx_octets ctx) =? 128) && forallb (λ b, b =? 0) (drop 48 (ctx_octets ctx)) then
      match ControlCommand_decode (take 48 (ctx_octets ctx)) with
      | Some c => if bool_decide (cc_operation c = Inspect) then Some c else None
      | None => None
      end
    else None.
Proof.
  intros Hb. unfold load_control_command. rewrite ctx_len_octets.
  destruct (len (ctx_octets ctx) =? 128) eqn:El; [|destruct (len (ctx_octets ctx) =? 48) eqn:El';
    [|done]].
  - apply Z.eqb_eq in El. assert (length (ctx_octets ctx) = 128%nat) as Ln by (unfold len in El; lia).
    destruct (header_load ctx Hb) as (w & -> & -> & ->); [lia|].
    rewrite El, any_nonzero_get, words_zero by (done || (repeat constructor; lia)).
    rewrite <-(command_prefix (take 48 (ctx_octets ctx)) (drop 48 (ctx_octets ctx)))
      by (rewrite length_take; lia).
    rewrite take_drop. unfold ControlCommand_decode. cbn [negb andb].
    destruct (negb (has_magic _ _) || _); [by destruct (forallb _ _)|].
    destruct (ControlOperation_decode _) as [op|]; [|by destruct (forallb _ _)].
    rewrite load_command_get by lia. unfold ControlCommand_new.
    destruct (bool_decide (op = Inspect)) eqn:Eo; cbn [negb eqb];
      (destruct (forallb _ _); [|done]; destruct (_ || _); [done|]; cbn; by rewrite Eo).
  - apply Z.eqb_eq in El'. destruct (header_load ctx Hb) as (w & -> & -> & ->); [lia|].
    cbn [negb andb]. destruct (_ || _); [done|].
    destruct (ControlOperation_decode _) as [op|]; [|done]. by destruct (bool_decide _).
Qed.

Lemma control_request_exact (ctx : Ctx) c :
  bytes_ok (ctx_octets ctx) →
  load_control_command ctx false = Some c
  ↔ command_ok c ∧ cc_operation c ≠ Inspect ∧ ctx_octets ctx = ControlCommand_encode c.
Proof.
  intros Hb. rewrite control_exact by done. pose proof (command_codec c (ctx_octets ctx)) as Hx.
  destruct (len _ =? 48) eqn:El; to_prop; unfold len in El.
  + assert (length (ctx_octets ctx) = 48%nat) as Ln by lia. split.
    * destruct (ControlCommand_decode _) as [c'|] eqn:Ed; [|done]. case_bool_decide; [done|].
      intros [= ->]. destruct Hx as [_ [Hok <-]]; done.
    * intros (Hok & Ho & E). destruct Hx as [(_ & _ & ->) _]; [done|].
      by rewrite bool_decide_false.
  + split; [done|]. intros (Hok & _ & E). destruct Hx as [(Ln & _) _]; [done|]. lia.
Qed.

Lemma inspect_request_exact (ctx : Ctx) c :
  bytes_ok (ctx_octets ctx) →
  load_control_command ctx true = Some c
  ↔ command_ok c ∧ encode_inspect_request c = Some (ctx_octets ctx).
Proof.
  intros Hb. rewrite inspect_command_exact by done. set (l := ctx_octets ctx) in *.
  pose proof (command_codec c (take 48 l)) as Hx. split.
  + destruct (_ && _) eqn:El; [|done].
    apply andb_true_iff in El as [Ln%Z.eqb_eq Hz%zero_list]. unfold len in Ln.
    destruct (ControlCommand_decode _) as [c'|] eqn:Ed; [|done]. case_bool_decide; [|done].
    intros [= ->]. destruct Hx as [_ [Hok He]].
    { split_and!; [rewrite length_take; lia|by apply Forall_take|done]. }
    split; [done|]. rewrite inspect_layout, He by done.
    rewrite length_drop in Hz. replace (length l - 48)%nat with 80%nat in Hz by lia.
    by rewrite <-Hz, take_drop.
  + intros [Hok He]. assert (cc_operation c = Inspect) as Ho.
    { unfold encode_inspect_request in He. by case_bool_decide. }
    rewrite inspect_layout in He by done. apply Some_inj in He. unfold len. rewrite <-He.
    destruct (codec_length _ command_codec Hok) as (Lc & _ & Dc).
    rewrite length_app, Lc, drop_app_length', take_app_length', Dc by done.
    by rewrite bool_decide_true.
Qed.

(** C28. The kernel programs read the shared formats, and nothing else: the current value,
    a cookie value, the configuration and a command that userspace lays out in memory mean
    to the kernel exactly what the decoders of the formats return, and what those reject
    the kernel rejects. *)
Theorem kernel_reads_formats :
  (∀ v, current_words v → decode_current v = CurrentFenceToken_decode (current_octets v))
  ∧ (∀ v k e, cookie_words v → mk_socket_cookie k ≠ 0 →
      decode_entry v k = Some e
      ↔ FenceCookieValue_decode (cookie_octets v)
        = Some (mkFenceCookieValue
                  (mkFenceCookieKey (mk_socket_cookie k) (mk_durable_fence_token k)) e))
  ∧ (∀ v, config_words v →
      load_config v
      = match FenceConfig_decode (config_octets v) with
        | Some c => Some (mkKernelConfig (kernel_endpoint (fc_endpoint c)) (fc_root_cgroup_id c))
        | None => None
        end)
  ∧ (∀ (ctx : Ctx) c, bytes_ok (ctx_octets ctx) →
      load_control_command ctx false = Some c
      ↔ command_ok c ∧ cc_operation c ≠ Inspect ∧ ctx_octets ctx = ControlCommand_encode c)
  ∧ (∀ (ctx : Ctx) c, bytes_ok (ctx_octets ctx) →
      load_control_command ctx true = Some c
      ↔ command_ok c ∧ encode_inspect_request c = Some (ctx_octets ctx)).
Proof.
  split_and!.
  - intros v Hv. by rewrite current_exact.
  - apply cookie_exact_iff.
  - apply config_exact.
  - apply control_request_exact.
  - apply inspect_request_exact.
Qed.

End Loads.
