(* ===== verification/FenceReport.v ===== *)
(** Inspections of the egress fence: the octets an inspection answers with are the format
    the loader decodes, and they report the maps at one moment of the invocation. *)

From stdpp Require Import functions.
From S2P Require Import Prelude.
From S2P Require Import FenceAbi.
From S2P Require Import FenceCodec.
From S2P Require Import FencePacket.
From S2P Require Import FenceKernel.
From S2P Require Import FenceSystem.
From S2P Require Import FenceInvariant.
From S2P Require Import FenceSteps.
From S2P Require Import FenceReach.
From S2P Require Import FenceTrace.
From S2P Require Import FenceLayout.

(** The entry linked under the key of a command. *)
Definition linked_entry (m : FenceMaps) (cmd : ControlCommand) : option FenceCookieValue :=
  if cc_socket_cookie cmd =? 0 then None
  else
  match fm_cookies m !! command_key cmd with
  | None => None
  | Some slot =>
      match decode_entry (fm_slots m slot) (command_key cmd) with
      | Some e => Some (mkFenceCookieValue
                          (mkFenceCookieKey (cc_socket_cookie cmd)
                             (cc_durable_fence_token cmd)) e)
      | None => None
      end
  end.

(** [i] is what the maps are. *)
Definition reports (m : FenceMaps) (cmd : ControlCommand) (i : FenceInspection) : Prop :=
  decode_current (fm_current m) = Some (fi_current i)
  ∧ fi_mutation i = mkFenceMutationAuthority (mm_generation (fm_mutation m)) 0
  ∧ mm_in_flight_claim (fm_mutation m) = 0
  ∧ fi_entry i = linked_entry m cmd.

(** The value a response carries for an entry. *)
Definition carries (e : option FenceCookieValue) (entry : option CookieMapValue) : Prop :=
  match e, entry with
  | Some v, Some w =>
      w = entry_value (cookie_key (ck_socket_cookie (cv_key v))
                         (ck_durable_fence_token (cv_key v))) (cv_entry v)
      ∧ ck_durable_fence_token (cv_key v) = fe_durable_fence_token (cv_entry v)
  | None, None => True
  | _, _ => False
  end.

(** ** The octets of a response *)

Lemma output_layout c g i entry :
  inspection_ok i → fi_current i = c → fi_mutation i = mkFenceMutationAuthority g 0 →
  carries (fi_entry i) entry →
  output_octets (view_output (current_value c) (mkMutationMapValue g 0) entry)
  = FenceInspection_encode i.
Proof.
  intros Hok Hc Hg He. rewrite inspection_layout by done. unfold output_octets, view_output.
  cbn [io_magic io_version io_entry_present io_reserved io_current io_mutation io_entry
    io_trailing_reserved].
  rewrite Hc, Hg, current_layout by (rewrite <-Hc; apply Hok).
  assert (cookie_octets (match entry with Some v => v | None => mkCookieMapValue 0 0 0 0 0 0 end)
    = entry_octets (fi_entry i)) as ->.
  { destruct (fi_entry i) as [[[ck tk] [st t d ep]]|], entry as [w|]; try done.
    destruct He as [-> E]. cbn in E. subst. cbn [entry_octets]. by rewrite cookie_value_layout. }
  destruct (fi_entry i), entry; try done; by rewrite <-!app_assoc.
Qed.

(** ** The snapshot *)

Lemma snapshot_reports c m cmd g e entry :
  maps_ok c m → mutation_generation_matches (fm_mutation m) g = true →
  linked_entry m cmd = e → (∀ v, e = Some v → cookie_value_ok v) → carries e entry →
  ∃ i, inspection_ok i ∧ reports m cmd i
    ∧ output_octets (view_output (fm_current m) (fm_mutation m) entry)
      = FenceInspection_encode i.
Proof.
  intros Hm Hmat Hl Hve He. pose proof (matches_idle m g Hmat) as [_ Hi].
  pose proof (mo_generation c m Hm) as Hg. pose proof (mo_current_ok c m Hm) as Hc.
  assert (fm_mutation m = mkMutationMapValue (mm_generation (fm_mutation m)) 0) as Emut.
  { unfold idle in Hi. destruct (fm_mutation m). cbn in *. by subst. }
  set (mu := mkFenceMutationAuthority (mm_generation (fm_mutation m)) 0).
  assert (mutation_ok mu) as Hmo by (split; [exact Hg|by split]).
  exists (mkFenceInspection c mu e).
  assert (inspection_ok (mkFenceInspection c mu e)) as Hok by (by split_and!).
  split; [done|]. split; [split; [by apply current_decodes|by split_and!]|].
  rewrite Emut, (mo_current c m Hm). by apply output_layout.
Qed.

Lemma linked_value_ok c m cmd a e :
  maps_ok c m → fm_cookies m !! command_key cmd = Some a →
  decode_entry (fm_slots m a) (command_key cmd) = Some e →
  cookie_value_ok (mkFenceCookieValue
    (mkFenceCookieKey (cc_socket_cookie cmd) (cc_durable_fence_token cmd)) e).
Proof.
  intros Hm Hk Hd. destruct (live_entry c m _ a Hm Hk) as (e' & _ & (Hok & Ht & _) & Hd' & [Hu Hn]).
  rewrite Hd in Hd'. injection Hd' as <-. destruct (mo_slots c m Hm _ _ Hk) as (_ & [Hc Hz] & _).
  cbn in Ht, Hu, Hn, Hc, Hz. split; [|split; [done|]].
  - split; [done|]. split; [done|]. unfold FenceCookieKey_new. cbn.
    apply orb_false_iff in Hn as [-> _]. by rewrite (proj2 (Z.eqb_neq _ _) Hz).
  - unfold FenceCookieValue_new. cbn. by rewrite Ht, Z.eqb_refl.
Qed.

(** The step that takes the snapshot. *)
Lemma view_entry_reports c m cmd g slot o :
  maps_ok c m → view_slot m cmd g slot → view_entry cmd g slot m = (m, ViewStore o) →
  ∃ i, inspection_ok i ∧ reports m cmd i ∧ output_octets o = FenceInspection_encode i.
Proof.
  intros Hm Hs Hv. unfold view_entry in Hv.
  destruct (mutation_generation_matches (fm_mutation m) g) eqn:Hmat; cbn [negb] in Hv; [|done].
  unfold view_slot in Hs. destruct (cc_socket_cookie cmd =? 0) eqn:Ez.
  { subst slot. cbn [entry_at] in Hv. injection Hv as <-.
    eapply snapshot_reports with (e := None); [done|done|unfold linked_entry; by rewrite Ez|done..]. }
  pose proof (proj2 Hs Hmat) as Hk. destruct slot as [a|]; cbn [entry_at] in Hv.
  - destruct (decode_entry (fm_slots m a) (command_key cmd)) as [e|] eqn:Hd; [|done].
    injection Hv as <-. pose proof (linked_value_ok c m cmd a e Hm Hk Hd) as Hok.
    eapply snapshot_reports; [done|done|unfold linked_entry; by rewrite Ez, Hk, Hd|by intros v [= <-]|].
    apply decode_entry_inv in Hd as [Hd Ht]. split; [exact Hd|done].
  - injection Hv as <-.
    eapply snapshot_reports with (e := None);
      [done|done|unfold linked_entry; by rewrite Ez, Hk|done..].
Qed.

Section Report.
Context {Ctx : Type} `{SkBuffLaws Ctx}.

Section Past.
Context (s0 : FenceSystem).

Definition asked (es : list (Event Ctx)) (t : nat) (cmd : ControlCommand) : Prop :=
  ∃ ctx, Start t (View ctx) ∈ es ∧ load_control_command ctx true = Some cmd.

Definition reported (es : list (Event Ctx)) (t : nat) (o : InspectionOutput) : Prop :=
  ∃ cmd s1 i generation slot,
    asked es t cmd ∧ passed s0 es s1
    ∧ fs_running s1 !! t = Some (ViewEntry cmd generation slot)
    ∧ FenceInspection_decode (output_octets o) = Some i ∧ reports (fs_maps s1) cmd i.

Definition view_traced (es : list (Event Ctx)) (t : nat) (p : Phase) : Prop :=
  match p with
  | ViewLookup cmd _ | ViewEntry cmd _ _ => asked es t cmd
  | ViewStore o => reported es t o
  | ViewDone r (Some o) => r = CONTROL_RESULT_APPLIED ∧ reported es t o
  | ViewDone r None => r ≠ CONTROL_RESULT_APPLIED
  | _ => True
  end.

Lemma view_traced_app es e t p : view_traced es t p → view_traced (es ++ [e]) t p.
Proof.
  assert (∀ cmd, asked es t cmd → asked (es ++ [e]) t cmd) as Ha.
  { intros cmd (ctx & Hin & Hl). exists ctx. split; [|done]. apply elem_of_app. by left. }
  assert (∀ o, reported es t o → reported (es ++ [e]) t o) as Hr.
  { intros o (cmd & s1 & i & g & sl & Hk & Hp & Hr). exists cmd, s1, i, g, sl.
    split; [auto|]. split; [by apply passed_app|done]. }
  destruct p; cbn; auto. destruct response; [|done]. intros [? ?]. auto.
Qed.

Lemma view_start_traced es s t (ctx : Ctx) m' p :
  inspect_start ctx (fs_maps s) = (m', p) → view_traced (es ++ [Start t (View ctx)]) t p.
Proof.
  intros Hv. unfold inspect_start, view_start in Hv.
  destruct (admitted_command ctx true (fs_maps s)) as [cmd|] eqn:Ea.
  - destruct (_ =? 0); injection Hv as <- <-; [|done]. exists ctx. split.
    + apply elem_of_app. right. by apply list_elem_of_singleton.
    + unfold admitted_command in Ea. destruct (load_control_command ctx true); [|done].
      repeat case_match; by simplify_eq.
  - by injection Hv as <- <-.
Qed.

Lemma view_advance_traced c es s t p ch m' p' e :
  system_ok c s → run s0 es = Some s → fs_running s !! t = Some p → view_traced es t p →
  advance p ch (fs_maps s) = Some (m', p') → view_traced (es ++ [e]) t p'.
Proof.
  intros Hs Hr Ht Hp0 Ha. pose proof (view_traced_app _ e _ _ Hp0) as Hp.
  pose proof (so_phase c s Hs _ _ Ht) as Hok. pose proof (so_maps c s Hs) as Hm.
  destruct (program_of p) eqn:Ep.
  1,2: pose proof (advance_program _ _ _ _ _ Ha) as Hq; rewrite Ep in Hq; by destruct p'.
  destruct p; try done; cbn [advance] in Ha; apply Some_inj in Ha.
  - injection Ha as <- <-. exact Hp.
  - pose proof (view_entry_reports c (fs_maps s) c0 generation slot) as Hrep.
    assert (∀ o, view_entry c0 generation slot (fs_maps s) = (fs_maps s, ViewStore o) →
      reported (es ++ [e]) t o) as Hgo.
    { intros o Ho. destruct (Hrep o Hm Hok Ho) as (i & Hi & Hri & Ho').
      exists c0, s, i, generation, slot. split_and!; [done|by eapply passed_now|done| |done].
      rewrite Ho'. by apply (codec_length _ inspection_codec). }
    revert Ha Hgo. unfold view_entry. intros Ha Hgo.
    repeat case_match; injection Ha as <- <-; try done; by apply Hgo.
  - unfold view_store in Ha. destruct ch; injection Ha as <- <-; try done; by split.
Qed.

Lemma view_run_traced c0 es s t p :
  system_ok c0 s0 → fs_running s0 = ∅ → Forall event_ok es → run s0 es = Some s →
  fs_running s !! t = Some p → view_traced es t p.
Proof.
  intros Hs0 He Hes Hr. eapply run_traced; try done.
  - apply view_traced_app.
  - intros es' s' t' i m' q Hr' Hi. destruct i; [| |by eapply view_start_traced];
      pose proof (start_program _ _ _ _ Hi) as Hp; by destruct q.
  - intros c es' s' t' q ch m' q' Hs Hr' Hq Ht Ha. by eapply view_advance_traced.
Qed.

End Past.

(** An inspection reports the truth: whatever runs beside it, the octets it answers
    with decode to the current token, the idle mutation generation and the entry of the
    asked key as the maps had them, all together, at one step of the inspection. *)
Theorem inspection_reports_one_moment config slots clock (es : list (Event Ctx)) s t r o :
  0 ≤ clock → Forall event_ok es → run (initial_system config slots clock) es = Some s →
  fs_running s !! t = Some (ViewDone r (Some o)) →
  r = CONTROL_RESULT_APPLIED
  ∧ ∃ ctx cmd s1 i generation slot,
      Start t (View ctx) ∈ es ∧ load_control_command ctx true = Some cmd
      ∧ passed (initial_system config slots clock) es s1
      ∧ fs_running s1 !! t = Some (ViewEntry cmd generation slot)
      ∧ FenceInspection_decode (output_octets o) = Some i ∧ reports (fs_maps s1) cmd i.
Proof.
  intros Hc He Hr Ht.
  destruct (view_run_traced _ _ es s t _ (initial_ok config slots clock Hc) eq_refl He Hr Ht)
    as [-> (cmd & s1 & i & g & sl & (ctx & Hin & Hl) & Hrest)].
  split; [done|]. exists ctx, cmd, s1, i, g, sl. done.
Qed.

End Report.
