(* ===== verification/FenceSamples.v ===== *)
(** Sample runs of the egress fence: a lifecycle is published, its socket registered and
    activated, a packet leaves, the state is inspected, and the socket is closed; with the
    theorems on runs applied to them. *)

From stdpp Require Import functions.
From S2P Require Import Prelude.
From S2P Require Import FenceAbi.
From S2P Require Import FenceCodec.
From S2P Require Import FencePacket.
From S2P Require Import FenceKernel.
From S2P Require Import FenceSystem.
From S2P Require Import FenceInvariant.
From S2P Require Import FenceReach.
From S2P Require Import FenceSafety.
From S2P Require Import FenceTrace.
From S2P Require Import FenceLayout.
From S2P Require Import FenceReport.

(** 192.0.2.37 port 4661 on the root control group 7. *)
Definition sample_config : ConfigMapValue :=
  mkConfigMapValue (from_le_bytes CONFIG_MAGIC) EGRESS_FENCE_ABI_VERSION 4 0 [0x12; 0x35]
    [0; 0] EGRESS_FENCE_MAX_COOKIE_ENTRIES 7 ([192; 0; 2; 37] ++ zeroes 12).

Definition sample_initial : FenceSystem :=
  initial_system sample_config (λ _, mkCookieMapValue 0 0 0 0 0 0) 1000.

Definition sample_command (op : ControlOperation) (cookie token deadline epoch : Z) : bytes :=
  ControlCommand_encode (mkControlCommand op 7 cookie token deadline epoch).

Definition steps (t n : nat) : list (Event bytes) := replicate n (Step t Proceed).

Definition publish_events : list (Event bytes) :=
  [Start 0 (Control (sample_command PublishLifecycle 0 1 0 0))].
Definition reserve_events : list (Event bytes) :=
  [Start 1 (Control (sample_command Register 9 1 0 0))].
Definition activate_events : list (Event bytes) :=
  [Step 1 (InsertInto 3)] ++ steps 1 2
  ++ [Start 2 (Control (sample_command Activate 9 1 2000 1)); Tick 5] ++ steps 2 4.
Definition packet_events : list (Event bytes) :=
  [Start 3 (Gate 0 sample_packet None 9); Step 3 Proceed; Tick 5; Step 3 Proceed;
   Tick 5; Step 3 Proceed].
Definition inspect_events : list (Event bytes) :=
  [Start 4 (View (copy_at (zeroes 128) 0 (sample_command Inspect 9 1 0 0)))] ++ steps 4 3.
Definition close_events : list (Event bytes) :=
  [Start 5 (Control (sample_command Close 9 1 0 2))] ++ steps 5 3.

Definition sample_state (es : list (Event bytes)) : FenceSystem :=
  default sample_initial (run sample_initial es).

Definition registering : list (Event bytes) := publish_events ++ reserve_events.
Definition activated : list (Event bytes) := registering ++ activate_events.
Definition passed_packet : list (Event bytes) := activated ++ packet_events.
Definition inspected : list (Event bytes) := passed_packet ++ inspect_events.
Definition closed : list (Event bytes) := inspected ++ close_events.

Lemma run_sample es :
  (if run sample_initial es then true else false) = true →
  run sample_initial es = Some (sample_state es).
Proof. unfold sample_state. by destruct (run sample_initial es). Qed.

Lemma closed_ok : Forall event_ok closed.
Proof.
  unfold closed, inspected, passed_packet, activated, registering, publish_events,
    reserve_events, activate_events, packet_events, inspect_events, close_events, steps.
  repeat (apply Forall_app; split).
  all: repeat (apply Forall_cons; split;
    [first [exact I | cbn [event_ok]; apply (bool_decide_unpack _); by vm_compute]|]).
  all: try apply Forall_nil_2. all: by apply Forall_replicate.
Qed.

Lemma inspected_ok : Forall event_ok inspected.
Proof. pose proof closed_ok as H. by apply Forall_app in H as [? _]. Qed.

Lemma passed_packet_ok : Forall event_ok passed_packet.
Proof. pose proof inspected_ok as H. by apply Forall_app in H as [? _]. Qed.

Lemma activated_ok : Forall event_ok activated.
Proof. pose proof passed_packet_ok as H. by apply Forall_app in H as [? _]. Qed.

Lemma registering_ok : Forall event_ok registering.
Proof. pose proof activated_ok as H. by apply Forall_app in H as [? _]. Qed.

Lemma reaches_sample es :
  Forall event_ok es → (if run sample_initial es then true else false) = true →
  reaches (Ctx := bytes) (sample_state es).
Proof.
  intros He Hr. exists sample_config, (λ _, mkCookieMapValue 0 0 0 0 0 0), 1000, es.
  split; [done|]. split; [done|]. by apply run_sample.
Qed.

(** From one sample state to a later one. *)
Lemma run_between es1 es2 :
  (if run sample_initial (es1 ++ es2) then true else false) = true →
  run (sample_state es1) es2 = Some (sample_state (es1 ++ es2)).
Proof.
  unfold sample_state. rewrite run_app. destruct (run sample_initial es1); [|done]. cbn.
  by destruct (run _ es2).
Qed.

Lemma sample_open : gate_open (fs_maps (sample_state passed_packet)) 9 1 2000.
Proof. exists (mkCurrentFenceToken 1 9 false), 3%nat, 2. vm_compute. done. Qed.

(** ** The theorems at the sample *)

Lemma superseded_stays_shut_witness :
  ct_durable_fence_token (mkCurrentFenceToken 1 0 false) ≤ 1
  ∧ (ct_durable_fence_token (mkCurrentFenceToken 1 0 false) = 1 →
     is_lifecycle_open (mkCurrentFenceToken 1 0 false) = true
     ∧ (ct_registered_socket_cookie (mkCurrentFenceToken 1 0 false) = 0
        ∨ ct_registered_socket_cookie (mkCurrentFenceToken 1 0 false) = 9)).
Proof.
  apply (superseded_stays_shut (Ctx := bytes) (sample_state registering)
    (activate_events ++ packet_events) (sample_state passed_packet)
    (mkCurrentFenceToken 1 0 false) 9 1 2000).
  - apply reaches_sample; [apply registering_ok|by vm_compute].
  - pose proof passed_packet_ok as H. unfold passed_packet, activated in H.
    rewrite <-app_assoc in H. by apply Forall_app in H as [_ ?].
  - unfold passed_packet, activated. rewrite <-app_assoc. apply run_between. by vm_compute.
  - by vm_compute.
  - apply sample_open.
Defined.

Lemma closed_stays_shut_witness :
  ¬ gate_open (fs_maps (sample_state closed)) 9 1 2000.
Proof.
  apply (closed_stays_shut (Ctx := bytes) (sample_state closed) [] (sample_state closed)
    9 1 3 (mkFenceEntry TerminalClosed 1 0 3) 2000).
  - apply reaches_sample; [apply closed_ok|by vm_compute].
  - apply Forall_nil_2.
  - reflexivity.
  - by vm_compute.
  - by vm_compute.
  - reflexivity.
Defined.

Lemma authority_lapses_witness :
  gate_open (fs_maps (sample_state activated)) 9 1 2000
  ∧ 2000 ≤ fm_clock (fs_maps (sample_state activated)) + EGRESS_FENCE_MAX_GATE_LIFETIME_NS.
Proof.
  apply (authority_lapses (Ctx := bytes) (sample_state activated) packet_events
    (sample_state passed_packet) 9 1 2000).
  - apply reaches_sample; [apply activated_ok|by vm_compute].
  - intros t p Hp. revert t p Hp. change (map_Forall (λ _ p, controls p = false)
      (fs_running (sample_state activated))). apply (bool_decide_unpack _). by vm_compute.
  - repeat (apply Forall_cons; split; [reflexivity|]). apply Forall_nil_2.
  - apply run_between. by vm_compute.
  - apply sample_open.
Defined.

Lemma claim_given_back_witness :
  mm_in_flight_claim (fm_mutation (fs_maps (sample_state registering))) = 1
  ∧ ∃ t, is_Some (exec (sample_state registering) (Step (Ctx := bytes) t HelperFails))
    ∧ ∀ (es : list (Event bytes)) s', Forall event_ok es →
        run (sample_state registering) es = Some s' → (6 ≤ steps_of t es)%nat →
        mm_in_flight_claim (fm_mutation (fs_maps (sample_state registering)))
        ≤ mm_generation (fm_mutation (fs_maps s')).
Proof.
  split; [by vm_compute|]. apply (claim_given_back (Ctx := bytes) (sample_state registering)).
  - apply reaches_sample; [apply registering_ok|by vm_compute].
  - by vm_compute.
Defined.

Lemma allowed_packet_authorized_witness :
  ∃ cpu (ctx : bytes) socket cookie kc,
    Start 3 (Gate cpu ctx socket cookie) ∈ passed_packet ∧ load_config sample_config = Some kc
    ∧ (socket_endpoint_matches socket (kc_endpoint kc) = false
       ∧ classify_endpoint ctx (kc_endpoint kc) = Some Unrelated
       ∨ authorized sample_initial passed_packet 3 cookie).
Proof.
  apply (allowed_packet_authorized (Ctx := bytes) sample_config
    (λ _, mkCookieMapValue 0 0 0 0 0 0) 1000 passed_packet (sample_state passed_packet) 3
    (Some (mkGatePacket 0 false Protected 9))).
  - lia.
  - apply passed_packet_ok.
  - apply run_sample. by vm_compute.
  - by vm_compute.
Defined.

Definition sample_response : InspectionOutput :=
  match fs_running (sample_state inspected) !! 4%nat with
  | Some (ViewDone _ (Some o)) => o
  | _ => view_output (mkCurrentMapValue 0 0 0 0) (mkMutationMapValue 0 0) None
  end.

Lemma inspection_reports_one_moment_witness :
  CONTROL_RESULT_APPLIED = CONTROL_RESULT_APPLIED
  ∧ ∃ (ctx : bytes) cmd s1 i generation slot,
      Start 4 (View ctx) ∈ inspected ∧ load_control_command ctx true = Some cmd
      ∧ passed sample_initial inspected s1
      ∧ fs_running s1 !! 4%nat = Some (ViewEntry cmd generation slot)
      ∧ FenceInspection_decode (output_octets sample_response) = Some i
      ∧ reports (fs_maps s1) cmd i.
Proof.
  apply (inspection_reports_one_moment (Ctx := bytes) sample_config
    (λ _, mkCookieMapValue 0 0 0 0 0 0) 1000 inspected (sample_state inspected) 4
    CONTROL_RESULT_APPLIED sample_response).
  - lia.
  - apply inspected_ok.
  - apply run_sample. by vm_compute.
  - by vm_compute.
Defined.

Lemma kernel_reads_formats_witness :
  load_control_command (sample_command Register 9 1 0 0) false
  = Some (mkControlCommand Register 7 9 1 0 0)
  ↔ command_ok (mkControlCommand Register 7 9 1 0 0)
    ∧ Register ≠ Inspect
    ∧ sample_command Register 9 1 0 0 = ControlCommand_encode (mkControlCommand Register 7 9 1 0 0).
Proof.
  destruct (kernel_reads_formats (Ctx := bytes)) as (_ & _ & _ & Hc & _).
  apply (Hc (sample_command Register 9 1 0 0)). apply (bool_decide_unpack _). by vm_compute.
Defined.
