(* ===== verification/FenceBound.v ===== *)
(** Deadlines of the egress fence come from commands: whatever the interleaving, no entry
    is active for longer than the latest deadline some activation or refresh asked for. *)

From stdpp Require Import functions.
From S2P Require Import Prelude.
From S2P Require Import FenceAbi.
From S2P Require Import FenceCodec.
From S2P Require Import FencePacket.
From S2P Require Import FenceKernel.
From S2P Require Import FenceSystem.
From S2P Require Import FenceInvariant.
From S2P Require Import FenceSteps.
From S2P Require Import FenceReach.
From S2P Require Import FenceSafety.
From S2P Require Import FenceLayout.

(** A command that opens or extends the gate does so until [limit] at most. *)
Definition command_within (limit : Z) (c : ControlCommand) : Prop :=
  cc_operation c = Activate ∨ cc_operation c = Refresh → cc_deadline_boot_ns c ≤ limit.

Definition slot_within (limit : Z) (v : CookieMapValue) : Prop :=
  cw_control v = COOKIE_CONTROL_ACTIVE → cw_deadline_boot_ns v ≤ limit.

Definition slots_within (limit : Z) (m : FenceMaps) : Prop :=
  ∀ k a, fm_cookies m !! k = Some a → slot_within limit (fm_slots m a).

Definition phase_within (limit : Z) (p : Phase) : Prop :=
  match p with
  | RefreshLookup c _ _ | RefreshPrepare c _ _ _ =>
      cc_operation c = Refresh ∧ command_within limit c
  | RefreshObserve c _ _ _ prior | RefreshComplete c _ _ _ prior _
  | RefreshObserveAgain c _ _ _ prior | RefreshFinalize c _ _ _ prior _ =>
      cc_operation c = Refresh ∧ command_within limit c ∧ prior ≤ limit
  | ApplyLookup c _ | ApplyClock c _ _ | ApplyEntry c _ _ _ => command_within limit c
  | _ => True
  end.

Record system_within (limit : Z) (s : FenceSystem) : Prop := {
  sw_slots : slots_within limit (fs_maps s);
  sw_phases t p : fs_running s !! t = Some p → phase_within limit p;
}.

(** ** More time is more *)

Lemma command_within_mono l l' c : l ≤ l' → command_within l c → command_within l' c.
Proof. intros Hl Hc Ho. specialize (Hc Ho). lia. Qed.

Lemma phase_within_mono l l' p : l ≤ l' → phase_within l p → phase_within l' p.
Proof.
  intros Hl. destruct p; cbn; try done.
  all: try (intros [? ?]; split; [done|by eapply command_within_mono]).
  all: try (intros (? & ? & ?); split; [done|split; [by eapply command_within_mono|lia]]).
  all: intros ?; by eapply command_within_mono.
Qed.

Lemma system_within_mono l l' s : l ≤ l' → system_within l s → system_within l' s.
Proof.
  intros Hl [Hs Hp]. split.
  - intros k a Ha Hc. specialize (Hs k a Ha Hc). lia.
  - intros t p Ht. eapply phase_within_mono; [done|]. by eapply Hp.
Qed.

(** ** Writes *)

(** A write leaves an entry as it is or within the limit. *)
Definition write_within (limit : Z) (v v' : CookieMapValue) : Prop :=
  v' = v ∨ slot_within limit v'.

Lemma slots_set l m a v :
  slots_within l m → write_within l (fm_slots m a) v → slots_within l (set_slot a v m).
Proof.
  intros Hs Hv k b Hb. cbn in *. destruct (decide (a = b)) as [<-|Hne].
  - rewrite fn_lookup_insert. destruct Hv as [->|Hv]; [by eapply Hs|done].
  - rewrite fn_lookup_insert_ne by done. by eapply Hs.
Qed.

Lemma slots_put l m slot v :
  slots_within l m →
  (∀ a w, slot = Some a → v = Some w → write_within l (fm_slots m a) w) →
  slots_within l (put_entry slot v m).
Proof. intros Hs Hv. destruct slot, v; try done. apply slots_set; [done|]. by apply Hv. Qed.

Lemma slots_same l m m' :
  slots_within l m → fm_cookies m' = fm_cookies m → fm_slots m' = fm_slots m →
  slots_within l m'.
Proof. intros Hs Hc He k a. rewrite Hc, He. apply Hs. Qed.

Lemma terminal_within l ck t ep : slot_within l (write_terminal ck t ep).
Proof. done. Qed.

Lemma active_within l ck t d ep : d ≤ l → slot_within l (write_active ck t d ep).
Proof. by intros ? _. Qed.

Lemma apply_within l cur v c now v' r :
  command_within l c → apply_entry_locked cur v c now = (v', r) → write_within l v v'.
Proof.
  intros Hc. unfold apply_entry_locked, activate_locked, close_locked, write_within.
  intros Ha. repeat case_match; simplify_eq; auto using terminal_within.
  right. apply active_within. apply Hc. by left.
Qed.

Lemma prepare_within l v c v' r d :
  prepare_refresh_locked v c = (v', (r, d)) →
  write_within l v v'
  ∧ (r = CONTROL_RESULT_APPLIED → cw_control v = COOKIE_CONTROL_ACTIVE ∧ cw_deadline_boot_ns v = d).
Proof.
  unfold prepare_refresh_locked, write_within. intros Hp.
  destruct (decode_entry v _) as [e|] eqn:Hd; [|simplify_eq; split; [by left|done]].
  apply decode_entry_inv in Hd as [Hv _].
  destruct (negb _); [simplify_eq; split; [by left|done]|].
  destruct (finished _); [simplify_eq; split; [by left|done]|].
  destruct (bool_decide (fe_state e = Active)) eqn:Ea; cbn [negb] in Hp;
    [|simplify_eq; split; [by left|done]].
  destruct (_ <? _); simplify_eq; [split; [by left|done]|].
  split; [by right|]. intros _. apply bool_decide_eq_true in Ea. cbn. by rewrite Ea.
Qed.

Lemma complete_within l cur v c prior at' v' r :
  prior ≤ l → complete_refresh_locked cur v c prior at' = (v', r) → write_within l v v'.
Proof.
  intros Hp. unfold complete_refresh_locked, write_within. intros Hc.
  repeat case_match; simplify_eq; auto using terminal_within, active_within.
Qed.

Lemma finalize_within l cur v c prior at' v' w r :
  cc_operation c = Refresh → command_within l c →
  finalize_refresh_locked cur (Some v) c prior at' = (v', r) → v' = Some w →
  write_within l v w.
Proof.
  intros Ho Hc. unfold finalize_refresh_locked, write_within. intros Hf Hw.
  repeat case_match; simplify_eq; auto using terminal_within.
  right. apply active_within. apply Hc. by right.
Qed.

Lemma register_within l cur v c st cur' v' w r :
  register_phase2_locked cur (Some v) c st = (cur', v', r) → v' = Some w →
  write_within l v w.
Proof.
  unfold register_phase2_locked, write_within. intros Hf Hw.
  repeat case_match; simplify_eq; auto using terminal_within.
Qed.

Lemma reclaim_within l v cur c v' r : reclaim_locked v cur c = (v', r) → write_within l v v'.
Proof.
  unfold reclaim_locked, write_within. intros Hr. repeat case_match; simplify_eq; auto.
  by right.
Qed.

Lemma expire_within l cur v c : write_within l v (terminalize_exact_active cur v c).
Proof.
  unfold terminalize_exact_active, write_within. repeat case_match; auto using terminal_within.
Qed.

(** ** Steps *)

Lemma refresh_prepare_within l c m cmd g cl slot m' p' :
  slots_within l m → phase_ok c m (RefreshPrepare cmd g cl slot) →
  cc_operation cmd = Refresh → command_within l cmd →
  refresh_prepare cmd g cl slot m = (m', p') → slots_within l m' ∧ phase_within l p'.
Proof.
  intros Hs [_ Hk] Ho Hc. unfold refresh_prepare, commit_unless_applied. intros Ha.
  destruct (negb (mutation_claim_matches _ _ _)); [by simplify_eq|].
  destruct slot as [a|]; cbn [entry_at put_entry] in Ha; [|by simplify_eq].
  destruct (prepare_refresh_locked (fm_slots m a) cmd) as [v [r d]] eqn:Hp.
  destruct (prepare_within l _ _ _ _ _ Hp) as [Hw Hd].
  destruct (r =? CONTROL_RESULT_APPLIED) eqn:Er; cbn [negb] in Ha; simplify_eq.
  - apply Z.eqb_eq in Er. destruct (Hd Er) as [Hv <-]. split; [by apply slots_set|].
    split; [done|]. split; [done|]. by apply (Hs (command_key cmd) a).
  - split; [|done]. eapply slots_same; [by apply (slots_set l m a v)|done..].
Qed.

Lemma refresh_complete_within l m cmd g cl slot prior at' m' p' :
  slots_within l m → cc_operation cmd = Refresh → command_within l cmd → prior ≤ l →
  refresh_complete cmd g cl slot prior at' m = (m', p') →
  slots_within l m' ∧ phase_within l p'.
Proof.
  intros Hs Ho Hc Hpr. unfold refresh_complete, commit_unless_applied. intros Ha.
  destruct (negb (mutation_claim_matches _ _ _)); [by simplify_eq|].
  destruct slot as [a|]; cbn [entry_at put_entry] in Ha; [|by simplify_eq].
  destruct (complete_refresh_locked _ _ _ _ _) as [v r] eqn:Hp.
  apply (complete_within l) in Hp; [|done].
  destruct (negb (r =? _)); simplify_eq; (split; [|done]).
  - eapply slots_same; [by apply (slots_set l m a v)|done..].
  - by apply slots_set.
Qed.

Lemma refresh_finalize_within l m cmd g cl slot prior at' m' p' :
  slots_within l m → cc_operation cmd = Refresh → command_within l cmd →
  refresh_finalize cmd g cl slot prior at' m = (m', p') →
  slots_within l m' ∧ phase_within l p'.
Proof.
  intros Hs Ho Hc. unfold refresh_finalize. intros Ha.
  destruct (negb (mutation_claim_matches _ _ _)); [by simplify_eq|].
  destruct (finalize_refresh_locked _ _ _ _ _) as [v r] eqn:Hp. simplify_eq. split; [|done].
  eapply slots_same; [apply (slots_put l m slot v Hs)|done..]. intros a w -> Hw.
  by eapply finalize_within.
Qed.

Lemma register_commit_within l m cmd g cl st slot m' p' :
  slots_within l m → register_commit cmd g cl st slot m = (m', p') →
  slots_within l m' ∧ phase_within l p'.
Proof.
  intros Hs. unfold register_commit. intros Ha.
  destruct (mutation_claim_matches _ _ _); [|by simplify_eq].
  destruct (register_phase2_locked _ _ _ _) as [[cu v] r] eqn:Hp. simplify_eq. split; [|done].
  eapply slots_same; [apply (slots_put l m slot v Hs)|done..]. intros a w -> Hw.
  by eapply register_within.
Qed.

Lemma register_insert_within l m cmd g cl ch m' p' :
  slots_within l m → register_insert cmd g cl ch m = Some (m', p') →
  slots_within l m' ∧ phase_within l p'.
Proof.
  intros Hs. unfold register_insert. intros Ha. destruct ch; repeat case_match; simplify_eq; try done.
  apply andb_true_iff in H as [_ Hf]. split; [|done]. intros k a. cbn.
  intros [[_ <-]|[_ Hk]]%lookup_insert_Some; [by rewrite fn_lookup_insert|].
  rewrite fn_lookup_insert_ne; [by eapply Hs|]. intros <-. by eapply free_slot_unlinked.
Qed.

Lemma reclaim_step_within l m cmd g cl slot m' p' :
  slots_within l m → reclaim_mark cmd g cl slot m = (m', p') →
  slots_within l m' ∧ phase_within l p'.
Proof.
  intros Hs. unfold reclaim_mark. intros Ha. destruct slot as [a|]; cbn [entry_at] in Ha.
  - destruct (negb _); [by simplify_eq|]. destruct (decode_current _); [|by simplify_eq].
    destruct (reclaim_locked _ _ _) as [v r] eqn:Hr. simplify_eq. split; [|done].
    apply slots_set; [done|]. by eapply reclaim_within.
  - repeat case_match; by simplify_eq.
Qed.

Lemma advance_within l c m p ch m' p' :
  slots_within l m → phase_ok c m p → phase_within l p → advance p ch m = Some (m', p') →
  slots_within l m' ∧ phase_within l p'.
Proof.
  intros Hs Hok Hp Ha. destruct p; try done; cbn [advance] in Ha; try apply Some_inj in Ha;
    cbn [phase_within] in Hp; destruct_and?.
  all: try (by eapply register_insert_within). all: try (by eapply register_commit_within).
  all: try (by eapply refresh_prepare_within). all: try (by eapply refresh_complete_within).
  all: try (by eapply refresh_finalize_within). all: try (by eapply reclaim_step_within).
  all: unfold gate_lookup, gate_entry, gate_clock, gate_drop, retire_lookup, retire_entry,
    register_lookup, refresh_lookup, refresh_observe, refresh_observe_again, reclaim_lookup,
    reclaim_remove, reclaim_finish, apply_lookup, apply_clock, activate_clock, view_lookup,
    view_entry, view_store, count_verdict in Ha.
  all: try (repeat case_match; simplify_eq; done).
  - repeat case_match; simplify_eq; try done. split; [|done].
    intros k' a'. cbn. intros [_ Hk]%lookup_delete_Some. by eapply Hs.
  - unfold apply_entry in Ha. destruct (negb (mutation_generation_matches _ _)); [by simplify_eq|].
    destruct (apply_entry_locked _ _ _ _) as [v r] eqn:He.
    apply (apply_within l) in He; [|done].
    repeat case_match; simplify_eq; (split; [by apply slots_set|done]).
  - unfold activate_expire in Ha. simplify_eq. split; [|done]. case_match; [|done].
    apply slots_set; [done|]. apply expire_within.
Qed.

(** ** Runs *)

(** The octets ask for no deadline beyond [limit]. *)
Definition request_within (limit : Z) (octets : bytes) : Prop :=
  ∀ c, ControlCommand_decode octets = Some c → command_within limit c.

Section Runs.
Context {Ctx : Type} `{SkBuffLaws Ctx}.

(** Every control invocation an event starts has octets in [P]. *)
Definition issues (P : bytes → Prop) (e : Event Ctx) : Prop :=
  match e with Start _ (Control ctx) => P (ctx_octets ctx) | _ => True end.

(** The system gets from [s] to [s'], with control requests in [P] only. *)
Definition leads (P : bytes → Prop) (s s' : FenceSystem) : Prop :=
  ∃ es, Forall event_ok es ∧ Forall (issues P) es ∧ run s es = Some s'.

Lemma leads_refl P s : leads P s s.
Proof. exists []. by split_and!; [apply Forall_nil_2..|]. Qed.

Lemma leads_trans P s1 s2 s3 : leads P s1 s2 → leads P s2 s3 → leads P s1 s3.
Proof.
  intros (es1 & He1 & Hi1 & Hr1) (es2 & He2 & Hi2 & Hr2). exists (es1 ++ es2).
  split_and!; [by apply Forall_app|by apply Forall_app|]. by rewrite run_app, Hr1.
Qed.

Lemma leads_mono (P Q : bytes → Prop) s s' :
  (∀ b, P b → Q b) → leads P s s' → leads Q s s'.
Proof.
  intros Hpq (es & He & Hi & Hr). exists es. split_and!; [done| |done].
  eapply Forall_impl; [done|]. intros [t [| |]| | |]; cbn; auto.
Qed.

Lemma reaches_leads P s s' :
  reaches (Ctx := Ctx) s → leads P s s' → reaches (Ctx := Ctx) s'.
Proof.
  intros (config & slots & clock & es0 & Hc & He0 & Hr0) (es & He & _ & Hr).
  exists config, slots, clock, (es0 ++ es). split_and!; [done|by apply Forall_app|].
  by rewrite run_app, Hr0.
Qed.

Lemma load_within l (ctx : Ctx) b m cmd :
  bytes_ok (ctx_octets ctx) → request_within l (ctx_octets ctx) →
  admitted_command ctx b m = Some cmd → b = false → command_within l cmd.
Proof.
  intros Hb Hq Ha ->. unfold admitted_command in Ha.
  destruct (load_control_command ctx false) as [c|] eqn:Hl; [|done].
  assert (c = cmd) as -> by (repeat case_match; by simplify_eq).
  apply control_request_exact in Hl as (Hok & _ & He); [|done]. apply Hq. rewrite He.
  by destruct (codec_length _ command_codec Hok) as (_ & _ & ?).
Qed.

Lemma start_within l (i : Invocation Ctx) t m m' p :
  slots_within l m → event_ok (Start t i) → issues (request_within l) (Start t i) →
  start i m = (m', p) → slots_within l m' ∧ phase_within l p.
Proof.
  intros Hs He Hq Ha. destruct i; cbn [start] in Ha.
  - unfold gate_start, gate_drop in Ha. cbn zeta in Ha. repeat case_match; by simplify_eq.
  - unfold control_start in Ha. destruct (admitted_command ctx false m) as [cmd|] eqn:Hc;
      [|by simplify_eq]. cbn in He, Hq. eapply load_within in Hc; [|done..].
    destruct (cc_operation cmd) eqn:Ho.
    all: unfold register_start, reclaim_start, retire_start, refresh_start, apply_start,
      reserved in Ha; repeat case_match; simplify_eq; try done; by split_and!.
  - unfold inspect_start, view_start in Ha. repeat case_match; by simplify_eq.
Qed.

Lemma exec_within l c s (e : Event Ctx) s' :
  system_ok c s → system_within l s → event_ok e → issues (request_within l) e →
  exec s e = Some s' → system_within l s'.
Proof.
  intros Hok [Hs Hp] He Hq Hx.
  assert (∀ m' t p', slots_within l m' ∧ phase_within l p' →
    system_within l (mkFenceSystem m' (<[t:=p']> (fs_running s)))) as Hgo.
  { intros m' t p' [Hm Hp']. split; [done|]. intros t' q. cbn.
    intros [[_ <-]|[_ Hq']]%lookup_insert_Some; [done|by eapply Hp]. }
  destruct e as [t i|t ch|n|a v]; cbn in Hx.
  - destruct (fs_running s !! t); [done|]. destruct (start i (fs_maps s)) as [m' p] eqn:Ha.
    injection Hx as <-. apply Hgo. by eapply (start_within l i t).
  - destruct (fs_running s !! t) as [p|] eqn:Ht; [|done].
    destruct (advance p ch (fs_maps s)) as [[m' p']|] eqn:Ha; [|done]. injection Hx as <-.
    apply Hgo. eapply (advance_within l c); [done| | |done].
    + by apply (so_phase _ _ Hok t).
    + by eapply Hp.
  - destruct (_ && _); [|done]. injection Hx as <-. by split.
  - destruct (free_slot (fs_maps s) a) eqn:Hf; [|done]. injection Hx as <-. split; [|done].
    intros k b Hb. cbn. rewrite fn_lookup_insert_ne; [by eapply Hs|].
    intros <-. by eapply free_slot_unlinked.
Qed.

Lemma run_within l c s (es : list (Event Ctx)) s' :
  system_ok c s → system_within l s → Forall event_ok es →
  Forall (issues (request_within l)) es → run s es = Some s' → system_within l s'.
Proof.
  revert c s. induction es as [|e es IH]; intros c s Hok Hw He Hq Hr; [by injection Hr as <-|].
  apply Forall_cons in He as [He Hes], Hq as [Hq Hqs]. cbn in Hr.
  destruct (exec s e) as [s1|] eqn:Hx; [|done].
  destruct (exec_ok c s e s1 Hok He Hx) as (c1 & Hok1 & _).
  eapply (IH c1 s1); [done| |done..]. by apply (exec_within l c s e).
Qed.

Lemma gate_within l s cookie token deadline :
  system_within l s → gate_open (fs_maps s) cookie token deadline → deadline ≤ l.
Proof.
  intros [Hs _] (c & slot & ep & _ & _ & _ & _ & Hk & [Hv _]%decode_entry_inv).
  specialize (Hs _ _ Hk). rewrite Hv in Hs. by apply Hs.
Qed.

Lemma initial_within l config slots clock :
  system_within l (initial_system config slots clock).
Proof. by split. Qed.

End Runs.
