(* ===== verification/FenceLifecycle.v ===== *)
(** The vocabulary of the lease-bound fence lifecycle
    ([opc-egress-fence/src/lifecycle.rs]): attachment identities, what the kernel control
    boundary reports, timing, durable evidence and errors, and the interfaces of the boot
    clock, the kernel control and the durable authority.  A duration is a [Z] of
    nanoseconds; a [NonZeroU64] is a [Z], nonzero where it enters. *)

From S2P Require Import Prelude.
From S2P Require Import SessionTypes.
From S2P Require Import FenceAbi.

(** ** Effects

    A call reads and changes some state and returns a [Result]. *)

Definition Io (S E A : Type) : Type := S → S * outcome E A.

Definition io_ret {S E A} (a : A) : Io S E A := λ s, (s, Ok a).
Definition io_bind {S E A B} (m : Io S E A) (k : A → Io S E B) : Io S E B :=
  λ s, let '(s', r) := m s in
       match r with Ok a => k a s' | Err e => (s', Err e) | Crash => (s', Crash) end.

Notation "'let!' p := c 'in' k" :=
  (io_bind c (λ p, k))
  (at level 10, p pattern, c at level 100, k at level 200,
   format "'[v' let!  p  :=  c  in '/' k ']'") : rust_scope.

(** A pure [Result] used with [?]. *)
Definition lift {S E A} (r : outcome E A) : Io S E A := λ s, (s, r).
Definition io_reads {S E A} (f : S → A) : Io S E A := λ s, (s, Ok (f s)).
Definition updates {S E} (f : S → S) : Io S E () := λ s, (f s, Ok tt).
Definition io_map_err {S E F A} (f : E → F) (m : Io S E A) : Io S F A :=
  λ s, let '(s', r) := m s in (s', map_err f r).

(** A call whose [Result] is kept as a value. *)
Definition attempt {S E F A} (m : Io S E A) : Io S F (outcome E A) :=
  λ s, let '(s', r) := m s in (s', match r with Crash => Crash | _ => Ok r end).

(** ** Attachment identities *)

Definition ATTACHMENT_IDENTITY_MAGIC : bytes := [79; 70; 65; 49].
Definition ATTACHMENT_IDENTITY_LEN : nat := 36.

Record FenceAttachmentIdentity : Type := mkFenceAttachmentIdentity { ai_digest : bytes }.
#[export] Instance FenceAttachmentIdentity_eq_dec : EqDecision FenceAttachmentIdentity.
Proof. solve_decision. Defined.

Definition nonzero_digest (digest : bytes) : bool := existsb (λ b, negb (b =? 0)) digest.

Definition FenceAttachmentIdentity_decode (encoded : bytes)
    : option FenceAttachmentIdentity :=
  if negb (at_ encoded 0 =? at_ ATTACHMENT_IDENTITY_MAGIC 0)
     || negb (at_ encoded 1 =? at_ ATTACHMENT_IDENTITY_MAGIC 1)
     || negb (at_ encoded 2 =? at_ ATTACHMENT_IDENTITY_MAGIC 2)
     || negb (at_ encoded 3 =? at_ ATTACHMENT_IDENTITY_MAGIC 3)
  then None
  else
  let digest := copy_from encoded 4 32 in
  if negb (nonzero_digest digest) then None else Some (mkFenceAttachmentIdentity digest).

Definition FenceAttachmentIdentity_encode (i : FenceAttachmentIdentity) : bytes :=
  let encoded := zeroes ATTACHMENT_IDENTITY_LEN in
  let encoded := set_ encoded 0 (at_ ATTACHMENT_IDENTITY_MAGIC 0) in
  let encoded := set_ encoded 1 (at_ ATTACHMENT_IDENTITY_MAGIC 1) in
  let encoded := set_ encoded 2 (at_ ATTACHMENT_IDENTITY_MAGIC 2) in
  let encoded := set_ encoded 3 (at_ ATTACHMENT_IDENTITY_MAGIC 3) in
  copy_at encoded 4 (ai_digest i).

Definition from_live_digest (digest : bytes) : option FenceAttachmentIdentity :=
  if nonzero_digest digest then Some (mkFenceAttachmentIdentity digest) else None.

Inductive AttachmentInventory : Type :=
  | AdoptedExact
  | AdoptedNeverActivated
  | InstalledClosedWithExactReadback.
#[export] Instance AttachmentInventory_eq_dec : EqDecision AttachmentInventory.
Proof. solve_decision. Defined.

Record AttachmentIdentity : Type := mkAttachmentIdentity {
  id_durable : FenceAttachmentIdentity;
  id_inventory : AttachmentInventory;
}.

(** ** What the kernel reports *)

Inductive KernelFailure : Type :=
  | MutationFailure
  | ReadbackFailure
  | ClockFailure.

Inductive KernelEntryState : Type :=
  | EntryInitialClosed
  | EntryActive
  | EntryTerminalClosed
  | EntryReclaiming.
#[export] Instance KernelEntryState_eq_dec : EqDecision KernelEntryState.
Proof. solve_decision. Defined.

Record KernelFenceEntry : Type := mkKernelFenceEntry {
  ke_state : KernelEntryState;
  ke_socket_cookie : Z;
  ke_lifecycle_token : Z;
  ke_deadline_boot_ns : Z;
  ke_control_epoch : Z;
}.

Inductive KernelCurrentPhase : Type :=
  | Uninitialized
  | LifecycleOpen
  | RetirementClosed.
#[export] Instance KernelCurrentPhase_eq_dec : EqDecision KernelCurrentPhase.
Proof. solve_decision. Defined.

Record KernelCurrentFence : Type := mkKernelCurrentFence {
  kf_phase : KernelCurrentPhase;
  kf_lifecycle_token : Z;
  kf_registered_socket_cookie : Z;
}.
#[export] Instance KernelCurrentFence_eq_dec : EqDecision KernelCurrentFence.
Proof. solve_decision. Defined.

Record KernelInspection : Type := mkKernelInspection {
  ki_current : KernelCurrentFence;
  ki_entry : option KernelFenceEntry;
}.

(** ** The boot clock and the kernel control

    The state of the world outside the fence is a type [W]. *)

Class BootClock (W : Type) : Type := {
  now_boot_ns : Io W KernelFailure Z;
  wait_poll : Z → Io W KernelFailure ();
}.

Class KernelControl (W : Type) : Type := {
  inspect : AttachmentIdentity → option (Z * Z) → Io W KernelFailure KernelInspection;
  publish_lifecycle : AttachmentIdentity → Z → Io W KernelFailure KernelCurrentFence;
  cleanup_superseded : AttachmentIdentity → Z → Io W KernelFailure ();
  publish_retirement : AttachmentIdentity → Z → Io W KernelFailure KernelCurrentFence;
  register_closed : AttachmentIdentity → Z → Z → Io W KernelFailure KernelFenceEntry;
  activate : AttachmentIdentity → Z → Z → Z → Z → Io W KernelFailure KernelFenceEntry;
  refresh : AttachmentIdentity → Z → Z → Z → Z → Io W KernelFailure KernelFenceEntry;
  close : AttachmentIdentity → Z → Z → Z → Io W KernelFailure KernelFenceEntry;
  reclaim : AttachmentIdentity → Z → Z → Z → Io W KernelFailure ();
}.

(** ** Errors *)

Inductive FenceError : Type :=
  | InvalidTiming
  | InvalidPriorEvidence
  | DeadlineOverflow
  | ClockUnavailable
  | OperationOverBudget
  | GateExpired
  | LeaseContinuity
  | KernelMutation
  | KernelReadback
  | FenceTerminalClosed.

Definition FenceError_code (e : FenceError) : string :=
  match e with
  | InvalidTiming => "egress_fence_invalid_timing"
  | InvalidPriorEvidence => "egress_fence_invalid_prior_evidence"
  | DeadlineOverflow => "egress_fence_deadline_overflow"
  | ClockUnavailable => "egress_fence_clock_unavailable"
  | OperationOverBudget => "egress_fence_operation_over_budget"
  | GateExpired => "egress_fence_gate_expired"
  | LeaseContinuity => "egress_fence_lease_continuity"
  | KernelMutation => "egress_fence_kernel_mutation"
  | KernelReadback => "egress_fence_kernel_readback"
  | FenceTerminalClosed => "egress_fence_terminal_closed"
  end.

(** ** Timing *)

Record LeaseFenceTiming : Type := mkLeaseFenceTiming {
  lt_ttl : Z;
  lt_safety_margin : Z;
}.

(** [u64::try_from] of a count of nanoseconds. *)
Definition u64_from (n : Z) : option Z :=
  if (0 <=? n) && (n <=? U64_MAX) then Some n else None.

Definition active_gate_lifetime_ns (t : LeaseFenceTiming) : outcome FenceError Z :=
  let? budget := ok_or (checked_sub (lt_ttl t) (lt_safety_margin t)) InvalidTiming in
  ok_or (u64_from budget) DeadlineOverflow.

Definition LeaseFenceTiming_new (ttl safety_margin : Z)
    : outcome FenceError LeaseFenceTiming :=
  if (ttl =? 0) || (safety_margin =? 0) || (ttl <=? safety_margin) || (U64_MAX <? ttl)
     || (U64_MAX <? safety_margin)
  then Err InvalidTiming
  else
  let timing := mkLeaseFenceTiming ttl safety_margin in
  let? lifetime := active_gate_lifetime_ns timing in
  if EGRESS_FENCE_MAX_GATE_LIFETIME_NS <? lifetime then Err InvalidTiming
  else Ok timing.

Definition active_gate_lifetime (t : LeaseFenceTiming) : Z :=
  default 0 (checked_sub (lt_ttl t) (lt_safety_margin t)).

Definition deadline_from (t : LeaseFenceTiming) (operation_start_boot_ns : Z)
    : outcome FenceError Z :=
  let? budget_ns := active_gate_lifetime_ns t in
  ok_or (checked_add operation_start_boot_ns budget_ns) DeadlineOverflow.

Definition DEFAULT_BOOT_POLL_INTERVAL : Z := 100000000.

Definition boot_poll_interval (t : LeaseFenceTiming) : Z :=
  Z.max 1 (Z.min DEFAULT_BOOT_POLL_INTERVAL (lt_ttl t / 4)).

(** ** Durable evidence *)

Definition validate_prior_gate_lifetime (gate_lifetime : Z) : outcome FenceError Z :=
  if (gate_lifetime =? 0) || (EGRESS_FENCE_MAX_GATE_LIFETIME_NS <? gate_lifetime)
  then Err InvalidPriorEvidence
  else ok_or (u64_from gate_lifetime) InvalidPriorEvidence.

Definition validate_lifecycle_token_pair (socket_token retirement_token : Z)
    : outcome FenceError () :=
  if (Z.land socket_token 1 =? 1)
     && bool_decide (checked_add socket_token 1 = Some retirement_token)
  then Ok tt else Err InvalidPriorEvidence.

Inductive DurablePriorFenceState : Type :=
  | FreshInstall (bootstrap_generation : Z)
  | VerifiedTerminal (attachment : FenceAttachmentIdentity)
      (socket_token retirement_token terminal_generation : Z)
  | LastAttachment (attachment : FenceAttachmentIdentity)
      (socket_token retirement_token gate_lifetime record_generation : Z)
  | UnknownAttachment.

Definition verified_terminal (attachment : FenceAttachmentIdentity)
    (socket_token retirement_token terminal_generation : Z)
    : outcome FenceError DurablePriorFenceState :=
  let? _ := validate_lifecycle_token_pair socket_token retirement_token in
  Ok (VerifiedTerminal attachment socket_token retirement_token terminal_generation).

Definition last_attachment (attachment : FenceAttachmentIdentity)
    (socket_token retirement_token gate_lifetime record_generation : Z)
    : outcome FenceError DurablePriorFenceState :=
  let? _ := validate_prior_gate_lifetime gate_lifetime in
  let? _ := validate_lifecycle_token_pair socket_token retirement_token in
  Ok (LastAttachment attachment socket_token retirement_token gate_lifetime
        record_generation).

Record FenceLeaseGrant : Type := mkFenceLeaseGrant {
  fg_guard : LeaseGuard;
  fg_socket_lifecycle_token : Z;
  fg_retirement_lifecycle_token : Z;
  fg_prior : DurablePriorFenceState;
  fg_durable_record_generation : Z;
}.

Definition from_verified_authority_transaction (guard : LeaseGuard)
    (socket_token retirement_token : Z) (prior : DurablePriorFenceState)
    (durable_record_generation : Z) : outcome FenceError FenceLeaseGrant :=
  let? _ := validate_lifecycle_token_pair socket_token retirement_token in
  Ok (mkFenceLeaseGrant guard socket_token retirement_token prior
        durable_record_generation).

Record TerminalClosureEvidence : Type := mkTerminalClosureEvidence {
  tc_attachment : FenceAttachmentIdentity;
  tc_lease_fence_token : Z;
  tc_socket_lifecycle_token : Z;
  tc_retirement_lifecycle_token : Z;
  tc_control_epoch : Z;
}.

Record PendingTerminalClosure : Type := mkPendingTerminalClosure {
  pt_attachment : FenceAttachmentIdentity;
  pt_socket_cookie : Z;
  pt_lease_fence_token : Z;
  pt_socket_lifecycle_token : Z;
  pt_retirement_lifecycle_token : Z;
  pt_control_epoch : Z;
}.

(** ** The durable authority *)

(** An awaited future completes, or the caller drops it while it is pending. *)
Inductive Awaited (A : Type) : Type :=
  | Completed (a : A)
  | Abandoned.
Arguments Completed {A} a.
Arguments Abandoned {A}.

Class EgressFenceLeaseAuthority (W E : Type) : Type := {
  authority_acquire :
    SessionKey → string → Z → FenceAttachmentIdentity → Z →
    W → W * Awaited (outcome E FenceLeaseGrant);
  authority_renew : LeaseGuard → Z → W → W * Awaited (outcome E LeaseGuard);
  release_with_terminal :
    LeaseGuard → TerminalClosureEvidence → W → W * Awaited (outcome E ());
}.
