(* ===== verification/FenceEngine.v ===== *)
(** The lease-bound fence engine ([opc-egress-fence/src/lifecycle_engine.rs]): one
    socket's gate through acquisition, renewal, preflight, terminal close and reclamation.
    An operation changes the engine's record and the world together.  Dropping the future
    of an operation while the durable authority is pending is one of its outcomes. *)

From S2P Require Import Prelude.
From S2P Require Import SessionTypes.
From S2P Require Import SessionTtl.
From S2P Require Import FenceAbi.
From S2P Require Import FenceLifecycle.

(** ** Data *)

Inductive LeaseFenceError (E : Type) : Type :=
  | AuthorityError (error : E)
  | FenceFailed (error : FenceError)
  | AuthorityWithLease (error : E) (lease : LeaseGuard)
  | FenceWithLease (error : FenceError) (lease : LeaseGuard).
Arguments AuthorityError {E} error.
Arguments FenceFailed {E} error.
Arguments AuthorityWithLease {E} error lease.
Arguments FenceWithLease {E} error lease.

Definition into_authority_error {E} (e : LeaseFenceError E)
    : outcome (LeaseFenceError E) E :=
  match e with AuthorityError error => Ok error | other => Err other end.

Definition into_unreleased_lease {E} (e : LeaseFenceError E) : option LeaseGuard :=
  match e with
  | AuthorityError _ | FenceFailed _ => None
  | AuthorityWithLease _ lease | FenceWithLease _ lease => Some lease
  end.

Definition fence_error {E} (e : LeaseFenceError E) : option FenceError :=
  match e with
  | AuthorityError _ | AuthorityWithLease _ _ => None
  | FenceFailed error | FenceWithLease error _ => Some error
  end.

Record LeaseBinding : Type := mkLeaseBinding {
  lb_key : SessionKey;
  lb_owner : string;
  lb_lease_fence_token : Z;
  lb_socket_lifecycle_token : Z;
  lb_retirement_lifecycle_token : Z;
  lb_credential_id : Z;
  lb_durable_expiry_boot_ns : Z;
}.

Definition LeaseBinding_from_guard (guard : LeaseGuard)
    (socket_token retirement_token durable_expiry_boot_ns : Z) : LeaseBinding :=
  mkLeaseBinding (lease_key guard) (lease_owner guard) (lease_fence guard) socket_token
    retirement_token (lease_credential_id guard) durable_expiry_boot_ns.

Definition binding_matches (b : LeaseBinding) (guard : LeaseGuard) : bool :=
  bool_decide (lb_key b = lease_key guard)
  && bool_decide (lb_owner b = lease_owner guard)
  && (lb_lease_fence_token b =? lease_fence guard)
  && (lb_credential_id b =? lease_credential_id guard).

(** [lf_observations] is the tracker's last observation, which a [RenewalWait] shares. *)
Record LeaseBoundFence : Type := mkLeaseBoundFence {
  lf_identity : AttachmentIdentity;
  lf_socket_cookie : Z;
  lf_socket_lifecycle_token : option Z;
  lf_retirement_lifecycle_token : option Z;
  lf_control_epoch : Z;
  lf_registered : bool;
  lf_binding : option LeaseBinding;
  lf_active_deadline_boot_ns : Z;
  lf_observations : option Z;
  lf_terminal : bool;
  lf_close_verified : bool;
  lf_reclaimed : bool;
}.

Definition set_tokens (t r : Z) (f : LeaseBoundFence) : LeaseBoundFence :=
  mkLeaseBoundFence (lf_identity f) (lf_socket_cookie f) (Some t) (Some r)
    (lf_control_epoch f) (lf_registered f) (lf_binding f) (lf_active_deadline_boot_ns f)
    (lf_observations f) (lf_terminal f) (lf_close_verified f) (lf_reclaimed f).
(** [registered = true] with the epoch of a new entry. *)
Definition set_registered (f : LeaseBoundFence) : LeaseBoundFence :=
  mkLeaseBoundFence (lf_identity f) (lf_socket_cookie f) (lf_socket_lifecycle_token f)
    (lf_retirement_lifecycle_token f) EGRESS_FENCE_INITIAL_COOKIE_EPOCH true (lf_binding f)
    (lf_active_deadline_boot_ns f) (lf_observations f) (lf_terminal f)
    (lf_close_verified f) (lf_reclaimed f).
Definition set_active (epoch : Z) (b : LeaseBinding) (deadline : Z) (f : LeaseBoundFence)
    : LeaseBoundFence :=
  mkLeaseBoundFence (lf_identity f) (lf_socket_cookie f) (lf_socket_lifecycle_token f)
    (lf_retirement_lifecycle_token f) epoch (lf_registered f) (Some b) deadline
    (lf_observations f) (lf_terminal f) (lf_close_verified f) (lf_reclaimed f).
Definition set_observed (o : option Z) (f : LeaseBoundFence) : LeaseBoundFence :=
  mkLeaseBoundFence (lf_identity f) (lf_socket_cookie f) (lf_socket_lifecycle_token f)
    (lf_retirement_lifecycle_token f) (lf_control_epoch f) (lf_registered f)
    (lf_binding f) (lf_active_deadline_boot_ns f) o (lf_terminal f) (lf_close_verified f)
    (lf_reclaimed f).
(** [terminal = true], no binding and no deadline. *)
Definition set_terminal (f : LeaseBoundFence) : LeaseBoundFence :=
  mkLeaseBoundFence (lf_identity f) (lf_socket_cookie f) (lf_socket_lifecycle_token f)
    (lf_retirement_lifecycle_token f) (lf_control_epoch f) (lf_registered f) None 0
    (lf_observations f) true (lf_close_verified f) (lf_reclaimed f).
Definition set_close_verified (epoch : Z) (f : LeaseBoundFence) : LeaseBoundFence :=
  mkLeaseBoundFence (lf_identity f) (lf_socket_cookie f) (lf_socket_lifecycle_token f)
    (lf_retirement_lifecycle_token f) epoch (lf_registered f) (lf_binding f)
    (lf_active_deadline_boot_ns f) (lf_observations f) (lf_terminal f) true
    (lf_reclaimed f).
Definition set_reclaimed (f : LeaseBoundFence) : LeaseBoundFence :=
  mkLeaseBoundFence (lf_identity f) (lf_socket_cookie f) (lf_socket_lifecycle_token f)
    (lf_retirement_lifecycle_token f) (lf_control_epoch f) (lf_registered f)
    (lf_binding f) (lf_active_deadline_boot_ns f) (lf_observations f) (lf_terminal f)
    (lf_close_verified f) true.

Definition LeaseBoundFence_from_unregistered (identity : AttachmentIdentity)
    (socket_cookie : Z) : outcome FenceError LeaseBoundFence :=
  if socket_cookie =? 0 then Err KernelReadback
  else Ok (mkLeaseBoundFence identity socket_cookie None None 0 false None 0 None false
             false false).

Definition fence_is_active (f : LeaseBoundFence) : bool :=
  bool_decide (is_Some (lf_binding f)) && negb (lf_terminal f).

(** ** Checks *)

Definition map_kernel_failure (failure : KernelFailure) : FenceError :=
  match failure with
  | MutationFailure => KernelMutation
  | ReadbackFailure => KernelReadback
  | ClockFailure => ClockUnavailable
  end.

(** [match mutation { Ok(_) => KernelReadback, Err(failure) => map_kernel_failure }]. *)
Definition readback_failure {A} (mutation : outcome KernelFailure A) : FenceError :=
  match mutation with Err failure => map_kernel_failure failure | _ => KernelReadback end.

(** [BootObservationTracker::observe]. *)
Definition observe (last : option Z) (observed : Z) : outcome FenceError (option Z) :=
  match last with
  | Some prior => if observed <? prior then Err ClockUnavailable else Ok (Some observed)
  | None => Ok (Some observed)
  end.

Definition initial_entry_matches (entry : KernelFenceEntry) (cookie token : Z) : bool :=
  bool_decide (ke_state entry = EntryInitialClosed)
  && (ke_socket_cookie entry =? cookie) && (ke_lifecycle_token entry =? token)
  && (ke_deadline_boot_ns entry =? 0)
  && (ke_control_epoch entry =? EGRESS_FENCE_INITIAL_COOKIE_EPOCH).

Definition terminal_entry_matches (entry : KernelFenceEntry) (cookie token epoch : Z)
    : bool :=
  bool_decide (ke_state entry = EntryTerminalClosed)
  && (ke_socket_cookie entry =? cookie) && (ke_lifecycle_token entry =? token)
  && (ke_deadline_boot_ns entry =? 0) && (ke_control_epoch entry =? epoch).

Definition active_entry_matches (entry : KernelFenceEntry)
    (cookie token deadline epoch : Z) : bool :=
  bool_decide (ke_state entry = EntryActive)
  && (ke_socket_cookie entry =? cookie) && (ke_lifecycle_token entry =? token)
  && (ke_deadline_boot_ns entry =? deadline) && negb (deadline =? 0)
  && (ke_control_epoch entry =? epoch).

(** [Option::is_some_and]. *)
Definition is_some_and {A} (p : A → bool) (o : option A) : bool :=
  match o with Some a => p a | None => false end.

Definition verify_entry_identity (entry : KernelFenceEntry) (cookie token : Z)
    : outcome FenceError () :=
  if (ke_socket_cookie entry =? cookie) && (ke_lifecycle_token entry =? token)
     && negb (ke_control_epoch entry =? 0)
  then Ok tt else Err KernelReadback.

Definition require_current (current : KernelCurrentFence) (phase : KernelCurrentPhase)
    (token cookie : Z) : outcome FenceError () :=
  if bool_decide (kf_phase current = phase) && (kf_lifecycle_token current =? token)
     && (kf_registered_socket_cookie current =? cookie)
  then Ok tt else Err KernelReadback.

Definition validate_current (current : KernelCurrentFence) : outcome FenceError () :=
  let canonical :=
    match kf_phase current with
    | Uninitialized =>
        (kf_lifecycle_token current =? 0) && (kf_registered_socket_cookie current =? 0)
    | LifecycleOpen => Z.land (kf_lifecycle_token current) 1 =? 1
    | RetirementClosed =>
        negb (kf_lifecycle_token current =? 0)
        && (Z.land (kf_lifecycle_token current) 1 =? 0)
        && (kf_registered_socket_cookie current =? 0)
    end in
  if canonical then Ok tt else Err KernelReadback.

Definition require_current_not_after_prior (current : KernelCurrentFence)
    (prior_retirement_token : Z) : outcome FenceError () :=
  let? _ := validate_current current in
  if (kf_lifecycle_token current <? prior_retirement_token)
     || ((kf_lifecycle_token current =? prior_retirement_token)
         && bool_decide (kf_phase current = RetirementClosed)
         && (kf_registered_socket_cookie current =? 0))
  then Ok tt else Err KernelReadback.

(** [i128::checked_sub] of two timestamps cannot overflow. *)
Definition exact_timestamp_delta_ns (later_ns earlier_ns : Z) : outcome FenceError Z :=
  ok_or (match u64_from (later_ns - earlier_ns) with
         | Some delta => if negb (delta =? 0) then Some delta else None
         | None => None
         end) LeaseContinuity.

Section Guards.
Context `{TimestampRange}.

Definition validate_guard_interval (guard : LeaseGuard) (requested_ttl : Z)
    : outcome FenceError Z :=
  let? minimum_expiry :=
    map_err (λ _, LeaseContinuity)
      (checked_session_deadline (lease_acquired_at guard) requested_ttl) in
  if lease_expires_at guard <? minimum_expiry then Err LeaseContinuity
  else exact_timestamp_delta_ns (lease_expires_at guard) (lease_acquired_at guard).

Definition validate_acquired_guard (expected_key : SessionKey) (expected_owner : string)
    (guard : LeaseGuard) (requested_ttl : Z) : outcome FenceError Z :=
  if bool_decide (lease_key guard = expected_key)
     && bool_decide (lease_owner guard = expected_owner)
     && negb (lease_fence guard =? 0) && negb (lease_credential_id guard =? 0)
     && (lease_acquired_at guard <? lease_expires_at guard)
  then validate_guard_interval guard requested_ttl
  else Err LeaseContinuity.

Definition validate_guard_continuity (current renewed : LeaseGuard) (requested_ttl : Z)
    : outcome FenceError Z :=
  if bool_decide (lease_key current = lease_key renewed)
     && bool_decide (lease_owner current = lease_owner renewed)
     && negb (lease_fence current =? 0) && (lease_fence current =? lease_fence renewed)
     && negb (lease_credential_id current =? 0)
     && (lease_credential_id current =? lease_credential_id renewed)
     && (lease_acquired_at current <=? lease_acquired_at renewed)
     && (lease_acquired_at renewed <? lease_expires_at renewed)
     && (lease_expires_at current <? lease_expires_at renewed)
  then
    let? _ := validate_guard_interval renewed requested_ttl in
    exact_timestamp_delta_ns (lease_expires_at renewed) (lease_expires_at current)
  else Err LeaseContinuity.

End Guards.

(** ** Operations *)

Section Engine.
Context {W : Type} `{BootClock W} `{KernelControl W} `{TimestampRange}.

Definition Fx (A : Type) : Type := Io (LeaseBoundFence * W) FenceError A.

Definition on_world {E A} (m : Io W E A) : Io (LeaseBoundFence * W) E A :=
  λ s, let '(w', r) := m s.2 in ((s.1, w'), r).
(** A call of the kernel control, its failure mapped. *)
Definition kernel {A} (m : Io W KernelFailure A) : Fx A :=
  io_map_err map_kernel_failure (on_world m).
Definition self {E} : Io (LeaseBoundFence * W) E LeaseBoundFence := io_reads fst.
Definition assign {E} (f : LeaseBoundFence → LeaseBoundFence)
    : Io (LeaseBoundFence * W) E () := updates (λ s, (f s.1, s.2)).
(** [if b { return Err(e) }]. *)
Definition refuse (b : bool) (e : FenceError) : Fx () :=
  lift (if b then Err e else Ok tt).

Definition observe_boot_time : Fx Z :=
  let! now := io_map_err (λ _, ClockUnavailable) (on_world now_boot_ns) in
  let! f := self in
  let! last := lift (observe (lf_observations f) now) in
  let! _ := assign (set_observed last) in
  io_ret now.

Definition inspect_current : Fx KernelCurrentFence :=
  let! f := self in
  let! inspection := kernel (inspect (lf_identity f) None) in
  let! _ := lift (validate_current (ki_current inspection)) in
  io_ret (ki_current inspection).

Definition inspect_exact (token : Z) : Fx KernelInspection :=
  let! f := self in
  let! inspection := kernel (inspect (lf_identity f) (Some (lf_socket_cookie f, token))) in
  let! _ := lift (validate_current (ki_current inspection)) in
  let! _ := lift (match ki_entry inspection with
                  | Some entry => verify_entry_identity entry (lf_socket_cookie f) token
                  | None => Ok tt
                  end) in
  io_ret inspection.

Definition socket_lifecycle_token_or_error : Fx Z :=
  let! f := self in lift (ok_or (lf_socket_lifecycle_token f) KernelReadback).
Definition retirement_lifecycle_token_or_error : Fx Z :=
  let! f := self in lift (ok_or (lf_retirement_lifecycle_token f) KernelReadback).

Definition verify_operation_budget (deadline operation_start : Z) : Fx () :=
  let! requested_lifetime := lift (ok_or (checked_sub deadline operation_start)
                                     DeadlineOverflow) in
  let! _ := refuse ((requested_lifetime =? 0)
                    || (EGRESS_FENCE_MAX_GATE_LIFETIME_NS <? requested_lifetime))
              InvalidTiming in
  let! completion := observe_boot_time in
  let! _ := refuse (completion <? operation_start) ClockUnavailable in
  refuse (deadline <=? completion) OperationOverBudget.

(** The close command and its readback. *)
Definition close_and_verify (token : Z) (current : KernelFenceEntry) : Fx () :=
  let! f := self in
  let cookie := lf_socket_cookie f in
  let! expected_epoch := lift (ok_or (checked_add (ke_control_epoch current) 1)
                                 KernelReadback) in
  let! mutation := attempt (on_world (close (lf_identity f) cookie token
                                        (ke_control_epoch current))) in
  let! inspection := inspect_exact token in
  let! _ := lift (require_current (ki_current inspection) LifecycleOpen token cookie) in
  let! readback := lift (ok_or (ki_entry inspection) KernelReadback) in
  let! _ := refuse (negb (bool_decide (ke_state readback = EntryTerminalClosed))
                    || negb (ke_socket_cookie readback =? cookie)
                    || negb (ke_lifecycle_token readback =? token)
                    || negb (ke_deadline_boot_ns readback =? 0)
                    || negb (ke_control_epoch readback =? expected_epoch))
              (readback_failure mutation) in
  assign (set_close_verified (ke_control_epoch readback)).

Definition terminal_close : Fx () :=
  let! _ := assign set_terminal in
  let! f := self in
  if negb (lf_registered f) then
    assign (λ f, set_reclaimed (set_close_verified (lf_control_epoch f) f))
  else if lf_reclaimed f || lf_close_verified f then io_ret tt
  else
  let! token := socket_lifecycle_token_or_error in
  let! inspection := inspect_exact token in
  let! _ := lift (require_current (ki_current inspection) LifecycleOpen token
                    (lf_socket_cookie f)) in
  let! current := lift (ok_or (ki_entry inspection) KernelReadback) in
  let! _ := lift (verify_entry_identity current (lf_socket_cookie f) token) in
  if bool_decide (ke_state current = EntryTerminalClosed) then
    assign (set_close_verified (ke_control_epoch current))
  else
  let! _ := refuse (bool_decide (ke_state current = EntryReclaiming)) KernelReadback in
  let! _ := refuse (negb (ke_control_epoch current =? lf_control_epoch f)) KernelReadback in
  close_and_verify token current.

(** [activation_path] without the first two validations of its arguments: what the prior
    evidence asks of the current value and of the attachment. *)
Definition prior_path (identity : AttachmentIdentity) (current : KernelCurrentFence)
    (lifecycle_token : Z) (prior : DurablePriorFenceState) (durable_record_generation : Z)
    : outcome FenceError () :=
  match prior with
  | FreshInstall bootstrap_generation =>
      if durable_record_generation <=? bootstrap_generation then Err InvalidPriorEvidence
      else
      match id_inventory identity with
      | InstalledClosedWithExactReadback | AdoptedNeverActivated =>
          require_current current Uninitialized 0 0
      | AdoptedExact => Err InvalidPriorEvidence
      end
  | VerifiedTerminal attachment prior_socket prior_retirement terminal_generation =>
      if (durable_record_generation <=? terminal_generation)
         || (lifecycle_token <=? prior_retirement)
      then Err InvalidPriorEvidence
      else
      let? _ := validate_lifecycle_token_pair prior_socket prior_retirement in
      if bool_decide (attachment = id_durable identity) then
        if negb (bool_decide (id_inventory identity = AdoptedExact))
        then Err InvalidPriorEvidence
        else require_current current RetirementClosed prior_retirement 0
      else
      match id_inventory identity with
      | InstalledClosedWithExactReadback | AdoptedNeverActivated =>
          require_current current Uninitialized 0 0
      | AdoptedExact => Err InvalidPriorEvidence
      end
  | LastAttachment attachment prior_socket prior_retirement gate_lifetime
      record_generation =>
      if (durable_record_generation <=? record_generation)
         || (lifecycle_token <=? prior_retirement)
      then Err InvalidPriorEvidence
      else
      let? _ := validate_lifecycle_token_pair prior_socket prior_retirement in
      if bool_decide (attachment = id_durable identity) then
        match id_inventory identity with
        | AdoptedExact | AdoptedNeverActivated =>
            require_current_not_after_prior current prior_retirement
        | InstalledClosedWithExactReadback => Err InvalidPriorEvidence
        end
      else
      let? _ := validate_prior_gate_lifetime gate_lifetime in
      Err InvalidPriorEvidence
  | UnknownAttachment => Err InvalidPriorEvidence
  end.

Definition activation_path (lifecycle_token retirement_token : Z)
    (prior : DurablePriorFenceState) (durable_record_generation current_gate_lifetime : Z)
    : Fx () :=
  let! _ := lift (validate_prior_gate_lifetime current_gate_lifetime) in
  let! _ := lift (validate_lifecycle_token_pair lifecycle_token retirement_token) in
  let! current := inspect_current in
  let! _ := lift (validate_current current) in
  let! _ := refuse (lifecycle_token <=? kf_lifecycle_token current) InvalidPriorEvidence in
  let! f := self in
  lift (prior_path (lf_identity f) current lifecycle_token prior
          durable_record_generation).

(** [publish_register_activate] up to the published lifecycle. *)
Definition publish_verified (token retirement_token : Z) : Fx () :=
  let! f := self in
  let! _ := refuse (lf_registered f
                    || bool_decide (is_Some (lf_socket_lifecycle_token f))
                    || bool_decide (is_Some (lf_retirement_lifecycle_token f)))
              FenceTerminalClosed in
  let! before := inspect_current in
  let! _ := refuse (token <=? kf_lifecycle_token before) KernelReadback in
  let! publish := attempt (on_world (publish_lifecycle (lf_identity f) token)) in
  let! published := inspect_current in
  let! _ := refuse (negb (kf_lifecycle_token published =? token)
                    || negb (bool_decide (kf_phase published = LifecycleOpen))
                    || negb (kf_registered_socket_cookie published =? 0))
              (readback_failure publish) in
  let! _ := kernel (cleanup_superseded (lf_identity f) token) in
  let! after := inspect_current in
  let! _ := lift (require_current after LifecycleOpen token 0) in
  assign (set_tokens token retirement_token).

(** Its registration. *)
Definition register_verified (token : Z) : Fx () :=
  let! f := self in
  let cookie := lf_socket_cookie f in
  let! register := attempt (on_world (register_closed (lf_identity f) cookie token)) in
  let returned := match register with Ok entry => Some entry | _ => None end in
  let! _ := assign (λ f, if is_some_and (λ e, initial_entry_matches e cookie token) returned
                         then set_registered f else f) in
  let! registered := inspect_exact token in
  let! _ :=
    (if is_some_and (λ e, initial_entry_matches e cookie token) (ki_entry registered)
     then assign set_registered
     else lift (Err (readback_failure register))) in
  lift (require_current (ki_current registered) LifecycleOpen token cookie).

(** The readback that an activation or a refresh ends with. *)
Definition verify_active (token deadline expected_epoch : Z)
    (mutation : outcome KernelFailure KernelFenceEntry) : Fx KernelFenceEntry :=
  let! f := self in
  let cookie := lf_socket_cookie f in
  let! inspection := inspect_exact token in
  let! active := lift (ok_or (ki_entry inspection) KernelReadback) in
  let! _ := refuse (negb (bool_decide (ke_state active = EntryActive))
                    || negb (ke_socket_cookie active =? cookie)
                    || negb (ke_lifecycle_token active =? token)
                    || negb (ke_deadline_boot_ns active =? deadline)
                    || negb (ke_control_epoch active =? expected_epoch))
              (readback_failure mutation) in
  let! _ := lift (require_current (ki_current inspection) LifecycleOpen token cookie) in
  io_ret active.

Definition publish_register_activate (guard : LeaseGuard)
    (token retirement_token deadline operation_start durable_expiry : Z) : Fx () :=
  let! _ := verify_operation_budget deadline operation_start in
  let! _ := refuse (durable_expiry <? deadline) LeaseContinuity in
  let! _ := lift (validate_lifecycle_token_pair token retirement_token) in
  let! _ := publish_verified token retirement_token in
  let! _ := register_verified token in
  let! f := self in
  let! expected_epoch := lift (ok_or (checked_add (lf_control_epoch f) 1) KernelReadback) in
  let! activation := attempt (on_world (activate (lf_identity f) (lf_socket_cookie f) token
                                          deadline (lf_control_epoch f))) in
  let! active := verify_active token deadline expected_epoch activation in
  let! _ := verify_operation_budget deadline operation_start in
  assign (set_active (ke_control_epoch active)
            (LeaseBinding_from_guard guard token retirement_token durable_expiry) deadline).

(** [binding.as_ref().filter(|binding| binding.matches(guard))]. *)
Definition matching_binding (f : LeaseBoundFence) (guard : LeaseGuard)
    : option LeaseBinding :=
  match lf_binding f with
  | Some b => if binding_matches b guard then Some b else None
  | None => None
  end.

Definition refresh_verified (renewed : LeaseGuard)
    (deadline operation_start durable_expiry : Z) : Fx () :=
  let! _ := verify_operation_budget deadline operation_start in
  let! f := self in
  let! binding := lift (ok_or (matching_binding f renewed) LeaseContinuity) in
  let token := lb_socket_lifecycle_token binding in
  let! _ := refuse ((durable_expiry <=? lb_durable_expiry_boot_ns binding)
                    || (durable_expiry <? deadline)) LeaseContinuity in
  let! before := inspect_exact token in
  let! _ := lift (require_current (ki_current before) LifecycleOpen token
                    (lf_socket_cookie f)) in
  let! _ := refuse (negb (is_some_and (λ e, active_entry_matches e (lf_socket_cookie f) token
                                              (lf_active_deadline_boot_ns f)
                                              (lf_control_epoch f)) (ki_entry before)))
              KernelReadback in
  let! expected_epoch := lift (ok_or (checked_add (lf_control_epoch f) 1) KernelReadback) in
  let! result := attempt (on_world (refresh (lf_identity f) (lf_socket_cookie f) token
                                      deadline (lf_control_epoch f))) in
  let! active := verify_active token deadline expected_epoch result in
  let! _ := verify_operation_budget deadline operation_start in
  assign (set_active (ke_control_epoch active)
            (LeaseBinding_from_guard renewed token
               (lb_retirement_lifecycle_token binding) durable_expiry) deadline).

Definition preflight_send_exact : Fx () :=
  let! f := self in
  let! _ := refuse (lf_terminal f) FenceTerminalClosed in
  let! binding := lift (ok_or (lf_binding f) FenceTerminalClosed) in
  let token := lb_socket_lifecycle_token binding in
  let! now := observe_boot_time in
  let! inspection := inspect_exact token in
  let! _ := lift (require_current (ki_current inspection) LifecycleOpen token
                    (lf_socket_cookie f)) in
  let! _ := refuse (negb (is_some_and (λ e, active_entry_matches e (lf_socket_cookie f) token
                                              (lf_active_deadline_boot_ns f)
                                              (lf_control_epoch f)) (ki_entry inspection)))
              KernelReadback in
  refuse (lf_active_deadline_boot_ns f <=? now) GateExpired.

(** [let _ = self.terminal_close()]. *)
Definition closing {E} : Io (LeaseBoundFence * W) E () :=
  λ s, ((terminal_close s).1, Ok tt).

Definition preflight_send : Fx () :=
  λ s, let '(s', r) := preflight_send_exact s in
       if is_err r then ((closing (E := FenceError) s').1, r) else (s', r).

(** *** Release *)

(** [NonZeroU64::new(v).ok_or(KernelReadback)]. *)
Definition nonzero (v : Z) : outcome FenceError Z :=
  if v =? 0 then Err KernelReadback else Ok v.

Definition prepare_release (lease : LeaseGuard) : Fx PendingTerminalClosure :=
  let! f := self in
  match matching_binding f lease with
  | None => let! _ := closing in lift (Err LeaseContinuity)
  | Some binding =>
      let token := lb_socket_lifecycle_token binding in
      let! _ := terminal_close in
      let! inspection := inspect_exact token in
      let! f := self in
      let! _ := lift (require_current (ki_current inspection) LifecycleOpen token
                        (lf_socket_cookie f)) in
      let! terminal := lift (ok_or (ki_entry inspection) KernelReadback) in
      let! _ := refuse (negb (terminal_entry_matches terminal (lf_socket_cookie f) token
                                (lf_control_epoch f))) KernelReadback in
      let! fence_token := lift (nonzero (lb_lease_fence_token binding)) in
      let! epoch := lift (nonzero (ke_control_epoch terminal)) in
      io_ret (mkPendingTerminalClosure (id_durable (lf_identity f)) (lf_socket_cookie f)
                fence_token token (lb_retirement_lifecycle_token binding) epoch)
  end.

(** The guard of [reclaim_after_socket_close], left to right with its two early
    returns. *)
Definition reclaim_refused (f : LeaseBoundFence) (pending : PendingTerminalClosure)
    : outcome FenceError bool :=
  if negb (lf_terminal f) || negb (lf_close_verified f) || lf_reclaimed f
     || negb (bool_decide (pt_attachment pending = id_durable (lf_identity f)))
     || negb (pt_socket_cookie pending =? lf_socket_cookie f)
  then Ok true
  else
  let? token := ok_or (lf_socket_lifecycle_token f) KernelReadback in
  if negb (pt_socket_lifecycle_token pending =? token) then Ok true
  else
  let? retirement_token := ok_or (lf_retirement_lifecycle_token f) KernelReadback in
  Ok (negb (pt_retirement_lifecycle_token pending =? retirement_token)
      || negb (pt_control_epoch pending =? lf_control_epoch f)).

Definition reclaim_after_socket_close (pending : PendingTerminalClosure)
    : Fx TerminalClosureEvidence :=
  let! f := self in
  let cookie := lf_socket_cookie f in
  let token := pt_socket_lifecycle_token pending in
  let retirement_token := pt_retirement_lifecycle_token pending in
  let closed_entry :=
    is_some_and (λ e, terminal_entry_matches e cookie token (pt_control_epoch pending)) in
  let! refused := lift (reclaim_refused f pending) in
  let! _ := refuse refused KernelReadback in
  let! _ := lift (validate_lifecycle_token_pair token retirement_token) in
  let! before := inspect_exact token in
  let! _ := lift (require_current (ki_current before) LifecycleOpen token cookie) in
  let! _ := refuse (negb (closed_entry (ki_entry before))) KernelReadback in
  let! publish := attempt (on_world (publish_retirement (lf_identity f) retirement_token)) in
  let! retired := inspect_exact token in
  let! _ := refuse (negb (kf_lifecycle_token (ki_current retired) =? retirement_token)
                    || negb (bool_decide (kf_phase (ki_current retired) = RetirementClosed))
                    || negb (kf_registered_socket_cookie (ki_current retired) =? 0)
                    || negb (closed_entry (ki_entry retired)))
              (readback_failure publish) in
  let! mutation := attempt (on_world (reclaim (lf_identity f) cookie token
                                        (pt_control_epoch pending))) in
  let! readback := inspect_exact token in
  let! _ := refuse (bool_decide (is_Some (ki_entry readback)))
              (readback_failure mutation) in
  let! _ := lift (require_current (ki_current readback) RetirementClosed retirement_token
                    0) in
  let! _ := assign set_reclaimed in
  io_ret (mkTerminalClosureEvidence (pt_attachment pending) (pt_lease_fence_token pending)
            token retirement_token (pt_control_epoch pending)).

(** *** Waiting for the next renewal *)

Record RenewalWait : Type := mkRenewalWait {
  rw_target_boot_ns : Z;
  rw_deadline_boot_ns : Z;
  rw_poll_interval : Z;
  rw_last_observed_boot_ns : Z;
}.

Definition renewal_wait (timing : LeaseFenceTiming) : Fx RenewalWait :=
  let! f := self in
  let! _ := refuse (negb (fence_is_active f) || (lf_active_deadline_boot_ns f =? 0))
              FenceTerminalClosed in
  let! lifetime := lift (active_gate_lifetime_ns timing) in
  let! operation_start := lift (ok_or (checked_sub (lf_active_deadline_boot_ns f) lifetime)
                                  KernelReadback) in
  let! target := lift (ok_or (checked_add operation_start (lifetime / 2))
                         DeadlineOverflow) in
  let! observed := observe_boot_time in
  if lf_active_deadline_boot_ns f <=? observed then
    let! _ := closing in lift (Err GateExpired)
  else io_ret (mkRenewalWait target (lf_active_deadline_boot_ns f)
                 (boot_poll_interval timing) observed).

(** [RenewalWait::wait]: what it returns before its next sleep, if it returns; and one
    sleep, after which the clock is observed. *)
Definition wait_ready (r : RenewalWait) : option (outcome FenceError ()) :=
  if rw_deadline_boot_ns r <=? rw_last_observed_boot_ns r then Some (Err GateExpired)
  else if rw_target_boot_ns r <=? rw_last_observed_boot_ns r then Some (Ok tt)
  else None.

Definition wait_duration (r : RenewalWait) : Z :=
  let remaining := rw_target_boot_ns r - rw_last_observed_boot_ns r in
  Z.min (rw_poll_interval r) remaining.

Definition wait_turn (r : RenewalWait) : Fx RenewalWait :=
  let! _ := kernel (wait_poll (wait_duration r)) in
  let! observed := kernel now_boot_ns in
  let! f := self in
  let! tracked := lift (observe (lf_observations f) observed) in
  let! _ := assign (set_observed tracked) in
  io_ret (mkRenewalWait (rw_target_boot_ns r) (rw_deadline_boot_ns r) (rw_poll_interval r)
            observed).

(** [None] when it still waits after [fuel] sleeps. *)
Fixpoint wait (fuel : nat) (r : RenewalWait) : Fx (option ()) :=
  match wait_ready r with
  | Some result => let! _ := lift result in io_ret (Some tt)
  | None =>
      match fuel with
      | O => io_ret None
      | S fuel => let! r := wait_turn r in wait fuel r
      end
  end.

(** *** Acquisition and renewal *)

(** How an operation ends without its guard: it returned an error, or its future was
    dropped. *)
Inductive Stopped (E : Type) : Type :=
  | Returned (error : LeaseFenceError E)
  | Dropped.
Arguments Returned {E} error.
Arguments Dropped {E}.

Definition failed {E A} (m : Fx A) : Io (LeaseBoundFence * W) (Stopped E) A :=
  io_map_err (λ e, Returned (FenceFailed e)) m.
Definition returning_lease {E A} (lease : LeaseGuard) (m : Fx A)
    : Io (LeaseBoundFence * W) (Stopped E) A :=
  io_map_err (λ e, Returned (FenceWithLease e lease)) m.
Definition await {E A} (error : E → LeaseFenceError E)
    (m : W → W * Awaited (outcome E A)) : Io (LeaseBoundFence * W) (Stopped E) A :=
  λ s, let '(w', r) := m s.2 in
       ((s.1, w'),
        match r with
        | Completed (Ok a) => Ok a
        | Completed (Err e) => Err (Returned (error e))
        | Completed Crash => Crash
        | Abandoned => Err Dropped
        end).

(** [PendingTransition]: unless it was disarmed by success, its drop closes the gate. *)
Definition pending_transition {E A} (m : Io (LeaseBoundFence * W) (Stopped E) A)
    : Io (LeaseBoundFence * W) (Stopped E) A :=
  λ s, let '(s', r) := m s in
       if is_ok r then (s', r) else ((closing (E := Stopped E) s').1, r).

Context {E : Type} `{EgressFenceLeaseAuthority W E}.

Definition now_not_before (prior : Z) : Fx Z :=
  let! now := observe_boot_time in
  let! _ := refuse (now <? prior) ClockUnavailable in
  io_ret now.

Definition acquire_pending (key : SessionKey) (owner : string) (timing : LeaseFenceTiming)
    : Io (LeaseBoundFence * W) (Stopped E) LeaseGuard :=
  let! acquisition_start := failed observe_boot_time in
  let! f := self in
  let! grant := await AuthorityError
                  (authority_acquire key owner (lt_ttl timing)
                     (id_durable (lf_identity f)) (active_gate_lifetime timing)) in
  let guard := fg_guard grant in
  let token := fg_socket_lifecycle_token grant in
  let retirement_token := fg_retirement_lifecycle_token grant in
  let! interval := returning_lease guard (lift (validate_acquired_guard key owner guard
                                             (lt_ttl timing))) in
  let! durable_expiry := returning_lease guard (lift (ok_or (checked_add acquisition_start interval)
                                                   LeaseContinuity)) in
  let! _ := returning_lease guard (lift (validate_lifecycle_token_pair token retirement_token)) in
  let! _ := returning_lease guard (now_not_before acquisition_start) in
  let! _ := returning_lease guard (activation_path token retirement_token (fg_prior grant)
                                (fg_durable_record_generation grant)
                                (active_gate_lifetime timing)) in
  let! deadline := returning_lease guard (lift (deadline_from timing acquisition_start)) in
  let! _ := returning_lease guard (refuse (durable_expiry <? deadline) LeaseContinuity) in
  let! _ := returning_lease guard (publish_register_activate guard token retirement_token deadline
                                acquisition_start durable_expiry) in
  io_ret guard.

Definition fence_acquire (key : SessionKey) (owner : string) (timing : LeaseFenceTiming)
    : Io (LeaseBoundFence * W) (Stopped E) LeaseGuard :=
  let! f := self in
  if bool_decide (is_Some (lf_binding f)) || lf_terminal f || lf_registered f
  then lift (Err (Returned (FenceFailed FenceTerminalClosed)))
  else pending_transition (acquire_pending key owner timing).

Definition renew_pending (current : LeaseGuard) (timing : LeaseFenceTiming)
    (prior_durable_expiry : Z) : Io (LeaseBoundFence * W) (Stopped E) LeaseGuard :=
  let! operation_start := returning_lease current observe_boot_time in
  let! deadline := returning_lease current (lift (deadline_from timing operation_start)) in
  let! renewed := await (λ e, AuthorityWithLease e current)
                    (authority_renew current (lt_ttl timing)) in
  let! extension := returning_lease renewed (lift (validate_guard_continuity current renewed
                                                (lt_ttl timing))) in
  let! durable_expiry := returning_lease renewed (lift (ok_or (checked_add prior_durable_expiry
                                                            extension) LeaseContinuity)) in
  let! _ := returning_lease renewed (refuse (durable_expiry <? deadline) LeaseContinuity) in
  let! _ := returning_lease renewed (refresh_verified renewed deadline operation_start
                                  durable_expiry) in
  io_ret renewed.

Definition fence_renew (current : LeaseGuard) (timing : LeaseFenceTiming)
    : Io (LeaseBoundFence * W) (Stopped E) LeaseGuard :=
  let! f := self in
  if lf_terminal f then lift (Err (Returned (FenceWithLease FenceTerminalClosed current)))
  else
  match matching_binding f current with
  | None =>
      let! _ := closing in lift (Err (Returned (FenceWithLease LeaseContinuity current)))
  | Some binding =>
      pending_transition
        (renew_pending current timing (lb_durable_expiry_boot_ns binding))
  end.

End Engine.
Arguments Returned {E} error.
Arguments Dropped {E}.
