(* ===== verification/FenceControl.v ===== *)
(** The Linux adapter of the kernel control ([opc-egress-fence/src/linux_control.rs]):
    commands run through [BPF_PROG_RUN] on the unattached control and inspection programs,
    between two checks of the installation, and inspections decoded from the octets the
    program answers with.  The program runs and the checks of the installation are the
    parameters of this file. *)

From S2P Require Import Prelude.
From S2P Require Import FenceAbi.
From S2P Require Import FenceLifecycle.

(** ** What the adapter calls *)

(** The results of [SchedClassifier::test_run], with the output buffer after the call. *)
Record TestRun : Type := mkTestRun {
  tr_return_value : Z;
  tr_data_size_out : Z;
  tr_ctx_size_out : Z;
  tr_data_out : bytes;
}.

(** [test_run] of the mutation program and of the view program on [data_in]. *)
Class ProgramRuns (W : Type) : Type := {
  mutation_test_run : bytes → W → W * option TestRun;
  view_test_run : bytes → W → W * option TestRun;
}.

Class InstallationIntegrity (W : Type) : Type := {
  integrity_verify : AttachmentIdentity → Io W KernelFailure ();
  superseded_entries :
    AttachmentIdentity → Z → Io W KernelFailure (list KernelFenceEntry);
}.

(** A [Mutex<Option<SchedClassifier>>]. *)
Inductive PrivateProgram : Type :=
  | ProgramHeld
  | ProgramDropped
  | LockPoisoned.

Record LinuxKernelControl : Type := mkLinuxKernelControl {
  lk_mutation : PrivateProgram;
  lk_view : PrivateProgram;
  lk_root_cgroup_id : Z;
}.

Definition LinuxKernelControl_new (root_cgroup_id : Z)
    : outcome KernelFailure LinuxKernelControl :=
  if root_cgroup_id =? 0 then Err ReadbackFailure
  else Ok (mkLinuxKernelControl ProgramHeld ProgramHeld root_cgroup_id).

(** ** Decoding *)

Definition decode_kernel_current (current : CurrentFenceToken)
    : outcome KernelFailure KernelCurrentFence :=
  let lifecycle_token := ct_durable_fence_token current in
  let registered_socket_cookie := ct_registered_socket_cookie current in
  let? phase :=
    if lifecycle_token =? 0 then
      if negb (registered_socket_cookie =? 0) then Err ReadbackFailure
      else Ok Uninitialized
    else if is_lifecycle_open current then Ok LifecycleOpen
    else if is_retirement_closed current then Ok RetirementClosed
    else Err ReadbackFailure in
  Ok (mkKernelCurrentFence phase lifecycle_token registered_socket_cookie).

Definition kernel_entry_state (s : FenceEntryState) : KernelEntryState :=
  match s with
  | InitialClosed => EntryInitialClosed
  | Active => EntryActive
  | TerminalClosed => EntryTerminalClosed
  | Reclaiming => EntryReclaiming
  end.

Definition decode_kernel_entry (value : FenceCookieValue) (expected : Z * Z)
    : outcome KernelFailure KernelFenceEntry :=
  let key := cv_key value in
  if negb (bool_decide ((ck_socket_cookie key, ck_durable_fence_token key) = expected))
  then Err ReadbackFailure
  else
  let entry := cv_entry value in
  Ok (mkKernelFenceEntry (kernel_entry_state (fe_state entry)) (ck_socket_cookie key)
        (ck_durable_fence_token key) (fe_deadline_boot_ns entry) (fe_control_epoch entry)).

(** ** The adapter *)

Section Adapter.
Context {W : Type} `{ProgramRuns W} `{InstallationIntegrity W} (k : LinuxKernelControl).

Definition command (operation : ControlOperation) (cookie token deadline epoch : Z)
    : outcome KernelFailure ControlCommand :=
  ok_or (ControlCommand_new operation (lk_root_cgroup_id k) cookie token deadline epoch)
    MutationFailure.

Definition private_program (p : PrivateProgram) (failure : KernelFailure)
    : outcome KernelFailure () :=
  match p with ProgramHeld => Ok tt | _ => Err failure end.

Definition verify_private_program_fds (failure : KernelFailure)
    : outcome KernelFailure () :=
  let? _ := private_program (lk_mutation k) failure in
  private_program (lk_view k) failure.

(** A [test_run] whose error is mapped. *)
Definition test_run (m : W → W * option TestRun) (failure : KernelFailure)
    : Io W KernelFailure TestRun :=
  λ w, let '(w', r) := m w in (w', ok_or r failure).

Definition mutate (identity : AttachmentIdentity) (command : ControlCommand)
    : Io W KernelFailure () :=
  let! _ := integrity_verify identity in
  let! _ := lift (verify_private_program_fds MutationFailure) in
  let input := ControlCommand_encode command in
  let! _ := lift (private_program (lk_mutation k) MutationFailure) in
  let! result := test_run (mutation_test_run input) MutationFailure in
  let! _ := lift (if negb (tr_return_value result =? CONTROL_RESULT_APPLIED)
                     || negb (tr_data_size_out result =? 48)
                     || negb (tr_ctx_size_out result =? 0)
                     || negb (bool_decide (tr_data_out result = input))
                  then Err MutationFailure else Ok tt) in
  let! _ := lift (verify_private_program_fds MutationFailure) in
  integrity_verify identity.

Definition linux_inspect (identity : AttachmentIdentity) (entry_key : option (Z * Z))
    : Io W KernelFailure KernelInspection :=
  let! _ := integrity_verify identity in
  let! _ := lift (verify_private_program_fds ReadbackFailure) in
  let '(cookie, token) := default (0, 0) entry_key in
  let! command := lift (command Inspect cookie token 0 0) in
  let! input := lift (ok_or (encode_inspect_request command) ReadbackFailure) in
  let! _ := lift (private_program (lk_view k) ReadbackFailure) in
  let! result := test_run (view_test_run input) ReadbackFailure in
  let! _ := lift (if negb (tr_return_value result =? CONTROL_RESULT_APPLIED)
                     || negb (tr_data_size_out result =? 128)
                     || negb (tr_ctx_size_out result =? 0)
                  then Err ReadbackFailure else Ok tt) in
  let! inspection := lift (ok_or (FenceInspection_decode (tr_data_out result))
                             ReadbackFailure) in
  let! _ := lift (if negb (ma_in_flight_claim (fi_mutation inspection) =? 0)
                  then Err ReadbackFailure else Ok tt) in
  let! current := lift (decode_kernel_current (fi_current inspection)) in
  let! entry := lift (match entry_key, fi_entry inspection with
                      | None, None => Ok None
                      | Some expected, Some value =>
                          map_ok Some (decode_kernel_entry value expected)
                      | Some _, None => Ok None
                      | None, Some _ => Err ReadbackFailure
                      end) in
  let! _ := lift (verify_private_program_fds ReadbackFailure) in
  let! _ := integrity_verify identity in
  io_ret (mkKernelInspection current entry).

Definition exact_entry (identity : AttachmentIdentity) (cookie token : Z)
    : Io W KernelFailure KernelFenceEntry :=
  let! inspection := linux_inspect identity (Some (cookie, token)) in
  lift (ok_or (ki_entry inspection) ReadbackFailure).

Definition exact_current (identity : AttachmentIdentity)
    : Io W KernelFailure KernelCurrentFence :=
  let! inspection := linux_inspect identity None in
  io_ret (ki_current inspection).

(** The command of an operation run by [mutate]. *)
Definition mutate_with (identity : AttachmentIdentity) (operation : ControlOperation)
    (cookie token deadline epoch : Z) : Io W KernelFailure () :=
  let! command := lift (command operation cookie token deadline epoch) in
  mutate identity command.

Definition linux_publish_lifecycle (identity : AttachmentIdentity) (token : Z)
    : Io W KernelFailure KernelCurrentFence :=
  let! _ := mutate_with identity PublishLifecycle 0 token 0 0 in exact_current identity.

Definition linux_publish_retirement (identity : AttachmentIdentity) (token : Z)
    : Io W KernelFailure KernelCurrentFence :=
  let! _ := mutate_with identity PublishRetirement 0 token 0 0 in exact_current identity.

(** One turn of the loop of [cleanup_superseded]. *)
Definition reclaim_superseded (identity : AttachmentIdentity) (token : Z)
    (entry : KernelFenceEntry) : Io W KernelFailure () :=
  let! _ := lift (if (ke_socket_cookie entry =? 0) || (ke_lifecycle_token entry =? 0)
                     || (token <=? ke_lifecycle_token entry)
                     || (ke_control_epoch entry =? 0)
                  then Err ReadbackFailure else Ok tt) in
  let! _ := mutate_with identity Reclaim (ke_socket_cookie entry) (ke_lifecycle_token entry)
              0 (ke_control_epoch entry) in
  let! inspection := linux_inspect identity
                       (Some (ke_socket_cookie entry, ke_lifecycle_token entry)) in
  lift (if bool_decide (is_Some (ki_entry inspection)) then Err ReadbackFailure
        else Ok tt).

Fixpoint reclaim_entries (identity : AttachmentIdentity) (token : Z)
    (entries : list KernelFenceEntry) : Io W KernelFailure () :=
  match entries with
  | [] => io_ret tt
  | entry :: entries =>
      let! _ := reclaim_superseded identity token entry in
      reclaim_entries identity token entries
  end.

Definition linux_cleanup_superseded (identity : AttachmentIdentity) (token : Z)
    : Io W KernelFailure () :=
  let! current := exact_current identity in
  let! _ := lift (if negb (bool_decide (kf_phase current = LifecycleOpen))
                     || negb (kf_lifecycle_token current =? token)
                     || negb (kf_registered_socket_cookie current =? 0)
                  then Err ReadbackFailure else Ok tt) in
  let! entries := superseded_entries identity token in
  let! _ := reclaim_entries identity token entries in
  let! after := exact_current identity in
  lift (if bool_decide (after = current) then Ok tt else Err ReadbackFailure).

Definition linux_register_closed (identity : AttachmentIdentity) (cookie token : Z)
    : Io W KernelFailure KernelFenceEntry :=
  let! _ := mutate_with identity Register cookie token 0 0 in
  exact_entry identity cookie token.

Definition linux_activate (identity : AttachmentIdentity)
    (cookie token deadline epoch : Z) : Io W KernelFailure KernelFenceEntry :=
  let! _ := mutate_with identity Activate cookie token deadline epoch in
  exact_entry identity cookie token.

Definition linux_refresh (identity : AttachmentIdentity)
    (cookie token deadline epoch : Z) : Io W KernelFailure KernelFenceEntry :=
  let! _ := mutate_with identity Refresh cookie token deadline epoch in
  exact_entry identity cookie token.

Definition linux_close (identity : AttachmentIdentity) (cookie token epoch : Z)
    : Io W KernelFailure KernelFenceEntry :=
  let! _ := mutate_with identity Close cookie token 0 epoch in
  exact_entry identity cookie token.

Definition linux_reclaim (identity : AttachmentIdentity) (cookie token epoch : Z)
    : Io W KernelFailure () :=
  let! _ := mutate_with identity Reclaim cookie token 0 epoch in
  let! inspection := linux_inspect identity (Some (cookie, token)) in
  lift (if bool_decide (is_Some (ki_entry inspection)) then Err ReadbackFailure
        else Ok tt).

#[local] Instance linux_kernel_control : KernelControl W := {
  inspect := linux_inspect;
  publish_lifecycle := linux_publish_lifecycle;
  cleanup_superseded := linux_cleanup_superseded;
  publish_retirement := linux_publish_retirement;
  register_closed := linux_register_closed;
  activate := linux_activate;
  refresh := linux_refresh;
  close := linux_close;
  reclaim := linux_reclaim;
}.

End Adapter.
