(* ===== verification/FenceSocket.v ===== *)
(** The fenced UDP socket ([opc-egress-fence/src/socket.rs]): the one owner of a socket
    and of its lease-bound fence, whose descriptor closes with every failure.  The
    operating system's socket is the parameter of this file. *)

From S2P Require Import Prelude.
From S2P Require Import SessionTypes.
From S2P Require Import SessionTtl.
From S2P Require Import FenceAbi.
From S2P Require Import FenceLifecycle.
From S2P Require Import FenceEngine.

(** ** Addresses *)

Inductive SocketAddr : Type :=
  | AddrV4 (ip : bytes) (port : Z)
  | AddrV6 (ip : bytes) (port flowinfo scope_id : Z).
#[export] Instance SocketAddr_eq_dec : EqDecision SocketAddr.
Proof. solve_decision. Defined.

Definition addr_port (a : SocketAddr) : Z :=
  match a with AddrV4 _ port | AddrV6 _ port _ _ => port end.
Definition ip_is_unspecified (a : SocketAddr) : bool :=
  match a with AddrV4 ip _ | AddrV6 ip _ _ _ => forallb (λ b, b =? 0) ip end.
Definition ip_is_multicast (a : SocketAddr) : bool :=
  match a with
  | AddrV4 ip _ => (224 <=? at_ ip 0) && (at_ ip 0 <=? 239)
  | AddrV6 ip _ _ _ => at_ ip 0 =? 0xff
  end.

Definition valid_protected_local_endpoint (endpoint : SocketAddr) : bool :=
  if (addr_port endpoint =? 0) || ip_is_unspecified endpoint || ip_is_multicast endpoint
  then false
  else
  match endpoint with
  | AddrV4 ip _ => negb (forallb (λ b, b =? 255) ip)
  | AddrV6 ip _ flowinfo scope_id =>
      negb (ipv4_mapped ip) && negb (link_local ip) && (scope_id =? 0) && (flowinfo =? 0)
  end.

(** ** The operating system's socket *)

Inductive SocketError : Type :=
  | PermissionDenied
  | NotConnected
  | SystemError (code : Z).

(** A future awaited under a timeout: it completed, the time ran out, or the awaiting
    future was dropped itself. *)
Inductive Timed (A : Type) : Type :=
  | InTime (a : A)
  | TimedOut
  | TimedDropped.
Arguments InTime {A} a.
Arguments TimedOut {A}.
Arguments TimedDropped {A}.

(** A received datagram: the octets written to the buffer, and its endpoints, the local one
    where it is known. *)
Record ReceivedDatagram : Type := mkReceivedDatagram {
  rd_payload : bytes;
  rd_source : SocketAddr;
  rd_local_destination : option SocketAddr;
}.

(** An owned descriptor of type [D]. *)
Class UdpSocket (W D : Type) : Type := {
  verify_fence_admission : D → bool;
  socket_local_addr : D → option SocketAddr;
  send_to_from : D → bytes → SocketAddr → SocketAddr → W → W * Timed (outcome SocketError Z);
  socket_recv : D → Io W SocketError ReceivedDatagram;
}.

Record FencedUdpSocket (D : Type) : Type := mkFencedUdpSocket {
  us_socket : option D;
  us_fence : LeaseBoundFence;
  us_protected_local_endpoint : SocketAddr;
}.
Arguments mkFencedUdpSocket {D} _ _ _.
Arguments us_socket {D} _.
Arguments us_fence {D} _.
Arguments us_protected_local_endpoint {D} _.

Inductive RetireFenceError (E : Type) : Type :=
  | RetireFence (error : FenceError) (lease : LeaseGuard)
  | RetireAuthority (error : E)
  | RetireDropped.
Arguments RetireFence {E} error lease.
Arguments RetireAuthority {E} error.
Arguments RetireDropped {E}.

Definition retire_unreleased_lease {E} (e : RetireFenceError E) : option LeaseGuard :=
  match e with RetireFence _ lease => Some lease | _ => None end.

Section Socket.
Context {W D : Type} `{UdpSocket W D} `{BootClock W} `{KernelControl W} `{TimestampRange}.

Definition Sx (E A : Type) : Type := Io (FencedUdpSocket D * W) E A.

Definition FencedUdpSocket_from_unregistered (socket : D) (fence : LeaseBoundFence)
    (endpoint : SocketAddr) : outcome FenceError (FencedUdpSocket D) :=
  if negb (valid_protected_local_endpoint endpoint) || negb (verify_fence_admission socket)
     || negb (bool_decide (socket_local_addr socket = Some endpoint))
  then Err KernelReadback
  else Ok (mkFencedUdpSocket (Some socket) fence endpoint).

Definition socket_is_active (u : FencedUdpSocket D) : bool :=
  bool_decide (is_Some (us_socket u)) && fence_is_active (us_fence u).

Definition replace_fence (f : LeaseBoundFence) (u : FencedUdpSocket D) : FencedUdpSocket D :=
  mkFencedUdpSocket (us_socket u) f (us_protected_local_endpoint u).
Definition drop_socket (u : FencedUdpSocket D) : FencedUdpSocket D :=
  mkFencedUdpSocket None (us_fence u) (us_protected_local_endpoint u).

(** A call on the owned fence. *)
Definition on_fence {E A} (m : Io (LeaseBoundFence * W) E A) : Sx E A :=
  λ s, let '((f, w'), r) := m (us_fence s.1, s.2) in ((replace_fence f s.1, w'), r).
Definition close_socket {E} : Sx E () := updates (λ s, (drop_socket s.1, s.2)).

Definition live_socket : Sx SocketError D :=
  λ s, (s, ok_or (us_socket s.1) NotConnected).

(** Only the send of the socket is awaited. *)
Definition send_to (buffer : bytes) (peer : SocketAddr)
    : FencedUdpSocket D * W → (FencedUdpSocket D * W) * Timed (outcome SocketError Z) :=
  λ s, let '(s1, preflight) := on_fence preflight_send s in
       match preflight with
       | Crash => (s1, InTime Crash)
       | Err _ => ((close_socket (E := FenceError) s1).1, InTime (Err PermissionDenied))
       | Ok _ =>
           match us_socket s1.1 with
           | None => (s1, InTime (Err NotConnected))
           | Some socket =>
               let '(w', r) := send_to_from socket buffer peer
                                 (us_protected_local_endpoint s1.1) s1.2 in
               ((s1.1, w'), r)
           end
       end.

Definition recv_from_with_destination : Sx SocketError ReceivedDatagram :=
  let! socket := live_socket in
  λ s, let '(w', r) := socket_recv socket s.2 in ((s.1, w'), r).

(** [SocketCloseOnDrop]: unless the result is a success, the socket is dropped. *)
Definition close_on_failure {E A} (m : Sx E A) : Sx E A :=
  λ s, let '(s', r) := m s in
       if is_ok r then (s', r) else ((close_socket (E := E) s').1, r).

(** [Drop], and then that of the field [fence]. *)
Definition drop_fenced_socket : Sx FenceError () :=
  let! _ := on_fence closing in
  let! _ := close_socket in
  on_fence closing.

Context {E : Type} `{EgressFenceLeaseAuthority W E}.

Definition socket_acquire (key : SessionKey) (owner : string) (timing : LeaseFenceTiming)
    : Sx (Stopped E) LeaseGuard :=
  close_on_failure (on_fence (fence_acquire key owner timing)).

Definition socket_renew (current : LeaseGuard) (timing : LeaseFenceTiming)
    : Sx (Stopped E) LeaseGuard :=
  close_on_failure (on_fence (fence_renew current timing)).

(** [close_then_release] up to the call of the authority. *)
Definition retire (lease : LeaseGuard) : Sx (RetireFenceError E) TerminalClosureEvidence :=
  let! pending :=
    (λ s, let '(s', r) := on_fence (prepare_release lease) s in
          (if is_ok r then s' else (close_socket (E := FenceError) s').1,
           map_err (λ error, RetireFence error lease) r)) in
  let! _ := close_socket in
  io_map_err (λ error, RetireFence error lease)
    (on_fence (reclaim_after_socket_close pending)).

Definition close_then_release (lease : LeaseGuard) : Sx (RetireFenceError E) () :=
  let! evidence := retire lease in
  λ s, let '(w', r) := release_with_terminal lease evidence s.2 in
       ((s.1, w'),
        match r with
        | Completed r => map_err RetireAuthority r
        | Abandoned => Err RetireDropped
        end).

End Socket.
