(* ===== verification/FenceGuardian.v ===== *)
(** The guardian of a fenced socket ([opc-egress-fence/src/guardian.rs]): the one task that
    owns the socket, acquires and renews its lease, serves the queues of the product and
    retires the socket.  The loop is a machine of small steps, one for the start of a turn
    and one for every poll of its [select!]; what the queues, the shutdown signal and the
    producers do is the parameter of this file. *)

From S2P Require Import Prelude.
From S2P Require Import SessionTypes.
From S2P Require Import SessionTtl.
From S2P Require Import FenceLifecycle.
From S2P Require Import FenceEngine.
From S2P Require Import FenceSocket.

Definition MAX_GUARDIAN_QUEUE_CAPACITY : Z := 256.

Inductive FencedUdpChannelError : Type := Capacity.

(** The capacity of both queues. *)
Definition fenced_udp_channels (capacity : Z) : outcome FencedUdpChannelError (Z * Z) :=
  if MAX_GUARDIAN_QUEUE_CAPACITY <? capacity then Err Capacity else Ok (capacity, capacity).

Definition bounded_send_budget (timing : LeaseFenceTiming) : Z :=
  Z.max 1 (Z.min (lt_safety_margin timing / 2) (lt_ttl timing / 4)).

(** ** The environment of the guardian *)

(** The flag and the three channels of a request belong to it by [rq_id]. *)
Record OutboundRequest : Type := mkOutboundRequest {
  rq_id : nat;
  rq_payload : bytes;
  rq_peer : SocketAddr;
}.

(** What ends the wait of the [select!] before the sleep of its renewal wait does; the last
    is the end of the guardian's own future. *)
Inductive Arrival : Type :=
  | ShutdownChanged (stop : bool)
  | InboundClosed
  | OutboundReceived (request : option OutboundRequest)
  | DatagramReady
  | FutureDropped.

Inductive TrySend : Type := TrySent | TryClosed | TryFull.

(** A change of the shutdown signal says whether it asks to stop, as its closure does. *)
Class GuardianPorts (W : Type) : Type := {
  shutdown_borrow : W → W * bool;
  shutdown_changed : W → W * option bool;
  next_arrival : Z → W → W * option Arrival;
  cancellation_load : OutboundRequest → W → W * bool;
  admission_send : OutboundRequest → W → W * bool;
  completion_send : OutboundRequest → outcome SocketError Z → W → W * bool;
  await_observation : OutboundRequest → Z → W → W * Timed bool;
  inbound_try_send : ReceivedDatagram → W → W * TrySend;
}.

(** ** Results *)

Inductive FencedUdpGuardianError (E : Type) : Type :=
  | Transition (error : LeaseFenceError E)
  | Receive (error : SocketError) (lease : LeaseGuard)
  | InboundBackpressure
  | SendOutcomeUnknown (lease : LeaseGuard)
  | Retirement (error : RetireFenceError E).
Arguments Transition {E} error.
Arguments Receive {E} error lease.
Arguments InboundBackpressure {E}.
Arguments SendOutcomeUnknown {E} lease.
Arguments Retirement {E} error.

Inductive GuardianStopped (E : Type) : Type :=
  | GuardianReturned (error : FencedUdpGuardianError E)
  | GuardianDropped.
Arguments GuardianReturned {E} error.
Arguments GuardianDropped {E}.

(** Where the guardian is: at the start of a turn, in its [select!], or returned. *)
Inductive GuardianAt : Type :=
  | Serving (lease : LeaseGuard)
  | Selecting (lease : LeaseGuard) (wait : RenewalWait)
  | Finished.

Section Guardian.
Context {W D : Type} `{UdpSocket W D} `{BootClock W} `{KernelControl W} `{TimestampRange}.
Context {E : Type} `{EgressFenceLeaseAuthority W E} `{GuardianPorts W}.

Definition Gx (A : Type) : Type := Io (FencedUdpSocket D * W) (GuardianStopped E) A.

Definition ports {A} (m : W → W * A) : Gx A :=
  λ s, let '(w', a) := m s.2 in ((s.1, w'), Ok a).
Definition return_error {A} (e : FencedUdpGuardianError E) : Gx A :=
  lift (Err (GuardianReturned e)).

Definition transition (e : Stopped E) : GuardianStopped E :=
  match e with
  | Returned error => GuardianReturned (Transition error)
  | Dropped => GuardianDropped
  end.
Definition retirement (e : RetireFenceError E) : GuardianStopped E :=
  match e with RetireDropped => GuardianDropped | _ => GuardianReturned (Retirement e) end.
Definition fence_transition {A} (lease : LeaseGuard)
    (m : Io (LeaseBoundFence * W) FenceError A) : Gx A :=
  io_map_err (λ error, GuardianReturned (Transition (FenceWithLease error lease)))
    (on_fence m).

(** The end of the loop. *)
Definition retire_orderly (lease : LeaseGuard) : Gx GuardianAt :=
  let! _ := io_map_err retirement (close_then_release lease) in io_ret Finished.

Definition retire_with_operational_error (lease : LeaseGuard) : Gx GuardianAt :=
  let! _ := io_map_err retirement (close_then_release lease) in
  return_error InboundBackpressure.

Definition serve_shutdown (lease : LeaseGuard) (stop : bool) : Gx GuardianAt :=
  if stop then retire_orderly lease else io_ret (Serving lease).

Definition serve_renewal (timing : LeaseFenceTiming) (lease : LeaseGuard)
    (result : outcome FenceError ()) : Gx GuardianAt :=
  let! _ := io_map_err (λ error, GuardianReturned (Transition (FenceWithLease error lease)))
              (lift result) in
  let! renewed := io_map_err transition (socket_renew lease timing) in
  io_ret (Serving renewed).

(** After the send of an admitted request. *)
Definition report_send (timing : LeaseFenceTiming) (lease : LeaseGuard)
    (request : OutboundRequest) (result : outcome SocketError Z) : Gx GuardianAt :=
  let! cancelled := ports (cancellation_load request) in
  if cancelled then return_error (SendOutcomeUnknown lease) else
  let! delivered := ports (completion_send request result) in
  if negb delivered then return_error (SendOutcomeUnknown lease) else
  let! observed := ports (await_observation request (bounded_send_budget timing)) in
  match observed with
  | InTime true =>
      let! cancelled := ports (cancellation_load request) in
      if negb cancelled then io_ret (Serving lease)
      else return_error (SendOutcomeUnknown lease)
  | InTime false | TimedOut => return_error (SendOutcomeUnknown lease)
  | TimedDropped => lift (Err GuardianDropped)
  end.

Definition serve_request (timing : LeaseFenceTiming) (lease : LeaseGuard)
    (request : OutboundRequest) : Gx GuardianAt :=
  let! cancelled := ports (cancellation_load request) in
  if cancelled then io_ret (Serving lease) else
  let! admitted := ports (admission_send request) in
  if negb admitted then io_ret (Serving lease) else
  let! cancelled := ports (cancellation_load request) in
  if cancelled then io_ret (Serving lease) else
  let! sent := (λ s, let '(s', r) := send_to (rq_payload request) (rq_peer request) s in
                     (s', Ok r)) in
  match sent with
  | InTime Crash => lift Crash
  | InTime result => report_send timing lease request result
  | TimedOut => return_error (SendOutcomeUnknown lease)
  | TimedDropped => lift (Err GuardianDropped)
  end.

Definition serve_datagram (lease : LeaseGuard) : Gx GuardianAt :=
  let! received := io_map_err (λ error, GuardianReturned (Receive error lease))
                     recv_from_with_destination in
  let! queued := ports (inbound_try_send received) in
  match queued with
  | TrySent => io_ret (Serving lease)
  | TryClosed => retire_orderly lease
  | TryFull => retire_with_operational_error lease
  end.

Definition serve_arrival (timing : LeaseFenceTiming) (lease : LeaseGuard) (arrival : Arrival)
    : Gx GuardianAt :=
  match arrival with
  | ShutdownChanged stop => serve_shutdown lease stop
  | InboundClosed | OutboundReceived None => retire_orderly lease
  | OutboundReceived (Some request) => serve_request timing lease request
  | DatagramReady => serve_datagram lease
  | FutureDropped => lift (Err GuardianDropped)
  end.

(** The branches of the [select!] in their order; when none is ready, the sleep of the
    renewal wait ends or one of the others becomes ready first. *)
Definition select_turn (timing : LeaseFenceTiming) (lease : LeaseGuard) (wait : RenewalWait)
    : Gx GuardianAt :=
  let! changed := ports shutdown_changed in
  match changed with
  | Some stop => serve_shutdown lease stop
  | None =>
      match wait_ready wait with
      | Some result => serve_renewal timing lease result
      | None =>
          let! arrival := ports (next_arrival (wait_duration wait)) in
          match arrival with
          | Some arrival => serve_arrival timing lease arrival
          | None =>
              let! wait := fence_transition lease (wait_turn wait) in
              io_ret (Selecting lease wait)
          end
      end
  end.

Definition guardian_step (timing : LeaseFenceTiming) (at_ : GuardianAt) : Gx GuardianAt :=
  match at_ with
  | Serving lease =>
      let! wait := fence_transition lease (renewal_wait timing) in
      io_ret (Selecting lease wait)
  | Selecting lease wait => select_turn timing lease wait
  | Finished => io_ret Finished
  end.

(** The loop, observed after [fuel] steps. *)
Fixpoint guardian_loop (fuel : nat) (timing : LeaseFenceTiming) (at_ : GuardianAt)
    : Gx GuardianAt :=
  match fuel with
  | O => io_ret at_
  | S fuel => let! next := guardian_step timing at_ in guardian_loop fuel timing next
  end.

(** The body of [run_fenced_udp_guardian]. *)
Definition guardian_body (fuel : nat) (key : SessionKey) (owner : string)
    (timing : LeaseFenceTiming) : Gx GuardianAt :=
  let! stop := ports shutdown_borrow in
  if stop then io_ret Finished else
  let! lease := io_map_err transition (socket_acquire key owner timing) in
  guardian_loop fuel timing (Serving lease).

Definition still_running (r : outcome (GuardianStopped E) GuardianAt) : bool :=
  match r with Ok (Serving _) | Ok (Selecting _ _) => true | _ => false end.

(** The guardian consumes its socket: it is dropped where the guardian returns. *)
Definition run_fenced_udp_guardian (fuel : nat) (key : SessionKey) (owner : string)
    (timing : LeaseFenceTiming) : Gx GuardianAt :=
  λ s, let '(s', r) := guardian_body fuel key owner timing s in
       if still_running r then (s', r) else ((drop_fenced_socket s').1, r).

End Guardian.
