(* ===== verification/FenceWorld.v ===== *)
(** The world around the userspace side of the egress fence: where the kernel's system and
    the durable lease are in it, what the calls into it promise, and that the Linux adapter
    keeps the promises of a kernel control.  Between and during the calls of one process any
    other events of the kernel may happen; the control requests of others are in
    [others]. *)

From S2P Require Import Prelude.
From S2P Require Import FenceAbi.
From S2P Require Import FenceCodec.
From S2P Require Import FencePacket.
From S2P Require Import FenceKernel.
From S2P Require Import FenceSystem.
From S2P Require Import FenceInvariant.
From S2P Require Import FenceReach.
From S2P Require Import FenceSafety.
From S2P Require Import FenceTrace.
From S2P Require Import FenceLayout.
From S2P Require Import FenceReport.
From S2P Require Import FenceBound.
From S2P Require Import FenceLifecycle.
From S2P Require Import FenceControl.

(** ** Calls *)

Lemma bind_ok {S E A B} (m : Io S E A) (k : A → Io S E B) s s' b :
  io_bind m k s = (s', Ok b) → ∃ a s1, m s = (s1, Ok a) ∧ k a s1 = (s', Ok b).
Proof. unfold io_bind. destruct (m s) as [s1 [a|e|]]; [eauto|done..]. Qed.

Lemma lift_ok {S E A} (r : outcome E A) (s s' : S) a :
  lift r s = (s', Ok a) → s' = s ∧ r = Ok a.
Proof. by intros [= -> ->]. Qed.

Lemma ok_or_ok {E A} (o : option A) (e : E) a : ok_or o e = Ok a → o = Some a.
Proof. destruct o; cbn; congruence. Qed.

Lemma unless_ok {E} (b : bool) (e : E) u : (if b then Err e else Ok tt) = Ok u → b = false.
Proof. by destruct b. Qed.

Lemma when_ok {E} (b : bool) (e : E) u : (if b then Ok tt else Err e) = Ok u → b = true.
Proof. by destruct b. Qed.

Lemma map_err_call_ok {S E F A} (f : E → F) (m : Io S E A) s s' a :
  io_map_err f m s = (s', Ok a) → m s = (s', Ok a).
Proof. unfold io_map_err. by destruct (m s) as [s1 [a'|e|]]; intros [= <- <-]. Qed.

Lemma attempt_ok {S E F A} (m : Io S E A) s s' r :
  attempt (F := F) m s = (s', Ok r) → m s = (s', r).
Proof. unfold attempt. by destruct (m s) as [s1 [a'|e|]]; intros [= <- <-]. Qed.

(** A successful call, taken apart. *)
Ltac io_inv H :=
  repeat match type of H with
  | io_bind _ _ _ = (_, Ok _) =>
      let Hm := fresh "Hc" in apply bind_ok in H as (? & ? & Hm & H)
  end;
  repeat match goal with
  | Hm : lift _ _ = (_, Ok _) |- _ => apply lift_ok in Hm as [? Hm]; subst
  | Hm : io_ret _ _ = (_, Ok _) |- _ => injection Hm as <- <-
  | Hm : ok_or _ _ = Ok _ |- _ => apply ok_or_ok in Hm
  | Hm : (if _ then Err _ else Ok tt) = Ok _ |- _ => apply unless_ok in Hm
  | Hm : (if _ then Ok tt else Err _) = Ok _ |- _ => apply when_ok in Hm
  | Hm : io_map_err _ _ _ = (_, Ok _) |- _ => apply map_err_call_ok in Hm
  | Hm : attempt _ _ = (_, Ok _) |- _ => apply attempt_ok in Hm
  | u : () |- _ => destruct u
  end.

(** Whatever a call returns, it takes the state from one to another related by [R]. *)
Definition keeps {S E A} (R : S → S → Prop) (m : Io S E A) : Prop := ∀ s, R s (m s).1.

Section Keeps.
Context {S : Type} (R : S → S → Prop) `{PreOrder S R}.

Lemma keeps_bind {E A B} (m : Io S E A) (k : A → Io S E B) :
  keeps R m → (∀ a, keeps R (k a)) → keeps R (io_bind m k).
Proof.
  intros Hm Hk s. specialize (Hm s). unfold io_bind. destruct (m s) as [s1 [a|e|]]; [|done..].
  cbn in Hm. etransitivity; [done|apply Hk].
Qed.

Lemma keeps_lift {E A} (r : outcome E A) : keeps R (lift r).
Proof. intros s. cbn. reflexivity. Qed.

Lemma keeps_lift_bind {E A B} (r : outcome E A) (k : A → Io S E B) :
  (∀ a, r = Ok a → keeps R (k a)) → keeps R (io_bind (lift r) k).
Proof. intros Hk s. destruct r as [a|e|]; [by apply Hk|cbn; reflexivity..]. Qed.

Lemma keeps_ret {E A} (a : A) : keeps R (io_ret (E := E) a).
Proof. intros s. cbn. reflexivity. Qed.

Lemma keeps_reads {E A} (f : S → A) : keeps R (io_reads (E := E) f).
Proof. intros s. cbn. reflexivity. Qed.

Lemma keeps_map_err {E F A} (f : E → F) (m : Io S E A) :
  keeps R m → keeps R (io_map_err f m).
Proof. intros Hm s. specialize (Hm s). unfold io_map_err. by destruct (m s). Qed.

Lemma keeps_attempt {E F A} (m : Io S E A) : keeps R m → keeps R (attempt (F := F) m).
Proof. intros Hm s. specialize (Hm s). unfold attempt. by destruct (m s). Qed.

End Keeps.

Lemma keeps_at {S E A} (R : S → S → Prop) (m : Io S E A) s : keeps R m → R s (m s).1.
Proof. intros Hm. apply Hm. Qed.

(** The call by call argument. *)
Ltac keep :=
  repeat lazymatch goal with
  | |- keeps _ (io_bind (lift _) _) => refine (keeps_lift_bind _ _ _ _); intros ? ?
  | |- keeps _ (io_bind _ _) => refine (keeps_bind _ _ _ _ _); [|intros ?]
  | |- keeps _ (lift _) => refine (keeps_lift _ _)
  | |- keeps _ (io_ret _) => refine (keeps_ret _ _)
  | |- keeps _ (io_reads _) => refine (keeps_reads _ _)
  | |- keeps _ (io_map_err _ _) => refine (keeps_map_err _ _ _ _)
  | |- keeps _ (attempt _) => refine (keeps_attempt _ _ _)
  | |- keeps _ (if ?b then _ else _) => destruct b
  end.

(** ** Where the kernel and the lease are *)

(** [lease_until] is the boot time until which the durable authority has promised that no
    one else holds the lease. *)
Class FenceWorld (W : Type) : Type := {
  kernel_system : W → FenceSystem;
  lease_until : W → Z;
}.

(** What an inspection of the kernel with [key] shows of the maps. *)
Definition observes (m : FenceMaps) (key : option (Z * Z)) (i : KernelInspection) : Prop :=
  (∃ c, decode_current (fm_current m) = Some c
        ∧ decode_kernel_current c = Ok (ki_current i))
  ∧ ki_entry i
    = match key with
      | None => None
      | Some (cookie, token) =>
          match fm_cookies m !! cookie_key cookie token with
          | None => None
          | Some slot =>
              match decode_entry (fm_slots m slot) (cookie_key cookie token) with
              | None => None
              | Some e =>
                  Some (mkKernelFenceEntry (kernel_entry_state (fe_state e)) cookie token
                          (fe_deadline_boot_ns e) (fe_control_epoch e))
              end
          end
      end.

(** A socket cookie and a token as the code's types have them. *)
Definition key_typed (key : option (Z * Z)) : Prop :=
  match key with
  | None => True
  | Some (cookie, token) => u64 cookie ∧ cookie ≠ 0 ∧ u64 token
  end.

Section World.
Context {Ctx : Type} `{SkBuffLaws Ctx} {W : Type} `{FenceWorld W}.
Context (others : bytes → Prop).

Definition system_clock (w : W) : Z := fm_clock (fs_maps (kernel_system w)).

(** From [w] to [w'], with the control requests in [P] only, and without taking back a
    promise of the lease. *)
Definition moves (P : bytes → Prop) (w w' : W) : Prop :=
  lease_until w ≤ lease_until w'
  ∧ leads (Ctx := Ctx) P (kernel_system w) (kernel_system w').

#[export] Instance moves_preorder P : PreOrder (moves P).
Proof.
  split.
  - intros w. split; [done|apply leads_refl].
  - intros w1 w2 w3 [Hl1 Hm1] [Hl2 Hm2]. split; [lia|by eapply leads_trans].
Qed.

Lemma moves_mono (P Q : bytes → Prop) w w' :
  (∀ b, P b → Q b) → moves P w w' → moves Q w w'.
Proof. intros Hpq [Hl Hm]. split; [done|by eapply leads_mono]. Qed.

Lemma moves_clock P w w' :
  reaches (Ctx := Ctx) (kernel_system w) → moves P w w' → system_clock w ≤ system_clock w'.
Proof.
  intros [c Hs]%reaches_ok [_ (es & He & _ & Hr)].
  destruct (run_ok c _ es _ Hs He Hr) as (c' & _ & Hi). apply (if_clock _ _ _ _ Hi).
Qed.

(** Requests of others, and those that open nothing; those that open until [limit]. *)
Definition calm (b : bytes) : Prop := others b ∨ ∀ limit, request_within limit b.
Definition until (limit : Z) (b : bytes) : Prop := others b ∨ request_within limit b.

(** *** The promises *)

Class ClockLaws `{BootClock W} : Prop := {
  now_moves w : moves others w (now_boot_ns w).1;
  now_reads w w' now :
    now_boot_ns w = (w', Ok now) → system_clock w ≤ now ≤ system_clock w';
  wait_moves d w : moves others w (wait_poll d w).1;
  wait_waits d w w' :
    wait_poll d w = (w', Ok tt) → system_clock w + d ≤ system_clock w';
}.

(** The kernel control: every call is made of kernel events, only [activate] and [refresh]
    ask for a deadline, and an inspection shows the maps at one moment of the call. *)
Class KernelControlLaws `{KernelControl W} : Prop := {
  inspect_moves id key w : moves calm w (inspect id key w).1;
  inspect_reports id key w w' i :
    reaches (Ctx := Ctx) (kernel_system w) → key_typed key →
    inspect id key w = (w', Ok i) →
    ∃ s, leads (Ctx := Ctx) calm (kernel_system w) s
       ∧ leads (Ctx := Ctx) calm s (kernel_system w')
       ∧ observes (fs_maps s) key i;
  publish_lifecycle_moves id t w : moves calm w (publish_lifecycle id t w).1;
  cleanup_superseded_moves id t w : moves calm w (cleanup_superseded id t w).1;
  publish_retirement_moves id t w : moves calm w (publish_retirement id t w).1;
  register_closed_moves id c t w : moves calm w (register_closed id c t w).1;
  activate_moves id c t d e w : 0 ≤ d → moves (until d) w (activate id c t d e w).1;
  refresh_moves id c t d e w : 0 ≤ d → moves (until d) w (refresh id c t d e w).1;
  close_moves id c t e w : moves calm w (close id c t e w).1;
  reclaim_moves id c t e w : moves calm w (reclaim id c t e w).1;
}.

(** [BPF_PROG_RUN]: one invocation of the program on the octets given, which runs while
    the call lasts, and of which the call returns the result and the octets as the program
    left them. *)
Class ProgramRunsLaws `{ProgramRuns W} : Prop := {
  mutation_run input w :
    bytes_ok input → moves (λ b, others b ∨ b = input) w (mutation_test_run input w).1;
  view_run input w : bytes_ok input → moves others w (view_test_run input w).1;
  view_reports input w w' r :
    bytes_ok input → view_test_run input w = (w', Some r) →
    ∃ es t ctx response,
      Forall event_ok es ∧ Forall (issues others) es
      ∧ run (kernel_system w) es = Some (kernel_system w')
      ∧ fs_running (kernel_system w) !! t = None
      ∧ Start t (View ctx) ∈ es ∧ ctx_octets (Ctx := Ctx) ctx = input
      ∧ fs_running (kernel_system w') !! t = Some (ViewDone (tr_return_value r) response)
      ∧ tr_data_out r = match response with Some o => output_octets o | None => input end;
}.

Class IntegrityLaws `{InstallationIntegrity W} : Prop := {
  verify_moves id w : moves others w (integrity_verify id w).1;
  superseded_moves id t w : moves others w (superseded_entries id t w).1;
}.

End World.

(** ** Requests *)

Lemma to_le_wrap n v : to_le_bytes n v = to_le_bytes n (v mod 256 ^ Z.of_nat n).
Proof.
  revert v. induction n as [|n IH]; intros v; [done|].
  rewrite Nat2Z.inj_succ, Z.pow_succ_r by lia. cbn [to_le_bytes].
  assert (0 < 256 ^ Z.of_nat n) by (apply Z.pow_pos_nonneg; lia).
  rewrite (Z.rem_mul_r v 256) by lia. f_equal.
  - by rewrite (Z.mul_comm 256), Z.mod_add, Z.mod_mod by lia.
  - rewrite IH, (IH (_ / 256)). f_equal.
    rewrite (Z.mul_comm 256), Z.div_add, (Z.div_small (v mod 256)) by (lia || by apply Z.mod_pos_bound).
    by rewrite Z.add_0_l, Z.mod_mod by lia.
Qed.

Lemma words_wrap ws : words ws = words ((λ w, w mod 18446744073709551616) <$> ws).
Proof.
  induction ws as [|w ws IH]; [done|]. unfold words in *.
  cbn [fmap list_fmap concat]. rewrite IH. f_equal. apply to_le_wrap.
Qed.

(** A command's octets are octets, and what they decode to is the command itself up to the
    width of its fields. *)
Lemma command_octets c : bytes_ok (ControlCommand_encode c) ∧ length (ControlCommand_encode c) = 48%nat.
Proof.
  destruct c as [o r c t d e]. rewrite command_layout. split; [|done].
  apply app_ok; [|apply words_ok]. by octets.
Qed.

Lemma command_redecoded c c' :
  ControlCommand_decode (ControlCommand_encode c) = Some c' →
  cc_operation c' = cc_operation c
  ∧ (0 ≤ cc_deadline_boot_ns c → cc_deadline_boot_ns c' ≤ cc_deadline_boot_ns c).
Proof.
  destruct c as [o r c t d e]. rewrite command_layout, words_wrap. cbn [fmap list_fmap].
  assert (∀ v, u64 (v mod 18446744073709551616)) as Hu.
  { intros v. pose proof (Z.mod_pos_bound v 18446744073709551616). unfold u64, U64_MAX. lia. }
  rewrite command_read by done. intros ->%command_new_inv. cbn. split; [done|].
  intros. by apply Z.mod_le.
Qed.

Lemma request_until c limit :
  0 ≤ cc_deadline_boot_ns c → cc_deadline_boot_ns c ≤ limit →
  request_within limit (ControlCommand_encode c).
Proof.
  intros Hd Hl c' [Ho Hd']%command_redecoded _. specialize (Hd' Hd). lia.
Qed.

Lemma request_calm c limit :
  cc_operation c ≠ Activate → cc_operation c ≠ Refresh →
  request_within limit (ControlCommand_encode c).
Proof. intros Ha Hr c' [Ho _]%command_redecoded. rewrite <-Ho in *. by intros [?|?]. Qed.

(** ** The Linux adapter *)

Section Linux.
Context {Ctx : Type} `{SkBuffLaws Ctx} {W : Type} `{FenceWorld W}.
Context (others : bytes → Prop) `{ProgramRuns W} `{InstallationIntegrity W}.
Context `{!ProgramRunsLaws (Ctx := Ctx) others} `{!IntegrityLaws (Ctx := Ctx) others}.
Context (k : LinuxKernelControl).

Lemma others_calm w w' : moves (Ctx := Ctx) others w w' → moves (Ctx := Ctx) (calm others) w w'.
Proof. apply moves_mono. by left. Qed.

Lemma verify_keeps P id :
  (∀ b, others b → P b) → keeps (moves (Ctx := Ctx) P) (integrity_verify id).
Proof. intros HP w. eapply moves_mono; [exact HP|]. apply (verify_moves others). Qed.

Lemma test_run_keeps P (m : W → W * option TestRun) failure :
  (∀ w, moves (Ctx := Ctx) P w (m w).1) → keeps (moves (Ctx := Ctx) P) (test_run m failure).
Proof. intros Hm w. specialize (Hm w). unfold test_run. by destruct (m w). Qed.

Lemma mutate_keeps P id c :
  (∀ b, others b → P b) → P (ControlCommand_encode c) →
  keeps (moves (Ctx := Ctx) P) (mutate k id c).
Proof.
  intros HP Hc. unfold mutate. keep; try by apply verify_keeps.
  apply test_run_keeps. intros w. eapply moves_mono; [|apply (mutation_run others), command_octets].
  by intros b [Hb| ->]; [apply HP|].
Qed.

Lemma mutate_with_keeps P id o c t d e :
  (∀ b, others b → P b) →
  (∀ cmd, cc_operation cmd = o → cc_deadline_boot_ns cmd = d → P (ControlCommand_encode cmd)) →
  keeps (moves (Ctx := Ctx) P) (mutate_with k id o c t d e).
Proof.
  intros HP Hc w. unfold mutate_with, io_bind, lift, command, ControlCommand_new.
  destruct (_ || _); cbn [ok_or]; [reflexivity|]. apply mutate_keeps; [done|]. by apply Hc.
Qed.

Lemma inspect_request_octets c b : encode_inspect_request c = Some b → bytes_ok b.
Proof.
  unfold encode_inspect_request. destruct (negb _); [done|]. intros <-%Some_inj.
  destruct (command_octets c) as [Hb Hl]. change (zeroes 128) with ([] ++ zeroes 48 ++ zeroes 80).
  rewrite copy_at_mid by done. cbn [app]. apply app_ok; [done|]. by octets.
Qed.

Lemma linux_inspect_keeps P id key :
  (∀ b, others b → P b) → keeps (moves (Ctx := Ctx) P) (linux_inspect k id key).
Proof.
  intros HP. unfold linux_inspect. destruct (default (0, 0) key) as [cookie token].
  keep; try by apply verify_keeps. apply test_run_keeps. intros w.
  eapply moves_mono; [exact HP|]. apply (view_run others).
  eapply inspect_request_octets. by eapply ok_or_ok.
Qed.

Lemma exact_entry_keeps P id cookie token :
  (∀ b, others b → P b) → keeps (moves (Ctx := Ctx) P) (exact_entry k id cookie token).
Proof. intros HP. unfold exact_entry. keep. by apply linux_inspect_keeps. Qed.

Lemma exact_current_keeps P id :
  (∀ b, others b → P b) → keeps (moves (Ctx := Ctx) P) (exact_current k id).
Proof. intros HP. unfold exact_current. keep. by apply linux_inspect_keeps. Qed.

(** Operations that ask for no deadline, and those that do. *)
Lemma mutate_calm id o c t d e :
  o ≠ Activate → o ≠ Refresh →
  keeps (moves (Ctx := Ctx) (calm others)) (mutate_with k id o c t d e).
Proof.
  intros Ha Hr. apply mutate_with_keeps; [by left|]. intros cmd <- _. right. intros l.
  by apply request_calm.
Qed.

Lemma mutate_until id o c t d e :
  0 ≤ d → keeps (moves (Ctx := Ctx) (until others d)) (mutate_with k id o c t d e).
Proof.
  intros Hd. apply mutate_with_keeps; [by left|]. intros cmd _ <-. right. by apply request_until.
Qed.

Lemma reclaim_entries_keeps id token entries :
  keeps (moves (Ctx := Ctx) (calm others)) (reclaim_entries k id token entries).
Proof.
  induction entries as [|e es IH]; cbn [reclaim_entries]; unfold reclaim_superseded; keep.
  - by apply mutate_calm.
  - apply linux_inspect_keeps. by left.
  - apply IH.
Qed.

(** ** What an inspection shows *)

Lemma running_kept s (es : list (Event Ctx)) s' t p :
  run s es = Some s' → fs_running s !! t = Some p → is_Some (fs_running s' !! t).
Proof.
  revert s p. induction es as [|e es IH]; intros s p Hr Ht; [injection Hr as <-; by eexists|].
  cbn in Hr. destruct (exec s e) as [s1|] eqn:Hx; [|done].
  assert (is_Some (fs_running s1 !! t)) as [q Hq]; [|by eapply IH].
  destruct e as [t' i|t' ch|n|a v]; cbn in Hx.
  - destruct (fs_running s !! t') eqn:E; [done|]. destruct (start i _). injection Hx as <-. cbn.
    rewrite lookup_insert_ne by congruence. by eexists.
  - destruct (fs_running s !! t') as [q|] eqn:E; [|done]. destruct (advance q ch _) as [[]|]; [|done].
    injection Hx as <-. cbn. destruct (decide (t' = t)) as [->|];
      [rewrite lookup_insert_eq; by eexists|rewrite lookup_insert_ne by done; by eexists].
  - destruct (_ && _); [|done]. injection Hx as <-. by eexists.
  - destruct (free_slot _ _); [|done]. injection Hx as <-. by eexists.
Qed.

(** An invocation is started once. *)
Lemma started_once s (es : list (Event Ctx)) s' t i j :
  run s es = Some s' → Start t i ∈ es → Start t j ∈ es → i = j.
Proof.
  assert (∀ s1 (es1 : list (Event Ctx)) s2 p, run s1 es1 = Some s2 → fs_running s1 !! t = Some p →
    ∀ i, Start t i ∉ es1) as Hno.
  { intros s1 es1 s2 p Hr Hp i' (l1 & l2 & ->)%list_elem_of_split. rewrite run_app in Hr.
    destruct (run s1 l1) as [sm|] eqn:Hl; [|done]. destruct (running_kept _ _ _ _ _ Hl Hp) as [q Hq].
    cbn in Hr. by rewrite Hq in Hr. }
  revert s. induction es as [|e es IH]; intros s Hr Hi Hj; [by apply not_elem_of_nil in Hi|].
  cbn in Hr. destruct (exec s e) as [s1|] eqn:Hx; [|done].
  apply elem_of_cons in Hi as [Hi|Hi], Hj as [Hj|Hj]; [by simplify_eq| | |by eapply IH].
  all: subst e; cbn in Hx; destruct (fs_running s !! t); [done|]; destruct (start _ _);
    injection Hx as <-; exfalso; eapply Hno; [exact Hr|cbn; apply lookup_insert_eq|done].
Qed.
(** An inspection started in a run shows a moment of this run. *)
Lemma view_shows s (es : list (Event Ctx)) s' t ctx cmd response :
  reaches (Ctx := Ctx) s → Forall event_ok es → Forall (issues others) es →
  run s es = Some s' → fs_running s !! t = None → Start t (View ctx) ∈ es →
  load_control_command ctx true = Some cmd →
  fs_running s' !! t = Some (ViewDone CONTROL_RESULT_APPLIED response) →
  ∃ o s1 i, response = Some o
    ∧ leads (Ctx := Ctx) others s s1 ∧ leads (Ctx := Ctx) others s1 s'
    ∧ FenceInspection_decode (output_octets o) = Some i ∧ reports (fs_maps s1) cmd i.
Proof.
  intros (config & slots & clock & es0 & Hc & He0 & Hr0) He Hi Hr Hn Hin Hl Ht.
  assert (run (initial_system config slots clock) (es0 ++ es) = Some s') as Hr'
    by (by rewrite run_app, Hr0).
  pose proof (view_run_traced _ _ _ _ t _ (initial_ok config slots clock Hc) eq_refl
    (Forall_app_2 _ _ _ He0 He) Hr' Ht) as Htr.
  destruct response as [o|]; [|done]. destruct Htr as (_ & cmd' & s1 & i & g & sl & Ha & Hp & Hrun & Hd & Hrep).
  exists o, s1, i. split; [done|]. destruct Ha as (ctx' & Hin' & Hl').
  assert (ctx' = ctx) as ->.
  { assert (Start t (View ctx) ∈ es0 ++ es) as Hin2 by (apply elem_of_app; by right).
    pose proof (started_once _ _ _ _ _ _ Hr' Hin' Hin2) as E. by injection E. }
  rewrite Hl in Hl'. injection Hl' as <-. destruct Hp as (es1 & es2 & Happ & Hr1).
  destruct (app_eq_inv _ _ _ _ Happ) as [(l & -> & ->)|(l & -> & ->)].
  - exfalso. rewrite run_app, Hr1 in Hr0. destruct (running_kept _ _ _ _ _ Hr0 Hrun) as [q Hq].
    by rewrite Hq in Hn.
  - rewrite run_app, Hr0 in Hr1. apply Forall_app in He as [He1 He2], Hi as [Hi1 Hi2].
    rewrite run_app, Hr1 in Hr. split_and!; [by exists l|by exists es2|done|done].
Qed.

Lemma reports_observes m cmd ins key current entry :
  reports m cmd ins → key_typed key →
  (cc_socket_cookie cmd, cc_durable_fence_token cmd) = default (0, 0) key →
  decode_kernel_current (fi_current ins) = Ok current →
  match key, fi_entry ins with
  | None, None => Ok None
  | Some expected, Some value => map_ok Some (decode_kernel_entry value expected)
  | Some _, None => Ok None
  | None, Some _ => Err ReadbackFailure
  end = Ok entry →
  observes m key (mkKernelInspection current entry).
Proof.
  intros (Hc & _ & _ & He) Hk Hcmd Hd Hm. split; [by exists (fi_current ins)|]. cbn [ki_entry].
  destruct key as [[cookie token]|]; [|destruct (fi_entry ins); by simplify_eq].
  cbn in Hcmd, Hk. injection Hcmd as Hck Htk. destruct Hk as (_ & Hz & _). rewrite He in Hm.
  unfold linked_entry, command_key in Hm. rewrite Hck, Htk in Hm.
  rewrite (proj2 (Z.eqb_neq _ _) Hz) in Hm.
  destruct (fm_cookies m !! cookie_key cookie token) as [slot|]; [|by injection Hm as <-].
  destruct (decode_entry _ _) as [e|]; [|by injection Hm as <-].
  unfold decode_kernel_entry in Hm. cbn in Hm. rewrite bool_decide_true in Hm by done.
  by injection Hm as <-.
Qed.

Lemma linux_inspect_shows id key w w' i :
  u64 (lk_root_cgroup_id k) → reaches (Ctx := Ctx) (kernel_system w) → key_typed key →
  linux_inspect k id key w = (w', Ok i) →
  ∃ s, leads (Ctx := Ctx) others (kernel_system w) s
     ∧ leads (Ctx := Ctx) others s (kernel_system w')
     ∧ observes (fs_maps s) key i.
Proof.
  intros Hroot Hw Hk Hi. unfold linux_inspect in Hi.
  destruct (default (0, 0) key) as [cookie token] eqn:Ek. io_inv Hi.
  rename x0 into w1, x3 into cmd, x5 into input, x9 into r, x10 into w2, x13 into ins.
  pose proof (verify_moves others id w) as [_ Hm1]. rewrite Hc in Hm1. cbn in Hm1.
  pose proof (verify_moves others id w2) as [_ Hm3]. rewrite Hc11 in Hm3. cbn in Hm3.
  assert (command_ok cmd ∧ cc_operation cmd = Inspect
    ∧ (cc_socket_cookie cmd, cc_durable_fence_token cmd) = (cookie, token)) as (Hcmd & Hop & Hkey).
  { unfold command in Hc1. apply ok_or_ok in Hc1.
    pose proof (command_new_inv _ _ _ _ _ _ _ Hc1) as ->. split_and!; try done.
    all: destruct key as [[]|]; cbn in Ek, Hk; simplify_eq; try done; by destruct_and!. }
  unfold test_run in Hc4. destruct (view_test_run input w1) as [w2' [r'|]] eqn:Hv; [|done].
  injection Hc4 as -> ->. apply orb_false_iff in Hc5 as [[Hret _]%orb_false_iff _].
  apply negb_false_iff, Z.eqb_eq in Hret.
  destruct (view_reports others input w1 w2 r) as (es & t & ctx & resp & He & Hi & Hr & Hn & Hin & Ho & Ht & Hd);
    [by eapply inspect_request_octets|done|].
  rewrite Hret in Ht.
  destruct (view_shows (kernel_system w1) es (kernel_system w2) t ctx cmd resp)
    as (o & s1 & i & -> & Hl1 & Hl2 & Hdec & Hrep); try done.
  { by eapply reaches_leads. }
  { apply inspect_request_exact; [rewrite Ho; by eapply inspect_request_octets|].
    split; [done|]. by rewrite Hc2, Ho. }
  change (tr_data_out r = output_octets o) in Hd. rewrite Hd, Hdec in Hc6. injection Hc6 as ->. exists s1. split_and!.
  - by eapply leads_trans.
  - by eapply leads_trans.
  - eapply reports_observes; [done|done|by rewrite Ek|done|done].
Qed.

(** The adapter keeps the promises of a kernel control. *)
Lemma linux_control_laws :
  u64 (lk_root_cgroup_id k) →
  KernelControlLaws (Ctx := Ctx) others (H2 := linux_kernel_control k).
Proof.
  intros Hroot. assert (∀ b, others b → calm others b) as Hcalm by (by left).
  split; cbn; intros.
  - by apply linux_inspect_keeps.
  - destruct (linux_inspect_shows id key w w' i) as (s & Hl1 & Hl2 & Ho); try done.
    exists s. split_and!; [by eapply leads_mono..|done].
  - apply keeps_at. unfold linux_publish_lifecycle. keep; [by apply mutate_calm|].
    by apply exact_current_keeps.
  - apply keeps_at. unfold linux_cleanup_superseded. keep; try by apply exact_current_keeps.
    + intros w1. apply others_calm, superseded_moves, _.
    + apply reclaim_entries_keeps.
  - apply keeps_at. unfold linux_publish_retirement. keep; [by apply mutate_calm|].
    by apply exact_current_keeps.
  - apply keeps_at. unfold linux_register_closed. keep; [by apply mutate_calm|].
    by apply exact_entry_keeps.
  - apply keeps_at. unfold linux_activate. keep; [by apply mutate_until|].
    apply exact_entry_keeps. by left.
  - apply keeps_at. unfold linux_refresh. keep; [by apply mutate_until|].
    apply exact_entry_keeps. by left.
  - apply keeps_at. unfold linux_close. keep; [by apply mutate_calm|].
    by apply exact_entry_keeps.
  - apply keeps_at. unfold linux_reclaim. keep; [by apply mutate_calm|].
    by apply linux_inspect_keeps.
Qed.

End Linux.
