(* ===== verification/FenceClient.v ===== *)
(** The lease-bound fence engine on top of the kernel: the invariant of an engine and the
    kernel's system, which every operation keeps whatever it returns, and what a
    successful operation has seen of the kernel. *)

From S2P Require Import Prelude.
From S2P Require Import SessionTypes.
From S2P Require Import SessionTtl.
From S2P Require Import FenceAbi.
From S2P Require Import FenceCodec.
From S2P Require Import FencePacket.
From S2P Require Import FenceKernel.
From S2P Require Import FenceSystem.
From S2P Require Import FenceInvariant.
From S2P Require Import FenceSteps.
From S2P Require Import FenceReach.
From S2P Require Import FenceSafety.
From S2P Require Import FenceBound.
From S2P Require Import FenceLifecycle.
From S2P Require Import FenceControl.
From S2P Require Import FenceEngine.
From S2P Require Import FenceWorld.

(** ** One call after another, with what the first returned *)

Lemma bind_at {S E A B} (R : S → S → Prop) `{PreOrder S R} (m : Io S E A)
    (k : A → Io S E B) s :
  R s (m s).1 → (∀ a s1, m s = (s1, Ok a) → R s1 (k a s1).1) → R s (io_bind m k s).1.
Proof.
  intros Hm Hk. unfold io_bind. destruct (m s) as [s1 [a|e|]] eqn:Es; [|done..].
  etransitivity; [done|]. by apply Hk.
Qed.

Lemma keeps_eq {S E A} (R : S → S → Prop) (m : Io S E A) s s' r :
  keeps R m → m s = (s', r) → R s s'.
Proof. intros Hm Hs. specialize (Hm s). by rewrite Hs in Hm. Qed.

(** ** Proof steps *)

Ltac facts :=
  to_prop;
  repeat match goal with
  | H : bool_decide _ = true |- _ => apply bool_decide_eq_true in H
  | H : bool_decide _ = false |- _ => apply bool_decide_eq_false in H
  end.

(** What a body keeps, call by call. *)
Ltac go := unfold self, refuse; keep.

(** The first call of a body, with what it returned as [H]. *)
Tactic Notation "step" "as" ident(H) :=
  try unfold self; try unfold refuse;
  lazymatch goal with
  | |- _ _ ((io_bind (io_reads _) _) _).1 =>
      refine (bind_at _ _ _ _ (keeps_reads _ _ _) _);
      intros ? ? H; injection H as <- <-; cbn [fst snd]
  | |- _ _ ((io_bind (lift _) _) _).1 =>
      refine (bind_at _ _ _ _ (keeps_lift _ _ _) _);
      intros ? ? H; apply lift_ok in H as [-> H]
  | |- _ _ ((io_bind _ _) _).1 =>
      refine (bind_at _ _ _ _ _ _); [|intros ? ? H]
  end; repeat match goal with u : () |- _ => destruct u end.
Tactic Notation "step" := let H := fresh "Hs" in step as H.

(** ** What an observation means *)

Lemma open_current c token cookie :
  current_ok c →
  decode_kernel_current c = Ok (mkKernelCurrentFence LifecycleOpen token cookie) ↔
  is_lifecycle_open c = true ∧ ct_durable_fence_token c = token
  ∧ ct_registered_socket_cookie c = cookie.
Proof.
  intros Hc. unfold decode_kernel_current. split.
  - intros Hd. repeat case_match; simplify_eq; done.
  - intros (Ho & <- & <-). pose proof (open_lifecycle c Hc Ho) as Hn.
    apply orb_false_iff in Hn as [-> _]. by rewrite Ho.
Qed.

(** The inspection says that the gate is open exactly when it is. *)
Lemma observes_gate c m cookie token i deadline :
  maps_ok c m → observes m (Some (cookie, token)) i →
  gate_open m cookie token deadline ↔
  ki_current i = mkKernelCurrentFence LifecycleOpen token cookie
  ∧ ∃ epoch, ki_entry i = Some (mkKernelFenceEntry EntryActive cookie token deadline epoch).
Proof.
  intros Hm [(c' & Hc & Hd) He]. rewrite (current_decodes c m Hm) in Hc. injection Hc as <-.
  pose proof (open_current c token cookie (mo_current_ok _ _ Hm)) as Ho. split.
  - intros (c' & slot & ep & Hc & Hop & Ht & Hk & Hl & Hde).
    rewrite (current_decodes c m Hm) in Hc. injection Hc as <-.
    rewrite Hl, Hde in He. split; [|by exists ep].
    destruct Ho as [_ Ho]. rewrite Ho in Hd by done. by injection Hd.
  - intros [Hcur (ep & Hen)]. rewrite Hcur in Hd. apply Ho in Hd as (Hop & Ht & Hk).
    rewrite Hen in He. destruct (fm_cookies m !! _) as [slot|] eqn:Hl; [|done].
    destruct (decode_entry _ _) as [e|] eqn:Hde; [|done].
    exists c, slot, ep. split_and!; try done; [by apply current_decodes|].
    rewrite Hde. apply decode_entry_inv in Hde as [_ Hte]. cbn in Hte.
    destruct e as [st tk dl ep']. cbn in *. injection He as Hst Hdl Hep.
    destruct st; try done. by subst.
Qed.

(** No gate for the socket in this lifecycle, now or later. *)
Definition shut {Ctx} `{SkBuff Ctx} (s : FenceSystem) (cookie token : Z) : Prop :=
  ∀ s' deadline, leads (Ctx := Ctx) (λ _, True) s s' →
    ¬ gate_open (fs_maps s') cookie token deadline.

Section Meaning.
Context {Ctx : Type} `{SkBuffLaws Ctx}.

Lemma shut_later P s s' cookie token :
  shut (Ctx := Ctx) s cookie token → leads (Ctx := Ctx) P s s' →
  shut (Ctx := Ctx) s' cookie token.
Proof.
  intros Hs Hl s2 d Hl2. apply Hs. eapply leads_trans; [|done]. by eapply leads_mono.
Qed.

Lemma terminal_shut s cookie token i dl ep :
  reaches (Ctx := Ctx) s → observes (fs_maps s) (Some (cookie, token)) i →
  ki_entry i = Some (mkKernelFenceEntry EntryTerminalClosed cookie token dl ep) →
  shut (Ctx := Ctx) s cookie token.
Proof.
  intros [c Hs]%reaches_ok [_ He] Hi s' d (es & Hes & _ & Hr). rewrite Hi in He.
  destruct (fm_cookies (fs_maps s) !! _) as [slot|] eqn:Hl; [|done].
  destruct (decode_entry _ _) as [e|] eqn:Hde; [|done].
  apply (closed_shut c s es s' cookie token slot e); try done. by destruct (fe_state e).
Qed.

Lemma retired_shut s key i token cookie t d s' P :
  reaches (Ctx := Ctx) s → observes (fs_maps s) key i →
  ki_current i = mkKernelCurrentFence RetirementClosed token 0 →
  leads (Ctx := Ctx) P s s' → gate_open (fs_maps s') cookie t d → token < t.
Proof.
  intros [c Hs]%reaches_ok [(c' & Hc & Hd) _] Hi (es & Hes & _ & Hr) Hg.
  rewrite (current_decodes c _ (so_maps _ _ Hs)) in Hc. injection Hc as <-.
  destruct (superseded_shut c s es s' cookie t d) as [Hle Heq]; try done.
  rewrite Hi in Hd. unfold decode_kernel_current in Hd.
  destruct (decide (ct_durable_fence_token c = t)) as [E|E].
  - destruct (Heq E) as [Ho _]. rewrite Ho in Hd. repeat case_match; simplify_eq.
  - repeat case_match; simplify_eq; cbn in *; lia.
Qed.

End Meaning.

(** ** The durable authority

    A grant and a renewal promise the lease for the requested time from a point no earlier
    than the call. *)
Class AuthorityLaws {Ctx W E} `{SkBuff Ctx} `{FenceWorld W} (others : bytes → Prop)
    `{EgressFenceLeaseAuthority W E} : Prop := {
  acquire_moves key owner ttl id life w :
    moves (Ctx := Ctx) others w (authority_acquire key owner ttl id life w).1;
  acquire_promises key owner ttl id life w w' grant :
    authority_acquire key owner ttl id life w = (w', Completed (Ok grant)) →
    system_clock w + ttl ≤ lease_until w'
    ∧ u64 (fg_socket_lifecycle_token grant) ∧ u64 (fg_retirement_lifecycle_token grant);
  renew_moves lease ttl w : moves (Ctx := Ctx) others w (authority_renew lease ttl w).1;
  renew_promises lease ttl w w' renewed :
    authority_renew lease ttl w = (w', Completed (Ok renewed)) →
    system_clock w + ttl ≤ lease_until w';
  release_moves lease evidence w :
    moves (Ctx := Ctx) others w (release_with_terminal lease evidence w).1;
}.

(** ** The invariant of an engine *)

Record fence_ok (f : LeaseBoundFence) : Prop := {
  fo_cookie : u64 (lf_socket_cookie f) ∧ lf_socket_cookie f ≠ 0;
  fo_tokens :
    match lf_socket_lifecycle_token f, lf_retirement_lifecycle_token f with
    | Some t, Some r => u64 t ∧ validate_lifecycle_token_pair t r = Ok tt
    | None, None => True
    | _, _ => False
    end;
  fo_registered : lf_registered f = true → is_Some (lf_socket_lifecycle_token f);
  fo_binding b :
    lf_binding f = Some b →
    lf_terminal f = false ∧ lf_registered f = true
    ∧ lf_socket_lifecycle_token f = Some (lb_socket_lifecycle_token b)
    ∧ lf_retirement_lifecycle_token f = Some (lb_retirement_lifecycle_token b)
    ∧ lf_active_deadline_boot_ns f ≤ lb_durable_expiry_boot_ns b;
  fo_live :
    lf_terminal f = false → lf_close_verified f = false ∧ lf_reclaimed f = false;
}.

Section Client.
Context {Ctx : Type} `{SkBuffLaws Ctx} {W : Type} `{FenceWorld W}.
Context (others : bytes → Prop) `{BootClock W} `{KernelControl W}.
Context `{!ClockLaws (Ctx := Ctx) others} `{!KernelControlLaws (Ctx := Ctx) others}.

(** Once its closure is verified, a registered engine's gate is shut for good. *)
Definition sealed (f : LeaseBoundFence) (w : W) : Prop :=
  lf_registered f = true → lf_close_verified f = true ∨ lf_reclaimed f = true →
  ∀ t, lf_socket_lifecycle_token f = Some t →
    shut (Ctx := Ctx) (kernel_system w) (lf_socket_cookie f) t.

Record good (s : LeaseBoundFence * W) : Prop := {
  gd_reaches : reaches (Ctx := Ctx) (kernel_system s.2);
  gd_fence : fence_ok s.1;
  gd_sealed : sealed s.1 s.2;
}.

(** What an operation may do to an engine that is as it should be: it keeps the invariant,
    the identity and the cookie, and moves the world by [P]. *)
Definition goes (P : bytes → Prop) (s s' : LeaseBoundFence * W) : Prop :=
  good s →
  good s' ∧ moves (Ctx := Ctx) P s.2 s'.2
  ∧ lf_identity s'.1 = lf_identity s.1 ∧ lf_socket_cookie s'.1 = lf_socket_cookie s.1.

#[export] Instance goes_preorder P : PreOrder (goes P).
Proof.
  split.
  - intros s Hs. split_and!; [done|reflexivity|done|done].
  - intros s1 s2 s3 H12 H23 Hs. destruct (H12 Hs) as (Hs2 & Hm & Hi & Hc).
    destruct (H23 Hs2) as (Hs3 & Hm' & Hi' & Hc').
    split_and!; [done|by etransitivity|congruence|congruence].
Qed.

Lemma goes_mono (P Q : bytes → Prop) s s' : (∀ b, P b → Q b) → goes P s s' → goes Q s s'.
Proof.
  intros Hpq Hg Hs. destruct (Hg Hs) as (Hs' & Hm & Hi). split_and!; try apply Hi; [done|].
  by eapply moves_mono.
Qed.

(** *** Calls of the world *)

Lemma good_world P f w w' : good (f, w) → moves (Ctx := Ctx) P w w' → good (f, w').
Proof.
  intros [Hr Hf Hs] [_ Hm]. cbn in *. split; [by eapply reaches_leads|done|].
  intros Hreg Hcl t Ht. eapply shut_later; [by apply Hs|done].
Qed.

Lemma on_world_goes {E A} P (m : Io W E A) :
  keeps (moves (Ctx := Ctx) P) m → keeps (goes P) (on_world m).
Proof.
  intros Hm [f w] Hs. specialize (Hm w). unfold on_world. cbn. destruct (m w) as [w' r].
  cbn in *. split_and!; [by eapply good_world|done|done|done].
Qed.

Lemma kernel_goes {A} P (m : Io W KernelFailure A) :
  keeps (moves (Ctx := Ctx) P) m → keeps (goes P) (kernel m).
Proof. intros Hm. unfold kernel. keep. by apply on_world_goes. Qed.

Lemma others_calm_goes s s' : goes others s s' → goes (calm others) s s'.
Proof. apply goes_mono. by left. Qed.

Lemma assign_goes {E} P (u : LeaseBoundFence → LeaseBoundFence) f w :
  lf_identity (u f) = lf_identity f → lf_socket_cookie (u f) = lf_socket_cookie f →
  (fence_ok f → sealed f w → fence_ok (u f) ∧ sealed (u f) w) →
  goes P (f, w) (assign (E := E) u (f, w)).1.
Proof.
  intros Hi Hc Hu [Hr Hf Hs]. cbn in *. destruct (Hu Hf Hs) as [Hf' Hs'].
  split_and!; [by split|reflexivity|done|done].
Qed.

Lemma observe_goes : keeps (goes (calm others)) observe_boot_time.
Proof.
  unfold observe_boot_time. go.
  - apply on_world_goes. intros w. eapply moves_mono; [|apply (now_moves others)]. by left.
  - intros [f w]. apply assign_goes; [done|done|]. intros [] Hs. by split.
Qed.

Lemma inspect_current_goes : keeps (goes (calm others)) inspect_current.
Proof. unfold inspect_current. go. apply kernel_goes. intros w. apply (inspect_moves others). Qed.

Lemma inspect_exact_goes token : keeps (goes (calm others)) (inspect_exact token).
Proof. unfold inspect_exact. go. apply kernel_goes. intros w. apply (inspect_moves others). Qed.

Lemma budget_goes d s0 : keeps (goes (calm others)) (verify_operation_budget d s0).
Proof. unfold verify_operation_budget. go. apply observe_goes. Qed.

Lemma on_world_same {E A} (m : Io W E A) f w s' r :
  on_world m (f, w) = (s', r) → ∃ w', s' = (f, w') ∧ m w = (w', r).
Proof. unfold on_world. cbn. destruct (m w) as [w' r']. intros [= <- <-]. eauto. Qed.

(** *** What an inspection has seen *)

(** Some moment between two states of the world. *)
Definition between (w w' : W) (Q : FenceSystem → Prop) : Prop :=
  ∃ s, leads (Ctx := Ctx) (λ _, True) (kernel_system w) s
     ∧ leads (Ctx := Ctx) (λ _, True) s (kernel_system w') ∧ reaches (Ctx := Ctx) s ∧ Q s.

Lemma between_wider P P' w0 w w' w1 Q :
  moves (Ctx := Ctx) P w0 w → between w w' Q → moves (Ctx := Ctx) P' w' w1 → between w0 w1 Q.
Proof.
  intros [_ H01] (s & H1' & H2' & Hr & Hq) [_ H23]. exists s. split_and!; [| |done|done].
  - eapply leads_trans; [|done]. by eapply leads_mono.
  - eapply leads_trans; [done|]. by eapply leads_mono.
Qed.

Lemma goes_good P s s' : goes P s s' → good s → good s'.
Proof. intros Hg Hs. by destruct (Hg Hs). Qed.

Lemma inspect_exact_seen token f w s' i :
  good (f, w) → u64 token → inspect_exact token (f, w) = (s', Ok i) →
  ∃ w', s' = (f, w') ∧ good (f, w')
    ∧ between w w' (λ m, observes (fs_maps m) (Some (lf_socket_cookie f, token)) i).
Proof.
  intros Hs Ht Hi. pose proof (inspect_exact_goes token (f, w) Hs) as (Hs' & _).
  rewrite Hi in Hs'. unfold inspect_exact, self, kernel in Hi. io_inv Hi.
  unfold io_reads in Hc. injection Hc as <- <-. apply on_world_same in Hc0 as (w1 & -> & Hw).
  exists w1. split; [done|]. split; [done|]. destruct Hs as [Hr Hf _].
  destruct (fo_cookie _ Hf) as [Hu Hz].
  destruct (inspect_reports others _ (Some (lf_socket_cookie f, token)) _ _ _ Hr
    (conj Hu (conj Hz Ht)) Hw) as (m & H1' & H2' & Ho).
  exists m. split_and!; [by eapply leads_mono..|by eapply reaches_leads|done].
Qed.

Lemma inspect_current_seen f w s' c :
  good (f, w) → inspect_current (f, w) = (s', Ok c) →
  ∃ w', s' = (f, w') ∧ good (f, w')
    ∧ between w w' (λ m, ∃ i, observes (fs_maps m) None i ∧ ki_current i = c).
Proof.
  intros Hs Hi. pose proof (inspect_current_goes (f, w) Hs) as (Hs' & _).
  rewrite Hi in Hs'. unfold inspect_current, self, kernel in Hi. io_inv Hi.
  unfold io_reads in Hc. injection Hc as <- <-. apply on_world_same in Hc0 as (w1 & -> & Hw).
  exists w1. split; [done|]. split; [done|]. destruct Hs as [Hr Hf _].
  destruct (inspect_reports others _ None _ _ _ Hr I Hw) as (m & H1' & H2' & Ho).
  exists m. split_and!; [by eapply leads_mono..|by eapply reaches_leads|by eexists].
Qed.

(** *** Closing *)

Lemma seal_goes {E} P f w ep token :
  lf_terminal f = true → lf_socket_lifecycle_token f = Some token →
  shut (Ctx := Ctx) (kernel_system w) (lf_socket_cookie f) token →
  goes P (f, w) (assign (E := E) (set_close_verified ep) (f, w)).1.
Proof.
  intros Ht Htok Hsh. apply assign_goes; [done|done|]. intros [Hc Hto Hre Hb Hl] _. split.
  - split; try done. cbn. intros Hf. by rewrite Hf in Ht.
  - intros _ _ t Ht'. cbn in *. rewrite Htok in Ht'. by injection Ht' as <-.
Qed.

(** The terminal entry an inspection has seen shuts the gate. *)
Lemma between_shut w w' cookie token i e :
  between w w' (λ m, observes (fs_maps m) (Some (cookie, token)) i) →
  ki_entry i = Some e → ke_state e = EntryTerminalClosed →
  ke_socket_cookie e = cookie → ke_lifecycle_token e = token →
  shut (Ctx := Ctx) (kernel_system w') cookie token.
Proof.
  intros (m & _ & Hl & Hr & Ho) Hi Hst Hck Htk. eapply shut_later; [|done].
  destruct e. cbn in *. subst. by eapply terminal_shut.
Qed.

(** A call of the kernel control whose result is kept, and the state it leaves. *)
Lemma attempt_world {A F} (m : Io W KernelFailure A) P f w s' r :
  keeps (moves (Ctx := Ctx) P) m → good (f, w) →
  attempt (F := F) (on_world m) (f, w) = (s', Ok r) → ∃ w', s' = (f, w') ∧ good (f, w').
Proof.
  intros Hm Hs (w' & -> & Hw)%attempt_ok%on_world_same. exists w'. split; [done|].
  eapply good_world; [done|]. specialize (Hm w). by rewrite Hw in Hm.
Qed.

Lemma kernel_world {A} (m : Io W KernelFailure A) P f w s' a :
  keeps (moves (Ctx := Ctx) P) m → good (f, w) →
  kernel m (f, w) = (s', Ok a) → ∃ w', s' = (f, w') ∧ good (f, w').
Proof.
  intros Hm Hs (w' & -> & Hw)%map_err_call_ok%on_world_same. exists w'. split; [done|].
  eapply good_world; [done|]. specialize (Hm w). by rewrite Hw in Hm.
Qed.

Lemma close_keeps id c t e : keeps (moves (Ctx := Ctx) (calm others)) (close id c t e).
Proof. intros w. apply (close_moves others). Qed.

Lemma close_and_verify_goes token current f w :
  good (f, w) → lf_terminal f = true → lf_socket_lifecycle_token f = Some token → u64 token →
  goes (calm others) (f, w) (close_and_verify token current (f, w)).1.
Proof.
  intros Hg Ht Htok Hu. unfold close_and_verify. step. step. step as Hclose.
  { apply keeps_at, keeps_attempt, on_world_goes, close_keeps. }
  destruct (attempt_world _ _ _ _ _ _ (close_keeps _ _ _ _) Hg Hclose) as (w1 & -> & Hg1).
  step as Hi. { apply keeps_at, inspect_exact_goes. }
  destruct (inspect_exact_seen _ _ _ _ _ Hg1 Hu Hi) as (w2 & -> & Hg2 & Hb).
  step. step as He. step as Hm. apply ok_or_ok in He. apply unless_ok in Hm.
  facts. apply (seal_goes _ _ _ _ token); [done|done|]. by eapply between_shut.
Qed.

Lemma set_terminal_goes {E} P f w : goes P (f, w) (assign (E := E) set_terminal (f, w)).1.
Proof. apply assign_goes; [done|done|]. intros [] Hs. by split. Qed.

Lemma fence_token f t :
  fence_ok f → lf_socket_lifecycle_token f = Some t →
  ∃ r, lf_retirement_lifecycle_token f = Some r ∧ u64 t
       ∧ validate_lifecycle_token_pair t r = Ok tt.
Proof.
  intros [_ Ht _ _ _] Hf. rewrite Hf in Ht. destruct (lf_retirement_lifecycle_token f); [|done].
  eauto.
Qed.

Lemma terminal_close_goes : keeps (goes (calm others)) terminal_close.
Proof.
  intros [f0 w] Hg0. pose proof (set_terminal_goes (E := FenceError) (calm others) f0 w Hg0) as (Hg & _).
  revert Hg0. change (goes (calm others) (f0, w) (terminal_close (f0, w)).1).
  unfold terminal_close. step as H0'. { apply set_terminal_goes. }
  injection H0' as <-. cbn [fst snd] in *. change (good (set_terminal f0, w)) in Hg.
  set (f := set_terminal f0) in *. step.
  destruct (lf_registered f) eqn:Hreg; cbn [negb].
  2: { apply assign_goes; [done|done|]. intros [Hc Hto Hre Hb Hl] _. split; [by split|].
       intros Hr. change (lf_registered f = true) in Hr. by rewrite Hreg in Hr. }
  destruct (_ || _); [apply (keeps_ret _ _ (_, _))|]. step as Ht.
  { apply (keeps_lift _ _ (_, _)). }
  apply lift_ok in Ht as [-> Ht%ok_or_ok].
  destruct (fence_token f _ (gd_fence _ Hg) Ht) as (r & _ & Hu & _).
  step as Hi. { apply keeps_at, inspect_exact_goes. }
  destruct (inspect_exact_seen _ _ _ _ _ Hg Hu Hi) as (w1 & -> & Hg1 & Hb).
  step. step as He. step as Hid. apply ok_or_ok in He.
  unfold verify_entry_identity in Hid. apply when_ok in Hid. facts.
  case_bool_decide as Hst; [apply (seal_goes _ _ _ _ a); [done|done|by eapply between_shut]|].
  step. step. by apply close_and_verify_goes.
Qed.

Lemma closing_goes {E} : keeps (goes (calm others)) (closing (E := E)).
Proof. intros s. apply terminal_close_goes. Qed.

(** *** What closing leaves *)

Definition inactive (f : LeaseBoundFence) : Prop :=
  lf_terminal f = true ∧ lf_binding f = None ∧ lf_active_deadline_boot_ns f = 0.

Definition stays (s s' : LeaseBoundFence * W) : Prop := inactive s.1 → inactive s'.1.

#[export] Instance stays_preorder : PreOrder stays.
Proof. split; [by intros s Hs|]. intros s1 s2 s3 H12 H23 Hs. auto. Qed.

Lemma on_world_stays {E A} (m : Io W E A) : keeps stays (on_world m).
Proof. intros [f w] Hi. unfold on_world. cbn. by destruct (m w). Qed.

Lemma inspect_exact_stays token : keeps stays (inspect_exact token).
Proof. unfold inspect_exact, kernel. go. apply on_world_stays. Qed.

Lemma assign_stays {E} u :
  (∀ f, inactive f → inactive (u f)) → keeps stays (assign (E := E) u).
Proof. intros Hu [f w] Hi. by apply Hu. Qed.

(** Whatever it returns, closing leaves nothing active; and it returns a success only when
    the closure is verified. *)
Lemma terminal_close_inactive s : inactive (terminal_close s).1.1.
Proof.
  unfold terminal_close, io_bind at 1. cbn [assign updates].
  match goal with |- inactive (?m (set_terminal s.1, s.2)).1.1 =>
    refine ((_ : keeps stays m) (set_terminal s.1, s.2) _); [|done] end.
  unfold close_and_verify, socket_lifecycle_token_or_error. go.
  all: try apply inspect_exact_stays. all: try apply on_world_stays.
  all: by apply assign_stays.
Qed.

Lemma terminal_close_verified s s' :
  terminal_close s = (s', Ok tt) → lf_close_verified s'.1 = true ∨ lf_reclaimed s'.1 = true.
Proof.
  unfold terminal_close. intros Ht. io_inv Ht. injection Hc as <-.
  unfold self, io_reads in Hc0. injection Hc0 as <- <-. cbn [fst snd] in Ht.
  destruct (lf_registered (set_terminal s.1)); cbn [negb] in Ht; [|injection Ht as <-; by left].
  destruct (_ || _) eqn:E.
  { injection Ht as <-. cbn. apply orb_true_iff in E. tauto. }
  io_inv Ht. destruct (bool_decide _); [injection Ht as <-; by left|]. io_inv Ht.
  unfold close_and_verify in Ht. io_inv Ht. injection Ht as <-. by left.
Qed.

(** *** Opening *)

Lemma until_calm limit s s' : goes (calm others) s s' → goes (until others limit) s s'.
Proof. apply goes_mono. intros b [Hb|Hb]; [by left|right; apply Hb]. Qed.

Lemma activation_path_goes t r p g l : keeps (goes (calm others)) (activation_path t r p g l).
Proof. unfold activation_path. go. apply inspect_current_goes. Qed.

Lemma set_tokens_goes {E} P f w t r :
  u64 t → validate_lifecycle_token_pair t r = Ok tt → lf_registered f = false →
  goes P (f, w) (assign (E := E) (set_tokens t r) (f, w)).1.
Proof.
  intros Hu Hp Hr. apply assign_goes; [done|done|]. intros [Hc Ht Hre Hb Hl] Hs. split.
  - split; try done; cbn. intros b Hb'. destruct (Hb b Hb') as (_ & Hr' & _). congruence.
  - intros Hr'. cbn in Hr'. congruence.
Qed.

Lemma publish_keeps id t : keeps (moves (Ctx := Ctx) (calm others)) (publish_lifecycle id t).
Proof. intros w. apply (publish_lifecycle_moves others). Qed.
Lemma cleanup_keeps id t : keeps (moves (Ctx := Ctx) (calm others)) (cleanup_superseded id t).
Proof. intros w. apply (cleanup_superseded_moves others). Qed.
Lemma register_keeps id c t : keeps (moves (Ctx := Ctx) (calm others)) (register_closed id c t).
Proof. intros w. apply (register_closed_moves others). Qed.

Lemma publish_verified_goes t r f w :
  good (f, w) → u64 t → validate_lifecycle_token_pair t r = Ok tt →
  goes (calm others) (f, w) (publish_verified t r (f, w)).1.
Proof.
  intros Hg Hu Hp. unfold publish_verified. step. step as Hn. apply unless_ok in Hn. facts.
  step as H1'. { apply keeps_at, inspect_current_goes. }
  destruct (inspect_current_seen _ _ _ _ Hg H1') as (w1 & -> & Hg1 & _). step.
  step as H2'. { apply keeps_at, keeps_attempt, on_world_goes, publish_keeps. }
  destruct (attempt_world _ _ _ _ _ _ (publish_keeps _ _) Hg1 H2') as (w2 & -> & Hg2).
  step as H3'. { apply keeps_at, inspect_current_goes. }
  destruct (inspect_current_seen _ _ _ _ Hg2 H3') as (w3 & -> & Hg3 & _). step.
  step as H4'. { apply keeps_at, kernel_goes, cleanup_keeps. }
  destruct (kernel_world _ _ _ _ _ _ (cleanup_keeps _ _) Hg3 H4') as (w4 & -> & Hg4).
  step as H5'. { apply keeps_at, inspect_current_goes. }
  destruct (inspect_current_seen _ _ _ _ Hg4 H5') as (w5 & -> & Hg5 & _). step.
  by apply set_tokens_goes.
Qed.

(** *** What an operation leaves of the engine's record *)

Definition same (s s' : LeaseBoundFence * W) : Prop := s'.1 = s.1.

#[export] Instance same_preorder : PreOrder same.
Proof. split; [by intros s|]. unfold same. intros s1 s2 s3 H12 H23. congruence. Qed.

Lemma on_world_same_fence {E A} (m : Io W E A) : keeps same (on_world m).
Proof. intros [f w]. unfold same, on_world. cbn. by destruct (m w). Qed.

Lemma inspect_current_same : keeps same inspect_current.
Proof. unfold inspect_current, kernel. go. apply on_world_same_fence. Qed.

Lemma inspect_exact_same t : keeps same (inspect_exact t).
Proof. unfold inspect_exact, kernel. go. apply on_world_same_fence. Qed.

Lemma publish_verified_leaves t r s s' :
  publish_verified t r s = (s', Ok tt) →
  lf_registered s.1 = false ∧ s'.1 = set_tokens t r s.1.
Proof.
  intros Hp. unfold publish_verified, self, refuse in Hp. io_inv Hp.
  unfold io_reads in Hc. injection Hc as <- <-. injection Hp as <-. facts. split; [done|].
  cbn [fst]. f_equal. apply map_err_call_ok in Hc6.
  apply (keeps_eq same) in Hc1, Hc3, Hc4, Hc6, Hc7;
    try apply inspect_current_same; try apply on_world_same_fence.
  unfold same in *. congruence.
Qed.

(** The record after a registration. *)
Lemma register_verified_leaves t s s' :
  register_verified t s = (s', Ok tt) → s'.1 = set_registered s.1.
Proof.
  intros Hp. unfold register_verified, self in Hp. io_inv Hp.
  unfold io_reads in Hc. injection Hc as <- <-. injection Hc1 as <-.
  apply (keeps_eq same) in Hc0, Hc2; [|apply inspect_exact_same|apply on_world_same_fence].
  unfold same in *. cbn in Hc2. destruct (is_some_and _ (ki_entry x5)); [|done].
  injection Hc3 as <-. cbn. rewrite Hc2, Hc0. by destruct (is_some_and _ _).
Qed.

Lemma set_registered_goes {E} P f w :
  lf_terminal f = false → is_Some (lf_socket_lifecycle_token f) →
  goes P (f, w) (assign (E := E) set_registered (f, w)).1.
Proof.
  intros Ht Hto. apply assign_goes; [done|done|]. intros [Hc Htk Hre Hb Hl] _. split.
  - split; try done; cbn. intros b Hb'. destruct (Hb b Hb') as (? & _ & ? & ? & ?). done.
  - intros _ Hcl. cbn in Hcl. destruct (Hl Ht). destruct Hcl; congruence.
Qed.

Lemma register_verified_goes t f w :
  good (f, w) → lf_terminal f = false → lf_socket_lifecycle_token f = Some t →
  goes (calm others) (f, w) (register_verified t (f, w)).1.
Proof.
  intros Hg Ht Hto. unfold register_verified. step.
  step as H1'. { apply keeps_at, keeps_attempt, on_world_goes, register_keeps. }
  destruct (attempt_world _ _ _ _ _ _ (register_keeps _ _ _) Hg H1') as (w1 & -> & Hg1).
  assert (∀ b : bool, goes (calm others) (f, w1)
    (assign (E := FenceError) (λ f, if b then set_registered f else f) (f, w1)).1) as Hreg.
  { intros [|]; [apply set_registered_goes; [done|by eexists]|reflexivity]. }
  step as H2'. { apply Hreg. }
  injection H2' as <-. set (b := is_some_and _ _). destruct (Hreg b Hg1) as (Hg2 & _).
  cbn [fst snd] in *. set (f1 := if b then set_registered f else f) in *.
  change (good (f1, w1)) in Hg2.
  assert (lf_terminal f1 = false ∧ lf_socket_lifecycle_token f1 = Some t) as [Ht1 Hto1]
    by (unfold f1; by destruct b).
  step as H3'. { apply keeps_at, inspect_exact_goes. }
  apply (keeps_eq same) in H3'; [|apply inspect_exact_same]. destruct s1 as [f2 w2].
  unfold same in H3'. cbn in H3'. subst f2. step as H4'.
  - destruct (is_some_and _ (ki_entry _)); [|apply (keeps_lift _ _ (_, _))].
    apply set_registered_goes; [done|by eexists].
  - apply (keeps_lift _ _ _).
Qed.

(** The entry that an activation or a refresh reads back is the open gate. *)
Lemma verify_active_goes t d e r : keeps (goes (calm others)) (verify_active t d e r).
Proof. unfold verify_active. go. apply inspect_exact_goes. Qed.

Lemma require_current_inv current phase t cookie u :
  require_current current phase t cookie = Ok u → current = mkKernelCurrentFence phase t cookie.
Proof. unfold require_current. intros Hr%when_ok. facts. destruct current. cbn in *. by subst. Qed.

Lemma open_entry current entry cookie t d e u1 :
  require_current current LifecycleOpen t cookie = Ok u1 →
  ke_state entry = EntryActive → ke_socket_cookie entry = cookie →
  ke_lifecycle_token entry = t → ke_deadline_boot_ns entry = d → ke_control_epoch entry = e →
  current = mkKernelCurrentFence LifecycleOpen t cookie
  ∧ entry = mkKernelFenceEntry EntryActive cookie t d e.
Proof.
  intros ->%require_current_inv. destruct entry. cbn. intros. by subst.
Qed.

Lemma between_open w w' cookie t i d e :
  between w w' (λ m, observes (fs_maps m) (Some (cookie, t)) i) →
  ki_current i = mkKernelCurrentFence LifecycleOpen t cookie →
  ki_entry i = Some (mkKernelFenceEntry EntryActive cookie t d e) →
  between w w' (λ m, gate_open (fs_maps m) cookie t d).
Proof.
  intros (m & Hl1 & Hl2 & Hr & Ho) Hc He. exists m. split_and!; try done.
  destruct (reaches_ok m Hr) as [c Hs]. eapply observes_gate; [apply (so_maps _ _ Hs)|done|].
  split; [done|by eexists].
Qed.

Lemma verify_active_seen t d e r f w s' entry :
  good (f, w) → u64 t → verify_active t d e r (f, w) = (s', Ok entry) →
  ∃ w', s' = (f, w') ∧ good (f, w') ∧ ke_control_epoch entry = e
    ∧ between w w' (λ m, gate_open (fs_maps m) (lf_socket_cookie f) t d).
Proof.
  intros Hg Hu Hv. unfold verify_active, self, refuse in Hv. io_inv Hv.
  unfold io_reads in Hc. injection Hc as <- <-. cbn [fst snd] in *. facts.
  destruct (inspect_exact_seen _ _ _ _ _ Hg Hu Hc0) as (w1 & -> & Hg1 & Hb).
  exists w1. split_and!; try done.
  destruct (open_entry _ _ _ _ _ _ _ Hc3 ltac:(done) ltac:(done) ltac:(done) ltac:(done) ltac:(done))
    as [Hcur Hent].
  eapply between_open; [done|done|]. rewrite Hc1. by f_equal.
Qed.

Lemma set_active_goes {E} P f w e b d :
  lf_terminal f = false → lf_registered f = true →
  lf_socket_lifecycle_token f = Some (lb_socket_lifecycle_token b) →
  lf_retirement_lifecycle_token f = Some (lb_retirement_lifecycle_token b) →
  d ≤ lb_durable_expiry_boot_ns b →
  goes P (f, w) (assign (E := E) (set_active e b d) (f, w)).1.
Proof.
  intros Ht Hr Hto Hre Hd. apply assign_goes; [done|done|]. intros [Hc Htk Hreg Hb Hl] Hs. split.
  - split; try done; cbn. by intros b' [= <-].
  - intros _ Hcl. cbn in Hcl. destruct (Hl Ht). destruct Hcl; congruence.
Qed.

(** Only the last observation of the clock changes. *)
Definition idles (s s' : LeaseBoundFence * W) : Prop :=
  s'.1 = set_observed (lf_observations s'.1) s.1.

#[export] Instance idles_preorder : PreOrder idles.
Proof.
  split; unfold idles; [by intros [[] w]|]. intros s1 s2 s3 H12 H23. by rewrite H23, H12.
Qed.

Lemma observe_idles : keeps idles observe_boot_time.
Proof.
  unfold observe_boot_time. go; [|done]. intros [[] w]. unfold idles, on_world. cbn.
  by destruct (now_boot_ns w).
Qed.

Lemma budget_idles d s0 : keeps idles (verify_operation_budget d s0).
Proof. unfold verify_operation_budget. go. apply observe_idles. Qed.

Lemma good_budget d s0 f w s' :
  good (f, w) → verify_operation_budget d s0 (f, w) = (s', Ok tt) →
  ∃ o w', s' = (set_observed o f, w') ∧ good (set_observed o f, w').
Proof.
  intros Hg Hb. pose proof (budget_goes d s0 (f, w) Hg) as (Hg' & _). rewrite Hb in Hg'.
  apply (keeps_eq idles) in Hb; [|apply budget_idles]. destruct s' as [f' w'].
  unfold idles in Hb. cbn in Hb, Hg'. exists (lf_observations f'), w'. by rewrite <-Hb.
Qed.

Lemma activate_keeps id c t d e :
  0 ≤ d → keeps (moves (Ctx := Ctx) (until others d)) (activate id c t d e).
Proof. intros Hd w. by apply (activate_moves others). Qed.
Lemma refresh_keeps id c t d e :
  0 ≤ d → keeps (moves (Ctx := Ctx) (until others d)) (refresh id c t d e).
Proof. intros Hd w. by apply (refresh_moves others). Qed.

Lemma publish_register_activate_goes g t r d s0 x f w :
  good (f, w) → u64 t → 0 ≤ d → lf_terminal f = false →
  goes (until others d) (f, w) (publish_register_activate g t r d s0 x (f, w)).1.
Proof.
  intros Hg Hu Hd Ht. unfold publish_register_activate.
  step as H1'. { apply until_calm, keeps_at, budget_goes. }
  destruct (good_budget _ _ _ _ _ Hg H1') as (o & w1 & -> & Hg1). step as Hx. step as Hp.
  apply unless_ok in Hx. facts.
  step as H2'. { by apply until_calm, publish_verified_goes. }
  pose proof (publish_verified_goes t r _ _ Hg1 Hu Hp Hg1) as (Hg2 & _). rewrite H2' in Hg2.
  apply publish_verified_leaves in H2' as [Hr Hf]. destruct s1 as [f2 w2]. cbn in Hf, Hr, Hg2. subst f2.
  step as H3'. { by apply until_calm, register_verified_goes. }
  pose proof (register_verified_goes t _ _ Hg2 Ht eq_refl Hg2) as (Hg3 & _). rewrite H3' in Hg3.
  apply register_verified_leaves in H3' as Hf. destruct s1 as [f3 w3]. cbn in Hf, Hg3. subst f3.
  step. step. step as H4'. { by apply keeps_at, keeps_attempt, on_world_goes, activate_keeps. }
  destruct (attempt_world _ _ _ _ _ _ (activate_keeps _ _ _ _ _ Hd) Hg3 H4') as (w4 & -> & Hg4).
  step as H5'. { by apply until_calm, keeps_at, verify_active_goes. }
  destruct (verify_active_seen _ _ _ _ _ _ _ _ Hg4 Hu H5') as (w5 & -> & Hg5 & _).
  step as H6'. { by apply until_calm, keeps_at, budget_goes. }
  destruct (good_budget _ _ _ _ _ Hg5 H6') as (o' & w6 & -> & Hg6).
  by apply set_active_goes.
Qed.

(** A call that went [P] somewhere. *)
Lemma goes_call {E A} P (m : Io (LeaseBoundFence * W) E A) s s' r :
  keeps (goes P) m → good s → m s = (s', r) → good s' ∧ moves (Ctx := Ctx) P s.2 s'.2.
Proof. intros Hm Hs Hr. destruct (Hm s Hs) as (? & ? & _). by rewrite Hr in *. Qed.

Lemma goes_moves P s s' : goes P s s' → good s → moves (Ctx := Ctx) P s.2 s'.2.
Proof. intros Hg Hs. by destruct (Hg Hs) as (_ & ? & _). Qed.

(** What has been read of the clock. *)
Lemma observe_reads s s' n :
  observe_boot_time s = (s', Ok n) →
  system_clock s.2 ≤ n ≤ system_clock s'.2 ∧ s'.1 = set_observed (Some n) s.1
  ∧ ∀ prior, lf_observations s.1 = Some prior → prior ≤ n.
Proof.
  destruct s as [f w]. intros Hb. unfold observe_boot_time, self in Hb. io_inv Hb.
  apply on_world_same in Hc as (w1 & -> & Hw). injection Hc0 as <- <-. injection Hc2 as <-.
  cbn [fst snd] in *. split; [by apply (now_reads others)|]. unfold observe in Hc1.
  destruct (lf_observations f) as [prior|].
  - destruct (_ <? prior) eqn:E; [done|]. injection Hc1 as <-. to_prop. split; [done|].
    intros ? [= <-]. lia.
  - by injection Hc1 as <-.
Qed.

Lemma budget_reads d s0 s s' :
  verify_operation_budget d s0 s = (s', Ok tt) →
  s0 < d ≤ s0 + EGRESS_FENCE_MAX_GATE_LIFETIME_NS
  ∧ ∃ now, system_clock s.2 ≤ now ≤ system_clock s'.2 ∧ s0 ≤ now < d
           ∧ s'.1 = set_observed (Some now) s.1.
Proof.
  intros Hb. unfold verify_operation_budget, refuse in Hb. io_inv Hb.
  apply checked_sub_some in Hc as [-> Hle]. facts. split; [lia|].
  destruct (observe_reads _ _ _ Hc1) as (Hn & Hf & _). by eexists.
Qed.

(** The readback of an open gate and the budget check after it. *)
Lemma opened_seen t d e mutation s0 f w s1 entry s2 :
  good (f, w) → u64 t → verify_active t d e mutation (f, w) = (s1, Ok entry) →
  verify_operation_budget d s0 s1 = (s2, Ok tt) →
  ∃ w' now, s2 = (set_observed (Some now) f, w') ∧ good (set_observed (Some now) f, w')
    ∧ s0 ≤ now < d ∧ system_clock w ≤ now ≤ system_clock w'
    ∧ between w w' (λ m, gate_open (fs_maps m) (lf_socket_cookie f) t d).
Proof.
  intros Hg Hu Hv Hb.
  pose proof (goes_moves _ _ _ (verify_active_goes t d e mutation (f, w)) Hg) as M1. rewrite Hv in M1.
  destruct (verify_active_seen _ _ _ _ _ _ _ _ Hg Hu Hv) as (w1 & -> & Hg1 & _ & Hbt).
  pose proof (budget_goes d s0 (f, w1) Hg1) as (Hg2 & M2 & _). rewrite Hb in Hg2, M2.
  destruct (budget_reads _ _ _ _ Hb) as [_ (now & Hn & Hs & Hf)].
  destruct s2 as [f2 w2]. cbn in Hf, Hn, M1, M2, Hg2. subst f2.
  exists w2, now. pose proof (moves_clock _ _ _ (gd_reaches _ Hg) M1) as Hcl. cbn in Hcl.
  split_and!; try done; [lia..|]. eapply (between_wider (calm others)); [reflexivity|done|done].
Qed.

(** What a completed activation has done. *)
Lemma publish_register_activate_seen g t r d s0 x f w s' :
  good (f, w) → u64 t → 0 ≤ d → lf_terminal f = false →
  publish_register_activate g t r d s0 x (f, w) = (s', Ok tt) →
  s0 < d ≤ s0 + EGRESS_FENCE_MAX_GATE_LIFETIME_NS ∧ d ≤ x
  ∧ ∃ w' now ep, s' = (set_active ep (LeaseBinding_from_guard g t r x) d
                         (set_observed (Some now) (set_registered (set_tokens t r f))), w')
    ∧ s0 ≤ now < d ∧ system_clock w ≤ now ≤ system_clock w'
    ∧ between w w' (λ m, gate_open (fs_maps m) (lf_socket_cookie f) t d).
Proof.
  intros Hg Hu Hd Ht Hp. unfold publish_register_activate, self, refuse in Hp. io_inv Hp.
  destruct (budget_reads _ _ _ _ Hc) as [Hlife _]. split; [done|]. facts. split; [done|].
  destruct (good_budget _ _ _ _ _ Hg Hc) as (o & w1 & -> & Hg1).
  pose proof (goes_moves _ _ _ (budget_goes d s0 (f, w)) Hg) as M1. rewrite Hc in M1.
  pose proof (publish_verified_goes t r _ _ Hg1 Hu Hc1) as G2. rewrite Hc2 in G2.
  destruct (G2 Hg1) as (Hg2 & M2 & _). apply publish_verified_leaves in Hc2 as [_ Hf2].
  destruct x7 as [f2 w2]. cbn in Hf2. subst f2.
  pose proof (register_verified_goes t _ _ Hg2 Ht eq_refl) as G3. rewrite Hc3 in G3.
  destruct (G3 Hg2) as (Hg3 & M3 & _). apply register_verified_leaves in Hc3 as Hf3.
  destruct x9 as [f3 w3]. cbn in Hf3. subst f3. injection Hc4 as <- <-. cbn [fst snd] in *.
  apply on_world_same in Hc6 as (w4 & -> & Hact).
  pose proof (activate_keeps (lf_identity f) (lf_socket_cookie f) t d EGRESS_FENCE_INITIAL_COOKIE_EPOCH Hd w3)
    as M4. change (activate (lf_identity f) (lf_socket_cookie f) t d EGRESS_FENCE_INITIAL_COOKIE_EPOCH w3
    = (w4, x14)) in Hact. rewrite Hact in M4. pose proof (good_world _ _ _ _ Hg3 M4) as Hg4.
  destruct (opened_seen _ _ _ _ _ _ _ _ _ _ Hg4 Hu Hc7 Hc8) as (w5 & now & -> & _ & Hs & Hn & Hb).
  injection Hp as <-. exists w5, now, (ke_control_epoch x16). split; [done|]. split; [done|].
  assert (moves (Ctx := Ctx) (until others d) w w4) as M.
  { etransitivity; [|exact M4]. eapply moves_mono; [|etransitivity; [exact M1|by etransitivity]].
    intros b [?|Hq]; [by left|right; apply Hq]. }
  pose proof (moves_clock _ _ _ (gd_reaches _ Hg) M) as Hcl. cbn [fst snd] in *. split; [lia|].
  by eapply (between_wider _ (calm others)); [exact M| |reflexivity].
Qed.
End Client.
