(* ===== verification/FenceOperations.v ===== *)
(** The operations of the lease-bound fence engine on top of the kernel: acquisition,
    renewal, preflight and release keep the invariant whatever they return, and what their
    success means. *)

From S2P Require Import Prelude.
From S2P Require Import SessionTypes.
From S2P Require Import SessionTtl.
From S2P Require Import FenceAbi.
From S2P Require Import FenceCodec.
From S2P Require Import FencePacket.
From S2P Require Import FenceKernel.
From S2P Require Import FenceSystem.
From S2P Require Import FenceInvariant.
From S2P Require Import FenceSteps.
From S2P Require Import FenceReach.
From S2P Require Import FenceSafety.
From S2P Require Import FenceBound.
From S2P Require Import FenceLifecycle.
From S2P Require Import FenceControl.
From S2P Require Import FenceEngine.
From S2P Require Import FenceWorld.
From S2P Require Import FenceClient.

Section Operations.
Context {Ctx : Type} `{SkBuffLaws Ctx} {W : Type} `{FenceWorld W}.
Context (others : bytes → Prop) `{BootClock W} `{KernelControl W} `{TimestampRange}.
Context `{!ClockLaws (Ctx := Ctx) others} `{!KernelControlLaws (Ctx := Ctx) others}.

(** ** Refresh *)

Lemma matching_binding_inv f g b :
  matching_binding f g = Some b → lf_binding f = Some b ∧ binding_matches b g = true.
Proof. unfold matching_binding. repeat case_match; by intros; simplify_eq. Qed.

Lemma bound_token f w b :
  good (Ctx := Ctx) (f, w) → lf_binding f = Some b →
  lf_terminal f = false ∧ lf_registered f = true ∧ u64 (lb_socket_lifecycle_token b)
  ∧ lf_socket_lifecycle_token f = Some (lb_socket_lifecycle_token b)
  ∧ lf_retirement_lifecycle_token f = Some (lb_retirement_lifecycle_token b)
  ∧ validate_lifecycle_token_pair (lb_socket_lifecycle_token b)
      (lb_retirement_lifecycle_token b) = Ok tt.
Proof.
  intros [_ Hf _] Hb. cbn in *. destruct (fo_binding f Hf b Hb) as (Ht & Hr & Hto & Hre & _).
  destruct (fence_token f _ Hf Hto) as (r & Hr' & Hu & Hp). rewrite Hre in Hr'.
  injection Hr' as <-. done.
Qed.

Lemma refresh_verified_goes g d s0 x f w :
  good (Ctx := Ctx) (f, w) → 0 ≤ d →
  goes (Ctx := Ctx) (until others d) (f, w) (refresh_verified g d s0 x (f, w)).1.
Proof.
  intros Hg Hd. unfold refresh_verified.
  step as H1'. { apply until_calm, keeps_at, budget_goes; apply _. }
  destruct (good_budget others _ _ _ _ _ Hg H1') as (o & w1 & -> & Hg1). step. step as Hb.
  apply ok_or_ok, matching_binding_inv in Hb as [Hb _].
  destruct (bound_token _ _ _ Hg1 Hb) as (Ht & Hr & Hu & Hto & Hre & _). step as Hx.
  apply unless_ok in Hx. facts. step as H2'. { apply until_calm, keeps_at, inspect_exact_goes; apply _. }
  destruct (inspect_exact_seen others _ _ _ _ _ Hg1 Hu H2') as (w2 & -> & Hg2 & _).
  step. step. step. step as H3'. { apply keeps_at, keeps_attempt, on_world_goes, refresh_keeps; done || apply _. }
  destruct (attempt_world _ _ _ _ _ _ (refresh_keeps others _ _ _ _ _ Hd) Hg2 H3') as (w3 & -> & Hg3).
  step as H4'. { apply until_calm, keeps_at, verify_active_goes; apply _. }
  destruct (verify_active_seen others _ _ _ _ _ _ _ _ Hg3 Hu H4') as (w4 & -> & Hg4 & _).
  step as H5'. { apply until_calm, keeps_at, budget_goes; apply _. }
  destruct (good_budget others _ _ _ _ _ Hg4 H5') as (o' & w5 & -> & Hg5).
  by apply set_active_goes.
Qed.

(** What a completed refresh has done. *)
Lemma refresh_verified_seen g d s0 x f w s' :
  good (Ctx := Ctx) (f, w) → 0 ≤ d → refresh_verified g d s0 x (f, w) = (s', Ok tt) →
  s0 < d ≤ s0 + EGRESS_FENCE_MAX_GATE_LIFETIME_NS ∧ d ≤ x
  ∧ ∃ b w' now ep, matching_binding f g = Some b ∧ lb_durable_expiry_boot_ns b < x
    ∧ s' = (set_active ep (LeaseBinding_from_guard g (lb_socket_lifecycle_token b)
                             (lb_retirement_lifecycle_token b) x) d
              (set_observed (Some now) f), w')
    ∧ s0 ≤ now < d ∧ system_clock w ≤ now ≤ system_clock w'
    ∧ between (Ctx := Ctx) w w' (λ m,
        gate_open (fs_maps m) (lf_socket_cookie f) (lb_socket_lifecycle_token b) d).
Proof.
  intros Hg Hd Hp. unfold refresh_verified, self, refuse in Hp. io_inv Hp.
  destruct (budget_reads others _ _ _ _ Hc) as [Hlife _]. split; [done|].
  destruct (good_budget others _ _ _ _ _ Hg Hc) as (o & w1 & -> & Hg1). injection Hc0 as <- <-.
  cbn [fst snd] in *. facts. split; [done|]. rename x4 into b.
  pose proof Hc1 as [Hb _]%matching_binding_inv.
  destruct (bound_token _ _ _ Hg1 Hb) as (_ & _ & Hu & _).
  pose proof (goes_moves _ _ _ (budget_goes others d s0 (f, w)) Hg) as M1. rewrite Hc in M1.
  pose proof (goes_moves _ _ _ (inspect_exact_goes others (lb_socket_lifecycle_token b)
    (set_observed o f, w1)) Hg1) as M2. rewrite Hc3 in M2.
  destruct (inspect_exact_seen others _ _ _ _ _ Hg1 Hu Hc3) as (w2 & -> & Hg2 & _).
  apply on_world_same in Hc7 as (w3 & -> & Hr).
  pose proof (refresh_keeps others (lf_identity f) (lf_socket_cookie f)
    (lb_socket_lifecycle_token b) d (lf_control_epoch f) Hd w2) as M3.
  change (refresh (lf_identity f) (lf_socket_cookie f) (lb_socket_lifecycle_token b) d
    (lf_control_epoch f) w2 = (w3, x16)) in Hr. rewrite Hr in M3.
  pose proof (good_world _ _ _ _ Hg2 M3) as Hg3.
  destruct (opened_seen others _ _ _ _ _ _ _ _ _ _ Hg3 Hu Hc8 Hc9) as (w4 & now & -> & _ & Hs & Hn & Hbt).
  injection Hp as <-. exists b, w4, now, (ke_control_epoch x18). cbn [fst snd] in *.
  assert (moves (Ctx := Ctx) (until others d) w w3) as M.
  { etransitivity; [|exact M3]. eapply moves_mono; [|by etransitivity].
    intros c [?|Hq]; [by left|right; apply Hq]. }
  pose proof (moves_clock _ _ _ (gd_reaches _ Hg) M) as Hcl. cbn [fst snd] in Hcl.
  split_and!; try done; try lia.
  eapply (between_wider _ (calm others)); [exact M|exact Hbt|reflexivity].
Qed.

(** ** Preflight *)

Lemma preflight_exact_goes : keeps (goes (Ctx := Ctx) (calm others)) preflight_send_exact.
Proof.
  unfold preflight_send_exact. go; [apply observe_goes|apply inspect_exact_goes]; apply _.
Qed.

Lemma preflight_goes : keeps (goes (Ctx := Ctx) (calm others)) preflight_send.
Proof.
  intros s. unfold preflight_send. pose proof (preflight_exact_goes s) as Hg.
  destruct (preflight_send_exact s) as [s' r]. destruct (is_err r); [|done].
  etransitivity; [exact Hg|]. apply (closing_goes others).
Qed.

(** What a granted preflight has seen. *)
Lemma preflight_seen f w s' :
  good (Ctx := Ctx) (f, w) → preflight_send (f, w) = (s', Ok tt) →
  lf_terminal f = false
  ∧ ∃ b w' now, lf_binding f = Some b ∧ s' = (set_observed (Some now) f, w')
    ∧ system_clock w ≤ now < lf_active_deadline_boot_ns f
    ∧ lf_active_deadline_boot_ns f ≤ lb_durable_expiry_boot_ns b
    ∧ between (Ctx := Ctx) w w' (λ m,
        gate_open (fs_maps m) (lf_socket_cookie f) (lb_socket_lifecycle_token b)
          (lf_active_deadline_boot_ns f)).
Proof.
  intros Hg Hp. assert (preflight_send_exact (f, w) = (s', Ok tt)) as Hx.
  { unfold preflight_send in Hp. destruct (preflight_send_exact (f, w)) as [s1 [u|e|]]; done. }
  unfold preflight_send_exact, self, refuse in Hx. io_inv Hx. injection Hc as <- <-.
  facts. rename x3 into b. destruct (bound_token _ _ _ Hg Hc1) as (_ & _ & Hu & _).
  destruct (fo_binding f (gd_fence _ Hg) b Hc1) as (_ & _ & _ & _ & Hdl).
  pose proof (observe_goes others (f, w) Hg) as (Hg1 & M1 & _). rewrite Hc2 in Hg1, M1.
  destruct (observe_reads others _ _ _ Hc2) as (Hn & Hf & _). destruct x6 as [f1 w1].
  cbn [fst snd] in *. subst f1.
  destruct (inspect_exact_seen others _ _ _ _ _ Hg1 Hu Hc3) as (w2 & -> & _ & Hb).
  split; [done|]. exists b, w2, x5. split_and!; try done; try lia.
  destruct (ki_entry x7) as [e|] eqn:He; [|done]. cbn in Hc5. unfold active_entry_matches in Hc5.
  facts. destruct (open_entry _ e _ _ (lf_active_deadline_boot_ns f) (lf_control_epoch f) _ Hc4)
    as [Hcur ->]; try done.
  eapply (between_wider _ (calm others)); [exact M1| |reflexivity]. by eapply between_open.
Qed.

(** A refused one leaves nothing active. *)
Lemma preflight_refused s s' e : preflight_send s = (s', Err e) → inactive s'.1.
Proof.
  unfold preflight_send. destruct (preflight_send_exact s) as [s1 [u|e'|]]; try done.
  cbn. intros [= <- <-]. unfold closing. cbn. apply terminal_close_inactive.
Qed.

(** ** Release *)

Lemma prepare_release_goes lease : keeps (goes (Ctx := Ctx) (calm others)) (prepare_release lease).
Proof.
  unfold prepare_release. go. destruct (matching_binding _ _); go.
  - apply (terminal_close_goes others).
  - apply (inspect_exact_goes others).
  - apply (closing_goes others).
Qed.

(** A prepared release: the engine is closed for good, and the pending closure names its
    lifecycle. *)
Lemma prepare_release_seen lease f w s' p :
  good (Ctx := Ctx) (f, w) → prepare_release lease (f, w) = (s', Ok p) →
  ∃ b, matching_binding f lease = Some b ∧ inactive s'.1
    ∧ pt_socket_lifecycle_token p = lb_socket_lifecycle_token b
    ∧ pt_retirement_lifecycle_token p = lb_retirement_lifecycle_token b
    ∧ pt_lease_fence_token p = lease_fence lease.
Proof.
  intros Hg Hp. unfold prepare_release, self, refuse in Hp. io_inv Hp.
  injection Hc as <- <-. cbn [fst] in Hp. destruct (matching_binding f lease) as [b|] eqn:Hm.
  2: { by io_inv Hp. }
  io_inv Hp. exists b. split; [done|]. injection Hc1 as <- <-.
  pose proof (terminal_close_inactive (f, w)) as Hin. rewrite Hc in Hin. cbn [fst] in Hin.
  apply (keeps_eq same) in Hc0; [|apply inspect_exact_same]. unfold same in Hc0.
  rewrite Hc0. split_and!; try done. unfold nonzero in Hc5. destruct (_ =? 0); [done|].
  injection Hc5 as <-. cbn. apply matching_binding_inv in Hm as [_ Hm].
  unfold binding_matches in Hm. by facts.
Qed.

Lemma publish_retirement_keeps id t :
  keeps (moves (Ctx := Ctx) (calm others)) (publish_retirement id t).
Proof. intros w. apply (publish_retirement_moves others). Qed.
Lemma reclaim_keeps id c t e : keeps (moves (Ctx := Ctx) (calm others)) (reclaim id c t e).
Proof. intros w. apply (reclaim_moves others). Qed.

Lemma reclaim_admitted f p :
  reclaim_refused f p = Ok false →
  lf_terminal f = true ∧ lf_close_verified f = true ∧ pt_socket_cookie p = lf_socket_cookie f
  ∧ lf_socket_lifecycle_token f = Some (pt_socket_lifecycle_token p)
  ∧ lf_retirement_lifecycle_token f = Some (pt_retirement_lifecycle_token p)
  ∧ pt_attachment p = id_durable (lf_identity f).
Proof.
  unfold reclaim_refused. destruct (_ || _) eqn:E; [done|]. facts. intros Hr.
  destruct (lf_socket_lifecycle_token f) as [t|]; [|done]. cbn in Hr.
  destruct (negb _) eqn:Et; [done|]. destruct (lf_retirement_lifecycle_token f) as [r|]; [|done].
  cbn in Hr. injection Hr as Hr. facts. by subst.
Qed.

Lemma set_reclaimed_goes {E} P f w :
  lf_terminal f = true → lf_close_verified f = true →
  goes (Ctx := Ctx) P (f, w) (assign (E := E) set_reclaimed (f, w)).1.
Proof.
  intros Ht Hc. apply assign_goes; [done|done|]. intros [] Hs. split.
  - split; try done. cbn. intros Hf. congruence.
  - intros Hr _ t Hto. apply Hs; [done|by left|done].
Qed.

Lemma reclaim_goes p f w :
  good (Ctx := Ctx) (f, w) →
  goes (Ctx := Ctx) (calm others) (f, w) (reclaim_after_socket_close p (f, w)).1.
Proof.
  intros Hg. unfold reclaim_after_socket_close. step. step as Hr. step as Hn.
  apply unless_ok in Hn. subst. destruct (reclaim_admitted _ _ Hr) as (Ht & Hc & _). step as Hp.
  step as H1'. { apply keeps_at, inspect_exact_goes; apply _. }
  apply (keeps_eq same) in H1'; [|apply inspect_exact_same]. destruct s1 as [f1 w1].
  unfold same in H1'. cbn in H1'. subst f1. step. step.
  step as H2'. { apply keeps_at, keeps_attempt, on_world_goes, publish_retirement_keeps. }
  apply attempt_ok, on_world_same in H2' as (w2 & -> & _).
  step as H3'. { apply keeps_at, inspect_exact_goes; apply _. }
  apply (keeps_eq same) in H3'; [|apply inspect_exact_same]. destruct s1 as [f3 w3].
  unfold same in H3'. cbn in H3'. subst f3. step.
  step as H4'. { apply keeps_at, keeps_attempt, on_world_goes, reclaim_keeps. }
  apply attempt_ok, on_world_same in H4' as (w4 & -> & _).
  step as H5'. { apply keeps_at, inspect_exact_goes; apply _. }
  apply (keeps_eq same) in H5'; [|apply inspect_exact_same]. destruct s1 as [f5 w5].
  unfold same in H5'. cbn in H5'. subst f5. step. step. step as H6'.
  { by apply set_reclaimed_goes. }
  apply (keeps_ret _ _ _).
Qed.

(** The evidence of a completed reclamation: the lifecycle is retired, and whatever follows,
    only a later one can open the gate. *)
Lemma reclaim_seen p f w s' ev :
  good (Ctx := Ctx) (f, w) → reclaim_after_socket_close p (f, w) = (s', Ok ev) →
  ev = mkTerminalClosureEvidence (pt_attachment p) (pt_lease_fence_token p)
         (pt_socket_lifecycle_token p) (pt_retirement_lifecycle_token p) (pt_control_epoch p)
  ∧ s'.1 = set_reclaimed f ∧ pt_attachment p = id_durable (lf_identity f)
  ∧ lf_retirement_lifecycle_token f = Some (pt_retirement_lifecycle_token p)
  ∧ ∀ sys cookie t d, leads (Ctx := Ctx) (λ _, True) (kernel_system s'.2) sys →
      gate_open (fs_maps sys) cookie t d → pt_retirement_lifecycle_token p < t.
Proof.
  intros Hg Hp. unfold reclaim_after_socket_close, self, refuse in Hp. io_inv Hp.
  injection Hc as <- <-. cbn [fst snd] in *. subst.
  destruct (reclaim_admitted _ _ Hc0) as (Ht & Hcl & _ & Hto & Hrt & Hat).
  destruct (fence_token f _ (gd_fence _ Hg) Hto) as (r & _ & Hu & _).
  destruct (inspect_exact_seen others _ _ _ _ _ Hg Hu Hc3) as (w1 & -> & Hg1 & _).
  apply on_world_same in Hc6 as (w2 & -> & H2').
  pose proof (publish_retirement_keeps (lf_identity f) (pt_retirement_lifecycle_token p) w1) as M2.
  rewrite H2' in M2. pose proof (good_world _ _ _ _ Hg1 M2) as Hg2.
  destruct (inspect_exact_seen others _ _ _ _ _ Hg2 Hu Hc7) as (w3 & -> & Hg3 & _).
  apply on_world_same in Hc9 as (w4 & -> & H4').
  pose proof (reclaim_keeps (lf_identity f) (lf_socket_cookie f) (pt_socket_lifecycle_token p)
    (pt_control_epoch p) w3) as M4. rewrite H4' in M4. pose proof (good_world _ _ _ _ Hg3 M4) as Hg4.
  destruct (inspect_exact_seen others _ _ _ _ _ Hg4 Hu Hc10) as (w5 & -> & _ & (m & _ & Hl & Hr & Ho)).
  injection Hc13 as <-. split_and!; try done. intros sys cookie t d Hls Hgate.
  apply require_current_inv in Hc12.
  by eapply (retired_shut m _ _ _ cookie t d sys (λ _, True) Hr Ho); [|eapply leads_trans|].
Qed.
End Operations.

(** ** Under the lease *)

Lemma map_err_state {S E F A} (f : E → F) (m : Io S E A) s : (io_map_err f m s).1 = (m s).1.
Proof. unfold io_map_err. by destruct (m s). Qed.

(** A check of an operation that holds a lease. *)
Lemma check_at {W E A B} (R : LeaseBoundFence * W → LeaseBoundFence * W → Prop)
    `{PreOrder _ R} g (r : outcome FenceError A)
    (k : A → Io (LeaseBoundFence * W) (Stopped E) B) s :
  (∀ a, r = Ok a → R s (k a s).1) → R s (io_bind (returning_lease g (lift r)) k s).1.
Proof. intros Hk. destruct r; cbn; [by apply Hk|reflexivity..]. Qed.

Tactic Notation "check" "as" ident(H) :=
  unfold refuse; refine (check_at _ _ _ _ _ _); intros ? H;
  repeat match goal with u : () |- _ => destruct u end.

Section Lease.
Context {Ctx : Type} `{SkBuffLaws Ctx} {W : Type} `{FenceWorld W}.
Context (others : bytes → Prop) `{BootClock W} `{KernelControl W} `{TimestampRange}.
Context `{!ClockLaws (Ctx := Ctx) others} `{!KernelControlLaws (Ctx := Ctx) others}.
Context {E : Type} `{EgressFenceLeaseAuthority W E} `{!AuthorityLaws (Ctx := Ctx) (E := E) others}.

(** What moves the world asks for no deadline beyond the lease it leaves. *)
Definition within_lease (s s' : LeaseBoundFence * W) : Prop :=
  goes (Ctx := Ctx) (until others (lease_until s'.2)) s s'.

Lemma until_mono l l' b : l ≤ l' → until others l b → until others l' b.
Proof.
  intros Hl [Hb|Hb]; [by left|right]. intros c Hc. eapply command_within_mono; [done|by apply Hb].
Qed.

#[export] Instance within_preorder : PreOrder within_lease.
Proof.
  split; unfold within_lease; [intros s; reflexivity|]. intros s1 s2 s3 H12 H23 Hs.
  destruct (H12 Hs) as (Hs2 & _). pose proof (goes_moves _ _ _ H23 Hs2) as [Hl _].
  refine (transitivity _ H23 Hs). eapply goes_mono; [|exact H12]. intros b. by apply until_mono.
Qed.

Lemma calm_within s s' : goes (Ctx := Ctx) (calm others) s s' → within_lease s s'.
Proof. apply until_calm. Qed.

Lemma others_within s s' : goes (Ctx := Ctx) others s s' → within_lease s s'.
Proof. intros Hg. apply calm_within. eapply goes_mono; [|exact Hg]. by left. Qed.

Lemma deadline_within d s s' :
  goes (Ctx := Ctx) (until others d) s s' → d ≤ lease_until s.2 → within_lease s s'.
Proof.
  intros Hg Hd Hs. destruct (goes_moves _ _ _ Hg Hs) as [Hl _].
  refine (goes_mono _ _ _ _ _ Hg Hs). intros b. apply until_mono. lia.
Qed.

(** *** Awaiting the authority *)

Lemma await_goes {A} err (m : W → W * Awaited (outcome E A)) :
  (∀ w, moves (Ctx := Ctx) others w (m w).1) → keeps (goes (Ctx := Ctx) others) (await err m).
Proof.
  intros Hm [f w] Hg. specialize (Hm w). unfold await. cbn [fst snd] in *.
  destruct (m w) as [w' r]. cbn [fst snd] in *. split_and!; [by eapply good_world|done|done|done].
Qed.

Lemma await_world {A} err (m : W → W * Awaited (outcome E A)) f w s' a :
  (∀ w, moves (Ctx := Ctx) others w (m w).1) → good (Ctx := Ctx) (f, w) →
  await err m (f, w) = (s', Ok a) →
  ∃ w', s' = (f, w') ∧ m w = (w', Completed (Ok a)) ∧ good (Ctx := Ctx) (f, w')
        ∧ moves (Ctx := Ctx) others w w'.
Proof.
  intros Hm Hg. specialize (Hm w). unfold await. cbn [fst snd].
  destruct (m w) as [w' [[?| |]|]]; try done. intros [= <- <-]. exists w'.
  split_and!; try done. by eapply good_world.
Qed.

Definition timing_ok (t : LeaseFenceTiming) : Prop :=
  0 ≤ lt_ttl t ∧ 0 ≤ lt_safety_margin t
  ∧ LeaseFenceTiming_new (lt_ttl t) (lt_safety_margin t) = Ok t.

(** The deadline of an operation is its start, the lifetime of the gate later. *)
Lemma deadline_exact t start d :
  timing_ok t → deadline_from t start = Ok d →
  d = start + lt_ttl t - lt_safety_margin t ∧ start < d ≤ start + EGRESS_FENCE_MAX_GATE_LIFETIME_NS
  ∧ d < start + lt_ttl t ∧ d ≤ U64_MAX.
Proof.
  intros (Ht & Hm & Hn) Hd. unfold deadline_from, LeaseFenceTiming_new, active_gate_lifetime_ns in *.
  cbn [lt_ttl lt_safety_margin] in Hn.
  destruct (_ || _) eqn:E0; [done|]. facts.
  rewrite checked_sub_ok in Hn, Hd by lia. cbn [ok_or] in *. unfold u64_from in *.
  destruct ((0 <=? _) && _) eqn:E1; cbn [ok_or] in *; [|done].
  destruct (_ <? _) eqn:E2; [done|]. apply ok_or_ok, checked_add_some in Hd as [-> Hle].
  unfold USIZE_MAX, U64_MAX in *. facts. lia.
Qed.

Lemma lifetime_bounded t :
  timing_ok t → 0 < lt_ttl t - lt_safety_margin t ≤ EGRESS_FENCE_MAX_GATE_LIFETIME_NS.
Proof.
  intros Ht. destruct (deadline_from t 0) as [d|e|] eqn:Hd.
  - apply (deadline_exact _ _ _ Ht) in Hd as (-> & Hd & _). lia.
  - destruct Ht as (Hp & Hm & Hn). unfold deadline_from, LeaseFenceTiming_new, active_gate_lifetime_ns in *.
    cbn [lt_ttl lt_safety_margin] in Hn. destruct (_ || _); [done|]. destruct (ok_or _ _) as [b| |]; try done.
    cbn in *. destruct (ok_or (u64_from b) _) as [n| |] eqn:Hu; try done. cbn in *.
    apply ok_or_ok in Hu. unfold u64_from in Hu. destruct (_ && _) eqn:Eu; [|done]. injection Hu as ->.
    facts. unfold checked_add in Hd. destruct (_ <=? _) eqn:El; [done|]. facts.
    unfold USIZE_MAX, U64_MAX in *. lia.
  - unfold deadline_from, active_gate_lifetime_ns, ok_or in Hd. repeat case_match; try done; simplify_eq.
Qed.

Lemma clock_nonneg (w : W) : reaches (Ctx := Ctx) (kernel_system w) → 0 ≤ system_clock w.
Proof. intros [c Hs]%reaches_ok. apply (mo_clock _ _ (so_maps _ _ Hs)). Qed.

(** *** Acquisition *)

Lemma now_not_before_goes p : keeps (goes (Ctx := Ctx) (calm others)) (now_not_before p).
Proof. unfold now_not_before. go. apply (observe_goes others). Qed.

Lemma now_not_before_idles p : keeps idles (now_not_before p).
Proof. unfold now_not_before. go. apply observe_idles. Qed.

(** An idling call that moves the world calmly. *)
Lemma idle_call {F A} (m : Io (LeaseBoundFence * W) F A) f w s' r :
  keeps (goes (Ctx := Ctx) (calm others)) m → keeps idles m → good (Ctx := Ctx) (f, w) →
  m (f, w) = (s', r) →
  ∃ o w', s' = (set_observed o f, w') ∧ good (Ctx := Ctx) (set_observed o f, w')
          ∧ moves (Ctx := Ctx) (calm others) w w'.
Proof.
  intros Hm Hi Hg Hr. pose proof (Hm (f, w) Hg) as (Hg' & M & _). rewrite Hr in Hg', M.
  apply (keeps_eq idles) in Hr; [|done]. destruct s' as [f' w']. unfold idles in Hr.
  cbn in Hr, Hg', M. exists (lf_observations f'), w'. by rewrite <-Hr.
Qed.

Lemma activation_path_same t r p g l : keeps same (activation_path t r p g l).
Proof. unfold activation_path. go. apply inspect_current_same. Qed.

Lemma acquire_pending_within key owner timing f w :
  good (Ctx := Ctx) (f, w) → lf_terminal f = false → timing_ok timing →
  within_lease (f, w) (acquire_pending key owner timing (f, w)).1.
Proof.
  intros Hg Ht Htm. unfold acquire_pending.
  step as H1'. { apply calm_within, keeps_at, keeps_map_err, (observe_goes others). }
  apply map_err_call_ok in H1'. destruct (observe_reads others _ _ _ H1') as (Hn & _).
  destruct (idle_call _ _ _ _ _ (observe_goes others) observe_idles Hg H1') as (o & w1 & -> & Hg1 & M1).
  step. step as H2'. { apply others_within, keeps_at, await_goes. intros. apply (acquire_moves (others := others)). }
  destruct (await_world _ _ _ _ _ _ (acquire_moves (others := others) _ _ _ _ _) Hg1 H2')
    as (w2 & -> & Hgrant & Hg2 & _).
  destruct (acquire_promises (others := others) _ _ _ _ _ _ _ _ Hgrant) as (Hl & Hu & _).
  rename a into start, a0 into grant.
  check as Hi. check as Hx. check as Hp.
  step as H3'. { apply calm_within, keeps_at, keeps_map_err, now_not_before_goes. }
  apply map_err_call_ok in H3'.
  destruct (idle_call _ _ _ _ _ (now_not_before_goes _) (now_not_before_idles _) Hg2 H3')
    as (o' & w3 & -> & Hg3 & [Hl3 _]).
  step as H4'. { apply calm_within, keeps_at, keeps_map_err, (activation_path_goes others). }
  apply map_err_call_ok in H4'.
  destruct (goes_call _ _ _ _ _ (activation_path_goes others _ _ _ _ _) Hg3 H4') as (Hg4 & [Hl4 _]).
  apply (keeps_eq same) in H4'; [|apply activation_path_same].
  destruct s1 as [f4 w4]. unfold same in H4'. cbn in H4', Hg4, Hl4. subst f4.
  check as Hd. check as Hle. apply (deadline_exact _ _ _ Htm) in Hd as (_ & Hd & Hd' & _).
  cbn [fst snd] in Hn. pose proof (clock_nonneg _ (gd_reaches _ Hg)) as Hc0. cbn [snd] in Hc0.
  step as H5'; [|apply (keeps_ret _ _ _)]. apply (deadline_within a2); [|cbn [snd]; lia].
  unfold returning_lease. rewrite map_err_state. apply publish_register_activate_goes; try done; [apply _..|lia].
Qed.

Lemma pending_within {A} (m : Io (LeaseBoundFence * W) (Stopped E) A) s :
  within_lease s (m s).1 → within_lease s (pending_transition m s).1.
Proof.
  intros Hm. unfold pending_transition. destruct (m s) as [s' r]. destruct (is_ok r); [done|].
  etransitivity; [exact Hm|]. apply calm_within, (closing_goes others).
Qed.

Lemma transition_ok {A} (m : Io (LeaseBoundFence * W) (Stopped E) A) s s' a :
  pending_transition m s = (s', Ok a) → m s = (s', Ok a).
Proof. unfold pending_transition. by destruct (m s) as [s1 [?| |]]. Qed.

(** Without its guard, a transition leaves nothing active. *)
Lemma pending_inactive {A} (m : Io (LeaseBoundFence * W) (Stopped E) A) s s' r :
  pending_transition m s = (s', r) → is_ok r = false → inactive s'.1.
Proof.
  unfold pending_transition. destruct (m s) as [s1 r1]. destruct (is_ok r1) eqn:Hr.
  - intros [= <- <-]. by rewrite Hr.
  - intros [= <- <-] _. unfold closing. cbn. apply terminal_close_inactive.
Qed.

Lemma acquire_within key owner timing s :
  timing_ok timing → within_lease s (fence_acquire (E := E) key owner timing s).1.
Proof.
  intros Ht Hg. revert Hg. destruct s as [f w]. unfold fence_acquire. intros Hg.
  refine ((_ : within_lease (f, w) _) Hg). step. destruct (_ || _) eqn:Hb; [apply (keeps_lift _ _ _)|].
  facts. apply pending_within. by apply acquire_pending_within.
Qed.

(** The authority granted [guard] and the tokens to a call made at [start] or later. *)
Definition granted (key : SessionKey) (owner : string) (timing : LeaseFenceTiming)
    (f : LeaseBoundFence) (start : Z) (guard : LeaseGuard) (t r : Z) : Prop :=
  ∃ w w' grant,
    authority_acquire key owner (lt_ttl timing) (id_durable (lf_identity f))
      (active_gate_lifetime timing) w = (w', Completed (Ok grant))
    ∧ start ≤ system_clock w ∧ fg_guard grant = guard
    ∧ fg_socket_lifecycle_token grant = t ∧ fg_retirement_lifecycle_token grant = r.

(** What an acquisition that returned its guard has done. *)
Lemma acquire_pending_seen key owner timing f w s' guard :
  good (Ctx := Ctx) (f, w) → lf_terminal f = false → timing_ok timing →
  acquire_pending (E := E) key owner timing (f, w) = (s', Ok guard) →
  ∃ start interval t r ep w' now,
    granted key owner timing f start guard t r
    ∧ validate_acquired_guard key owner guard (lt_ttl timing) = Ok interval
    ∧ validate_lifecycle_token_pair t r = Ok tt
    ∧ let d := start + lt_ttl timing - lt_safety_margin timing in
      s' = (set_active ep (LeaseBinding_from_guard guard t r (start + interval)) d
              (set_observed (Some now) (set_registered (set_tokens t r f))), w')
      ∧ d ≤ start + interval
      ∧ system_clock w ≤ start ≤ now ∧ now < d ∧ now ≤ system_clock w'
      ∧ between (Ctx := Ctx) w w' (λ m, gate_open (fs_maps m) (lf_socket_cookie f) t d).
Proof.
  intros Hg Ht Htm Ha. unfold acquire_pending, self, refuse, failed, returning_lease in Ha. io_inv Ha.
  destruct (observe_reads others _ _ _ Hc) as (Hn & _). rename x into start, x3 into grant.
  destruct (idle_call _ _ _ _ _ (observe_goes others) observe_idles Hg Hc) as (o & w1 & -> & Hg1 & M1).
  injection Hc0 as <- <-.
  destruct (await_world _ _ _ _ _ _ (acquire_moves (others := others) _ _ _ _ _) Hg1 Hc1)
    as (w2 & -> & Hgrant & Hg2 & M2).
  destruct (acquire_promises (others := others) _ _ _ _ _ _ _ _ Hgrant) as (_ & Hu & _).
  destruct (idle_call _ _ _ _ _ (now_not_before_goes _) (now_not_before_idles _) Hg2 Hc5)
    as (o' & w3 & -> & Hg3 & M3).
  destruct (goes_call _ _ _ _ _ (activation_path_goes others _ _ _ _ _) Hg3 Hc6) as (Hg4 & M4).
  apply (keeps_eq same) in Hc6; [|apply activation_path_same].
  destruct x14 as [f4 w4]. unfold same in Hc6. cbn [fst snd] in *. subst f4.
  apply (deadline_exact _ _ _ Htm) in Hc7 as (-> & Hd & _). apply checked_add_some in Hc3 as [-> _].
  pose proof (clock_nonneg _ (gd_reaches _ Hg)) as Hc0. cbn [snd] in Hc0.
  apply (publish_register_activate_seen others) in Hc9 as (_ & Hle & w5 & now & ep & -> & Hs & Hn' & Hb);
    [|done|done|lia|done].
  exists start, x5, (fg_socket_lifecycle_token grant), (fg_retirement_lifecycle_token grant), ep, w5, now.
  split. { exists w1, w2, grant. cbn [fst snd] in Hn. split; [exact Hgrant|]. by split; [lia|]. }
  split_and!; try done; try lia.
  eapply (between_wider (calm others) (calm others)); [|done|reflexivity].
  etransitivity; [exact M1|]. etransitivity; [|etransitivity; [exact M3|exact M4]].
  eapply moves_mono; [|exact M2]. by left.
Qed.

(** *** Renewal *)

Lemma renew_pending_within current timing x f w :
  good (Ctx := Ctx) (f, w) → timing_ok timing →
  within_lease (f, w) (renew_pending (E := E) current timing x (f, w)).1.
Proof.
  intros Hg Htm. unfold renew_pending.
  step as H1'. { apply calm_within, keeps_at, keeps_map_err, (observe_goes others). }
  apply map_err_call_ok in H1'. destruct (observe_reads others _ _ _ H1') as (Hn & _).
  destruct (idle_call _ _ _ _ _ (observe_goes others) observe_idles Hg H1') as (o & w1 & -> & Hg1 & M1).
  rename a into start. check as Hd. apply (deadline_exact _ _ _ Htm) in Hd as (_ & Hd & Hd' & _).
  step as H2'. { apply others_within, keeps_at, await_goes. intros. apply (renew_moves (others := others)). }
  destruct (await_world _ _ _ _ _ _ (renew_moves (others := others) _ _) Hg1 H2')
    as (w2 & -> & Hren & Hg2 & _).
  pose proof (renew_promises (others := others) _ _ _ _ _ Hren) as Hl.
  check as Hi. check as Hx. check as Hle.
  cbn [fst snd] in Hn. pose proof (clock_nonneg _ (gd_reaches _ Hg)) as Hc0. cbn [snd] in Hc0.
  step as H5'; [|apply (keeps_ret _ _ _)]. apply (deadline_within a); [|cbn [snd]; lia].
  unfold returning_lease. rewrite map_err_state. apply refresh_verified_goes; try done; lia.
Qed.

Lemma renew_within current timing s :
  timing_ok timing → within_lease s (fence_renew (E := E) current timing s).1.
Proof.
  intros Ht Hg. revert Hg. destruct s as [f w]. unfold fence_renew. intros Hg.
  refine ((_ : within_lease (f, w) _) Hg). step. destruct (lf_terminal f); [apply (keeps_lift _ _ _)|].
  destruct (matching_binding f current) as [b|].
  - by apply pending_within, renew_pending_within.
  - step as H1'; [apply calm_within, (closing_goes others)|apply (keeps_lift _ _ _)].
Qed.

(** What a renewal that returned its guard has done. *)
Lemma renew_seen current timing f w s' renewed :
  good (Ctx := Ctx) (f, w) → timing_ok timing →
  fence_renew (E := E) current timing (f, w) = (s', Ok renewed) →
  ∃ b start extension ep w' now,
    matching_binding f current = Some b
    ∧ validate_guard_continuity current renewed (lt_ttl timing) = Ok extension
    ∧ let d := start + lt_ttl timing - lt_safety_margin timing in
      let expiry := lb_durable_expiry_boot_ns b + extension in
      s' = (set_active ep (LeaseBinding_from_guard renewed (lb_socket_lifecycle_token b)
                             (lb_retirement_lifecycle_token b) expiry) d
              (set_observed (Some now) f), w')
      ∧ d ≤ expiry ∧ lb_durable_expiry_boot_ns b < expiry
      ∧ system_clock w ≤ start ≤ now ∧ now < d ∧ now ≤ system_clock w'
      ∧ between (Ctx := Ctx) w w' (λ m,
          gate_open (fs_maps m) (lf_socket_cookie f) (lb_socket_lifecycle_token b) d).
Proof.
  intros Hg Htm Ha. unfold fence_renew, self in Ha. io_inv Ha. injection Hc as <- <-. cbn [fst] in Ha.
  destruct (lf_terminal f); [done|]. destruct (matching_binding f current) as [b|] eqn:Hb; [|by io_inv Ha].
  apply transition_ok in Ha. unfold renew_pending, refuse, returning_lease in Ha. io_inv Ha.
  destruct (observe_reads others _ _ _ Hc) as (Hn & _).
  destruct (idle_call _ _ _ _ _ (observe_goes others) observe_idles Hg Hc) as (o & w1 & -> & Hg1 & M1).
  destruct (await_world _ _ _ _ _ _ (renew_moves (others := others) _ _) Hg1 Hc1)
    as (w2 & -> & _ & Hg2 & M2).
  apply (deadline_exact _ _ _ Htm) in Hc0 as (-> & Hd & _). apply checked_add_some in Hc3 as [-> _].
  pose proof (clock_nonneg _ (gd_reaches _ Hg)) as Hc0. cbn [fst snd] in Hc0, Hn.
  apply (refresh_verified_seen others) in Hc5
    as (_ & Hle & b' & w3 & now & ep & Hb' & Hx & -> & Hs & Hn' & Hbt); [|done|lia].
  pose proof Hb as [Hbf _]%matching_binding_inv. apply matching_binding_inv in Hb' as [Hbf' _].
  cbn in Hbf'. rewrite Hbf in Hbf'. injection Hbf' as <-.
  exists b, x, x5, ep, w3, now. cbv zeta. split_and!; try done; try lia.
  eapply (between_wider (calm others) (calm others)); [|done|reflexivity].
  etransitivity; [exact M1|]. eapply moves_mono; [|exact M2]. by left.
Qed.

(** *** Failing closed *)

(** An acquisition of an engine that had none ends with its guard or with nothing active. *)
Lemma acquire_closed key owner timing f w s' r :
  lf_binding f = None → lf_terminal f = false → lf_registered f = false →
  fence_acquire (E := E) key owner timing (f, w) = (s', r) → is_ok r = false → inactive s'.1.
Proof.
  intros Hb Ht Hr Ha. unfold fence_acquire, io_bind, self, io_reads in Ha. cbn [fst] in Ha.
  rewrite Hb, Ht, Hr in Ha.
  change (pending_transition (acquire_pending key owner timing) (f, w) = (s', r)) in Ha.
  by eapply pending_inactive.
Qed.

(** So does every renewal of a live engine. *)
Lemma renew_closed current timing f w s' r :
  lf_terminal f = false →
  fence_renew (E := E) current timing (f, w) = (s', r) → is_ok r = false → inactive s'.1.
Proof.
  intros Ht Ha. unfold fence_renew, io_bind, self, io_reads in Ha. cbn [fst] in Ha. rewrite Ht in Ha.
  destruct (matching_binding f current) as [b|]; [by eapply pending_inactive|].
  unfold closing in Ha. injection Ha as <- <-. intros _. apply terminal_close_inactive.
Qed.
End Lease.
