(* ===== verification/FenceServe.v ===== *)
(** Every operation of a fenced socket and every step of its guardian keeps the invariant
    of the engine and the kernel, and asks the kernel for no deadline beyond the lease. *)

From S2P Require Import Prelude.
From S2P Require Import SessionTypes.
From S2P Require Import SessionTtl.
From S2P Require Import FenceAbi.
From S2P Require Import FencePacket.
From S2P Require Import FenceKernel.
From S2P Require Import FenceSystem.
From S2P Require Import FenceReach.
From S2P Require Import FenceSafety.
From S2P Require Import FenceBound.
From S2P Require Import FenceLifecycle.
From S2P Require Import FenceEngine.
From S2P Require Import FenceSocket.
From S2P Require Import FenceGuardian.
From S2P Require Import FenceWorld.
From S2P Require Import FenceClient.
From S2P Require Import FenceOperations.

(** ** The promises of the socket and of the queues

    They may let the world go on, but control nothing of the fence. *)
Class UdpSocketLaws {Ctx W D} `{SkBuff Ctx} `{FenceWorld W} (others : bytes → Prop)
    `{UdpSocket W D} : Prop := {
  send_moves d b peer local w :
    moves (Ctx := Ctx) others w (send_to_from d b peer local w).1;
  recv_moves d w : moves (Ctx := Ctx) others w (socket_recv d w).1;
}.

Class GuardianPortsLaws {Ctx W} `{SkBuff Ctx} `{FenceWorld W} (others : bytes → Prop)
    `{GuardianPorts W} : Prop := {
  borrow_moves w : moves (Ctx := Ctx) others w (shutdown_borrow w).1;
  changed_moves w : moves (Ctx := Ctx) others w (shutdown_changed w).1;
  arrival_moves d w : moves (Ctx := Ctx) others w (next_arrival d w).1;
  load_moves r w : moves (Ctx := Ctx) others w (cancellation_load r w).1;
  admission_moves r w : moves (Ctx := Ctx) others w (admission_send r w).1;
  completion_moves r o w : moves (Ctx := Ctx) others w (completion_send r o w).1;
  observation_moves r d w : moves (Ctx := Ctx) others w (await_observation r d w).1;
  try_send_moves d w : moves (Ctx := Ctx) others w (inbound_try_send d w).1;
}.

(** ** A relation of engines, over sockets *)

Section Over.
Context {W D : Type}.

Definition fence_of (s : FencedUdpSocket D * W) : LeaseBoundFence * W := (us_fence s.1, s.2).

Definition over (R : LeaseBoundFence * W → LeaseBoundFence * W → Prop)
    (s s' : FencedUdpSocket D * W) : Prop := R (fence_of s) (fence_of s').

#[export] Instance over_preorder R `{!PreOrder R} : PreOrder (over R).
Proof.
  split; unfold over; [intros s; reflexivity|]. intros s1 s2 s3 H12 H23. by etransitivity.
Qed.

Lemma on_fence_state {E A} (m : Io (LeaseBoundFence * W) E A) s :
  fence_of (on_fence m s).1 = (m (fence_of s)).1.
Proof. unfold on_fence. fold (fence_of s). by destruct (m (fence_of s)) as [[f w] r]. Qed.

Lemma on_fence_call {E A} (m : Io (LeaseBoundFence * W) E A) s s' r :
  on_fence m s = (s', r) →
  m (fence_of s) = (fence_of s', r) ∧ us_socket s'.1 = us_socket s.1.
Proof.
  unfold on_fence. fold (fence_of s). destruct (m (fence_of s)) as [[f w] r0].
  by intros [= <- <-].
Qed.

Lemma on_fence_over {E A} R (m : Io (LeaseBoundFence * W) E A) :
  keeps R m → keeps (over R) (on_fence m).
Proof. intros Hm s. unfold over. rewrite on_fence_state. apply Hm. Qed.

Lemma close_socket_over {E} R `{!PreOrder R} : keeps (over R) (close_socket (E := E)).
Proof. intros s. unfold over, fence_of. cbn. reflexivity. Qed.

Lemma close_on_failure_over {E A} R `{!PreOrder R} (m : Sx E A) :
  keeps (over R) m → keeps (over R) (close_on_failure m).
Proof.
  intros Hm s. specialize (Hm s). unfold close_on_failure. destruct (m s) as [s' r].
  destruct (is_ok r); [done|]. etransitivity; [exact Hm|]. by apply (close_socket_over (E := E)).
Qed.

End Over.

Section Serve.
Context {Ctx : Type} `{SkBuffLaws Ctx} {W : Type} `{FenceWorld W}.
Context (others : bytes → Prop) `{BootClock W} `{KernelControl W} `{TimestampRange}.
Context `{!ClockLaws (Ctx := Ctx) others} `{!KernelControlLaws (Ctx := Ctx) others}.
Context {E : Type} `{EgressFenceLeaseAuthority W E} `{!AuthorityLaws (Ctx := Ctx) (E := E) others}.
Context {D : Type} `{UdpSocket W D} `{!UdpSocketLaws (Ctx := Ctx) (D := D) others}.
Context `{GuardianPorts W} `{!GuardianPortsLaws (Ctx := Ctx) others}.

Notation within := (within_lease (Ctx := Ctx) others).

Lemma world_within f w w' : moves (Ctx := Ctx) others w w' → within (f, w) (f, w').
Proof.
  intros Hm. apply others_within. intros Hg. cbn in *.
  split_and!; [by eapply good_world|done|done|done].
Qed.

Lemma calm_keeps {F A} (m : Io (LeaseBoundFence * W) F A) :
  keeps (goes (Ctx := Ctx) (calm others)) m → keeps within m.
Proof. intros Hm s. by apply calm_within. Qed.

(** *** Waiting *)

Lemma clock_goes {A} (m : Io W KernelFailure A) :
  (∀ w, moves (Ctx := Ctx) others w (m w).1) → keeps (goes (Ctx := Ctx) (calm others)) (kernel m).
Proof. intros Hm. apply kernel_goes. intros w. eapply moves_mono; [|apply Hm]. by left. Qed.

Lemma renewal_wait_goes timing : keeps (goes (Ctx := Ctx) (calm others)) (renewal_wait timing).
Proof. unfold renewal_wait. go; [apply (observe_goes others)|apply (closing_goes others)]. Qed.

Lemma wait_turn_goes r : keeps (goes (Ctx := Ctx) (calm others)) (wait_turn r).
Proof.
  unfold wait_turn. go.
  - apply clock_goes, (wait_moves others).
  - apply clock_goes, (now_moves others).
  - intros [f w]. apply assign_goes; [done|done|]. intros [] Hs. by split.
Qed.

(** *** The socket *)

Lemma socket_acquire_within key owner timing :
  timing_ok timing → keeps (over within) (socket_acquire (E := E) (D := D) key owner timing).
Proof.
  intros Ht. unfold socket_acquire. apply close_on_failure_over, on_fence_over; [apply _|].
  intros s. by apply acquire_within.
Qed.

Lemma socket_renew_within current timing :
  timing_ok timing → keeps (over within) (socket_renew (E := E) (D := D) current timing).
Proof.
  intros Ht. unfold socket_renew. apply close_on_failure_over, on_fence_over; [apply _|].
  intros s. by apply renew_within.
Qed.

Lemma send_to_within b peer (s : FencedUdpSocket D * W) : over within s (send_to b peer s).1.
Proof.
  unfold send_to. pose proof (on_fence_over _ _ (calm_keeps _ (preflight_goes others)) s) as Hp.
  destruct (on_fence preflight_send s) as [s1 [x|e|]]; cbn [fst] in Hp; [|exact Hp..].
  destruct (us_socket s1.1) as [d|]; [|exact Hp].
  pose proof (send_moves (others := others) d b peer (us_protected_local_endpoint s1.1) s1.2) as Hm.
  destruct (send_to_from d b peer _ _) as [w' r]. cbn [fst] in *.
  etransitivity; [exact Hp|]. destruct s1. by apply world_within.
Qed.

Lemma retire_within lease : keeps (over within) (retire (E := E) (D := D) lease).
Proof.
  unfold retire. refine (keeps_bind _ _ _ _ _); [|intros p; refine (keeps_bind _ _ _ _ _); [|intros _]].
  - intros s. pose proof (on_fence_over _ _ (calm_keeps _ (prepare_release_goes others lease)) s) as Hp.
    destruct (on_fence (prepare_release lease) s) as [s' r]. destruct (is_ok r); exact Hp.
  - apply close_socket_over, _.
  - apply keeps_map_err, on_fence_over. intros s. apply calm_within. destruct s as [f w].
    intros Hg. by apply (reclaim_goes others p f w Hg).
Qed.

Lemma close_then_release_within lease :
  keeps (over within) (close_then_release (E := E) (D := D) lease).
Proof.
  unfold close_then_release. refine (keeps_bind _ _ _ (retire_within lease) _).
  intros e [u w]. cbn [fst snd].
  pose proof (release_moves (others := others) lease e w) as Hm.
  destruct (release_with_terminal lease e w) as [w' r]. by apply world_within.
Qed.

Lemma recv_within : keeps (over within) (recv_from_with_destination (D := D)).
Proof.
  unfold recv_from_with_destination. refine (keeps_bind _ _ _ _ _).
  - intros s. unfold over. cbn. reflexivity.
  - intros d [u w]. cbn [fst snd]. pose proof (recv_moves (others := others) d w) as Hm.
    destruct (socket_recv d w) as [w' r]. by apply world_within.
Qed.

(** *** The guardian *)

Lemma ports_within {A} (m : W → W * A) :
  (∀ w, moves (Ctx := Ctx) others w (m w).1) →
  keeps (over within) (ports (D := D) (E := E) m).
Proof.
  intros Hm [u w]. specialize (Hm w). unfold ports. cbn [fst snd].
  destruct (m w) as [w' a]. by apply world_within.
Qed.

Lemma retire_orderly_within lease : keeps (over within) (retire_orderly (E := E) (D := D) lease).
Proof. unfold retire_orderly. keep. apply close_then_release_within. Qed.

Lemma report_send_within timing lease request result :
  keeps (over within) (report_send (E := E) (D := D) timing lease request result).
Proof.
  unfold report_send, return_error. keep.
  - apply ports_within, (load_moves (others := others)).
  - apply ports_within, (completion_moves (others := others)).
  - apply ports_within, (observation_moves (others := others)).
  - repeat case_match; keep. apply ports_within, (load_moves (others := others)).
Qed.

Lemma serve_request_within timing lease request :
  keeps (over within) (serve_request (E := E) (D := D) timing lease request).
Proof.
  unfold serve_request, return_error. keep.
  - apply ports_within, (load_moves (others := others)).
  - apply ports_within, (admission_moves (others := others)).
  - apply ports_within, (load_moves (others := others)).
  - intros s. pose proof (send_to_within (rq_payload request) (rq_peer request) s) as Hs.
    by destruct (send_to _ _ s).
  - repeat case_match; keep; apply report_send_within.
Qed.

Lemma serve_datagram_within lease : keeps (over within) (serve_datagram (E := E) (D := D) lease).
Proof.
  unfold serve_datagram. keep; [apply recv_within|apply ports_within, (try_send_moves (others := others))|].
  case_match; keep; [apply retire_orderly_within|].
  unfold retire_with_operational_error, return_error. keep. apply close_then_release_within.
Qed.

Lemma serve_renewal_within timing lease result :
  timing_ok timing → keeps (over within) (serve_renewal (E := E) (D := D) timing lease result).
Proof. intros Ht. unfold serve_renewal. keep. by apply socket_renew_within. Qed.

Lemma fence_transition_within {A} lease (m : Io (LeaseBoundFence * W) FenceError A) :
  keeps (goes (Ctx := Ctx) (calm others)) m →
  keeps (over within) (fence_transition (E := E) (D := D) lease m).
Proof. intros Hm. unfold fence_transition. keep. by apply on_fence_over, calm_keeps. Qed.

Lemma guardian_step_within timing at_ :
  timing_ok timing → keeps (over within) (guardian_step (E := E) (D := D) timing at_).
Proof.
  intros Ht. destruct at_ as [lease|lease r|]; cbn; [keep; apply fence_transition_within, renewal_wait_goes| |keep].
  unfold select_turn, serve_shutdown. keep; [apply ports_within, (changed_moves (others := others))|].
  destruct a as [stop|]; keep; [apply retire_orderly_within|].
  destruct (wait_ready r); [by apply serve_renewal_within|].
  keep; [apply ports_within, (arrival_moves (others := others))|].
  destruct a as [[stop| |[request|]| |]|]; cbn [serve_arrival]; unfold serve_shutdown; keep;
    first [apply retire_orderly_within|apply serve_request_within|apply serve_datagram_within|idtac].
  apply fence_transition_within, wait_turn_goes.
Qed.

Lemma guardian_loop_within fuel timing at_ :
  timing_ok timing → keeps (over within) (guardian_loop (E := E) (D := D) fuel timing at_).
Proof.
  intros Ht. revert at_. induction fuel as [|fuel IH]; intros at_; cbn [guardian_loop]; keep; [|apply IH].
  by apply guardian_step_within.
Qed.

Lemma drop_within : keeps (over within) (drop_fenced_socket (D := D)).
Proof.
  unfold drop_fenced_socket. keep; [|apply close_socket_over, _|].
  all: apply on_fence_over, calm_keeps, (closing_goes others).
Qed.

Lemma guardian_body_within fuel key owner timing :
  timing_ok timing → keeps (over within) (guardian_body (E := E) (D := D) fuel key owner timing).
Proof.
  intros Ht. unfold guardian_body. keep; [apply ports_within, (borrow_moves (others := others))| |].
  - by apply socket_acquire_within.
  - by apply guardian_loop_within.
Qed.

Lemma guardian_within fuel key owner timing :
  timing_ok timing →
  keeps (over within) (run_fenced_udp_guardian (E := E) (D := D) fuel key owner timing).
Proof.
  intros Ht s. unfold run_fenced_udp_guardian.
  pose proof (guardian_body_within fuel key owner timing Ht s) as Hb.
  destruct (guardian_body fuel key owner timing s) as [s' r]. destruct (still_running r); [done|].
  etransitivity; [exact Hb|]. apply drop_within.
Qed.
End Serve.
