(* ===== verification/FenceLedger.v ===== *)
(** What the guardian knows of its lease: the guard it holds is the one the engine is bound
    to, the expiry the engine counts with is the granted one however often it was renewed,
    and no end of the guardian loses a lease that was not retired. *)

From S2P Require Import Prelude.
From S2P Require Import SessionTypes.
From S2P Require Import SessionTtl.
From S2P Require Import FenceAbi.
From S2P Require Import FencePacket.
From S2P Require Import FenceKernel.
From S2P Require Import FenceSystem.
From S2P Require Import FenceReach.
From S2P Require Import FenceSafety.
From S2P Require Import FenceBound.
From S2P Require Import FenceLifecycle.
From S2P Require Import FenceEngine.
From S2P Require Import FenceSocket.
From S2P Require Import FenceGuardian.
From S2P Require Import FenceWorld.
From S2P Require Import FenceClient.
From S2P Require Import FenceOperations.
From S2P Require Import FenceServe.

(** The lease, whatever its term. *)
Definition same_lease (l l' : LeaseGuard) : Prop :=
  lease_key l = lease_key l' ∧ lease_owner l = lease_owner l' ∧ lease_fence l = lease_fence l'
  ∧ lease_credential_id l = lease_credential_id l'.

#[export] Instance same_lease_equivalence : Equivalence same_lease.
Proof.
  split.
  - by intros l.
  - intros l l' (? & ? & ? & ?). by split_and!.
  - intros l1 l2 l3 (? & ? & ? & ?) (? & ? & ? & ?). split_and!; congruence.
Qed.

(** A renewal of [l] for [ttl]: the same lease with a term that ends strictly later, that
    starts no earlier and that is at least as long as was asked for. *)
Record later_term (ttl : Z) (l l' : LeaseGuard) : Prop := {
  later_same : same_lease l l';
  later_start : lease_acquired_at l ≤ lease_acquired_at l';
  later_end : lease_expires_at l < lease_expires_at l';
  later_length : lease_acquired_at l' + ttl ≤ lease_expires_at l';
}.

(** ** Errors *)

(** Every error of a call is as [P] says. *)
Definition raises {S E A} (P : E → Prop) (m : Io S E A) : Prop :=
  ∀ s s' e, m s = (s', Err e) → P e.

Section Raises.
Context {S E : Type} (P : E → Prop).

Lemma raises_bind {A B} (m : Io S E A) (k : A → Io S E B) :
  raises P m → (∀ a, (∃ s s', m s = (s', Ok a)) → raises P (k a)) → raises P (io_bind m k).
Proof.
  intros Hm Hk s s' e. unfold io_bind. destruct (m s) as [s1 [a|e1|]] eqn:Es; [| |done].
  - apply Hk. by eexists _, _.
  - intros [= <- <-]. by eapply Hm.
Qed.

Lemma raises_map_err {F A} (f : F → E) (m : Io S F A) :
  (∀ e, P (f e)) → raises P (io_map_err f m).
Proof.
  intros Hf s s' e. unfold io_map_err. destruct (m s) as [s1 [a|e1|]]; try done.
  by intros [= <- <-].
Qed.

Lemma raises_lift {A} (r : outcome E A) : (∀ e, r = Err e → P e) → raises P (lift (S := S) r).
Proof. intros Hr s s' e [= <- ->]. by apply Hr. Qed.

Lemma raises_ret {A} (a : A) : raises P (io_ret (S := S) a).
Proof. by intros s s' e. Qed.

End Raises.

Lemma guard_interval_exact `{TimestampRange} g ttl n :
  validate_guard_interval g ttl = Ok n → n = lease_expires_at g - lease_acquired_at g.
Proof.
  unfold validate_guard_interval, exact_timestamp_delta_ns, u64_from. intros Hv.
  destruct (map_err _ _); try done. cbn in Hv.
  destruct (_ <? _); [done|]. destruct (_ && _); [|done]. destruct (negb _); [|done].
  by injection Hv as <-.
Qed.

Lemma acquired_guard_exact `{TimestampRange} key owner g ttl n :
  validate_acquired_guard key owner g ttl = Ok n →
  lease_key g = key ∧ lease_owner g = owner ∧ n = lease_expires_at g - lease_acquired_at g.
Proof.
  unfold validate_acquired_guard. destruct (_ && _) eqn:E; [|done]. facts.
  intros ->%guard_interval_exact. done.
Qed.

Lemma guard_interval_long `{TimestampRange} g ttl n :
  validate_guard_interval g ttl = Ok n → lease_acquired_at g + ttl ≤ lease_expires_at g.
Proof.
  unfold validate_guard_interval, checked_session_deadline, datetime_checked_add, signed_duration.
  destruct (validate_session_ttl ttl); [|done..]. destruct (_ <? _); [done|]. cbn [ok_or].
  replace (as_secs ttl * NANOS + subsec_nanos ttl) with ttl
    by (unfold as_secs, subsec_nanos; rewrite (Z.div_mod ttl NANOS) at 1 by done; lia).
  destruct (_ <=? _); [|done]. cbn [ok_or map_err].
  by destruct (Z.ltb_spec (lease_expires_at g) (lease_acquired_at g + ttl)).
Qed.

Lemma guard_continuity_exact `{TimestampRange} g g' ttl n :
  validate_guard_continuity g g' ttl = Ok n →
  later_term ttl g g' ∧ n = lease_expires_at g' - lease_expires_at g.
Proof.
  unfold validate_guard_continuity, exact_timestamp_delta_ns, u64_from.
  destruct (_ && _) eqn:E; [|done]. facts.
  destruct (validate_guard_interval _ _) eqn:Hi; try done. apply guard_interval_long in Hi. cbn.
  destruct (_ && _); [|done]. destruct (negb _); [|done]. by intros [= <-].
Qed.

Section Ledger.
Context {W : Type} `{BootClock W} `{KernelControl W} `{TimestampRange}.
Context {E : Type} `{EgressFenceLeaseAuthority W E}.

(** A failed renewal returns the guard it took, or the one the authority answered with when
    that came first; an answer that is not the same lease fails on its continuity. *)
Definition renewal_error (current : LeaseGuard) (e : LeaseFenceError E) : Prop :=
  ∃ lease, into_unreleased_lease e = Some lease
    ∧ (same_lease current lease ∨ fence_error e = Some LeaseContinuity).

Definition renewal_stopped (current : LeaseGuard) (e : Stopped E) : Prop :=
  match e with Returned error => renewal_error current error | Dropped => True end.

(** A failed acquisition returns the guard if one was granted. *)
Definition acquisition_stopped (key : SessionKey) (owner : string) (e : Stopped E) : Prop :=
  match e with
  | Returned (FenceWithLease error lease) =>
      lease_key lease = key ∧ lease_owner lease = owner ∨ error = LeaseContinuity
  | Returned (AuthorityWithLease _ _) => False
  | Returned (AuthorityError _) | Returned (FenceFailed _) | Dropped => True
  end.

Lemma with_lease_raises {A} current lease (m : Io (LeaseBoundFence * W) FenceError A) :
  same_lease current lease → raises (renewal_stopped current) (returning_lease (E := E) lease m).
Proof. intros Hl. apply raises_map_err. intros e. exists lease. split; [done|by left]. Qed.

Lemma continuity_only g g' ttl e : validate_guard_continuity g g' ttl = Err e → e = LeaseContinuity.
Proof.
  unfold validate_guard_continuity, validate_guard_interval, exact_timestamp_delta_ns, ok_or.
  intros Hv. repeat (case_match; try done); simplify_eq; try done.
  all: unfold map_err in *; repeat case_match; by simplify_eq.
Qed.

Lemma acquired_only key owner g ttl e :
  validate_acquired_guard key owner g ttl = Err e → e = LeaseContinuity.
Proof.
  unfold validate_acquired_guard, validate_guard_interval, exact_timestamp_delta_ns, ok_or.
  intros Hv. repeat (case_match; try done); simplify_eq; try done.
  all: unfold map_err in *; repeat case_match; by simplify_eq.
Qed.

Lemma granted_raises {A} key owner lease (m : Io (LeaseBoundFence * W) FenceError A) :
  lease_key lease = key → lease_owner lease = owner →
  raises (acquisition_stopped key owner) (returning_lease (E := E) lease m).
Proof. intros Hk Ho. apply raises_map_err. intros e. by left. Qed.

Lemma acquire_raises key owner timing :
  raises (acquisition_stopped key owner) (fence_acquire (W := W) (E := E) key owner timing).
Proof.
  assert (raises (acquisition_stopped key owner)
    (acquire_pending (W := W) (E := E) key owner timing)) as Hp.
  { unfold acquire_pending.
    refine (raises_bind _ _ _ (raises_map_err _ _ _ _) _); [done|intros start _].
    refine (raises_bind _ _ _ _ _); [by intros s s' e|intros f _].
    refine (raises_bind _ _ _ _ _).
    { intros s s' e. unfold await. destruct (authority_acquire _ _ _ _ _ _) as [w' [[?|?|]|]]; try done;
        by intros [= <- <-]. }
    intros grant _. cbv zeta. refine (raises_bind _ _ _ _ _).
    { intros s s' e. unfold returning_lease, io_map_err, lift.
      destruct (validate_acquired_guard _ _ _ _) as [?|e'|] eqn:Hv; try done. intros [= <- <-].
      right. by apply acquired_only in Hv. }
    intros n (s & s' & Hv). apply map_err_call_ok, lift_ok in Hv as [_ (Hk & Ho & _)%acquired_guard_exact].
    do 7 (refine (raises_bind _ _ _ (granted_raises _ _ _ _ Hk Ho) _); intros ? _).
    apply raises_ret. }
  unfold fence_acquire. refine (raises_bind _ _ _ _ _); [by intros s s' e|intros f _].
  destruct (_ || _); [apply raises_lift; by intros e [= <-]|].
  intros s s' e. unfold pending_transition. specialize (Hp s).
  destruct (acquire_pending _ _ _ s) as [s1 r]. destruct (is_ok r); intros [= <- ->]; by eapply Hp.
Qed.

Lemma renew_raises current timing :
  raises (renewal_stopped current) (fence_renew (W := W) (E := E) current timing).
Proof.
  assert (∀ x, raises (renewal_stopped current) (renew_pending (W := W) (E := E) current timing x)) as Hp.
  { intros x. unfold renew_pending.
    refine (raises_bind _ _ _ (with_lease_raises _ _ _ _) _); [done|intros start _].
    refine (raises_bind _ _ _ (with_lease_raises _ _ _ _) _); [done|intros d _].
    refine (raises_bind _ _ _ _ _).
    { intros s s' e. unfold await. destruct (authority_renew _ _ _) as [w' [[?|?|]|]]; try done;
        intros [= <- <-]; [|done]. exists current. split; [done|by left]. }
    intros renewed _. refine (raises_bind _ _ _ _ _).
    { intros s s' e. unfold returning_lease, io_map_err, lift.
      destruct (validate_guard_continuity _ _ _) as [?|e'|] eqn:Hv; try done. intros [= <- <-].
      exists renewed. split; [done|right]. cbn. by rewrite (continuity_only _ _ _ _ Hv). }
    intros ext (s & s' & Hv). apply map_err_call_ok, lift_ok in Hv as [_ [[Hl _ _ _] _]%guard_continuity_exact].
    refine (raises_bind _ _ _ (with_lease_raises _ _ _ _) _); [done|intros y _].
    refine (raises_bind _ _ _ (with_lease_raises _ _ _ _) _); [done|intros _ _].
    refine (raises_bind _ _ _ (with_lease_raises _ _ _ _) _); [done|intros _ _].
    apply raises_ret. }
  unfold fence_renew. refine (raises_bind _ _ _ _ _); [by intros s s' e|intros f _].
  destruct (lf_terminal f).
  { apply raises_lift. intros e [= <-]. exists current. split; [done|by left]. }
  destruct (matching_binding f current) as [b|].
  - intros s s' e. unfold pending_transition. specialize (Hp (lb_durable_expiry_boot_ns b) s).
    destruct (renew_pending _ _ _ s) as [s1 r]. destruct (is_ok r); intros [= <- ->]; by eapply Hp.
  - refine (raises_bind _ _ _ _ _); [by intros s s' e|intros _ _].
    apply raises_lift. intros e [= <-]. exists current. split; [done|by left].
Qed.
End Ledger.

(** ** What a call returns and leaves *)

Definition ends {S E A} (m : Io S E A) (s : S) (Q : S → outcome E A → Prop) : Prop :=
  Q (m s).1 (m s).2.

Section Ends.
Context {S E : Type}.

Lemma ends_bind {A B} (m : Io S E A) (k : A → Io S E B) s Q :
  ends m s (λ s1 r, match r with
                    | Ok a => ends (k a) s1 Q
                    | Err e => Q s1 (Err e)
                    | Crash => Q s1 Crash
                    end) →
  ends (io_bind m k) s Q.
Proof. unfold ends, io_bind. by destruct (m s) as [s1 [a|e|]]. Qed.

Lemma ends_map_err {F A} (f : F → E) (m : Io S F A) s Q :
  ends m s (λ s1 r, Q s1 (map_err f r)) → ends (io_map_err f m) s Q.
Proof. unfold ends, io_map_err. by destruct (m s). Qed.

End Ends.

(** An engine that changes at most its observations, or lapses for good. *)
Section Lapse.
Context {W : Type} `{BootClock W} `{KernelControl W} `{TimestampRange}.

Definition lapses (s s' : LeaseBoundFence * W) : Prop := idles s s' ∨ inactive s'.1.

#[export] Instance lapses_preorder : PreOrder lapses.
Proof.
  split; [intros s; left; reflexivity|]. intros s1 s2 s3 H12 [H23|H23]; [|by right].
  destruct H12 as [H12|H12]; [left; by etransitivity|right].
  unfold idles in H23. by rewrite H23.
Qed.

Lemma idles_lapses {E A} (m : Io (LeaseBoundFence * W) E A) : keeps idles m → keeps lapses m.
Proof. intros Hm s. left. apply Hm. Qed.

Lemma on_world_idles {E A} (m : Io W E A) : keeps idles (on_world m).
Proof. intros [[] w]. unfold on_world, idles. cbn. by destruct (m w). Qed.

Lemma closing_lapses {E} : keeps lapses (closing (E := E)).
Proof. intros s. right. unfold closing. cbn. apply terminal_close_inactive. Qed.

Lemma renewal_wait_lapses timing : keeps lapses (renewal_wait timing).
Proof. unfold renewal_wait. go; [apply idles_lapses, observe_idles|apply closing_lapses]. Qed.

Lemma wait_turn_lapses r : keeps lapses (wait_turn r).
Proof.
  unfold wait_turn, kernel. go; try apply idles_lapses, on_world_idles.
  intros [[] w]. by left.
Qed.

Lemma preflight_lapses : keeps lapses preflight_send.
Proof.
  assert (keeps lapses preflight_send_exact) as Hx.
  { apply idles_lapses. unfold preflight_send_exact. go; [apply observe_idles|].
    unfold inspect_exact, kernel. go. apply on_world_idles. }
  intros s. specialize (Hx s). unfold preflight_send. destruct (preflight_send_exact s) as [s1 r].
  destruct (is_err r); [|done]. etransitivity; [exact Hx|]. apply (closing_lapses (E := FenceError)).
Qed.

Lemma send_to_lapses {D} `{UdpSocket W D} b peer (s : FencedUdpSocket D * W) :
  over lapses s (send_to b peer s).1.
Proof.
  unfold send_to. pose proof (on_fence_over _ _ preflight_lapses s) as Hp.
  destruct (on_fence preflight_send s) as [s1 [x|e|]]; cbn [fst] in Hp; [|exact Hp..].
  destruct (us_socket s1.1) as [d|]; [|exact Hp].
  destruct (send_to_from d b peer _ _) as [w' r]. cbn [fst].
  etransitivity; [exact Hp|]. left. unfold idles, fence_of. cbn. by destruct (us_fence s1.1).
Qed.

End Lapse.

(** ** The guard held *)

Definition guardian_lease {E} (e : FencedUdpGuardianError E) : option LeaseGuard :=
  match e with
  | Transition error => into_unreleased_lease error
  | Receive _ lease | SendOutcomeUnknown lease => Some lease
  | InboundBackpressure => None
  | Retirement error => retire_unreleased_lease error
  end.

Definition guardian_continuity {E} (e : FencedUdpGuardianError E) : Prop :=
  match e with Transition error => fence_error error = Some LeaseContinuity | _ => False end.

Section Attended.
Context {Ctx : Type} `{SkBuffLaws Ctx} {W : Type} `{FenceWorld W}.
Context (others : bytes → Prop) `{BootClock W} `{KernelControl W} `{TimestampRange}.
Context `{!ClockLaws (Ctx := Ctx) others} `{!KernelControlLaws (Ctx := Ctx) others}.
Context {E : Type} `{EgressFenceLeaseAuthority W E} `{!AuthorityLaws (Ctx := Ctx) (E := E) others}.
Context {D : Type} `{UdpSocket W D} `{!UdpSocketLaws (Ctx := Ctx) (D := D) others}.
Context `{GuardianPorts W} `{!GuardianPortsLaws (Ctx := Ctx) others}.

(** An acquisition that began at [start] was granted [l0]. *)
Context (start : Z) (l0 : LeaseGuard).

(** The binding of an engine is that of [l], a later term of the same lease, and its expiry
    the granted one, counted from the acquisition. *)
Record attends (l : LeaseGuard) (s : LeaseBoundFence * W) : Prop := {
  at_good : good (Ctx := Ctx) s;
  at_lease : same_lease l0 l;
  at_ledger b :
    lf_binding s.1 = Some b →
    binding_matches b l = true
    ∧ lb_durable_expiry_boot_ns b = start + (lease_expires_at l - lease_acquired_at l0);
}.

(** Only lifecycles after that of the engine can open the gate from now on. *)
Definition ended (s : LeaseBoundFence * W) : Prop :=
  ∃ r, lf_retirement_lifecycle_token s.1 = Some r
    ∧ ∀ sys cookie t d, leads (Ctx := Ctx) (λ _, True) (kernel_system s.2) sys →
        gate_open (fs_maps sys) cookie t d → r < t.

Definition accounted (s : FencedUdpSocket D * W)
    (r : outcome (GuardianStopped E) GuardianAt) : Prop :=
  match r with
  | Ok (Serving l) | Ok (Selecting l _) => attends l (fence_of s)
  | Ok Finished => ended (fence_of s)
  | Err (GuardianReturned e) =>
      match guardian_lease e with
      | Some l => same_lease l0 l ∨ guardian_continuity e
      | None => ended (fence_of s)
      end
  | Err GuardianDropped | Crash => True
  end.

Lemma attends_lapses l s s' :
  attends l s → goes (Ctx := Ctx) (calm others) s s' → lapses s s' → attends l s'.
Proof.
  intros [Hg Hl Hb] Hgo Hla. split; [by eapply goes_good|done|]. intros b Hb'. apply Hb.
  destruct Hla as [Hi|(_ & Hn & _)]; [|congruence]. unfold idles in Hi. by rewrite Hi in Hb'.
Qed.

Lemma attends_world l f w w' :
  attends l (f, w) → moves (Ctx := Ctx) others w w' → attends l (f, w').
Proof. intros [Hg Hl Hb] Hm. split; [by eapply good_world|done|done]. Qed.

Lemma ended_later P s s' :
  lf_retirement_lifecycle_token s'.1 = lf_retirement_lifecycle_token s.1 →
  moves (Ctx := Ctx) P s.2 s'.2 → ended s → ended s'.
Proof.
  intros Hk [_ Hm] (r & Hr & Hn). exists r. split; [congruence|]. intros sys c t d Hl. apply Hn.
  eapply leads_trans; [|done]. by eapply leads_mono.
Qed.

Lemma ports_ends {A} (m : W → W * A) l s Q :
  (∀ w, moves (Ctx := Ctx) others w (m w).1) → attends l (fence_of s) →
  (∀ s' a, attends l (fence_of s') → Q s' (Ok a)) → ends (ports (D := D) (E := E) m) s Q.
Proof.
  intros Hm Ha HQ. unfold ends, ports. destruct s as [u w]. specialize (Hm w). cbn [fst snd].
  destruct (m w) as [w' a]. apply HQ. by eapply attends_world.
Qed.

(** *** Retirement *)

(** The evidence an authority is given names the lifecycle of the binding, whose gate can
    never open again, and the socket is closed. *)
Lemma retire_seen lease s s' ev :
  good (Ctx := Ctx) (fence_of s) → retire (E := E) (D := D) lease s = (s', Ok ev) →
  us_socket s'.1 = None ∧ inactive (us_fence s'.1)
  ∧ ∃ b, matching_binding (us_fence s.1) lease = Some b
    ∧ tc_attachment ev = id_durable (lf_identity (us_fence s.1))
    ∧ tc_lease_fence_token ev = lease_fence lease
    ∧ tc_socket_lifecycle_token ev = lb_socket_lifecycle_token b
    ∧ tc_retirement_lifecycle_token ev = lb_retirement_lifecycle_token b
    ∧ lf_retirement_lifecycle_token (us_fence s'.1) = Some (lb_retirement_lifecycle_token b)
    ∧ ∀ sys cookie t d, leads (Ctx := Ctx) (λ _, True) (kernel_system s'.2) sys →
        gate_open (fs_maps sys) cookie t d → tc_retirement_lifecycle_token ev < t.
Proof.
  intros Hg Hr. unfold retire in Hr. io_inv Hr.
  destruct (on_fence (prepare_release lease) s) as [s1 r] eqn:Hp. apply on_fence_call in Hp as [Hp _].
  destruct r as [y| |]; try done. cbn in Hc. injection Hc as <- ->. injection Hc0 as <-.
  apply on_fence_call in Hr as [Hr Hs]. cbn [fst us_socket] in Hs.
  destruct (goes_call _ _ _ _ _ (prepare_release_goes others lease) Hg Hp) as [Hg1 _].
  pose proof (prepare_release_goes others lease (fence_of s) Hg) as (_ & _ & Hid & _).
  rewrite Hp in Hid. destruct s as [u w], s1 as [u1 w1]. unfold fence_of in *. cbn [fst snd] in *.
  destruct (prepare_release_seen _ _ _ _ _ Hg Hp) as (b & Hb & Hin & Hso & Hre & Hlt).
  destruct (reclaim_seen others _ _ _ _ _ Hg1 Hr) as (-> & Hf & Hat & Hrt & Hn).
  cbn [fst] in *. split; [done|]. rewrite Hf. split; [done|]. exists b.
  cbn [tc_attachment tc_lease_fence_token tc_socket_lifecycle_token tc_retirement_lifecycle_token].
  split_and!; try done; try congruence. cbn. by rewrite Hrt, Hre.
Qed.

(** However a retirement ends, the lease is in the error, or the engine has ended. *)
Lemma close_then_release_ends lease s :
  good (Ctx := Ctx) (fence_of s) →
  ends (close_then_release (E := E) (D := D) lease) s (λ s' r,
    match r with
    | Err (RetireFence _ l) => l = lease
    | Ok _ | Err (RetireAuthority _) => ended (fence_of s')
    | _ => True
    end).
Proof.
  intros Hg. unfold close_then_release. apply ends_bind. unfold ends.
  destruct (retire lease s) as [s1 r] eqn:Hr. cbn [fst snd]. destruct r as [ev|e|]; [| |done].
  - destruct (retire_seen _ _ _ _ Hg Hr) as (_ & _ & b & _ & _ & _ & _ & Ht & Hrt & Hn).
    destruct s1 as [u1 w1]. cbn [fst snd] in *. pose proof (release_moves (others := others) lease ev w1) as Hm.
    destruct (release_with_terminal lease ev w1) as [w2 a]. cbn [fst snd] in *.
    assert (ended (u1.(us_fence), w2)) as He.
    { apply (ended_later others (u1.(us_fence), w1)); [done|exact Hm|]. eexists. split; [exact Hrt|]. rewrite <-Ht. exact Hn. }
    by destruct a as [[]|].
  - unfold retire in Hr. revert Hr. unfold io_bind, io_map_err.
    destruct (on_fence (prepare_release lease) s) as [s2 [p|e2|]]; cbn.
    + destruct (on_fence _ _) as [s3 [?|e3|]]; cbn; intros [= <- <-]; done.
    + by intros [= <- <-].
    + by intros [= <- <-].
Qed.

(** *** The steps of the guardian *)

Lemma retire_orderly_ends l s :
  attends l (fence_of s) → ends (retire_orderly (E := E) (D := D) l) s accounted.
Proof.
  intros [Hg Hl _]. apply ends_bind, ends_map_err.
  pose proof (close_then_release_ends l s Hg) as Hr. revert Hr. unfold ends.
  destruct (close_then_release l s) as [s1 [u|[e l'|e|]|]]; cbn; try done.
  intros ->. by left.
Qed.

Lemma retire_operational_ends l s :
  attends l (fence_of s) → ends (retire_with_operational_error (E := E) (D := D) l) s accounted.
Proof.
  intros [Hg Hl _]. apply ends_bind, ends_map_err.
  pose proof (close_then_release_ends l s Hg) as Hr. revert Hr. unfold ends.
  destruct (close_then_release l s) as [s1 [u|[e l'|e|]|]]; cbn; try done.
  intros ->. by left.
Qed.

Lemma report_send_ends timing l request result s :
  attends l (fence_of s) →
  ends (report_send (E := E) (D := D) timing l request result) s accounted.
Proof.
  intros Ha. unfold report_send. apply ends_bind.
  eapply ports_ends; [apply (load_moves (others := others))|done|]. clear s Ha. intros s [] Ha; cbn beta iota.
  { left. apply (at_lease _ _ Ha). }
  apply ends_bind. eapply ports_ends; [apply (completion_moves (others := others))|done|].
  clear s Ha. intros s [] Ha; cbn beta iota; [|left; apply (at_lease _ _ Ha)].
  apply ends_bind. eapply ports_ends; [apply (observation_moves (others := others))|done|].
  clear s Ha. intros s [[]| |] Ha; cbn beta iota; try (left; apply (at_lease _ _ Ha)); [|done].
  apply ends_bind. eapply ports_ends; [apply (load_moves (others := others))|done|].
  clear s Ha. intros s [] Ha; cbn beta iota; [left; apply (at_lease _ _ Ha)|done].
Qed.

Lemma send_to_attends b peer l s :
  attends l (fence_of s) → attends l (fence_of (send_to b peer s).1).
Proof.
  intros Ha. pose proof (send_to_within others b peer s (at_good _ _ Ha)) as (Hg & _).
  destruct Ha as [_ Hl Hb]. split; [done|done|]. intros b' Hb'. apply Hb.
  destruct (send_to_lapses b peer s) as [Hi|(_ & Hn & _)]; [|congruence].
  unfold idles in Hi. by rewrite Hi in Hb'.
Qed.

Lemma serve_request_ends timing l request s :
  attends l (fence_of s) → ends (serve_request (E := E) (D := D) timing l request) s accounted.
Proof.
  intros Ha. unfold serve_request. apply ends_bind.
  eapply ports_ends; [apply (load_moves (others := others))|done|]. clear s Ha. intros s [] Ha; cbn beta iota.
  { done. }
  apply ends_bind. eapply ports_ends; [apply (admission_moves (others := others))|done|].
  clear s Ha. intros s [] Ha; cbn beta iota; [|done].
  apply ends_bind. eapply ports_ends; [apply (load_moves (others := others))|done|].
  clear s Ha. intros s [] Ha; cbn beta iota; [done|].
  apply ends_bind. pose proof (send_to_attends (rq_payload request) (rq_peer request) _ _ Ha) as Ha'.
  unfold ends at 1. destruct (send_to _ _ s) as [s1 [[n|e|]| |]]; cbn [fst snd] in *;
    try by apply report_send_ends.
  - done.
  - left. apply (at_lease _ _ Ha).
  - done.
Qed.

Lemma serve_datagram_ends l s :
  attends l (fence_of s) → ends (serve_datagram (E := E) (D := D) l) s accounted.
Proof.
  intros Ha. unfold serve_datagram. apply ends_bind, ends_map_err.
  unfold recv_from_with_destination. apply ends_bind. unfold ends at 1, live_socket. cbn [fst snd].
  destruct (us_socket s.1) as [d|]; cbn [ok_or]; [|left; apply (at_lease _ _ Ha)].
  unfold ends at 1. destruct s as [u w]. cbn [fst snd].
  pose proof (recv_moves (others := others) d w) as Hm. destruct (socket_recv d w) as [w' r].
  cbn [fst snd] in *. assert (attends l (fence_of (u, w'))) as Ha' by by eapply attends_world.
  destruct r as [x|e|]; cbn [map_err]; [|left; apply (at_lease _ _ Ha)|done].
  apply ends_bind. eapply ports_ends; [apply (try_send_moves (others := others))|done|].
  intros s [] Hs; cbn beta iota; [done|by apply retire_orderly_ends|by apply retire_operational_ends].
Qed.

Lemma binding_from_matches g t r x : binding_matches (LeaseBinding_from_guard g t r x) g = true.
Proof.
  unfold binding_matches. cbn. by rewrite !bool_decide_eq_true_2, !Z.eqb_refl by done.
Qed.

Lemma renew_attends timing l f w s' renewed :
  timing_ok timing → attends l (f, w) → fence_renew (E := E) l timing (f, w) = (s', Ok renewed) →
  attends renewed s'.
Proof.
  intros Ht [Hg Hl Hb] Hr.
  pose proof (renew_within others l timing (f, w) Ht Hg) as (Hg' & _). rewrite Hr in Hg'.
  destruct (renew_seen others _ _ _ _ _ _ Hg Ht Hr) as (b & st & ext & ep & w' & now & Hm & Hv & -> & _).
  apply guard_continuity_exact in Hv as [[Hl' _ _ _] ->]. apply matching_binding_inv in Hm as [Hm _].
  destruct (Hb b Hm) as [_ Hd]. split; [exact Hg'|by transitivity l|].
  cbn. intros b' [= <-]. split; [apply binding_from_matches|]. cbn. lia.
Qed.

Lemma serve_renewal_ends timing l result s :
  timing_ok timing → attends l (fence_of s) →
  ends (serve_renewal (E := E) (D := D) timing l result) s accounted.
Proof.
  intros Ht Ha. unfold serve_renewal. apply ends_bind, ends_map_err. unfold ends at 1, lift.
  cbn [fst snd]. destruct result as [u|e|]; cbn [map_err]; [|left; apply (at_lease _ _ Ha)|done].
  apply ends_bind, ends_map_err. unfold ends at 1, socket_renew, close_on_failure.
  destruct (on_fence (fence_renew l timing) s) as [s1 r] eqn:Hr. apply on_fence_call in Hr as [Hr _].
  destruct r as [renewed|[e|]|]; cbn; [|  |done..].
  - destruct s as [u0 w]. by eapply renew_attends.
  - destruct (renew_raises l timing _ _ _ Hr) as (l' & -> & [Hl|Hc]); [left|by right].
    transitivity l; [apply (at_lease _ _ Ha)|done].
Qed.

Lemma fence_transition_ends {A} (m : Io (LeaseBoundFence * W) FenceError A) l s
    (k : A → GuardianAt) :
  keeps (goes (Ctx := Ctx) (calm others)) m → keeps lapses m → attends l (fence_of s) →
  (∀ a, ∃ x, k a = Selecting l x) →
  ends (io_bind (fence_transition (E := E) (D := D) l m) (λ a, io_ret (k a))) s accounted.
Proof.
  intros Hg Hla Ha Hk. apply ends_bind, ends_map_err. unfold ends at 1.
  destruct (on_fence m s) as [s1 r] eqn:Hr. apply on_fence_call in Hr as [Hr _].
  pose proof (Hg (fence_of s)) as Hgo. specialize (Hla (fence_of s)). rewrite Hr in Hgo, Hla.
  destruct r as [a|e|]; cbn; [|left; apply (at_lease _ _ Ha)|done].
  destruct (Hk a) as [x ->]. by eapply attends_lapses.
Qed.

Lemma guardian_step_ends timing at_ s :
  timing_ok timing → accounted s (Ok at_) →
  ends (guardian_step (E := E) (D := D) timing at_) s accounted.
Proof.
  intros Ht Ha. destruct at_ as [l|l r|]; cbn [guardian_step]; [| |done].
  { apply fence_transition_ends; [apply (renewal_wait_goes others)|apply renewal_wait_lapses|done|eauto]. }
  unfold select_turn. apply ends_bind.
  eapply ports_ends; [apply (changed_moves (others := others))|done|]. clear s Ha. intros s stop Ha.
  cbn beta iota. destruct stop as [[]|]; [by apply retire_orderly_ends|done|].
  destruct (wait_ready r); [by apply serve_renewal_ends|]. apply ends_bind.
  eapply ports_ends; [apply (arrival_moves (others := others))|done|]. clear s Ha. intros s a Ha.
  cbn beta iota. destruct a as [[[]| |[request|]| |]|]; cbn [serve_arrival serve_shutdown];
    try by apply retire_orderly_ends.
  - done.
  - by apply serve_request_ends.
  - by apply serve_datagram_ends.
  - done.
  - apply fence_transition_ends; [apply (wait_turn_goes others)|apply wait_turn_lapses|done|eauto].
Qed.

Lemma guardian_loop_ends fuel timing at_ s :
  timing_ok timing → accounted s (Ok at_) →
  ends (guardian_loop (E := E) (D := D) fuel timing at_) s accounted.
Proof.
  intros Ht. revert at_ s. induction fuel as [|fuel IH]; intros at_ s Ha; cbn [guardian_loop]; [done|].
  apply ends_bind. pose proof (guardian_step_ends timing at_ s Ht Ha) as Hs. revert Hs. unfold ends at 1 2.
  destruct (guardian_step timing at_ s) as [s1 [next|e|]]; [|done..]. apply IH.
Qed.

End Attended.

(** ** The beginning *)

Section Begin.
Context {Ctx : Type} `{SkBuffLaws Ctx} {W : Type} `{FenceWorld W}.
Context (others : bytes → Prop) `{BootClock W} `{KernelControl W} `{TimestampRange}.
Context `{!ClockLaws (Ctx := Ctx) others} `{!KernelControlLaws (Ctx := Ctx) others}.
Context {E : Type} `{EgressFenceLeaseAuthority W E} `{!AuthorityLaws (Ctx := Ctx) (E := E) others}.

Lemma acquire_ok key owner timing f w s' guard :
  fence_acquire (E := E) key owner timing (f, w) = (s', Ok guard) →
  lf_terminal f = false ∧ lf_binding f = None ∧ lf_registered f = false
  ∧ acquire_pending key owner timing (f, w) = (s', Ok guard).
Proof.
  intros Ha. unfold fence_acquire, self in Ha. io_inv Ha. injection Hc as <- <-. cbn [fst] in Ha.
  destruct (_ || _) eqn:Hb; [done|]. facts. apply transition_ok in Ha. split_and!; try done.
  by apply eq_None_not_Some.
Qed.

Lemma acquire_attends key owner timing f w s' guard :
  timing_ok timing → good (Ctx := Ctx) (f, w) →
  fence_acquire (E := E) key owner timing (f, w) = (s', Ok guard) →
  ∃ start t r, granted key owner timing f start guard t r ∧ system_clock w ≤ start
    ∧ lease_key guard = key ∧ lease_owner guard = owner
    ∧ attends (Ctx := Ctx) start guard guard s'.
Proof.
  intros Ht Hg Ha. pose proof (acquire_within others key owner timing (f, w) Ht Hg) as (Hg' & _).
  rewrite Ha in Hg'. apply acquire_ok in Ha as (Hte & _ & _ & Ha).
  destruct (acquire_pending_seen others _ _ _ _ _ _ _ Hg Hte Ht Ha)
    as (start & n & t & r & ep & w' & now & Hgr & Hv & _ & -> & _ & Hs & _).
  apply acquired_guard_exact in Hv as (Hk & Ho & ->). exists start, t, r.
  split_and!; try done; [lia|]. split; [exact Hg'|done|]. cbn. intros b [= <-].
  split; [apply binding_from_matches|done].
Qed.

End Begin.
