(* ===== verification/FenceGuarded.v ===== *)
(** The fence from the lease to the packet: guardians, their engine, the kernel control,
    the kernel programs and the durable authority together. *)

From S2P Require Import Prelude.
From S2P Require Import SessionTypes.
From S2P Require Import SessionTtl.
From S2P Require Import FenceAbi.
From S2P Require Import FenceCodec.
From S2P Require Import FencePacket.
From S2P Require Import FenceKernel.
From S2P Require Import FenceSystem.
From S2P Require Import FenceInvariant.
From S2P Require Import FenceReach.
From S2P Require Import FenceSafety.
From S2P Require Import FenceTrace.
From S2P Require Import FenceBound.
From S2P Require Import FenceLifecycle.
From S2P Require Import FenceControl.
From S2P Require Import FenceEngine.
From S2P Require Import FenceSocket.
From S2P Require Import FenceGuardian.
From S2P Require Import FenceWorld.
From S2P Require Import FenceClient.
From S2P Require Import FenceOperations.
From S2P Require Import FenceServe.
From S2P Require Import FenceLedger.

(** A socket as the loader hands it out, before its first acquisition. *)
Definition fresh_socket {W D} `{UdpSocket W D} (u : FencedUdpSocket D) : Prop :=
  ∃ id cookie f d endpoint,
    u64 cookie ∧ LeaseBoundFence_from_unregistered id cookie = Ok f
    ∧ FencedUdpSocket_from_unregistered d f endpoint = Ok u.

(** Requests that open nothing. *)
Definition opens_nothing (b : bytes) : Prop := ∀ limit, request_within limit b.

(** One guardian on a new socket, until it returns or the process is killed after [fuel]
    steps of its loop. *)
Record Attempt (D : Type) : Type := mkAttempt {
  an_socket : FencedUdpSocket D;
  an_key : SessionKey;
  an_owner : string;
  an_timing : LeaseFenceTiming;
  an_fuel : nat;
}.
Arguments mkAttempt {D} _ _ _ _ _.
Arguments an_socket {D} _.
Arguments an_key {D} _.
Arguments an_owner {D} _.
Arguments an_timing {D} _.
Arguments an_fuel {D} _.

(** A guardian that was granted no lease. *)
Definition ungranted {E} (e : FencedUdpGuardianError E) : Prop :=
  match e with
  | Transition (AuthorityError _) | Transition (FenceFailed _) => True
  | _ => False
  end.

Section Guarded.
Context {Ctx : Type} `{SkBuffLaws Ctx} {W : Type} `{FenceWorld W}.
Context `{BootClock W} `{KernelControl W} `{TimestampRange}.
Context {E : Type} `{EgressFenceLeaseAuthority W E} {D : Type} `{UdpSocket W D}.
Context `{GuardianPorts W}.

Definition guardian_run (a : Attempt D) (w : W)
    : (FencedUdpSocket D * W) * outcome (GuardianStopped E) GuardianAt :=
  run_fenced_udp_guardian (an_fuel a) (an_key a) (an_owner a) (an_timing a) (an_socket a, w).

(** One guardian after the other. *)
Fixpoint guardians (attempts : list (Attempt D)) (w : W) : W :=
  match attempts with
  | [] => w
  | a :: attempts => guardians attempts (guardian_run a w).1.2
  end.

Definition attempt_valid (a : Attempt D) : Prop :=
  fresh_socket (W := W) (an_socket a) ∧ timing_ok (an_timing a).

Lemma fresh_fence (u : FencedUdpSocket D) :
  fresh_socket (W := W) u →
  fence_ok (us_fence u) ∧ lf_registered (us_fence u) = false ∧ lf_binding (us_fence u) = None
  ∧ lf_terminal (us_fence u) = false.
Proof.
  intros (id & cookie & f & d & ep & Hc & Hf & Hu).
  unfold LeaseBoundFence_from_unregistered in Hf. destruct (cookie =? 0) eqn:Hz; [done|].
  injection Hf as <-. unfold FencedUdpSocket_from_unregistered in Hu.
  destruct (_ || _); [done|]. injection Hu as <-. to_prop. split; [|done].
  split; try done.
Qed.

Lemma fresh_good (u : FencedUdpSocket D) w :
  fresh_socket (W := W) u → reaches (Ctx := Ctx) (kernel_system w) →
  good (Ctx := Ctx) (fence_of (u, w)).
Proof.
  intros (Hf & Hr & _)%fresh_fence Hw. split; [done|done|]. intros Hreg. cbn in *. congruence.
Qed.

Section Laws.
Context (others : bytes → Prop).
Context `{!ClockLaws (Ctx := Ctx) others} `{!KernelControlLaws (Ctx := Ctx) others}.
Context `{!AuthorityLaws (Ctx := Ctx) (E := E) others}.
Context `{!UdpSocketLaws (Ctx := Ctx) (D := D) others} `{!GuardianPortsLaws (Ctx := Ctx) others}.

Lemma guardian_run_moves a w :
  attempt_valid a → reaches (Ctx := Ctx) (kernel_system w) →
  let w' := (guardian_run a w).1.2 in
  moves (Ctx := Ctx) (until others (lease_until w')) w w'.
Proof.
  intros [Hs Ht] Hr. cbv zeta.
  pose proof (guardian_within others (an_fuel a) (an_key a) (an_owner a) (an_timing a) Ht
    (an_socket a, w) (fresh_good _ _ Hs Hr)) as (_ & Hm & _). exact Hm.
Qed.

Lemma guardians_move attempts w :
  Forall attempt_valid attempts → reaches (Ctx := Ctx) (kernel_system w) →
  let w' := guardians attempts w in
  moves (Ctx := Ctx) (until others (lease_until w')) w w'.
Proof.
  cbv zeta. revert w. induction attempts as [|a attempts IH]; intros w Ha Hr; [cbn; reflexivity|].
  apply Forall_cons in Ha as [Ha Has]. cbn [guardians].
  pose proof (guardian_run_moves a w Ha Hr) as M1. set (w1 := (guardian_run a w).1.2) in *.
  assert (reaches (Ctx := Ctx) (kernel_system w1)) as Hr1 by (eapply reaches_leads; [done|apply M1]).
  specialize (IH w1 Has Hr1). etransitivity; [|exact IH].
  eapply moves_mono; [|exact M1]. intros b. apply until_mono, IH.
Qed.

(** How the body of a guardian got to where it is. *)
Lemma guardian_body_cases a w s r :
  attempt_valid a → reaches (Ctx := Ctx) (kernel_system w) →
  guardian_body (E := E) (an_fuel a) (an_key a) (an_owner a) (an_timing a) (an_socket a, w) = (s, r) →
  (r = Ok Finished ∧ us_fence s.1 = us_fence (an_socket a))
  ∨ (∃ e, acquisition_stopped (E := E) (an_key a) (an_owner a) e ∧ r = Err (transition e))
  ∨ r = Crash
  ∨ ∃ start l0 t rt,
      granted (an_key a) (an_owner a) (an_timing a) (us_fence (an_socket a)) start l0 t rt
      ∧ system_clock w ≤ start ∧ lease_key l0 = an_key a ∧ lease_owner l0 = an_owner a
      ∧ accounted (Ctx := Ctx) start l0 s r.
Proof.
  intros [Hs Ht] Hr Hb. unfold guardian_body, io_bind in Hb. destruct a as [u key owner timing fuel].
  cbn [an_socket an_key an_owner an_timing an_fuel] in *. unfold ports in Hb. cbn [fst snd] in Hb.
  pose proof (borrow_moves (others := others) w) as Hm.
  destruct (shutdown_borrow w) as [w1 stop]. cbn [fst] in Hm.
  destruct stop; [injection Hb as <- <-; by left|right].
  unfold io_map_err, socket_acquire, close_on_failure in Hb.
  destruct (on_fence (fence_acquire key owner timing) (u, w1)) as [s1 r1] eqn:Ha.
  apply on_fence_call in Ha as [Ha _]. destruct r1 as [l0|e|]; cbn in Hb.
  2: { injection Hb as <- <-. left. exists e. split; [|done]. by eapply acquire_raises. }
  2: { injection Hb as <- <-. by right; left. }
  right; right. assert (good (Ctx := Ctx) (fence_of (u, w1))) as Hg.
  { eapply good_world; [by apply (fresh_good u w)|exact Hm]. }
  destruct (acquire_attends others key owner timing (us_fence u) w1 _ _ Ht Hg Ha)
    as (start & t & rt & Hgr & Hst & Hk & Ho & Hat).
  exists start, l0, t, rt. pose proof (moves_clock _ _ _ Hr Hm). split_and!; try done; [lia|].
  pose proof (guardian_loop_ends others start l0 fuel timing (Serving l0) s1 Ht Hat) as Hl.
  unfold ends in Hl. by rewrite Hb in Hl.
Qed.

(** C3. A guardian that runs holds the guard its engine is bound to: a later term of the
    lease granted to it, for its key and owner.  And however often it has renewed, the
    expiry its engine counts with is the start of the acquisition and the term granted
    since, the gate's deadline not later. *)
Theorem guardian_holds_its_lease a w s r l :
  attempt_valid a → reaches (Ctx := Ctx) (kernel_system w) → guardian_run a w = (s, r) →
  r = Ok (Serving l) ∨ (∃ wait, r = Ok (Selecting l wait)) →
  ∃ start l0 t rt,
    granted (an_key a) (an_owner a) (an_timing a) (us_fence (an_socket a)) start l0 t rt
    ∧ system_clock w ≤ start ∧ same_lease l0 l
    ∧ lease_key l = an_key a ∧ lease_owner l = an_owner a
    ∧ ∀ b, lf_binding (us_fence s.1) = Some b →
        binding_matches b l = true
        ∧ lb_durable_expiry_boot_ns b = start + (lease_expires_at l - lease_acquired_at l0)
        ∧ lf_active_deadline_boot_ns (us_fence s.1) ≤ lb_durable_expiry_boot_ns b.
Proof.
  intros Ha Hw Hr Hl. unfold guardian_run, run_fenced_udp_guardian in Hr.
  destruct (guardian_body _ _ _ _ _) as [s1 r1] eqn:Hb.
  assert (s1 = s ∧ r1 = r) as [-> ->].
  { destruct (still_running r1) eqn:Hrn; [by injection Hr as <- <-|]. injection Hr as <- <-.
    by destruct Hl as [->|[? ->]]. }
  destruct (guardian_body_cases a w s r Ha Hw Hb)
    as [[-> _]|[(e & _ & ->)|[->|(start & l0 & t & rt & Hg & Hst & Hk & Ho & Hac)]]];
    try by destruct Hl as [|[]].
  assert (attends (Ctx := Ctx) start l0 l (fence_of s)) as [Hgd Hsl Hled].
  { by destruct Hl as [->|[? ->]]. }
  exists start, l0, t, rt. pose proof Hsl as (Hk' & Ho' & _). split_and!; try done; [congruence..|].
  intros b Hbd. destruct (Hled b Hbd) as [Hmt Hd]. split_and!; [done|done|].
  by apply (fo_binding _ (gd_fence _ Hgd) b Hbd).
Qed.

(** What dropping a socket leaves. *)
Lemma close_keeps_retirement :
  keeps (λ s s' : LeaseBoundFence * W,
    lf_retirement_lifecycle_token s'.1 = lf_retirement_lifecycle_token s.1) terminal_close.
Proof.
  assert (PreOrder (λ s s' : LeaseBoundFence * W,
    lf_retirement_lifecycle_token s'.1 = lf_retirement_lifecycle_token s.1)) as Hp.
  { split; [by intros s|]. intros s1 s2 s3 H12 H23. congruence. }
  assert (∀ F A (m : Io W F A), keeps (λ s s' : LeaseBoundFence * W,
    lf_retirement_lifecycle_token s'.1 = lf_retirement_lifecycle_token s.1) (on_world m)) as Hw.
  { intros F A m [f w]. unfold on_world. cbn. by destruct (m w). }
  unfold terminal_close, close_and_verify, inspect_exact, kernel, socket_lifecycle_token_or_error. go.
  all: first [apply Hw|by intros [f w]].
Qed.

Lemma drop_leaves (s : FencedUdpSocket D * W) :
  good (Ctx := Ctx) (fence_of s) →
  let s' := (drop_fenced_socket s).1 in
  us_socket s'.1 = None ∧ inactive (us_fence s'.1)
  ∧ (ended (Ctx := Ctx) (fence_of s) → ended (Ctx := Ctx) (fence_of s'))
  ∧ lf_retirement_lifecycle_token (us_fence s'.1) = lf_retirement_lifecycle_token (us_fence s.1).
Proof.
  intros Hg. cbv zeta. pose proof (drop_within others s Hg) as (_ & Hm & _). revert Hm.
  unfold drop_fenced_socket, io_bind. destruct (on_fence closing s) as [s1 r1] eqn:H1'.
  apply on_fence_call in H1' as [H1' _]. injection H1' as H1' <-.
  unfold close_socket, updates.
  destruct (on_fence (E := FenceError) closing (drop_socket s1.1, s1.2)) as [s2 r2] eqn:H2'. apply on_fence_call in H2' as [H2' Hn].
  injection H2' as H2' <-. cbn [fst snd] in *.
  pose proof (terminal_close_inactive (fence_of (drop_socket s1.1, s1.2))) as Hi.
  pose proof (close_keeps_retirement (fence_of s)) as Hk1.
  pose proof (close_keeps_retirement (fence_of (drop_socket s1.1, s1.2))) as Hk2. cbn beta in Hk1, Hk2.
  rewrite H1' in Hk1. rewrite H2' in Hi, Hk2. intros Hm.
  assert (lf_retirement_lifecycle_token (us_fence s2.1) = lf_retirement_lifecycle_token (us_fence s.1)) as Hk.
  { exact (eq_trans Hk2 Hk1). }
  split_and!; [exact Hn|exact Hi| |exact Hk]. intros He. exact (ended_later _ (fence_of s) (fence_of s2) Hk Hm He).
Qed.

(** C2. However a guardian ends, its socket is closed and its engine inactive for good.
    Returned without an error, it was stopped before it acquired anything, or it retired:
    from then on only a later lifecycle can open the gate.  Returned with an error, the
    error carries the unreleased lease, of the guardian's key and owner unless the error is
    that the authority's answer is not; or no lease was granted; or it retired. *)
Theorem guardian_ends_closed a w s r :
  attempt_valid a → reaches (Ctx := Ctx) (kernel_system w) → guardian_run a w = (s, r) →
  still_running r = false →
  us_socket s.1 = None ∧ inactive (us_fence s.1)
  ∧ match r with
    | Ok _ =>
        lf_retirement_lifecycle_token (us_fence s.1) = None ∨ ended (Ctx := Ctx) (fence_of s)
    | Err (GuardianReturned e) =>
        match guardian_lease e with
        | Some l =>
            lease_key l = an_key a ∧ lease_owner l = an_owner a ∨ guardian_continuity e
        | None => ungranted e ∨ ended (Ctx := Ctx) (fence_of s)
        end
    | Err GuardianDropped | Crash => True
    end.
Proof.
  intros Ha Hw Hr Hst. unfold guardian_run, run_fenced_udp_guardian in Hr.
  destruct (guardian_body _ _ _ _ _) as [s1 r1] eqn:Hb.
  assert (r1 = r) as -> by (destruct (still_running r1); by injection Hr).
  rewrite Hst in Hr. injection Hr as <-.
  assert (good (Ctx := Ctx) (fence_of s1)) as Hg.
  { pose proof (guardian_body_within others (an_fuel a) (an_key a) (an_owner a) (an_timing a)
      (proj2 Ha) (an_socket a, w) (fresh_good _ _ (proj1 Ha) Hw)) as (Hg & _). by rewrite Hb in Hg. }
  destruct (drop_leaves s1 Hg) as (Hn & Hi & He & Hk). split; [done|]. split; [done|].
  destruct (guardian_body_cases a w s1 r Ha Hw Hb)
    as [[-> Hf]|[(e & Hs & ->)|[->|(start & l0 & t & rt & _ & _ & Hky & How & Hac)]]].
  - left. rewrite Hk, Hf. destruct (proj1 Ha) as (? & ? & f & ? & ? & _ & Hfr & Hu).
    unfold LeaseBoundFence_from_unregistered in Hfr. destruct (_ =? 0); [done|]. injection Hfr as <-.
    unfold FencedUdpSocket_from_unregistered in Hu. destruct (_ || _); [done|]. by injection Hu as <-.
  - destruct e as [[e|e|e l|e l]|]; cbn in *; [by left|by left|done| |done].
    by destruct Hs as [?| ->]; [left|right].
  - done.
  - destruct r as [[l|l x|]|[e|]|]; try done; cbn in Hac; [by right; apply He|].
    destruct (guardian_lease e) as [l|]; [|by right; apply He].
    destruct Hac as [(Hk' & Ho' & _)|]; [left; split; congruence|by right].
Qed.
End Laws.

Section Quiet.
Context `{!ClockLaws (Ctx := Ctx) opens_nothing} `{!KernelControlLaws (Ctx := Ctx) opens_nothing}.
Context `{!AuthorityLaws (Ctx := Ctx) (E := E) opens_nothing}.
Context `{!UdpSocketLaws (Ctx := Ctx) (D := D) opens_nothing} `{!GuardianPortsLaws (Ctx := Ctx) opens_nothing}.

(** Under any kernel control that keeps its promises, what has been let through was let
    through in time. *)
Lemma traffic_in_time attempts w config slots clock :
  Forall attempt_valid attempts → 0 ≤ clock →
  kernel_system w = initial_system config slots clock →
  let w' := guardians attempts w in
  ∃ es : list (Event Ctx),
    Forall event_ok es ∧ run (kernel_system w) es = Some (kernel_system w')
    ∧ ∀ t o, fs_running (kernel_system w') !! t = Some (GateDone o CGROUP_ALLOW) →
      ∃ cpu ctx socket cookie kc,
        Start t (Gate cpu ctx socket cookie) ∈ es ∧ load_config config = Some kc
        ∧ (socket_endpoint_matches socket (kc_endpoint kc) = false
             ∧ classify_endpoint ctx (kc_endpoint kc) = Some Unrelated
           ∨ ∃ s1 s2 token deadline,
               passed_both (kernel_system w) es s1 s2
               ∧ gate_open (fs_maps s1) cookie token deadline
               ∧ fm_clock (fs_maps s2) < deadline ≤ lease_until w').
Proof.
  intros Ha Hc Hw. cbv zeta. pose proof (initial_ok config slots clock Hc) as Hok.
  rewrite <-Hw in Hok.
  assert (reaches (Ctx := Ctx) (kernel_system w)) as Hr.
  { exists config, slots, clock, []. rewrite Hw. split_and!; [done|apply Forall_nil_2|done]. }
  destruct (guardians_move opens_nothing attempts w Ha Hr) as [_ (es & He & Hi & Hrun)].
  set (w' := guardians attempts w) in *. exists es. split_and!; [done|done|]. intros t o Ht.
  destruct (allowed_past _ _ es (kernel_system w') t o Hok) as (cpu & ctx & so & ck & kc & Hin & Hl & Hcase);
    [by rewrite Hw|done..|].
  exists cpu, ctx, so, ck, kc. rewrite Hw in Hl. split_and!; [done|done|].
  destruct Hcase as [?|(s1 & s2 & tk & d & Hp & _ & _ & Hg & Hlt)]; [by left|right].
  exists s1, s2, tk, d. split_and!; [done|done|done|].
  destruct Hp as (es1 & es2 & es3 & -> & Hr1 & _). apply Forall_app in He as [He _], Hi as [Hi _].
  eapply (gate_within _ s1); [|exact Hg]. eapply (run_within _ _ _ es1); [exact Hok| |done| |exact Hr1].
  - rewrite Hw. apply initial_within.
  - eapply Forall_impl; [exact Hi|]. intros [? []| | |]; cbn; try done. intros [Hq|Hq]; [apply Hq|exact Hq].
Qed.
End Quiet.
End Guarded.

(** ** On Linux *)

Section Linux.
Context {Ctx : Type} `{SkBuffLaws Ctx} {W : Type} `{FenceWorld W}.
Context `{BootClock W} `{ProgramRuns W} `{InstallationIntegrity W} `{TimestampRange}.
Context {E : Type} `{EgressFenceLeaseAuthority W E} {D : Type} `{UdpSocket W D}.
Context `{GuardianPorts W} (k : LinuxKernelControl).

#[local] Instance linux_control : KernelControl W := linux_kernel_control k.

Context `{!ClockLaws (Ctx := Ctx) opens_nothing} `{!ProgramRunsLaws (Ctx := Ctx) opens_nothing}.
Context `{!IntegrityLaws (Ctx := Ctx) opens_nothing} `{!AuthorityLaws (Ctx := Ctx) (E := E) opens_nothing}.
Context `{!UdpSocketLaws (Ctx := Ctx) (D := D) opens_nothing} `{!GuardianPortsLaws (Ctx := Ctx) opens_nothing}.

(** C1. However often guardians are started one after the other, fail, retire or are
    killed between two steps, on a fence just installed and with no one else asking the
    kernel to open the gate: every packet the classifier has let through belongs neither by
    its socket nor by its headers to the protected endpoint, or it was decided while the
    gate was open for its socket's cookie, at a time before a deadline that is not beyond
    the term the durable authority has promised. *)
Theorem lease_bounds_traffic attempts w config slots clock :
  u64 (lk_root_cgroup_id k) → Forall (attempt_valid (W := W) (D := D)) attempts → 0 ≤ clock →
  kernel_system w = initial_system config slots clock →
  let w' := guardians (E := E) attempts w in
  ∃ es : list (Event Ctx),
    Forall event_ok es ∧ run (kernel_system w) es = Some (kernel_system w')
    ∧ ∀ t o, fs_running (kernel_system w') !! t = Some (GateDone o CGROUP_ALLOW) →
      ∃ cpu ctx socket cookie kc,
        Start t (Gate cpu ctx socket cookie) ∈ es ∧ load_config config = Some kc
        ∧ (socket_endpoint_matches socket (kc_endpoint kc) = false
             ∧ classify_endpoint ctx (kc_endpoint kc) = Some Unrelated
           ∨ ∃ s1 s2 token deadline,
               passed_both (kernel_system w) es s1 s2
               ∧ gate_open (fs_maps s1) cookie token deadline
               ∧ fm_clock (fs_maps s2) < deadline ≤ lease_until w').
Proof.
  intros Hk. pose proof (linux_control_laws opens_nothing k Hk) as Hl. by apply traffic_in_time.
Qed.

End Linux.
