(* ===== verification/FenceTransitions.v ===== *)
(** What one operation of a fenced socket has done when it returns: acquisition, renewal,
    the wait between them, sending and retirement, against the kernel's gate. *)

From S2P Require Import Prelude.
From S2P Require Import SessionTypes.
From S2P Require Import SessionTtl.
From S2P Require Import FenceAbi.
From S2P Require Import FencePacket.
From S2P Require Import FenceKernel.
From S2P Require Import FenceSystem.
From S2P Require Import FenceInvariant.
From S2P Require Import FenceReach.
From S2P Require Import FenceSafety.
From S2P Require Import FenceBound.
From S2P Require Import FenceLifecycle.
From S2P Require Import FenceControl.
From S2P Require Import FenceEngine.
From S2P Require Import FenceSocket.
From S2P Require Import FenceWorld.
From S2P Require Import FenceClient.
From S2P Require Import FenceOperations.
From S2P Require Import FenceServe.
From S2P Require Import FenceLedger.

Section Transitions.
Context {Ctx : Type} `{SkBuffLaws Ctx} {W : Type} `{FenceWorld W}.
Context (others : bytes → Prop) `{BootClock W} `{KernelControl W} `{TimestampRange}.
Context `{!ClockLaws (Ctx := Ctx) others} `{!KernelControlLaws (Ctx := Ctx) others}.
Context {E : Type} `{EgressFenceLeaseAuthority W E} `{!AuthorityLaws (Ctx := Ctx) (E := E) others}.
Context {D : Type} `{UdpSocket W D} `{!UdpSocketLaws (Ctx := Ctx) (D := D) others}.

Lemma close_on_failure_call {F A} (m : Io (LeaseBoundFence * W) F A) (s s' : FencedUdpSocket D * W) r :
  close_on_failure (on_fence m) s = (s', r) →
  m (fence_of s) = (fence_of s', r) ∧ us_socket s'.1 = if is_ok r then us_socket s.1 else None.
Proof.
  unfold close_on_failure. destruct (on_fence m s) as [s1 r1] eqn:Hc.
  apply on_fence_call in Hc as [Hc Hs]. destruct (is_ok r1) eqn:Hr; intros [= <- <-]; by rewrite Hr.
Qed.

(** C16. An acquisition by a new engine either returns a guard the authority granted to a
    call made after it began, the socket still open, the engine bound to that guard and to
    the granted lifecycle, with a deadline the requested time less the margin after the
    start, not beyond the granted term, and with the gate seen open until exactly that
    deadline at one moment of the call; or it leaves the socket closed and the engine
    inactive for good. *)
Theorem acquire_opens_or_closes key owner timing (s s' : FencedUdpSocket D * W) r :
  good (Ctx := Ctx) (fence_of s) → timing_ok timing →
  lf_binding (us_fence s.1) = None → lf_terminal (us_fence s.1) = false →
  lf_registered (us_fence s.1) = false →
  socket_acquire (E := E) key owner timing s = (s', r) →
  match r with
  | Ok guard =>
      us_socket s'.1 = us_socket s.1
      ∧ ∃ start t rt,
          granted key owner timing (us_fence s.1) start guard t rt
          ∧ system_clock s.2 ≤ start
          ∧ let d := start + lt_ttl timing - lt_safety_margin timing in
            let x := start + (lease_expires_at guard - lease_acquired_at guard) in
            lf_binding (us_fence s'.1) = Some (LeaseBinding_from_guard guard t rt x)
            ∧ lf_active_deadline_boot_ns (us_fence s'.1) = d ∧ d ≤ x
            ∧ d ≤ start + EGRESS_FENCE_MAX_GATE_LIFETIME_NS
            ∧ between (Ctx := Ctx) s.2 s'.2 (λ m,
                gate_open (fs_maps m) (lf_socket_cookie (us_fence s.1)) t d)
  | _ => us_socket s'.1 = None ∧ inactive (us_fence s'.1)
  end.
Proof.
  intros Hg Htm Hb Ht Hr Ha. apply close_on_failure_call in Ha as [Ha Hs]. destruct s as [u w].
  cbn [fst snd] in *. destruct r as [guard|e|]; cbn [is_ok] in Hs.
  2,3: split; [done|]; by eapply (acquire_closed key owner timing (us_fence u) w _ _ Hb Ht Hr Ha).
  split; [done|]. apply acquire_ok in Ha as (_ & _ & _ & Ha).
  destruct (acquire_pending_seen others _ _ _ _ _ _ _ Hg Ht Htm Ha)
    as (start & n & t & rt & ep & w' & now & Hgr & Hv & _ & Hs' & Hle & Hst & Hn & _ & Hbt).
  cbn [fst snd] in *. apply acquired_guard_exact in Hv as (_ & _ & ->). exists start, t, rt. split; [done|]. split; [lia|].
  cbv zeta. unfold fence_of in Hs'. injection Hs' as Hf ->. rewrite Hf. split_and!; try done.
  pose proof (lifetime_bounded timing Htm). lia.
Qed.

(** C17. A renewal of a live engine either returns a later term of the same lease, which
    ends strictly after the current one, starts no earlier and is at least as long as was
    asked for, the engine bound to it with the extension the authority granted added to its expiry, and a
    new deadline the requested time less the margin after the start, not beyond that expiry,
    until which the gate was seen open at one moment of the call, in the same lifecycle; or
    it leaves the socket closed and the engine inactive for good, and an error it returns
    carries the unreleased guard. *)
Theorem renew_extends_or_closes current timing (s s' : FencedUdpSocket D * W) r :
  good (Ctx := Ctx) (fence_of s) → timing_ok timing → lf_terminal (us_fence s.1) = false →
  socket_renew (E := E) current timing s = (s', r) →
  match r with
  | Ok renewed =>
      us_socket s'.1 = us_socket s.1 ∧ later_term (lt_ttl timing) current renewed
      ∧ ∃ b start,
          matching_binding (us_fence s.1) current = Some b ∧ system_clock s.2 ≤ start
          ∧ let d := start + lt_ttl timing - lt_safety_margin timing in
            let x := lb_durable_expiry_boot_ns b
                     + (lease_expires_at renewed - lease_expires_at current) in
            lf_binding (us_fence s'.1)
              = Some (LeaseBinding_from_guard renewed (lb_socket_lifecycle_token b)
                        (lb_retirement_lifecycle_token b) x)
            ∧ lf_active_deadline_boot_ns (us_fence s'.1) = d ∧ d ≤ x
            ∧ between (Ctx := Ctx) s.2 s'.2 (λ m,
                gate_open (fs_maps m) (lf_socket_cookie (us_fence s.1))
                  (lb_socket_lifecycle_token b) d)
  | Err e =>
      us_socket s'.1 = None ∧ inactive (us_fence s'.1)
      ∧ match e with Returned error => renewal_error current error | Dropped => True end
  | Crash => us_socket s'.1 = None ∧ inactive (us_fence s'.1)
  end.
Proof.
  intros Hg Htm Ht Ha. apply close_on_failure_call in Ha as [Ha Hs]. destruct s as [u w].
  cbn [fst snd] in *. destruct r as [renewed|e|]; cbn [is_ok] in Hs.
  2: { split; [done|]. split; [by eapply (renew_closed current timing (us_fence u) w _ _ Ht Ha)|].
       apply renew_raises in Ha. by destruct e. }
  2: { split; [done|]. by eapply (renew_closed current timing (us_fence u) w _ _ Ht Ha). }
  destruct (renew_seen others _ _ _ _ _ _ Hg Htm Ha)
    as (b & start & ext & ep & w' & now & Hm & Hv & Hs' & Hle & _ & Hst & Hn & _ & Hbt).
  cbn [fst snd] in *. apply guard_continuity_exact in Hv as [Hl ->]. split; [done|]. split; [done|].
  exists b, start. split; [done|]. split; [lia|]. cbv zeta. unfold fence_of in Hs'.
  injection Hs' as Hf ->. by rewrite Hf.
Qed.


Lemma retire_closes lease (s s' : FencedUdpSocket D * W) r :
  retire (E := E) lease s = (s', r) →
  us_socket s'.1 = None ∧ ∀ e, r = Err e → ∃ error, e = RetireFence error lease.
Proof.
  unfold retire, io_bind, io_map_err. destruct (on_fence (prepare_release lease) s) as [s1 [p|e|]]; cbn.
  2: { intros [= <- <-]. split; [done|]. intros ? [= <-]. by eexists. }
  2: { intros [= <- <-]. by split. }
  destruct (on_fence (reclaim_after_socket_close p) _) as [s2 r2] eqn:Hr.
  apply on_fence_call in Hr as [_ Hs]. intros [= <- <-]. split; [by rewrite Hs|].
  intros e. destruct r2; cbn; intros He; simplify_eq. by eexists.
Qed.


(** ** Waiting *)

Lemma wait_turn_progress r (s s' : LeaseBoundFence * W) r' :
  reaches (Ctx := Ctx) (kernel_system s.2) → rw_last_observed_boot_ns r ≤ system_clock s.2 →
  wait_turn r s = (s', Ok r') →
  reaches (Ctx := Ctx) (kernel_system s'.2)
  ∧ ∃ now, r' = mkRenewalWait (rw_target_boot_ns r) (rw_deadline_boot_ns r) (rw_poll_interval r) now
    ∧ rw_last_observed_boot_ns r + wait_duration r ≤ now ≤ system_clock s'.2
    ∧ lf_observations s'.1 = Some now.
Proof.
  intros Hr Hl Hw. unfold wait_turn, kernel, self in Hw. io_inv Hw. destruct s as [f w].
  apply on_world_same in Hc as (w1 & -> & H1').
  pose proof (wait_moves others (wait_duration r) w) as M1. pose proof (wait_waits others _ _ _ H1') as Hd.
  rewrite H1' in M1. apply on_world_same in Hc0 as (w2 & -> & H2').
  pose proof (now_moves others w1) as M2. pose proof (now_reads others _ _ _ H2') as Hn.
  rewrite H2' in M2. injection Hc1 as <- <-. injection Hc3 as <-. cbn [fst snd] in *.
  split; [eapply reaches_leads; [|apply M2]; eapply reaches_leads; [exact Hr|apply M1]|].
  eexists. split; [done|]. split; [lia|]. cbn. unfold observe in Hc2.
  destruct (lf_observations f); [destruct (_ <? _); [done|]|]; by injection Hc2 as <-.
Qed.

Lemma wait_ends fuel r (s s' : LeaseBoundFence * W) result :
  reaches (Ctx := Ctx) (kernel_system s.2) → rw_last_observed_boot_ns r ≤ system_clock s.2 →
  1 ≤ rw_poll_interval r →
  rw_target_boot_ns r - rw_last_observed_boot_ns r ≤ Z.of_nat fuel * rw_poll_interval r →
  wait fuel r s = (s', result) →
  result ≠ Ok None
  ∧ (result = Ok (Some tt) →
     ∃ now, rw_target_boot_ns r ≤ now < rw_deadline_boot_ns r
       ∧ rw_last_observed_boot_ns r ≤ now ≤ system_clock s'.2).
Proof.
  revert r s. induction fuel as [|fuel IH]; intros r s Hr Hl Hp Hf Hw; cbn [wait] in Hw.
  all: unfold wait_ready in Hw; destruct (_ <=? _) eqn:E1 in Hw; [by injection Hw as <- <-|].
  all: destruct (_ <=? _) eqn:E2 in Hw; [injection Hw as <- <-; facts; split; [done|]; intros _;
    exists (rw_last_observed_boot_ns r); lia|facts].
  { lia. }
  unfold io_bind in Hw. destruct (wait_turn r s) as [s1 [r1|e|]] eqn:Ht; [|by injection Hw as <- <-..].
  destruct (wait_turn_progress r s s1 r1 Hr Hl Ht) as (Hr1 & now & -> & Hn & _).
  unfold wait_duration in Hn.
  apply IH in Hw as [H1' H2'];
    cbn [rw_target_boot_ns rw_deadline_boot_ns rw_poll_interval rw_last_observed_boot_ns] in *; [|done|lia|lia|].
  - split; [done|]. intros Hok. destruct (H2' Hok) as (x & Hx & Hx'). exists x. lia.
  - destruct (Z.min_spec (rw_poll_interval r) (rw_target_boot_ns r - rw_last_observed_boot_ns r)); nia.
Qed.

(** C38. The wait before a renewal ends: with a fuel of the time to wait over the poll
    interval it has returned, whatever the clock does beyond keeping its promises.  When it
    returns without an error, the clock was read at or after half the gate's lifetime and
    before the gate's deadline. *)
Theorem renewal_wait_ends timing fuel f w s1 r s2 result :
  good (Ctx := Ctx) (f, w) → timing_ok timing → renewal_wait timing (f, w) = (s1, Ok r) →
  rw_target_boot_ns r - rw_last_observed_boot_ns r ≤ Z.of_nat fuel * boot_poll_interval timing →
  wait fuel r s1 = (s2, result) →
  result ≠ Ok None
  ∧ (result = Ok (Some tt) →
     ∃ now, system_clock w ≤ now ≤ system_clock s2.2
       ∧ let lifetime := lt_ttl timing - lt_safety_margin timing in
         lf_active_deadline_boot_ns f - lifetime + lifetime / 2 ≤ now
         ∧ now < lf_active_deadline_boot_ns f).
Proof.
  intros Hg Htm Hr Hf Hw. unfold renewal_wait, self, refuse in Hr. io_inv Hr.
  injection Hc as <- <-. cbn [fst] in *. destruct (_ <=? _) eqn:Hd; [by io_inv Hr|].
  injection Hr as <- <-. destruct (observe_reads others _ _ _ Hc4) as (Hn & _).
  destruct (goes_call _ _ _ _ _ (observe_goes others) Hg Hc4) as [Hg1 _].
  cbn [rw_target_boot_ns rw_last_observed_boot_ns fst snd] in *.
  apply wait_ends in Hw as [H1' H2']; cbn [rw_target_boot_ns rw_deadline_boot_ns rw_poll_interval
    rw_last_observed_boot_ns] in *; [|apply Hg1|lia|unfold boot_poll_interval; lia|done].
  split; [done|]. intros Hok. destruct (H2' Hok) as (now & Hx & Hx'). exists now. split; [lia|].
  assert (x3 = lt_ttl timing - lt_safety_margin timing) as ->.
  { unfold active_gate_lifetime_ns, checked_sub, u64_from in Hc1.
    destruct (_ <=? _); [|done]. cbn in Hc1. destruct (_ && _); [|done]. by injection Hc1 as <-. }
  apply checked_sub_some in Hc2 as [-> _]. apply checked_add_some in Hc3 as [-> _]. cbv zeta. lia.
Qed.
End Transitions.

(** ** Inspection *)

Section Inspection.
Context {Ctx : Type} `{SkBuffLaws Ctx} {W : Type} `{FenceWorld W}.
Context (others : bytes → Prop) `{ProgramRuns W} `{InstallationIntegrity W}.
Context `{!ProgramRunsLaws (Ctx := Ctx) others} `{!IntegrityLaws (Ctx := Ctx) others}.

(** C20. What the Linux control reports of a socket's lifecycle is true at one moment of the
    call, whatever runs beside it: the gate was then open until a deadline exactly when the
    report shows that lifecycle open for the socket and its entry active with that
    deadline; and the reported current token is the kernel's. *)
Theorem linux_inspection_exact k id cookie token w w' i :
  u64 (lk_root_cgroup_id k) → reaches (Ctx := Ctx) (kernel_system w) →
  u64 cookie → cookie ≠ 0 → u64 token →
  linux_inspect k id (Some (cookie, token)) w = (w', Ok i) →
  ∃ m, leads (Ctx := Ctx) others (kernel_system w) m
    ∧ leads (Ctx := Ctx) others m (kernel_system w')
    ∧ (∀ deadline, gate_open (fs_maps m) cookie token deadline ↔
         ki_current i = mkKernelCurrentFence LifecycleOpen token cookie
         ∧ ∃ epoch, ki_entry i
             = Some (mkKernelFenceEntry EntryActive cookie token deadline epoch))
    ∧ ∃ c, decode_current (fm_current (fs_maps m)) = Some c
        ∧ kf_lifecycle_token (ki_current i) = ct_durable_fence_token c
        ∧ kf_registered_socket_cookie (ki_current i) = ct_registered_socket_cookie c.
Proof.
  intros Hk Hw Hc Hz Ht Hi.
  destruct (linux_inspect_shows others k id (Some (cookie, token)) w w' i Hk Hw ltac:(done) Hi)
    as (m & H1' & H2' & Ho).
  exists m. split_and!; [done|done| |].
  - intros d. destruct (reaches_ok m (reaches_leads _ _ _ Hw H1')) as [c Hok].
    apply (observes_gate c); [apply (so_maps _ _ Hok)|done].
  - destruct Ho as [(c & Hdec & Hcur) _]. exists c. split; [done|].
    unfold decode_kernel_current in Hcur. destruct (if _ =? 0 then _ else _) as [phase| |]; try done.
    by injection Hcur as <-.
Qed.

End Inspection.
