(* ===== verification/FenceWorldSamples.v ===== *)
(** A sample world for the lease-bound fence: the kernel's system, run by program runs that
    complete at once, a clock that only sleeping moves, an authority that grants, and a
    script of what arrives at the guardian.  It keeps the promises of every interface, and
    the theorems on the engine and the guardian are applied to it. *)

From S2P Require Import Prelude.
From S2P Require Import SessionTypes.
From S2P Require Import SessionTtl.
From S2P Require Import FenceAbi.
From S2P Require Import FencePacket.
From S2P Require Import FenceKernel.
From S2P Require Import FenceSystem.
From S2P Require Import FenceInvariant.
From S2P Require Import FenceReach.
From S2P Require Import FenceSafety.
From S2P Require Import FenceTrace.
From S2P Require Import FenceLayout.
From S2P Require Import FenceSamples.
From S2P Require Import FenceBound.
From S2P Require Import FenceLifecycle.
From S2P Require Import FenceControl.
From S2P Require Import FenceEngine.
From S2P Require Import FenceSocket.
From S2P Require Import FenceGuardian.
From S2P Require Import FenceWorld.
From S2P Require Import FenceClient.
From S2P Require Import FenceOperations.
From S2P Require Import FenceServe.
From S2P Require Import FenceLedger.
From S2P Require Import FenceGuarded.
From S2P Require Import FenceTransitions.

(** ** The world *)

Record SampleWorld : Type := mkSampleWorld {
  sw_system : FenceSystem;
  sw_lease_until : Z;
  sw_next : nat;
  sw_script : list (option Arrival);
}.

#[export] Instance sample_fence_world : FenceWorld SampleWorld := {
  kernel_system := sw_system;
  lease_until := sw_lease_until;
}.

#[export] Instance sample_timestamps : TimestampRange := 253402300799999999999.

Definition with_system (sys : FenceSystem) (w : SampleWorld) : SampleWorld :=
  mkSampleWorld sys (sw_lease_until w) (S (sw_next w)) (sw_script w).
Definition with_lease_until (until : Z) (w : SampleWorld) : SampleWorld :=
  mkSampleWorld (sw_system w) (Z.max (sw_lease_until w) until) (sw_next w) (sw_script w).

(** An event, if it is possible. *)
Definition execute (e : Event bytes) (sys : FenceSystem) : FenceSystem :=
  default sys (exec sys e).

(** One step of an invocation; a reservation takes slot 3. *)
Definition execute_step (t : nat) (sys : FenceSystem) : FenceSystem :=
  match exec sys (Step (Ctx := bytes) t Proceed) with
  | Some sys' => sys'
  | None => execute (Step t (InsertInto 3)) sys
  end.

Definition invoke (i : Invocation bytes) (w : SampleWorld) : FenceSystem :=
  Nat.iter 8 (execute_step (sw_next w)) (execute (Start (sw_next w) i) (sw_system w)).

#[export] Instance sample_program_runs : ProgramRuns SampleWorld := {
  mutation_test_run input w :=
    let sys := invoke (Control input) w in
    (with_system sys w,
     match fs_running sys !! sw_next w with
     | Some (ControlDone result) => Some (mkTestRun result 48 0 input)
     | _ => None
     end);
  view_test_run input w :=
    if bool_decide (fs_running (sw_system w) !! sw_next w = None) then
      let sys := invoke (View input) w in
      (with_system sys w,
       match fs_running sys !! sw_next w with
       | Some (ViewDone result response) =>
           Some (mkTestRun result 128 0
                   match response with Some o => output_octets o | None => input end)
       | _ => None
       end)
    else (w, None);
}.

#[export] Instance sample_integrity : InstallationIntegrity SampleWorld := {
  integrity_verify id := io_ret tt;
  superseded_entries id t := io_ret [];
}.

#[export] Instance sample_clock : BootClock SampleWorld := {
  now_boot_ns w := (w, Ok (fm_clock (fs_maps (sw_system w))));
  wait_poll d w :=
    match exec (sw_system w) (Tick (Ctx := bytes) d) with
    | Some sys => (with_system sys w, Ok tt)
    | None => (w, Err ClockFailure)
    end;
}.

(** The authority's clock is the boot clock; it has one lifecycle to grant. *)
Definition sample_lease (key : SessionKey) (owner : string) (from to : Z) : LeaseGuard :=
  {| lease_key := key; lease_owner := owner; lease_fence := 5; lease_acquired_at := from;
     lease_expires_at := to; lease_credential_id := 8 |}.

#[export] Instance sample_authority : EgressFenceLeaseAuthority SampleWorld () := {
  authority_acquire key owner ttl id life w :=
    let now := fm_clock (fs_maps (sw_system w)) in
    (with_lease_until (now + ttl) w,
     Completed (Ok (mkFenceLeaseGrant (sample_lease key owner now (now + ttl)) 1 2
                      (FreshInstall 0) 1)));
  authority_renew lease ttl w :=
    let now := fm_clock (fs_maps (sw_system w)) in
    (with_lease_until (now + ttl) w,
     Completed (Ok (sample_lease (lease_key lease) (lease_owner lease)
                      (lease_acquired_at lease) (now + ttl))));
  release_with_terminal lease evidence w := (w, Completed (Ok tt));
}.

(** The socket's datagrams are [sample_packet], of cookie 9. *)
Definition sample_endpoint_addr : SocketAddr := AddrV4 [192; 0; 2; 37] 4661.

#[export] Instance sample_socket : UdpSocket SampleWorld () := {
  verify_fence_admission d := true;
  socket_local_addr d := Some sample_endpoint_addr;
  send_to_from d buffer peer local w :=
    (with_system (invoke (Gate 0 sample_packet None 9) w) w, InTime (Ok (Z.of_nat (length buffer))));
  socket_recv d w := (w, Err (SystemError 11));
}.

#[export] Instance sample_ports : GuardianPorts SampleWorld := {
  shutdown_borrow w := (w, false);
  shutdown_changed w := (w, None);
  next_arrival d w :=
    match sw_script w with
    | [] => (w, Some (ShutdownChanged true))
    | a :: rest => (mkSampleWorld (sw_system w) (sw_lease_until w) (sw_next w) rest, a)
    end;
  cancellation_load r w := (w, false);
  admission_send r w := (w, true);
  completion_send r o w := (w, true);
  await_observation r d w := (w, InTime true);
  inbound_try_send d w := (w, TrySent);
}.

Definition sample_control : LinuxKernelControl := mkLinuxKernelControl ProgramHeld ProgramHeld 7.
#[export] Instance sample_kernel_control : KernelControl SampleWorld :=
  linux_kernel_control sample_control.

Definition sample_attachment : AttachmentIdentity :=
  mkAttachmentIdentity (mkFenceAttachmentIdentity (repeat 1 32)) InstalledClosedWithExactReadback.
Definition sample_fence : LeaseBoundFence :=
  mkLeaseBoundFence sample_attachment 9 None None 0 false None 0 None false false false.
Definition sample_fenced_socket : FencedUdpSocket () :=
  mkFencedUdpSocket (Some tt) sample_fence sample_endpoint_addr.
Definition sample_session : SessionKey :=
  {| tenant := "t"; nf_kind := "smf"; key_type := PduSession; stable_id := [7] |}.
Definition sample_timing : LeaseFenceTiming := mkLeaseFenceTiming 20 4.

(** A datagram is sent, two sleeps pass, the lease is renewed, and the guardian is stopped. *)
Definition sample_script : list (option Arrival) :=
  [Some (OutboundReceived (Some (mkOutboundRequest 0 [1; 2; 3] sample_endpoint_addr)));
   None; None].
Definition fence_sample_world : SampleWorld := mkSampleWorld sample_initial 0 0 sample_script.
Definition sample_attempt (fuel : nat) : Attempt () :=
  mkAttempt sample_fenced_socket sample_session "owner" sample_timing fuel.

(** ** It keeps the promises *)

Section Promises.
Context (P : bytes → Prop).

Lemma execute_leads e sys : event_ok e → issues P e → leads P sys (execute e sys).
Proof.
  intros He Hi. unfold execute. destruct (exec sys e) as [sys'|] eqn:Hx; [|apply leads_refl].
  exists [e]. split_and!; [by repeat constructor..|]. cbn. by rewrite Hx.
Qed.

Lemma execute_step_leads t sys : leads (Ctx := bytes) P sys (execute_step t sys).
Proof.
  unfold execute_step. destruct (exec sys (Step t Proceed)) as [sys'|] eqn:Hx.
  - pose proof (execute_leads (Step t Proceed) sys I I) as Hl. unfold execute in Hl. by rewrite Hx in Hl.
  - by apply execute_leads.
Qed.

Lemma steps_leads n t sys : leads (Ctx := bytes) P sys (Nat.iter n (execute_step t) sys).
Proof.
  induction n as [|n IH]; [apply leads_refl|]. rewrite Nat.iter_succ.
  eapply leads_trans; [exact IH|apply execute_step_leads].
Qed.

Lemma invoke_leads i w :
  event_ok (Start (sw_next w) i) → issues P (Start (sw_next w) i) →
  leads P (sw_system w) (invoke i w).
Proof.
  intros He Hi. eapply leads_trans; [by apply execute_leads|apply steps_leads].
Qed.

Lemma invoke_moves i w :
  event_ok (Start (sw_next w) i) → issues P (Start (sw_next w) i) →
  moves (Ctx := bytes) P w (with_system (invoke i w) w).
Proof. intros He Hi. split; [cbn; lia|by apply invoke_leads]. Qed.

#[export] Instance sample_clock_laws : ClockLaws (Ctx := bytes) P.
Proof.
  split; cbn.
  - intros w. reflexivity.
  - intros w w' now [= <- <-]. unfold system_clock. cbn. lia.
  - intros d w. pose proof (execute_leads (Tick d) (sw_system w) I I) as Hl. unfold execute in Hl.
    cbn in Hl |- *. destruct (_ && _); cbn in *; [split; [cbn; lia|exact Hl]|reflexivity].
  - intros d w w'. destruct (_ && _); [|done]. intros [= <-]. unfold system_clock. cbn. lia.
Qed.

#[export] Instance sample_integrity_laws : IntegrityLaws (Ctx := bytes) P.
Proof. split; intros; cbn; reflexivity. Qed.

#[export] Instance sample_authority_laws : AuthorityLaws (Ctx := bytes) (E := ()) P.
Proof.
  split; cbn.
  - intros. split; [cbn; lia|apply leads_refl].
  - intros key owner ttl id life w w' grant [= <- <-]. unfold system_clock. cbn.
    split; [lia|by split].
  - intros. split; [cbn; lia|apply leads_refl].
  - intros lease ttl w w' renewed [= <- <-]. unfold system_clock. cbn. lia.
  - intros. reflexivity.
Qed.

#[export] Instance sample_socket_laws : UdpSocketLaws (Ctx := bytes) (D := ()) P.
Proof.
  split; intros; cbn [send_to_from socket_recv sample_socket fst]; [|reflexivity].
  by apply (invoke_moves (Gate 0 sample_packet None 9)).
Qed.

#[export] Instance sample_ports_laws : GuardianPortsLaws (Ctx := bytes) P.
Proof.
  split; intros; cbn; try reflexivity.
  destruct (sw_script w); [reflexivity|]. split; [cbn; lia|apply leads_refl].
Qed.

Lemma invoke_run i w :
  fs_running (sw_system w) !! sw_next w = None → event_ok (Start (sw_next w) i) →
  issues P (Start (sw_next w) i) →
  ∃ es, Forall event_ok es ∧ Forall (issues P) es ∧ Start (sw_next w) i ∈ es
    ∧ run (sw_system w) es = Some (invoke i w).
Proof.
  intros Hn He Hi. unfold invoke, execute. cbn [exec]. rewrite Hn.
  destruct (start i (fs_maps (sw_system w))) as [m p] eqn:Hs. cbn [default].
  destruct (steps_leads 8 (sw_next w) (mkFenceSystem m (<[sw_next w:=p]> (fs_running (sw_system w)))))
    as (es & Hes & His & Hr).
  exists (Start (sw_next w) i :: es). split_and!; [by constructor|by constructor|by left|].
  cbn [run exec]. by rewrite Hn, Hs.
Qed.

End Promises.

#[local] Opaque invoke.
#[export] Instance sample_program_laws P : ProgramRunsLaws (Ctx := bytes) P.
Proof.
  split; cbv zeta; cbn [mutation_test_run view_test_run sample_program_runs fst].
  - intros input w Hb. apply (invoke_moves _ (Control input)); [exact Hb|by right].
  - intros input w Hb. case_bool_decide; [|reflexivity]. by apply (invoke_moves _ (View input)).
  - intros input w w' r Hb. case_bool_decide as Hn; [|done]. intros [= <- Hr].
    destruct (invoke_run P (View input) w Hn Hb I) as (es & He & Hi & Hin & Hrun).
    destruct (fs_running (invoke (View input) w) !! sw_next w) as [p|] eqn:Hp; [|done].
    destruct p as [| | | | | | | | | | | | | | | | | | | | | | | | | | |result response|]; try done.
    injection Hr as <-. exists es, (sw_next w), input, response. cbn [kernel_system sample_fence_world].
    by split_and!.
Qed.

#[export] Instance sample_control_laws P : KernelControlLaws (Ctx := bytes) P.
Proof. apply (linux_control_laws P sample_control). by vm_compute. Qed.

(** ** The sample's states *)

Lemma sample_timing_ok : timing_ok sample_timing.
Proof. by vm_compute. Qed.

Lemma sample_reaches : reaches (Ctx := bytes) (kernel_system fence_sample_world).
Proof.
  exists sample_config, (λ _, mkCookieMapValue 0 0 0 0 0 0), 1000, []. by repeat constructor.
Qed.

Lemma sample_attempt_ok fuel : attempt_valid (W := SampleWorld) (sample_attempt fuel).
Proof.
  split; [|apply sample_timing_ok]. exists sample_attachment, 9, sample_fence, tt, sample_endpoint_addr.
  by split_and!.
Qed.

Lemma call_returned {A B} (p : A * B) b : p.2 = b → p = (p.1, b).
Proof. intros <-. by destruct p. Qed.

(** The guardian after [n] steps. *)
Definition guardian_sample (n : nat)
    : (FencedUdpSocket () * SampleWorld) * outcome (GuardianStopped ()) GuardianAt :=
  guardian_run (sample_attempt n) fence_sample_world.

Lemma sample_good n : good (Ctx := bytes) (fence_of (guardian_sample n).1).
Proof.
  destruct (sample_attempt_ok n) as [Hf Ht].
  pose proof (guardian_within opens_nothing n sample_session "owner" sample_timing Ht
    (sample_fenced_socket, fence_sample_world) (fresh_good _ _ Hf sample_reaches)) as (Hg & _).
  exact Hg.
Qed.

(** ** The theorems at the sample *)

Lemma lease_bounds_traffic_witness :
  (∃ g, fs_running (kernel_system (guardians (E := ()) [sample_attempt 30] fence_sample_world)) !! 15%nat
        = Some (GateDone (Some g) CGROUP_ALLOW) ∧ gp_disposition g = Protected)
  ∧ ∃ es : list (Event bytes),
      Forall event_ok es
      ∧ run sample_initial es
        = Some (kernel_system (guardians (E := ()) [sample_attempt 30] fence_sample_world)).
Proof.
  split; [by eexists; split; [by vm_compute|]|].
  destruct (lease_bounds_traffic (Ctx := bytes) (E := ()) sample_control [sample_attempt 30] fence_sample_world
    sample_config (λ _, mkCookieMapValue 0 0 0 0 0 0) 1000) as (es & He & Hr & _).
  - by vm_compute.
  - apply Forall_singleton, sample_attempt_ok.
  - done.
  - reflexivity.
  - by exists es.
Defined.

Lemma guardian_holds_its_lease_witness :
  ∃ start l0 t rt,
    granted sample_session "owner" sample_timing sample_fence start l0 t rt
    ∧ system_clock fence_sample_world ≤ start
    ∧ ∀ b, lf_binding (us_fence (guardian_sample 6).1.1) = Some b →
        lb_durable_expiry_boot_ns b = start + (1028 - lease_acquired_at l0).
Proof.
  destruct (guardian_holds_its_lease (Ctx := bytes) (E := ()) opens_nothing (sample_attempt 6) fence_sample_world
    (guardian_sample 6).1 (guardian_sample 6).2 (sample_lease sample_session "owner" 1000 1028))
    as (start & l0 & t & rt & Hg & Hs & _ & _ & _ & Hb).
  - apply sample_attempt_ok.
  - apply sample_reaches.
  - apply surjective_pairing.
  - left. by vm_compute.
  - exists start, l0, t, rt. split; [exact Hg|]. split; [exact Hs|]. intros b Hbd. apply (Hb b Hbd).
Defined.

Lemma guardian_ends_closed_witness :
  us_socket (guardian_sample 8).1.1 = None ∧ ended (Ctx := bytes) (fence_of (guardian_sample 8).1).
Proof.
  destruct (guardian_ends_closed (Ctx := bytes) (E := ()) opens_nothing (sample_attempt 8) fence_sample_world
    (guardian_sample 8).1 (Ok Finished)) as (Hs & _ & [Hn|He]).
  - apply sample_attempt_ok.
  - apply sample_reaches.
  - apply call_returned. by vm_compute.
  - reflexivity.
  - vm_compute in Hn. discriminate.
  - by split.
Defined.

Definition fence_sample_acquire : (FencedUdpSocket () * SampleWorld) * outcome (Stopped ()) LeaseGuard :=
  socket_acquire sample_session "owner" sample_timing (sample_fenced_socket, fence_sample_world).

Lemma acquire_opens_or_closes_witness :
  us_socket fence_sample_acquire.1.1 = Some tt
  ∧ ∃ start t rt,
      granted sample_session "owner" sample_timing sample_fence start
        (sample_lease sample_session "owner" 1000 1020) t rt
      ∧ between (Ctx := bytes) fence_sample_world fence_sample_acquire.1.2
          (λ m, gate_open (fs_maps m) 9 t (start + 20 - 4)).
Proof.
  destruct (acquire_opens_or_closes (Ctx := bytes) (E := ()) opens_nothing sample_session "owner" sample_timing
    (sample_fenced_socket, fence_sample_world) fence_sample_acquire.1
    (Ok (sample_lease sample_session "owner" 1000 1020))) as (Hs & start & t & rt & Hg & _ & _ & _ & _ & _ & Hb).
  - apply fresh_good; [apply (sample_attempt_ok 0)|apply sample_reaches].
  - apply sample_timing_ok.
  - reflexivity.
  - reflexivity.
  - reflexivity.
  - apply call_returned. by vm_compute.
  - split; [exact Hs|]. exists start, t, rt. split; [exact Hg|exact Hb].
Defined.

Definition sample_renew : (FencedUdpSocket () * SampleWorld) * outcome (Stopped ()) LeaseGuard :=
  socket_renew (sample_lease sample_session "owner" 1000 1020) sample_timing (guardian_sample 5).1.

Lemma renew_extends_or_closes_witness :
  us_socket sample_renew.1.1 = us_socket (guardian_sample 5).1.1
  ∧ later_term 20 (sample_lease sample_session "owner" 1000 1020)
      (sample_lease sample_session "owner" 1000 1028)
  ∧ lf_active_deadline_boot_ns (us_fence sample_renew.1.1) = 1024
  ∧ ∃ b start, system_clock (guardian_sample 5).1.2 ≤ start
      ∧ between (Ctx := bytes) (guardian_sample 5).1.2 sample_renew.1.2 (λ m,
          gate_open (fs_maps m) (lf_socket_cookie (us_fence (guardian_sample 5).1.1))
            (lb_socket_lifecycle_token b) (start + 20 - 4)).
Proof.
  destruct (renew_extends_or_closes (Ctx := bytes) (E := ()) opens_nothing
    (sample_lease sample_session "owner" 1000 1020) sample_timing (guardian_sample 5).1 sample_renew.1
    (Ok (sample_lease sample_session "owner" 1000 1028)))
    as (Hs & Hl & b & start & _ & Hc & _ & _ & _ & Hb).
  - apply sample_good.
  - apply sample_timing_ok.
  - by vm_compute.
  - apply call_returned. by vm_compute.
  - split; [exact Hs|]. split; [exact Hl|]. split; [by vm_compute|].
    exists b, start. split; [exact Hc|exact Hb].
Defined.

Definition sample_send
    : (FencedUdpSocket () * SampleWorld) * Timed (outcome SocketError Z) :=
  send_to [1; 2; 3] sample_endpoint_addr (guardian_sample 1).1.


Definition sample_release
    : (FencedUdpSocket () * SampleWorld) * outcome (RetireFenceError ()) () :=
  close_then_release (sample_lease sample_session "owner" 1000 1028) (guardian_sample 7).1.


Definition sample_wait : RenewalWait := mkRenewalWait 1008 1016 5 1000.
Definition sample_waiting : (LeaseBoundFence * SampleWorld) * outcome FenceError RenewalWait :=
  renewal_wait sample_timing (fence_of (guardian_sample 2).1).

Lemma renewal_wait_ends_witness :
  ∃ now, now ≤ system_clock (wait 2 sample_wait sample_waiting.1).1.2
    ∧ lf_active_deadline_boot_ns (us_fence (guardian_sample 2).1.1) - 16 + 16 / 2 ≤ now
    ∧ now < lf_active_deadline_boot_ns (us_fence (guardian_sample 2).1.1).
Proof.
  destruct (renewal_wait_ends (Ctx := bytes) opens_nothing sample_timing 2 (us_fence (guardian_sample 2).1.1)
    (guardian_sample 2).1.2 sample_waiting.1 sample_wait (wait 2 sample_wait sample_waiting.1).1
    (Ok (Some tt))) as [_ Hw].
  - apply sample_good.
  - apply sample_timing_ok.
  - apply call_returned. by vm_compute.
  - by vm_compute.
  - apply call_returned. by vm_compute.
  - destruct (Hw eq_refl) as (now & [_ Hn] & Hl & Hd). exists now.
    split; [exact Hn|]. split; [exact Hl|exact Hd].
Defined.

Definition sample_inspection : SampleWorld * outcome KernelFailure KernelInspection :=
  linux_inspect sample_control sample_attachment (Some (9, 1)) (guardian_sample 1).1.2.

Lemma linux_inspection_exact_witness :
  ∃ m, leads (Ctx := bytes) opens_nothing (kernel_system (guardian_sample 1).1.2) m
    ∧ gate_open (fs_maps m) 9 1 1016.
Proof.
  destruct (linux_inspection_exact (Ctx := bytes) opens_nothing sample_control sample_attachment 9 1
    (guardian_sample 1).1.2 sample_inspection.1
    (mkKernelInspection (mkKernelCurrentFence LifecycleOpen 1 9)
       (Some (mkKernelFenceEntry EntryActive 9 1 1016 2)))) as (m & Hl & _ & Hg & _).
  - by vm_compute.
  - apply (gd_reaches _ (sample_good 1)).
  - by vm_compute.
  - done.
  - by vm_compute.
  - apply call_returned. by vm_compute.
  - exists m. split; [exact Hl|]. apply Hg. split; [reflexivity|]. by exists 2.
Defined.
